(* ===== verification/_CoqProject ===== *)
-Q . S2P
Prelude.v
Effects.v
Locks.v
State.v
Crypto.v
C25519.v
Toy.v
Gost.v
Suites.v
Text.v
Json.v
Addr.v
Fields.v
Secmem.v
Startup.v
Cert.v
Cell.v
Replay.v
Onion.v
Chain.v
Setup.v
Pki.v
Identity.v
Roster.v
Fetch.v
Link.v
Choose.v
Client.v
Ring.v
Pace.v
Limits.v
Relay.v
Server.v
Peers.v
Node.v
Process.v
Lifetime.v
Service.v
Enroll.v
Network.v
Command.v
Paths.v
Counting.v
Compromise.v
Exposure.v
Ranking.v
Separation.v
Digest.v
Conformance.v
Golden.v
