(* ===== verification/Prelude.v ===== *)
(** * Jimichi: a verification library for a metadata-hiding messenger

    This library models the Go program under [src/] in Rocq and proves what makes it
    correct.  This first comment is the guide to the whole of it; every file opens
    with a shorter one of its own.

    ** The program

    A client sends fixed-size cells through a chain of relays.  It draws the chain
    from listed nodes, takes the keys of the nodes from bundles (a certificate of the
    operator's CA and a descriptor signed by the node), opens an authenticated link
    to the first node and lays a circuit with one setup cell that has a layer for
    every relay.  From then on each cell carries one layer of encryption per relay on
    the way out, and gains one per relay on the way back.  A relay process enrolls
    once with the operator, signs descriptors for as long as its certificate lasts,
    replaces its onion key on a schedule, serves a mirror of its peers' bundles and
    extends circuits to the nodes of its roster alone.  Primitives come from one of
    two suites; keys live in memory of their own, which is cleared and unmapped.

    ** How the code is translated

    Go functions are functions of the same names.  A fallible function returns
    [res]; an error is a tree of sentinels ([Effects.error]) on which [errors_is] is
    [errors.Is].  Randomness, and the sizes a process remembers of its suite, are a [World]
    that computations of type [M] pass on, also when they fail; state of a component
    is passed in [ST] (State.v).  Machine integers are [Z] with the wrap-around
    written out ([u64], [i64]); bytes are lists of [byte]; 64-bit floating point is
    [SpecFloat] at 53 bits of precision.  What the environment decides comes in as
    an argument: readings of the clock, answers of a peer, of a network, of the
    kernel.  Goroutines and lock-protected handlers are the steps of a state machine;
    key memory, where the order of lock operations is the point, is modelled lock by
    lock.  Code that is not in the repository is a class of operations with a
    class of laws: [C25519.Primitives], [Gost.GostPrimitives], and above them the
    program's own interface [CryptoProvider] with [CryptoLaws].  Toy.v has concrete
    primitives that satisfy the laws; witnesses are evaluated over them.

    ** The files, from the bottom up

    - Effects, State, Locks: errors and the world; state over it; threads under
      readers-writer locks, with the discipline that keeps them from deadlock.
    - Crypto ([src/crypto/provider.go], [kdf.go]), C25519 ([src/crypto/c25519]),
      Gost ([src/crypto/gost]), Suites ([src/crypto/suite]), Toy.
    - Digest (SHA-256, HMAC and HKDF, written out), Conformance
      ([src/crypto/providertest], the tests every provider must pass) and Golden (its
      vectors, computed).
    - Text, Json, Addr, Fields: what the code uses of base64, hex, JSON, addresses
      and package strings; Addr also has [ValidName] and [ValidAddr].
    - Secmem ([src/crypto/secmem]), Startup (what the commands do with it before
      the first key).
    - Cell, Onion, Replay, Setup ([src/wire]); Chain composes the parts of a circuit.
    - Cert, Pki, Identity, Roster ([src/pki]); Fetch ([src/internal/fetch]).
    - Link ([src/link]), Choose and Client ([src/client]).
    - Ring, Pace, Limits, Relay ([src/relay]); Server has the threads of a relay that
      serves: the accept loop, the handlers and Close.
    - Peers, Node ([src/cmd/relay]); Process ([src/cmd/relay/main.go]) has the checks of
      the flags and [serveNode], which makes a node and a relay and runs them;
      Lifetime and Service state what holds in every run of a node.
    - Enroll ([src/cmd/jimichi]), Network (an enrollment together with the relay
      processes it reaches), Command ([src/cmd/client]).
    - Paths, Compromise, Exposure ([src/lab/paths.go], [seed.go],
      [src/lab/metrics/compromise.go], [src/cmd/lab/paths.go]): how the choice of a path
      is sampled, and the shares of chains an adversary holds; Counting has the counting
      arguments.
    - Ranking, Separation ([src/lab/metrics/correlation.go], [cost.go]): how well an
      observer tells which flows belong together, and what the figures mean.

    The interfaces between components are classes: [CryptoProvider] and [CryptoLaws]
    between the suites and everything above, [Network.Relays] between the operator
    and the relay processes, with an instance that delivers at once,
    [Compromise.Num] between the formulas and the numbers they are computed in,
    [Ranking.Ordered] with [OrderKey] between a ranking and its scores.

    ** What is proved

    - Circuits.  A cell sealed by a client is delivered by the relays of its chain,
      and a reply is delivered back ([Chain.forward_delivery],
      [backward_delivery]); a relay peels nothing that was not sealed for it
      ([peel_authentic]); a setup reaches every relay ([Setup.setup_delivery]); no
      setup opens twice ([Ring.ring_no_replay]).
    - Keys.  The transcript encoding is injective; both suites discharge the
      contract of the interface ([Suites.every_suite_lawful]); both answer every bad
      input of the conformance tests as these want, no lawful provider fails them
      without a reason, and the key schedule gives the golden vectors
      ([Conformance.bad_inputs_refused], [lawful_reports],
      [Golden.golden_vectors]); key memory stays in order and its calls never wait on
      each other ([Secmem.memory_well_formed], [calls_end], [buffer_calls]).
    - Identities.  Encodings are canonical, signed messages of different kinds never
      coincide, [Verify] accepts only what the anchor vouches for and every refusal
      has its own error ([Cert.encodings_canonical], [message_injective],
      [Pki.verify_sound], [verify_errors]); an enrolled node passes
      ([Identity.enrolled_verifies]).
    - Links and clients.  Link ends agree on keys and deliver in order
      ([Link.link_agrees], [link_delivers], [link_authentic]); a dialled circuit is
      one the relays hold ([Client.dial_lays_circuit]); in every interleaving of
      its threads a client counts and judges in turn, and keeps its keys until their
      last use ([client_sends_in_turn], [replies_in_turn], [keys_outlive_use],
      [close_ends]); draws are fair ([Choose.choose_fair]).
    - Relays.  Admission, books, isolation, answers and teardown ([Limits.gate_bounds],
      [Relay.relay_books], [relay_isolation], [exit_answers], [break_tears_down]); in
      every interleaving of its threads [Close] returns, and no circuit or key is left
      when it has; [Serve] ends for two reasons only ([Server.close_releases],
      [close_returns], [serve_ends]).
    - Relay processes.  In every run a descriptor never outlives its onion key, one
      certificate and one roster are taken, what is served passes, and circuits go to
      roster nodes only ([Lifetime.descriptor_within_key], Service.v).  [serveNode] gives back
      every key and port whatever fails, and what it serves is a node and a relay of
      which all this holds ([Process.keys_released], [serve_node_runs], [main_insists]).
    - The whole.  An enrollment that prints its anchor leaves a network whose every
      relay holds its certificate and roster and serves what a client verifies; one
      that fails names the relays it leaves behind ([Enroll.enroll_means],
      [enroll_reports], [Network.enrolled_network], [discarded_named]).  A client takes
      a chain on the word of the anchor alone, and what it logs is the same for every
      draw ([Command.chain_sound], [draw_blind]).
    - Measurements.  The formulas for the shares of chains with rogue nodes are what
      an enumeration of all chains gives, with rogue mirrors too
      ([Compromise.compromise_exhaustive], [Exposure.mirror_exhaustive]); the area under
      a curve is the share of pairs ranked right, by whatever order ties are sorted
      ([Separation.auc_pairs], [roc_area]).

    Many more theorems serve these or stand beside them in the files.

    ** Bounds and fuel

    [Choose.maxDraws] is the source's own bound of a draw; [Json.scan] and the printers
    of integers take the length of the text as fuel, of which every step uses up
    one byte.  Loops over lists are structural.  A retry loop takes the number of
    tries ([Fetch.retried], [Enroll.call]).  The state machines have no bound: what
    is proved of them holds of every reachable state, and the liveness and
    termination theorems give the bound on the steps themselves.

    ** What is not modelled, and why

    - The insides of primitives, and the standard library behind the functions that
      Text, Json, Addr and Fields write out: code that is not in the repository.
    - Sockets, HTTP, DNS, parsing of flags, log texts, signals, tickers: input and output
      around the modelled handlers.  What [Accept], a dial or a read gives is an input
      of the steps.
    - The contents of released memory other than through [secmem], and timing: the
      model has no side channels.
    - The golden vectors of the GOST suite: they are data of Conformance, but Streebog
      and VKO are not in the repository and are not written out here.
    - The experiment harness ([src/lab/harness.go], [tap.go], [src/cmd/lab/main.go]):
      it runs the modelled components under a clock and records what crosses the
      links; its own code is set-up, waiting and printing. *)

(** ** This file: bytes, machine integers, results, entropy, and the shared automation *)

From Stdlib Require Export ZArith Lia.
From Stdlib Require Import Strings.Byte Strings.String.
From stdpp Require Export base list gmap.
From stdpp Require Import strings.

#[global] Open Scope Z_scope.

Create HintDb jimichi discriminated.

(** ** Bytes and big-endian integers *)

Abbreviation bytes := (list byte).

Definition Z_of_byte (b : byte) : Z := Z.of_N (Byte.to_N b).

(** A Go conversion [byte(v)]: the low eight bits. *)
Definition byte_of_Z (z : Z) : byte :=
  match Byte.of_N (Z.to_N (z mod 256)) with
  | Some b => b
  | None => Byte.x00
  end.

(** The bytes of a Go string literal. *)
Definition str (s : string) : bytes := list_byte_of_string s.

#[export] Instance byte_eq_decision : EqDecision byte := Byte.byte_eq_dec.

#[export] Instance byte_inhabited : Inhabited byte := populate Byte.x00.

#[export] Program Instance byte_countable : Countable byte :=
  inj_countable' Byte.to_nat (fun n => default Byte.x00 (Byte.of_nat n)) _.
Next Obligation.
  intros b. destruct b; reflexivity.
Qed.

(** [binary.BigEndian.PutUint16/32/64]: the [n] low-order bytes, most
    significant first. *)
Fixpoint be (n : nat) (v : Z) : bytes :=
  match n with
  | O => []
  | S m => byte_of_Z (Z.shiftr v (8 * Z.of_nat m)) :: be m v
  end.

(** [binary.BigEndian.Uint16/32/64] of a byte string of that width. *)
Fixpoint unbe (l : bytes) : Z :=
  match l with
  | [] => 0
  | b :: t => Z_of_byte b * 2 ^ (8 * Z.of_nat (length t)) + unbe t
  end.

(** Wrap-around of unsigned Go integers. *)
Definition u64 (z : Z) : Z := z mod 2 ^ 64.

(** [int64(v)] of a 64-bit pattern. *)
Definition i64 (z : Z) : Z := (z + 2 ^ 63) mod 2 ^ 64 - 2 ^ 63.

(** ** Slices *)

(** The Go slice expression [l[i:j]] where [i <= j <= len(l)]. *)
Definition slice {A} (i j : nat) (l : list A) : list A := take (j - i) (drop i l).

(** [copy(dst[off:], src)]: as many elements as both sides hold. *)
Definition copy_at {A} (off : nat) (src dst : list A) : list A :=
  take off dst ++ take (length dst - off) src ++ drop (off + length src) dst.

(** ** Errors as values *)

Inductive result (E A : Type) : Type :=
| Ok (a : A)
| Err (e : E).
Arguments Ok {E A} _.
Arguments Err {E A} _.

Definition is_ok {E A} (r : result E A) : bool :=
  match r with Ok _ => true | Err _ => false end.

Definition rbind {E A B} (r : result E A) (k : A -> result E B) : result E B :=
  match r with Ok a => k a | Err e => Err e end.

Declare Scope go_scope.
Delimit Scope go_scope with go.
#[global] Open Scope go_scope.

Notation "'let?' x ':=' e 'in' k" := (rbind e (fun x => k))
  (at level 10, x pattern, e at level 100, k at level 200) : go_scope.

(** [if cond { return err }]. *)
Notation "'guard' b 'else' e ;; k" := (if b then k else Err e)
  (at level 10, b at level 100, e at level 100, k at level 200) : go_scope.

(** ** Lemmas on results *)

Lemma rbind_ok {E A B} (m : result E A) (k : A -> result E B) b :
  rbind m k = Ok b -> exists a, m = Ok a /\ k a = Ok b.
Proof. destruct m; simpl; [eauto | discriminate]. Qed.

Lemma ok_inj {E A} (a b : A) : @Ok E A a = Ok b -> a = b.
Proof. congruence. Qed.

(** The value of a computation that is known to succeed. *)
Definition get_ok {E A} (r : result E A) : is_ok r = true -> A :=
  match r with
  | Ok a => fun _ => a
  | Err _ => fun H => False_rect _ (diff_false_true H)
  end.

Lemma get_ok_spec {E A} (r : result E A) (H : is_ok r = true) : r = Ok (get_ok r H).
Proof. destruct r; [done | discriminate]. Qed.

(** A run that is known to succeed, or to fail, by computation. *)
Lemma run_ok {E A W} (r : result E A * W) : is_ok (fst r) = true -> exists a w, r = (Ok a, w).
Proof. destruct r as [[a|e] w]; [eauto | discriminate]. Qed.

Lemma run_err {E A W} (r : result E A * W) : is_ok (fst r) = false -> exists e w, r = (Err e, w).
Proof. destruct r as [[a|e] w]; [discriminate | eauto]. Qed.

Lemma run_get {E A W} (r : result E A * W) (H : is_ok (fst r) = true) : r = (Ok (get_ok (fst r) H), snd r).
Proof. by rewrite <- get_ok_spec, <- surjective_pairing. Qed.

(** Take a successful computation apart, one bind or guard at a time. *)
Ltac inv_res :=
  repeat match goal with
  | H : rbind _ _ = Ok _ |- _ =>
      let a := fresh "a" in let Ha := fresh "Ha" in
      apply rbind_ok in H as (a & Ha & H)
  | H : (if ?b then _ else Err _) = Ok _ |- _ =>
      let Hb := fresh "Hb" in destruct b eqn:Hb; [|discriminate H]
  | H : (if ?b then Err _ else _) = Ok _ |- _ =>
      let Hb := fresh "Hb" in destruct b eqn:Hb; [discriminate H|]
  | H : Ok _ = Ok _ |- _ => injection H as H
  | H : Err _ = Ok _ |- _ => discriminate H
  | H : Ok _ = Err _ |- _ => discriminate H
  end.

(** ** Lemmas on bytes *)

Lemma Z_of_byte_range b : 0 <= Z_of_byte b < 256.
Proof.
  unfold Z_of_byte. pose proof (Byte.to_N_bounded b). lia.
Qed.

Lemma byte_of_Z_of_byte b : byte_of_Z (Z_of_byte b) = b.
Proof.
  unfold byte_of_Z. rewrite Z.mod_small by apply Z_of_byte_range.
  unfold Z_of_byte. rewrite N2Z.id, Byte.of_to_N. reflexivity.
Qed.

Lemma Z_of_byte_of_Z z : Z_of_byte (byte_of_Z z) = z mod 256.
Proof.
  unfold byte_of_Z, Z_of_byte.
  pose proof (Z.mod_pos_bound z 256 ltac:(lia)).
  destruct (Byte.of_N (Z.to_N (z mod 256))) eqn:E.
  - apply Byte.to_of_N in E. rewrite E. lia.
  - apply Byte.of_N_None_iff in E. lia.
Qed.

Lemma Z_of_byte_inj b c : Z_of_byte b = Z_of_byte c -> b = c.
Proof.
  intros H. rewrite <- (byte_of_Z_of_byte b), H. apply byte_of_Z_of_byte.
Qed.

Lemma byte_of_Z_mod z : byte_of_Z (z mod 256) = byte_of_Z z.
Proof. unfold byte_of_Z. by rewrite Z.mod_mod. Qed.

Lemma byte_of_Z_inj a b :
  0 <= a < 256 -> 0 <= b < 256 -> byte_of_Z a = byte_of_Z b -> a = b.
Proof.
  intros Ha Hb H. apply (f_equal Z_of_byte) in H.
  rewrite !Z_of_byte_of_Z, !Z.mod_small in H by lia. done.
Qed.

(** ** Lemmas on big-endian integers *)

Lemma length_be n v : length (be n v) = n.
Proof. induction n in v |- *; simpl; auto. Qed.

Lemma unbe_bound l : 0 <= unbe l < 2 ^ (8 * Z.of_nat (length l)).
Proof.
  induction l as [|b l IH]; simpl; [lia|].
  pose proof (Z_of_byte_range b).
  replace (8 * Z.of_nat (S (length l))) with (8 + 8 * Z.of_nat (length l)) by lia.
  rewrite Z.pow_add_r by lia. nia.
Qed.

Lemma unbe_be n v : unbe (be n v) = v mod 2 ^ (8 * Z.of_nat n).
Proof.
  induction n as [|n IH]; simpl.
  { by rewrite Z.mod_1_r. }
  rewrite length_be, Z_of_byte_of_Z, IH, Z.shiftr_div_pow2 by lia.
  set (p := 8 * Z.of_nat n).
  replace (8 * Z.of_nat (S n)) with (p + 8) by lia.
  assert (0 < 2 ^ p) by (apply Z.pow_pos_nonneg; lia).
  rewrite Z.pow_add_r by lia. change (2 ^ 8) with 256.
  rewrite Z.rem_mul_r by lia. lia.
Qed.

Lemma unbe_be_small n v : 0 <= v < 2 ^ (8 * Z.of_nat n) -> unbe (be n v) = v.
Proof. intros. rewrite unbe_be. by apply Z.mod_small. Qed.

Lemma unbe_inj l m : length l = length m -> unbe l = unbe m -> l = m.
Proof.
  revert m. induction l as [|b l IH]; intros [|c m] Hl H; simpl in *; try discriminate; auto.
  injection Hl as Hl. rewrite Hl in H.
  pose proof (unbe_bound l) as Bl. pose proof (unbe_bound m) as Bm. rewrite Hl in Bl.
  set (P := 2 ^ (8 * Z.of_nat (length m))) in *.
  assert (Hbc : Z_of_byte b = Z_of_byte c).
  { apply (f_equal (fun z => z / P)) in H.
    rewrite !Z.div_add_l, !Z.div_small in H by lia. lia. }
  f_equal; [by apply Z_of_byte_inj | apply IH; [done | lia]].
Qed.

Lemma be_unbe n l : length l = n -> be n (unbe l) = l.
Proof.
  intros Hl. apply unbe_inj; [by rewrite length_be|].
  apply unbe_be_small. rewrite <- Hl. apply unbe_bound.
Qed.

Lemma be_inj n a b :
  0 <= a < 2 ^ (8 * Z.of_nat n) -> 0 <= b < 2 ^ (8 * Z.of_nat n) ->
  be n a = be n b -> a = b.
Proof.
  intros Ha Hb H. apply (f_equal unbe) in H. by rewrite !unbe_be_small in H.
Qed.

(** ** Lemmas on single bits *)

Lemma testbit_pow2_below n k i : 0 <= n < 2 ^ k -> k <= i -> Z.testbit n i = false.
Proof.
  intros [Hn Hlt] Hi. destruct (Z.eq_dec n 0) as [->|]; [apply Z.bits_0|].
  apply Z.bits_above_log2; [done|].
  apply Z.lt_le_trans with k; [|done]. by apply Z.log2_lt_pow2; [lia|].
Qed.

Lemma land_pow2_below n k : 0 <= k -> 0 <= n < 2 ^ k -> Z.land n (2 ^ k) = 0.
Proof.
  intros Hk Hn. apply Z.bits_inj'. intros i Hi. rewrite Z.land_spec, Z.bits_0.
  rewrite Z.pow2_bits_eqb by done. destruct (Z.eqb_spec k i) as [->|]; [|apply andb_false_r].
  rewrite (testbit_pow2_below n i) by (done || lia). done.
Qed.

Lemma ldiff_pow2_below n k : 0 <= k -> 0 <= n < 2 ^ k -> Z.ldiff n (2 ^ k) = n.
Proof.
  intros Hk Hn. apply Z.bits_inj'. intros i Hi. rewrite Z.ldiff_spec.
  rewrite Z.pow2_bits_eqb by done. destruct (Z.eqb_spec k i) as [->|]; [|apply andb_true_r].
  rewrite (testbit_pow2_below n i) by (done || lia). done.
Qed.

(** ** Lemmas on slices *)

Lemma length_slice {A} i j (l : list A) :
  (i <= j)%nat -> (j <= length l)%nat -> length (slice i j l) = (j - i)%nat.
Proof. intros. unfold slice. rewrite length_take, length_drop. lia. Qed.

(** A slice that lies behind a prefix, and one that is a prefix. *)
Lemma slice_app_r {A} (p l : list A) i j :
  length p = i -> slice i j (p ++ l) = take (j - i) l.
Proof. intros <-. unfold slice. by rewrite drop_app_length. Qed.

Lemma slice_mid {A} (p l q : list A) i j :
  length p = i -> (length l = j - i)%nat -> slice i j (p ++ l ++ q) = l.
Proof. intros Hp Hl. rewrite slice_app_r by done. by rewrite <- Hl, take_app_length. Qed.

Lemma length_copy_at {A} off (src dst : list A) :
  (off <= length dst)%nat -> length (copy_at off src dst) = length dst.
Proof.
  intros. unfold copy_at. rewrite !length_app, !length_take, length_drop. lia.
Qed.

(** [copy] into the front of a longer buffer. *)
Lemma copy_at_front {A} (src dst : list A) :
  (length src <= length dst)%nat -> copy_at 0 src dst = src ++ drop (length src) dst.
Proof.
  intros. unfold copy_at. rewrite take_0, Nat.sub_0_r, take_ge by lia. done.
Qed.

(** [copy] into a prefix and a tail of known widths. *)
Lemma copy_at_app {A} off (src p d : list A) :
  length p = off -> (length src <= length d)%nat ->
  copy_at off src (p ++ d) = p ++ src ++ drop (length src) d.
Proof.
  intros <- H. unfold copy_at. rewrite length_app, take_app_length.
  rewrite (take_ge src) by lia. do 2 f_equal.
  rewrite drop_app_ge by lia. f_equal. lia.
Qed.

Create Rewrite HintDb jlen.

#[export] Hint Rewrite @length_app @length_take @length_drop @length_replicate
  length_be @length_map : jlen.

(** Lengths of the byte strings the code lays out. *)
Ltac len := autorewrite with jlen in *; simpl length in *; autorewrite with jlen in *; try lia.
