(* ===== verification/Effects.v ===== *)
(** * Effects: Go error values, the entropy source and the state they are threaded through

    A Go error is a tree of sentinels, because the code compares errors with
    [errors.Is] and wraps them with [%w]; [%v] hides what it prints.  Randomness
    is a finite stream of bytes, so that [io.ReadFull] can fail.  A computation
    that reads it is a function from the world to a result and the world it
    leaves, also when it fails. *)

From Stdlib Require Import Strings.String.
From S2P Require Import Prelude.

(** ** Errors *)

Inductive sentinel : Type :=
(* package wire *)
| wire_ErrCellSize | wire_ErrVersion | wire_ErrKind | wire_ErrPayloadSize | wire_ErrFraming
| wire_ErrSetupReplay | wire_ErrSetupCacheFull | wire_ErrAddrSize | wire_ErrSetupSize
(* package crypto and crypto/secmem *)
| crypto_ErrBadLabel | crypto_ErrBadContext | crypto_ErrBadKeySize | crypto_ErrOpen
| crypto_ErrBadPublicKey | secmem_ErrReleased | secmem_ErrNotLocked
(* package link *)
| link_ErrHandshake
(* package relay *)
| relay_ErrOnionKey | relay_errRingClosed | relay_ErrStaticPubSize | relay_ErrStaticPair
| relay_errDuplicate | relay_errLinkTaken | relay_errBroken | relay_errOutOfTurn
| relay_errQueueFull | relay_errNotPeer | relay_errFatal | relay_errRelayClosed
| relay_errRefused | relay_errSetupRate
(* package client *)
| client_ErrNodeKey | client_ErrReply | client_ErrReplyHeader | client_ErrReplyNotOpened
| client_ErrReplyOutOfTurn | client_ErrReplyUnsolicited | client_ErrChoice
(* package pki *)
| pki_ErrFormat | pki_ErrVersion | pki_ErrSuite | pki_ErrUnknownCA | pki_ErrCertSignature
| pki_ErrCertTime | pki_ErrWrongAddr | pki_ErrCertMismatch | pki_ErrDescSignature
| pki_ErrDescTime | pki_ErrKeySize | pki_ErrDuplicate | pki_ErrNoCert | pki_ErrNonce
| pki_ErrRoster | pki_ErrRequestSignature
(* the standard library *)
| io_EOF | io_ErrUnexpectedEOF | net_ErrClosed | os_ErrDeadlineExceeded.

#[export] Instance sentinel_eq_decision : EqDecision sentinel.
Proof. solve_decision. Defined.

(** The sentinels that are themselves made with [fmt.Errorf("%w: ...")]. *)
Definition sentinel_wraps (s : sentinel) : option sentinel :=
  match s with
  | relay_errOutOfTurn | relay_errQueueFull => Some relay_errBroken
  | client_ErrReplyHeader | client_ErrReplyNotOpened
  | client_ErrReplyOutOfTurn | client_ErrReplyUnsolicited => Some client_ErrReply
  | _ => None
  end.

(** [Other] is an error made from text alone, [ErrWrap a b] one whose text wraps
    [a] and then [b] with [%w], [ErrHide] one that only prints its cause. *)
Inductive error : Type :=
| Sentinel (s : sentinel)
| Other (text : string)
| ErrWrap (a b : error)
| ErrHide (e : error).

#[export] Instance error_eq_decision : EqDecision error.
Proof. solve_decision. Defined.

(** [errors.Is(e, s)] *)
Fixpoint errors_is (e : error) (s : sentinel) : bool :=
  match e with
  | Sentinel t => bool_decide (t = s) || bool_decide (sentinel_wraps t = Some s)
  | Other _ => false
  | ErrWrap a b => errors_is a s || errors_is b s
  | ErrHide _ => false
  end.

Abbreviation res A := (result error A).

(** [fmt.Errorf("...: %w", err)] on the way out. *)
Definition wrap_err {A} (text : string) (r : res A) : res A :=
  match r with Ok a => Ok a | Err e => Err (ErrWrap (Other text) e) end.

(** ** The world *)

(** What [sizesOf] remembers of a suite. *)
Record suiteSizes : Type := { sz_pub : nat; sz_overhead : nat }.

(** [entropy] is what [rand.Reader] will still give; [size_cache] is the
    [sizeCache] of package wire, [pub_cache] the [pubSizes] of package link. *)
Record World : Type := {
  entropy : bytes;
  size_cache : gmap Z suiteSizes;
  pub_cache : gmap Z nat
}.

Definition with_entropy (r : bytes) (w : World) : World :=
  {| entropy := r; size_cache := size_cache w; pub_cache := pub_cache w |}.

Definition with_size (s : Z) (sz : suiteSizes) (w : World) : World :=
  {| entropy := entropy w; size_cache := <[s := sz]> (size_cache w); pub_cache := pub_cache w |}.

Definition with_pub (s : Z) (n : nat) (w : World) : World :=
  {| entropy := entropy w; size_cache := size_cache w; pub_cache := <[s := n]> (pub_cache w) |}.

(** ** Computations over the world *)

(** What only draws randomness: from the entropy left to the entropy left. *)
Definition Draw (A : Type) : Type := bytes -> res A * bytes.

Definition M (A : Type) : Type := World -> res A * World.

Definition retM {A} (a : A) : M A := fun w => (Ok a, w).

Definition failM {A} (e : error) : M A := fun w => (Err e, w).

Definition lift {A} (r : res A) : M A := fun w => (r, w).

Definition bindM {A B} (m : M A) (k : A -> M B) : M B :=
  fun w => match m w with
           | (Ok a, w') => k a w'
           | (Err e, w') => (Err e, w')
           end.

Definition mwrap {A} (text : string) (m : M A) : M A :=
  fun w => let '(r, w') := m w in (wrap_err text r, w').

Notation "'let!' x ':=' m 'in' k" := (bindM m (fun x => k))
  (at level 10, x pattern, m at level 100, k at level 200) : go_scope.

Definition draw {A} (d : Draw A) : M A := fun w =>
  let '(r, e) := d (entropy w) in (r, with_entropy e w).

(** [io.ReadFull(rand.Reader, b)] for a buffer of [n] bytes. *)
Definition read_full (n : nat) : Draw bytes := fun e =>
  if (length e <? n)%nat then (Err (Sentinel io_ErrUnexpectedEOF), [])
  else (Ok (take n e), drop n e).

Definition rand_read (n : nat) : M bytes := draw (read_full n).

(** ** Lemmas *)

Lemma bindM_ok {A B} (m : M A) (k : A -> M B) w b w' :
  bindM m k w = (Ok b, w') -> exists a w1, m w = (Ok a, w1) /\ k a w1 = (Ok b, w').
Proof. unfold bindM. destruct (m w) as [[a|e] w1]; [eauto | discriminate]. Qed.

Lemma lift_ok {A} (r : res A) w a w' : lift r w = (Ok a, w') -> r = Ok a /\ w' = w.
Proof. unfold lift. by intros [= -> ->]. Qed.

Lemma retM_ok {A} (a : A) w b w' : retM a w = (Ok b, w') -> b = a /\ w' = w.
Proof. unfold retM. by intros [= -> ->]. Qed.

Lemma mwrap_ok {A} t (m : M A) w a w' : mwrap t m w = (Ok a, w') -> m w = (Ok a, w').
Proof. unfold mwrap. destruct (m w) as [[x|e] w1]; simpl; congruence. Qed.

Lemma draw_ok {A} (d : Draw A) w a w' :
  draw d w = (Ok a, w') -> exists e, d (entropy w) = (Ok a, e) /\ w' = with_entropy e w.
Proof. unfold draw. destruct (d (entropy w)) as [r e]. intros [= -> <-]. eauto. Qed.

Lemma read_full_ok n e r e' :
  read_full n e = (Ok r, e') -> length r = n /\ e = r ++ e'.
Proof.
  unfold read_full. destruct (Nat.ltb_spec (length e) n) as [?|H]; [discriminate|].
  intros [= <- <-]. rewrite length_take, take_drop. split; [lia | done].
Qed.

Lemma read_full_enough n e :
  (n <= length e)%nat -> read_full n e = (Ok (take n e), drop n e).
Proof. intros H. unfold read_full. by rewrite (proj2 (Nat.ltb_ge _ _) H). Qed.

Lemma rand_read_ok n w r w' : rand_read n w = (Ok r, w') -> length r = n.
Proof. intros (e & H & _)%draw_ok. by apply read_full_ok in H as [? _]. Qed.

(** Take a successful run apart, one bind at a time. *)
Ltac inv_m :=
  repeat match goal with
  | H : bindM _ _ _ = (Ok _, _) |- _ =>
      let a := fresh "a" in let w := fresh "w" in let Ha := fresh "Ha" in
      apply bindM_ok in H as (a & w & Ha & H)
  | H : lift _ _ = (Ok _, _) |- _ => apply lift_ok in H as [H ->]
  | H : retM _ _ = (Ok _, _) |- _ => apply retM_ok in H as [-> ->]
  | H : mwrap _ _ _ = (Ok _, _) |- _ => apply mwrap_ok in H
  | H : failM _ _ = (Ok _, _) |- _ => discriminate H
  | H : (if ?b then failM _ else _) _ = (Ok _, _) |- _ =>
      let Hb := fresh "Hb" in destruct b eqn:Hb; [discriminate H|]
  end.
