(* ===== verification/Locks.v ===== *)
(** * Locks: threads that share a memory under readers-writer locks

    What [sync.RWMutex] promises, for any number of threads: a lock has one writer
    or some readers; a blocked call of [Lock] keeps new readers out; a lock that is
    not held cannot be unlocked.  A thread is a program of lock operations and
    actions on the shared memory, and the threads interleave at every operation.

    Programs that satisfy [safe] take their locks in ascending rank and act only
    on what the locks they hold protect; the theorems here turn that into
    statements on whole systems: no thread faults, the threads never wait on each
    other for ever, and every run comes to its end. *)

From S2P Require Import Prelude.

Section Programs.
Context {Mem L : Type}.

(** An action that gives [None] is a fault of the process. *)
Inductive Prog (A : Type) : Type :=
| Ret (a : A)
| RLock (l : L) (k : Prog A)
| RUnlock (l : L) (k : Prog A)
| Lock (l : L) (k : Prog A)
| Unlock (l : L) (k : Prog A)
| Act {X : Type} (f : Mem -> option (X * Mem)) (k : X -> Prog A).

Fixpoint bindP {A B} (p : Prog A) (k : A -> Prog B) : Prog B :=
  match p with
  | Ret _ a => k a
  | RLock _ l p => RLock _ l (bindP p k)
  | RUnlock _ l p => RUnlock _ l (bindP p k)
  | Lock _ l p => Lock _ l (bindP p k)
  | Unlock _ l p => Unlock _ l (bindP p k)
  | Act _ f g => Act _ f (fun x => bindP (g x) k)
  end.

(** A thread on its own: every lock is free. *)
Fixpoint alone {A} (p : Prog A) (m : Mem) : option (A * Mem) :=
  match p with
  | Ret _ a => Some (a, m)
  | RLock _ _ p | RUnlock _ _ p | Lock _ _ p | Unlock _ _ p => alone p m
  | Act _ f g => match f m with Some (x, m') => alone (g x) m' | None => None end
  end.

(** [p] ends within [n] operations, a [Lock] counted twice. *)
Fixpoint within {A} (n : nat) (p : Prog A) {struct p} : Prop :=
  match p with
  | Ret _ _ => True
  | RLock _ _ p | RUnlock _ _ p | Unlock _ _ p => match n with S n => within n p | O => False end
  | Lock _ _ p => match n with S (S n) => within n p | _ => False end
  | Act _ _ g => match n with S n => forall x, within n (g x) | O => False end
  end.

Lemma within_le {A} (p : Prog A) n n' : (n <= n')%nat -> within n p -> within n' p.
Proof.
  revert n n'. induction p as [a|l p IH|l p IH|l p IH|l p IH|X f g IH]; intros n n' Hn; cbn; [done|..].
  1, 2, 4: destruct n as [|n]; [done|]; destruct n' as [|n']; [lia|]; apply IH; lia.
  - destruct n as [|[|n]]; [done | done |]. destruct n' as [|[|n']]; [lia | lia |]. apply IH. lia.
  - destruct n as [|n]; [done|]. destruct n' as [|n']; [lia|]. intros H x. apply (IH x n); [lia | apply H].
Qed.

Lemma within_bind {A B} (p : Prog A) (k : A -> Prog B) n n' :
  within n p -> (forall a, within n' (k a)) -> within (n + n') (bindP p k).
Proof.
  intros Hp Hk. revert n Hp. induction p as [a|l p IH|l p IH|l p IH|l p IH|X f g IH]; intros n; cbn.
  - intros _. apply (within_le _ n'); [lia | apply Hk].
  - destruct n as [|n]; [done | cbn; apply IH].
  - destruct n as [|n]; [done | cbn; apply IH].
  - destruct n as [|[|n]]; [done | done | cbn; apply IH].
  - destruct n as [|n]; [done | cbn; apply IH].
  - destruct n as [|n]; [done|]. cbn. intros H x. by apply IH.
Qed.

Lemma alone_bind {A B} (p : Prog A) (k : A -> Prog B) m :
  alone (bindP p k) m = match alone p m with Some (a, m') => alone (k a) m' | None => None end.
Proof.
  revert m. induction p as [a|l p IH|l p IH|l p IH|l p IH|X f g IH]; intros m; cbn; [done|apply IH..|].
  destruct (f m) as [[x m']|]; [apply IH | done].
Qed.

End Programs.

Arguments Ret {Mem L A} a.
Arguments RLock {Mem L A} l k.
Arguments RUnlock {Mem L A} l k.
Arguments Lock {Mem L A} l k.
Arguments Unlock {Mem L A} l k.
Arguments Act {Mem L A X} f k.
Arguments Prog : clear implicits.

Notation "'let#' x ':=' p 'in' k" := (bindP p (fun x => k))
  (at level 10, x pattern, p at level 100, k at level 200) : go_scope.

(** ** Systems of threads *)

Section Systems.
Context {Mem L V : Type} `{EqDecision L}.

Record Thread : Type := {
  th_prog : Prog Mem L V;
  th_reads : list L;
  th_writes : list L;
  th_waits : option L
}.

Definition System : Type := list Thread * Mem.

Definition fresh_thread (p : Prog Mem L V) : Thread :=
  {| th_prog := p; th_reads := []; th_writes := []; th_waits := None |}.

(** No thread has [l] as a writer, or waits to be one. *)
Definition no_writer (l : L) (ts : list Thread) : Prop :=
  Forall (fun t => (l ∉ th_writes t) /\ th_waits t <> Some l) ts.

Definition no_reader (l : L) (ts : list Thread) : Prop := Forall (fun t => l ∉ th_reads t) ts.

(** Drop one hold of [l]. *)
Fixpoint drop_hold (l : L) (held : list L) : list L :=
  match held with
  | [] => []
  | h :: held => if bool_decide (h = l) then held else h :: drop_hold l held
  end.

Lemma drop_hold_sub l held x : x ∈ drop_hold l held -> x ∈ held.
Proof.
  induction held as [|h held IH]; cbn; [done|]. case_bool_decide; rewrite !elem_of_cons; [by right | intros [?|?%IH]; auto].
Qed.

Lemma drop_hold_other l held x : x ∈ held -> x <> l -> x ∈ drop_hold l held.
Proof.
  intros Hx Hne. induction Hx as [x held|x h held Hx IH]; cbn.
  - rewrite bool_decide_false by done. apply list_elem_of_here.
  - case_bool_decide; [done | by apply list_elem_of_further, IH].
Qed.

(** One operation of one thread. *)
Inductive moves (ts : list Thread) (m : Mem) : Thread -> Thread -> Mem -> Prop :=
| mv_rlock l k rd wr :
    no_writer l ts ->
    moves ts m {| th_prog := RLock l k; th_reads := rd; th_writes := wr; th_waits := None |}
               {| th_prog := k; th_reads := l :: rd; th_writes := wr; th_waits := None |} m
| mv_runlock l k rd wr :
    l ∈ rd ->
    moves ts m {| th_prog := RUnlock l k; th_reads := rd; th_writes := wr; th_waits := None |}
               {| th_prog := k; th_reads := drop_hold l rd; th_writes := wr; th_waits := None |} m
| mv_wait l k rd wr :
    no_writer l ts ->
    moves ts m {| th_prog := Lock l k; th_reads := rd; th_writes := wr; th_waits := None |}
               {| th_prog := Lock l k; th_reads := rd; th_writes := wr; th_waits := Some l |} m
| mv_lock l k rd wr :
    no_reader l ts ->
    moves ts m {| th_prog := Lock l k; th_reads := rd; th_writes := wr; th_waits := Some l |}
               {| th_prog := k; th_reads := rd; th_writes := l :: wr; th_waits := None |} m
| mv_unlock l k rd wr :
    l ∈ wr ->
    moves ts m {| th_prog := Unlock l k; th_reads := rd; th_writes := wr; th_waits := None |}
               {| th_prog := k; th_reads := rd; th_writes := drop_hold l wr; th_waits := None |} m
| mv_act X (f : Mem -> option (X * Mem)) k rd wr x m' :
    f m = Some (x, m') ->
    moves ts m {| th_prog := Act f k; th_reads := rd; th_writes := wr; th_waits := None |}
               {| th_prog := k x; th_reads := rd; th_writes := wr; th_waits := None |} m'.

Inductive sys_step : System -> System -> Prop :=
| sys_move ts m i t t' m' :
    ts !! i = Some t -> moves ts m t t' m' -> sys_step (ts, m) (<[i := t']> ts, m').

Definition finished (t : Thread) : Prop := exists v, th_prog t = Ret v.

(** Runs that stay within what the count of some resource can tell apart. *)
Inductive runs (bounded : Mem -> Prop) : nat -> System -> System -> Prop :=
| runs_none s : runs bounded 0 s s
| runs_step n s s' s'' : runs bounded n s s' -> sys_step s' s'' -> bounded (snd s'') -> runs bounded (S n) s s''.

(** The operation a thread is at, if it can go on. *)
Definition move (ts : list Thread) (m : Mem) (t : Thread) : option (Thread * Mem) :=
  let to p rd wr wt m := Some ({| th_prog := p; th_reads := rd; th_writes := wr; th_waits := wt |}, m) in
  let rd := th_reads t in
  let wr := th_writes t in
  match th_prog t, th_waits t with
  | RLock l k, None => if decide (no_writer l ts) then to k (l :: rd) wr None m else None
  | RUnlock l k, None => if decide (l ∈ rd) then to k (drop_hold l rd) wr None m else None
  | Lock l k, None => if decide (no_writer l ts) then to (Lock l k) rd wr (Some l) m else None
  | Lock l k, Some l' => if decide (l = l' /\ no_reader l ts) then to k rd (l :: wr) None m else None
  | Unlock l k, None => if decide (l ∈ wr) then to k rd (drop_hold l wr) None m else None
  | Act f k, None => match f m with Some (x, m') => to (k x) rd wr None m' | None => None end
  | _, _ => None
  end.

Lemma move_sound ts m t t' m' : move ts m t = Some (t', m') -> moves ts m t t' m'.
Proof.
  destruct t as [p rd wr w]. unfold move. cbn.
  destruct p as [a|l p|l p|l p|l p|X f g], w as [l'|]; try done; try case_decide as Hd; try done.
  - intros [= <- <-]. by apply mv_rlock.
  - intros [= <- <-]. by apply mv_runlock.
  - intros [= <- <-]. destruct Hd as [-> Hd]. by apply mv_lock.
  - intros [= <- <-]. by apply mv_wait.
  - intros [= <- <-]. by apply mv_unlock.
  - destruct (f m) as [[x m1]|] eqn:E; [|done]. intros [= <- <-]. by apply mv_act.
Qed.

(** A schedule: which thread goes next, in memories that satisfy [ok]. *)
Fixpoint schedule (ok : Mem -> bool) (order : list nat) (s : System) : option System :=
  match order with
  | [] => Some s
  | i :: order =>
      match fst s !! i with
      | Some t => match move (fst s) (snd s) t with
                  | Some (t', m') => if ok m' then schedule ok order (<[i := t']> (fst s), m') else None
                  | None => None
                  end
      | None => None
      end
  end.

Lemma runs_front bounded n s s' s'' : sys_step s s' -> bounded (snd s') -> runs bounded n s' s'' -> runs bounded (S n) s s''.
Proof.
  intros Hs Hb H. induction H as [s'|n s' s1 s2 H IH Hst Hb2]; [by eapply runs_step; [apply runs_none| |]|].
  eapply runs_step; [by apply IH | exact Hst | exact Hb2].
Qed.

Lemma schedule_runs (bounded : Mem -> Prop) ok order s s' : schedule ok order s = Some s' ->
  (forall m, ok m = true -> bounded m) -> runs bounded (length order) s s'.
Proof.
  intros H Hb. revert s H. induction order as [|i order IH]; intros [ts m] H; cbn in H; [injection H as <-; constructor|].
  destruct (ts !! i) as [t|] eqn:Ei; [|done]. destruct (move ts m t) as [[t' m']|] eqn:Em; [|done].
  destruct (ok m') eqn:Eo; [|done]. apply move_sound in Em. eapply runs_front; [by eapply sys_move | by apply Hb | by apply IH].
Qed.

(** ** Programs that keep to their locks *)

Context {F : Type} (holds : F -> Mem -> Prop) (guarded : F -> option L).
Context (good bounded : Mem -> Prop) (rank : L -> Z).

(** What a thread may change that writes under [wr]: no fact that others' locks guard. *)
Definition keeps (wr : list L) (m m' : Mem) : Prop :=
  forall φ, holds φ m -> (forall l, guarded φ = Some l -> l ∉ wr) -> holds φ m'.

(** Facts that the locks held make stable. *)
Definition backed (held : list L) (K : F -> Prop) : Prop :=
  forall φ l, K φ -> guarded φ = Some l -> l ∈ held.

Definition without (l : L) (K : F -> Prop) : F -> Prop := fun φ => K φ /\ guarded φ <> Some l.

Definition above (held : list L) (l : L) : Prop := Forall (fun h => rank h < rank l) held.

(** [p] takes locks above those it holds, gives back what it holds, and acts on a
    good memory in which the facts [K] hold without a fault, leaving it good. *)
Fixpoint safe {A} (rd wr : list L) (K : F -> Prop) (p : Prog Mem L A)
    (Q : A -> list L -> list L -> (F -> Prop) -> Prop) : Prop :=
  match p with
  | Ret a => Q a rd wr K
  | RLock l p => above (rd ++ wr) l /\ safe (l :: rd) wr K p Q
  | RUnlock l p => l ∈ rd /\ safe (drop_hold l rd) wr (without l K) p Q
  | Lock l p => above (rd ++ wr) l /\ safe rd (l :: wr) K p Q
  | Unlock l p => l ∈ wr /\ safe rd (drop_hold l wr) (without l K) p Q
  | Act f k => forall m, good m -> (forall φ, K φ -> holds φ m) ->
      exists x m', f m = Some (x, m') /\ (bounded m' -> good m' /\ keeps wr m m' /\
        exists K', backed (rd ++ wr) K' /\ (forall φ, K' φ -> holds φ m') /\ safe rd wr K' (k x) Q)
  end.

Lemma safe_bind {A B} (p : Prog Mem L A) (k : A -> Prog Mem L B) rd wr K Q R :
  safe rd wr K p Q -> (forall a rd' wr' K', Q a rd' wr' K' -> safe rd' wr' K' (k a) R) ->
  safe rd wr K (bindP p k) R.
Proof.
  intros Hp Hk. revert rd wr K Hp. induction p as [a|l p IH|l p IH|l p IH|l p IH|X f g IH]; intros rd wr K; cbn.
  - apply Hk.
  - intros [H1 H2]. split; [done | by apply IH].
  - intros [H1 H2]. split; [done | by apply IH].
  - intros [H1 H2]. split; [done | by apply IH].
  - intros [H1 H2]. split; [done | by apply IH].
  - intros H m Hm HK. destruct (H m Hm HK) as (x & m' & Hf & Hr). exists x, m'. split; [done|].
    intros (Hg & Hs & K' & H1 & H2 & H3)%Hr. split_and!; [done | done |]. exists K'. split_and!; [done | done | by apply IH].
Qed.

(** Facts known on top do no harm. *)
Lemma safe_more {A} (p : Prog Mem L A) rd wr (K K' : F -> Prop) (Q Q' : A -> list L -> list L -> (F -> Prop) -> Prop) :
  (forall a rd wr (K K' : F -> Prop), (forall φ, K φ -> K' φ) -> Q a rd wr K -> Q' a rd wr K') ->
  (forall φ, K φ -> K' φ) -> safe rd wr K p Q -> safe rd wr K' p Q'.
Proof.
  intros HQ. revert rd wr K K'. induction p as [a|l p IH|l p IH|l p IH|l p IH|X f g IH]; intros rd wr K K' HK; cbn.
  - by apply HQ.
  - intros [H1 H2]. split; [done | by eapply IH].
  - intros [H1 H2]. split; [done|]. eapply IH; [|exact H2]. intros φ [Hφ Hl]. split; [by apply HK | done].
  - intros [H1 H2]. split; [done | by eapply IH].
  - intros [H1 H2]. split; [done|]. eapply IH; [|exact H2]. intros φ [Hφ Hl]. split; [by apply HK | done].
  - intros H m Hm HK'. destruct (H m Hm) as (x & m' & Hf & Hr); [intros φ Hφ; by apply HK', HK|]. exists x, m'. split; [done|].
    intros (Hg & Hs & K1 & H1 & H2 & H3)%Hr. split_and!; [done | done |]. exists K1. split_and!; [done | done |]. by eapply IH.
Qed.

(** A top-level program ends with no lock. *)
Definition unlocked {A} : A -> list L -> list L -> (F -> Prop) -> Prop := fun _ rd wr _ => rd = [] /\ wr = [].

(** What a thread of a running system satisfies. *)
Record thread_ok (m : Mem) (t : Thread) : Prop := {
  tk_facts : exists K, backed (th_reads t ++ th_writes t) K /\ (forall φ, K φ -> holds φ m) /\
    safe (th_reads t) (th_writes t) K (th_prog t) unlocked;
  tk_waits : forall l, th_waits t = Some l -> exists k, th_prog t = Lock l k
}.

(** No two threads are in each other's way. *)
Definition apart (t u : Thread) : Prop := forall l,
  (l ∈ th_writes t -> (l ∉ th_reads u) /\ (l ∉ th_writes u) /\ th_waits u <> Some l) /\
  (th_waits t = Some l -> (l ∉ th_writes u) /\ th_waits u <> Some l).

Record sys_ok (s : System) : Prop := {
  so_good : good (snd s);
  so_threads : Forall (thread_ok (snd s)) (fst s);
  so_apart : forall i j t u, i <> j -> fst s !! i = Some t -> fst s !! j = Some u -> apart t u
}.

(** *** One operation keeps a system in order *)

Lemma sys_ok_others m m' t ts i j u :
  sys_ok (ts, m) -> ts !! i = Some t -> ts !! j = Some u -> i <> j -> keeps (th_writes t) m m' -> thread_ok m' u.
Proof.
  intros [Hg Ht Ha] Hi Hj Hne Hk. pose proof (proj1 (Forall_lookup _ _) Ht j u Hj) as [(K & HB & HK & HS) Hw]. cbn in *.
  split; [|done]. exists K. split_and!; [done | | done]. intros φ Hφ. apply Hk; [by apply HK|].
  intros l Hl Hin. pose proof (HB φ l Hφ Hl) as Hb. destruct (Ha i j t u Hne Hi Hj l) as [H1 _].
  destruct (H1 Hin) as (Hr & Hwr & _). apply elem_of_app in Hb as [?|?]; [by apply Hr | by apply Hwr].
Qed.

Lemma apart_less t t' u : (forall l, l ∈ th_reads t' -> l ∈ th_reads t) -> (forall l, l ∈ th_writes t' -> l ∈ th_writes t) ->
  (forall l, th_waits t' = Some l -> th_waits t = Some l) -> apart t u /\ apart u t -> apart t' u /\ apart u t'.
Proof.
  intros Hr Hw Hp [H1 H2]. split; intros l.
  - destruct (H1 l) as [A B]. split; [intros Hl; apply A, Hw, Hl | intros Hl; apply B, Hp, Hl].
  - destruct (H2 l) as [A B]. split; [intros Hl | intros Hl].
    + destruct (A Hl) as (A1 & A2 & A3). split_and!; [intros X; apply A1, Hr, X | intros X; apply A2, Hw, X | intros X; apply A3, Hp, X].
    + destruct (B Hl) as [B1 B2]. split; [intros X; apply B1, Hw, X | intros X; apply B2, Hp, X].
Qed.

Lemma moves_apart ts m t t' m' u : moves ts m t t' m' -> u ∈ ts -> apart t u /\ apart u t -> apart t' u /\ apart u t'.
Proof.
  intros Hm Hu. destruct Hm as [l k rd wr Hn | l k rd wr Hin | l k rd wr Hn | l k rd wr Hn | l k rd wr Hin | X f k rd wr x m' Hf].
  - pose proof (proj1 (Forall_forall _ _) Hn u Hu) as [Hn1 Hn2]. intros [H1 H2]. split; intros x.
    + destruct (H1 x) as [A B]. by split.
    + destruct (H2 x) as [A B]. cbn in *. split; [|done]. intros Hx. destruct (A Hx) as (A1 & A2 & A3). split_and!; [|done..].
      rewrite elem_of_cons. intros [->|?]; by auto.
  - apply apart_less; cbn; [apply drop_hold_sub | done | done].
  - pose proof (proj1 (Forall_forall _ _) Hn u Hu) as [Hn1 Hn2]. intros [H1 H2]. split; intros x.
    + destruct (H1 x) as [A B]. cbn in *. split; [done|]. by intros [= <-].
    + destruct (H2 x) as [A B]. cbn in *. split; intros Hx.
      * destruct (A Hx) as (A1 & A2 & A3). split_and!; [done..|]. intros [= <-]. by apply Hn1.
      * destruct (B Hx) as [B1 B2]. split; [done|]. intros [= <-]. by apply Hn2.
  - pose proof (proj1 (Forall_forall _ _) Hn u Hu) as Hn1. intros [H1 H2]. split; intros x.
    + destruct (H1 x) as [A B]. cbn in *. split; [|done]. rewrite elem_of_cons. intros [->|Hx]; [|by apply A].
      destruct (B eq_refl). by split_and!.
    + destruct (H2 x) as [A B]. cbn in *. split; intros Hx.
      * destruct (A Hx) as (A1 & A2 & A3). split_and!; [done| |done]. rewrite elem_of_cons. intros [->|?]; by auto.
      * destruct (B Hx) as [B1 B2]. split; [|done]. rewrite elem_of_cons. intros [->|?]; by auto.
  - apply apart_less; cbn; [done | apply drop_hold_sub | done].
  - by apply apart_less.
Qed.

(** The facts of a thread that gives a lock back. *)
Lemma without_backed held held' l K : (forall x, x ∈ held -> x <> l -> x ∈ held') -> backed held K -> backed held' (without l K).
Proof. intros H HB φ x [HK Hne] Hg. apply H; [by eapply HB | congruence]. Qed.

Lemma backed_more held held' K : held ⊆ held' -> backed held K -> backed held' K.
Proof. intros H HB φ x HK Hg. apply H. by eapply HB. Qed.

Lemma moves_thread ts m t t' m' : good m -> moves ts m t t' m' -> bounded m' -> thread_ok m t ->
  good m' /\ keeps (th_writes t) m m' /\ thread_ok m' t'.
Proof.
  intros Hg Hm Hb [(K & HB & HK & HS) Hw].
  destruct Hm as [l k rd wr Hn | l k rd wr Hin | l k rd wr Hn | l k rd wr Hn | l k rd wr Hin | X f k rd wr x m' Hf]; cbn in *.
  6: { destruct (HS m Hg HK) as (x' & m1 & Hf' & Hr). rewrite Hf in Hf'. injection Hf' as <- <-.
       destruct (Hr Hb) as (Hg' & Hk & K' & H1 & H2 & H3). split_and!; [done | done |]. split; [|done]. by exists K'. }
  all: split; [done|]; split; [by intros φ|]; split; cbn.
  - exists K. destruct HS as [_ HS]. split_and!; [|done|done]. eapply backed_more; [|exact HB]. set_solver.
  - done.
  - exists (without l K). destruct HS as [_ HS]. split_and!; [|by intros φ [Hφ _]; apply HK|done].
    eapply without_backed; [|done]. intros x. rewrite !elem_of_app. intros [?|?]; [left; by apply drop_hold_other | by right].
  - done.
  - by exists K.
  - intros x [= <-]. eauto.
  - exists K. destruct HS as [_ HS]. split_and!; [|done|done]. eapply backed_more; [|exact HB]. set_solver.
  - done.
  - exists (without l K). destruct HS as [_ HS]. split_and!; [|by intros φ [Hφ _]; apply HK|done].
    eapply without_backed; [|done]. intros x. rewrite !elem_of_app. intros [?|?]; [by left | right; by apply drop_hold_other].
  - done.
Qed.

Lemma sys_step_ok s s' : sys_ok s -> sys_step s s' -> bounded (snd s') -> sys_ok s'.
Proof.
  intros Hs Hst Hb. destruct Hst as [ts m i t t' m' Hi Hm]. cbn in Hb.
  pose proof Hs as [Hg Ht Ha]. cbn in *.
  pose proof (proj1 (Forall_lookup _ _) Ht i t Hi) as Hti.
  destruct (moves_thread _ _ _ _ _ Hg Hm Hb Hti) as (Hg' & Hk & Ht'). split; cbn; [done | |].
  - apply Forall_lookup. intros j u Hj. destruct (decide (i = j)) as [<-|Hne].
    + rewrite list_lookup_insert_eq in Hj by (by eapply lookup_lt_Some). by injection Hj as <-.
    + rewrite list_lookup_insert_ne in Hj by done. by apply (sys_ok_others m m' t ts i j u).
  - intros j1 j2 u1 u2 Hne H1 H2. assert (Hlt := lookup_lt_Some _ _ _ Hi).
    destruct (decide (i = j1)) as [<-|N1]; [|destruct (decide (i = j2)) as [<-|N2]].
    + rewrite list_lookup_insert_eq in H1 by done. injection H1 as <-. rewrite list_lookup_insert_ne in H2 by done.
      apply (moves_apart _ _ _ _ _ u2 Hm); [by eapply list_elem_of_lookup_2|]. split; [by eapply (Ha i j2) | by eapply (Ha j2 i)].
    + rewrite list_lookup_insert_eq in H2 by done. injection H2 as <-. rewrite list_lookup_insert_ne in H1 by done.
      apply (moves_apart _ _ _ _ _ u1 Hm); [by eapply list_elem_of_lookup_2|]. split; [by eapply (Ha i j1) | by eapply (Ha j1 i)].
    + rewrite list_lookup_insert_ne in H1, H2 by done. by eapply (Ha j1 j2).
Qed.

Lemma runs_ok n s s' : sys_ok s -> runs bounded n s s' -> sys_ok s'.
Proof. intros Hs. induction 1 as [|n s s' s'' H IH Hst Hb]; [done|]. exact (sys_step_ok _ _ (IH Hs) Hst Hb). Qed.

(** *** No fault, no waiting for ever *)

(** Steps that need no lock of another thread. *)
Definition wants (t : Thread) : option L :=
  match th_prog t with
  | RLock l _ | Lock l _ => Some l
  | _ => None
  end.

(** The thread would crash the process: a fault, or a lock it does not hold. *)
Definition faults (m : Mem) (t : Thread) : Prop :=
  match th_prog t with
  | Act f _ => f m = None
  | RUnlock l _ => l ∉ th_reads t
  | Unlock l _ => l ∉ th_writes t
  | _ => False
  end.

Lemma ok_faultless s t : sys_ok s -> t ∈ fst s -> ~ faults (snd s) t.
Proof.
  intros [Hg Ht _] Hin. pose proof (proj1 (Forall_forall _ _) Ht t Hin) as [(K & HB & HK & HS) _].
  unfold faults. destruct t as [p rd wr pd]; destruct p as [a|l p|l p|l p|l p|X f g]; cbn in *.
  1, 2, 4: by intros [].
  1, 2: intros Hn; by apply Hn, HS.
  destruct (HS _ Hg HK) as (x & m' & -> & _). discriminate.
Qed.

Lemma ok_moves ts m t : sys_ok (ts, m) -> t ∈ ts -> ~ finished t -> wants t = None -> exists t' m', moves ts m t t' m'.
Proof.
  intros Hs Hin Hf Hw. pose proof Hs as [Hg Ht _]. cbn in *.
  pose proof (proj1 (Forall_forall _ _) Ht t Hin) as [(K & HB & HK & HS) Hp].
  destruct t as [p rd wr [l0|]]; cbn in *.
  { destruct (Hp l0 eq_refl) as [k ->]. discriminate Hw. }
  destruct p as [a|l p|l p|l p|l p|X f g]; cbn in *; try discriminate Hw.
  - destruct Hf. by exists a.
  - eexists _, _. by apply mv_runlock, HS.
  - eexists _, _. by apply mv_unlock, HS.
  - destruct (HS _ Hg HK) as (x & m' & Hx & _). eexists _, _. by apply mv_act.
Qed.

(** Who holds a lock is not done, and what it wants lies above. *)
Lemma ok_holder ts m t l : sys_ok (ts, m) -> t ∈ ts -> l ∈ th_reads t ++ th_writes t ->
  ~ finished t /\ (forall l', wants t = Some l' -> rank l < rank l').
Proof.
  intros [_ Ht _] Hin Hl. pose proof (proj1 (Forall_forall _ _) Ht t Hin) as [(K & HB & HK & HS) _].
  destruct t as [p rd wr pd]. unfold wants, finished. cbn in *. split.
  - intros [v ->]. cbn in HS. destruct HS as [-> ->]. by apply not_elem_of_nil in Hl.
  - intros l' Hw. destruct p as [a|x p|x p|x p|x p|X f g]; try discriminate Hw; injection Hw as ->; destruct HS as [Ha _];
      exact (proj1 (Forall_forall _ _) Ha l Hl).
Qed.

(** The greatest of those with a property. *)
Lemma greatest {A} (P : A -> Prop) `{!forall x, Decision (P x)} (f : A -> Z) (l : list A) x0 :
  x0 ∈ l -> P x0 -> exists x, x ∈ l /\ P x /\ (forall y, y ∈ l -> P y -> f y <= f x).
Proof.
  intros Hin HP. induction l as [|a l IH] in x0, Hin, HP |- *; [by apply not_elem_of_nil in Hin|].
  destruct (decide (Exists P l)) as [(y & Hy & HPy)%Exists_exists|Hn].
  - destruct (IH y Hy HPy) as (x & Hx & HPx & Hmax). destruct (decide (P a)) as [HPa|HPa]; [destruct (Z.le_gt_cases (f x) (f a))|].
    + exists a. split_and!; [apply list_elem_of_here | done |]. intros z [->|Hz]%elem_of_cons HPz; [lia|]. specialize (Hmax z Hz HPz). lia.
    + exists x. split_and!; [by apply list_elem_of_further | done |]. intros z [->|Hz]%elem_of_cons HPz; [lia | by apply Hmax].
    + exists x. split_and!; [by apply list_elem_of_further | done |]. intros z [->|Hz]%elem_of_cons HPz; [done | by apply Hmax].
  - assert (forall z, z ∈ a :: l -> P z -> z = a) as Ha.
    { intros z [->|Hz]%elem_of_cons HPz; [done|]. destruct Hn. apply Exists_exists. eauto. }
    pose proof (Ha x0 Hin HP) as ->. exists a. split_and!; [apply list_elem_of_here | done |]. intros z Hz HPz. by rewrite (Ha z Hz HPz).
Qed.

#[local] Instance finished_dec t : Decision (finished t).
Proof.
  unfold finished. destruct t as [[a| | | | |] rd wr pd]; cbn; [left; eauto | right; by intros [v Hv]..].
Qed.

Definition want_rank (t : Thread) : Z := match wants t with Some l => rank l | None => 0 end.

(** The thread that wants the lock of the greatest rank, or the one that already
    waits for that lock, can go on. *)
Lemma ok_progress ts m t0 : sys_ok (ts, m) -> t0 ∈ ts -> ~ finished t0 -> exists t t' m', t ∈ ts /\ moves ts m t t' m'.
Proof.
  intros Hs Hin Hf.
  destruct (decide (Exists (fun t => ~ finished t /\ wants t = None) ts)) as [(t & Ht & Htf & Hw)%Exists_exists|Hall].
  { destruct (ok_moves _ _ _ Hs Ht Htf Hw) as (t' & m' & Hm). eauto. }
  assert (forall t, t ∈ ts -> ~ finished t -> exists l, wants t = Some l) as Hwant.
  { intros t Ht Htf. destruct (wants t) eqn:E; [eauto|]. destruct Hall. apply Exists_exists. eauto. }
  destruct (greatest (fun t => ~ finished t) want_rank ts t0 Hin Hf) as (t & Ht & Htf & Hmax).
  destruct (Hwant t Ht Htf) as [l Hl].
  assert (forall u, u ∈ ts -> l ∉ th_reads u ++ th_writes u) as Hfree.
  { intros u Hu Hlu. destruct (ok_holder _ _ _ _ Hs Hu Hlu) as [Huf Hab]. destruct (Hwant u Hu Huf) as [l' Hl'].
    pose proof (Hab l' Hl'). pose proof (Hmax u Hu Huf) as Hm. unfold want_rank in Hm. rewrite Hl, Hl' in Hm. lia. }
  assert (no_reader l ts) as Hnr by (apply Forall_forall; intros u Hu Hlu; apply (Hfree u Hu), elem_of_app; by left).
  destruct (decide (Exists (fun u => th_waits u = Some l) ts)) as [(u & Hu & Hwu)%Exists_exists|Hnw].
  - pose proof Hs as [_ Hok _]. destruct (tk_waits _ _ (proj1 (Forall_forall _ _) Hok u Hu) l Hwu) as [k Hk].
    destruct u as [p rd wr pd]. cbn in *. subst. eexists _, _, _. split; [exact Hu | by apply mv_lock].
  - assert (no_writer l ts) as Hno.
    { apply Forall_forall. intros u Hu. split; [intros Hlu; apply (Hfree u Hu), elem_of_app; by right|].
      intros Hwu. destruct Hnw. apply Exists_exists. eauto. }
    assert (th_waits t = None) as Hnone.
    { destruct (th_waits t) as [l'|] eqn:E; [|done]. pose proof Hs as [_ Hok _].
      destruct (tk_waits _ _ (proj1 (Forall_forall _ _) Hok t Ht) l' E) as [k Hk]. unfold wants in Hl. rewrite Hk in Hl.
      injection Hl as ->. destruct Hnw. apply Exists_exists. eauto. }
    destruct t as [p rd wr pd]. unfold wants in Hl. cbn in *. subst pd.
    destruct p as [a|x p|x p|x p|x p|X f g]; try discriminate Hl; injection Hl as ->; eexists _, _, _; (split; [exact Ht|]).
    + by apply mv_rlock.
    + by apply mv_wait.
Qed.

(** *** Every run ends *)

(** A thread has at most [n] operations left. *)
Definition left_within (n : nat) (t : Thread) : Prop :=
  match th_waits t with
  | None => within n (th_prog t)
  | Some l => exists n' k, n = S n' /\ th_prog t = Lock l k /\ within n' k
  end.

Lemma moves_left ts m t t' m' n : moves ts m t t' m' -> left_within n t -> exists n', n = S n' /\ left_within n' t'.
Proof.
  unfold left_within.
  destruct 1 as [l k rd wr Hn | l k rd wr Hin | l k rd wr Hn | l k rd wr Hn | l k rd wr Hin | X f k rd wr x m' Hf]; cbn.
  1, 2, 5: destruct n as [|n]; [done|]; eauto.
  - destruct n as [|[|n]]; [done..|]. eauto 10.
  - intros (n' & k' & -> & [= <-] & Hk). eauto.
  - destruct n as [|n]; [done|]. eauto.
Qed.

Lemma sum_insert (ns : list nat) i n : ns !! i = Some (S n) -> S (sum_list (<[i := n]> ns)) = sum_list ns.
Proof.
  revert i. induction ns as [|x ns IH]; intros [|i]; cbn; [done | done | by intros [= ->] | intros H%IH; by rewrite <- H, Nat.add_succ_r].
Qed.

Lemma runs_left n s s' ns : runs bounded n s s' -> Forall2 left_within ns (fst s) ->
  exists ns', Forall2 left_within ns' (fst s') /\ (n + sum_list ns' = sum_list ns)%nat.
Proof.
  induction 1 as [s|n s s' s'' H IH Hst Hb]; intros Hns; [by exists ns|].
  destruct (IH Hns) as (ns' & Hns' & Hsum). destruct Hst as [ts m i t t' m' Hi Hm]. cbn in *.
  destruct (Forall2_lookup_r _ _ _ _ _ Hns' Hi) as (n0 & Hn0 & Hl).
  destruct (moves_left _ _ _ _ _ _ Hm Hl) as (n1 & -> & Hl'). exists (<[i := n1]> ns'). split; [by apply Forall2_insert|].
  pose proof (sum_insert _ _ _ Hn0). lia.
Qed.

(** In every run from a system in order: no thread faults, no unfinished system is
    stuck, and the run has no more steps than its programs have operations. *)
Lemma system_ends n s s' ns : sys_ok s -> Forall2 left_within ns (fst s) -> runs bounded n s s' ->
  sys_ok s' /\ Forall (fun t => ~ faults (snd s') t) (fst s') /\ (n <= sum_list ns)%nat /\
  (Forall finished (fst s') \/ exists s'', sys_step s' s'').
Proof.
  intros Hs Hns Hr. pose proof (runs_ok _ _ _ Hs Hr) as Hs'. destruct (runs_left _ _ _ _ Hr Hns) as (ns' & _ & Hsum).
  split_and!; [done | | lia |].
  - apply Forall_forall. intros t Ht. by apply ok_faultless.
  - destruct (decide (Forall finished (fst s'))) as [?|Hn]; [by left | right].
    apply not_Forall_Exists, Exists_exists in Hn as (t & Ht & Hf); [|apply _].
    destruct s' as [ts m]. destruct (ok_progress _ _ _ Hs' Ht Hf) as (u & u' & m' & Hu & Hm).
    apply list_elem_of_lookup_1 in Hu as [i Hi]. eexists. by eapply sys_move.
Qed.

End Systems.

Arguments Thread : clear implicits.
Arguments System : clear implicits.
