(* ===== verification/State.v ===== *)
(** * State: computations over a component's own state and the world

    What the link and the client are written in: a state passed through, an
    error that keeps the state it left, and the world beneath. *)

From S2P Require Import Prelude Effects.

Definition ST (S A : Type) : Type := S -> World -> (res A * S) * World.

Section Operations.
Context {S : Type}.

Definition retS {A} (a : A) : ST S A := fun s w => ((Ok a, s), w).

Definition failS {A} (e : error) : ST S A := fun s w => ((Err e, s), w).

Definition bindS {A B} (m : ST S A) (k : A -> ST S B) : ST S B := fun s w =>
  match m s w with
  | ((Ok a, s'), w') => k a s' w'
  | ((Err e, s'), w') => ((Err e, s'), w')
  end.

(** A computation over the world alone, and one over neither. *)
Definition worldS {A} (m : M A) : ST S A := fun s w => let '(r, w') := m w in ((r, s), w').
Definition resS {A} (r : res A) : ST S A := fun s w => ((r, s), w).

Definition getS {A} (f : S -> A) : ST S A := fun s w => ((Ok (f s), s), w).
Definition modS (f : S -> S) : ST S unit := fun s w => ((Ok tt, f s), w).

(** The error of a computation, changed on the way out. *)
Definition errS {A} (f : error -> error) (m : ST S A) : ST S A := fun s w =>
  match m s w with
  | ((Ok a, s'), w') => ((Ok a, s'), w')
  | ((Err e, s'), w') => ((Err (f e), s'), w')
  end.

End Operations.

Notation "'let*' x ':=' m 'in' k" := (bindS m (fun x => k))
  (at level 10, x pattern, m at level 100, k at level 200) : go_scope.

Section Lemmas.
Context {S : Type}.

Lemma bindS_ok {A B} (m : ST S A) (k : A -> ST S B) s w b s' w' :
  bindS m k s w = ((Ok b, s'), w') -> exists a s1 w1, m s w = ((Ok a, s1), w1) /\ k a s1 w1 = ((Ok b, s'), w').
Proof. unfold bindS. destruct (m s w) as [[[a|e] s1] w1]; [eauto 10 | discriminate]. Qed.

Lemma bindS_eq {A B} (m : ST S A) (k : A -> ST S B) s w a s1 w1 :
  m s w = ((Ok a, s1), w1) -> bindS m k s w = k a s1 w1.
Proof. unfold bindS. by intros ->. Qed.

Lemma retS_ok {A} (a : A) (s : S) w b s' w' : retS a s w = ((Ok b, s'), w') -> b = a /\ s' = s /\ w' = w.
Proof. by intros [= -> -> ->]. Qed.

Lemma resS_ok {A} (r : res A) (s : S) w b s' w' :
  resS r s w = ((Ok b, s'), w') -> r = Ok b /\ s' = s /\ w' = w.
Proof. by intros [= -> -> ->]. Qed.

Lemma worldS_ok {A} (m : M A) (s : S) w b s' w' :
  worldS m s w = ((Ok b, s'), w') -> m w = (Ok b, w') /\ s' = s.
Proof. unfold worldS. destruct (m w) as [r w1]. by intros [= -> -> ->]. Qed.

Lemma errS_ok {A} f (m : ST S A) s w b s' w' : errS f m s w = ((Ok b, s'), w') -> m s w = ((Ok b, s'), w').
Proof. unfold errS. destruct (m s w) as [[[a|e] s1] w1]; congruence. Qed.

Lemma getS_ok {A} (f : S -> A) s w b s' w' : getS f s w = ((Ok b, s'), w') -> b = f s /\ s' = s /\ w' = w.
Proof. by intros [= -> -> ->]. Qed.

Lemma modS_ok (f : S -> S) s w b s' w' : modS f s w = ((Ok b, s'), w') -> s' = f s /\ w' = w.
Proof. unfold modS. intros H. split; congruence. Qed.

End Lemmas.

(** Take a successful run apart, one bind at a time. *)
Ltac inv_s :=
  repeat match goal with
  | H : bindS _ _ _ _ = ((Ok _, _), _) |- _ =>
      let a := fresh "a" in let s := fresh "s" in let w := fresh "w" in let Ha := fresh "Ha" in
      apply bindS_ok in H as (a & s & w & Ha & H)
  | H : resS _ _ _ = ((Ok _, _), _) |- _ => apply resS_ok in H as (H & -> & ->)
  | H : retS _ _ _ = ((Ok _, _), _) |- _ => apply retS_ok in H as (-> & -> & ->)
  | H : getS _ _ _ = ((Ok _, _), _) |- _ => apply getS_ok in H as (-> & -> & ->)
  | H : modS _ _ _ = ((Ok _, _), _) |- _ => apply modS_ok in H as (-> & ->)
  | H : worldS _ _ _ = ((Ok _, _), _) |- _ => apply worldS_ok in H as [H ->]
  | H : errS _ _ _ _ = ((Ok _, _), _) |- _ => apply errS_ok in H
  | H : failS _ _ _ = ((Ok _, _), _) |- _ => discriminate H
  | H : (if ?b then failS _ else _) _ _ = ((Ok _, _), _) |- _ =>
      let Hb := fresh "Hb" in destruct b eqn:Hb; [discriminate H|]
  end.
