(* ===== verification/Crypto.v ===== *)
(** * Crypto: suites, labels, transcripts and the provider interface

    Models [src/crypto/provider.go] and [src/crypto/kdf.go].  The Go interface
    [CryptoProvider] is a class of operations; what the callers rely on is the
    class of laws [CryptoLaws], which an implementation discharges. *)

From Stdlib Require Import Strings.Byte Strings.String.
From S2P Require Import Prelude Effects.

(** ** Suites *)

Definition SuiteGOST : Z := 1.
Definition SuiteC25519 : Z := 2.

Definition Suite_String (s : Z) : bytes :=
  if s =? SuiteGOST then str "gost"
  else if s =? SuiteC25519 then str "c25519"
  else str "unknown".

Definition knownSuite (s : Z) : bool := (s =? SuiteGOST) || (s =? SuiteC25519).

(** ** Character classes *)

Definition in_range (lo hi c : byte) : bool :=
  (Z_of_byte lo <=? Z_of_byte c) && (Z_of_byte c <=? Z_of_byte hi).

Definition is_lower (c : byte) : bool := in_range "a" "z" c.
Definition is_digit (c : byte) : bool := in_range "0" "9" c.

(** ** Labels *)

Definition ContextSize : nat := 32.
Definition labelPrefix : bytes := str "jimichi/v1/".
Definition maxNameSize : nat := 32.
Definition maxParts : nat := 255.
Definition maxPartSize : Z := 65535.
Definition transcriptNS : bytes := str "transcript/".
Definition reservedPurposes : list bytes := [str "agree"; str "mix"].

Fixpoint validName_from (prev : byte) (name : bytes) : bool :=
  match name with
  | [] => negb (bool_decide (prev = "/"%byte))
  | c :: rest =>
      if is_lower c || is_digit c then validName_from c rest
      else if bool_decide (c = "/"%byte) && negb (bool_decide (prev = "/"%byte))
           then validName_from c rest
           else false
  end.

Definition validName (name : bytes) : bool :=
  if (length name =? 0)%nat || (maxNameSize <? length name)%nat then false
  else validName_from "/" name.

Definition Label (s : Z) (purpose : bytes) : res bytes :=
  if negb (knownSuite s) || negb (validName purpose) then Err (Sentinel crypto_ErrBadLabel)
  else Ok (labelPrefix ++ Suite_String s ++ str "/" ++ purpose).

Definition DeriveLabel (s : Z) (purpose : bytes) : res bytes :=
  if bool_decide (purpose ∈ reservedPurposes) then Err (Sentinel crypto_ErrBadLabel)
  else if bool_decide (transcriptNS `prefix_of` purpose) then Err (Sentinel crypto_ErrBadLabel)
  else Label s purpose.

(** ** Transcripts *)

Record Context : Type := { ctx_suite : Z; ctx_sum : bytes; ctx_set : bool }.

Definition Context_Valid (c : Context) : bool := ctx_set c && knownSuite (ctx_suite c).

Definition part_ok (part : bytes) : bool :=
  negb ((length part =? 0)%nat || (maxPartSize <? Z.of_nat (length part))).

Definition transcript_head (s : Z) (exchange : bytes) : bytes :=
  labelPrefix ++ Suite_String s ++ str "/" ++ transcriptNS ++ exchange.

Definition encode_parts (parts : list bytes) : bytes :=
  concat (map (fun part => be 2 (Z.of_nat (length part)) ++ part) parts).

Definition TranscriptBytes (s : Z) (exchange : bytes) (parts : list bytes) : res bytes :=
  if negb (knownSuite s) then Err (Sentinel crypto_ErrBadContext)
  else if negb (validName exchange) then Err (Sentinel crypto_ErrBadLabel)
  else if (length parts =? 0)%nat || (maxParts <? length parts)%nat
       then Err (Sentinel crypto_ErrBadContext)
  else if negb (forallb part_ok parts) then Err (Sentinel crypto_ErrBadContext)
  else Ok (transcript_head s exchange
           ++ [Byte.x00; byte_of_Z (Z.of_nat (length parts))] ++ encode_parts parts).

(** ** The provider interface *)

Record AEAD : Type := {
  NonceSize : nat;
  Overhead : nat;
  Seal : bytes -> bytes -> bytes -> bytes;        (* nonce, plaintext, ad *)
  Open : bytes -> bytes -> bytes -> res bytes     (* nonce, ciphertext, ad *)
}.

(** The operations; key buffers are the bytes they hold. *)
Class CryptoProvider : Type := {
  Suite : Z;
  KeySize : nat;
  GenerateEphemeral : Draw (bytes * bytes);
  Agree : bytes -> bytes -> Context -> res bytes;
  MixKey : bytes -> bytes -> Context -> res bytes;
  DeriveKey : bytes -> bytes -> Context -> nat -> res bytes;
  NewAEAD : bytes -> res AEAD;
  GenerateSigning : Draw (bytes * bytes);
  Sign : bytes -> bytes -> Draw bytes;
  Verify : bytes -> bytes -> bytes -> bool;
  Hash : bytes -> bytes
}.

Definition NewContext `{CryptoProvider} (exchange : bytes) (parts : list bytes) : res Context :=
  let? t := TranscriptBytes Suite exchange parts in
  let sum := Hash t in
  if negb (length sum =? ContextSize)%nat then Err (Sentinel crypto_ErrBadContext)
  else Ok {| ctx_suite := Suite; ctx_sum := sum; ctx_set := true |}.

(** A key pair the provider made, for agreement and for signing. *)
Definition KeyPair `{CryptoProvider} (priv pub : bytes) : Prop :=
  exists e e', GenerateEphemeral e = (Ok (priv, pub), e').

Definition SigningPair `{CryptoProvider} (priv pub : bytes) : Prop :=
  exists e e', GenerateSigning e = (Ok (priv, pub), e').

(** A nonce every suite takes: MGM refuses one whose top bit is set. *)
Definition nonce_admissible (n : bytes) : Prop :=
  length n = 16%nat -> exists b rest, n = b :: rest /\ Z_of_byte b < 128.

(** What the callers of a provider rely on. *)
Class CryptoLaws `{P : CryptoProvider} : Type := {
  pub_size : nat;
  nonce_size : nat;
  overhead : nat;
  suite_known : knownSuite Suite = true;
  key_size_pos : (16 <= KeySize)%nat;
  nonce_size_wide : (16 <= nonce_size)%nat;
  overhead_small : (0 < overhead <= 32)%nat;
  pub_size_range : (0 < pub_size <= 128)%nat;
  generate_pub_size priv pub : KeyPair priv pub -> length pub = pub_size;
  agree_pub_size priv pub c s : Agree priv pub c = Ok s -> length pub = pub_size;
  agree_comm a a' b b' c : KeyPair a a' -> KeyPair b b' -> Agree a b' c = Agree b a' c;
  agree_size a b c s : Agree a b c = Ok s -> length s = KeySize;
  mix_size a b c s : MixKey a b c = Ok s -> length s = KeySize;
  derive_size s p c n k : DeriveKey s p c n = Ok k -> length k = n;
  derive_uniform s p c n k p' n' l : DeriveKey s p c n = Ok k -> DeriveLabel Suite p' = Ok l ->
    (0 < n' <= KeySize)%nat -> exists k', DeriveKey s p' c n' = Ok k';
  new_aead k : length k = KeySize -> exists a, NewAEAD k = Ok a;
  aead_sizes k a : NewAEAD k = Ok a -> NonceSize a = nonce_size /\ Overhead a = overhead;
  seal_length k a n p ad : NewAEAD k = Ok a -> length (Seal a n p ad) = (length p + overhead)%nat;
  open_seal k a n p ad : NewAEAD k = Ok a -> length n = nonce_size -> nonce_admissible n ->
    Open a n (Seal a n p ad) ad = Ok p;
  open_sound k a n c p ad : NewAEAD k = Ok a -> Open a n c ad = Ok p -> c = Seal a n p ad;
  hash_size b : length (Hash b) = ContextSize;
  signing_pub_size priv pub : SigningPair priv pub -> (0 < length pub <= 128)%nat;
  sign_size priv m e s e' : Sign priv m e = (Ok s, e') -> (length s <= 128)%nat;
  sign_verify priv pub m e s e' :
    SigningPair priv pub -> Sign priv m e = (Ok s, e') -> Verify pub m s = true
}.

(** ** Lemmas on names and heads *)

(** The bytes before the first zero byte. *)
Fixpoint before_nul (l : bytes) : bytes :=
  match l with
  | [] => []
  | b :: t => if bool_decide (b = Byte.x00) then [] else b :: before_nul t
  end.

Definition no_nul (l : bytes) : bool := forallb (fun b => negb (bool_decide (b = Byte.x00))) l.

Lemma no_nul_app l m : no_nul (l ++ m) = no_nul l && no_nul m.
Proof. unfold no_nul. apply forallb_app. Qed.

Lemma before_nul_app l m : no_nul l = true -> before_nul (l ++ Byte.x00 :: m) = l.
Proof.
  induction l as [|b l IH]; simpl; [done|].
  destruct (bool_decide (b = Byte.x00)); simpl; [done|]. intros H. f_equal. auto.
Qed.

Lemma before_nul_id l : no_nul l = true -> before_nul l = l.
Proof.
  induction l as [|b l IH]; simpl; [done|].
  destruct (bool_decide (b = Byte.x00)); simpl; [done|]. intros H. f_equal. auto.
Qed.

Lemma validName_from_no_nul prev name : validName_from prev name = true -> no_nul name = true.
Proof.
  induction name as [|c name IH] in prev |- *; simpl; [done|].
  destruct (is_lower c || is_digit c) eqn:E.
  - intros H%IH. rewrite H, andb_true_r. destruct c; try reflexivity; discriminate E.
  - destruct (bool_decide (c = "/"%byte)) eqn:Ec; simpl; [|done].
    apply bool_decide_eq_true in Ec as ->. simpl.
    destruct (negb (bool_decide (prev = "/"%byte))); [|done]. apply IH.
Qed.

Lemma validName_no_nul name : validName name = true -> no_nul name = true.
Proof.
  unfold validName. destruct (_ || _); [done|]. apply validName_from_no_nul.
Qed.

Lemma Suite_String_no_nul s : no_nul (Suite_String s) = true.
Proof. unfold Suite_String. by repeat case_match. Qed.

Lemma known_cases s : knownSuite s = true -> s = SuiteGOST \/ s = SuiteC25519.
Proof. unfold knownSuite. intros [H|H]%orb_true_iff; apply Z.eqb_eq in H; auto. Qed.

(** A name behind the suite determines both. *)
Lemma suite_prefix_inj s s' a b :
  knownSuite s = true -> knownSuite s' = true ->
  labelPrefix ++ Suite_String s ++ str "/" ++ a = labelPrefix ++ Suite_String s' ++ str "/" ++ b ->
  s = s' /\ a = b.
Proof.
  intros [-> | ->]%known_cases [-> | ->]%known_cases H%(inj (app labelPrefix));
    cbn in H; first [by injection H | discriminate H].
Qed.

Lemma label_ok s p l :
  Label s p = Ok l ->
  knownSuite s = true /\ validName p = true /\ l = labelPrefix ++ Suite_String s ++ str "/" ++ p.
Proof.
  unfold Label. destruct (knownSuite s), (validName p); simpl; try discriminate.
  intros [= <-]. auto.
Qed.

Lemma derive_label_ok s p l :
  DeriveLabel s p = Ok l ->
  Label s p = Ok l /\ (p ∉ reservedPurposes) /\ ~ (transcriptNS `prefix_of` p).
Proof.
  unfold DeriveLabel. repeat case_bool_decide; try discriminate. auto.
Qed.

Lemma label_no_nul s p l : Label s p = Ok l -> no_nul l = true.
Proof.
  intros (_ & Hp & ->)%label_ok.
  rewrite !no_nul_app, Suite_String_no_nul, (validName_no_nul p) by done. reflexivity.
Qed.

Lemma transcript_ok s e ps t :
  TranscriptBytes s e ps = Ok t ->
  knownSuite s = true /\ validName e = true /\ (0 < length ps <= maxParts)%nat /\
  Forall (fun p => (0 < length p)%nat /\ Z.of_nat (length p) <= maxPartSize) ps /\
  t = transcript_head s e ++ [Byte.x00; byte_of_Z (Z.of_nat (length ps))] ++ encode_parts ps.
Proof.
  unfold TranscriptBytes.
  destruct (knownSuite s); simpl; [|discriminate].
  destruct (validName e); simpl; [|discriminate].
  destruct (Nat.eqb_spec (length ps) 0); simpl; [discriminate|].
  destruct (Nat.ltb_spec maxParts (length ps)); [discriminate|].
  destruct (forallb part_ok ps) eqn:Hp; simpl; [|discriminate].
  intros [= <-]. repeat split; auto; try lia.
  apply Forall_forall. intros x Hx%list_elem_of_In.
  rewrite forallb_forall in Hp. specialize (Hp _ Hx). unfold part_ok in Hp.
  apply negb_true_iff, orb_false_iff in Hp as [H1%Nat.eqb_neq H2%Z.ltb_ge]. split; lia.
Qed.

Lemma transcript_head_no_nul s e : validName e = true -> no_nul (transcript_head s e) = true.
Proof.
  intros H%validName_no_nul. unfold transcript_head.
  rewrite !no_nul_app, Suite_String_no_nul, H. reflexivity.
Qed.

Lemma transcript_before_nul s e ps t :
  TranscriptBytes s e ps = Ok t -> before_nul t = transcript_head s e.
Proof.
  intros (_ & He & _ & _ & ->)%transcript_ok.
  apply before_nul_app. by apply transcript_head_no_nul.
Qed.

Lemma encode_parts_inj ps qs :
  length ps = length qs ->
  Forall (fun p => Z.of_nat (length p) <= maxPartSize) ps ->
  Forall (fun p => Z.of_nat (length p) <= maxPartSize) qs ->
  encode_parts ps = encode_parts qs -> ps = qs.
Proof.
  unfold encode_parts, maxPartSize.
  revert qs. induction ps as [|p ps IH]; intros [|q qs] Hl Hp Hq H; try done.
  cbn [map concat length] in *.
  injection Hl as Hl. inversion_clear Hp. inversion_clear Hq.
  rewrite <- !app_assoc in H.
  apply app_inj_1 in H as [Hlen H]; [|by rewrite !length_be].
  apply be_inj in Hlen; [|lia|lia]. apply Nat2Z.inj in Hlen.
  apply app_inj_1 in H as [-> H]; [|done]. f_equal. auto.
Qed.

(** C4. The transcript encoding is injective: two transcripts of any suites,
    exchanges and parts that have the same bytes are the same transcript. *)
Theorem transcript_injective s e ps s' e' ps' t :
  TranscriptBytes s e ps = Ok t -> TranscriptBytes s' e' ps' = Ok t ->
  s = s' /\ e = e' /\ ps = ps'.
Proof.
  intros H H'.
  assert (Hh : transcript_head s e = transcript_head s' e').
  { by rewrite <- (transcript_before_nul _ _ _ _ H), <- (transcript_before_nul _ _ _ _ H'). }
  apply transcript_ok in H as (Hs & _ & Hn & Hp & Ht).
  apply transcript_ok in H' as (Hs' & _ & Hn' & Hp' & Ht').
  rewrite Ht, Hh in Ht'. apply (inj (app _)) in Ht'. injection Ht' as Hcount Hparts.
  apply suite_prefix_inj in Hh as [-> He]; [|done|done].
  apply (inj (app transcriptNS)) in He as ->.
  apply byte_of_Z_inj in Hcount; unfold maxParts in *; [|lia|lia].
  repeat split. apply encode_parts_inj; [lia | | | done].
  - eapply Forall_impl; [exact Hp | tauto].
  - eapply Forall_impl; [exact Hp' | tauto].
Qed.

Lemma transcript_injective_witness :
  TranscriptBytes SuiteGOST (str "link") [str "a"; str "bc"]
  = Ok (str "jimichi/v1/gost/transcript/link" ++ [x00; x02; x00; x01] ++ str "a" ++ [x00; x02] ++ str "bc")%byte
  /\ (SuiteGOST = SuiteGOST /\ str "link" = str "link" /\ [str "a"; str "bc"] = [str "a"; str "bc"]).
Proof.
  split; [reflexivity|].
  eapply (transcript_injective SuiteGOST (str "link") [str "a"; str "bc"]); reflexivity.
Defined.

(** Labels separate domains: a derivation label determines its suite and
    purpose, is never a label the providers reserve, holds no zero byte, and is
    never what a transcript holds before its first zero byte. *)
Theorem derive_label_separates s p l :
  DeriveLabel s p = Ok l ->
  no_nul l = true /\
  (forall s' p', DeriveLabel s' p' = Ok l -> s = s' /\ p = p') /\
  (forall s' r, r ∈ reservedPurposes -> Label s' r <> Ok l) /\
  (forall s' e ps t, TranscriptBytes s' e ps = Ok t -> before_nul t <> l).
Proof.
  intros (Hl & Hres & Hns)%derive_label_ok.
  pose proof (label_no_nul _ _ _ Hl) as Hz.
  apply label_ok in Hl as (Hs & _ & ->).
  split; [done|]. split; [|split].
  - intros s' p' (Hl' & _ & _)%derive_label_ok.
    apply label_ok in Hl' as (Hs' & _ & Heq). by apply suite_prefix_inj in Heq.
  - intros s' r Hr (Hs' & _ & Heq)%label_ok.
    apply suite_prefix_inj in Heq as [_ ->]; [|done|done]. done.
  - intros s' e ps t Ht Heq. rewrite (transcript_before_nul _ _ _ _ Ht) in Heq.
    apply transcript_ok in Ht as (Hs' & _).
    apply suite_prefix_inj in Heq as [_ <-]; [|done|done].
    apply Hns. by eexists.
Qed.

Lemma derive_label_separates_witness :
  DeriveLabel SuiteC25519 (str "setup/replay") = Ok (str "jimichi/v1/c25519/setup/replay") /\
  no_nul (str "jimichi/v1/c25519/setup/replay") = true.
Proof.
  split; [reflexivity|].
  apply (derive_label_separates SuiteC25519 (str "setup/replay")). reflexivity.
Defined.
