(* ===== verification/C25519.v ===== *)
(** * C25519: the X25519, XChaCha20-Poly1305 and Ed25519 suite

    Models [src/crypto/c25519/provider.go] and [src/crypto/c25519/sign.go] over
    the primitives they call, which are not in the repository: the class
    [Primitives] lists them and [PrimitiveLaws] states what RFC 7748, 5869, 8439
    and 8032 say of them.  The suite is then an instance of [CryptoProvider]
    that discharges [CryptoLaws].  Clearing of heap copies is not modelled.
    Witnesses take the concrete primitives of [Toy]. *)

From Stdlib Require Import Strings.Byte Strings.String.
From S2P Require Import Prelude Effects Crypto.

Class Primitives : Type := {
  X25519 : bytes -> bytes -> option bytes;               (* scalar, point *)
  Basepoint : bytes;
  hkdf_Extract : bytes -> bytes -> bytes;                (* secret, salt *)
  hkdf_Expand : bytes -> bytes -> nat -> bytes;          (* prk, info, size *)
  xchacha_Seal : bytes -> bytes -> bytes -> bytes -> bytes;         (* key, nonce, plaintext, ad *)
  xchacha_Open : bytes -> bytes -> bytes -> bytes -> option bytes;  (* key, nonce, ciphertext, ad *)
  sha256 : bytes -> bytes;
  sha512 : bytes -> bytes;
  Scalar : Type;
  Point : Type;
  SetBytesWithClamping : bytes -> Scalar;
  SetUniformBytes : bytes -> Scalar;
  MultiplyAdd : Scalar -> Scalar -> Scalar -> Scalar;
  Scalar_Bytes : Scalar -> bytes;
  ScalarBaseMult : Scalar -> Point;
  Point_Add : Point -> Point -> Point;
  Point_Mult : Scalar -> Point -> Point;
  Point_Bytes : Point -> bytes;
  Point_SetBytes : bytes -> option Point;
  small_order : Point -> bool;                           (* eight times it is the identity *)
  ed25519_Verify : bytes -> bytes -> bytes -> bool       (* public key, message, signature *)
}.

Class PrimitiveLaws {X : Primitives} : Type := {
  x_size a p s : X25519 a p = Some s -> length s = 32%nat;
  x_comm a b pa pb : length a = 32%nat -> length b = 32%nat ->
    X25519 a Basepoint = Some pa -> X25519 b Basepoint = Some pb -> X25519 a pb = X25519 b pa;
  expand_size prk info n : (n <= 255 * 32)%nat -> length (hkdf_Expand prk info n) = n;
  xchacha_size k n p ad : length (xchacha_Seal k n p ad) = (length p + 16)%nat;
  xchacha_open_seal k n p ad : length n = 24%nat -> xchacha_Open k n (xchacha_Seal k n p ad) ad = Some p;
  xchacha_open_sound k n c p ad : xchacha_Open k n c ad = Some p -> c = xchacha_Seal k n p ad;
  sha256_size b : length (sha256 b) = 32%nat;
  scalar_size s : length (Scalar_Bytes s) = 32%nat;
  point_size p : length (Point_Bytes p) = 32%nat;
  point_bytes p : Point_SetBytes (Point_Bytes p) = Some p;
  base_mult_add k s r :
    ScalarBaseMult (MultiplyAdd k s r) = Point_Add (ScalarBaseMult r) (Point_Mult k (ScalarBaseMult s));
  clamped_order b : small_order (ScalarBaseMult (SetBytesWithClamping b)) = false;
  ed25519_equation a r s m :
    ScalarBaseMult s = Point_Add r (Point_Mult (SetUniformBytes (sha512 (Point_Bytes r ++ Point_Bytes a ++ m))) a) ->
    ed25519_Verify (Point_Bytes a) m (Point_Bytes r ++ Scalar_Bytes s) = true
}.

Module C25519.

Definition privSize : nat := 32.
Definition pubSize : nat := 32.
Definition keySize : nat := 32.

Section Provider.
Context {X : Primitives}.

Definition GenerateEphemeral : Draw (bytes * bytes) := fun e =>
  match read_full privSize e with
  | (Err x, e') => (Err (ErrWrap (Other "c25519: read random") x), e')
  | (Ok priv, e') =>
      match X25519 priv Basepoint with
      | None => (Err (Other "c25519: derive public key"), e')
      | Some pub => (Ok (priv, pub), e')
      end
  end.

Definition owns (ctx : Context) : bool := Context_Valid ctx && (ctx_suite ctx =? SuiteC25519).

Definition info (label th : bytes) : bytes := label ++ x00 :: th.

Definition expand (prk inf : bytes) (size : nat) : res bytes := Ok (hkdf_Expand prk inf size).

Definition extractExpand (salt ikm inf : bytes) : res bytes :=
  expand (hkdf_Extract ikm salt) inf keySize.

Definition Agree (priv peerPub : bytes) (ctx : Context) : res bytes :=
  if negb (length priv =? privSize)%nat then Err (Sentinel crypto_ErrBadKeySize)
  else if negb (owns ctx) then Err (Sentinel crypto_ErrBadContext)
  else
    let? label := Label SuiteC25519 (str "agree") in
    if negb (length peerPub =? pubSize)%nat then Err (Sentinel crypto_ErrBadPublicKey)
    else match X25519 priv peerPub with
         | None => Err (ErrWrap (Sentinel crypto_ErrBadPublicKey) (Other "small order"))
         | Some shared => extractExpand (ctx_sum ctx) shared (info label (ctx_sum ctx))
         end.

Definition MixKey (chain secret : bytes) (ctx : Context) : res bytes :=
  if negb (length chain =? keySize)%nat || negb (length secret =? keySize)%nat
  then Err (Sentinel crypto_ErrBadKeySize)
  else if negb (owns ctx) then Err (Sentinel crypto_ErrBadContext)
  else
    let? label := Label SuiteC25519 (str "mix") in
    extractExpand chain secret (info label (ctx_sum ctx)).

Definition DeriveKey (secret purpose : bytes) (ctx : Context) (size : nat) : res bytes :=
  if negb (length secret =? keySize)%nat then Err (Sentinel crypto_ErrBadKeySize)
  else if (size =? 0)%nat || (keySize <? size)%nat then Err (Sentinel crypto_ErrBadKeySize)
  else if negb (owns ctx) then Err (Sentinel crypto_ErrBadContext)
  else
    let? label := DeriveLabel SuiteC25519 purpose in
    expand secret (info label (ctx_sum ctx)) size.

Definition aead (key : bytes) : AEAD := {|
  NonceSize := 24;
  Overhead := 16;
  Seal nonce plaintext ad := xchacha_Seal key nonce plaintext ad;
  Open nonce ciphertext ad :=
    match xchacha_Open key nonce ciphertext ad with
    | Some out => Ok out
    | None => Err (Sentinel crypto_ErrOpen)
    end
|}.

Definition NewAEAD (key : bytes) : res AEAD :=
  if negb (length key =? keySize)%nat then Err (Sentinel crypto_ErrBadKeySize)
  else Ok (aead key).

(** sign.go: RFC 8032, 5.1.5 and 5.1.6. *)
Definition publicKey (seed : bytes) : bytes :=
  Point_Bytes (ScalarBaseMult (SetBytesWithClamping (take 32 (sha512 seed)))).

Definition sign (priv msg : bytes) : bytes :=
  let seed := take 32 priv in
  let pub := drop 32 priv in
  let h := sha512 seed in
  let s := SetBytesWithClamping (take 32 h) in
  let r := SetUniformBytes (sha512 (drop 32 h ++ msg)) in
  let R := Point_Bytes (ScalarBaseMult r) in
  let k := SetUniformBytes (sha512 (R ++ pub ++ msg)) in
  R ++ Scalar_Bytes (MultiplyAdd k s r).

Definition validPublicKey (pub : bytes) : bool :=
  match Point_SetBytes pub with
  | None => false
  | Some a => bool_decide (Point_Bytes a = pub) && negb (small_order a)
  end.

Definition GenerateSigning : Draw (bytes * bytes) := fun e =>
  match read_full 32 e with
  | (Err x, e') => (Err (ErrWrap (Other "c25519: read random") x), e')
  | (Ok seed, e') => (Ok (seed ++ publicKey seed, publicKey seed), e')
  end.

Definition Sign (priv msg : bytes) : Draw bytes := fun e =>
  if negb (length priv =? 64)%nat then (Err (Sentinel crypto_ErrBadKeySize), e)
  else (Ok (sign priv msg), e).

Definition Verify (pub msg sig : bytes) : bool :=
  if negb (length pub =? 32)%nat || negb (validPublicKey pub) then false
  else ed25519_Verify pub msg sig.

#[export] Instance provider : CryptoProvider := {
  Crypto.Suite := SuiteC25519;
  Crypto.KeySize := keySize;
  Crypto.GenerateEphemeral := GenerateEphemeral;
  Crypto.Agree := Agree;
  Crypto.MixKey := MixKey;
  Crypto.DeriveKey := DeriveKey;
  Crypto.NewAEAD := NewAEAD;
  Crypto.GenerateSigning := GenerateSigning;
  Crypto.Sign := Sign;
  Crypto.Verify := Verify;
  Crypto.Hash := sha256
}.

(** ** The laws of the interface *)

Context {XL : PrimitiveLaws}.

Lemma key_pair_spec priv pub :
  KeyPair priv pub -> length priv = 32%nat /\ X25519 priv Basepoint = Some pub.
Proof.
  intros (e & e' & H). cbn in H. unfold GenerateEphemeral in H.
  destruct (read_full privSize e) as [[p|x] e1] eqn:E; [|discriminate].
  apply read_full_ok in E as [Hl _].
  destruct (X25519 p Basepoint) eqn:Ex; [|discriminate]. by injection H as <- <- _.
Qed.

Lemma agree_spec priv pub ctx s :
  Agree priv pub ctx = Ok s -> length pub = 32%nat /\ length s = keySize.
Proof.
  unfold Agree. intros H.
  destruct (negb (length priv =? privSize)%nat); [discriminate|].
  destruct (negb (owns ctx)); [discriminate|].
  apply rbind_ok in H as (label & _ & H).
  destruct (Nat.eqb_spec (length pub) pubSize); [|discriminate]. cbn [negb] in H.
  destruct (X25519 priv pub); [|discriminate]. injection H as <-.
  rewrite expand_size by (unfold keySize; lia). done.
Qed.

Lemma sign_verifies seed msg :
  length seed = 32%nat -> Verify (publicKey seed) msg (sign (seed ++ publicKey seed) msg) = true.
Proof.
  intros Hs. unfold Verify. set (a := ScalarBaseMult (SetBytesWithClamping (take 32 (sha512 seed)))).
  change (publicKey seed) with (Point_Bytes a). rewrite point_size. cbn [negb Nat.eqb orb].
  unfold validPublicKey. rewrite point_bytes, bool_decide_true by done.
  unfold a at 1. rewrite clamped_order. cbn [negb andb].
  unfold sign. rewrite take_app_length', drop_app_length' by done.
  apply ed25519_equation. rewrite base_mult_add. unfold a. done.
Qed.

#[export] Instance laws : CryptoLaws.
Proof.
  refine {| pub_size := 32; nonce_size := 24; overhead := 16 |}; cbn;
    unfold keySize, ContextSize; try lia; try done.
  - intros priv pub (_ & H)%key_pair_spec. by apply x_size in H.
  - intros priv pub c s (H & _)%agree_spec. done.
  - intros a a' b b' c (Ha & Hxa)%key_pair_spec (Hb & Hxb)%key_pair_spec.
    unfold Agree, privSize. rewrite Ha, Hb. cbn [negb Nat.eqb].
    rewrite (x_size _ _ _ Hxa), (x_size _ _ _ Hxb). unfold pubSize. cbn [negb Nat.eqb].
    by rewrite (x_comm a b a' b').
  - intros a b c s (_ & H)%agree_spec. done.
  - unfold MixKey. intros a b c s H.
    destruct (_ || _); [discriminate|]. destruct (negb (owns c)); [discriminate|].
    apply rbind_ok in H as (label & _ & H). injection H as <-. apply expand_size. lia.
  - unfold DeriveKey. intros s p c n k H.
    destruct (negb _); [discriminate|].
    destruct ((n =? 0)%nat || (keySize <? n)%nat) eqn:E; [discriminate|].
    destruct (negb (owns c)); [discriminate|].
    apply rbind_ok in H as (label & _ & H). injection H as <-. apply expand_size.
    apply orb_false_iff in E as [_ E%Nat.ltb_ge]. unfold keySize in *. lia.
  - unfold DeriveKey. intros s p c n k p' n' l H Hl Hn.
    destruct (negb _); [discriminate|].
    destruct ((n =? 0)%nat || _); [discriminate|]. destruct (negb (owns c)); [discriminate|].
    rewrite Hl. assert ((n' =? 0)%nat || (keySize <? n')%nat = false) as ->
      by (apply orb_false_iff; unfold keySize in *; split;
          [apply Nat.eqb_neq | apply Nat.ltb_ge]; lia).
    cbn [rbind]. eauto.
  - unfold NewAEAD, keySize. intros k ->. eauto.
  - unfold NewAEAD. intros k a H. destruct (negb _); [discriminate|]. by injection H as <-.
  - unfold NewAEAD. intros k a n p ad H. destruct (negb _); [discriminate|]. injection H as <-.
    apply xchacha_size.
  - unfold NewAEAD. intros k a n p ad H Hn _. destruct (negb _); [discriminate|]. injection H as <-.
    cbn. by rewrite xchacha_open_seal.
  - unfold NewAEAD. intros k a n c p ad H. destruct (negb _); [discriminate|]. injection H as <-.
    cbn. destruct (xchacha_Open k n c ad) eqn:E; [|discriminate]. intros [= <-].
    by apply xchacha_open_sound.
  - apply sha256_size.
  - intros priv pub (e & e' & H). cbn in H. unfold GenerateSigning in H.
    destruct (read_full 32 e) as [[p|x] e1]; [|discriminate]. injection H as _ <- _.
    unfold publicKey. rewrite point_size. lia.
  - intros priv m e s e'. unfold Sign. destruct (negb _); [discriminate|]. intros [= <- _].
    unfold sign. rewrite length_app, point_size, scalar_size. lia.
  - intros priv pub m e s e' (e0 & e0' & H0). cbn in H0. unfold GenerateSigning in H0.
    destruct (read_full 32 e0) as [[seed|x] e1] eqn:E; [|discriminate].
    apply read_full_ok in E as [Hl _]. injection H0 as <- <- _.
    unfold Sign. destruct (negb _); [discriminate|]. intros [= <- _].
    by apply sign_verifies.
Defined.

End Provider.

End C25519.
