(* ===== verification/Toy.v ===== *)
(** * Toy: a concrete set of primitives on which witnesses are evaluated

    The primitives of package c25519 are not in the repository.  These stand in
    for them where a hypothesis has to be shown satisfiable: agreement is
    addition modulo 2^256, a digest is a rolling sum, sealing appends a keyed
    tag, and signing works in the group of bytes under addition.  They are not
    secure; they satisfy every law of [PrimitiveLaws]. *)

From Stdlib Require Import Strings.Byte Strings.String.
From S2P Require Import Prelude Effects Crypto C25519.

Module Toy.

Definition digest (n : nat) (b : bytes) : bytes :=
  be n (foldl (fun acc x => Z.land (acc * 257 + Z_of_byte x + 1) (Z.ones 256)) 7 b).

Definition digest64 (b : bytes) : bytes := digest 32 b ++ digest 32 b.

Definition toy_expand (prk info : bytes) (n : nat) : bytes :=
  take n (digest 32 (prk ++ info) ++ replicate n x00).

Definition tag (k n p ad : bytes) : bytes := digest 16 (k ++ n ++ ad ++ p).

Definition toy_open (k n c ad : bytes) : option bytes :=
  let p := take (length c - 16) c in
  if bool_decide (p ++ tag k n p ad = c) then Some p else None.

Lemma length_tag k n p ad : length (tag k n p ad) = 16%nat.
Proof. apply length_be. Qed.

Lemma toy_open_seal k n p ad : toy_open k n (p ++ tag k n p ad) ad = Some p.
Proof.
  unfold toy_open. rewrite length_app, length_tag, Nat.add_sub, take_app_length.
  by rewrite bool_decide_true.
Qed.

Lemma toy_open_sound k n c p ad : toy_open k n c ad = Some p -> c = p ++ tag k n p ad.
Proof. unfold toy_open. case_bool_decide as H; [|discriminate]. by intros [= <-]. Qed.

Definition toy_point (b : byte) : bytes := replicate 31 x00 ++ [b].

Definition toy_set (l : bytes) : option byte :=
  let b := default x00 (last l) in if bool_decide (toy_point b = l) then Some b else None.

Definition toy_verify (pub m sig : bytes) : bool :=
  match toy_set pub, toy_set (take 32 sig) with
  | Some a, Some r =>
      bool_decide (byte_of_Z (unbe (drop 32 sig))
        = byte_of_Z (Z_of_byte r + unbe (digest64 (take 32 sig ++ pub ++ m)) * Z_of_byte a))
  | _, _ => false
  end.

Definition toy_base : bytes := replicate 31 x00 ++ [x09].

Definition toy_x (a p : bytes) : option bytes :=
  if bool_decide (length a = 32%nat /\ length p = 32%nat) then Some (be 32 (unbe a + unbe p)) else None.

Lemma toy_x_some a p s :
  toy_x a p = Some s -> length a = 32%nat /\ length p = 32%nat /\ s = be 32 (unbe a + unbe p).
Proof.
  unfold toy_x. case_bool_decide as H; [|discriminate]. intros E. apply (inj Some) in E as <-. tauto.
Qed.

Lemma toy_x_comm a b pa pb : toy_x a toy_base = Some pa -> toy_x b toy_base = Some pb -> toy_x a pb = toy_x b pa.
Proof.
  intros (Ha & _ & ->)%toy_x_some (Hb & _ & ->)%toy_x_some.
  unfold toy_x. rewrite !length_be, !bool_decide_true by done. f_equal.
  apply unbe_inj; [by rewrite !length_be|].
  rewrite !unbe_be, !Zplus_mod_idemp_r. f_equal. lia.
Qed.

#[export] Instance toy : Primitives := {
  X25519 := toy_x;
  Basepoint := toy_base;
  hkdf_Extract secret salt := digest 32 (salt ++ secret);
  hkdf_Expand := toy_expand;
  xchacha_Seal k n p ad := p ++ tag k n p ad;
  xchacha_Open := toy_open;
  sha256 := digest 32;
  sha512 := digest64;
  Scalar := Z;
  Point := byte;
  SetBytesWithClamping b := 2 * unbe b + 1;
  SetUniformBytes := unbe;
  MultiplyAdd k s r := k * s + r;
  Scalar_Bytes := be 32;
  ScalarBaseMult := byte_of_Z;
  Point_Add p q := byte_of_Z (Z_of_byte p + Z_of_byte q);
  Point_Mult k p := byte_of_Z (k * Z_of_byte p);
  Point_Bytes := toy_point;
  Point_SetBytes := toy_set;
  small_order p := (8 * Z_of_byte p) mod 256 =? 0;
  ed25519_Verify := toy_verify
}.

Lemma toy_set_point b : toy_set (toy_point b) = Some b.
Proof. unfold toy_set, toy_point. rewrite last_snoc. cbn [default]. by rewrite bool_decide_true. Qed.

Lemma length_toy_point b : length (toy_point b) = 32%nat.
Proof. reflexivity. Qed.

Lemma byte_of_Z_ext a b : a mod 256 = b mod 256 -> byte_of_Z a = byte_of_Z b.
Proof. intros H. by rewrite <- (byte_of_Z_mod a), H, byte_of_Z_mod. Qed.

#[export] Instance toy_laws : PrimitiveLaws.
Proof.
  split; cbn -[be digest digest64 toy_base toy_x toy_point toy_set toy_verify].
  - intros a p s (_ & _ & ->)%toy_x_some. apply length_be.
  - intros a b pa pb _ _. apply toy_x_comm.
  - intros prk info n _. unfold toy_expand. len.
  - intros k n p ad. by rewrite length_app, length_tag.
  - intros k n p ad _. apply toy_open_seal.
  - apply toy_open_sound.
  - intros b. apply length_be.
  - intros s. apply length_be.
  - done.
  - apply toy_set_point.
  - intros k s r. apply byte_of_Z_ext. rewrite !Z_of_byte_of_Z.
    rewrite Zplus_mod_idemp_l, Zplus_mod_idemp_r, <- (Zplus_mod_idemp_r (k * (s mod 256)) r).
    rewrite Zmult_mod_idemp_r, Zplus_mod_idemp_r. f_equal. lia.
  - intros b. rewrite Z_of_byte_of_Z. apply Z.eqb_neq. intros H.
    apply Z.mod_divide in H as [q H]; [|done].
    pose proof (Z.div_mod (2 * unbe b + 1) 256 ltac:(lia)). lia.
  - intros a r s m H. unfold toy_verify.
    rewrite toy_set_point, take_app_length', toy_set_point by done.
    rewrite drop_app_length' by done.
    apply bool_decide_eq_true. transitivity (byte_of_Z s).
    + apply byte_of_Z_ext. rewrite unbe_be. apply Z.mod_mod_divide. by exists (2 ^ 248).
    + rewrite H. apply byte_of_Z_ext. by rewrite Z_of_byte_of_Z, Zplus_mod_idemp_r.
Qed.

End Toy.

(** The suite of package c25519 over them: [Import ToySuite] makes it the provider. *)
Module ToySuite.

#[export] Existing Instance Toy.toy.
#[export] Existing Instance Toy.toy_laws.
#[export] Existing Instance C25519.provider.
#[export] Existing Instance C25519.laws.

End ToySuite.
