(* ===== verification/Gost.v ===== *)
(** * Gost: the GOST suite

    Models [src/crypto/gost/provider.go] over the gogost library, which is not
    in the repository: the class [GostPrimitives] lists what the suite calls and
    [GostLaws] states what GOST R 34.10-2012, RFC 7836, RFC 9058 and RFC 6986 say
    of it.  The suite is an instance of [CryptoProvider] that discharges
    [CryptoLaws], so whatever is proved of a provider holds of it too.  The curve
    object is fixed, as in the code; clearing of numbers and round keys and the
    lock around MGM are not modelled.  Witnesses take the primitives of [ToyGost]. *)

From Stdlib Require Import Strings.Byte Strings.String.
From S2P Require Import Prelude Effects Crypto Toy.

(** A [gost3410.PublicKey] without its curve. *)
Record point : Type := { pt_X : Z; pt_Y : Z }.

Class GostPrimitives : Type := {
  P : Z;
  Q : Z;
  PointSize : nat;
  PrivKey : Type;
  NewPrivateKey : bytes -> option PrivKey;
  PublicKey : PrivKey -> option point;
  Raw : point -> bytes;
  NewPublicKey : bytes -> option point;
  Contains : Z -> Z -> bool;
  Exp : Z -> Z -> Z -> option (Z * Z);                   (* degree, x, y *)
  NewUKM : bytes -> Z;
  KEK2012256 : PrivKey -> point -> Z -> option bytes;
  KDF_Derive : bytes -> bytes -> bytes -> bytes;         (* key, label, seed *)
  Mgm : Type;
  NewMGM : bytes -> nat -> option Mgm;                   (* Kuznyechik key, tag size *)
  Mgm_Seal : Mgm -> bytes -> bytes -> bytes -> bytes;         (* nonce, plaintext, ad *)
  Mgm_Open : Mgm -> bytes -> bytes -> bytes -> option bytes;  (* nonce, ciphertext, ad *)
  streebog : bytes -> bytes;
  SignDigest : PrivKey -> bytes -> Draw bytes;
  VerifyDigest : point -> bytes -> bytes -> option bool  (* digest, signature *)
}.

(** A number a [big.Int] holds after [SetBytes] of the reversed bytes. *)
Definition littleEndian (raw : bytes) : Z := unbe (reverse raw).

(** The nonce MGM takes: one block with the top bit clear. *)
Definition block_nonce (n : bytes) : Prop :=
  length n = 16%nat /\ exists b rest, n = b :: rest /\ Z_of_byte b < 128.

Class GostLaws {G : GostPrimitives} : Type := {
  curve_size : PointSize = 32%nat;
  (* a scalar of the group has a key, and its point is of the prime order Q *)
  scalar_key raw : length raw = PointSize -> 0 < littleEndian raw < Q ->
    exists k p, NewPrivateKey raw = Some k /\ PublicKey k = Some p;
  key_raw k p : PublicKey k = Some p -> NewPublicKey (Raw p) = Some p /\ length (Raw p) = (2 * PointSize)%nat;
  key_on_curve k p : PublicKey k = Some p ->
    0 <= pt_X p < P /\ 0 < pt_Y p < P /\ Contains (pt_X p) (pt_Y p) = true;
  key_doubles k p : PublicKey k = Some p -> exists x2 y2, Exp 2 (pt_X p) (pt_Y p) = Some (x2, y2) /\ y2 <> 0;
  (* RFC 7836, 4.3: VKO with a factor from 1 to 2^64-1 *)
  vko_comm a b pa pb u : PublicKey a = Some pa -> PublicKey b = Some pb -> 0 < u ->
    exists kek, KEK2012256 a pb u = Some kek /\ KEK2012256 b pa u = Some kek;
  ukm_range u : length u = 8%nat -> 0 <= NewUKM u;
  kdf_size k l s : length (KDF_Derive k l s) = 32%nat;
  (* RFC 9058 *)
  mgm_new k : length k = 32%nat -> exists m, NewMGM k 16 = Some m;
  mgm_size m n p ad : length (Mgm_Seal m n p ad) = (length p + 16)%nat;
  mgm_open_seal m n p ad : block_nonce n -> Mgm_Open m n (Mgm_Seal m n p ad) ad = Some p;
  mgm_open_sound m n c p ad : block_nonce n -> Mgm_Open m n c ad = Some p -> c = Mgm_Seal m n p ad;
  streebog_size b : length (streebog b) = 32%nat;
  digest_sign k p d e s e' : PublicKey k = Some p -> SignDigest k d e = (Ok s, e') ->
    VerifyDigest p d s = Some true;
  digest_sign_size k d e s e' : SignDigest k d e = (Ok s, e') -> length s = (2 * PointSize)%nat
}.

Module Gost.

Definition keySize : nat := 32.
Definition tagSize : nat := 16.
Definition nonceSize : nat := 16.
Definition ukmSize : nat := 8.

Section Provider.
Context {G : GostPrimitives}.

(** *** Keys *)

(** The condition the sampling loop leaves with. *)
Definition scalar_ok (raw : bytes) : bool := (0 <? littleEndian raw) && (littleEndian raw <? Q).

(** The sampling loop: [fuel] bounds its turns, [None] when they run out. *)
Fixpoint sample (fuel : nat) (e : bytes) : option (res bytes * bytes) :=
  match fuel with
  | O => None
  | S fuel =>
      match read_full PointSize e with
      | (Err x, e') => Some (Err (ErrWrap (Other "gost: read random") x), e')
      | (Ok priv, e') => if scalar_ok priv then Some (Ok priv, e') else sample fuel e'
      end
  end.

(** Every turn takes [PointSize] bytes, so one more than the bytes there are is enough. *)
Definition generate : Draw (bytes * bytes) := fun e =>
  match sample (S (length e)) e with
  | None => (Err (Other "unreachable"), e)
  | Some (Err x, e') => (Err x, e')
  | Some (Ok priv, e') =>
      match NewPrivateKey priv with
      | None => (Err (Other "gost: private key"), e')
      | Some prv =>
          match PublicKey prv with
          | None => (Err (Other "gost: public key"), e')
          | Some pub => (Ok (priv, Raw pub), e')
          end
      end
  end.

Definition GenerateEphemeral : Draw (bytes * bytes) := generate.
Definition GenerateSigning : Draw (bytes * bytes) := generate.

(** Length, coordinates, curve, and the two checks against the 4-torsion. *)
Definition publicKey (raw : bytes) : res point :=
  if negb (length raw =? 2 * PointSize)%nat then Err (Sentinel crypto_ErrBadPublicKey)
  else match NewPublicKey raw with
       | None => Err (Sentinel crypto_ErrBadPublicKey)
       | Some pub =>
           if (P <=? pt_X pub) || (P <=? pt_Y pub) || negb (Contains (pt_X pub) (pt_Y pub))
           then Err (Sentinel crypto_ErrBadPublicKey)
           else if pt_Y pub =? 0 then Err (Sentinel crypto_ErrBadPublicKey)
           else match Exp 2 (pt_X pub) (pt_Y pub) with
                | None => Err (Sentinel crypto_ErrBadPublicKey)
                | Some (_, y2) => if y2 =? 0 then Err (Sentinel crypto_ErrBadPublicKey) else Ok pub
                end
       end.

(** *** Agreement and derivation *)

Definition vkoFactor (ukm : bytes) : res Z :=
  if negb (length ukm =? ukmSize)%nat then Err (Other "gost: ukm must be 8 bytes")
  else Ok (if NewUKM ukm =? 0 then 1 else NewUKM ukm).

Definition vko (priv peerPub ukm : bytes) : res bytes :=
  let? pub := publicKey peerPub in
  match NewPrivateKey priv with
  | None => Err (Other "gost: private key")
  | Some prv =>
      let? u := vkoFactor ukm in
      match KEK2012256 prv pub u with
      | None => Err (Other "gost: vko")
      | Some kek => Ok kek
      end
  end.

(** [derive(dst, ...)] with a zeroed [dst] of [size] bytes. *)
Definition derive (size : nat) (key label seed : bytes) : bytes :=
  copy_at 0 (KDF_Derive key label seed) (replicate size x00).

Definition owns (ctx : Context) : bool := Context_Valid ctx && (ctx_suite ctx =? SuiteGOST).

Definition Agree (priv peerPub : bytes) (ctx : Context) : res bytes :=
  if negb (length priv =? PointSize)%nat then Err (Sentinel crypto_ErrBadKeySize)
  else if negb (owns ctx) then Err (Sentinel crypto_ErrBadContext)
  else
    let? label := Label SuiteGOST (str "agree") in
    let? kek := vko priv peerPub (take ukmSize (ctx_sum ctx)) in
    Ok (derive keySize kek label (ctx_sum ctx)).

Definition MixKey (chain secret : bytes) (ctx : Context) : res bytes :=
  if negb (length chain =? keySize)%nat || negb (length secret =? keySize)%nat
  then Err (Sentinel crypto_ErrBadKeySize)
  else if negb (owns ctx) then Err (Sentinel crypto_ErrBadContext)
  else
    let? label := Label SuiteGOST (str "mix") in
    let seed := copy_at ContextSize secret (copy_at 0 (ctx_sum ctx) (replicate (ContextSize + keySize) x00)) in
    Ok (derive keySize chain label seed).

Definition DeriveKey (secret purpose : bytes) (ctx : Context) (size : nat) : res bytes :=
  if negb (length secret =? keySize)%nat then Err (Sentinel crypto_ErrBadKeySize)
  else if (size =? 0)%nat || (keySize <? size)%nat then Err (Sentinel crypto_ErrBadKeySize)
  else if negb (owns ctx) then Err (Sentinel crypto_ErrBadContext)
  else
    let? label := DeriveLabel SuiteGOST purpose in
    Ok (derive size secret label (ctx_sum ctx)).

(** *** Sealing *)

Definition nonceOK (nonce : bytes) : bool :=
  match nonce with
  | b :: _ => (length nonce =? nonceSize)%nat && (Z.land (Z_of_byte b) 128 =? 0)
  | [] => false
  end.

Definition aead_Open (inner : Mgm) (nonce ciphertext ad : bytes) : res bytes :=
  if negb (nonceOK nonce) || (length ciphertext <? tagSize)%nat then Err (Sentinel crypto_ErrOpen)
  else match Mgm_Open inner nonce ciphertext ad with
       | None => Err (Sentinel crypto_ErrOpen)
       | Some out => Ok out
       end.

Definition aead (inner : Mgm) : AEAD := {|
  NonceSize := nonceSize;
  Overhead := tagSize;
  Seal nonce plaintext ad := Mgm_Seal inner nonce plaintext ad;
  Open nonce ciphertext ad := aead_Open inner nonce ciphertext ad
|}.

Definition NewAEAD (key : bytes) : res AEAD :=
  if negb (length key =? keySize)%nat then Err (Sentinel crypto_ErrBadKeySize)
  else match NewMGM key tagSize with
       | None => Err (Other "gost: new aead")
       | Some inner => Ok (aead inner)
       end.

(** *** Signatures *)

Definition Sign (priv msg : bytes) : Draw bytes := fun e =>
  if negb (length priv =? PointSize)%nat then (Err (Sentinel crypto_ErrBadKeySize), e)
  else match NewPrivateKey priv with
       | None => (Err (Other "gost: private key"), e)
       | Some prv => let '(r, e') := SignDigest prv (streebog msg) e in (wrap_err "gost: sign" r, e')
       end.

Definition Verify (pub msg sig : bytes) : bool :=
  match publicKey pub with
  | Err _ => false
  | Ok key =>
      if negb (length sig =? 2 * PointSize)%nat then false
      else match VerifyDigest key (streebog msg) sig with
           | None => false
           | Some ok => ok
           end
  end.

#[export] Instance provider : CryptoProvider := {
  Crypto.Suite := SuiteGOST;
  Crypto.KeySize := keySize;
  Crypto.GenerateEphemeral := GenerateEphemeral;
  Crypto.Agree := Agree;
  Crypto.MixKey := MixKey;
  Crypto.DeriveKey := DeriveKey;
  Crypto.NewAEAD := NewAEAD;
  Crypto.GenerateSigning := GenerateSigning;
  Crypto.Sign := Sign;
  Crypto.Verify := Verify;
  Crypto.Hash := streebog
}.

(** ** Sampling *)

Lemma sample_none fuel e : (0 < PointSize)%nat -> (length e < fuel)%nat -> sample fuel e <> None.
Proof.
  intros Hp. revert e. induction fuel as [|fuel IH]; intros e H; [lia|]. cbn.
  destruct (read_full PointSize e) as [[r|x] e'] eqn:E; [|done].
  destruct (scalar_ok r); [done|]. apply read_full_ok in E as [Hl ->]. apply IH.
  rewrite length_app in H. lia.
Qed.

(** Blocks the loop reads and does not keep. *)
Definition rejected (b : bytes) : Prop := length b = PointSize /\ scalar_ok b = false.

Lemma sample_some fuel e r e' : sample fuel e = Some (r, e') ->
  exists bs, Forall rejected bs /\
    match r with
    | Ok priv => e = List.concat bs ++ priv ++ e' /\ length priv = PointSize /\ scalar_ok priv = true
    | Err x => x = ErrWrap (Other "gost: read random") (Sentinel io_ErrUnexpectedEOF) /\ e' = [] /\
        exists rest, e = List.concat bs ++ rest /\ (length rest < PointSize)%nat
    end.
Proof.
  revert e. induction fuel as [|fuel IH]; intros e; [done|]. cbn.
  destruct (read_full PointSize e) as [[b|x] e1] eqn:E.
  - apply read_full_ok in E as [Hl ->]. destruct (scalar_ok b) eqn:Hb.
    + intros [= <- <-]. exists []. by rewrite Forall_nil.
    + intros (bs & Hbs & H)%IH. exists (b :: bs). split; [by constructor|].
      destruct r as [priv|x].
      * destruct H as (-> & H). cbn [List.concat]. by rewrite <- app_assoc.
      * destruct H as (-> & -> & rest & -> & H). split_and!; [done.. |]. exists rest.
        cbn [List.concat]. by rewrite <- app_assoc.
  - unfold read_full in E. destruct (Nat.ltb_spec (length e) PointSize) as [Hlt|]; [|discriminate].
    injection E as <- <-. intros [= <- <-]. exists []. rewrite Forall_nil. split_and!; [done.. |]. by exists e.
Qed.

Lemma sample_first bs priv e' fuel :
  Forall rejected bs -> length priv = PointSize -> scalar_ok priv = true -> (length bs < fuel)%nat ->
  sample fuel (List.concat bs ++ priv ++ e') = Some (Ok priv, e').
Proof.
  intros Hbs Hl Hk. revert fuel. induction Hbs as [|b bs [Hb Hr] _ IH]; intros [|fuel] Hf; cbn in Hf; try lia; cbn.
  - rewrite read_full_enough by (rewrite length_app; lia).
    by rewrite take_app_length', drop_app_length', Hk by done.
  - rewrite <- app_assoc, read_full_enough by (rewrite length_app; lia).
    rewrite take_app_length', drop_app_length', Hr by done. apply IH. lia.
Qed.

Lemma concat_length_ge bs : (0 < PointSize)%nat -> Forall rejected bs -> (length bs <= length (List.concat bs))%nat.
Proof.
  intros Hp H. induction H as [|b bs [Hb _] _ IH]; [done|]. cbn. rewrite length_app. lia.
Qed.

(** ** The laws of the interface *)

Context {GL : GostLaws}.

Lemma point_pos : (0 < PointSize)%nat.
Proof. rewrite curve_size. lia. Qed.

Lemma scalar_ok_spec raw : scalar_ok raw = true <-> 0 < littleEndian raw < Q.
Proof. unfold scalar_ok. rewrite andb_true_iff, !Z.ltb_lt. done. Qed.

(** What every key pair of the suite is, whatever it is for. *)
Definition pair_of (priv pub : bytes) : Prop :=
  length priv = PointSize /\ scalar_ok priv = true /\
  exists k p, NewPrivateKey priv = Some k /\ PublicKey k = Some p /\ pub = Raw p.

Lemma generate_ok e priv pub e' : generate e = (Ok (priv, pub), e') ->
  pair_of priv pub /\ exists bs, Forall rejected bs /\ e = List.concat bs ++ priv ++ e'.
Proof.
  unfold generate. destruct (sample _ e) as [[[p|x] e1]|] eqn:E; [|discriminate..].
  apply sample_some in E as (bs & Hbs & -> & Hl & Hk).
  destruct (NewPrivateKey p) as [k|] eqn:Ek; [|discriminate].
  destruct (PublicKey k) as [q|] eqn:Eq; [|discriminate]. intros [= <- <- <-].
  split; [|by exists bs]. split_and!; try done. by exists k, q.
Qed.

Lemma pair_key priv : length priv = PointSize -> scalar_ok priv = true -> exists pub, pair_of priv pub.
Proof.
  intros Hl Hk. destruct (scalar_key priv Hl) as (k & p & E1 & E2); [by apply scalar_ok_spec|].
  exists (Raw p). split_and!; try done. by exists k, p.
Qed.

Lemma pair_unique priv pub pub' : pair_of priv pub -> pair_of priv pub' -> pub = pub'.
Proof. intros (_ & _ & k & p & E1 & E2 & ->) (_ & _ & k' & p' & E1' & E2' & ->). congruence. Qed.

Lemma publicKey_raw k p : PublicKey k = Some p -> publicKey (Raw p) = Ok p.
Proof.
  intros H. unfold publicKey. destruct (key_raw k p H) as [-> ->]. rewrite Nat.eqb_refl. cbn [negb].
  destruct (key_on_curve k p H) as ([_ HX%Z.leb_gt] & [HY0 HY%Z.leb_gt] & ->). rewrite HX, HY. cbn [negb orb].
  rewrite (proj2 (Z.eqb_neq _ _)) by lia. destruct (key_doubles k p H) as (x2 & y2 & -> & Hy).
  by rewrite (proj2 (Z.eqb_neq _ _) Hy).
Qed.

Lemma length_derive n k l s : length (derive n k l s) = n.
Proof. unfold derive, copy_at. rewrite !length_app, !length_take, length_drop, !length_replicate, kdf_size. cbn. lia. Qed.

Lemma derive_prefix n k l s : (n <= 32)%nat -> derive n k l s = take n (KDF_Derive k l s).
Proof.
  intros H. unfold derive, copy_at. rewrite length_replicate, Nat.sub_0_r, drop_ge, app_nil_r; [done|].
  rewrite length_replicate, kdf_size. cbn. lia.
Qed.

Lemma vkoFactor_ok u : length u = 8%nat -> exists f, vkoFactor u = Ok f /\ 0 < f.
Proof.
  intros H. unfold vkoFactor, ukmSize. rewrite H. cbn [negb Nat.eqb]. pose proof (ukm_range u H).
  destruct (Z.eqb_spec (NewUKM u) 0); eexists; split; try done; lia.
Qed.

Lemma vko_pairs a a' b b' u : pair_of a a' -> pair_of b b' -> length u = 8%nat ->
  exists kek, vko a b' u = Ok kek /\ vko b a' u = Ok kek.
Proof.
  intros (_ & _ & ka & pa & Ea & Epa & ->) (_ & _ & kb & pb & Eb & Epb & ->) (f & Hf & Hp)%vkoFactor_ok.
  destruct (vko_comm ka kb pa pb f Epa Epb Hp) as (kek & E1 & E2). exists kek. unfold vko.
  rewrite (publicKey_raw kb pb Epb), (publicKey_raw ka pa Epa), Ea, Eb. cbn [rbind]. rewrite Hf. cbn [rbind].
  by rewrite E1, E2.
Qed.

Lemma vko_pub_size a b u k : vko a b u = Ok k -> length b = (2 * PointSize)%nat.
Proof.
  unfold vko, publicKey. intros H. apply rbind_ok in H as (p & H & _).
  destruct (Nat.eqb_spec (length b) (2 * PointSize)); [done | discriminate].
Qed.

Lemma top_bit b : (Z.land (Z_of_byte b) 128 =? 0) = (Z_of_byte b <? 128).
Proof. by destruct b. Qed.

Lemma nonceOK_spec n : nonceOK n = true <-> block_nonce n.
Proof.
  unfold nonceOK, block_nonce, nonceSize. destruct n as [|b n].
  - split; [discriminate|]. intros [H _]. discriminate.
  - rewrite andb_true_iff, Nat.eqb_eq, top_bit, Z.ltb_lt. split; intros [H1 H2]; (split; [done|]).
    + by exists b, n.
    + by destruct H2 as (b' & n' & [= <- <-] & H2).
Qed.

Lemma new_aead_is k a : NewAEAD k = Ok a -> exists m, NewMGM k tagSize = Some m /\ a = aead m.
Proof.
  unfold NewAEAD. destruct (negb _); [discriminate|]. destruct (NewMGM k tagSize); [|discriminate].
  intros [= <-]. eauto.
Qed.

Lemma aead_open_sound m n c p ad : aead_Open m n c ad = Ok p -> c = Mgm_Seal m n p ad /\ block_nonce n.
Proof.
  unfold aead_Open. destruct (nonceOK n) eqn:Hn; [|discriminate]. destruct (_ <? _)%nat; [discriminate|].
  apply nonceOK_spec in Hn. cbn [negb orb]. destruct (Mgm_Open m n c ad) eqn:E; [|discriminate]. intros [= <-].
  split; [by apply mgm_open_sound|done].
Qed.

Lemma aead_open_seal m n p ad : block_nonce n -> aead_Open m n (Mgm_Seal m n p ad) ad = Ok p.
Proof.
  intros Hn. unfold aead_Open. rewrite (proj2 (nonceOK_spec n) Hn), mgm_size.
  assert ((length p + 16 <? tagSize)%nat = false) as -> by (apply Nat.ltb_ge; unfold tagSize; lia).
  cbn [negb orb]. by rewrite mgm_open_seal.
Qed.

Lemma sign_ok priv m e s e' : Sign priv m e = (Ok s, e') ->
  exists k, NewPrivateKey priv = Some k /\ SignDigest k (streebog m) e = (Ok s, e').
Proof.
  unfold Sign. destruct (negb _); [discriminate|]. destruct (NewPrivateKey priv) as [k|]; [|discriminate].
  destruct (SignDigest k (streebog m) e) as [[r|x] e1] eqn:E; [|discriminate]. cbn. intros [= <- <-]. eauto.
Qed.

Lemma pair_verifies priv pub m e s e' : pair_of priv pub -> Sign priv m e = (Ok s, e') -> Verify pub m s = true.
Proof.
  intros (_ & _ & k & p & Ek & Ep & ->) (k' & Ek' & Hs)%sign_ok. rewrite Ek in Ek'. injection Ek' as <-.
  unfold Verify. rewrite (publicKey_raw k p Ep), (digest_sign_size _ _ _ _ _ Hs), Nat.eqb_refl. cbn [negb].
  by rewrite (digest_sign k p _ e s e' Ep Hs).
Qed.

(** Agreement of two pairs, either way round; the transcript hash of a [Context] is 32 bytes. *)
Lemma agree_pairs a a' b b' c : pair_of a a' -> pair_of b b' -> Agree a b' c = Agree b a' c.
Proof.
  intros Ha Hb. unfold Agree. rewrite (proj1 Ha), (proj1 Hb), Nat.eqb_refl. cbn [negb].
  destruct (negb (owns c)); [done|]. destruct (Label _ _); [|done]. cbn [rbind].
  destruct (decide (length (take ukmSize (ctx_sum c)) = 8%nat)) as [Hu|Hu].
  - by destruct (vko_pairs a a' b b' _ Ha Hb Hu) as (kek & -> & ->).
  - unfold vko, vkoFactor. destruct Ha as (_ & _ & ka & pa & -> & Epa & ->), Hb as (_ & _ & kb & pb & -> & Epb & ->).
    by rewrite (publicKey_raw ka pa Epa), (publicKey_raw kb pb Epb), (proj2 (Nat.eqb_neq _ ukmSize) Hu).
Qed.

Lemma key_pair priv pub : KeyPair priv pub -> pair_of priv pub.
Proof. intros (e & e' & H). by apply generate_ok in H as [? _]. Qed.

Lemma pair_pub_size priv pub : pair_of priv pub -> length pub = 64%nat.
Proof.
  intros (_ & _ & k & p & _ & E & ->). destruct (key_raw k p E) as [_ ->]. by rewrite curve_size.
Qed.

Lemma agree_ok a b c s : Agree a b c = Ok s -> length b = 64%nat /\ length s = 32%nat.
Proof.
  unfold Agree. destruct (negb _); [discriminate|]. destruct (negb _); [discriminate|]. intros H.
  apply rbind_ok in H as (l & _ & H). apply rbind_ok in H as (kek & Hk & H). injection H as <-.
  apply vko_pub_size in Hk. rewrite length_derive, Hk, curve_size. done.
Qed.

Lemma derive_ok s p c n k : DeriveKey s p c n = Ok k ->
  length s = 32%nat /\ (0 < n <= 32)%nat /\ owns c = true /\
  exists l, DeriveLabel SuiteGOST p = Ok l /\ k = derive n s l (ctx_sum c).
Proof.
  unfold DeriveKey. destruct (Nat.eqb_spec (length s) keySize) as [Hs|]; [|discriminate].
  destruct (_ || _) eqn:E; [discriminate|]. apply orb_false_iff in E as [E1%Nat.eqb_neq E2%Nat.ltb_ge].
  destruct (owns c); [|discriminate]. cbn [negb]. intros H. apply rbind_ok in H as (l & Hl & [= <-]).
  unfold keySize in *. split_and!; try done; [lia | by exists l].
Qed.

#[export] Instance laws : CryptoLaws.
Proof.
  refine {| pub_size := 64; nonce_size := 16; overhead := 16 |}; cbn;
    unfold keySize, ContextSize; try lia; try done.
  - intros priv pub H%key_pair. by apply pair_pub_size in H.
  - intros a b c s (H & _)%agree_ok. done.
  - intros a a' b b' c Ha%key_pair Hb%key_pair. by apply agree_pairs.
  - intros a b c s (_ & H)%agree_ok. done.
  - unfold MixKey. intros a b c s H. destruct (_ || _); [discriminate|]. destruct (negb _); [discriminate|].
    apply rbind_ok in H as (l & _ & [= <-]). apply length_derive.
  - intros s p c n k (_ & _ & _ & l & _ & ->)%derive_ok. apply length_derive.
  - intros s p c n k p' n' l (Hs & _ & Hc & _)%derive_ok Hl Hn. unfold DeriveKey, keySize.
    rewrite Hs, Hc, Hl. assert ((n' =? 0)%nat || (32 <? n')%nat = false) as ->
      by (apply orb_false_iff; split; [apply Nat.eqb_neq | apply Nat.ltb_ge]; lia).
    cbn. eauto.
  - intros k Hk. unfold NewAEAD, keySize, tagSize. rewrite Hk. destruct (mgm_new k Hk) as (m & ->). cbn. eauto.
  - intros k a (m & _ & ->)%new_aead_is. done.
  - intros k a n p ad (m & _ & ->)%new_aead_is. apply mgm_size.
  - intros k a n p ad (m & _ & ->)%new_aead_is Hn Ha. cbn. apply aead_open_seal. split; [done | by apply Ha].
  - intros k a n c p ad (m & _ & ->)%new_aead_is H. cbn in H. by apply aead_open_sound in H as [? _].
  - apply streebog_size.
  - intros priv pub H. change (KeyPair priv pub) in H. apply key_pair, pair_pub_size in H. lia.
  - intros priv m e s e' (k & _ & H)%sign_ok. rewrite (digest_sign_size _ _ _ _ _ H), curve_size. lia.
  - intros priv pub m e s e' Hp Hs. change (KeyPair priv pub) in Hp. apply key_pair in Hp. by eapply pair_verifies.
Defined.

End Provider.

(** ** What the suite promises beyond the interface *)

Section Promises.
Context {G : GostPrimitives} {GL : GostLaws}.

(** Key generation keeps the scalar exactly uniform: it returns the first
    block of randomness that is a number from 1 to [Q-1] in little-endian order,
    with the point of that scalar, and leaves what follows it; every block before
    it was out of that range.  It fails only when the randomness ends before such
    a block, with the error of the short read, so the loop always ends. *)
Theorem generate_first e :
  (forall priv pub e', generate e = (Ok (priv, pub), e') <->
     pair_of priv pub /\ exists bs, Forall rejected bs /\ e = List.concat bs ++ priv ++ e') /\
  (forall x e', generate e = (Err x, e') ->
     x = ErrWrap (Other "gost: read random") (Sentinel io_ErrUnexpectedEOF) /\
     exists bs rest, Forall rejected bs /\ e = List.concat bs ++ rest /\ (length rest < PointSize)%nat).
Proof.
  split.
  - intros priv pub e'. split; [apply generate_ok|]. intros (Hp & bs & Hbs & ->).
    destruct Hp as (Hl & Hk & k & p & Ek & Ep & ->). unfold generate.
    rewrite sample_first, Ek, Ep; try done.
    pose proof (concat_length_ge bs point_pos Hbs). rewrite length_app. lia.
  - intros x e' H. unfold generate in H.
    destruct (sample (S (length e)) e) as [[[priv|y] e1]|] eqn:E.
    + apply sample_some in E as (bs & _ & _ & Hl & Hk). exfalso.
      destruct (pair_key priv Hl Hk) as (pub & _ & _ & k & p & Ek & Ep & _). rewrite Ek, Ep in H. discriminate.
    + apply sample_some in E as (bs & Hbs & -> & -> & rest & -> & Hr). injection H as <- _. eauto 6.
    + exfalso. revert E. apply sample_none; [apply point_pos | lia].
Qed.

(** A public key the suite may compute on: a point of the curve, written with
    coordinates below the prime, that neither is of order 2 nor doubles to one. *)
Definition point_sound (pub : bytes) : Prop :=
  length pub = (2 * PointSize)%nat /\
  exists p x2 y2, NewPublicKey pub = Some p /\ pt_X p < P /\ pt_Y p < P /\
    Contains (pt_X p) (pt_Y p) = true /\ pt_Y p <> 0 /\ Exp 2 (pt_X p) (pt_Y p) = Some (x2, y2) /\ y2 <> 0.

Lemma publicKey_sound pub p : publicKey pub = Ok p -> NewPublicKey pub = Some p /\ point_sound pub.
Proof.
  unfold publicKey, point_sound. destruct (Nat.eqb_spec (length pub) (2 * PointSize)) as [Hl|]; [|discriminate].
  cbn [negb]. destruct (NewPublicKey pub) as [q|]; [|discriminate].
  destruct (_ || _) eqn:E; [discriminate|]. apply orb_false_iff in E as [E HC%negb_false_iff].
  apply orb_false_iff in E as [HX%Z.leb_gt HY%Z.leb_gt].
  destruct (Z.eqb_spec (pt_Y q) 0); [discriminate|]. destruct (Exp 2 _ _) as [[x2 y2]|] eqn:Ex; [|discriminate].
  destruct (Z.eqb_spec y2 0); [discriminate|]. intros [= <-]. eauto 12.
Qed.

Lemma publicKey_refuses pub e : publicKey pub = Err e -> e = Sentinel crypto_ErrBadPublicKey.
Proof. unfold publicKey. repeat case_match; congruence. Qed.

Lemma publicKey_complete pub : point_sound pub -> exists p, publicKey pub = Ok p.
Proof.
  intros (Hl & p & x2 & y2 & Hp & HX%Z.leb_gt & HY%Z.leb_gt & HC & Hy & He & Hy2). exists p. unfold publicKey.
  rewrite Hl, Nat.eqb_refl, Hp, HX, HY, HC, (proj2 (Z.eqb_neq _ _) Hy), He. cbn [negb orb].
  by rewrite (proj2 (Z.eqb_neq _ _) Hy2).
Qed.

(** The suite computes on no point it did not check: an agreement succeeds,
    and a signature passes, only under a public key of the right length that names
    a point of the curve with coordinates below the prime, outside the subgroup
    of order 4.  Under any other key, with arguments that are otherwise right, the
    agreement gives [ErrBadPublicKey], before the private key is used; and every
    key of a generated pair passes. *)
Theorem points_checked pub :
  (forall priv ctx s, Agree priv pub ctx = Ok s -> point_sound pub) /\
  (forall msg sig, Verify pub msg sig = true -> point_sound pub /\ length sig = length pub) /\
  (forall priv ctx, length priv = PointSize -> owns ctx = true -> ~ point_sound pub ->
     Agree priv pub ctx = Err (Sentinel crypto_ErrBadPublicKey)) /\
  (forall priv, pair_of priv pub -> point_sound pub).
Proof.
  split_and!.
  - intros priv ctx s. unfold Agree. repeat (destruct (negb _); [discriminate|]). intros H.
    apply rbind_ok in H as (l & _ & H). apply rbind_ok in H as (kek & H & _). unfold vko in H.
    apply rbind_ok in H as (p & H & _). by apply publicKey_sound in H as [_ H].
  - intros msg sig. unfold Verify. destruct (publicKey pub) as [p|] eqn:E; [|discriminate].
    apply publicKey_sound in E as [_ E]. destruct (Nat.eqb_spec (length sig) (2 * PointSize)); [|discriminate].
    intros _. split; [done|]. by rewrite (proj1 E).
  - intros priv ctx Hl Hc Hn. unfold Agree. rewrite Hl, Nat.eqb_refl, Hc. cbn [negb].
    destruct (Label SuiteGOST (str "agree")) as [l|] eqn:El; [|discriminate El]. cbn [rbind]. unfold vko.
    destruct (publicKey pub) as [p|x] eqn:E; [by apply publicKey_sound in E as [_ E]|].
    by apply publicKey_refuses in E as ->.
  - intros priv (_ & _ & k & p & _ & Ep & ->). by apply (publicKey_sound _ p), (publicKey_raw k).
Qed.

End Promises.

End Gost.

(** ** Primitives on which the witnesses are evaluated

    A point is its scalar over the second coordinate 1, VKO multiplies the sum of
    the scalars by the factor, a signature is the sum of scalar and digest; sealing
    and digests are those of [Toy].  Not secure, but every law holds. *)

Module ToyGost.

Definition toy_pub (k : Z) : point := {| pt_X := k mod 2 ^ 256; pt_Y := 1 |}.

Definition toy_new (raw : bytes) : option point :=
  if (length raw =? 64)%nat then Some {| pt_X := unbe (take 32 raw); pt_Y := unbe (drop 32 raw) |} else None.

Definition toy_sum (x : Z) (d : bytes) : bytes := be 32 (x + unbe d) ++ be 32 0.

#[export] Instance toy : GostPrimitives := {
  P := 2 ^ 256;
  Q := 2 ^ 255;
  PointSize := 32;
  PrivKey := Z;
  NewPrivateKey raw := if (length raw =? 32)%nat && negb (littleEndian raw =? 0) then Some (littleEndian raw) else None;
  PublicKey k := Some (toy_pub k);
  Raw p := be 32 (pt_X p) ++ be 32 (pt_Y p);
  NewPublicKey := toy_new;
  Contains x y := y =? 1;
  Exp d x y := Some ((d * x) mod 2 ^ 256, y);
  NewUKM := littleEndian;
  KEK2012256 k p u := Some (be 32 ((k + pt_X p) * u));
  KDF_Derive k l s := Toy.digest 32 (k ++ x00 :: l ++ x00 :: s);
  Mgm := bytes;
  NewMGM k size := Some k;
  Mgm_Seal k n p ad := p ++ Toy.tag k n p ad;
  Mgm_Open := Toy.toy_open;
  streebog := Toy.digest 32;
  SignDigest k d e := (Ok (toy_sum k d), e);
  VerifyDigest p d s := Some (bool_decide (s = toy_sum (pt_X p) d))
}.

Lemma toy_sum_mod k d : toy_sum (k mod 2 ^ 256) d = toy_sum k d.
Proof.
  unfold toy_sum. f_equal. apply unbe_inj; [by rewrite !length_be|].
  by rewrite !unbe_be, Zplus_mod_idemp_l.
Qed.

Lemma toy_kek a b u : be 32 ((a + b mod 2 ^ 256) * u) = be 32 ((b + a mod 2 ^ 256) * u).
Proof.
  apply unbe_inj; [by rewrite !length_be|]. rewrite !unbe_be.
  rewrite <- (Zmult_mod_idemp_l (a + _)), <- (Zmult_mod_idemp_l (b + _)), !Zplus_mod_idemp_r.
  by rewrite (Z.add_comm b a).
Qed.

#[export] Instance toy_laws : GostLaws.
Proof.
  split; cbn -[be Toy.digest Toy.tag Z.pow toy_sum].
  - done.
  - intros raw -> [H _]. rewrite (proj2 (Z.eqb_neq (littleEndian raw) 0)) by lia. cbn. eauto.
  - intros k p [= <-]. unfold toy_new. cbn [pt_X pt_Y toy_pub]. rewrite length_app, !length_be. split; [|done].
    rewrite take_app_length', drop_app_length' by (by rewrite length_be). cbn -[be unbe Z.pow].
    rewrite !unbe_be. rewrite Z.mod_mod by lia. done.
  - intros k p [= <-]. cbn -[Z.pow]. split_and!; try lia; try done; apply Z.mod_pos_bound; lia.
  - intros k p [= <-]. cbn -[Z.pow]. eauto.
  - intros a b pa pb u [= <-] [= <-] _. cbn -[be Z.pow]. eexists. split; [done|]. f_equal. apply toy_kek.
  - intros u _. unfold littleEndian. apply unbe_bound.
  - intros. apply length_be.
  - eauto.
  - intros. by rewrite length_app, Toy.length_tag.
  - intros. apply Toy.toy_open_seal.
  - intros m n c p ad _. apply Toy.toy_open_sound.
  - intros. apply length_be.
  - intros k p d e s e' [= <-] [= <- <-]. f_equal. apply bool_decide_true. cbn -[toy_sum Z.pow]. by rewrite toy_sum_mod.
  - intros k d e s e' [= <- <-]. unfold toy_sum. by rewrite length_app, !length_be.
Qed.

End ToyGost.

(** ** Witnesses *)

Module GostDemo.
Import Gost ToyGost.

(** A block above [Q], then a scalar, then what is left. *)
Definition high : bytes := replicate 32 xff.
Definition scalar : bytes := x05 :: replicate 31 x00.
Definition pub : bytes := be 32 5 ++ be 32 1.
Definition off_curve : bytes := be 32 5 ++ be 32 2.
Definition ctx : Context := {| ctx_suite := SuiteGOST; ctx_sum := replicate 32 x07; ctx_set := true |}.

Lemma pair : pair_of scalar pub.
Proof. split_and!; [done | by vm_compute |]. by exists 5, (toy_pub 5). Qed.

Lemma off_refused : ~ point_sound off_curve.
Proof. intros (_ & p & x2 & y2 & [= <-] & _ & _ & H & _). revert H. by vm_compute. Qed.

End GostDemo.

Import ToyGost.

Lemma generate_first_witness :
  Gost.generate (G := ToyGost.toy) (GostDemo.high ++ GostDemo.scalar ++ [xaa])
    = (Ok (GostDemo.scalar, GostDemo.pub), [xaa]) /\
  exists bs rest, Forall Gost.rejected bs /\ GostDemo.high ++ [xaa] = List.concat bs ++ rest /\
    (length rest < 32)%nat.
Proof.
  split.
  - apply Gost.generate_first. split; [apply GostDemo.pair|]. exists [GostDemo.high]. split; [|done].
    constructor; [by split | done].
  - destruct (Gost.generate (G := ToyGost.toy) (GostDemo.high ++ [xaa])) as [[[priv pub]|x] e'] eqn:E;
      [by vm_compute in E|].
    by destruct (proj2 (Gost.generate_first _) x e' E) as [_ H].
Defined.

Lemma points_checked_witness :
  Gost.point_sound GostDemo.pub /\
  Gost.Agree GostDemo.scalar GostDemo.off_curve GostDemo.ctx = Err (Sentinel crypto_ErrBadPublicKey).
Proof.
  split.
  - apply (Gost.points_checked GostDemo.pub) with (priv := GostDemo.scalar). apply GostDemo.pair.
  - apply (Gost.points_checked GostDemo.off_curve); [done | by vm_compute | apply GostDemo.off_refused].
Defined.
