(* ===== verification/Suites.v ===== *)
(** * Suites: a provider picked by name, and what the two have in common

    Models [src/crypto/suite/suite.go], the only place where entry points pick a
    suite, over the primitives of both.  Everything above the providers is proved
    from [CryptoLaws]; here every provider that can be picked is shown to satisfy
    them, and both to make the checks that [docs/en/CRYPTO.md] tabulates, in its
    order. *)

From Stdlib Require Import Strings.Byte Strings.String.
From S2P Require Import Prelude Effects Crypto C25519 Toy Gost.

Module Suites.

(** [Default] *)
Definition DefaultSuite : Z := SuiteC25519.

Fixpoint parse_from (suites : list Z) (name : bytes) : res Z :=
  match suites with
  | [] => Err (Other "suite: unknown suite, want gost or c25519")
  | s :: rest => if bool_decide (Suite_String s = name) then Ok s else parse_from rest name
  end.

Definition Parse (name : bytes) : res Z := parse_from [SuiteGOST; SuiteC25519] name.

Section Pick.
Context {G : GostPrimitives} {X : Primitives}.

Definition New (s : Z) : res CryptoProvider :=
  if s =? SuiteGOST then Ok Gost.provider
  else if s =? SuiteC25519 then Ok C25519.provider
  else Err (Other "suite: unknown suite").

Lemma New_ok s p : New s = Ok p <->
  (s = SuiteGOST /\ p = Gost.provider) \/ (s = SuiteC25519 /\ p = C25519.provider).
Proof.
  unfold New. destruct (Z.eqb_spec s SuiteGOST) as [->|H1].
  - split; [intros [= <-]; by left | intros [[_ ->]|[H _]]; done].
  - destruct (Z.eqb_spec s SuiteC25519) as [->|H2].
    + split; [intros [= <-]; by right | intros [[H _]|[_ ->]]; done].
    + split; [done|]. by intros [[? _]|[? _]].
Qed.

Lemma Parse_ok name s : Parse name = Ok s <-> knownSuite s = true /\ Suite_String s = name.
Proof.
  unfold Parse. cbn [parse_from]. case_bool_decide as H1; [|case_bool_decide as H2].
  - split; [intros [= <-]; done|]. unfold knownSuite. rewrite orb_true_iff, !Z.eqb_eq.
    by intros [[-> | ->] <-].
  - split; [intros [= <-]; done|]. unfold knownSuite. rewrite orb_true_iff, !Z.eqb_eq.
    by intros [[-> | ->] <-].
  - split; [done|]. unfold knownSuite. rewrite orb_true_iff, !Z.eqb_eq. by intros [[-> | ->] ?].
Qed.

(** *** The documented checks *)

(** The sentinels a provider refuses arguments with. *)
Definition refusals : list sentinel :=
  [crypto_ErrBadKeySize; crypto_ErrBadContext; crypto_ErrBadLabel; crypto_ErrBadPublicKey].

(** What a caller learns with [errors.Is] from a result. *)
Definition refusal {A} (r : res A) : option sentinel :=
  match r with
  | Ok _ => None
  | Err e => List.find (errors_is e) refusals
  end.

Fixpoint first_failure (checks : list (bool * sentinel)) : option sentinel :=
  match checks with
  | [] => None
  | (ok, s) :: rest => if ok then first_failure rest else Some s
  end.

Definition purpose_ok (purpose : bytes) : bool :=
  negb (bool_decide (purpose ∈ reservedPurposes)) && negb (bool_decide (transcriptNS `prefix_of` purpose))
  && validName purpose.

(** The table of CRYPTO.md for a provider: [priv_len] is the length of its
    agreement keys, [peer_ok] the peers it may compute on with a private key. *)
Definition documented (p : CryptoProvider) (priv_len : nat) (peer_ok : bytes -> bytes -> bool) : Prop :=
  let owned c := Context_Valid c && (ctx_suite c =? @Suite p) in
  (forall priv pub c, refusal (@Agree p priv pub c) = first_failure
     [(bool_decide (length priv = priv_len), crypto_ErrBadKeySize); (owned c, crypto_ErrBadContext);
      (peer_ok priv pub, crypto_ErrBadPublicKey)]) /\
  (forall chain secret c, refusal (@MixKey p chain secret c) = first_failure
     [(bool_decide (length chain = @KeySize p), crypto_ErrBadKeySize);
      (bool_decide (length secret = @KeySize p), crypto_ErrBadKeySize); (owned c, crypto_ErrBadContext)]) /\
  (forall secret purpose c n, refusal (@DeriveKey p secret purpose c n) = first_failure
     [(bool_decide (length secret = @KeySize p), crypto_ErrBadKeySize);
      (bool_decide (0 < n <= @KeySize p)%nat, crypto_ErrBadKeySize); (owned c, crypto_ErrBadContext);
      (purpose_ok purpose, crypto_ErrBadLabel)]) /\
  (forall key, refusal (@NewAEAD p key) = first_failure
     [(bool_decide (length key = @KeySize p), crypto_ErrBadKeySize)]).

Lemma eqb_decide a b : (a =? b)%nat = bool_decide (a = b).
Proof. apply Bool.eq_iff_eq_true. by rewrite Nat.eqb_eq, bool_decide_eq_true. Qed.

Lemma size_decide n k : (n =? 0)%nat || (k <? n)%nat = negb (bool_decide (0 < n <= k)%nat).
Proof.
  case_bool_decide; cbn.
  - apply orb_false_iff. split; [apply Nat.eqb_neq | apply Nat.ltb_ge]; lia.
  - apply orb_true_iff. destruct n; [by left|]. right. apply Nat.leb_le. lia.
Qed.

Lemma DeriveLabel_split s purpose : knownSuite s = true ->
  if purpose_ok purpose then exists l, DeriveLabel s purpose = Ok l
  else DeriveLabel s purpose = Err (Sentinel crypto_ErrBadLabel).
Proof.
  intros Hs. unfold purpose_ok, DeriveLabel, Label. rewrite Hs.
  destruct (bool_decide (purpose ∈ _)), (bool_decide (prefix _ _)), (validName purpose); cbn; eauto.
Qed.

Context {GL : GostLaws} {XL : PrimitiveLaws}.

Definition gost_peer (priv pub : bytes) : bool := is_ok (Gost.publicKey pub).

Definition c25519_peer (priv pub : bytes) : bool :=
  bool_decide (length pub = 32%nat) && match X25519 priv pub with Some _ => true | None => false end.

Lemma gost_documented : documented Gost.provider PointSize gost_peer.
Proof.
  unfold documented. cbn. split_and!.
  - intros priv pub c. unfold Gost.Agree, Gost.owns. rewrite eqb_decide.
    destruct (bool_decide (length priv = _)); [|done]. destruct (_ && _); [|done]. cbn [negb].
    destruct (Label SuiteGOST (str "agree")) as [l|] eqn:El; [|discriminate El]. cbn [rbind first_failure].
    unfold Gost.vko, gost_peer.
    destruct (Gost.publicKey pub) as [q|e] eqn:Ep; [|by apply Gost.publicKey_refuses in Ep as ->]. cbn [rbind is_ok].
    destruct (NewPrivateKey priv) as [k|]; [|done]. unfold Gost.vkoFactor. destruct (negb _); [done|]. cbn [rbind].
    by destruct (KEK2012256 k q _).
  - intros chain secret c. unfold Gost.MixKey, Gost.owns. rewrite !eqb_decide.
    by destruct (bool_decide (length chain = _)), (bool_decide (length secret = _)), (_ && _).
  - intros secret purpose c n. unfold Gost.DeriveKey, Gost.owns. rewrite eqb_decide, size_decide.
    destruct (bool_decide (length secret = _)); [|done]. destruct (bool_decide (0 < n <= _)%nat); [|done].
    destruct (_ && _); [|done]. cbn. pose proof (DeriveLabel_split SuiteGOST purpose eq_refl) as H.
    destruct (purpose_ok purpose); [by destruct H as (l & ->) | by rewrite H].
  - intros key. unfold Gost.NewAEAD. rewrite eqb_decide. case_bool_decide as H; [|done]. cbn. unfold Gost.tagSize.
    by destruct (mgm_new key H) as (m & ->).
Qed.

Lemma c25519_documented : documented C25519.provider 32 c25519_peer.
Proof.
  unfold documented. cbn. split_and!.
  - intros priv pub c. unfold C25519.Agree, C25519.owns, C25519.privSize. rewrite !eqb_decide.
    destruct (bool_decide (length priv = _)); [|done]. destruct (_ && _); [|done]. cbn [negb].
    destruct (Label SuiteC25519 (str "agree")) as [l|] eqn:El; [|discriminate El]. cbn [rbind first_failure].
    unfold c25519_peer, C25519.pubSize. destruct (bool_decide (length pub = _)); [|done]. cbn [negb andb].
    by destruct (X25519 priv pub).
  - intros chain secret c. unfold C25519.MixKey, C25519.owns. rewrite !eqb_decide.
    by destruct (bool_decide (length chain = _)), (bool_decide (length secret = _)), (_ && _).
  - intros secret purpose c n. unfold C25519.DeriveKey, C25519.owns. rewrite eqb_decide, size_decide.
    destruct (bool_decide (length secret = _)); [|done]. destruct (bool_decide (0 < n <= _)%nat); [|done].
    destruct (_ && _); [|done]. cbn. pose proof (DeriveLabel_split SuiteC25519 purpose eq_refl) as H.
    destruct (purpose_ok purpose); [by destruct H as (l & ->) | by rewrite H].
  - intros key. unfold C25519.NewAEAD. rewrite eqb_decide. by case_bool_decide.
Qed.

(** Both suites make the checks the documentation tabulates and in its order:
    the sizes of the secrets, the context, the label, the public key.  A caller
    learns with [errors.Is] exactly the first of them that fails, and none of
    these errors when all pass. *)
Theorem checks_in_order :
  documented Gost.provider PointSize gost_peer /\ documented C25519.provider 32 c25519_peer.
Proof. split; [apply gost_documented | apply c25519_documented]. Qed.

(** C5. Whatever name an entry point is given: if it is the name of a suite, the
    entry point gets a provider of that suite, and the provider satisfies every
    law the rest of the system relies on; any other name, and any number that is
    not one of a suite, is an error. *)
Theorem every_suite_lawful name :
  (forall s, Parse name = Ok s -> Suite_String s = name /\
     exists p, New s = Ok p /\ @Suite p = s /\ inhabited (@CryptoLaws p)) /\
  (forall e s, Parse name = Err e -> knownSuite s = true -> Suite_String s <> name) /\
  (forall s, knownSuite s = false -> is_ok (New s) = false).
Proof.
  split_and!.
  - intros s [Hk <-]%Parse_ok. split; [done|]. unfold knownSuite in Hk. apply orb_true_iff in Hk.
    rewrite !Z.eqb_eq in Hk. destruct Hk as [-> | ->].
    + exists Gost.provider. split_and!; [done.. |]. constructor. exact Gost.laws.
    + exists C25519.provider. split_and!; [done.. |]. constructor. exact C25519.laws.
  - intros e s He Hk Hn. by rewrite (proj2 (Parse_ok name s)) in He.
  - intros s [H1 H2]%orb_false_iff. unfold New. by rewrite H1, H2.
Qed.

End Pick.

End Suites.

Import ToyGost ToySuite.

Lemma every_suite_lawful_witness :
  Suites.Parse (str "gost") = Ok SuiteGOST /\ Suites.Parse (Suite_String Suites.DefaultSuite) = Ok SuiteC25519 /\
  exists p, Suites.New SuiteGOST = Ok p /\ @Suite p = SuiteGOST /\ inhabited (@CryptoLaws p).
Proof.
  split_and!; [done..|]. by destruct (proj1 (Suites.every_suite_lawful (str "gost")) SuiteGOST).
Defined.

Definition demo_ctx : Context := {| ctx_suite := SuiteC25519; ctx_sum := replicate 32 x01; ctx_set := true |}.

Lemma checks_in_order_witness :
  Suites.refusal (@Agree Gost.provider (replicate 32 x05) [] demo_ctx) = Some crypto_ErrBadContext /\
  Suites.refusal (@Agree C25519.provider (replicate 32 x05) [] demo_ctx) = Some crypto_ErrBadPublicKey.
Proof.
  destruct Suites.checks_in_order as [(HG & _) (HC & _)].
  split; [rewrite HG | rewrite HC]; by vm_compute.
Defined.
