(* ===== verification/Text.v ===== *)
(** * Text: the encodings of the standard library that package pki writes

    [encoding/base64] in its strict standard form, [encoding/hex], decimal
    integers, UTF-8 and the strings, scanner and decoder of [encoding/json], as
    far as [src/pki] uses them.  Nothing here is code of the repository; the
    nesting limit of the JSON scanner is left out. *)

From Stdlib Require Import Strings.Byte Strings.String DecimalString.
From S2P Require Import Prelude Crypto.

(** ** Base64 *)

Definition b64_char (v : Z) : byte :=
  if v <? 26 then byte_of_Z (65 + v)
  else if v <? 52 then byte_of_Z (71 + v)
  else if v <? 62 then byte_of_Z (v - 4)
  else if v =? 62 then "+"%byte else "/"%byte.

Definition is_upper (c : byte) : bool := in_range "A" "Z" c.

Definition b64_val (c : byte) : option Z :=
  if is_upper c then Some (Z_of_byte c - 65)
  else if is_lower c then Some (Z_of_byte c - 71)
  else if is_digit c then Some (Z_of_byte c + 4)
  else if bool_decide (c = "+"%byte) then Some 62
  else if bool_decide (c = "/"%byte) then Some 63
  else None.

(** [base64.StdEncoding.EncodeToString] *)
Fixpoint b64_encode (l : bytes) : bytes :=
  match l with
  | [] => []
  | [a] =>
      let x := Z_of_byte a in
      [b64_char (x / 4); b64_char (x mod 4 * 16); "="; "="]%byte
  | [a; b] =>
      let x := Z_of_byte a in let y := Z_of_byte b in
      [b64_char (x / 4); b64_char (x mod 4 * 16 + y / 16); b64_char (y mod 16 * 4); "="%byte]
  | a :: b :: c :: t =>
      let x := Z_of_byte a in let y := Z_of_byte b in let z := Z_of_byte c in
      b64_char (x / 4) :: b64_char (x mod 4 * 16 + y / 16) ::
      b64_char (y mod 16 * 4 + z / 64) :: b64_char (z mod 64) :: b64_encode t
  end.

(** The quanta of four characters, padding only behind the last, and no bit set
    beneath it. *)
Fixpoint b64_quanta (l : bytes) : option bytes :=
  match l with
  | [] => Some []
  | a :: b :: c :: d :: t =>
      match b64_val a, b64_val b with
      | Some x, Some y =>
          if bool_decide (c = "="%byte) then
            if bool_decide (d = "="%byte) && bool_decide (t = []) && (y mod 16 =? 0)
            then Some [byte_of_Z (x * 4 + y / 16)] else None
          else
            match b64_val c with
            | None => None
            | Some z =>
                if bool_decide (d = "="%byte) then
                  if bool_decide (t = []) && (z mod 4 =? 0)
                  then Some [byte_of_Z (x * 4 + y / 16); byte_of_Z (y mod 16 * 16 + z / 4)] else None
                else
                  match b64_val d, b64_quanta t with
                  | Some v, Some r =>
                      Some (byte_of_Z (x * 4 + y / 16) :: byte_of_Z (y mod 16 * 16 + z / 4) ::
                            byte_of_Z (z mod 4 * 64 + v) :: r)
                  | _, _ => None
                  end
            end
      | _, _ => None
      end
  | _ => None
  end.

Definition is_break (c : byte) : bool := bool_decide (c = x0a) || bool_decide (c = x0d).

(** [base64.StdEncoding.Strict().DecodeString], which skips line breaks. *)
Definition b64_decode (l : bytes) : option bytes :=
  b64_quanta (List.filter (fun c => negb (is_break c)) l).

Definition b64_safe (c : byte) : bool :=
  match b64_val c with Some _ => true | None => bool_decide (c = "="%byte) end.

(** Facts about every value of six bits, by evaluation. *)
Lemma six_bits (f : Z -> bool) :
  forallb (fun n => f (Z.of_nat n)) (seq 0 64) = true -> forall v, 0 <= v < 64 -> f v = true.
Proof.
  intros H v Hv. rewrite forallb_forall in H. rewrite <- (Z2Nat.id v) by lia.
  apply H, in_seq. lia.
Qed.

Lemma b64_val_char v : 0 <= v < 64 ->
  b64_val (b64_char v) = Some v /\ b64_char v <> "="%byte /\ is_break (b64_char v) = false.
Proof.
  intros Hv.
  pose proof (six_bits (fun v => bool_decide (b64_val (b64_char v) = Some v)
    && negb (bool_decide (b64_char v = "="%byte)) && negb (is_break (b64_char v))) eq_refl v Hv) as H.
  apply andb_true_iff in H as [[H1%bool_decide_eq_true H2]%andb_true_iff H3%negb_true_iff].
  apply negb_true_iff, bool_decide_eq_false in H2. done.
Qed.

(** Induction three bytes at a time. *)
Lemma triples_ind (P : bytes -> Prop) :
  P [] -> (forall a, P [a]) -> (forall a b, P [a; b]) ->
  (forall a b c t, P t -> P (a :: b :: c :: t)) -> forall l, P l.
Proof.
  intros H0 H1 H2 H3 l.
  assert (H : forall n l, (length l <= n)%nat -> P l); [|by apply (H (length l))].
  clear l. induction n as [|n IH]; intros [|a [|b [|c t]]] Hl; simpl in Hl; auto; try lia.
  apply H3, IH. lia.
Qed.

Ltac b64_step :=
  match goal with
  | |- context [b64_val (b64_char ?v)] =>
      rewrite (proj1 (b64_val_char v ltac:(Z.to_euclidean_division_equations; lia)))
  | |- context [bool_decide (b64_char ?v = "="%byte)] =>
      rewrite (bool_decide_false (b64_char v = "="%byte))
        by (apply b64_val_char; Z.to_euclidean_division_equations; lia)
  end.

Lemma byte_of_Z_eq z b : z = Z_of_byte b -> byte_of_Z z = b.
Proof. intros ->. apply byte_of_Z_of_byte. Qed.

Lemma b64_quanta_encode l : b64_quanta (b64_encode l) = Some l.
Proof.
  induction l as [|a|a b|a b c t IH] using triples_ind; [done| | |];
    try pose proof (Z_of_byte_range a); try pose proof (Z_of_byte_range b);
    try pose proof (Z_of_byte_range c); cbn -[Z.div Z.modulo Z.mul Z.add Z_of_byte b64_char b64_val byte_of_Z];
    repeat b64_step; cbn -[Z.div Z.modulo Z.mul Z.add Z_of_byte b64_char b64_val byte_of_Z].
  - rewrite (proj2 (Z.eqb_eq _ _)) by (Z.to_euclidean_division_equations; lia).
    do 2 f_equal. apply byte_of_Z_eq. Z.to_euclidean_division_equations; lia.
  - rewrite (proj2 (Z.eqb_eq _ _)) by (Z.to_euclidean_division_equations; lia).
    f_equal. f_equal; [|f_equal]; apply byte_of_Z_eq; Z.to_euclidean_division_equations; lia.
  - rewrite IH. f_equal.
    f_equal; [|f_equal; [|f_equal]]; apply byte_of_Z_eq; Z.to_euclidean_division_equations; lia.
Qed.

Lemma b64_char_safe v : 0 <= v < 64 -> b64_safe (b64_char v) = true.
Proof. intros (H & _ & _)%b64_val_char. unfold b64_safe. by rewrite H. Qed.

Lemma b64_encode_safe l : forallb b64_safe (b64_encode l) = true.
Proof.
  induction l as [|a|a b|a b c t IH] using triples_ind; [done| | |];
    try pose proof (Z_of_byte_range a); try pose proof (Z_of_byte_range b);
    try pose proof (Z_of_byte_range c); cbn [b64_encode forallb];
    rewrite ?b64_char_safe by (Z.to_euclidean_division_equations; lia); cbn [andb]; auto.
Qed.

Lemma filter_safe l : forallb b64_safe l = true -> List.filter (fun c => negb (is_break c)) l = l.
Proof.
  induction l as [|c l IH]; cbn [forallb List.filter]; [done|].
  intros [Hc Hl]%andb_true_iff. rewrite IH by done.
  destruct (is_break c) eqn:E; [|done]. apply orb_true_iff in E as [->%bool_decide_eq_true | ->%bool_decide_eq_true];
    discriminate Hc.
Qed.

(** What was encoded decodes to itself. *)
Lemma b64_decode_encode l : b64_decode (b64_encode l) = Some l.
Proof. unfold b64_decode. rewrite filter_safe by apply b64_encode_safe. apply b64_quanta_encode. Qed.

Lemma b64_encode_inj a b : b64_encode a = b64_encode b -> a = b.
Proof. intros H. apply (f_equal b64_decode) in H. rewrite !b64_decode_encode in H. congruence. Qed.

(** ** Hexadecimal *)

Definition hex_digit (v : Z) : byte := if v <? 10 then byte_of_Z (48 + v) else byte_of_Z (87 + v).

(** [hex.EncodeToString] *)
Definition hex_encode (l : bytes) : bytes :=
  concat (map (fun b => [hex_digit (Z_of_byte b / 16); hex_digit (Z_of_byte b mod 16)]) l).

Definition hex_value (c : byte) : option Z :=
  if is_digit c then Some (Z_of_byte c - 48)
  else if in_range "a" "f" c then Some (Z_of_byte c - 87)
  else if in_range "A" "F" c then Some (Z_of_byte c - 55)
  else None.

(** ** Decimal *)

(** [strconv.Itoa] *)
Definition itoa (z : Z) : bytes := str (NilZero.string_of_int (Z.to_int z)).

Fixpoint digits (acc : Z) (l : bytes) : option Z :=
  match l with
  | [] => Some acc
  | c :: t => if is_digit c then digits (acc * 10 + (Z_of_byte c - 48)) t else None
  end.
