(* ===== verification/Json.v ===== *)
(** * Json: what [src/pki] uses of [encoding/json]

    [json.Marshal] of structs of integers, strings and raw values, and the
    decoder: a scanner that finds the end of a value, and fields read from raw
    texts by name, in any case, the last of equal ones kept.  It is the standard
    library's code, not the repository's.  The limit of 10000 nested values is
    left out.  [scan] takes the length of its input as fuel: every level of
    nesting and every element consumes at least one byte. *)

From Stdlib Require Import Strings.Byte Strings.String.
From S2P Require Import Prelude Crypto Text.

(** ** UTF-8 *)

Definition between (lo hi : Z) (c : byte) : bool := (lo <=? Z_of_byte c) && (Z_of_byte c <=? hi).

Definition cont (c : byte) : bool := between 128 191 c.

(** The size of the encoded rune a text begins with, if that is one. *)
Definition rune_size (l : bytes) : option nat :=
  match l with
  | a :: b :: c :: d :: _ =>
      if between 0 127 a then Some 1%nat
      else if between 194 223 a && cont b then Some 2%nat
      else if (bool_decide (a = xe0) && between 160 191 b || between 225 236 a && cont b
               || bool_decide (a = xed) && between 128 159 b || between 238 239 a && cont b) && cont c
      then Some 3%nat
      else if (bool_decide (a = xf0) && between 144 191 b || between 241 243 a && cont b
               || bool_decide (a = xf4) && between 128 143 b) && cont c && cont d
      then Some 4%nat
      else None
  | _ => None
  end.

(** The text is padded, since a short one is short of continuation bytes. *)
Definition DecodeRune_size (l : bytes) : option nat := rune_size (l ++ [x00; x00; x00]).

(** [utf8.EncodeRune] of a rune that is not a surrogate. *)
Definition EncodeRune (r : Z) : bytes :=
  if r <? 2 ^ 7 then [byte_of_Z r]
  else if r <? 2 ^ 11 then [byte_of_Z (192 + r / 64); byte_of_Z (128 + r mod 64)]
  else if r <? 2 ^ 16 then
    [byte_of_Z (224 + r / 4096); byte_of_Z (128 + r / 64 mod 64); byte_of_Z (128 + r mod 64)]
  else
    [byte_of_Z (240 + r / 262144); byte_of_Z (128 + r / 4096 mod 64);
     byte_of_Z (128 + r / 64 mod 64); byte_of_Z (128 + r mod 64)].

(** ** Strings *)

Definition BS : byte := x5c.
Definition QUOTE : byte := x22.

(** Neither a control character nor one that [Marshal] escapes. *)
Definition plain (c : byte) : bool :=
  between 32 127 c && negb (bool_decide (c ∈ [QUOTE; BS; x3c; x3e; x26])).

Definition escape_ascii (c : byte) : bytes :=
  if plain c then [c]
  else if bool_decide (c = BS) || bool_decide (c = QUOTE) then [BS; c]
  else if bool_decide (c = x08) then [BS; "b"%byte]
  else if bool_decide (c = x0c) then [BS; "f"%byte]
  else if bool_decide (c = x0a) then [BS; "n"%byte]
  else if bool_decide (c = x0d) then [BS; "r"%byte]
  else if bool_decide (c = x09) then [BS; "t"%byte]
  else BS :: str "u00" ++ hex_encode [c].

(** What is left of the rune under way: bytes to copy or bytes to drop. *)
Fixpoint escape (copy skip : nat) (l : bytes) : bytes :=
  match l with
  | [] => []
  | c :: t =>
      match copy, skip with
      | S n, _ => c :: escape n 0 t
      | O, S n => escape 0 n t
      | O, O =>
          if between 0 127 c then escape_ascii c ++ escape 0 0 t
          else
            match DecodeRune_size l, l with
            | None, _ => BS :: str "ufffd" ++ escape 0 0 t
            | Some _, xe2 :: x80 :: xa8 :: _ => BS :: str "u2028" ++ escape 0 2 t
            | Some _, xe2 :: x80 :: xa9 :: _ => BS :: str "u2029" ++ escape 0 2 t
            | Some n, _ => c :: escape (n - 1) 0 t
            end
      end
  end.

(** A string the way [json.Marshal] writes it. *)
Definition quote (s : bytes) : bytes := QUOTE :: escape 0 0 s ++ [QUOTE].

(** Four hexadecimal digits, and what follows them. *)
Definition hex4 (l : bytes) : option (Z * bytes) :=
  match l with
  | a :: b :: c :: d :: t =>
      match hex_value a, hex_value b, hex_value c, hex_value d with
      | Some a, Some b, Some c, Some d => Some (((a * 16 + b) * 16 + c) * 16 + d, t)
      | _, _, _, _ => None
      end
  | _ => None
  end.

Definition is_simple_escape (c : byte) : bool :=
  bool_decide (c ∈ [BS; QUOTE; "/"; "b"; "f"; "n"; "r"; "t"]%byte).

(** From behind the opening quote to behind the closing one: the content as it
    is written, and the rest. *)
Fixpoint scan_string (l : bytes) : option (bytes * bytes) :=
  match l with
  | [] => None
  | c :: t =>
      let further (p : bytes) (o : option (bytes * bytes)) :=
        match o with Some (s, r) => Some (p ++ s, r) | None => None end in
      if bool_decide (c = QUOTE) then Some ([], t)
      else if negb (between 32 255 c) then None
      else if bool_decide (c = BS) then
        match t with
        | [] => None
        | e :: t' =>
            if is_simple_escape e then further [c; e] (scan_string t')
            else if bool_decide (e = "u"%byte)
            then match hex4 t' with Some _ => further [c; e] (scan_string t') | None => None end
            else None
        end
      else further [c] (scan_string t)
  end.

Definition unescape (e : byte) : byte :=
  if bool_decide (e = "b"%byte) then x08
  else if bool_decide (e = "f"%byte) then x0c
  else if bool_decide (e = "n"%byte) then x0a
  else if bool_decide (e = "r"%byte) then x0d
  else if bool_decide (e = "t"%byte) then x09
  else e.

Definition replacement : bytes := [xef; xbf; xbd].

(** The second half of a surrogate pair behind an escape, if it is one. *)
Definition low_surrogate (l : bytes) : option Z :=
  match l with
  | b :: u :: t =>
      if bool_decide (b = BS) && bool_decide (u = "u"%byte) then
        match hex4 t with
        | Some (r, _) => if (56320 <=? r) && (r <? 57344) then Some r else None
        | None => None
        end
      else None
  | _ => None
  end.

(** The content of a scanned string, its escapes undone; [copy] and [skip] as in
    [escape]. *)
Fixpoint unquote (copy skip : nat) (l : bytes) : bytes :=
  match l with
  | [] => []
  | c :: t =>
      match copy, skip with
      | S n, _ => c :: unquote n 0 t
      | O, S n => unquote 0 n t
      | O, O =>
          if bool_decide (c = BS) then
            match t with
            | [] => []
            | e :: t' =>
                if bool_decide (e = "u"%byte) then
                  match hex4 t' with
                  | None => []
                  | Some (r, t'') =>
                      if (55296 <=? r) && (r <? 57344) then
                        match (if r <? 56320 then low_surrogate t'' else None) with
                        | Some r2 => EncodeRune ((r - 55296) * 1024 + (r2 - 56320) + 65536) ++ unquote 0 11 t
                        | None => replacement ++ unquote 0 5 t
                        end
                      else EncodeRune r ++ unquote 0 5 t
                  end
                else unescape e :: unquote 0 1 t
            end
          else if between 0 127 c then c :: unquote 0 0 t
          else
            match DecodeRune_size l with
            | None => replacement ++ unquote 0 0 t
            | Some n => c :: unquote (n - 1) 0 t
            end
      end
  end.

(** ** The scanner *)

Definition is_space (c : byte) : bool := bool_decide (c ∈ [x20; x09; x0a; x0d]).

Fixpoint skip_space (l : bytes) : bytes :=
  match l with
  | c :: t => if is_space c then skip_space t else l
  | [] => []
  end.

Fixpoint skip_digits (l : bytes) : bytes :=
  match l with
  | c :: t => if is_digit c then skip_digits t else l
  | [] => []
  end.

(** At least one digit. *)
Definition some_digits (l : bytes) : option bytes :=
  match l with
  | c :: t => if is_digit c then Some (skip_digits t) else None
  | [] => None
  end.

Definition scan_exponent (l : bytes) : option bytes :=
  match l with
  | c :: t =>
      if bool_decide (c ∈ ["e"; "E"]%byte) then
        match t with
        | d :: t' => if bool_decide (d ∈ ["+"; "-"]%byte) then some_digits t' else some_digits t
        | [] => None
        end
      else Some l
  | [] => Some []
  end.

Definition scan_fraction (l : bytes) : option bytes :=
  match l with
  | c :: t =>
      if bool_decide (c = "."%byte)
      then match some_digits t with Some r => scan_exponent r | None => None end
      else scan_exponent l
  | [] => Some []
  end.

Definition scan_unsigned (l : bytes) : option bytes :=
  match l with
  | c :: t =>
      if bool_decide (c = "0"%byte) then scan_fraction t
      else if is_digit c then scan_fraction (skip_digits t)
      else None
  | [] => None
  end.

Definition scan_number (l : bytes) : option bytes :=
  match l with
  | c :: t => if bool_decide (c = "-"%byte) then scan_unsigned t else scan_unsigned l
  | [] => None
  end.

(** A word at the head of a text. *)
Fixpoint expect (w l : bytes) : option bytes :=
  match w, l with
  | [], _ => Some l
  | a :: w', b :: l' => if bool_decide (a = b) then expect w' l' else None
  | _ :: _, [] => None
  end.

Definition token (c : byte) (l : bytes) : option bytes := expect [c] (skip_space l).

(** The raw text between two suffixes of one input. *)
Definition raw_of (l rest : bytes) : bytes := take (length l - length rest) l.

(** Items with commas between them, up to and with the closing bracket. *)
Fixpoint collect {A} (item : bytes -> option (A * bytes)) (close : byte) (fuel : nat) (l : bytes) :
  option (list A * bytes) :=
  match fuel with
  | O => None
  | S f =>
      match item l with
      | None => None
      | Some (a, r) =>
          match token close r with
          | Some r' => Some ([a], r')
          | None =>
              match token "," r with
              | None => None
              | Some r' =>
                  match collect item close f r' with
                  | Some (s, r'') => Some (a :: s, r'')
                  | None => None
                  end
              end
          end
      end
  end.

(** The same, from behind the opening bracket: there may be no item at all. *)
Definition items {A} (item : bytes -> option (A * bytes)) (close : byte) (fuel : nat) (l : bytes) :=
  match token close l with
  | Some r => Some ([], r)
  | None => collect item close fuel l
  end.

Definition element (value : bytes -> option bytes) (l : bytes) : option (bytes * bytes) :=
  let l' := skip_space l in
  match value l' with Some r => Some (raw_of l' r, r) | None => None end.

Definition member (value : bytes -> option bytes) (l : bytes) : option ((bytes * bytes) * bytes) :=
  match token QUOTE l with
  | None => None
  | Some l1 =>
      match scan_string l1 with
      | None => None
      | Some (k, l2) =>
          match token ":" l2 with
          | None => None
          | Some l3 =>
              match element value l3 with
              | Some (v, r) => Some ((unquote 0 0 k, v), r)
              | None => None
              end
          end
      end
  end.

(** Behind one value that begins with the text. *)
Fixpoint scan (fuel : nat) (l : bytes) : option bytes :=
  match fuel with
  | O => None
  | S f =>
      match l with
      | [] => None
      | c :: t =>
          if bool_decide (c = QUOTE) then option_map snd (scan_string t)
          else if bool_decide (c = "{"%byte) then option_map snd (items (member (scan f)) "}" (length t) t)
          else if bool_decide (c = "["%byte) then option_map snd (items (element (scan f)) "]" (length t) t)
          else if bool_decide (c = "t"%byte) then expect (str "true") l
          else if bool_decide (c = "f"%byte) then expect (str "false") l
          else if bool_decide (c = "n"%byte) then expect (str "null") l
          else scan_number l
      end
  end.

Definition scan_value (l : bytes) : option bytes := scan (S (length l)) l.

(** The raw text of the first value of an input: what [Decoder.Decode] reads. *)
Definition first_value (l : bytes) : option bytes := option_map fst (element scan_value l).

(** The raw text of the only value of an input: what [json.Unmarshal] reads. *)
Definition only_value (l : bytes) : option bytes :=
  match element scan_value l with
  | Some (v, r) => match skip_space r with [] => Some v | _ => None end
  | None => None
  end.

(** ** The decoder, on the raw text of one value *)

Definition is_null (raw : bytes) : bool := bool_decide (raw = str "null").

(** The members of an object; [null] leaves a struct as it is. *)
Definition object_of (raw : bytes) : option (list (bytes * bytes)) :=
  if is_null raw then Some []
  else match raw with
       | c :: t =>
           if bool_decide (c = "{"%byte)
           then option_map fst (items (member scan_value) "}" (length t) t) else None
       | [] => None
       end.

Definition array_of (raw : bytes) : option (list bytes) :=
  if is_null raw then Some []
  else match raw with
       | c :: t =>
           if bool_decide (c = "["%byte)
           then option_map fst (items (element scan_value) "]" (length t) t) else None
       | [] => None
       end.

(** A value for a string field that holds [old]. *)
Definition string_of (old raw : bytes) : option bytes :=
  if is_null raw then Some old
  else match raw with
       | c :: t =>
           if bool_decide (c = QUOTE)
           then match scan_string t with Some (s, _) => Some (unquote 0 0 s) | None => None end
           else None
       | [] => None
       end.

(** A value for an [int] field that holds [old]. *)
Definition int_of (old : Z) (raw : bytes) : option Z :=
  if is_null raw then Some old
  else
    let v := match raw with
             | c :: t => if bool_decide (c = "-"%byte) then option_map Z.opp (digits 0 t)
                         else if is_digit c then digits 0 raw else None
             | [] => None
             end in
    match v with
    | Some z => if (- 2 ^ 63 <=? z) && (z <? 2 ^ 63) then Some z else None
    | None => None
    end.

(** Names are matched in any case; outside ASCII only the long s and the Kelvin
    sign fold to a letter of an ASCII name. *)
Fixpoint fold_name (l : bytes) : bytes :=
  match l with
  | xc5 :: xbf :: t => "S"%byte :: fold_name t
  | xe2 :: x84 :: xaa :: t => "K"%byte :: fold_name t
  | c :: t => (if is_lower c then byte_of_Z (Z_of_byte c - 32) else c) :: fold_name t
  | [] => []
  end.

Definition named (n : string) (k : bytes) : bool := bool_decide (fold_name k = fold_name (str n)).

(** Every member in turn, into the struct [s]; one that does not fit fails. *)
Definition decode_fields {S} (set : S -> bytes -> bytes -> option S) (s : S)
    (members : list (bytes * bytes)) : option S :=
  foldl (fun o m => match o with Some s => set s (fst m) (snd m) | None => None end) (Some s) members.

(** ** Writing *)

Fixpoint separated (l : list bytes) : bytes :=
  match l with
  | [] => []
  | [x] => x
  | x :: t => x ++ ","%byte :: separated t
  end.

Definition write_object (members : list (string * bytes)) : bytes :=
  "{"%byte :: separated (map (fun m => quote (str (fst m)) ++ ":"%byte :: snd m) members) ++ ["}"%byte].

Definition write_array (elements : list bytes) : bytes :=
  "["%byte :: separated elements ++ ["]"%byte].

(** [json.Marshal] of a [RawMessage]: no space outside strings, and what HTML or
    JavaScript would read escaped. *)
Fixpoint compact (in_string escaped : bool) (skip : nat) (l : bytes) : bytes :=
  match l with
  | [] => []
  | c :: t =>
      match skip with
      | S n => compact in_string false n t
      | O =>
          if negb in_string && is_space c then compact false false 0 t
          else if bool_decide (c ∈ [x3c; x3e; x26])
          then BS :: str "u00" ++ hex_encode [c] ++ compact in_string false 0 t
          else match l with
               | xe2 :: x80 :: xa8 :: _ => BS :: str "u2028" ++ compact in_string false 2 t
               | xe2 :: x80 :: xa9 :: _ => BS :: str "u2029" ++ compact in_string false 2 t
               | _ =>
                   c :: (if in_string
                         then if escaped then compact true false 0 t
                              else if bool_decide (c = BS) then compact true true 0 t
                              else compact (negb (bool_decide (c = QUOTE))) false 0 t
                         else compact (bool_decide (c = QUOTE)) false 0 t)
               end
      end
  end.

Definition write_raw (raw : bytes) : bytes :=
  match raw with [] => str "null" | _ => compact false false 0 raw end.

(** ** What was written reads back *)

(** What may follow a value inside a text. *)
Definition ends (rest : bytes) : Prop :=
  match rest with [] => True | c :: _ => c ∈ [","; "}"; "]"]%byte end.

Definition starter (c : byte) : bool := negb (is_space c || bool_decide (c ∈ ["}"; "]"]%byte)).

(** A text that is one value, wherever it stands. *)
Record value_text (v : bytes) : Prop := {
  vt_head : exists c t, v = c :: t /\ starter c = true;
  vt_scan : forall fuel rest, (length v < fuel)%nat -> ends rest -> scan fuel (v ++ rest) = Some rest
}.

Lemma skip_space_head c t : is_space c = false -> skip_space (c :: t) = c :: t.
Proof. simpl. by intros ->. Qed.

Lemma token_head c t : is_space c = false -> token c (c :: t) = Some t.
Proof. intros H. unfold token. rewrite skip_space_head by done. simpl. by rewrite bool_decide_true. Qed.

Lemma token_other c d t : is_space d = false -> c <> d -> token c (d :: t) = None.
Proof. intros H Hd. unfold token. rewrite skip_space_head by done. simpl. by rewrite bool_decide_false. Qed.

Lemma raw_of_app v rest : raw_of (v ++ rest) rest = v.
Proof. unfold raw_of. by rewrite length_app, Nat.add_sub, take_app_length. Qed.

Lemma plain_spec c : plain c = true ->
  between 32 255 c = true /\ between 0 127 c = true /\ c <> QUOTE /\ c <> BS.
Proof.
  unfold plain, between. intros [H N]%andb_true_iff.
  apply negb_true_iff, bool_decide_eq_false in N. apply andb_true_iff in H as [H1%Z.leb_le H2%Z.leb_le].
  repeat split; try (apply andb_true_iff; split; apply Z.leb_le; lia).
  - intros ->. apply N. by constructor.
  - intros ->. apply N. by do 2 constructor.
Qed.

Lemma escape_plain s : forallb plain s = true -> escape 0 0 s = s.
Proof.
  induction s as [|c s IH]; [done|]. intros [Hc Hs]%andb_true_iff. specialize (IH Hs).
  cbn [escape]. rewrite (proj1 (proj2 (plain_spec c Hc))). unfold escape_ascii. by rewrite Hc, IH.
Qed.

Lemma quote_plain s : forallb plain s = true -> quote s = QUOTE :: s ++ [QUOTE].
Proof. intros H. unfold quote. by rewrite escape_plain. Qed.

Lemma scan_plain s rest : forallb plain s = true -> scan_string (s ++ QUOTE :: rest) = Some (s, rest).
Proof.
  induction s as [|c s IH]; [done|]. intros [Hc Hs]%andb_true_iff. specialize (IH Hs).
  destruct (plain_spec c Hc) as (H1 & _ & H3 & H4).
  cbn [app scan_string]. rewrite H1, !bool_decide_false, IH by done. done.
Qed.

Lemma unquote_plain s : forallb plain s = true -> unquote 0 0 s = s.
Proof.
  induction s as [|c s IH]; [done|]. intros [Hc Hs]%andb_true_iff. specialize (IH Hs).
  destruct (plain_spec c Hc) as (_ & H2 & _ & H4).
  cbn [unquote]. by rewrite H2, bool_decide_false, IH.
Qed.

Lemma string_of_quote old s : forallb plain s = true -> string_of old (quote s) = Some s.
Proof.
  intros H. rewrite quote_plain by done. unfold string_of, is_null.
  rewrite bool_decide_false by discriminate. rewrite bool_decide_true by done.
  by rewrite scan_plain, unquote_plain.
Qed.

Lemma quote_text s : forallb plain s = true -> value_text (quote s).
Proof.
  intros H. rewrite quote_plain by done. split.
  - by exists QUOTE, (s ++ [QUOTE]).
  - intros [|f] rest Hf _; [lia|]. cbn [scan app]. rewrite bool_decide_true by done.
    rewrite <- app_assoc. cbn [app]. by rewrite scan_plain.
Qed.

Lemma starter_spec c : starter c = true -> is_space c = false /\ c <> "}"%byte /\ c <> "]"%byte.
Proof.
  unfold starter. intros [H N]%negb_true_iff%orb_false_iff. apply bool_decide_eq_false in N.
  set_solver.
Qed.

(** A scanner that gets past every value text shorter than [n]. *)
Definition reads (value : bytes -> option bytes) (n : nat) : Prop :=
  forall v rest, value_text v -> (length v < n)%nat -> ends rest -> value (v ++ rest) = Some rest.

Lemma reads_scan fuel : reads (scan fuel) fuel.
Proof. intros v rest [_ H]. apply H. Qed.

Lemma reads_scan_value n : reads scan_value n.
Proof. intros v rest [_ H] _. apply H. rewrite length_app. lia. Qed.

Lemma element_value value n v rest : reads value n -> value_text v -> (length v < n)%nat -> ends rest ->
  element value (v ++ rest) = Some (v, rest).
Proof.
  intros Hr Hv Hn He. unfold element. pose proof (Hr v rest Hv Hn He) as H.
  destruct (vt_head _ Hv) as (c & t & -> & (Hc & _)%starter_spec). cbn [app] in *.
  rewrite skip_space_head, H by done. change (c :: t ++ rest) with ((c :: t) ++ rest).
  by rewrite raw_of_app.
Qed.

Lemma member_value value n k v rest : reads value n -> forallb plain k = true -> value_text v ->
  (length v < n)%nat -> ends rest ->
  member value (quote k ++ ":"%byte :: v ++ rest) = Some ((k, v), rest).
Proof.
  intros Hr Hk Hv Hn He. rewrite quote_plain by done. unfold member. cbn [app].
  rewrite token_head, <- app_assoc by done. cbn [app].
  rewrite scan_plain, token_head by done.
  rewrite (element_value _ _ _ _ Hr Hv Hn He), unquote_plain by done. done.
Qed.

(** Items written one after another are collected one after another. *)
Section Collect.
Context {A : Type} (item : bytes -> option (A * bytes)) (close : byte).
Context (Hclose : close ∈ ["}"; "]"]%byte).

Definition item_text (p : A * bytes) : Prop :=
  (exists c t, snd p = c :: t /\ starter c = true) /\
  forall rest, ends rest -> item (snd p ++ rest) = Some (fst p, rest).

Lemma close_bracket_ends rest : ends (close :: rest).
Proof. simpl. set_solver. Qed.

Lemma token_close rest : token close (close :: rest) = Some rest.
Proof. apply token_head. destruct (proj1 (elem_of_cons _ _ _) Hclose) as [->| ->%list_elem_of_singleton]; done. Qed.

Lemma collect_separated l rest fuel :
  Forall item_text l -> l <> [] -> (length l <= fuel)%nat ->
  collect item close fuel (separated (map snd l) ++ close :: rest) = Some (map fst l, rest).
Proof.
  induction fuel as [|f IH] in l |- *; intros Hl Hn Hf; destruct l as [|[a x] l]; try done; [simpl in Hf; lia|].
  apply Forall_cons in Hl as [[_ Hx] Hl]. cbn [snd fst] in Hx.
  destruct l as [|q l]; cbn [collect].
  - cbn [map separated fst snd]. rewrite Hx by apply close_bracket_ends. by rewrite token_close.
  - change (separated (map snd ((a, x) :: q :: l)))
      with (x ++ ","%byte :: separated (map snd (q :: l))).
    rewrite <- app_assoc. cbn [app]. rewrite Hx by (simpl; set_solver).
    rewrite token_other; [|done|intros ->; set_solver].
    rewrite token_head by done.
    rewrite IH by (done || simpl in *; lia). done.
Qed.

Lemma items_separated l rest fuel :
  Forall item_text l -> (length l <= fuel)%nat ->
  items item close fuel (separated (map snd l) ++ close :: rest) = Some (map fst l, rest).
Proof.
  intros Hl Hf. unfold items. destruct l as [|[a x] l].
  - cbn [map separated app]. by rewrite token_close.
  - rewrite collect_separated by done.
    apply Forall_cons in Hl as [[(c & t & Hx & (Hc & H1 & H2)%starter_spec) _] _]. cbn [snd] in Hx.
    assert (exists u, separated (map snd ((a, x) :: l)) ++ close :: rest = c :: u) as [u ->].
    { subst x. cbn [map separated snd]. destruct (map snd l); cbn [app]; eauto. }
    rewrite token_other; [done|done|]. intros ->. set_solver.
Qed.
End Collect.

Lemma separated_cons x y l : separated (x :: y :: l) = x ++ ","%byte :: separated (y :: l).
Proof. done. Qed.

Lemma separated_length l x : x ∈ l -> (length x <= length (separated l))%nat.
Proof.
  induction l as [|y [|z l] IH]; intros H; [set_solver| |].
  - apply list_elem_of_singleton in H as ->. done.
  - rewrite separated_cons, length_app, length_cons.
    apply elem_of_cons in H as [->|H]; [lia|]. specialize (IH H). lia.
Qed.

Lemma separated_count (l : list bytes) :
  Forall (fun x => x <> []) l -> (length l <= length (separated l))%nat.
Proof.
  induction l as [|y [|z l] IH]; intros H; [done| |].
  - apply Forall_cons in H as [H _]. destruct y; [done | simpl; lia].
  - apply Forall_cons in H as [_ H]. specialize (IH H).
    rewrite separated_cons, length_app, !length_cons in *. lia.
Qed.

(** *** Objects *)

Section Objects.
Context (ms : list (string * bytes)).
Context (Hk : Forall (fun m => forallb plain (str (fst m)) = true) ms).
Context (Hv : Forall (fun m => value_text (snd m)) ms).

Definition member_text (m : string * bytes) : bytes := quote (str (fst m)) ++ ":"%byte :: snd m.

Definition members_of : list (bytes * bytes) := map (fun m => (str (fst m), snd m)) ms.

Lemma members_items value n rest :
  reads value n -> (length (separated (map member_text ms)) < n)%nat ->
  items (member value) "}" (length (separated (map member_text ms) ++ "}"%byte :: rest))
    (separated (map member_text ms) ++ "}"%byte :: rest) = Some (members_of, rest).
Proof.
  intros Hr Hf.
  set (l := map (fun m => ((str (fst m), snd m), member_text m)) ms).
  assert (Hs : map snd l = map member_text ms) by (unfold l; by rewrite map_map).
  assert (Hm : map fst l = members_of) by (unfold l, members_of; by rewrite map_map).
  rewrite <- Hs, <- Hm in *. apply items_separated; [by constructor| |].
  - apply Forall_forall. intros p Hp. unfold l in Hp. apply list_elem_of_fmap in Hp as ([k v] & -> & Hp).
    rewrite Forall_forall in Hk, Hv. specialize (Hk _ Hp). specialize (Hv _ Hp). cbn [fst snd] in *.
    split; [by eexists _, _|]. intros rest' He. cbn [fst snd]. unfold member_text. cbn [fst snd].
    rewrite <- app_assoc. cbn [app]. apply (member_value _ n); [done|done|done| |done].
    assert (Hin : member_text (k, v) ∈ map snd l) by (rewrite Hs; by apply (list_elem_of_fmap_2 member_text _ (k, v))).
    apply separated_length in Hin. unfold member_text in Hin. cbn [fst snd] in Hin.
    rewrite length_app in Hin. cbn [length] in Hin. lia.
  - rewrite length_app.
    etransitivity; [|apply Nat.le_add_r]. rewrite <- (length_map snd l). apply separated_count.
    rewrite Hs. apply Forall_map, Forall_forall. intros m _. unfold member_text, quote. done.
Qed.

Lemma write_object_text : value_text (write_object ms).
Proof.
  split; [by exists "{"%byte, (separated (map member_text ms) ++ ["}"%byte])|].
  intros [|f] rest Hf _; [lia|]. unfold write_object in *.
  change (map _ ms) with (map member_text ms) in *.
  rewrite length_cons, length_app, length_cons in Hf.
  cbn [app scan]. rewrite bool_decide_false, bool_decide_true by done.
  rewrite <- app_assoc. cbn [app].
  rewrite (members_items _ f); [done|apply reads_scan|lia].
Qed.

(** The members of a written object, from its own text and from an input that
    begins with it. *)
Lemma object_of_write : object_of (write_object ms) = Some members_of.
Proof.
  unfold object_of, is_null. rewrite bool_decide_false by discriminate.
  unfold write_object. rewrite bool_decide_true by done.
  change (map _ ms) with (map member_text ms).
  by rewrite (members_items _ _ [] (reads_scan_value (S (length (separated (map member_text ms)))))) by lia.
Qed.
End Objects.

(** *** Arrays *)

Section Arrays.
Context (vs : list bytes) (Hv : Forall value_text vs).

Lemma elements_items value n rest :
  reads value n -> (length (separated vs) < n)%nat ->
  items (element value) "]" (length (separated vs ++ "]"%byte :: rest))
    (separated vs ++ "]"%byte :: rest) = Some (vs, rest).
Proof.
  intros Hr Hf.
  set (l := map (fun v => (v, v)) vs).
  assert (Hs : map snd l = vs) by (unfold l; rewrite map_map; apply map_id).
  assert (Hm : map fst l = vs) by (unfold l; rewrite map_map; apply map_id).
  transitivity (items (element value) "]" (length (separated (map snd l) ++ "]"%byte :: rest))
    (separated (map snd l) ++ "]"%byte :: rest)); [by rewrite Hs|].
  rewrite items_separated, Hm; [done|set_solver| |].
  - apply Forall_forall. intros p Hp. apply list_elem_of_fmap in Hp as (v & -> & Hp).
    pose proof (separated_length _ _ Hp). rewrite Forall_forall in Hv. specialize (Hv _ Hp).
    split; [apply Hv|]. intros rest' He. apply (element_value _ n); [done|done|simpl; lia|done].
  - rewrite Hs, length_app. unfold l. rewrite length_map.
    etransitivity; [|apply Nat.le_add_r]. apply separated_count.
    eapply Forall_impl; [exact Hv|]. by intros v [(c & t & -> & _) _].
Qed.

Lemma write_array_text : value_text (write_array vs).
Proof.
  split; [by exists "["%byte, (separated vs ++ ["]"%byte])|].
  intros [|f] rest Hf _; [lia|]. unfold write_array in *.
  rewrite length_cons, length_app, length_cons in Hf.
  cbn [app scan]. rewrite !bool_decide_false, bool_decide_true by done.
  rewrite <- app_assoc. cbn [app].
  rewrite (elements_items _ f); [done|apply reads_scan|lia].
Qed.

Lemma array_of_write : array_of (write_array vs) = Some vs.
Proof.
  unfold array_of, is_null. rewrite bool_decide_false by discriminate.
  unfold write_array. rewrite bool_decide_true by done.
  by rewrite (elements_items _ _ [] (reads_scan_value (S (length (separated vs))))) by lia.
Qed.
End Arrays.

(** An input that is one value. *)
Lemma first_value_text v : value_text v -> first_value v = Some v.
Proof.
  intros H. unfold first_value.
  pose proof (element_value _ _ v [] (reads_scan_value (S (length v))) H ltac:(lia) I) as E.
  rewrite app_nil_r in E. by rewrite E.
Qed.

Lemma only_value_text v : value_text v -> only_value v = Some v.
Proof.
  intros H. unfold only_value.
  pose proof (element_value _ _ v [] (reads_scan_value (S (length v))) H ltac:(lia) I) as E.
  rewrite app_nil_r in E. by rewrite E.
Qed.

(** The version number the bundles carry. *)
Lemma one_text : value_text (itoa 1).
Proof.
  split; [by exists "1"%byte, []|].
  intros [|f] rest Hf He; [lia|]. cbn [scan itoa str app]. cbn.
  destruct rest as [|c rest]; [done|].
  simpl in He. repeat (apply elem_of_cons in He as [->|He]; [reflexivity|]). by apply elem_of_nil in He.
Qed.

Lemma b64_plain l : forallb plain (b64_encode l) = true.
Proof.
  pose proof (b64_encode_safe l) as H. rewrite forallb_forall in *. intros c Hc%H.
  destruct c; try reflexivity; discriminate Hc.
Qed.
