(* ===== verification/Addr.v ===== *)
(** * Addr: the names and addresses a certificate may carry

    Models [ValidName], [ValidAddr] and what they call in [src/pki/cert.go].
    [net.SplitHostPort] and the IP literals of package netip are the standard
    library's; they are written out here as the source uses them. *)

From Stdlib Require Import Strings.Byte Strings.String.
From S2P Require Import Prelude Crypto Text.

(** ** net.SplitHostPort *)

(** [strings.IndexByte] and [strings.LastIndexByte] *)
Fixpoint index_byte (c : byte) (l : bytes) : option nat :=
  match l with
  | [] => None
  | b :: t => if bool_decide (b = c) then Some O else option_map S (index_byte c t)
  end.

Fixpoint last_index_byte (c : byte) (l : bytes) : option nat :=
  match l with
  | [] => None
  | b :: t => match last_index_byte c t with
              | Some i => Some (S i)
              | None => if bool_decide (b = c) then Some O else None
              end
  end.

Definition SplitHostPort (hostport : bytes) : option (bytes * bytes) :=
  match last_index_byte ":" hostport with
  | None => None
  | Some i =>
      let port := drop (i + 1) hostport in
      if bool_decide (head hostport = Some "["%byte) then
        match index_byte "]" hostport with
        | None => None
        | Some e =>
            if negb (e + 1 =? i)%nat then None
            else if bool_decide ("["%byte ∈ drop 1 hostport) || bool_decide ("]"%byte ∈ drop (e + 1) hostport)
            then None
            else Some (slice 1 e hostport, port)
        end
      else
        let host := take i hostport in
        if bool_decide (":"%byte ∈ host) || bool_decide ("["%byte ∈ hostport)
           || bool_decide ("]"%byte ∈ hostport) then None
        else Some (host, port)
  end.

(** ** netip.Addr *)

Inductive IP : Type :=
| IP4 (fields : list Z)                    (* four bytes *)
| IP6 (groups : list Z) (zone : bytes).    (* eight 16-bit groups *)

#[export] Instance IP_eq_decision : EqDecision IP.
Proof. solve_decision. Defined.

Definition Zone (ip : IP) : bytes := match ip with IP4 _ => [] | IP6 _ z => z end.

(** [parseIPv4Fields] *)
Fixpoint v4_fields (val : Z) (digLen : nat) (got : list Z) (l : bytes) : option (list Z) :=
  match l with
  | [] => if (length got =? 3)%nat then Some (got ++ [val]) else None
  | c :: t =>
      if is_digit c then
        let v := val * 10 + (Z_of_byte c - 48) in
        if ((digLen =? 1)%nat && (val =? 0)) || (255 <? v) then None
        else v4_fields v (S digLen) got t
      else if bool_decide (c = "."%byte) then
        if (digLen =? 0)%nat || bool_decide (t = []) || (length got =? 3)%nat then None
        else v4_fields 0 0 (got ++ [val]) t
      else None
  end.

(** A group: its value, the number of its digits (at most four) and the rest. *)
Fixpoint hex_run (off : nat) (acc : Z) (l : bytes) : option (Z * nat * bytes) :=
  match l with
  | c :: t =>
      match hex_value c with
      | Some d => if (3 <? off)%nat then None else hex_run (S off) (acc * 16 + d) t
      | None => Some (acc, off, l)
      end
  | [] => Some (acc, off, [])
  end.

(** The loop of [parseIPv6], [n] groups from full; [ell] is where the ellipsis is. *)
Fixpoint v6_groups (n : nat) (gs : list Z) (ell : option nat) (s : bytes) : option (list Z * option nat) :=
  match n with
  | O => match s with [] => Some (gs, ell) | _ => None end
  | S m =>
      match hex_run 0 0 s with
      | None => None
      | Some (acc, off, r) =>
          if (off =? 0)%nat then None
          else
            match r with
            | [] => Some (gs ++ [acc], ell)
            | c :: t =>
                if bool_decide (c = "."%byte) then
                  if bool_decide (ell = None) && negb (length gs =? 6)%nat || (8 <? length gs + 2)%nat
                  then None
                  else match v4_fields 0 0 [] s with
                       | Some [a; b; c; d] => Some (gs ++ [a * 256 + b; c * 256 + d], ell)
                       | _ => None
                       end
                else if negb (bool_decide (c = ":"%byte)) || bool_decide (t = []) then None
                else if bool_decide (head t = Some ":"%byte) then
                  match ell with
                  | Some _ => None
                  | None =>
                      let gs' := gs ++ [acc] in
                      if bool_decide (tail t = []) then Some (gs', Some (length gs'))
                      else v6_groups m gs' (Some (length gs')) (tail t)
                  end
                else v6_groups m (gs ++ [acc]) ell t
            end
      end
  end.

(** The zero groups an ellipsis stands for. *)
Definition expand_ellipsis (gs : list Z) (ell : option nat) : option (list Z) :=
  if (length gs <? 8)%nat then
    match ell with
    | None => None
    | Some e => Some (take e gs ++ replicate (8 - length gs) 0 ++ drop e gs)
    end
  else match ell with Some _ => None | None => Some gs end.

Definition parseIPv6 (s : bytes) : option IP :=
  let cut := match index_byte "%" s with
             | None => Some (s, [])
             | Some i => if bool_decide (drop (i + 1) s = []) then None else Some (take i s, drop (i + 1) s)
             end in
  match cut with
  | None => None
  | Some (s, zone) =>
      let parsed :=
        if bool_decide (take 2 s = [":"; ":"]%byte) then
          if bool_decide (drop 2 s = []) then Some ([], Some O) else v6_groups 8 [] (Some O) (drop 2 s)
        else v6_groups 8 [] None s in
      match parsed with
      | None => None
      | Some (gs, ell) => match expand_ellipsis gs ell with
                          | Some g => Some (IP6 g zone)
                          | None => None
                          end
      end
  end.

Fixpoint ParseAddr_at (l s : bytes) : option IP :=
  match l with
  | [] => None
  | c :: t =>
      if bool_decide (c = "."%byte) then option_map IP4 (v4_fields 0 0 [] s)
      else if bool_decide (c = ":"%byte) then parseIPv6 s
      else if bool_decide (c = "%"%byte) then None
      else ParseAddr_at t s
  end.

Definition ParseAddr (s : bytes) : option IP := ParseAddr_at s s.

(** A number without its leading zeros. *)
Fixpoint trim_zeros (l : bytes) : bytes :=
  match l with
  | [c] => [c]
  | c :: t => if bool_decide (c = "0"%byte) then trim_zeros t else l
  | [] => []
  end.

Definition dec8 (v : Z) : bytes :=
  trim_zeros [hex_digit (v / 100 mod 10); hex_digit (v / 10 mod 10); hex_digit (v mod 10)].

Definition hex16 (v : Z) : bytes :=
  trim_zeros [hex_digit (v / 4096 mod 16); hex_digit (v / 256 mod 16); hex_digit (v / 16 mod 16);
              hex_digit (v mod 16)].

Fixpoint joined (sep : byte) (l : list bytes) : bytes :=
  match l with
  | [] => []
  | [x] => x
  | x :: t => x ++ sep :: joined sep t
  end.

Fixpoint zeros_at (gs : list Z) : nat :=
  match gs with
  | g :: t => if g =? 0 then S (zeros_at t) else O
  | [] => O
  end.

(** The first of the longest runs of at least two zero groups: where, how long. *)
Definition zero_run (gs : list Z) : nat * nat :=
  foldl (fun best i => let l := zeros_at (drop i gs) in
                       if (2 <=? l)%nat && (snd best <? l)%nat then (i, l) else best)
    (O, O) (seq 0 8).

Definition string4 (fields : list Z) : bytes := joined "." (map dec8 fields).

Definition string6 (gs : list Z) : bytes :=
  let '(i, l) := zero_run gs in
  if (l =? 0)%nat then joined ":" (map hex16 gs)
  else joined ":" (map hex16 (take i gs)) ++ [":"; ":"]%byte ++ joined ":" (map hex16 (drop (i + l) gs)).

(** [Addr.String] *)
Definition IP_String (ip : IP) : bytes :=
  match ip with
  | IP4 f => string4 f
  | IP6 gs zone =>
      (match gs with
       | [0; 0; 0; 0; 0; 65535; x; y] => str "::ffff:" ++ string4 [x / 256; x mod 256; y / 256; y mod 256]
       | _ => string6 gs
       end) ++ (match zone with [] => [] | _ => "%"%byte :: zone end)
  end.

(** ** cert.go *)

Definition maxName : nat := 32.
Definition AddrSize : nat := 64.

Definition name_char (c : byte) : bool := is_lower c || is_digit c || bool_decide (c = "-"%byte).

Definition ValidName (s : bytes) : bool :=
  if (length s =? 0)%nat || (maxName <? length s)%nat then false
  else forallb name_char s.

Definition numeric (l : bytes) : bool :=
  if bool_decide (str "0x" `prefix_of` l) then true else forallb is_digit l.

Definition validLabel (l : bytes) : bool :=
  if bool_decide (l = []) || bool_decide (head l = Some "-"%byte) || bool_decide (last l = Some "-"%byte)
  then false
  else forallb name_char l.

(** [strings.Split(h, ".")] *)
Fixpoint split_dots (l : bytes) : list bytes :=
  match l with
  | [] => [[]]
  | c :: t =>
      if bool_decide (c = "."%byte) then [] :: split_dots t
      else match split_dots t with
           | x :: r => (c :: x) :: r
           | [] => [[c]]
           end
  end.

Definition validHost (h : bytes) : bool :=
  match ParseAddr h with
  | Some ip => bool_decide (Zone ip = []) && bool_decide (IP_String ip = h)
  | None =>
      let labels := split_dots h in
      forallb validLabel labels && negb (numeric (default [] (last labels)))
  end.

Definition validPort (s : bytes) : bool :=
  if (length s =? 0)%nat || (5 <? length s)%nat || bool_decide (head s = Some "0"%byte) then false
  else match digits 0 s with
       | Some n => n <=? 65535
       | None => false
       end.

Definition printable (c : byte) : bool := (0x21 <=? Z_of_byte c) && (Z_of_byte c <=? 0x7e).

Definition ValidAddr (s : bytes) : bool :=
  if (length s =? 0)%nat || (AddrSize <? length s)%nat then false
  else if negb (forallb printable s) then false
  else match SplitHostPort s with
       | Some (host, port) => validHost host && validPort port
       | None => false
       end.

Definition ValidHost (h : bytes) : bool := validHost h.
Definition ValidPort (p : bytes) : bool := validPort p.

(** ** Evaluation *)

Example addrs_taken : map (fun s => ValidAddr (str s))
  ["127.0.0.1:19201"; "[::1]:9000"; "relay-1.jimichi.svc:9000"; "relay-1:65535"; "[::ffff:1.2.3.4]:9000";
   "[2001:db8::1:0:0:1]:9000"]%string = replicate 6 true.
Proof. vm_compute. reflexivity. Qed.

Example addrs_refused : map (fun s => ValidAddr (str s))
  ["relay-1"; ":9000"; "relay-1:"; "a:b:9000"; "RELAY-1:9000"; "relay-1.:9000"; "[0:0:0:0:0:0:0:1]:9000";
   "[::1%eth0]:9000"; "user@relay-1:9000"; "0x7f.1:9000"; "127.1:9000"; "relay.0x1:9000"; "relay-1:09000";
   "relay-1:65536"; "relay-1:+9000"; "127.0.0.01:9000"; "[2001:DB8::1]:9000"; "[1::2::3]:9000"]%string
  = replicate 18 false.
Proof. vm_compute. reflexivity. Qed.

(** ** The shape of an address *)

Definition bracketed (a : bytes) : bool := bool_decide (head a = Some "["%byte).

Definition address (brackets : bool) (host port : bytes) : bytes :=
  if brackets then "["%byte :: host ++ "]"%byte :: ":"%byte :: port else host ++ ":"%byte :: port.

Lemma index_byte_some c l i : index_byte c l = Some i -> l = take i l ++ c :: drop (i + 1) l.
Proof.
  revert i. induction l as [|b l IH]; intros i; simpl; [discriminate|]. case_bool_decide as H.
  - intros [= <-]. by subst.
  - destruct (index_byte c l) as [j|]; [|discriminate]. intros [= <-]. simpl. f_equal. by apply IH.
Qed.

Lemma last_index_byte_none c l : last_index_byte c l = None -> c ∉ l.
Proof.
  induction l as [|b l IH]; simpl; [set_solver|].
  destruct (last_index_byte c l); [discriminate|]. case_bool_decide; [discriminate|]. set_solver.
Qed.

Lemma last_index_byte_some c l i :
  last_index_byte c l = Some i -> l = take i l ++ c :: drop (i + 1) l /\ (c ∉ drop (i + 1) l).
Proof.
  revert i. induction l as [|b l IH]; intros i; simpl; [discriminate|].
  destruct (last_index_byte c l) as [j|] eqn:E.
  - intros [= <-]. simpl. destruct (IH j eq_refl) as [H ?]. split; [by f_equal | done].
  - case_bool_decide as H; [|discriminate]. intros [= <-]. simpl. rewrite drop_0. subst.
    split; [done | by apply last_index_byte_none].
Qed.

(** What [SplitHostPort] returns and where it stands in the address. *)
Lemma split_host_port a h p :
  SplitHostPort a = Some (h, p) -> a = address (bracketed a) h p /\ (bracketed a = false -> ":"%byte ∉ h).
Proof.
  unfold SplitHostPort, bracketed. destruct (last_index_byte ":" a) as [i|] eqn:Ei; [|discriminate].
  apply last_index_byte_some in Ei as [Ha _]. case_bool_decide as Hb.
  - destruct (index_byte "]" a) as [e|] eqn:Ee; [|discriminate].
    destruct (Nat.eqb_spec (e + 1) i) as [Hi|]; [|discriminate]. cbn [negb].
    destruct (_ || _); [discriminate|]. intros [= <- <-]. split; [|discriminate].
    apply index_byte_some in Ee. unfold address, slice.
    destruct a as [|c a]; [done|]. cbn [head] in Hb. injection Hb as ->.
    destruct e as [|e]; [discriminate Ee|]. cbn [drop Nat.sub]. rewrite Nat.sub_0_r, drop_0.
    cbn [take app Nat.add drop] in Ee. injection Ee as Ee. rewrite Ee at 1. f_equal. f_equal. f_equal.
    clear Ee. subst i. cbn [Nat.add take drop app] in Ha. injection Ha as Ha.
    assert (Hl : length (take (e + 1) a) = (e + 1)%nat).
    { rewrite length_take. destruct (Nat.le_gt_cases (e + 1) (length a)); [lia|].
      apply (f_equal length) in Ha. rewrite length_app, length_take, length_cons, length_drop in Ha. lia. }
    rewrite Ha at 1. rewrite drop_app_length' by done. done.
  - destruct (_ || _) eqn:E; [discriminate|]. intros [= <- <-].
    apply orb_false_iff in E as [[E%bool_decide_eq_false _]%orb_false_iff _]. done.
Qed.

(** *** Ports *)

Definition digits_value (l : bytes) : Z := default 0 (digits 0 l).

Lemma is_digit_range c : is_digit c = true -> 0 <= Z_of_byte c - 48 <= 9.
Proof. unfold is_digit, in_range. intros [H1%Z.leb_le H2%Z.leb_le]%andb_true_iff. cbn in *. lia. Qed.

Lemma digits_bound l acc v : 0 <= acc -> digits acc l = Some v ->
  acc * 10 ^ Z.of_nat (length l) <= v < (acc + 1) * 10 ^ Z.of_nat (length l).
Proof.
  induction l as [|c l IH] in acc |- *; cbn [digits length]; intros Ha.
  - intros [= <-]. lia.
  - destruct (is_digit c) eqn:Hc; [|discriminate]. apply is_digit_range in Hc. intros H.
    apply IH in H; [|lia]. rewrite Nat2Z.inj_succ, Z.pow_succ_r by lia.
    pose proof (Z.pow_pos_nonneg 10 (Z.of_nat (length l))). nia.
Qed.

Lemma digits_inj l m a b v : length l = length m -> 0 <= a -> 0 <= b ->
  digits a l = Some v -> digits b m = Some v -> a = b /\ l = m.
Proof.
  revert m a b. induction l as [|c l IH]; intros [|d m] a b Hl Ha Hb; try discriminate.
  - simpl. intros [= ->] [= ->]. done.
  - injection Hl as Hl. cbn [digits].
    destruct (is_digit c) eqn:Hc; [|discriminate]. destruct (is_digit d) eqn:Hd; [|discriminate].
    apply is_digit_range in Hc. apply is_digit_range in Hd. intros H1 H2.
    edestruct IH as [E ->]; [exact Hl| | |exact H1|exact H2|]; [lia|lia|].
    assert (a = b) as -> by lia. split; [done|]. f_equal. apply Z_of_byte_inj. lia.
Qed.

(** A port is in range, and its digits are the only ones of its number. *)
Lemma valid_port_range p : validPort p = true ->
  exists n, digits 0 p = Some n /\ 1 <= n <= 65535 /\
            10 ^ (Z.of_nat (length p) - 1) <= n < 10 ^ Z.of_nat (length p).
Proof.
  unfold validPort. destruct (_ || _) eqn:E; [discriminate|].
  apply orb_false_iff in E as [[E1%Nat.eqb_neq E2%Nat.ltb_ge]%orb_false_iff E3%bool_decide_eq_false].
  destruct (digits 0 p) as [n|] eqn:Hn; [|discriminate]. intros H%Z.leb_le. exists n. split; [done|].
  destruct p as [|c p]; [done|]. cbn [digits] in Hn.
  pose proof (digits_bound (c :: p) 0 n ltac:(lia) Hn) as Hup.
  destruct (is_digit c) eqn:Hc; [|discriminate]. apply is_digit_range in Hc.
  apply digits_bound in Hn; [|lia].
  assert (Z_of_byte c - 48 <> 0).
  { intros Hz. apply E3. cbn [head]. f_equal. apply Z_of_byte_inj. cbn. lia. }
  pose proof (Z.pow_pos_nonneg 10 (Z.of_nat (length p))).
  cbn [length] in *. rewrite Nat2Z.inj_succ in *. replace (Z.succ (Z.of_nat (length p)) - 1) with (Z.of_nat (length p)) by lia.
  nia.
Qed.

Lemma valid_port_inj p q : validPort p = true -> validPort q = true -> digits 0 p = digits 0 q -> p = q.
Proof.
  intros (n & Hn & Hr & Hl)%valid_port_range (m & Hm & _ & Hl')%valid_port_range H.
  rewrite H in Hn. assert (m = n) as -> by congruence. clear Hm.
  assert (length p = length q).
  { destruct (lt_eq_lt_dec (length p) (length q)) as [[Hlt|]|Hlt]; [|done|].
    - pose proof (Z.pow_le_mono_r 10 (Z.of_nat (length p)) (Z.of_nat (length q) - 1)). lia.
    - pose proof (Z.pow_le_mono_r 10 (Z.of_nat (length q)) (Z.of_nat (length p) - 1)). lia. }
  eapply (digits_inj p q 0 0); [done|lia|lia| |exact Hn]. by rewrite H.
Qed.

(** ** What an address names *)

(** The machine: an IP address, or a name that is none. *)
Definition host_of (h : bytes) : IP + bytes :=
  match ParseAddr h with Some ip => inl ip | None => inr h end.

Definition endpoint (a : bytes) : option ((IP + bytes) * option Z) :=
  match SplitHostPort a with Some (h, p) => Some (host_of h, digits 0 p) | None => None end.

Lemma host_of_inj h k : validHost h = true -> validHost k = true -> host_of h = host_of k -> h = k.
Proof.
  unfold validHost, host_of. destruct (ParseAddr h) as [i|], (ParseAddr k) as [j|]; try discriminate.
  - intros [_ <-%bool_decide_eq_true]%andb_true_iff [_ <-%bool_decide_eq_true]%andb_true_iff. by intros [= ->].
  - by intros _ _ [= ->].
Qed.

Lemma valid_addr_split a : ValidAddr a = true ->
  exists h p, SplitHostPort a = Some (h, p) /\ validHost h = true /\ validPort p = true /\
    (0 < length a <= AddrSize)%nat /\ forallb printable a = true.
Proof.
  unfold ValidAddr. destruct (_ || _) eqn:E; [discriminate|].
  apply orb_false_iff in E as [E1%Nat.eqb_neq E2%Nat.ltb_ge].
  destruct (forallb printable a); [|discriminate]. cbn [negb].
  destruct (SplitHostPort a) as [[h p]|]; [|discriminate]. intros [? ?]%andb_true_iff.
  exists h, p. repeat split; auto. lia.
Qed.

(** One spelling per machine and port: two valid addresses that name the same
    host (as an IP address, or as a name) and the same port number are the same
    string, as long as both or neither put the host in brackets. *)
Theorem addr_one_spelling a b :
  ValidAddr a = true -> ValidAddr b = true -> endpoint a = endpoint b -> bracketed a = bracketed b -> a = b.
Proof.
  intros (h & p & Hs & Hh & Hp & _)%valid_addr_split (k & q & Ht & Hk & Hq & _)%valid_addr_split He Hb.
  unfold endpoint in He. rewrite Hs, Ht in He. injection He as Hhost Hport.
  apply split_host_port in Hs as [-> _]. apply split_host_port in Ht as [-> _].
  apply host_of_inj in Hhost as ->; [|done|done]. apply valid_port_inj in Hport as ->; [|done|done].
  by rewrite Hb.
Qed.

Lemma addr_one_spelling_witness :
  ValidAddr (str "[::1]:9000") = true /\
  forall b, ValidAddr b = true -> bracketed b = true -> endpoint b = endpoint (str "[::1]:9000") ->
            b = str "[::1]:9000".
Proof.
  split; [by vm_compute|]. intros b Hb Hbr He.
  apply (addr_one_spelling b (str "[::1]:9000")); [done | by vm_compute | done | done].
Defined.

Lemma last_index_byte_app c l m : c ∉ m -> last_index_byte c (l ++ c :: m) = Some (length l).
Proof.
  intros Hm. induction l as [|b l IH]; cbn [app last_index_byte length].
  - destruct (last_index_byte c m) as [j|] eqn:E.
    + apply last_index_byte_some in E as [E _]. exfalso. apply Hm. rewrite E. set_solver.
    + by rewrite bool_decide_true.
  - by rewrite IH.
Qed.

Lemma index_byte_app c l m : c ∉ l -> index_byte c (l ++ c :: m) = Some (length l).
Proof.
  intros Hl. induction l as [|b l IH]; cbn [app index_byte length].
  - by rewrite bool_decide_true.
  - rewrite bool_decide_false, IH by set_solver. done.
Qed.

Lemma split_bracketed h p :
  ("["%byte ∉ h) -> ("]"%byte ∉ h) -> ("["%byte ∉ p) -> ("]"%byte ∉ p) -> ":"%byte ∉ p ->
  SplitHostPort (address true h p) = Some (h, p).
Proof.
  intros H1 H2 H3 H4 H5. unfold SplitHostPort, address.
  change ("["%byte :: h ++ "]"%byte :: ":"%byte :: p) with (("["%byte :: h) ++ "]"%byte :: ":"%byte :: p).
  rewrite index_byte_app by set_solver.
  replace (("["%byte :: h) ++ "]"%byte :: ":"%byte :: p) with (("["%byte :: h ++ ["]"%byte]) ++ ":"%byte :: p)
    by (cbn [app]; by rewrite <- app_assoc).
  rewrite last_index_byte_app by done. rewrite bool_decide_true by done.
  set (pre := "["%byte :: h ++ ["]"%byte]).
  assert (Hl : length pre = (length ("["%byte :: h) + 1)%nat) by (unfold pre; simpl; by rewrite length_app).
  rewrite Hl, Nat.eqb_refl, <- Hl. cbn [negb].
  rewrite drop_app_length, (app_assoc pre [":"%byte] p : pre ++ ":"%byte :: p = _).
  rewrite (drop_app_length' _ p (length pre + 1)) by (by rewrite length_app).
  rewrite <- (app_assoc pre [":"%byte] p).
  unfold pre, slice. cbn [app drop]. rewrite drop_0, !bool_decide_false by set_solver. cbn [orb].
  replace (length ("["%byte :: h) - 1)%nat with (length h) by (simpl; lia).
  by rewrite <- app_assoc, take_app_length.
Qed.

(** Brackets give one machine a second spelling: wherever a host stands
    without brackets in a valid address, the same host in brackets makes another
    valid address of the same machine and port, if there is room for them. *)
Theorem brackets_second_spelling a h p :
  ValidAddr a = true -> SplitHostPort a = Some (h, p) -> bracketed a = false ->
  (length a + 2 <= AddrSize)%nat ->
  ValidAddr (address true h p) = true /\ address true h p <> a /\
  endpoint (address true h p) = endpoint a.
Proof.
  intros (h' & p' & Hs & Hh & Hp & _ & Hpr)%valid_addr_split Hs' Hb Hl.
  rewrite Hs in Hs'. injection Hs' as -> ->.
  assert (Hsp : SplitHostPort (address true h p) = Some (h, p)).
  { unfold SplitHostPort in Hs. destruct (last_index_byte ":" a) as [i|] eqn:Ei; [|discriminate].
    apply last_index_byte_some in Ei as [Ha Hni].
    rewrite (bool_decide_false (head a = _)) in Hs by (by apply bool_decide_eq_false in Hb).
    destruct (_ || _) eqn:E; [discriminate|]. injection Hs as <- <-.
    apply orb_false_iff in E as [[_ E1%bool_decide_eq_false]%orb_false_iff E2%bool_decide_eq_false].
    assert (forall c, c ∉ a -> (c ∉ take i a) /\ c ∉ drop (i + 1) a) as Hin.
    { intros c Hc. rewrite Ha in Hc. set_solver. }
    destruct (Hin _ E1), (Hin _ E2). by apply split_bracketed. }
  apply split_host_port in Hs as Ha. rewrite Hb in Ha. destruct Ha as [Ha _]. cbn [address] in Ha.
  split; [|split].
  - unfold ValidAddr. rewrite Hsp, Hh, Hp. rewrite Ha in Hl, Hpr. unfold AddrSize in *.
    assert (length (address true h p) = length a + 2)%nat as ->.
    { rewrite Ha. unfold address. cbn [length]. rewrite !length_app. cbn [length]. lia. }
    rewrite Ha, length_app, length_cons in *.
    rewrite (proj2 (Nat.eqb_neq _ _)) by lia. rewrite (proj2 (Nat.ltb_ge _ _)) by lia.
    rewrite forallb_app in Hpr. cbn [address forallb].
    apply andb_true_iff in Hpr as [Hp1 Hp2]. cbn [forallb] in Hp2.
    rewrite forallb_app. cbn [forallb]. apply andb_true_iff in Hp2 as [_ Hp2]. by rewrite Hp1, Hp2.
  - intros <-. discriminate Hb.
  - unfold endpoint. by rewrite Hsp, Hs.
Qed.

Lemma brackets_second_spelling_witness :
  ValidAddr (str "relay-1:9000") = true /\
  ValidAddr (str "[relay-1]:9000") = true /\ str "[relay-1]:9000" <> str "relay-1:9000" /\
  endpoint (str "[relay-1]:9000") = endpoint (str "relay-1:9000").
Proof.
  split; [by vm_compute|].
  apply (brackets_second_spelling (str "relay-1:9000") (str "relay-1") (str "9000"));
    [by vm_compute | by vm_compute | by vm_compute | vm_compute; lia].
Defined.

(** ** The characters of an address *)

Definition addr_char (c : byte) : bool :=
  name_char c || bool_decide (c ∈ ["."; ":"; "["; "]"]%byte).

Lemma hex_digit_safe v : 0 <= v < 16 -> addr_char (hex_digit v) = true.
Proof.
  intros H. pose proof (six_bits (fun v => (16 <=? v) || addr_char (hex_digit v)) eq_refl v ltac:(lia)) as E.
  apply orb_true_iff in E as [?%Z.leb_le|]; [lia | done].
Qed.

Lemma trim_zeros_safe l : forallb addr_char l = true -> forallb addr_char (trim_zeros l) = true.
Proof.
  induction l as [|c [|d l] IH]; intros H; [done|done|].
  cbn [trim_zeros]. case_bool_decide; [|done]. apply IH. by apply andb_true_iff in H as [_ H].
Qed.

Lemma joined_safe sep l : addr_char sep = true ->
  Forall (fun x => forallb addr_char x = true) l -> forallb addr_char (joined sep l) = true.
Proof.
  intros Hs. induction l as [|x [|y l] IH]; intros H; [done|by apply Forall_cons in H as [? _]|].
  apply Forall_cons in H as [Hx H]. specialize (IH H).
  change (joined sep (x :: y :: l)) with (x ++ sep :: joined sep (y :: l)).
  rewrite forallb_app, Hx. cbn [forallb andb]. by rewrite Hs, IH.
Qed.

Lemma mapped_safe (f : Z -> bytes) l : (forall v, forallb addr_char (f v) = true) ->
  Forall (fun x => forallb addr_char x = true) (map f l).
Proof. intros H. apply Forall_map, Forall_forall. intros v _. apply H. Qed.

Lemma dec8_safe v : forallb addr_char (dec8 v) = true.
Proof.
  apply trim_zeros_safe. cbn [forallb].
  rewrite !hex_digit_safe by (Z.to_euclidean_division_equations; lia). done.
Qed.

Lemma hex16_safe v : forallb addr_char (hex16 v) = true.
Proof.
  apply trim_zeros_safe. cbn [forallb].
  rewrite !hex_digit_safe by (Z.to_euclidean_division_equations; lia). done.
Qed.

Lemma string4_safe f : forallb addr_char (string4 f) = true.
Proof. apply joined_safe; [done|]. apply mapped_safe, dec8_safe. Qed.

Lemma string6_safe gs : forallb addr_char (string6 gs) = true.
Proof.
  unfold string6. destruct (zero_run gs) as [i l].
  pose proof (fun l => joined_safe ":" (map hex16 l) eq_refl (mapped_safe _ l hex16_safe)).
  destruct (l =? 0)%nat; [done|]. rewrite !forallb_app, !H. done.
Qed.

Lemma IP_String_safe ip : Zone ip = [] -> forallb addr_char (IP_String ip) = true.
Proof.
  destruct ip as [f|gs z]; cbn [Zone IP_String]; [intros _; apply string4_safe|]. intros ->.
  rewrite app_nil_r. repeat case_match; subst; try apply string6_safe.
  rewrite forallb_app, string4_safe. done.
Qed.

Lemma split_dots_safe h :
  Forall (fun l => forallb name_char l = true) (split_dots h) -> forallb addr_char h = true.
Proof.
  induction h as [|c h IH]; [done|]. cbn [split_dots forallb]. case_bool_decide as Hc.
  - intros [_ H]%Forall_cons. subst c. by rewrite IH.
  - destruct (split_dots h) as [|x r] eqn:E; intros [H1 H2]%Forall_cons.
    + destruct h; [|simpl in E; repeat case_match; discriminate].
      unfold addr_char. simpl in *. by apply andb_true_iff in H1 as [-> _].
    + cbn [forallb] in H1. apply andb_true_iff in H1 as [Hx H1]. rewrite IH by by constructor.
      unfold addr_char. by rewrite Hx.
Qed.

Lemma validHost_safe h : validHost h = true -> forallb addr_char h = true.
Proof.
  unfold validHost. destruct (ParseAddr h) as [ip|].
  - intros [Hz%bool_decide_eq_true <-%bool_decide_eq_true]%andb_true_iff. by apply IP_String_safe.
  - intros [H _]%andb_true_iff. apply split_dots_safe, Forall_forall. intros l Hl%list_elem_of_In.
    rewrite forallb_forall in H. specialize (H _ Hl). unfold validLabel in H. by destruct (_ || _).
Qed.

Lemma digits_safe acc l v : digits acc l = Some v -> forallb addr_char l = true.
Proof.
  induction l as [|c l IH] in acc |- *; [done|]. cbn [digits forallb].
  destruct (is_digit c) eqn:E; [|discriminate]. intros H%IH. rewrite H.
  unfold addr_char, name_char. rewrite E. by destruct (is_lower c).
Qed.

(** A valid address has nothing in it but the characters of names, IP literals
    and their separators. *)
Lemma valid_addr_safe a : ValidAddr a = true -> forallb addr_char a = true.
Proof.
  intros (h & p & Hs & Hh%validHost_safe & (n & Hn%digits_safe & _)%valid_port_range & _)%valid_addr_split.
  apply split_host_port in Hs as [-> _]. unfold address. destruct (bracketed a).
  - cbn [forallb]. rewrite forallb_app, Hh. cbn [forallb]. by rewrite Hn.
  - rewrite forallb_app, Hh. cbn [forallb]. by rewrite Hn.
Qed.

Lemma addr_char_no_nul l : forallb addr_char l = true -> no_nul l = true.
Proof.
  unfold no_nul. rewrite !forallb_forall. intros H c Hc%H. destruct c; try reflexivity; discriminate Hc.
Qed.
