(* ===== verification/Fields.v ===== *)
(** * Fields: the functions of package strings that cut text apart

    [strings.TrimSpace], [Split], [Cut] and [Join] with a separator of one byte, as
    the commands and the key memory policy use them.  Nothing here is code of the
    repository. *)

From Stdlib Require Import Strings.Byte Strings.String.
From S2P Require Import Prelude Addr.

(** ** TrimSpace *)

(** The UTF-8 encodings of the characters [unicode.IsSpace] names. *)
Definition spaces : list bytes :=
  map (fun b => [b]) [x09; x0a; x0b; x0c; x0d; x20] ++
  [[xc2; x85]; [xc2; xa0]; [xe1; x9a; x80]] ++
  map (fun b => [xe2; x80; b]) [x80; x81; x82; x83; x84; x85; x86; x87; x88; x89; x8a; xa8; xa9; xaf] ++
  [[xe2; x81; x9f]; [xe3; x80; x80]].

Definition is_prefix (p l : bytes) : bool := bool_decide (take (length p) l = p).

(** As long as one of [sp] stands in front, it goes. *)
Fixpoint trim_front (fuel : nat) (sp : list bytes) (l : bytes) : bytes :=
  match fuel with
  | O => l
  | S f => match List.find (fun p => is_prefix p l) sp with
           | Some p => trim_front f sp (drop (length p) l)
           | None => l
           end
  end.

Definition trim_left (l : bytes) : bytes := trim_front (length l) spaces l.
Definition trim_right (l : bytes) : bytes := rev (trim_front (length l) (map (@rev byte) spaces) (rev l)).

Definition TrimSpace (l : bytes) : bytes := trim_right (trim_left l).

(** ** Split, Cut and Join *)

(** [strings.Split(s, sep)]: the pieces between the separators, at least one. *)
Fixpoint Split (sep : byte) (l : bytes) : list bytes :=
  match l with
  | [] => [[]]
  | c :: t =>
      if bool_decide (c = sep) then [] :: Split sep t
      else match Split sep t with
           | x :: xs => (c :: x) :: xs
           | [] => [[c]]
           end
  end.

(** [strings.Cut(s, sep)] *)
Fixpoint Cut (sep : byte) (l : bytes) : option (bytes * bytes) :=
  match l with
  | [] => None
  | c :: t => if bool_decide (c = sep) then Some ([], t)
              else option_map (fun '(a, b) => (c :: a, b)) (Cut sep t)
  end.

Lemma Split_cons sep l : exists x xs, Split sep l = x :: xs.
Proof.
  destruct l as [|c t]; cbn; [eauto|]. case_bool_decide; [eauto|]. destruct (Split sep t); eauto.
Qed.

Lemma Split_app sep x l : (sep ∉ x) -> Split sep (x ++ sep :: l) = x :: Split sep l.
Proof.
  induction x as [|c x IH]; cbn; [by rewrite bool_decide_true|]. rewrite not_elem_of_cons. intros [Hc Hx].
  rewrite bool_decide_false by done. by rewrite IH.
Qed.

Lemma Split_whole sep x : (sep ∉ x) -> Split sep x = [x].
Proof.
  induction x as [|c x IH]; cbn; [done|]. rewrite not_elem_of_cons. intros [Hc Hx].
  rewrite bool_decide_false by done. by rewrite IH.
Qed.

(** [Split] takes a [Join] apart. *)
Lemma Split_joined sep l : l <> [] -> Forall (fun x => sep ∉ x) l -> Split sep (joined sep l) = l.
Proof.
  intros Hl H. induction H as [|x l Hx Hf IH]; [done|]. destruct l as [|y l]; cbn.
  - by apply Split_whole.
  - rewrite Split_app by done. f_equal. by apply IH.
Qed.

Lemma joined_Split sep l : joined sep (Split sep l) = l.
Proof.
  induction l as [|c t IH]; cbn; [done|]. destruct (Split_cons sep t) as (x & xs & E). rewrite E in *.
  case_bool_decide as Hc; cbn in *.
  - by rewrite Hc, IH.
  - destruct xs; cbn in *; by rewrite IH.
Qed.

Lemma Split_clean sep l : Forall (fun x => sep ∉ x) (Split sep l).
Proof.
  induction l as [|c t IH]; cbn; [repeat constructor; apply not_elem_of_nil|].
  case_bool_decide as Hc; [constructor; [apply not_elem_of_nil | done]|].
  destruct (Split_cons sep t) as (x & xs & E). rewrite E in *. apply Forall_cons in IH as [Hx Hxs].
  constructor; [|done]. by apply not_elem_of_cons.
Qed.

Lemma Cut_spec sep l a b : Cut sep l = Some (a, b) <-> (sep ∉ a) /\ l = a ++ sep :: b.
Proof.
  revert a. induction l as [|c t IH]; intros a; cbn.
  - split; [done|]. intros [_ H]. by destruct a.
  - case_bool_decide as Hc.
    + split; [intros [= <- <-]; split; [apply not_elem_of_nil | by rewrite Hc]|]. intros [Ha H]. destruct a as [|x a]; [by injection H as -> ->|].
      injection H as <- _. destruct Ha. rewrite Hc. apply list_elem_of_here.
    + destruct (Cut sep t) as [[x y]|] eqn:E; cbn.
      * split.
        -- intros [= <- <-]. destruct (proj1 (IH x) eq_refl) as [Hx ->]. split; [by apply not_elem_of_cons | done].
        -- intros [Ha H]. destruct a as [|z a]; [injection H as -> _; done|]. injection H as -> H. apply not_elem_of_cons in Ha as [_ Ha].
           pose proof (proj2 (IH a) (conj Ha H)) as [= -> ->]. done.
      * split; [done|]. intros [Ha H]. destruct a as [|z a]; [injection H as -> _; done|]. injection H as -> H.
        apply not_elem_of_cons in Ha as [_ Ha]. discriminate (proj2 (IH a) (conj Ha H)).
Qed.
