(* ===== verification/Secmem.v ===== *)
(** * Secmem: key memory, its policy and its locks

    Models [src/crypto/secmem]: [policy.go], [buffer.go], [zero.go],
    [mem_linux.go] and [mem_other.go].  A buffer's handle is its index in the list
    of all buffers made so far, so two handles are one pointer exactly when they
    are equal.  The memory holds slices on the Go heap and mappings of their own;
    what the kernel answers to [mmap], [madvise], [mlock], [prctl] and [setrlimit]
    is a list of answers.  Every method is a program of Locks.v, with the mutex of
    the buffer and the policy's; what a method does between two lock operations on
    memory nobody else can reach is one action.  Left out: [MemlockBudget], which
    only asks the kernel, and the bytes a caller writes through [Bytes]. *)

From Stdlib Require Import Strings.Byte Strings.String.
From S2P Require Import Prelude Effects Crypto Addr Fields Locks.

(** ** The policy *)

Record Policy : Type := { pl_OffHeap : bool; pl_Lock : bool; pl_DontDump : bool; pl_Zero : bool }.

#[export] Instance Policy_eq_decision : EqDecision Policy.
Proof. solve_decision. Defined.

Definition Protected : Policy := {| pl_OffHeap := true; pl_Lock := true; pl_DontDump := true; pl_Zero := true |}.
Definition Baseline : Policy := {| pl_OffHeap := false; pl_Lock := false; pl_DontDump := false; pl_Zero := false |}.

(** [(p.Lock || p.DontDump) && !p.OffHeap] is what both refuse. *)
Definition needs_pages (p : Policy) : bool := (pl_Lock p || pl_DontDump p) && negb (pl_OffHeap p).

Definition with_measure (f : bytes) (p : Policy) : option Policy :=
  if bool_decide (f = str "offheap") then Some {| pl_OffHeap := true; pl_Lock := pl_Lock p; pl_DontDump := pl_DontDump p; pl_Zero := pl_Zero p |}
  else if bool_decide (f = str "lock") then Some {| pl_OffHeap := pl_OffHeap p; pl_Lock := true; pl_DontDump := pl_DontDump p; pl_Zero := pl_Zero p |}
  else if bool_decide (f = str "dontdump") then Some {| pl_OffHeap := pl_OffHeap p; pl_Lock := pl_Lock p; pl_DontDump := true; pl_Zero := pl_Zero p |}
  else if bool_decide (f = str "zero") then Some {| pl_OffHeap := pl_OffHeap p; pl_Lock := pl_Lock p; pl_DontDump := pl_DontDump p; pl_Zero := true |}
  else None.

(** The loop over the comma list. *)
Fixpoint measures (fs : list bytes) (p : Policy) : res Policy :=
  match fs with
  | [] => Ok p
  | f :: fs => match with_measure (TrimSpace f) p with
               | Some p => measures fs p
               | None => Err (Other "secmem: unknown measure")
               end
  end.

Definition ParsePolicy (s : bytes) : res Policy :=
  if bool_decide (TrimSpace s = str "all") then Ok Protected
  else if bool_decide (TrimSpace s = str "none") then Ok Baseline
  else
    let? p := measures (Split "," s) Baseline in
    if needs_pages p then Err (Other "secmem: lock and dontdump need offheap") else Ok p.

Definition Policy_String (p : Policy) : bytes :=
  if bool_decide (p = Protected) then str "all"
  else if bool_decide (p = Baseline) then str "none"
  else joined "," (List.concat
    [if pl_OffHeap p then [str "offheap"] else []; if pl_Lock p then [str "lock"] else [];
     if pl_DontDump p then [str "dontdump"] else []; if pl_Zero p then [str "zero"] else []]).

(** ** Memory *)

(** A slice on the Go heap, or a mapping of pages of its own. *)
Inductive place : Type := Heap (h : nat) | Pages (q : nat).

#[export] Instance place_eq_decision : EqDecision place.
Proof. solve_decision. Defined.

Record page : Type := { pg_data : bytes; pg_locked : bool; pg_nodump : bool }.

(** [b.mem] is a slice header, or nil after the release. *)
Record Buffer : Type := {
  bf_mem : option (place * nat);
  bf_locked : bool;
  bf_released : bool;
  bf_policy : Policy;
  bf_seq : Z
}.

(** [back] is what the pages held that went back to the kernel, each with the
    policy of its buffer. *)
Record Memory : Type := {
  heap : gmap nat bytes;
  pages : gmap nat page;
  next : nat;
  back : list (Policy * page);
  buffers : list Buffer;
  created : Z;
  policy : Policy;
  kernel : list bool;
  dumpable : bool;
  cores : bool
}.

Definition set_heap (v : gmap nat bytes) (m : Memory) : Memory :=
  {| heap := v; pages := pages m; next := next m; back := back m; buffers := buffers m; created := created m;
     policy := policy m; kernel := kernel m; dumpable := dumpable m; cores := cores m |}.
Definition set_pages (v : gmap nat page) (m : Memory) : Memory :=
  {| heap := heap m; pages := v; next := next m; back := back m; buffers := buffers m; created := created m;
     policy := policy m; kernel := kernel m; dumpable := dumpable m; cores := cores m |}.
Definition set_next (v : nat) (m : Memory) : Memory :=
  {| heap := heap m; pages := pages m; next := v; back := back m; buffers := buffers m; created := created m;
     policy := policy m; kernel := kernel m; dumpable := dumpable m; cores := cores m |}.
Definition set_back (v : list (Policy * page)) (m : Memory) : Memory :=
  {| heap := heap m; pages := pages m; next := next m; back := v; buffers := buffers m; created := created m;
     policy := policy m; kernel := kernel m; dumpable := dumpable m; cores := cores m |}.
Definition set_buffers (v : list Buffer) (m : Memory) : Memory :=
  {| heap := heap m; pages := pages m; next := next m; back := back m; buffers := v; created := created m;
     policy := policy m; kernel := kernel m; dumpable := dumpable m; cores := cores m |}.
Definition set_created (v : Z) (m : Memory) : Memory :=
  {| heap := heap m; pages := pages m; next := next m; back := back m; buffers := buffers m; created := v;
     policy := policy m; kernel := kernel m; dumpable := dumpable m; cores := cores m |}.
Definition set_policy (v : Policy) (m : Memory) : Memory :=
  {| heap := heap m; pages := pages m; next := next m; back := back m; buffers := buffers m; created := created m;
     policy := v; kernel := kernel m; dumpable := dumpable m; cores := cores m |}.
Definition set_kernel (v : list bool) (m : Memory) : Memory :=
  {| heap := heap m; pages := pages m; next := next m; back := back m; buffers := buffers m; created := created m;
     policy := policy m; kernel := v; dumpable := dumpable m; cores := cores m |}.
Definition set_dumpable (v : bool) (m : Memory) : Memory :=
  {| heap := heap m; pages := pages m; next := next m; back := back m; buffers := buffers m; created := created m;
     policy := policy m; kernel := kernel m; dumpable := v; cores := cores m |}.
Definition set_cores (v : bool) (m : Memory) : Memory :=
  {| heap := heap m; pages := pages m; next := next m; back := back m; buffers := buffers m; created := created m;
     policy := policy m; kernel := kernel m; dumpable := dumpable m; cores := v |}.

(** The kernel's answer to the next system call; it refuses when the list is out. *)
Definition ask (m : Memory) : bool * Memory :=
  match kernel m with
  | [] => (false, m)
  | b :: k => (b, set_kernel k m)
  end.

Definition zeros (n : nat) : bytes := replicate n x00.

(** What a slice holds; a mapping that is gone faults. *)
Definition read_place (m : Memory) (pl : place) : option bytes :=
  match pl with
  | Heap h => heap m !! h
  | Pages q => pg_data <$> pages m !! q
  end.

Definition write_place (pl : place) (d : bytes) (m : Memory) : option Memory :=
  match pl with
  | Heap h => match heap m !! h with Some _ => Some (set_heap (<[h := d]> (heap m)) m) | None => None end
  | Pages q =>
      match pages m !! q with
      | Some pg => Some (set_pages (<[q := {| pg_data := d; pg_locked := pg_locked pg; pg_nodump := pg_nodump pg |}]> (pages m)) m)
      | None => None
      end
  end.

(** [zero(b)] *)
Definition zero (pl : place) (m : Memory) : option Memory :=
  match read_place m pl with
  | Some d => write_place pl (zeros (length d)) m
  | None => None
  end.

Definition Munmap (p : Policy) (q : nat) (m : Memory) : Memory :=
  match pages m !! q with
  | Some pg => set_pages (delete q (pages m)) (set_back ((p, pg) :: back m) m)
  | None => m
  end.

Definition set_page (q : nat) (pg : page) (m : Memory) : Memory := set_pages (<[q := pg]> (pages m)) m.

(** ** The locks *)

Inductive lockid : Type := Mu (i : nat) | PolicyMu.

#[export] Instance lockid_eq_decision : EqDecision lockid.
Proof. solve_decision. Defined.

Abbreviation Prg := (Prog Memory lockid).

Section Secmem.
(** Built for linux, or for another system. *)
Context (linux : bool).

Definition alloc_heap (size : nat) (m : Memory) : (place * bool) * Memory :=
  ((Heap (next m), false), set_next (S (next m)) (set_heap (<[next m := zeros size]> (heap m)) m)).

Definition alloc_linux (size : nat) (p : Policy) (m : Memory) : res (place * bool) * Memory :=
  if negb (pl_OffHeap p) then let '(r, m) := alloc_heap size m in (Ok r, m)
  else
    let '(mapped, m) := ask m in
    if negb mapped then (Err (Other "secmem: mmap"), m)
    else
      let q := next m in
      let m := set_next (S q) (set_page q {| pg_data := zeros size; pg_locked := false; pg_nodump := false |} m) in
      let '(advised, m) := if pl_DontDump p then ask m else (true, m) in
      if negb advised then (Err (Other "secmem: madvise"), Munmap p q m)
      else
        let m := set_page q {| pg_data := zeros size; pg_locked := false; pg_nodump := pl_DontDump p |} m in
        if negb (pl_Lock p) then (Ok (Pages q, false), m)
        else
          let '(locked, m) := ask m in
          if negb locked then (Err (Other "secmem: mlock"), Munmap p q m)
          else (Ok (Pages q, true), set_page q {| pg_data := zeros size; pg_locked := true; pg_nodump := pl_DontDump p |} m).

(** Elsewhere there is the Go heap only, and nothing is locked. *)
Definition alloc_other (size : nat) (m : Memory) : res (place * bool) * Memory :=
  let '(r, m) := alloc_heap size m in (Ok r, m).

Definition alloc (size : nat) (p : Policy) (m : Memory) : res (place * bool) * Memory :=
  if linux then alloc_linux size p m else alloc_other size m.

(** [Munlock] and [Munmap]; a heap slice is left to the collector. *)
Definition unmap (pl : place) (locked : bool) (p : Policy) (m : Memory) : Memory :=
  match pl with
  | Heap _ => m
  | Pages q =>
      let m := match pages m !! q with
               | Some pg => if locked then set_page q {| pg_data := pg_data pg; pg_locked := false; pg_nodump := pg_nodump pg |} m else m
               | None => m
               end in
      Munmap p q m
  end.

Definition free (mem : option (place * nat)) (locked : bool) (p : Policy) (m : Memory) : option Memory :=
  match mem with
  | None => Some m
  | Some (pl, _) =>
      match (if pl_Zero p then zero pl m else Some m) with
      | None => None
      | Some m => Some (if linux && pl_OffHeap p then unmap pl locked p m else m)
      end
  end.

Definition HardenProcess (m : Memory) : res unit * Memory :=
  if linux then
    let '(a, m) := ask m in
    if negb a then (Err (Other "secmem: prctl(PR_SET_DUMPABLE)"), m)
    else
      let '(b, m) := ask (set_dumpable false m) in
      if negb b then (Err (Other "secmem: setrlimit(RLIMIT_CORE)"), m) else (Ok tt, set_cores false m)
  else (Err (Other "secmem: process hardening requires linux"), m).

(** ** The methods *)

(** A field of a buffer. *)
Definition field {A} (i : nat) (f : Buffer -> A) (m : Memory) : option (A * Memory) :=
  match buffers m !! i with
  | Some b => Some (f b, m)
  | None => None
  end.

Definition CurrentPolicy : Prg Policy :=
  RLock PolicyMu (Act (fun m => Some (policy m, m)) (fun p => RUnlock PolicyMu (Ret p))).

Definition SetPolicy (p : Policy) : Prg (res unit) :=
  if needs_pages p then Ret (Err (Other "secmem: lock and dontdump work on pages of their own and need offheap"))
  else Lock PolicyMu (Act (fun m => Some (tt, set_policy p m)) (fun _ => Unlock PolicyMu (Ret (Ok tt)))).

(** [alloc] and the new [Buffer] around it, filled with [d] when it comes from a copy. *)
Definition make_buffer (size : nat) (p : Policy) (d : option bytes) (m : Memory) : option (res nat * Memory) :=
  match alloc size p m with
  | (Err e, m) => Some (Err e, m)
  | (Ok (pl, locked), m) =>
      let seq := u64 (created m + 1) in
      let b := {| bf_mem := Some (pl, size); bf_locked := locked; bf_released := false; bf_policy := p; bf_seq := seq |} in
      let m := set_created seq (set_buffers (buffers m ++ [b]) m) in
      match d with
      | None => Some (Ok (length (buffers m) - 1)%nat, m)
      | Some d => match write_place pl (copy_at 0 d (zeros size)) m with
                  | Some m => Some (Ok (length (buffers m) - 1)%nat, m)
                  | None => None
                  end
      end
  end.

Definition errBadSize : error := Other "secmem: bad size".

Definition New (size : Z) : Prg (res nat) :=
  if size <=? 0 then Ret (Err errBadSize)
  else let# p := CurrentPolicy in Act (make_buffer (Z.to_nat size) p None) Ret.

(** [copy(b.mem, src)] and [zero(src)] for a slice on the heap. *)
Definition make_from (h n : nat) (p : Policy) (m : Memory) : option (res nat * Memory) :=
  match heap m !! h with
  | None => None
  | Some d =>
      match make_buffer n p (Some d) m with
      | Some (Ok i, m) => if pl_Zero p then match zero (Heap h) m with Some m => Some (Ok i, m) | None => None end
                          else Some (Ok i, m)
      | r => r
      end
  end.

Definition NewFrom (h : nat) : Prg (res nat) :=
  Act (fun m => match heap m !! h with Some d => Some (length d, m) | None => None end) (fun n =>
  if (n =? 0)%nat then Ret (Err errBadSize)
  else let# p := CurrentPolicy in Act (make_from h n p) Ret).

Definition Bytes (i : nat) : Prg (option (place * nat)) :=
  RLock (Mu i) (Act (field i (fun b => if bf_released b then None else bf_mem b)) (fun r => RUnlock (Mu i) (Ret r))).

Definition mem_len (b : Buffer) : nat := match bf_mem b with Some (_, n) => n | None => O end.

Definition Len (i : nat) : Prg nat :=
  RLock (Mu i) (Act (field i mem_len) (fun n => RUnlock (Mu i) (Ret n))).

Definition Locked (i : nat) : Prg bool :=
  RLock (Mu i) (Act (field i (fun b => bf_locked b && negb (bf_released b))) (fun r => RUnlock (Mu i) (Ret r))).

(** The bytes under a buffer. *)
Definition contents (i : nat) (m : Memory) : option bytes :=
  match buffers m !! i with
  | Some b => match bf_mem b with Some (pl, _) => read_place m pl | None => Some [] end
  | None => None
  end.

Definition clone_into (i n : nat) (p : Policy) (m : Memory) : option (res nat * Memory) :=
  match contents i m with
  | Some d => make_buffer n p (Some d) m
  | None => None
  end.

Definition Clone (i : nat) : Prg (res nat) :=
  RLock (Mu i) (Act (field i bf_released) (fun released =>
  if released then RUnlock (Mu i) (Ret (Err (Sentinel secmem_ErrReleased)))
  else Act (field i mem_len) (fun n =>
    if (n =? 0)%nat then RUnlock (Mu i) (Ret (Err errBadSize))
    else let# p := CurrentPolicy in
         Act (clone_into i n p) (fun r => RUnlock (Mu i) (Ret r))))).

Definition compare (i j : nat) (m : Memory) : option (bool * Memory) :=
  match contents i m, contents j m with
  | Some x, Some y => Some (bool_decide (x = y), m)
  | _, _ => None
  end.

Definition seqs (i j : nat) (m : Memory) : option ((Z * Z) * Memory) :=
  match buffers m !! i, buffers m !! j with
  | Some b, Some o => Some ((bf_seq b, bf_seq o), m)
  | _, _ => None
  end.

Definition either_released (i j : nat) (m : Memory) : option (bool * Memory) :=
  match buffers m !! i, buffers m !! j with
  | Some b, Some o => Some (bf_released b || bf_released o, m)
  | _, _ => None
  end.

Definition Equal (i : nat) (other : option nat) : Prg bool :=
  match other with
  | None => Ret false
  | Some j =>
      if (i =? j)%nat then
        RLock (Mu i) (Act (field i bf_released) (fun r => RUnlock (Mu i) (Ret (negb r))))
      else
        Act (seqs i j) (fun '(si, sj) =>
        let '(first, second) := if sj <? si then (j, i) else (i, j) in
        RLock (Mu first) (RLock (Mu second) (Act (either_released i j) (fun r =>
        if r then RUnlock (Mu second) (RUnlock (Mu first) (Ret false))
        else Act (compare i j) (fun b => RUnlock (Mu second) (RUnlock (Mu first) (Ret b)))))))
  end.

(** [released = true; free(...); mem = nil]. *)
Definition release_now (i : nat) (m : Memory) : option (unit * Memory) :=
  match buffers m !! i with
  | None => None
  | Some b =>
      match free (bf_mem b) (bf_locked b) (bf_policy b) m with
      | None => None
      | Some m => Some (tt, set_buffers (<[i := {| bf_mem := None; bf_locked := bf_locked b; bf_released := true;
                                                   bf_policy := bf_policy b; bf_seq := bf_seq b |}]> (buffers m)) m)
      end
  end.

Definition Release (i : nat) : Prg unit :=
  Lock (Mu i) (Act (field i bf_released) (fun released =>
  if released then Unlock (Mu i) (Ret tt)
  else Act (release_now i) (fun _ => Unlock (Mu i) (Ret tt)))).

(** [Zero]: a heap copy is cleared unless the policy has it off. *)
Definition ZeroSlice (h : nat) : Prg unit :=
  let# p := CurrentPolicy in
  if pl_Zero p then Act (fun m => match zero (Heap h) m with Some m => Some (tt, m) | None => None end) Ret else Ret tt.

End Secmem.

(** ** The policy as text *)

(** What each flag of a list of measures comes from. *)
Definition names (m : string) (fs : list bytes) (f : bool) : bool := f || bool_decide (str m ∈ map TrimSpace fs).

Definition known_measures : list bytes := [str "offheap"; str "lock"; str "dontdump"; str "zero"].

Lemma with_measure_spec f p q : with_measure f p = Some q <->
  f ∈ known_measures /\
  q = {| pl_OffHeap := pl_OffHeap p || bool_decide (str "offheap" = f); pl_Lock := pl_Lock p || bool_decide (str "lock" = f);
         pl_DontDump := pl_DontDump p || bool_decide (str "dontdump" = f); pl_Zero := pl_Zero p || bool_decide (str "zero" = f) |}.
Proof.
  unfold with_measure, known_measures. rewrite !elem_of_cons, elem_of_nil.
  destruct p as [a b c d]; cbn.
  repeat case_bool_decide; subst; try discriminate; rewrite ?orb_true_r, ?orb_false_r;
    (split; [intros [= <-]; (split; [tauto | done]) || done | intros [Hm ->]; first [done | intuition congruence]]).
Qed.

Lemma listed_cons (x f : bytes) (fs : list bytes) : bool_decide (x ∈ f :: fs) = bool_decide (x = f) || bool_decide (x ∈ fs).
Proof. rewrite <- bool_decide_or. apply bool_decide_ext, elem_of_cons. Qed.

Lemma measures_spec fs p q : measures fs p = Ok q <->
  Forall (fun f => TrimSpace f ∈ known_measures) fs /\
  q = {| pl_OffHeap := names "offheap" fs (pl_OffHeap p); pl_Lock := names "lock" fs (pl_Lock p);
         pl_DontDump := names "dontdump" fs (pl_DontDump p); pl_Zero := names "zero" fs (pl_Zero p) |}.
Proof.
  unfold names. induction fs as [|f fs IH] in p |- *; cbn [measures map].
  - rewrite !bool_decide_false by apply not_elem_of_nil. rewrite !orb_false_r. destruct p; cbn.
    split; [intros [= <-]; by split | by intros [_ ->]].
  - rewrite Forall_cons, !listed_cons. destruct (with_measure (TrimSpace f) p) as [p'|] eqn:E.
    + apply with_measure_spec in E as [Hf ->]. rewrite IH; cbn. rewrite !orb_assoc. tauto.
    + split; [done|]. intros [[Hf _] _]. exfalso.
      pose proof (proj2 (with_measure_spec (TrimSpace f) p _) (conj Hf eq_refl)) as H. by rewrite E in H.
Qed.

(** A key memory policy is read as it is written.  A policy that [SetPolicy]
    takes is printed by [String] and read back by [ParsePolicy] as itself, and the
    print of any other is refused.  What [ParsePolicy] reads, [SetPolicy] takes: a
    text other than all and none is a list of the four measures, each flag is on
    exactly if its measure is listed, in whatever order and with spaces around,
    and lock or dontdump never come without offheap. *)
Theorem policy_read : forall p s,
  (ParsePolicy (Policy_String p) = Ok p <-> needs_pages p = false) /\
  (ParsePolicy s = Ok p -> needs_pages p = false) /\
  (TrimSpace s <> str "all" -> TrimSpace s <> str "none" ->
    (ParsePolicy s = Ok p <->
      Forall (fun f => TrimSpace f ∈ known_measures) (Split "," s) /\ needs_pages p = false /\
      p = {| pl_OffHeap := bool_decide (str "offheap" ∈ map TrimSpace (Split "," s));
             pl_Lock := bool_decide (str "lock" ∈ map TrimSpace (Split "," s));
             pl_DontDump := bool_decide (str "dontdump" ∈ map TrimSpace (Split "," s));
             pl_Zero := bool_decide (str "zero" ∈ map TrimSpace (Split "," s)) |})).
Proof.
  intros p s. split_and!.
  - by destruct p as [[] [] [] []]; vm_compute.
  - unfold ParsePolicy. repeat case_bool_decide; [by intros [= <-]..|]. intros Hp. inv_res. by subst.
  - intros Ha Hn. unfold ParsePolicy. rewrite !bool_decide_false by done. split.
    + intros H. inv_res. subst. apply measures_spec in Ha0 as [Hf ->]. by split_and!.
    + intros (Hf & Hp & Heq). rewrite (proj2 (measures_spec (Split "," s) Baseline p) (conj Hf Heq)). cbn. by rewrite Hp.
Qed.

(** ** Well-formed memory *)

Section Order.
Context (linux : bool).

Inductive fact : Type := FBuf (i : nat) | FAlive (i : nat) | FHeap (h : nat).

Definition holds (f : fact) (m : Memory) : Prop :=
  match f with
  | FBuf i => (i < length (buffers m))%nat
  | FAlive i => exists b, buffers m !! i = Some b /\ bf_released b = false
  | FHeap h => is_Some (heap m !! h)
  end.

(** A buffer is released under its own mutex only. *)
Definition guarded (f : fact) : option lockid := match f with FAlive i => Some (Mu i) | _ => None end.

(** The order of the locks: the mutexes of the buffers as they were made, and the
    policy's behind them. *)
Definition rank (l : lockid) : Z := match l with Mu i => u64 (Z.of_nat i + 1) | PolicyMu => 2 ^ 64 end.

(** The counter of creations has not come round. *)
Definition countable (m : Memory) : Prop := Z.of_nat (length (buffers m)) < 2 ^ 64.

(** What a live buffer's slice is. *)
Definition place_ok (m : Memory) (pl : place) (n : nat) (p : Policy) (locked : bool) : Prop :=
  match pl with
  | Heap h => linux && pl_OffHeap p = false /\ locked = false /\ exists d, heap m !! h = Some d /\ length d = n
  | Pages q => linux && pl_OffHeap p = true /\ locked = pl_Lock p /\
      exists pg, pages m !! q = Some pg /\ length (pg_data pg) = n /\ pg_locked pg = pl_Lock p /\ pg_nodump pg = pl_DontDump p
  end.

Definition buffer_ok (m : Memory) (b : Buffer) : Prop :=
  needs_pages (bf_policy b) = false /\
  if bf_released b then bf_mem b = None
  else exists pl n, bf_mem b = Some (pl, n) /\ (0 < n)%nat /\ place_ok m pl n (bf_policy b) (bf_locked b).

Definition owns (m : Memory) (i : nat) (pl : place) : Prop :=
  exists b n, buffers m !! i = Some b /\ bf_mem b = Some (pl, n).

(** What went back to the kernel: unlocked, and zero under a policy that zeroes. *)
Definition back_ok (e : Policy * page) : Prop :=
  pg_locked (snd e) = false /\ (pl_Zero (fst e) = true -> pg_data (snd e) = zeros (length (pg_data (snd e)))).

Record mem_ok (m : Memory) : Prop := {
  mo_count : countable m;
  mo_created : created m = u64 (Z.of_nat (length (buffers m)));
  mo_seq : forall i b, buffers m !! i = Some b -> bf_seq b = u64 (Z.of_nat i + 1);
  mo_policy : needs_pages (policy m) = false;
  mo_buffers : forall i b, buffers m !! i = Some b -> buffer_ok m b;
  mo_apart : forall i j pl, owns m i pl -> owns m j pl -> i = j;
  mo_pages : forall q, is_Some (pages m !! q) -> exists i, owns m i (Pages q);
  mo_back : Forall back_ok (back m);
  mo_next : (forall h, is_Some (heap m !! h) -> (h < next m)%nat) /\ (forall q, is_Some (pages m !! q) -> (q < next m)%nat)
}.

(** *** What the parts of an operation leave alone *)

Record same_rest (m m' : Memory) : Prop := {
  sr_buffers : buffers m' = buffers m;
  sr_created : created m' = created m;
  sr_policy : policy m' = policy m;
  sr_next : (next m <= next m')%nat;
  sr_back : Forall back_ok (back m) -> Forall back_ok (back m')
}.

Lemma same_rest_trans m1 m2 m3 : same_rest m1 m2 -> same_rest m2 m3 -> same_rest m1 m3.
Proof. intros [] []. split; try congruence; [lia | auto]. Qed.

Lemma ask_rest m b m' : ask m = (b, m') -> same_rest m m' /\ heap m' = heap m /\ pages m' = pages m /\ next m' = next m.
Proof. unfold ask. destruct (kernel m); intros [= <- <-]; by split_and!. Qed.

Lemma needs_pages_off p : needs_pages p = false -> pl_OffHeap p = false -> pl_Lock p = false /\ pl_DontDump p = false.
Proof. unfold needs_pages. by destruct p as [[] [] [] []]. Qed.

(** What [alloc] gives: fresh memory of zeros, or nothing. *)
Definition allocated (size : nat) (p : Policy) (m : Memory) (r : res (place * bool)) (m' : Memory) : Prop :=
  same_rest m m' /\
  match r with
  | Err _ => heap m' = heap m /\ pages m' = pages m
  | Ok (pl, locked) =>
      place_ok m' pl size p locked /\ read_place m' pl = Some (zeros size) /\ (next m < next m')%nat /\
      match pl with
      | Heap h => h = next m /\ heap m' = <[h := zeros size]> (heap m) /\ pages m' = pages m
      | Pages q => q = next m /\ heap m' = heap m /\ exists pg, pages m' = <[q := pg]> (pages m)
      end
  end.

Lemma alloc_heap_spec size p m : linux && pl_OffHeap p = false ->
  allocated size p m (Ok (fst (alloc_heap size m))) (snd (alloc_heap size m)).
Proof.
  intros Hl. unfold alloc_heap. cbn. split; [split; cbn; (done || lia)|]. cbn. rewrite lookup_insert_eq.
  split_and!; try done; [|lia]. eexists. split; [reflexivity | apply length_replicate].
Qed.

Lemma back_zeros size p nd : back_ok (p, {| pg_data := zeros size; pg_locked := false; pg_nodump := nd |}).
Proof. split; cbn; [done|]. intros _. unfold zeros. by rewrite length_replicate. Qed.

(** A mapping that is given up leaves no trace among the pages. *)
Lemma unmapped_fresh size p m e pg m' : pages m !! next m = None -> same_rest m m' -> heap m' = heap m ->
  pages m' = <[next m := pg]> (pages m) -> back_ok (p, pg) -> allocated size p m (Err e) (Munmap p (next m) m').
Proof.
  intros Hf [A B C D E] Hh Hp Hb. unfold allocated, Munmap. rewrite Hp, lookup_insert_eq. cbn. rewrite delete_insert_id by done.
  split_and!; [|done|done]. split; cbn; try done. intros HB. constructor; [done | by apply E].
Qed.

Lemma mapped_fresh size p m pg m' : linux && pl_OffHeap p = true -> same_rest m m' -> heap m' = heap m ->
  pages m' = <[next m := pg]> (pages m) -> (next m < next m')%nat -> pg_data pg = zeros size -> pg_locked pg = pl_Lock p ->
  pg_nodump pg = pl_DontDump p -> allocated size p m (Ok (Pages (next m), pl_Lock p)) m'.
Proof.
  intros Hl HR Hh Hp Hn H1 H2 H3. unfold allocated. cbn. rewrite Hp, lookup_insert_eq. cbn. split; [done|].
  split_and!; try done; [| by rewrite H1 | eauto]. exists pg. rewrite H1. split_and!; try done. apply length_replicate.
Qed.

Lemma alloc_spec size p m r m' : mem_ok m -> alloc linux size p m = (r, m') -> allocated size p m r m'.
Proof.
  intros Hm. assert (pages m !! next m = None) as Hfresh.
  { destruct (pages m !! next m) eqn:E; [|done]. pose proof (proj2 (mo_next _ Hm) _ (mk_is_Some _ _ E)). lia. }
  pose proof (alloc_heap_spec size p m) as Hheap. pose proof (mapped_fresh size p m) as Hmap.
  unfold alloc, alloc_linux, alloc_other. destruct linux; [|intros [= <- <-]; by apply Hheap].
  destruct (pl_OffHeap p) eqn:Hoff; cbn [negb]; [|intros [= <- <-]; by apply Hheap]. cbn in Hmap.
  destruct (ask m) as [b1 m1] eqn:E1. apply ask_rest in E1 as (R1 & Hh1 & Hp1 & Hn1).
  destruct b1; cbn [negb]; [|intros [= <- <-]; by split_and!].
  set (pg0 := {| pg_data := zeros size; pg_locked := false; pg_nodump := false |}).
  set (m2 := set_next (S (next m1)) (set_page (next m1) pg0 m1)).
  assert (exists b3 m3, (if pl_DontDump p then ask m2 else (true, m2)) = (b3, m3) /\ same_rest m2 m3 /\ heap m3 = heap m2 /\
    pages m3 = pages m2 /\ next m3 = next m2) as (b3 & m3 & -> & R3 & Hh3 & Hp3 & Hn3).
  { destruct (pl_DontDump p).
    - destruct (ask m2) as [b3 m3] eqn:E. exists b3, m3. apply ask_rest in E as (? & ? & ? & ?). by split_and!.
    - exists true, m2. split_and!; done. }
  assert (same_rest m m3) as R.
  { eapply same_rest_trans; [exact R1|]. eapply same_rest_trans; [|exact R3]. split; cbn; (done || lia). }
  rewrite Hn1 in *. subst m2. cbn in Hh3, Hp3, Hn3. rewrite Hn1, Hp1 in Hp3.
  destruct b3; cbn [negb].
  2: { intros [= <- <-]. apply (unmapped_fresh _ _ _ _ pg0); [done | done | congruence | done | apply back_zeros]. }
  set (pg1 := {| pg_data := zeros size; pg_locked := false; pg_nodump := pl_DontDump p |}).
  set (m4 := set_page (next m) pg1 m3).
  assert (same_rest m m4) as R4 by (destruct R as [A B C D E]; split; done).
  assert (pages m4 = <[next m := pg1]> (pages m)) as Hp4 by (cbn; rewrite Hp3; apply insert_insert_eq).
  destruct (pl_Lock p) eqn:Hlock; cbn [negb].
  - destruct (ask m4) as [b5 m5] eqn:E5. apply ask_rest in E5 as (R5 & Hh5 & Hp5 & Hn5).
    pose proof (same_rest_trans _ _ _ R4 R5) as R6. destruct b5; cbn [negb]; intros [= <- <-].
    + apply (Hmap {| pg_data := zeros size; pg_locked := true; pg_nodump := pl_DontDump p |}); try done.
      * destruct R6 as [A B C D E]. split; done.
      * cbn. rewrite Hh5. cbn. congruence.
      * cbn. rewrite Hp5, Hp4. apply insert_insert_eq.
      * cbn. rewrite Hn5. cbn. lia.
    + apply (unmapped_fresh _ _ _ _ pg1); [done | done | rewrite Hh5; cbn; congruence | congruence | apply back_zeros].
  - intros [= <- <-]. apply (Hmap pg1); try done; cbn; [congruence | lia].
Qed.

(** *** Operations keep the memory in order *)

(** Only the kernel's answers were used up, and pages went back in order. *)
Lemma mem_ok_rest m m' : mem_ok m -> same_rest m m' -> heap m' = heap m -> pages m' = pages m -> mem_ok m'.
Proof.
  intros [C1 C2 C3 C4 C5 C6 C7 C8 [C9 C10]] [A B C D E] Hh Hp. unfold owns in *. split; unfold countable, owns; rewrite ?A, ?B, ?C, ?Hh, ?Hp; try done.
  - intros i b Hb. specialize (C5 i b Hb). unfold buffer_ok, place_ok in *. by rewrite Hh, Hp.
  - by apply E.
  - split; intros x Hx; [specialize (C9 x Hx) | specialize (C10 x Hx)]; lia.
Qed.

(** The slices of live buffers have the lengths their headers say. *)
Lemma owned_read m i pl : mem_ok m -> owns m i pl -> exists b n d,
  buffers m !! i = Some b /\ bf_mem b = Some (pl, n) /\ bf_released b = false /\ (0 < n)%nat /\
  read_place m pl = Some d /\ length d = n /\ place_ok m pl n (bf_policy b) (bf_locked b).
Proof.
  intros Hm (b & n & Hb & Hpl). destruct (mo_buffers _ Hm i b Hb) as [_ Hok].
  destruct (bf_released b) eqn:Hr; [congruence|]. destruct Hok as (pl' & n' & Hpl' & Hn & Ho).
  rewrite Hpl in Hpl'. injection Hpl' as <- <-.
  assert (exists d, read_place m pl = Some d /\ length d = n) as (d & Hd & Hl).
  { destruct pl as [h|q]; cbn in *; [by destruct Ho as (_ & _ & d & Hd & Hl); eauto|].
    destruct Ho as (_ & _ & pg & Hpg & Hl & _). rewrite Hpg. cbn. eauto. }
  exists b, n, d. by split_and!.
Qed.

Lemma write_frame m pl d0 d : read_place m pl = Some d0 -> exists m', write_place pl d m = Some m' /\
  buffers m' = buffers m /\ (forall h, is_Some (heap m !! h) -> is_Some (heap m' !! h)) /\ read_place m' pl = Some d.
Proof.
  destruct pl as [h|q]; cbn.
  - intros ->. eexists. split_and!; [done | done | | cbn; by rewrite lookup_insert_eq].
    intros x Hx. apply lookup_insert_is_Some'. by right.
  - destruct (pages m !! q) as [pg|]; [|done]. intros _. eexists. split_and!; [done | done | done | cbn; by rewrite lookup_insert_eq].
Qed.

(** Writing as many bytes as the slice holds. *)
Lemma write_ok m pl d0 d m' : mem_ok m -> read_place m pl = Some d0 -> length d = length d0 ->
  write_place pl d m = Some m' -> mem_ok m'.
Proof.
  intros [C1 C2 C3 C4 C5 C6 C7 C8 [C9 C10]] Hr Hl. destruct pl as [h|q]; cbn in *.
  - rewrite Hr. intros [= <-]. split; cbn; try done.
    + intros i b Hb. specialize (C5 i b Hb) as [HP Hok]. split; [done|]. destruct (bf_released b); [done|].
      destruct Hok as (pl & n & Hpl & Hn & Ho). exists pl, n. split_and!; [done | done |]. destruct pl as [h'|q']; [|done].
      cbn in *. destruct Ho as (? & ? & d' & Hd & Hd'). split_and!; [done | done |]. destruct (decide (h = h')) as [->|].
      * exists d. rewrite lookup_insert_eq. split; congruence.
      * exists d'. by rewrite lookup_insert_ne.
    + split; [|done]. intros x Hx. apply lookup_insert_is_Some' in Hx as [<-|Hx]; apply C9; [eauto | done].
  - destruct (pages m !! q) as [pg|] eqn:Hq; cbn in Hr; [|done]. injection Hr as Hr. intros [= <-]. split; cbn; try done.
    + intros i b Hb. specialize (C5 i b Hb) as [HP Hok]. split; [done|]. destruct (bf_released b); [done|].
      destruct Hok as (pl & n & Hpl & Hn & Ho). exists pl, n. split_and!; [done | done |]. destruct pl as [h'|q']; [done|].
      cbn in *. destruct Ho as (? & ? & pg' & Hd & Hd' & ? & ?). split_and!; [done | done |]. destruct (decide (q = q')) as [->|].
      * rewrite lookup_insert_eq. eexists. split; [reflexivity|]. cbn. split_and!; congruence.
      * exists pg'. by rewrite lookup_insert_ne.
    + intros x Hx. apply lookup_insert_is_Some' in Hx as [<-|Hx]; apply C7; [eauto | done].
    + split; [done|]. intros x Hx. apply lookup_insert_is_Some' in Hx as [<-|Hx]; apply C10; [eauto | done].
Qed.

(** Facts stand while buffers are added and memory is written. *)
Lemma keeps_more wr m m' : (exists l, buffers m' = buffers m ++ l) -> (forall h, is_Some (heap m !! h) -> is_Some (heap m' !! h)) ->
  keeps holds guarded wr m m'.
Proof.
  intros [l Hl] Hh [i|i|h] Hf _; cbn in *; [rewrite Hl, length_app; lia | | by apply Hh].
  destruct Hf as (b & Hb & Hr). exists b. rewrite Hl. split; [by apply lookup_app_l_Some | done].
Qed.

(** The new buffer of [New]. *)
Definition pushed (b : Buffer) (m : Memory) : Memory := set_created (bf_seq b) (set_buffers (buffers m ++ [b]) m).

Lemma pushed_ok size p m pl locked m' : mem_ok m -> needs_pages p = false -> (0 < size)%nat ->
  allocated size p m (Ok (pl, locked)) m' ->
  let b := {| bf_mem := Some (pl, size); bf_locked := locked; bf_released := false; bf_policy := p; bf_seq := u64 (created m' + 1) |} in
  countable (pushed b m') -> mem_ok (pushed b m').
Proof.
  intros Hm Hp Hs [[A B C D E] (Ho & Hr & Hn & Hpl)] b Hc. destruct Hm as [C1 C2 C3 C4 C5 C6 C7 C8 [C9 C10]].
  assert (forall h d, heap m !! h = Some d -> heap m' !! h = Some d) as Hheap.
  { intros h d Hh. destruct pl as [h'|q]; [|by destruct Hpl as (_ & -> & _)]. destruct Hpl as (-> & -> & _).
    rewrite lookup_insert_ne; [done|]. intros <-. specialize (C9 _ (mk_is_Some _ _ Hh)). lia. }
  assert (forall q pg, pages m !! q = Some pg -> pages m' !! q = Some pg) as Hpages.
  { intros q pg Hq. destruct pl as [h'|q']; [by destruct Hpl as (_ & _ & ->)|]. destruct Hpl as (-> & _ & pg' & ->).
    rewrite lookup_insert_ne; [done|]. intros <-. specialize (C10 _ (mk_is_Some _ _ Hq)). lia. }
  assert (forall i pl', owns m i pl' -> pl' <> pl) as Hne.
  { intros i pl' (b' & n & Hb & Hm') ->. destruct (C5 i b' Hb) as [_ Hok]. destruct (bf_released b'); [congruence|].
    destruct Hok as (pl' & n' & Hm'' & _ & Ho'). rewrite Hm' in Hm''. injection Hm'' as <- <-. destruct pl as [h|q]; cbn in Ho'.
    - destruct Hpl as (-> & _). destruct Ho' as (_ & _ & d & Hd & _). specialize (C9 _ (mk_is_Some _ _ Hd)). lia.
    - destruct Hpl as (-> & _). destruct Ho' as (_ & _ & d & Hd & _). specialize (C10 _ (mk_is_Some _ _ Hd)). lia. }
  assert (forall i pl', owns (pushed b m') i pl' -> owns m i pl' \/ i = length (buffers m) /\ pl' = pl) as Howns.
  { intros i pl' (b' & n & Hb & Hm'). cbn in Hb. rewrite A in Hb. apply lookup_app_Some in Hb as [Hb|[Hi Hb]]; [left; by exists b', n|].
    right. destruct (i - length (buffers m))%nat eqn:Ei; [|done]. injection Hb as <-. cbn in Hm'. injection Hm' as <- <-. split; [lia | done]. }
  split; try done.
  - cbn. rewrite B, C2, A, length_app, Nat2Z.inj_add. unfold u64. by rewrite Zplus_mod_idemp_l.
  - intros i b' Hb. cbn in Hb. rewrite A in Hb. apply lookup_app_Some in Hb as [Hb|[Hi Hb]]; [by apply C3|].
    destruct (i - length (buffers m))%nat eqn:Ei; [|done]. injection Hb as <-. cbn. rewrite B, C2.
    replace i with (length (buffers m)) by lia. unfold u64. by rewrite Zplus_mod_idemp_l.
  - cbn. by rewrite C.
  - intros i b' Hb. cbn in Hb. rewrite A in Hb. apply lookup_app_Some in Hb as [Hb|[Hi Hb]].
    + destruct (C5 i b' Hb) as [HP Hok]. split; [done|]. destruct (bf_released b'); [done|].
      destruct Hok as (pl' & n' & Hm' & Hn' & Ho'). exists pl', n'. split_and!; [done | done |]. destruct pl' as [h|q]; cbn in *.
      * destruct Ho' as (? & ? & d & Hd & ?). split_and!; [done | done |]. exists d. split; [by apply Hheap | done].
      * destruct Ho' as (? & ? & d & Hd & ?). split_and!; [done | done |]. exists d. split; [by apply Hpages | done].
    + destruct (i - length (buffers m))%nat; [|done]. injection Hb as <-. split; [done|]. cbn. exists pl, size. by split_and!.
  - intros i j pl' [Hi|[-> ->]]%Howns [Hj|[-> Hj]]%Howns; [by eapply C6 | | | done].
    + by destruct (Hne _ _ Hi).
    + by destruct (Hne _ _ Hj).
  - intros q Hq. cbn in Hq.
    assert (is_Some (pages m !! q) \/ pl = Pages q) as [Hq'| ->].
    { destruct pl as [h|q']; [left; by destruct Hpl as (_ & _ & <-)|]. destruct Hpl as (-> & _ & pg & Hpg). rewrite Hpg in Hq.
      apply lookup_insert_is_Some' in Hq as [->|Hq]; [by right | by left]. }
    + destruct (C7 q Hq') as (i & b' & n & Hb & Hm'). exists i, b', n. cbn. rewrite A. split; [by apply lookup_app_l_Some | done].
    + exists (length (buffers m)), b, size. cbn. rewrite A, lookup_app_r, Nat.sub_diag by done. done.
  - by apply E.
  - cbn. split; intros x Hx; destruct pl as [h|q].
    + destruct Hpl as (-> & Hh & _). rewrite Hh in Hx. apply lookup_insert_is_Some' in Hx as [<-|Hx]; [done|]. specialize (C9 x Hx). lia.
    + destruct Hpl as (_ & Hh & _). rewrite Hh in Hx. specialize (C9 x Hx). lia.
    + destruct Hpl as (_ & _ & Hh). rewrite Hh in Hx. specialize (C10 x Hx). lia.
    + destruct Hpl as (-> & _ & pg & Hh). rewrite Hh in Hx. apply lookup_insert_is_Some' in Hx as [<-|Hx]; [done|]. specialize (C10 x Hx). lia.
Qed.

(** The result of a creation: nothing but used answers, or one buffer more with the
    bytes it was made from. *)
Definition makes (size : nat) (d : bytes) (m : Memory) (r : res nat) (m' : Memory) : Prop :=
  (exists l, buffers m' = buffers m ++ l) /\ (forall h, is_Some (heap m !! h) -> is_Some (heap m' !! h)) /\
  (countable m' -> mem_ok m') /\
  match r with
  | Err _ => True
  | Ok i => i = length (buffers m) /\ (i < length (buffers m'))%nat /\ contents i m' = Some (copy_at 0 d (zeros size))
  end.

Lemma copy_nothing n : copy_at 0 [] (zeros n) = zeros n.
Proof. unfold copy_at. by rewrite take_0, firstn_nil. Qed.

Lemma heap_kept size p m pl locked m' : mem_ok m -> allocated size p m (Ok (pl, locked)) m' ->
  (forall h d, heap m !! h = Some d -> heap m' !! h = Some d) /\ (forall h, pl = Heap h -> heap m !! h = None).
Proof.
  intros Hm [_ (_ & _ & _ & Hpl)]. assert (heap m !! next m = None) as Hfresh.
  { destruct (heap m !! next m) eqn:E; [|done]. pose proof (proj1 (mo_next _ Hm) _ (mk_is_Some _ _ E)). lia. }
  destruct pl as [h'|q].
  - destruct Hpl as (-> & -> & _). split; [|by intros h [= <-]]. intros h d Hh. rewrite lookup_insert_ne; [done | congruence].
  - destruct Hpl as (_ & -> & _). by split.
Qed.

Lemma kept_grows (m m' : Memory) : (forall h d, heap m !! h = Some d -> heap m' !! h = Some d) ->
  forall h, is_Some (heap m !! h) -> is_Some (heap m' !! h).
Proof. intros H h [d Hd]. exists d. by apply H. Qed.

(** A write elsewhere. *)
Lemma write_other pl d m m' pl' : write_place pl d m = Some m' -> pl' <> pl -> read_place m' pl' = read_place m pl'.
Proof.
  destruct pl as [h|q]; cbn.
  - destruct (heap m !! h); [|done]. intros [= <-] Hne. destruct pl' as [h'|q']; cbn; [|done].
    rewrite lookup_insert_ne; [done | congruence].
  - destruct (pages m !! q); [|done]. intros [= <-] Hne. destruct pl' as [h'|q']; cbn; [done|].
    rewrite lookup_insert_ne; [done | congruence].
Qed.

Lemma contents_last m b pl n : bf_mem b = Some (pl, n) -> contents (length (buffers m)) (pushed b m) = read_place m pl.
Proof. intros Hb. unfold contents. cbn. rewrite lookup_app_r, Nat.sub_diag by done. cbn. rewrite Hb. by destruct pl. Qed.

Lemma make_buffer_ok size p d m : mem_ok m -> needs_pages p = false -> (0 < size)%nat ->
  exists r m', make_buffer linux size p d m = Some (r, m') /\ makes size (default [] d) m r m' /\
    (forall h x, heap m !! h = Some x -> heap m' !! h = Some x) /\
    match r with
    | Err _ => heap m' = heap m
    | Ok i => exists b pl, buffers m' !! i = Some b /\ bf_mem b = Some (pl, size) /\ bf_released b = false /\ bf_policy b = p /\
        (forall h, pl = Heap h -> heap m !! h = None)
    end.
Proof.
  intros Hm Hp Hs. unfold make_buffer. destruct (alloc linux size p m) as [[[pl locked]|e] m1] eqn:E; apply (alloc_spec _ _ _ _ _ Hm) in E.
  2: { destruct E as [R [Hh Hpg]]. exists (Err e), m1. split_and!; [done| |by rewrite Hh|done]. split_and!; [|by rewrite Hh| |done].
       - exists []. rewrite app_nil_r. apply R.
       - intros _. by eapply mem_ok_rest. }
  pose proof E as [R (Ho & Hread & Hn & Hpl)]. destruct (heap_kept _ _ _ _ _ _ Hm E) as [Hk Hnone].
  set (b := {| bf_mem := Some (pl, size); bf_locked := locked; bf_released := false; bf_policy := p; bf_seq := u64 (created m1 + 1) |}).
  fold (pushed b m1). change (set_created (u64 (created m1 + 1)) (set_buffers (buffers m1 ++ [b]) m1)) with (pushed b m1).
  pose proof (pushed_ok _ _ _ _ _ _ Hm Hp Hs E) as Hok. cbv zeta in Hok. fold b in Hok.
  assert (length (buffers (pushed b m1)) - 1 = length (buffers m))%nat as Hidx
    by (cbn; rewrite length_app, (sr_buffers _ _ R); cbn; lia).
  assert (buffers (pushed b m1) = buffers m ++ [b]) as Hb by (cbn; by rewrite (sr_buffers _ _ R)).
  pose proof (contents_last m1 b pl size eq_refl) as Hcon. rewrite (sr_buffers _ _ R), Hread in Hcon.
  destruct d as [d|]; cbn [default].
  - assert (read_place (pushed b m1) pl = Some (zeros size)) as Hread' by (destruct pl; exact Hread).
    destruct (write_frame _ _ _ (copy_at 0 d (zeros size)) Hread') as (m2 & Hw & Hb2 & Hh2 & Hr2). rewrite Hw.
    exists (Ok (length (buffers m2) - 1)%nat), m2. rewrite Hb2, Hidx. unfold makes. rewrite Hb2, Hb.
    assert (forall h x, heap m !! h = Some x -> heap m2 !! h = Some x) as Hk2.
    { intros h x Hx. change (read_place m2 (Heap h) = Some x). rewrite (write_other _ _ _ _ _ Hw); [by apply Hk|]. intros E2. by rewrite (Hnone h (eq_sym E2)) in Hx. }
    split_and!; [done | by exists [b] | by apply kept_grows | | done | rewrite length_app; cbn; lia | | exact Hk2 |].
    + unfold countable. rewrite Hb2. intros Hc. eapply write_ok; [by apply Hok | exact Hread' | | exact Hw]. by apply length_copy_at; lia.
    + unfold contents. rewrite Hb2, Hb, lookup_app_r, Nat.sub_diag by done. exact Hr2.
    + exists b, pl. rewrite lookup_app_r, Nat.sub_diag by done. by split_and!.
  - exists (Ok (length (buffers (pushed b m1)) - 1)%nat), (pushed b m1). rewrite Hidx. unfold makes. rewrite Hb.
    split_and!; [done | by exists [b] | by apply kept_grows | exact Hok | done | rewrite length_app; cbn; lia | | exact Hk |].
    + by rewrite copy_nothing.
    + exists b, pl. rewrite lookup_app_r, Nat.sub_diag by done. by split_and!.
Qed.

(** *** Release *)

Definition dead (b : Buffer) : Buffer :=
  {| bf_mem := None; bf_locked := bf_locked b; bf_released := true; bf_policy := bf_policy b; bf_seq := bf_seq b |}.

(** A buffer's slice is given up: the buffer forgets it, and it is a heap slice or
    its pages are gone. *)
Lemma drop_ok m i b pl n bk pgs : mem_ok m -> buffers m !! i = Some b -> bf_mem b = Some (pl, n) ->
  Forall back_ok bk ->
  (forall q pg, pgs !! q = Some pg -> pages m !! q = Some pg /\ pl <> Pages q) ->
  (forall q pg, pages m !! q = Some pg -> pl <> Pages q -> pgs !! q = Some pg) ->
  mem_ok (set_buffers (<[i := dead b]> (buffers m)) (set_pages pgs (set_back bk m))).
Proof.
  intros Hm Hb Hpl Hbk Hsub Hsup. pose proof (lookup_lt_Some _ _ _ Hb) as Hlt.
  assert (forall j pl', owns (set_buffers (<[i := dead b]> (buffers m)) (set_pages pgs (set_back bk m))) j pl' ->
    owns m j pl' /\ j <> i) as Howns.
  { intros j pl' (b' & n' & Hb' & Hm'). cbn in Hb'. apply list_lookup_insert_Some in Hb' as [(<- & <- & _)|[Hne Hb']]; [done|].
    split; [by exists b', n' | done]. }
  pose proof Hm as [C1 C2 C3 C4 C5 C6 C7 C8 [C9 C10]]. split; try done.
  - unfold countable. cbn. by rewrite length_insert.
  - cbn. by rewrite length_insert.
  - intros j b' Hb'. cbn in Hb'. apply list_lookup_insert_Some in Hb' as [(<- & <- & _)|[Hne Hb']]; [by apply (C3 i b) | by apply C3].
  - intros j b' Hb'. cbn in Hb'. apply list_lookup_insert_Some in Hb' as [(<- & <- & _)|[Hne Hb']].
    { split; [|done]. by destruct (C5 i b Hb). }
    destruct (C5 j b' Hb') as [HP Hok]. split; [done|]. destruct (bf_released b'); [done|].
    destruct Hok as (pl' & n' & Hm' & Hn' & Ho'). exists pl', n'. split_and!; [done | done |]. destruct pl' as [h|q]; cbn in *; [done|].
    destruct Ho' as (? & ? & pg & Hpg & ?). split_and!; [done | done |]. exists pg. split; [|done]. apply Hsup; [done|].
    intros ->. apply Hne. eapply (C6 i j (Pages q)); [by exists b, n | by exists b', n'].
  - intros j k pl' [Hj _]%Howns [Hk _]%Howns. by eapply C6.
  - intros q [pg Hq]. cbn in Hq. apply Hsub in Hq as [Hq Hne]. destruct (C7 q (mk_is_Some _ _ Hq)) as (j & b' & n' & Hb' & Hm').
    exists j, b', n'. split; [|done]. cbn. rewrite list_lookup_insert_ne; [done|]. intros <-. rewrite Hb in Hb'. injection Hb' as <-.
    rewrite Hpl in Hm'. by injection Hm'.
  - cbn. split; [done|]. intros q [pg Hq]. apply Hsub in Hq as [Hq _]. by eapply C10, mk_is_Some.
Qed.

(** [zero], as far as the policy asks for it. *)
Lemma zero_ok m pl d p : mem_ok m -> read_place m pl = Some d -> exists m' d',
  (if pl_Zero p then zero pl m else Some m) = Some m' /\ mem_ok m' /\ buffers m' = buffers m /\ read_place m' pl = Some d' /\
  (forall h, is_Some (heap m !! h) -> is_Some (heap m' !! h)) /\ (pl_Zero p = true -> d' = zeros (length d')).
Proof.
  intros Hm Hr. destruct (pl_Zero p); [|by exists m, d]. unfold zero. rewrite Hr.
  destruct (write_frame _ _ _ (zeros (length d)) Hr) as (m' & Hw & Hb & Hh & Hr').
  exists m', (zeros (length d)). split_and!; [done | | done | done | done | by unfold zeros; rewrite length_replicate].
  eapply write_ok; [done | done | apply length_replicate | done].
Qed.

Lemma unmap_pages q locked p m pg : pages m !! q = Some pg -> pg_locked pg = locked -> exists pg',
  unmap (Pages q) locked p m = set_pages (delete q (pages m)) (set_back ((p, pg') :: back m) m) /\
  pg_data pg' = pg_data pg /\ pg_locked pg' = false.
Proof.
  intros Hq Hl. unfold unmap, Munmap. rewrite Hq. destruct locked.
  - cbn. rewrite lookup_insert_eq. exists {| pg_data := pg_data pg; pg_locked := false; pg_nodump := pg_nodump pg |}.
    split; [|done]. unfold set_page, set_pages, set_back. cbn. by rewrite delete_insert_eq.
  - rewrite Hq. exists pg. by split_and!.
Qed.

Lemma release_ok i m : mem_ok m -> holds (FAlive i) m -> exists m', release_now linux i m = Some (tt, m') /\ mem_ok m' /\
  (exists b, buffers m !! i = Some b /\ buffers m' = <[i := dead b]> (buffers m)) /\
  (forall h, is_Some (heap m !! h) -> is_Some (heap m' !! h)).
Proof.
  intros Hm (b & Hb & Hr). destruct (mo_buffers _ Hm i b Hb) as [_ Hok]. rewrite Hr in Hok. destruct Hok as (pl & n & Hpl & Hn & Ho).
  destruct (owned_read m i pl Hm) as (b' & n' & d & Hb' & _ & _ & _ & Hrd & _); [by exists b, n|].
  unfold release_now, free. rewrite Hb, Hpl.
  destruct (zero_ok m pl d (bf_policy b) Hm Hrd) as (m1 & d1 & -> & Hm1 & Hb1 & Hr1 & Hh1 & Hz). rewrite <- Hb1 in Hb.
  destruct (mo_buffers _ Hm1 i b Hb) as [_ Hok]. rewrite Hr in Hok. destruct Hok as (pl' & n1 & Hpl' & _ & Ho1).
  rewrite Hpl in Hpl'. injection Hpl' as <- <-. fold (dead b). destruct pl as [h|q].
  - destruct Ho1 as (-> & _). assert (m1 = set_pages (pages m1) (set_back (back m1) m1)) as Heta by (by destruct m1).
    eexists. split_and!; [done | | exists b; by rewrite <- Hb1 | done]. rewrite Heta at 2.
    apply (drop_ok m1 i b (Heap h) n); [done | done | done | apply Hm1 | by split | done].
  - destruct Ho1 as (-> & Hlk & pg & Hpg & _ & Hpl1 & _).
    destruct (unmap_pages q (bf_locked b) (bf_policy b) m1 pg Hpg) as (pg' & -> & Hdata & Hunl); [congruence|].
    eexists. split_and!; [done | | exists b; by rewrite <- Hb1 | done].
    eapply (drop_ok m1 i b (Pages q) n); try done.
    + constructor; [|apply Hm1]. split; cbn; [done|]. intros Hzero. rewrite Hdata. cbn in Hr1. rewrite Hpg in Hr1.
      injection Hr1 as ->. by apply Hz.
    + intros q' pg1 Hq'. apply lookup_delete_Some in Hq' as [Hne Hq']. split; [done | congruence].
    + intros q' pg1 Hq' Hne. apply lookup_delete_Some. split; [congruence | done].
Qed.

(** *** The methods keep to their locks *)

Abbreviation Safe := (safe holds guarded mem_ok countable rank).

(** The facts of a list, and lists of facts that no lock guards. *)
Definition listed (l : list fact) : fact -> Prop := fun φ => φ ∈ l.

Definition lasting (l : list fact) : Prop := Forall (fun φ => guarded φ = None) l.

Definition mono {A} (Q : A -> list lockid -> list lockid -> (fact -> Prop) -> Prop) : Prop :=
  forall a rd wr (K K' : fact -> Prop), (forall φ, K φ -> K' φ) -> Q a rd wr K -> Q a rd wr K'.

(** What a method comes back with: no lock, and what its result tells. *)
Definition post {A} (gives : A -> list fact) (H : list fact) : A -> list lockid -> list lockid -> (fact -> Prop) -> Prop :=
  fun a rd wr K => rd = [] /\ wr = [] /\ (forall φ, φ ∈ gives a ++ H -> K φ).

Lemma post_mono {A} (gives : A -> list fact) H : mono (post gives H).
Proof. intros a rd wr K K' HK (-> & -> & Hφ). split_and!; [done | done |]. intros φ Hin. by apply HK, Hφ. Qed.

Section Rules.
Context {A : Type} (Q : A -> list lockid -> list lockid -> (fact -> Prop) -> Prop) (HQ : mono Q).

Lemma s_less rd wr H l (p : Prg A) : H ⊆ l -> Safe rd wr (listed H) p Q -> Safe rd wr (listed l) p Q.
Proof. intros Hl. by apply safe_more. Qed.

Lemma s_runlock rd wr x H l (p : Prg A) : x ∈ rd -> Forall (fun φ => guarded φ <> Some x) H -> H ⊆ l ->
  Safe (drop_hold x rd) wr (listed H) p Q -> Safe rd wr (listed l) (RUnlock x p) Q.
Proof.
  intros Hx HH Hl Hp. split; [done|]. eapply safe_more; [exact HQ | | exact Hp]. intros φ Hφ. split; [by apply Hl|].
  exact (proj1 (Forall_forall _ _) HH φ Hφ).
Qed.

Lemma s_unlock rd wr x H l (p : Prg A) : x ∈ wr -> Forall (fun φ => guarded φ <> Some x) H -> H ⊆ l ->
  Safe rd (drop_hold x wr) (listed H) p Q -> Safe rd wr (listed l) (Unlock x p) Q.
Proof.
  intros Hx HH Hl Hp. split; [done|]. eapply safe_more; [exact HQ | | exact Hp]. intros φ Hφ. split; [by apply Hl|].
  exact (proj1 (Forall_forall _ _) HH φ Hφ).
Qed.

Definition covered (held : list lockid) (l : list fact) : Prop := Forall (fun φ => forall x, guarded φ = Some x -> x ∈ held) l.

Lemma lasting_covered held l : lasting l -> covered held l.
Proof. intros H. eapply Forall_impl; [exact H|]. by intros φ -> x. Qed.

Lemma s_read {X} rd wr l (f : Memory -> option (X * Memory)) (k : X -> Prg A) : covered (rd ++ wr) l ->
  (forall m, mem_ok m -> Forall (fun φ => holds φ m) l -> exists x new, f m = Some (x, m) /\
    Forall (fun φ => holds φ m) new /\ covered (rd ++ wr) new /\ Safe rd wr (listed (new ++ l)) (k x) Q) ->
  Safe rd wr (listed l) (Act f k) Q.
Proof.
  intros Hl H m Hm HK. destruct (H m Hm) as (x & new & Hf & Hnew & Hc & Hs); [by apply Forall_forall|].
  exists x, m. split; [done|]. intros _. split_and!; [done | by intros φ |]. exists (listed (new ++ l)).
  split_and!; [| |done]; intros φ.
  - intros y [Hin|Hin]%elem_of_app Hy; [by eapply (proj1 (Forall_forall _ _) Hc) | by eapply (proj1 (Forall_forall _ _) Hl)].
  - intros [Hin|Hin]%elem_of_app; [by apply (proj1 (Forall_forall _ _) Hnew) | by apply HK].
Qed.

Lemma s_act {X} rd wr l H (f : Memory -> option (X * Memory)) (k : X -> Prg A) : lasting H -> H ⊆ l ->
  (forall m, mem_ok m -> Forall (fun φ => holds φ m) l -> exists x m', f m = Some (x, m') /\
    (countable m' -> mem_ok m' /\ keeps holds guarded wr m m' /\
     exists new, lasting new /\ Forall (fun φ => holds φ m') new /\ Safe rd wr (listed (new ++ H)) (k x) Q)) ->
  Safe rd wr (listed l) (Act f k) Q.
Proof.
  intros HH Hsub Hs m Hm HK. destruct (Hs m Hm) as (x & m' & Hf & Hr); [by apply Forall_forall|].
  exists x, m'. split; [done|]. intros (Hm' & Hk & new & Hn & Hnew & Hsafe)%Hr. split_and!; [done | done |].
  exists (listed (new ++ H)). split_and!; [| |done]; intros φ.
  - intros y Hin Hy. assert (lasting (new ++ H)) as HL by (by apply Forall_app).
    by rewrite (proj1 (Forall_forall _ _) HL φ Hin) in Hy.
  - intros [Hin|Hin]%elem_of_app; [by apply (proj1 (Forall_forall _ _) Hnew)|]. apply Hk; [by apply HK, Hsub|].
    intros y Hy. by rewrite (proj1 (Forall_forall _ _) HH φ Hin) in Hy.
Qed.

End Rules.

Lemma lasting_free H x : lasting H -> Forall (fun φ => guarded φ <> Some x) H.
Proof. intros HH. eapply Forall_impl; [exact HH|]. by intros φ ->. Qed.

Lemma rank_policy i : rank (Mu i) < rank PolicyMu.
Proof. unfold rank, u64. pose proof (Z.mod_pos_bound (Z.of_nat i + 1) (2 ^ 64)). lia. Qed.

Lemma drop_top x (held : list lockid) : drop_hold x (x :: held) = held.
Proof. cbn. by rewrite bool_decide_true. Qed.

(** The end of a method that reads under one mutex. *)
Lemma s_end {A} (gives : A -> list fact) x H l (a : A) : lasting H -> gives a ++ H ⊆ l -> lasting (gives a) ->
  Safe [x] [] (listed l) (RUnlock x (Ret a)) (post gives H).
Proof.
  intros HH Hl Hg. assert (lasting (gives a ++ H)) as HL by (by apply Forall_app).
  eapply (s_runlock _ (post_mono gives H) _ _ _ (gives a ++ H)); [apply list_elem_of_here | by apply lasting_free | done |].
  rewrite drop_top. by split_and!.
Qed.

Lemma s_policy {A} (Q : A -> list lockid -> list lockid -> (fact -> Prop) -> Prop) rd wr l (k : Policy -> Prg A) : mono Q ->
  above rank (rd ++ wr) PolicyMu -> covered (rd ++ wr) l -> Forall (fun φ => guarded φ <> Some PolicyMu) l ->
  (forall p, needs_pages p = false -> Safe rd wr (listed l) (k p) Q) -> Safe rd wr (listed l) (let# p := CurrentPolicy in k p) Q.
Proof.
  intros HQ Ha Hc Hl Hk. unfold CurrentPolicy. cbn [bindP]. split; [done|]. apply (s_read Q).
  - eapply Forall_impl; [exact Hc|]. intros φ Hφ x Hx. apply list_elem_of_further. by apply Hφ.
  - intros m Hm _. exists (policy m), []. split_and!; [done | constructor | constructor |].
    eapply (s_runlock Q HQ); [apply list_elem_of_here | exact Hl | done |]. rewrite drop_top. apply Hk. by apply mo_policy.
Qed.

Definition gives_buf (r : res nat) : list fact := match r with Ok i => [FBuf i] | Err _ => [] end.
Definition gives_none {A} (_ : A) : list fact := [].

Lemma gives_buf_lasting r : lasting (gives_buf r).
Proof. destruct r; repeat constructor. Qed.

Lemma s_make {A} (Q : A -> list lockid -> list lockid -> (fact -> Prop) -> Prop) size d rd wr l H f (k : res nat -> Prg A) :
  mono Q -> lasting H -> H ⊆ l ->
  (forall m, mem_ok m -> Forall (fun φ => holds φ m) l -> exists r m', f m = Some (r, m') /\ makes size d m r m') ->
  (forall r, Safe rd wr (listed (gives_buf r ++ H)) (k r) Q) -> Safe rd wr (listed l) (Act f k) Q.
Proof.
  intros HQ HH Hl Hf Hk. apply (s_act Q _ _ _ H); [done | done |]. intros m Hm HK.
  destruct (Hf m Hm HK) as (r & m' & Hr & (Hb & Hh & Hok & Hres)). exists r, m'. split; [done|]. intros Hc. split_and!.
  - by apply Hok.
  - by apply keeps_more.
  - exists (gives_buf r). split_and!; [apply gives_buf_lasting | | apply Hk]. destruct r; [|constructor].
    constructor; [by apply Hres | constructor].
Qed.

Lemma field_held {A} i (f : Buffer -> A) m l : FBuf i ∈ l -> Forall (fun φ => holds φ m) l -> exists b,
  buffers m !! i = Some b /\ field i f m = Some (f b, m).
Proof.
  intros Hin Hl. pose proof (proj1 (Forall_forall _ _) Hl _ Hin) as Hi. cbn in Hi.
  apply lookup_lt_is_Some in Hi as [b Hb]. exists b. unfold field. by rewrite Hb.
Qed.

(** Methods that read one field under the mutex. *)
Lemma s_field {A B} (gives : A -> list fact) i (f : Buffer -> B) (g : B -> A) H : lasting H -> FBuf i ∈ H -> (forall b, gives (g b) = []) ->
  Safe [] [] (listed H) (RLock (Mu i) (Act (field i f) (fun b => RUnlock (Mu i) (Ret (g b))))) (post gives H).
Proof.
  intros HH Hi Hg. split; [constructor|]. apply s_read; [by apply lasting_covered|]. intros m Hm HK.
  destruct (field_held i f m H Hi HK) as (b & _ & Hf). exists (f b), []. split_and!; [done | constructor | constructor |].
  apply s_end; [done | by rewrite Hg | rewrite Hg; constructor].
Qed.

Lemma policy_safe H : lasting H -> Safe [] [] (listed H) CurrentPolicy (post gives_none H).
Proof.
  intros HH. split; [constructor|]. apply s_read; [by apply lasting_covered|]. intros m Hm HK.
  exists (policy m), []. split_and!; [done | constructor | constructor |]. apply s_end; [done | done | constructor].
Qed.

Lemma set_policy_safe p H : lasting H -> Safe [] [] (listed H) (SetPolicy p) (post gives_none H).
Proof.
  intros HH. unfold SetPolicy. destruct (needs_pages p) eqn:Hp; [by split_and!|]. split; [constructor|].
  apply (s_act _ _ _ _ H); [done | done |]. intros m Hm HK. exists tt, (set_policy p m). split; [done|]. intros _. split_and!.
  - destruct Hm. by split.
  - by intros [i|i|h].
  - exists []. split_and!; [constructor | constructor |].
    eapply (s_unlock _ (post_mono gives_none H)); [apply list_elem_of_here | by apply lasting_free | done |]. rewrite drop_top. by split_and!.
Qed.

Lemma new_safe size H : lasting H -> Safe [] [] (listed H) (New linux size) (post gives_buf H).
Proof.
  intros HH. unfold New. destruct (Z.leb_spec size 0); [by split_and!|].
  apply (s_policy (post gives_buf H)); [apply post_mono | constructor | by apply lasting_covered | by apply lasting_free |].
  intros p Hp. apply (s_make (post gives_buf H) (Z.to_nat size) [] _ _ _ H); [apply post_mono | done | done | |].
  - intros m Hm _. destruct (make_buffer_ok (Z.to_nat size) p None m) as (r & m' & Hr & Hmk & _); [done | done | lia | by exists r, m'].
  - intros r. by split_and!.
Qed.

Lemma copy_whole (d : bytes) : copy_at 0 d (zeros (length d)) = d.
Proof.
  unfold copy_at, zeros. rewrite take_0, Nat.sub_0_r, length_replicate, firstn_all, drop_ge, app_nil_r; [done|].
  rewrite length_replicate. lia.
Qed.

Lemma make_from_ok h n p m d : mem_ok m -> needs_pages p = false -> heap m !! h = Some d -> (0 < n)%nat ->
  exists r m', make_from linux h n p m = Some (r, m') /\ makes n d m r m' /\
  match r with
  | Ok _ => heap m' !! h = Some (if pl_Zero p then zeros (length d) else d)
  | Err _ => heap m' = heap m
  end.
Proof.
  intros Hm Hp Hd Hn. unfold make_from. rewrite Hd.
  destruct (make_buffer_ok n p (Some d) m Hm Hp Hn) as (r & m1 & -> & Hmk & Hk & Hr). change (default [] (Some d)) with d in Hmk.
  pose proof Hmk as (Hb & Hh & Hok & Hres). destruct r as [i|e]; [|by exists (Err e), m1].
  destruct Hres as (-> & Hi & Hcon). destruct Hr as (b & pl & Hbi & Hpl & _ & _ & Hnone). pose proof (Hk h d Hd) as Hd1.
  destruct (pl_Zero p) eqn:Hz; [|exists (Ok (length (buffers m))), m1; by split_and!].
  unfold zero. cbn [read_place]. rewrite Hd1.
  destruct (write_frame m1 (Heap h) d (zeros (length d)) Hd1) as (m2 & Hw & Hb2 & Hh2 & Hr2). rewrite Hw.
  assert (contents (length (buffers m)) m2 = contents (length (buffers m)) m1) as Hcon2.
  { unfold contents. rewrite Hb2, Hbi, Hpl. apply (write_other _ _ _ _ _ Hw). intros ->. by rewrite (Hnone h eq_refl) in Hd. }
  exists (Ok (length (buffers m))), m2. unfold makes. rewrite Hb2, Hcon2.
  split_and!; [done | done | by intros x Hx; apply Hh2, Hh | | done | done | done | done].
  unfold countable. rewrite Hb2. intros Hc. exact (write_ok _ (Heap h) _ _ _ (Hok Hc) Hd1 (length_replicate _ _) Hw).
Qed.

Lemma new_from_safe h H : lasting H -> FHeap h ∈ H -> Safe [] [] (listed H) (NewFrom linux h) (post gives_buf H).
Proof.
  intros HH Hin. assert (forall m, Forall (fun φ => holds φ m) H -> exists d, heap m !! h = Some d) as Hheap.
  { intros m HK. exact (proj1 (Forall_forall _ _) HK _ Hin). }
  apply s_read; [by apply lasting_covered|]. intros m Hm HK. destruct (Hheap m HK) as [d Hd].
  rewrite Hd. exists (length d), []. split_and!; [done | constructor | constructor |]. cbn [app].
  generalize (length d) as n. clear m d Hm HK Hd. intros n. destruct (Nat.eqb_spec n 0) as [|Hne]; [by split_and!|].
  apply (s_policy (post gives_buf H)); [apply post_mono | constructor | by apply lasting_covered | by apply lasting_free |].
  intros p Hp. apply (s_act _ _ _ _ H); [done | done |]. intros m Hm HK. destruct (Hheap m HK) as [d Hd].
  destruct (make_from_ok h n p m d) as (r & m' & Hmk & (Hb & Hh & Hok & Hres) & _); [done | done | done | lia |].
  exists r, m'. split; [done|]. intros Hc. split_and!; [by apply Hok | by apply keeps_more |]. exists (gives_buf r).
  split_and!; [apply gives_buf_lasting | | by split_and!].
  destruct r; [|constructor]. constructor; [by apply Hres | constructor].
Qed.

Lemma zero_slice_safe h H : lasting H -> FHeap h ∈ H -> Safe [] [] (listed H) (ZeroSlice h) (post gives_none H).
Proof.
  intros HH Hin. apply (s_policy (post gives_none H)); [apply post_mono | constructor | by apply lasting_covered | by apply lasting_free |].
  intros p Hp. destruct (pl_Zero p); [|by split_and!]. apply (s_act _ _ _ _ H); [done | done |]. intros m Hm HK.
  destruct (proj1 (Forall_forall _ _) HK _ Hin) as [d Hd]. unfold zero. cbn [read_place]. rewrite Hd.
  destruct (write_frame m (Heap h) d (zeros (length d)) Hd) as (m' & Hw & Hb & Hh & _). rewrite Hw. exists tt, m'. split; [done|].
  intros _. split_and!.
  - exact (write_ok _ (Heap h) _ _ _ Hm Hd (length_replicate _ _) Hw).
  - apply keeps_more; [|done]. exists []. by rewrite app_nil_r.
  - exists []. by split_and!; [constructor | constructor |].
Qed.

Lemma clone_into_ok i n p m : mem_ok m -> needs_pages p = false -> holds (FAlive i) m -> (0 < n)%nat ->
  exists r m', clone_into linux i n p m = Some (r, m') /\ exists d, contents i m = Some d /\ makes n d m r m'.
Proof.
  intros Hm Hp (b & Hb & Hr) Hn. unfold clone_into. destruct (mo_buffers _ Hm i b Hb) as [_ Hok]. rewrite Hr in Hok.
  destruct Hok as (pl & n' & Hpl & _). destruct (owned_read m i pl Hm) as (b' & n1 & d & Hb' & Hpl' & _ & _ & Hd & _); [by exists b, n'|].
  assert (contents i m = Some d) as -> by (unfold contents; by rewrite Hb, Hpl).
  destruct (make_buffer_ok n p (Some d) m Hm Hp Hn) as (r & m' & Hmk & Hmakes & _). exists r, m'. eauto.
Qed.

Lemma clone_safe i H : lasting H -> FBuf i ∈ H -> Safe [] [] (listed H) (Clone linux i) (post gives_buf H).
Proof.
  intros HH Hin. split; [constructor|]. apply s_read; [by apply lasting_covered|]. intros m Hm HK.
  destruct (field_held i bf_released m H Hin HK) as (b & Hb & Hf). destruct (bf_released b) eqn:Hr.
  - exists true, []. split_and!; [done | constructor | constructor |]. apply s_end; [done | done | constructor].
  - exists false, [FAlive i]. split_and!; [done | constructor; [by exists b | constructor] | |].
    { constructor; [|constructor]. intros x [= <-]. apply list_elem_of_here. }
    assert (covered [Mu i] (FAlive i :: H)) as Hcov.
    { constructor; [|by apply lasting_covered]. intros x [= <-]. apply list_elem_of_here. }
    clear m Hm HK b Hb Hf Hr. apply s_read; [exact Hcov|]. intros m Hm [_ HK]%Forall_cons.
    destruct (field_held i mem_len m H Hin HK) as (b & Hb & Hf). exists (mem_len b), []. split_and!; [done | constructor | constructor |].
    generalize (mem_len b) as n. clear m Hm HK b Hb Hf. intros n. cbn [app].
    destruct (Nat.eqb_spec n 0); [apply s_end; [done | set_solver | constructor]|].
    apply (s_policy (post gives_buf H)); [apply post_mono | | exact Hcov | |].
    { constructor; [apply rank_policy | constructor]. }
    { constructor; [done | by apply lasting_free]. }
    intros p Hp. apply (s_act _ _ _ _ H); [done | set_solver |]. intros m Hm [Ha HK]%Forall_cons.
    destruct (clone_into_ok i n p m) as (r & m' & Hmk & d & _ & (Hb & Hh & Hok & Hres)); [done | done | done | lia |].
    exists r, m'. split; [done|]. intros Hc. split_and!; [by apply Hok | by apply keeps_more |]. exists (gives_buf r).
    split_and!; [apply gives_buf_lasting | |].
    + destruct r; [|constructor]. constructor; [by apply Hres | constructor].
    + apply s_end; [done | done | apply gives_buf_lasting].
Qed.

Lemma release_safe i H : lasting H -> FBuf i ∈ H -> Safe [] [] (listed H) (Release linux i) (post gives_none H).
Proof.
  intros HH Hin. split; [constructor|].
  assert (forall l, H ⊆ l -> Safe [] [Mu i] (listed l) (Unlock (Mu i) (Ret tt)) (post gives_none H)) as Hend.
  { intros l Hl. eapply (s_unlock _ (post_mono gives_none H) _ _ _ H); [apply list_elem_of_here | by apply lasting_free | done |].
    rewrite drop_top. by split_and!. }
  apply s_read; [by apply lasting_covered|]. intros m Hm HK.
  destruct (field_held i bf_released m H Hin HK) as (b & Hb & Hf). destruct (bf_released b) eqn:Hr.
  - exists true, []. split_and!; [done | constructor | constructor |]. by apply Hend.
  - exists false, [FAlive i]. split_and!; [done | constructor; [by exists b | constructor] | |].
    { constructor; [|constructor]. intros x [= <-]. apply list_elem_of_here. }
    clear m Hm HK b Hb Hf Hr. apply (s_act _ _ _ _ H); [done | set_solver |]. intros m Hm [Ha HK]%Forall_cons.
    destruct (release_ok i m Hm Ha) as (m' & Hrel & Hm' & (b & Hb & Hb') & Hh). exists tt, m'. split; [done|]. intros _.
    split_and!; [done | | exists []; split_and!; [constructor | constructor | by apply Hend]].
    intros [j|j|h] Hφ Hg; cbn in *; [by rewrite Hb', length_insert | | by apply Hh].
    destruct Hφ as (b' & Hbj & Hrj). exists b'. rewrite Hb', list_lookup_insert_ne; [done|]. intros <-.
    destruct (Hg (Mu i) eq_refl). apply list_elem_of_here.
Qed.

(** Two buffers made at different times stand in the order they were made. *)
Lemma seq_rank m i b : mem_ok m -> buffers m !! i = Some b -> bf_seq b = rank (Mu i) /\ rank (Mu i) = Z.of_nat i + 1.
Proof.
  intros Hm Hb. split; [by apply (mo_seq _ Hm)|]. pose proof (mo_count _ Hm) as Hc. unfold countable in Hc.
  apply lookup_lt_Some in Hb. cbn. unfold u64. apply Z.mod_small. lia.
Qed.

Lemma alive_contents m i : mem_ok m -> holds (FAlive i) m -> exists d, contents i m = Some d.
Proof.
  intros Hm (b & Hb & Hr). destruct (mo_buffers _ Hm i b Hb) as [_ Hok]. rewrite Hr in Hok. destruct Hok as (pl & n & Hpl & _).
  destruct (owned_read m i pl Hm) as (b' & n1 & d & Hb' & Hpl' & _ & _ & Hd & _); [by exists b, n|].
  exists d. unfold contents. by rewrite Hb, Hpl.
Qed.

(** [Equal] of two buffers, once the order of their locks is settled. *)
Lemma equal_two_safe f s x y H : lasting H -> FBuf x ∈ H -> FBuf y ∈ H -> rank (Mu f) < rank (Mu s) ->
  (x = f /\ y = s) \/ (x = s /\ y = f) ->
  Safe [] [] (listed H) (RLock (Mu f) (RLock (Mu s) (Act (either_released x y) (fun r =>
    if r then RUnlock (Mu s) (RUnlock (Mu f) (Ret false))
    else Act (compare x y) (fun b => RUnlock (Mu s) (RUnlock (Mu f) (Ret b))))))) (post gives_none H).
Proof.
  intros HH Hx Hy Hlt Hxy.
  assert (forall l (a : bool), H ⊆ l -> Safe [Mu s; Mu f] [] (listed l) (RUnlock (Mu s) (RUnlock (Mu f) (Ret a))) (post gives_none H)) as Hend.
  { intros l a Hl. eapply (s_runlock _ (post_mono gives_none H) _ _ _ H); [apply list_elem_of_here | by apply lasting_free | done |].
    rewrite drop_top. apply s_end; [done | done | constructor]. }
  split; [constructor|]. split; [by constructor; [|constructor]|]. apply s_read; [by apply lasting_covered|]. intros m Hm HK.
  destruct (field_held x bf_released m H Hx HK) as (bx & Hbx & _). destruct (field_held y bf_released m H Hy HK) as (by_ & Hby & _).
  unfold either_released. rewrite Hbx, Hby. destruct (bf_released bx || bf_released by_) eqn:Hr.
  - exists true, []. split_and!; [done | constructor | constructor |]. by apply Hend.
  - apply orb_false_iff in Hr as [Hrx Hry]. exists false, [FAlive x; FAlive y].
    assert (covered [Mu s; Mu f] [FAlive x; FAlive y]) as Hcov.
    { constructor; [|constructor; [|constructor]]; intros z [= <-]; destruct Hxy as [[-> ->]|[-> ->]]; rewrite !elem_of_cons; auto. }
    split_and!; [done | constructor; [by exists bx | constructor; [by exists by_ | constructor]] | exact Hcov |].
    clear m Hm HK bx Hbx by_ Hby Hrx Hry. apply s_read.
    { apply Forall_app. split; [exact Hcov | by apply lasting_covered]. }
    intros m Hm [H1 [H2 _]%Forall_cons]%Forall_cons. destruct (alive_contents m x Hm H1) as [dx Hdx].
    destruct (alive_contents m y Hm H2) as [dy Hdy]. unfold compare. rewrite Hdx, Hdy. exists (bool_decide (dx = dy)), [].
    split_and!; [done | constructor | constructor |]. apply Hend. set_solver.
Qed.

Lemma equal_safe i other H : lasting H -> FBuf i ∈ H -> (forall j, other = Some j -> FBuf j ∈ H) ->
  Safe [] [] (listed H) (Equal i other) (post gives_none H).
Proof.
  intros HH Hi Ho. destruct other as [j|]; [|by split_and!]. specialize (Ho j eq_refl). unfold Equal.
  destruct (Nat.eqb_spec i j) as [<-|Hne]; [by apply s_field|].
  apply s_read; [by apply lasting_covered|]. intros m Hm HK.
  destruct (field_held i bf_seq m H Hi HK) as (bi & Hbi & _). destruct (field_held j bf_seq m H Ho HK) as (bj & Hbj & _).
  destruct (seq_rank m i bi Hm Hbi) as [Hsi Hri]. destruct (seq_rank m j bj Hm Hbj) as [Hsj Hrj].
  exists (bf_seq bi, bf_seq bj), []. split_and!; [by unfold seqs; rewrite Hbi, Hbj | constructor | constructor |].
  cbn [app]. rewrite Hsi, Hsj. destruct (Z.ltb_spec (rank (Mu j)) (rank (Mu i))).
  - apply equal_two_safe; [done | done | done | done | by right].
  - apply equal_two_safe; [done | done | done | lia | by left].
Qed.

(** *** Callers *)

Inductive call : Type :=
| CNew (size : Z) | CNewFrom (h : nat) | CBytes (i : nat) | CLen (i : nat) | CLocked (i : nat) | CClone (i : nat)
| CEqual (i : nat) (other : option nat) | CRelease (i : nat) | CCurrentPolicy | CSetPolicy (p : Policy) | CZero (h : nat).

Inductive answer : Type :=
| ABuffer (r : res nat) | ASlice (s : option (place * nat)) | ALen (n : nat) | ABool (b : bool)
| APolicy (p : Policy) | AError (r : res unit) | ADone.

Definition perform (c : call) : Prg answer :=
  match c with
  | CNew size => let# r := New linux size in Ret (ABuffer r)
  | CNewFrom h => let# r := NewFrom linux h in Ret (ABuffer r)
  | CBytes i => let# s := Bytes i in Ret (ASlice s)
  | CLen i => let# n := Len i in Ret (ALen n)
  | CLocked i => let# b := Locked i in Ret (ABool b)
  | CClone i => let# r := Clone linux i in Ret (ABuffer r)
  | CEqual i o => let# b := Equal i o in Ret (ABool b)
  | CRelease i => let# _ := Release linux i in Ret ADone
  | CCurrentPolicy => let# p := CurrentPolicy in Ret (APolicy p)
  | CSetPolicy p => let# r := SetPolicy p in Ret (AError r)
  | CZero h => let# _ := ZeroSlice h in Ret ADone
  end.

(** The handles a call needs, and those its answer gives. *)
Definition uses (c : call) : list fact :=
  match c with
  | CNew _ | CCurrentPolicy | CSetPolicy _ => []
  | CNewFrom h | CZero h => [FHeap h]
  | CBytes i | CLen i | CLocked i | CClone i | CRelease i => [FBuf i]
  | CEqual i o => FBuf i :: match o with Some j => [FBuf j] | None => [] end
  end.

Definition handles (a : answer) : list fact := match a with ABuffer r => gives_buf r | _ => [] end.

(** A thread that makes [n] calls, each with handles it holds, and chooses what to
    call next by what it was answered. *)
Inductive caller : nat -> list fact -> Prg answer -> Prop :=
| caller_done n H a : caller n H (Ret a)
| caller_call n H c k : uses c ⊆ H -> (forall a, caller n (handles a ++ H) (k a)) -> caller (S n) H (bindP (perform c) k).

Lemma then_ret {A} (gives : A -> list fact) H (p : Prg A) (f : A -> answer) : (forall a, handles (f a) = gives a) ->
  Safe [] [] (listed H) p (post gives H) -> Safe [] [] (listed H) (let# a := p in Ret (f a)) (post handles H).
Proof. intros Hf Hp. eapply safe_bind; [exact Hp|]. intros a rd wr K (-> & -> & HK). split_and!; [done | done |]. by rewrite Hf. Qed.

Lemma perform_safe c H : lasting H -> uses c ⊆ H -> Safe [] [] (listed H) (perform c) (post handles H).
Proof.
  intros HH Hu. destruct c as [size|h|i|i|i|i|i o|i| |p|h]; cbn in Hu; cbn [perform];
    first [apply (then_ret gives_buf); [done|] | apply (then_ret gives_none); [done|]].
  - by apply new_safe.
  - apply new_from_safe; set_solver.
  - apply (s_field gives_none i _ (fun r => r)); [done | set_solver | done].
  - apply (s_field gives_none i _ (fun r => r)); [done | set_solver | done].
  - apply (s_field gives_none i _ (fun r => r)); [done | set_solver | done].
  - apply clone_safe; set_solver.
  - apply equal_safe; [done | set_solver | intros j ->; set_solver].
  - apply release_safe; set_solver.
  - by apply policy_safe.
  - by apply set_policy_safe.
  - apply zero_slice_safe; set_solver.
Qed.

Lemma caller_safe n H p : caller n H p -> lasting H -> Safe [] [] (listed H) p unlocked.
Proof.
  induction 1 as [n H a|n H c k Hu Hk IH]; intros HH; [done|].
  eapply safe_bind; [by apply perform_safe|]. intros a rd wr K (-> & -> & HK).
  assert (lasting (handles a ++ H)) as HL.
  { apply Forall_app. split; [|done]. destruct a; try constructor. apply gives_buf_lasting. }
  eapply safe_more; [| |by apply IH]; [|exact HK]. by intros ? ? ? ? ? _.
Qed.

(** No method takes more than twelve operations. *)
Lemma perform_within c : within 12 (perform c).
Proof.
  destruct c as [size|h|i|i|i|i|i [j|]|i| |p|h]; cbn; try done; unfold New, NewFrom, SetPolicy, Equal, ZeroSlice.
  - destruct (_ <=? _); done.
  - intros n. destruct (_ =? _)%nat; done.
  - intros []; [done|]. intros n. destruct (_ =? _)%nat; done.
  - destruct (_ =? _)%nat; [done|]. cbn. intros [si sj]. destruct (_ <? _); cbn; intros []; done.
  - intros []; done.
  - destruct (needs_pages p); done.
  - intros p. destruct (pl_Zero p); done.
Qed.

Lemma caller_within n H p : caller n H p -> within (n * 12) p.
Proof.
  induction 1 as [n H a|n H c k Hu Hk IH]; [done|]. cbn [Nat.mul]. apply within_bind; [apply perform_within | done].
Qed.

End Order.

(** ** Any number of threads *)

Lemma start_ok linux ns ps H m : mem_ok linux m -> lasting H -> Forall (fun φ => holds φ m) H ->
  Forall2 (fun n p => caller linux n H p) ns ps ->
  sys_ok holds guarded (mem_ok linux) countable rank (map fresh_thread ps, m) /\
  Forall2 left_within (map (fun n => n * 12)%nat ns) (map fresh_thread ps).
Proof.
  intros Hm HH HK Hps. split; [split; cbn; [done | |]|].
  - apply Forall_map, Forall_forall. intros p Hp. apply list_elem_of_lookup_1 in Hp as [i Hi].
    destruct (Forall2_lookup_r _ _ _ _ _ Hps Hi) as (n & _ & Hc). split; cbn; [|done]. exists (listed H).
    split_and!; [|by apply Forall_forall | by eapply caller_safe]. intros φ l Hφ Hg.
    by rewrite (proj1 (Forall_forall _ _) HH φ Hφ) in Hg.
  - intros i j t u _ Hi Hj. rewrite list_lookup_fmap in Hi. destruct (ps !! i); [|done]. injection Hi as <-.
    intros l. split; [by intros ?%not_elem_of_nil | done].
  - apply Forall2_fmap. eapply Forall2_impl; [exact Hps|]. intros n p Hc. exact (caller_within _ _ _ _ Hc).
Qed.

(** C40. The memory of the keys is in order at every moment, whatever threads create,
    clone, compare, read and release buffers and however their operations
    interleave, as long as fewer than 2^64 buffers are made: every live buffer has
    memory of its own, of the length it was made with, off the heap and locked and
    kept out of dumps exactly as its policy says; no page is mapped that no live
    buffer owns; pages go back to the kernel unlocked and, under a policy that
    zeroes, as zeros; and no thread is about to touch memory that is gone, nor to
    unlock what it does not hold. *)
Theorem memory_well_formed linux ns ps H m k s : mem_ok linux m -> lasting H -> Forall (fun φ => holds φ m) H ->
  Forall2 (fun n p => caller linux n H p) ns ps -> runs countable k (map fresh_thread ps, m) s ->
  mem_ok linux (snd s) /\ Forall (fun t => ~ faults (snd s) t) (fst s).
Proof.
  intros Hm HH HK Hps Hr. destruct (start_ok linux ns ps H m Hm HH HK Hps) as [Hs Hl].
  destruct (system_ends _ _ _ _ _ _ _ _ _ Hs Hl Hr) as ([Hg _ _] & Hf & _). by split.
Qed.

(** C39. No call on a buffer waits for ever: threads that compare, clone, read and
    release the same buffers never wait on each other in a circle.  A run has at
    most twelve operations for every call, a wait for a mutex among them, and as
    long as a thread has something left to do some thread can go on; so every run
    that is not cut short ends with all calls answered. *)
Theorem calls_end linux ns ps H m k s : mem_ok linux m -> lasting H -> Forall (fun φ => holds φ m) H ->
  Forall2 (fun n p => caller linux n H p) ns ps -> runs countable k (map fresh_thread ps, m) s ->
  (k <= sum_list ns * 12)%nat /\ (Forall finished (fst s) \/ exists s', sys_step s s').
Proof.
  intros Hm HH HK Hps Hr. destruct (start_ok linux ns ps H m Hm HH HK Hps) as [Hs Hl].
  destruct (system_ends _ _ _ _ _ _ _ _ _ Hs Hl Hr) as (_ & _ & Hk & Hp). split; [|done].
  assert (forall l, sum_list (map (fun n => n * 12)%nat l) = (sum_list l * 12)%nat) as Hsum.
  { induction l as [|x l IH]; [done|]. rewrite map_cons. cbn -[Nat.mul]. rewrite IH. lia. }
  by rewrite Hsum in Hk.
Qed.

(** ** One call at a time *)

Lemma alone_field {A B} i (f : Buffer -> B) (g : B -> Prg A) m b : buffers m !! i = Some b ->
  alone (RLock (Mu i) (Act (field i f) g)) m = alone (g (f b)) m.
Proof. intros Hb. cbn. unfold field. by rewrite Hb. Qed.

Lemma alone_equal i j bi bj di dj m : buffers m !! i = Some bi -> buffers m !! j = Some bj ->
  contents i m = Some di -> contents j m = Some dj ->
  alone (Equal i (Some j)) m = Some (negb (bf_released bi) && negb (bf_released bj) && bool_decide (di = dj), m).
Proof.
  intros Hi Hj Hci Hcj. unfold Equal. destruct (Nat.eqb_spec i j) as [<-|].
  - rewrite (alone_field i _ _ m bi Hi). rewrite Hi in Hj. injection Hj as <-. rewrite Hci in Hcj. injection Hcj as <-.
    rewrite bool_decide_true by done. cbn. by destruct (bf_released bi).
  - cbn. unfold seqs. rewrite Hi, Hj. destruct (_ <? _); cbn; unfold either_released; rewrite Hi, Hj, <- negb_orb;
      destruct (bf_released bi || bf_released bj); cbn; try done; unfold compare; by rewrite Hci, Hcj.
Qed.

Lemma some_contents linux m i b : mem_ok linux m -> buffers m !! i = Some b -> exists d,
  contents i m = Some d /\ length d = mem_len b /\ (bf_released b = false -> d <> []).
Proof.
  intros Hm Hb. destruct (mo_buffers _ _ Hm i b Hb) as [_ Hok]. destruct (bf_released b) eqn:Hr.
  - exists []. unfold contents, mem_len. by rewrite Hb, Hok.
  - destruct Hok as (pl & n & Hpl & _). destruct (owned_read linux m i pl Hm) as (b' & n1 & d & Hb' & Hpl' & _ & Hn & Hd & Hl & _).
    { by exists b, n. }
    rewrite Hb in Hb'. injection Hb' as <-. exists d. unfold contents, mem_len. rewrite Hb, Hpl'. split_and!; [done | done |].
    intros _ ->. cbn in Hl. lia.
Qed.

Lemma alone_new_from linux h d m : mem_ok linux m -> heap m !! h = Some d -> d <> [] -> exists r m',
  alone (NewFrom linux h) m = Some (r, m') /\
  match r with
  | Ok k => k = length (buffers m) /\ contents k m' = Some d /\
      heap m' !! h = Some (if pl_Zero (policy m) then zeros (length d) else d)
  | Err _ => heap m' = heap m
  end.
Proof.
  intros Hm Hd Hne. assert (0 < length d)%nat as Hl by (destruct d; [done | cbn; lia]).
  destruct (make_from_ok linux h (length d) (policy m) m d Hm (mo_policy _ _ Hm) Hd Hl) as (r & m' & Hmk & (_ & _ & _ & Hres) & Hh).
  unfold NewFrom. cbn. rewrite Hd. rewrite (proj2 (Nat.eqb_neq (length d) 0)) by lia. cbn. rewrite Hmk. exists r, m'. split; [done|].
  destruct r; [|done]. destruct Hres as (-> & _ & Hcon). by rewrite copy_whole in Hcon.
Qed.

Lemma alone_clone linux i b m : mem_ok linux m -> buffers m !! i = Some b ->
  if bf_released b then alone (Clone linux i) m = Some (Err (Sentinel secmem_ErrReleased), m)
  else exists r m', alone (Clone linux i) m = Some (r, m') /\
    match r with Ok k => k = length (buffers m) /\ contents k m' = contents i m | Err _ => True end.
Proof.
  intros Hm Hb. destruct (bf_released b) eqn:Hr; unfold Clone; rewrite (alone_field i _ _ m b Hb), Hr; [done|].
  destruct (some_contents linux m i b Hm Hb) as (d & Hd & Hl & Hne). cbn. unfold field. rewrite Hb.
  assert (0 < mem_len b)%nat as Hpos by (rewrite <- Hl; destruct d; [by destruct (Hne Hr) | cbn; lia]).
  rewrite (proj2 (Nat.eqb_neq (mem_len b) 0)) by lia. cbn.
  destruct (clone_into_ok linux i (mem_len b) (policy m) m Hm (mo_policy _ _ Hm)) as (r & m' & Hmk & d' & Hd' & (_ & _ & _ & Hres));
    [by exists b | done |].
  rewrite Hmk. exists r, m'. split; [done|]. destruct r; [|done]. destruct Hres as (-> & _ & ->). split; [done|].
  rewrite Hd in Hd'. injection Hd' as <-. by rewrite Hd, <- Hl, copy_whole.
Qed.

Lemma alone_release linux i b m : mem_ok linux m -> buffers m !! i = Some b -> exists m',
  alone (Release linux i) m = Some (tt, m') /\ mem_ok linux m' /\ buffers m' = <[i := dead b]> (buffers m).
Proof.
  intros Hm Hb. unfold Release. cbn. unfold field. rewrite Hb. destruct (bf_released b) eqn:Hr; cbn.
  - exists m. split_and!; [done | done |]. rewrite list_insert_id; [done|]. rewrite Hb. f_equal.
    destruct (mo_buffers _ _ Hm i b Hb) as [_ Hok]. rewrite Hr in Hok. destruct b; cbn in *. by subst.
  - destruct (release_ok linux i m Hm) as (m' & Hrel & Hm' & (b' & Hb' & Hbs) & _); [by exists b|].
    rewrite Hrel. rewrite Hb in Hb'. injection Hb' as <-. by exists m'.
Qed.

(** What the calls on a buffer come to.  [NewFrom] moves a secret: the new
    buffer holds the bytes of the source, which is cleared when the policy zeroes;
    a creation that fails leaves the source as it was.  [Equal] tells whether both
    buffers are alive and hold the same bytes, in either order of the two.  A
    clone holds the bytes of its buffer, and a released buffer cannot be cloned.
    After [Release] the buffer has no bytes and no length, is not locked and equals
    nothing, itself included, and a second release changes nothing. *)
Theorem buffer_calls linux m i b : mem_ok linux m -> buffers m !! i = Some b ->
  (forall h d, heap m !! h = Some d -> d <> [] -> exists r m', alone (NewFrom linux h) m = Some (r, m') /\
    match r with
    | Ok k => k = length (buffers m) /\ contents k m' = Some d /\
        heap m' !! h = Some (if pl_Zero (policy m) then zeros (length d) else d)
    | Err _ => heap m' = heap m
    end) /\
  (forall j bj, buffers m !! j = Some bj ->
    alone (Equal i (Some j)) m =
      Some (negb (bf_released b) && negb (bf_released bj) && bool_decide (contents i m = contents j m), m) /\
    alone (Equal j (Some i)) m = alone (Equal i (Some j)) m) /\
  (if bf_released b then alone (Clone linux i) m = Some (Err (Sentinel secmem_ErrReleased), m)
   else exists r m', alone (Clone linux i) m = Some (r, m') /\
     match r with Ok k => k = length (buffers m) /\ contents k m' = contents i m | Err _ => True end) /\
  (exists m', alone (Release linux i) m = Some (tt, m') /\
    alone (Bytes i) m' = Some (None, m') /\ alone (Len i) m' = Some (0%nat, m') /\ alone (Locked i) m' = Some (false, m') /\
    alone (Clone linux i) m' = Some (Err (Sentinel secmem_ErrReleased), m') /\
    (forall j, (j < length (buffers m'))%nat -> alone (Equal i (Some j)) m' = Some (false, m')) /\
    alone (Release linux i) m' = Some (tt, m')).
Proof.
  intros Hm Hb. split_and!; [intros h d; by apply alone_new_from | | exact (alone_clone linux i b m Hm Hb) |].
  - intros j bj Hj. destruct (some_contents linux m i b Hm Hb) as (di & Hdi & _).
    destruct (some_contents linux m j bj Hm Hj) as (dj & Hdj & _).
    rewrite (alone_equal i j b bj di dj m), (alone_equal j i bj b dj di m), Hdi, Hdj by done. split.
    + do 3 f_equal. by apply bool_decide_ext; split; [intros -> | intros [=]].
    + do 2 f_equal. rewrite (andb_comm (negb (bf_released bj))). f_equal. by apply bool_decide_ext; split.
  - destruct (alone_release linux i b m Hm Hb) as (m' & Hrel & Hm' & Hbs). exists m'.
    assert (buffers m' !! i = Some (dead b)) as Hb' by (rewrite Hbs; apply list_lookup_insert_eq; by eapply lookup_lt_Some).
    split_and!; [done | | | | exact (alone_clone linux i _ m' Hm' Hb') | |].
    + unfold Bytes. by rewrite (alone_field i _ _ m' _ Hb').
    + unfold Len. by rewrite (alone_field i _ _ m' _ Hb').
    + unfold Locked. rewrite (alone_field i _ _ m' _ Hb'). cbn. by rewrite andb_false_r.
    + intros j [bj Hj]%lookup_lt_is_Some. destruct (some_contents linux m' i _ Hm' Hb') as (di & Hdi & _).
      destruct (some_contents linux m' j bj Hm' Hj) as (dj & Hdj & _). by rewrite (alone_equal i j _ bj di dj m' Hb' Hj Hdi Hdj).
    + unfold Release. cbn. unfold field. by rewrite Hb'.
Qed.

(** ** Two buffers shared by four threads *)

Module SecmemDemo.

Definition boot : Memory :=
  {| heap := {[0%nat := str "key"]}; pages := ∅; next := 1; back := []; buffers := []; created := 0; policy := Protected;
     kernel := replicate 20 true; dumpable := true; cores := true |}.

Lemma boot_ok : mem_ok true boot.
Proof.
  split; try done.
  - intros i j pl (b & n & Hb & _). cbn in Hb. by rewrite lookup_nil in Hb.
  - intros q [pg Hq]. discriminate Hq.
  - cbn. split; [|intros q [pg Hq]; discriminate Hq]. intros h Hh. apply lookup_singleton_is_Some in Hh as <-. lia.
Qed.

Definition first := Eval vm_compute in make_buffer true 32 Protected None boot.
Definition one : Memory := Eval vm_compute in match first with Some (_, m) => m | None => boot end.
Definition second := Eval vm_compute in make_buffer true 32 Protected None one.
Definition two : Memory := Eval vm_compute in match second with Some (_, m) => m | None => boot end.

Lemma made_ok m r m' : mem_ok true m -> make_buffer true 32 Protected None m = Some (r, m') -> countable m' -> mem_ok true m'.
Proof.
  intros Hm E Hc. destruct (make_buffer_ok true 32 Protected None m Hm eq_refl) as (r' & m1 & E' & (_ & _ & Hok & _) & _); [lia|].
  rewrite E in E'. injection E' as <- <-. by apply Hok.
Qed.

Lemma two_ok : mem_ok true two.
Proof.
  apply (made_ok one (Ok 1%nat)); [|vm_compute; reflexivity | vm_compute; reflexivity].
  apply (made_ok boot (Ok 0%nat)); [apply boot_ok | vm_compute; reflexivity | vm_compute; reflexivity].
Qed.

Definition handles_held : list fact := [FBuf 0; FBuf 1; FHeap 0].

Lemma held : Forall (fun φ => holds φ two) handles_held.
Proof. repeat constructor; cbn; try lia. exists (str "key"). vm_compute. reflexivity. Qed.

Definition once (c : call) : Prg answer := bindP (perform true c) Ret.
Definition twice (c d : call) : Prg answer := bindP (perform true c) (fun _ => once d).

Definition threads : list (Prg answer) :=
  [once (CEqual 0 (Some 1%nat)); once (CEqual 1 (Some 0%nat)); twice (CNewFrom 0) (CRelease 0); once (CRelease 1)].

Lemma threads_call : Forall2 (fun n p => caller true n handles_held p) [1; 1; 2; 1]%nat threads.
Proof.
  assert (forall c n l, uses c ⊆ l -> caller true (S n) l (once c)) as Honce.
  { intros c n l Hc. apply caller_call; [done|]. intros a. constructor. }
  unfold handles_held. apply Forall2_cons; split; [apply Honce; set_solver|]. apply Forall2_cons; split; [apply Honce; set_solver|].
  apply Forall2_cons; split; [|apply Forall2_cons; split; [apply Honce; set_solver | constructor]].
  apply caller_call; [set_solver|]. intros a. apply Honce. set_solver.
Qed.

Definition small (m : Memory) : bool := (length (buffers m) <? 10)%nat.

Lemma small_countable m : small m = true -> countable m.
Proof. unfold small, countable. intros ?%Nat.ltb_lt. lia. Qed.

Definition answers (s : System Memory lockid answer) : list (option answer) :=
  map (fun t => match th_prog t with Ret a => Some a | _ => None end) (fst s).

(** Both comparisons wait for the locks, and the releases come first. *)
Definition turns : list nat :=
  [0; 1; 2; 3; 0; 1; 2; 3; 2; 3; 2; 3; 2; 3; 0; 1; 2; 0; 1; 0; 1; 0; 1; 2; 2; 2; 2]%nat.

Definition begin : System Memory lockid answer := (map fresh_thread threads, two).

Lemma turns_answers : option_map answers (schedule small turns begin) =
  Some [Some (ABool false); Some (ABool false); Some ADone; Some ADone].
Proof. vm_compute. reflexivity. Qed.

Lemma run_schedule o l : option_map answers (schedule small turns o) = Some l ->
  exists s, answers s = l /\ runs countable 27 o s.
Proof.
  intros H. destruct (schedule small turns o) as [s|] eqn:E; [|done]. injection H as <-.
  exists s. split; [done|]. exact (schedule_runs countable small turns o s E small_countable).
Qed.

Lemma runs_turns : exists s, answers s = [Some (ABool false); Some (ABool false); Some ADone; Some ADone] /\
  runs countable 27 begin s.
Proof. exact (run_schedule begin _ turns_answers). Qed.

End SecmemDemo.

Lemma memory_well_formed_witness : exists s, SecmemDemo.answers s = [Some (ABool false); Some (ABool false); Some ADone; Some ADone] /\
  mem_ok true (snd s) /\ Forall (fun t => ~ faults (snd s) t) (fst s).
Proof.
  destruct SecmemDemo.runs_turns as (s & Hs & Hr). exists s. split; [exact Hs|].
  refine (memory_well_formed true [1; 1; 2; 1]%nat SecmemDemo.threads SecmemDemo.handles_held SecmemDemo.two 27 s _ _ _ _ Hr).
  - exact SecmemDemo.two_ok.
  - repeat constructor.
  - exact SecmemDemo.held.
  - exact SecmemDemo.threads_call.
Defined.

Lemma calls_end_witness : exists s, SecmemDemo.answers s = [Some (ABool false); Some (ABool false); Some ADone; Some ADone] /\ (27 <= 60)%nat /\
  (Forall finished (fst s) \/ exists s', sys_step s s').
Proof.
  destruct SecmemDemo.runs_turns as (s & Hs & Hr). exists s. split; [exact Hs|].
  refine (calls_end true [1; 1; 2; 1]%nat SecmemDemo.threads SecmemDemo.handles_held SecmemDemo.two 27 s _ _ _ _ Hr).
  - exact SecmemDemo.two_ok.
  - repeat constructor.
  - exact SecmemDemo.held.
  - exact SecmemDemo.threads_call.
Defined.

Lemma buffer_calls_witness : exists b, buffers SecmemDemo.two !! 0%nat = Some b /\
  exists r m', alone (NewFrom true 0) SecmemDemo.two = Some (r, m') /\
    match r with
    | Ok k => k = 2%nat /\ contents k m' = Some (str "key") /\ heap m' !! 0%nat = Some (zeros 3)
    | Err _ => heap m' = heap SecmemDemo.two
    end.
Proof.
  eexists. split; [vm_compute; reflexivity|].
  exact (proj1 (buffer_calls true SecmemDemo.two 0 _ SecmemDemo.two_ok eq_refl) 0%nat (str "key") eq_refl ltac:(discriminate)).
Defined.
