(* ===== verification/Startup.v ===== *)
(** * Startup: key memory before the first key

    What each command does with the flags [-keymem] and [-harden] before it makes a
    key: [protectKeyMemory] of [src/cmd/jimichi/enroll.go] and the same part of the
    two other commands, [src/cmd/client/main.go] and [src/cmd/relay/main.go].  Nothing else runs
    then, so the calls of [Secmem.v] run one after the other.  The limit on locked
    memory that the kernel reports is an argument.  Left out: the texts of the
    refusals and the warning. *)

From Stdlib Require Import Strings.Byte Strings.String.
From S2P Require Import Prelude Effects Locks Crypto Text Secmem.

Section Startup.
Context (linux : bool).

(** [ParsePolicy], [SetPolicy] and [HardenProcess]; the policy that is set. *)
Definition set_measures (keymem : bytes) (harden : bool) (m : Memory) : option (res Policy * Memory) :=
  match ParsePolicy keymem with
  | Err e => Some (Err e, m)
  | Ok policy =>
      match alone (SetPolicy policy) m with
      | None => None
      | Some (Err e, m) => Some (Err e, m)
      | Some (Ok _, m) =>
          let '(r, m) := if harden then HardenProcess linux m else (Ok tt, m) in
          match r with
          | Err e => Some (Err (ErrHide e), m)
          | Ok _ => Some (Ok policy, m)
          end
      end
  end.

(** A buffer made to see whether it is locked, and released. *)
Definition probe (m : Memory) : option (res bool * Memory) :=
  match alone (New linux 32) m with
  | None => None
  | Some (Err e, m) => Some (Err (ErrHide e), m)
  | Some (Ok b, m) =>
      match alone (Locked b) m with
      | None => None
      | Some (locked, m) =>
          match alone (Release linux b) m with
          | None => None
          | Some (_, m) => Some (Ok locked, m)
          end
      end
  end.

Definition errNotLocked : error := Other "key memory is not locked".

(** The client, and the operator before it makes the CA key. *)
Definition clientMemory (keymem : bytes) (harden : bool) (m : Memory) : option (res Policy * Memory) :=
  match set_measures keymem harden m with
  | Some (Ok policy, m) =>
      if pl_Lock policy then
        match probe m with
        | Some (Ok locked, m) => Some (if negb locked then Err errNotLocked else Ok policy, m)
        | Some (Err e, m) => Some (Err e, m)
        | None => None
        end
      else Some (Ok policy, m)
  | r => r
  end.

(** The measures the operator is warned about. *)
Definition missing (policy : Policy) (harden : bool) : list string :=
  (if pl_Lock policy then [] else ["locked memory"%string]) ++ (if harden then [] else ["process hardening"%string]).

Definition protectKeyMemory (keymem : bytes) (harden : bool) (m : Memory) : option (res (list string) * Memory) :=
  match clientMemory keymem harden m with
  | Some (Ok policy, m) => Some (Ok (missing policy harden), m)
  | Some (Err e, m) => Some (Err e, m)
  | None => None
  end.

(** A relay asks for the limit instead, and looks at each key as it is made. *)
Definition minMemlock : Z := Z.shiftl 80 10.

Definition checkMemlock (budget : res Z) : res unit :=
  let? b := budget in
  if b <? minMemlock then Err (Other "RLIMIT_MEMLOCK is too low to lock key pages") else Ok tt.

Definition relayMemory (keymem : bytes) (harden : bool) (budget : res Z) (m : Memory) : option (res Policy * Memory) :=
  match set_measures keymem harden m with
  | Some (Ok policy, m) => Some (let? _ := if pl_Lock policy then checkMemlock budget else Ok tt in Ok policy, m)
  | r => r
  end.

End Startup.

(** ** What the calls leave alone *)

(** The settings of the process. *)
Definition settings (m : Memory) : Policy * bool * bool := (policy m, dumpable m, cores m).

Lemma ask_settings m : settings (snd (ask m)) = settings m.
Proof. unfold ask. by destruct (kernel m). Qed.

Lemma Munmap_settings p q m : settings (Munmap p q m) = settings m.
Proof. unfold Munmap. by destruct (pages m !! q). Qed.

Lemma alloc_settings linux size p m : settings (snd (alloc linux size p m)) = settings m.
Proof.
  unfold alloc, alloc_linux, alloc_other. destruct linux; [|done]. destruct (negb (pl_OffHeap p)); [done|].
  pose proof (ask_settings m) as H1. destruct (ask m) as [[] m1]; cbn in H1 |- *; [|done].
  set (m2 := set_next _ _). assert (settings m2 = settings m) as H2 by exact H1. clearbody m2.
  assert (settings (snd (if pl_DontDump p then ask m2 else (true, m2))) = settings m) as H3
    by (destruct (pl_DontDump p); [by rewrite ask_settings | done]).
  destruct (if pl_DontDump p then _ else _) as [[] m3]; cbn in H3 |- *; [|by rewrite Munmap_settings].
  set (m4 := set_page _ _ m3). assert (settings m4 = settings m) as H4 by exact H3. clearbody m4.
  destruct (negb (pl_Lock p)); [done|]. pose proof (ask_settings m4) as H5.
  destruct (ask m4) as [[] m5]; cbn in H5 |- *; [|rewrite Munmap_settings]; (etrans; [exact H5 | exact H4]).
Qed.

Lemma write_settings pl d m m' : write_place pl d m = Some m' -> settings m' = settings m.
Proof. unfold write_place. destruct pl as [h|q]; [destruct (heap m !! h) | destruct (pages m !! q)]; by intros [= <-]. Qed.

Lemma unmap_settings pl locked p m : settings (unmap pl locked p m) = settings m.
Proof. unfold unmap. destruct pl; [done|]. rewrite Munmap_settings. by destruct (pages m !! q), locked. Qed.

Lemma free_settings linux mem locked p m m' : free linux mem locked p m = Some m' -> settings m' = settings m.
Proof.
  unfold free. destruct mem as [[pl n]|]; [|by intros [= <-]].
  assert (forall m1, (if pl_Zero p then zero pl m else Some m) = Some m1 -> settings m1 = settings m) as Hz.
  { intros m1. destruct (pl_Zero p); [|by intros [= <-]]. unfold zero. destruct (read_place m pl); [apply write_settings | done]. }
  destruct (if pl_Zero p then _ else _) as [m1|]; [|done]. intros [= <-].
  destruct (linux && pl_OffHeap p); rewrite ?unmap_settings; by apply Hz.
Qed.

(** A buffer of zeros, as [New] makes it, is locked where the policy says so and
    there are pages to lock. *)
Lemma alone_new linux size m : mem_ok linux m -> Z.of_nat (length (buffers m)) + 1 < 2 ^ 64 -> 0 < size -> exists r m',
  alone (New linux size) m = Some (r, m') /\ mem_ok linux m' /\ settings m' = settings m /\
  (length (buffers m') <= length (buffers m) + 1)%nat /\
  match r with
  | Err _ => True
  | Ok i => exists b, buffers m' !! i = Some b /\ bf_released b = false /\ bf_locked b = linux && pl_Lock (policy m)
  end.
Proof.
  intros Hm Hc Hs. unfold New. rewrite (proj2 (Z.leb_gt size 0)) by done. cbn.
  destruct (make_buffer_ok linux (Z.to_nat size) (policy m) None m Hm (mo_policy _ _ Hm)) as (r & m' & Hmk & (Hb & _ & Hok & _) & _ & Hr); [lia|].
  rewrite Hmk. exists r, m'.
  assert (settings m' = settings m /\ (length (buffers m') <= length (buffers m) + 1)%nat) as [Hset Hlen].
  { revert Hmk. unfold make_buffer. pose proof (alloc_settings linux (Z.to_nat size) (policy m) m) as Ha.
    destruct (alloc _ _ _ m) as [[[pl locked]|e] m1] eqn:E; apply (alloc_spec _ _ _ _ _ _ Hm) in E as [R _]; cbn in Ha;
      intros [= <- <-]; cbn; rewrite ?length_app, (sr_buffers _ _ R); cbn; split; [exact Ha | lia | exact Ha | lia]. }
  assert (mem_ok linux m') as Hm' by (apply Hok; unfold countable; lia).
  split_and!; try done. destruct r as [i|e]; [|done]. destruct Hr as (b & pl & Hbi & Hpl & Hrel & Hpol & _).
  exists b. split_and!; [done | done |]. destruct (mo_buffers _ _ Hm' i b Hbi) as [Hnp Hbo]. rewrite Hrel in Hbo.
  destruct Hbo as (pl' & n & Hpl' & _ & Hplace). rewrite Hpl in Hpl'. injection Hpl' as <- <-. rewrite Hpol in *.
  destruct pl as [h|q]; cbn in Hplace.
  - destruct Hplace as (Hoff & -> & _). destruct linux; [|done]. cbn in Hoff |- *. by destruct (needs_pages_off _ Hnp Hoff) as [-> _].
  - destruct Hplace as (Hon & -> & _). by destruct linux.
Qed.

Lemma alone_release_settings linux i b m m' : buffers m !! i = Some b -> alone (Release linux i) m = Some (tt, m') -> settings m' = settings m.
Proof.
  intros Hb. unfold Release. cbn. unfold field. rewrite Hb. destruct (bf_released b); cbn; [by intros [= <-]|].
  unfold release_now. rewrite Hb. destruct (free linux _ _ _ m) as [m1|] eqn:Ef; [|done]. intros [= <-]. by apply free_settings in Ef.
Qed.

(** The probe tells whether keys will be locked, and leaves nothing behind. *)
Lemma probe_ok linux m : mem_ok linux m -> Z.of_nat (length (buffers m)) + 1 < 2 ^ 64 -> exists r m',
  probe linux m = Some (r, m') /\ mem_ok linux m' /\ settings m' = settings m /\
  forall locked, r = Ok locked -> locked = linux && pl_Lock (policy m).
Proof.
  intros Hm Hc. unfold probe. destruct (alone_new linux 32 m Hm Hc) as (r & m1 & -> & Hm1 & Hs1 & _ & Hr); [done|].
  destruct r as [i|e]; [|by eexists _, m1]. destruct Hr as (b & Hb & Hrel & Hl). unfold Locked. rewrite (alone_field i _ _ m1 b Hb). cbn [alone].
  destruct (alone_release linux i b m1 Hm1 Hb) as (m2 & Hfree & Hm2 & _). pose proof (alone_release_settings _ _ _ _ _ Hb Hfree) as Hs2.
  rewrite Hfree. exists (Ok (bf_locked b && negb (bf_released b))), m2. split_and!; [done | done | congruence |].
  intros locked [= <-]. by rewrite Hrel, andb_true_r.
Qed.

Lemma HardenProcess_ok linux m r m' : mem_ok linux m -> HardenProcess linux m = (r, m') ->
  mem_ok linux m' /\ policy m' = policy m /\ buffers m' = buffers m /\
  (r = Ok tt -> linux = true /\ dumpable m' = false /\ cores m' = false).
Proof.
  intros Hm. unfold HardenProcess. destruct linux; [|by intros [= <- <-]; split_and!].
  assert (forall m2, same_rest m m2 -> heap m2 = heap m -> pages m2 = pages m -> mem_ok true m2 /\ policy m2 = policy m /\ buffers m2 = buffers m) as Hk.
  { intros m2 R Hh Hp. split; [by eapply mem_ok_rest | by destruct R]. }
  destruct (ask m) as [b1 m1] eqn:E1. apply ask_rest in E1 as (R1 & Hh1 & Hp1 & _).
  destruct b1; cbn [negb]; [|intros [= <- <-]; destruct (Hk m1 R1 Hh1 Hp1) as (? & ? & ?); by split_and!].
  pose proof (ask_settings (set_dumpable false m1)) as Hd. destruct (ask (set_dumpable false m1)) as [b2 m2] eqn:E2.
  assert (dumpable m2 = false) as Hd2 by (unfold settings in Hd; cbn in Hd; congruence). clear Hd.
  apply ask_rest in E2 as (R2 & Hh2 & Hp2 & _).
  assert (same_rest m m2) as R by (eapply same_rest_trans; [exact R1|]; eapply same_rest_trans; [|exact R2]; by split).
  destruct (Hk m2 R) as (K1 & K2 & K3); [by rewrite Hh2 | by rewrite Hp2 |].
  destruct b2; cbn [negb]; intros [= <- <-]; [|by split_and!]. split_and!; try done. by destruct K1.
Qed.

(** The measures are those of the flags, or the command stops. *)
Lemma set_measures_ok linux keymem harden m : mem_ok linux m -> exists r m', set_measures linux keymem harden m = Some (r, m') /\
  mem_ok linux m' /\ buffers m' = buffers m /\
  forall p, r = Ok p -> ParsePolicy keymem = Ok p /\ needs_pages p = false /\ policy m' = p /\
    (harden = true -> linux = true /\ dumpable m' = false /\ cores m' = false).
Proof.
  intros Hm. unfold set_measures. destruct (ParsePolicy keymem) as [p|e]; [|by exists (Err e), m].
  unfold SetPolicy. destruct (needs_pages p) eqn:Hp; cbn [alone]; [by eexists _, m|].
  assert (mem_ok linux (set_policy p m)) as Hm1 by (destruct Hm; by split). destruct harden.
  - destruct (HardenProcess linux (set_policy p m)) as [r m'] eqn:Eh. destruct (HardenProcess_ok _ _ _ _ Hm1 Eh) as (Hm' & Hpol & Hbuf & Hok).
    destruct r as [[]|e]; [|by eexists _, m']. exists (Ok p), m'. split_and!; try done. intros ? [= <-]. split_and!; try done; intros _; by apply Hok.
  - exists (Ok p), (set_policy p m). split_and!; try done. by intros ? [= <-].
Qed.

(** A command that goes on past its first steps has what its flags ask for: the
    policy is in force, the process is hardened if that was asked, and where keys
    are to be locked the kernel has locked a page, so the host is linux.  The steps
    always end, and leave the memory in order. *)
Theorem key_memory linux keymem harden m : mem_ok linux m -> Z.of_nat (length (buffers m)) + 1 < 2 ^ 64 ->
  exists r m', clientMemory linux keymem harden m = Some (r, m') /\ mem_ok linux m' /\
    forall p, r = Ok p -> ParsePolicy keymem = Ok p /\ policy m' = p /\ (pl_Lock p = true -> linux = true) /\
      (harden = true -> linux = true /\ dumpable m' = false /\ cores m' = false).
Proof.
  intros Hm Hc. unfold clientMemory. destruct (set_measures_ok linux keymem harden m Hm) as (r & m1 & -> & Hm1 & Hb1 & Hr).
  destruct r as [p|e]; [|by exists (Err e), m1]. destruct (Hr p eq_refl) as (Hparse & _ & Hpol & Hh). destruct (pl_Lock p) eqn:Hlock.
  2: { exists (Ok p), m1. split_and!; try done. intros ? [= <-]. by rewrite Hlock. }
  destruct (probe_ok linux m1 Hm1) as (r' & m2 & -> & Hm2 & Hs & Hl); [by rewrite Hb1|]. rewrite Hpol, Hlock, andb_true_r in Hl.
  unfold settings in Hs. destruct r' as [locked|e]; [|by eexists _, m2]. rewrite (Hl locked eq_refl).
  eexists _, m2. split_and!; [done | done |]. destruct linux; [|done]. intros ? [= <-]. split_and!; [done | congruence | done |].
  intros Ht. destruct (Hh Ht) as (_ & ? & ?). split_and!; congruence.
Qed.

(** A relay that goes on has room for the pages it will lock. *)
Theorem relay_memory linux keymem harden budget m : mem_ok linux m -> exists r m',
  relayMemory linux keymem harden budget m = Some (r, m') /\ mem_ok linux m' /\
  forall p, r = Ok p -> policy m' = p /\ (pl_Lock p = true -> exists b, budget = Ok b /\ 80 * 1024 <= b).
Proof.
  intros Hm. unfold relayMemory. destruct (set_measures_ok linux keymem harden m Hm) as (r & m1 & -> & Hm1 & _ & Hr).
  destruct r as [p|e]; [|by exists (Err e), m1]. eexists _, m1. split_and!; [done | done |]. intros p' H.
  destruct (Hr p eq_refl) as (_ & _ & Hpol & _). destruct (pl_Lock p) eqn:Hl.
  - apply rbind_ok in H as ([] & Hb & [= <-]). split; [done|]. intros _. unfold checkMemlock in Hb. apply rbind_ok in Hb as (b & -> & Hb).
    exists b. split; [done|]. destruct (Z.ltb_spec b minMemlock); [done|]. by change (80 * 1024) with minMemlock.
  - injection H as <-. split; [done|]. by rewrite Hl.
Qed.

(** ** Evaluation *)

Module StartupDemo.

Definition fresh (kernel : list bool) : Memory :=
  {| heap := ∅; pages := ∅; next := 0; back := []; buffers := []; created := 0; policy := Protected; kernel := kernel; dumpable := true; cores := true |}.

Definition started (linux : bool) (keymem : string) (harden : bool) (kernel : list bool) : option (bool * bool * nat) :=
  match protectKeyMemory linux (str keymem) harden (fresh kernel) with
  | Some (r, m) => Some (is_ok r, dumpable m, size (pages m))
  | None => None
  end.

Example measures_taken : map (fun '(l, k, h, a) => started l k h a)
  [(true, "all"%string, true, [true; true; true; true; true]); (true, "all"%string, true, [true; true; true; true; false]);
   (true, "zero"%string, false, []); (false, "zero"%string, false, []); (false, "all"%string, false, []); (true, "lock"%string, false, [true; true])]
  = [Some (true, false, 0%nat); Some (false, false, 0%nat); Some (true, true, 0%nat); Some (true, true, 0%nat); Some (false, true, 0%nat);
     Some (false, true, 0%nat)].
Proof. vm_compute. reflexivity. Qed.

End StartupDemo.
