(* ===== verification/Cert.v ===== *)
(** * Cert: certificates, descriptors and requests as bytes

    Models the encodings of [src/pki/cert.go], [src/pki/descriptor.go] and
    [src/pki/request.go]: the writer and reader, the three objects, what is
    signed of each and how each is parsed.  Go arrays are byte strings whose
    length the well-formedness of the object fixes; signed 64-bit times are
    integers in that range. *)

From Stdlib Require Import Strings.Byte Strings.String.
From S2P Require Import Prelude Effects Crypto Addr.

Definition Version : Z := 1.
Definition SerialSize : nat := 16.
Definition IDSize : nat := 8.
Definition NonceSize : nat := 16.
Definition HashSize : nat := 32.
Definition maxKey : nat := 128.
Definition maxSig : nat := 128.

Definition certDomain : bytes := str "jimichi/cert/v1" ++ [x00].
Definition descriptorDomain : bytes := str "jimichi/descriptor/v1" ++ [x00].
Definition requestDomain : bytes := str "jimichi/csr/v1" ++ [x00].

(** ** Suites by name, from anchor.go *)

Definition suiteByName (name : bytes) : option Z :=
  List.find (fun s => bool_decide (Suite_String s = name)) [SuiteGOST; SuiteC25519].

Definition knownSuite (s : Z) : bool :=
  match suiteByName (Suite_String s) with Some _ => true | None => false end.

Lemma suiteByName_String s : Crypto.knownSuite s = true -> suiteByName (Suite_String s) = Some s.
Proof. by intros [-> | ->]%known_cases. Qed.

Lemma suiteByName_some n s : suiteByName n = Some s -> Crypto.knownSuite s = true /\ n = Suite_String s.
Proof.
  unfold suiteByName. cbn [List.find]. case_bool_decide as H1; [by intros [= <-]|].
  case_bool_decide as H2; [by intros [= <-]|]. discriminate.
Qed.

(** Both packages know the same suites. *)
Lemma knownSuite_same s : knownSuite s = Crypto.knownSuite s.
Proof.
  unfold knownSuite, Crypto.knownSuite, Suite_String.
  destruct (Z.eqb_spec s SuiteGOST) as [->|]; [done|]. by destruct (Z.eqb_spec s SuiteC25519) as [->|].
Qed.

(** ** The writer: each method as what it appends *)

Definition w_header (s : Z) : bytes := [byte_of_Z Version; byte_of_Z s].
Definition w_u32 (v : Z) : bytes := be 4 v.
Definition w_i64 (v : Z) : bytes := be 8 v.
Definition w_field (p : bytes) : bytes := byte_of_Z (Z.of_nat (length p)) :: p.

(** ** The reader *)

Record reader : Type := { rd_b : bytes; rd_bad : bool }.

Definition Rd (A : Type) : Type := reader -> A * reader.

Definition rd_bind {A B} (m : Rd A) (k : A -> Rd B) : Rd B := fun r => let '(a, r') := m r in k a r'.

Notation "'let%' x ':=' m 'in' k" := (rd_bind m (fun x => k))
  (at level 10, x pattern, m at level 100, k at level 200) : go_scope.

Definition rd_take (n : nat) : Rd (option bytes) := fun r =>
  if rd_bad r || (length (rd_b r) <? n)%nat then (None, {| rd_b := rd_b r; rd_bad := true |})
  else (Some (take n (rd_b r)), {| rd_b := drop n (rd_b r); rd_bad := rd_bad r |}).

Definition rd_failed : Rd unit := fun r => (tt, {| rd_b := rd_b r; rd_bad := true |}).

Definition rd_header : Rd (res Z) :=
  let% v := rd_take 1 in
  let% s := rd_take 1 in
  fun r =>
    match v, s with
    | Some (v :: _), Some (s :: _) =>
        if rd_bad r then (Err (Sentinel pki_ErrFormat), r)
        else if negb (Z_of_byte v =? Version) then (Err (Sentinel pki_ErrVersion), r)
        else if negb (knownSuite (Z_of_byte s)) then (Err (Sentinel pki_ErrSuite), r)
        else (Ok (Z_of_byte s), r)
    | _, _ => (Err (Sentinel pki_ErrFormat), r)
    end.

(** [copy] into a zeroed array of [n] bytes. *)
Definition rd_fixed (n : nat) : Rd bytes :=
  let% b := rd_take n in
  fun r => (match b with Some b => b | None => replicate n x00 end, r).

Definition rd_u32 : Rd Z :=
  let% b := rd_take 4 in
  fun r => (match b with Some b => unbe b | None => 0 end, r).

Definition rd_i64 : Rd Z :=
  let% b := rd_take 8 in
  fun r => (match b with Some b => i64 (unbe b) | None => 0 end, r).

Definition rd_field (minLen maxLen : nat) : Rd bytes :=
  let% n := rd_take 1 in
  match n with
  | Some (n :: _) =>
      let n := Z.to_nat (Z_of_byte n) in
      if (n <? minLen)%nat || (maxLen <? n)%nat then let% _ := rd_failed in fun r => ([], r)
      else let% b := rd_take n in fun r => (default [] b, r)
  | _ => fun r => ([], r)
  end.

Definition rd_end (r : reader) : res unit :=
  if rd_bad r || negb (length (rd_b r) =? 0)%nat then Err (Sentinel pki_ErrFormat) else Ok tt.

(** ** The objects *)

Record Cert : Type := {
  ct_Suite : Z;
  ct_Serial : bytes;
  ct_CAID : bytes;
  ct_NotBefore : Z;
  ct_NotAfter : Z;
  ct_Name : bytes;
  ct_Addr : bytes;
  ct_Identity : bytes;
  ct_Sig : bytes
}.

Record Descriptor : Type := {
  de_Suite : Z;
  de_Epoch : Z;
  de_Published : Z;
  de_Expires : Z;
  de_CertHash : bytes;
  de_LinkPub : bytes;
  de_OnionPub : bytes;
  de_Sig : bytes
}.

Record Request : Type := {
  rq_Suite : Z;
  rq_Nonce : bytes;
  rq_Name : bytes;
  rq_Addr : bytes;
  rq_Identity : bytes;
  rq_Sig : bytes
}.

Definition Cert_body (c : Cert) : bytes :=
  w_header (ct_Suite c) ++ ct_Serial c ++ ct_CAID c ++ w_i64 (ct_NotBefore c) ++ w_i64 (ct_NotAfter c) ++
  w_field (ct_Name c) ++ w_field (ct_Addr c) ++ w_field (ct_Identity c).

Definition Cert_Marshal (c : Cert) : bytes := Cert_body c ++ w_field (ct_Sig c).

Definition decodeCert (b : bytes) : res Cert :=
  let '(h, r) := rd_header {| rd_b := b; rd_bad := false |} in
  let? s := h in
  let '(c, r) := (let% serial := rd_fixed SerialSize in
                  let% caid := rd_fixed IDSize in
                  let% nb := rd_i64 in
                  let% na := rd_i64 in
                  let% name := rd_field 1 maxName in
                  let% addr := rd_field 1 AddrSize in
                  let% identity := rd_field 1 maxKey in
                  let% sig := rd_field 0 maxSig in
                  fun r => ({| ct_Suite := s; ct_Serial := serial; ct_CAID := caid; ct_NotBefore := nb;
                               ct_NotAfter := na; ct_Name := name; ct_Addr := addr;
                               ct_Identity := identity; ct_Sig := sig |}, r)) r in
  let? _ := rd_end r in
  if negb (ValidName (ct_Name c)) || negb (ValidAddr (ct_Addr c)) then Err (Sentinel pki_ErrFormat)
  else Ok c.

Definition ParseCert (b : bytes) : res Cert :=
  let? c := decodeCert b in
  if negb (bool_decide (Cert_Marshal c = b)) then Err (Sentinel pki_ErrFormat) else Ok c.

Definition Descriptor_body (d : Descriptor) : bytes :=
  w_header (de_Suite d) ++ w_u32 (de_Epoch d) ++ w_i64 (de_Published d) ++ w_i64 (de_Expires d) ++
  de_CertHash d ++ w_field (de_LinkPub d) ++ w_field (de_OnionPub d).

Definition Descriptor_Marshal (d : Descriptor) : bytes := Descriptor_body d ++ w_field (de_Sig d).

Definition decodeDescriptor (b : bytes) : res Descriptor :=
  let '(h, r) := rd_header {| rd_b := b; rd_bad := false |} in
  let? s := h in
  let '(d, r) := (let% epoch := rd_u32 in
                  let% published := rd_i64 in
                  let% expires := rd_i64 in
                  let% hash := rd_fixed HashSize in
                  let% link := rd_field 1 maxKey in
                  let% onion := rd_field 1 maxKey in
                  let% sig := rd_field 0 maxSig in
                  fun r => ({| de_Suite := s; de_Epoch := epoch; de_Published := published;
                               de_Expires := expires; de_CertHash := hash; de_LinkPub := link;
                               de_OnionPub := onion; de_Sig := sig |}, r)) r in
  let? _ := rd_end r in
  Ok d.

Definition ParseDescriptor (b : bytes) : res Descriptor :=
  let? d := decodeDescriptor b in
  if negb (bool_decide (Descriptor_Marshal d = b)) then Err (Sentinel pki_ErrFormat) else Ok d.

Definition Request_body (r : Request) : bytes :=
  w_header (rq_Suite r) ++ rq_Nonce r ++ w_field (rq_Name r) ++ w_field (rq_Addr r) ++
  w_field (rq_Identity r).

Definition Request_Marshal (r : Request) : bytes := Request_body r ++ w_field (rq_Sig r).

Definition decodeRequest (b : bytes) : res Request :=
  let '(h, r) := rd_header {| rd_b := b; rd_bad := false |} in
  let? s := h in
  let '(q, r) := (let% nonce := rd_fixed NonceSize in
                  let% name := rd_field 1 maxName in
                  let% addr := rd_field 1 AddrSize in
                  let% identity := rd_field 1 maxKey in
                  let% sig := rd_field 0 maxSig in
                  fun r => ({| rq_Suite := s; rq_Nonce := nonce; rq_Name := name; rq_Addr := addr;
                               rq_Identity := identity; rq_Sig := sig |}, r)) r in
  let? _ := rd_end r in
  if negb (ValidName (rq_Name q)) || negb (ValidAddr (rq_Addr q)) then Err (Sentinel pki_ErrFormat)
  else Ok q.

Definition ParseRequest (b : bytes) : res Request :=
  let? r := decodeRequest b in
  if negb (bool_decide (Request_Marshal r = b)) then Err (Sentinel pki_ErrFormat) else Ok r.

Definition signed (domain body : bytes) : bytes := domain ++ body.

(** ** Well-formed objects: what the types and the parsers demand *)

Definition int64 (z : Z) : bool := (- 2 ^ 63 <=? z) && (z <? 2 ^ 63).
Definition uint32 (z : Z) : bool := (0 <=? z) && (z <? 2 ^ 32).
Definition sized (lo hi : nat) (l : bytes) : bool := (lo <=? length l)%nat && (length l <=? hi)%nat.

Definition cert_wf (c : Cert) : bool :=
  knownSuite (ct_Suite c) && (length (ct_Serial c) =? SerialSize)%nat && (length (ct_CAID c) =? IDSize)%nat &&
  int64 (ct_NotBefore c) && int64 (ct_NotAfter c) && ValidName (ct_Name c) && ValidAddr (ct_Addr c) &&
  sized 1 maxKey (ct_Identity c) && sized 0 maxSig (ct_Sig c).

Definition descriptor_wf (d : Descriptor) : bool :=
  knownSuite (de_Suite d) && uint32 (de_Epoch d) && int64 (de_Published d) && int64 (de_Expires d) &&
  (length (de_CertHash d) =? HashSize)%nat && sized 1 maxKey (de_LinkPub d) && sized 1 maxKey (de_OnionPub d) &&
  sized 0 maxSig (de_Sig d).

Definition request_wf (r : Request) : bool :=
  knownSuite (rq_Suite r) && (length (rq_Nonce r) =? NonceSize)%nat && ValidName (rq_Name r) &&
  ValidAddr (rq_Addr r) && sized 1 maxKey (rq_Identity r) && sized 0 maxSig (rq_Sig r).

(** ** The reader, backwards

    A reader that is not failed in the end was never failed, and what it read is
    what it had before. *)

Lemma rd_take_back n r o r' : rd_take n r = (o, r') -> rd_bad r' = false ->
  exists p, o = Some p /\ length p = n /\ rd_bad r = false /\ rd_b r = p ++ rd_b r'.
Proof.
  unfold rd_take. destruct (rd_bad r) eqn:Hb; simpl; [by intros [= <- <-]|].
  destruct (Nat.ltb_spec (length (rd_b r)) n); intros [= <- <-] Hr; [discriminate|].
  eexists. split; [done|]. rewrite length_take. split; [lia|]. simpl. by rewrite take_drop.
Qed.

Lemma rd_fixed_back n r p r' : rd_fixed n r = (p, r') -> rd_bad r' = false ->
  length p = n /\ rd_bad r = false /\ rd_b r = p ++ rd_b r'.
Proof.
  unfold rd_fixed, rd_bind. destruct (rd_take n r) as [o r1] eqn:E. intros [= <- <-] Hb.
  apply rd_take_back in E as (p & -> & H); [|done]. done.
Qed.

Lemma i64_range z : int64 (i64 z) = true.
Proof.
  unfold int64, i64. pose proof (Z.mod_pos_bound (z + 2 ^ 63) (2 ^ 64) ltac:(lia)).
  apply andb_true_iff. split; [apply Z.leb_le | apply Z.ltb_lt]; lia.
Qed.

Lemma be_mod n a b : a mod 2 ^ (8 * Z.of_nat n) = b mod 2 ^ (8 * Z.of_nat n) -> be n a = be n b.
Proof. intros H. apply unbe_inj; [by rewrite !length_be|]. by rewrite !unbe_be. Qed.

Lemma be_i64 z : be 8 (i64 z) = be 8 z.
Proof.
  apply be_mod. change (8 * Z.of_nat 8) with 64. unfold i64.
  rewrite Zminus_mod_idemp_l. f_equal. lia.
Qed.

Lemma i64_be z : int64 z = true -> i64 (unbe (be 8 z)) = z.
Proof.
  unfold int64. intros [H1%Z.leb_le H2%Z.ltb_lt]%andb_true_iff. rewrite unbe_be.
  change (8 * Z.of_nat 8) with 64. unfold i64. rewrite Zplus_mod_idemp_l, Z.mod_small; lia.
Qed.

Lemma rd_i64_back r v r' : rd_i64 r = (v, r') -> rd_bad r' = false ->
  int64 v = true /\ rd_bad r = false /\ rd_b r = w_i64 v ++ rd_b r'.
Proof.
  unfold rd_i64, rd_bind. destruct (rd_take 8 r) as [o r1] eqn:E. intros [= <- <-] Hb.
  apply rd_take_back in E as (p & -> & Hl & ? & ->); [|done]. split; [apply i64_range|]. split; [done|].
  unfold w_i64. by rewrite be_i64, be_unbe.
Qed.

Lemma rd_u32_back r v r' : rd_u32 r = (v, r') -> rd_bad r' = false ->
  uint32 v = true /\ rd_bad r = false /\ rd_b r = w_u32 v ++ rd_b r'.
Proof.
  unfold rd_u32, rd_bind. destruct (rd_take 4 r) as [o r1] eqn:E. intros [= <- <-] Hb.
  apply rd_take_back in E as (p & -> & Hl & ? & ->); [|done].
  pose proof (unbe_bound p) as B. rewrite Hl in B. change (8 * Z.of_nat 4) with 32 in B.
  split; [|split; [done|]].
  - unfold uint32. apply andb_true_iff. split; [apply Z.leb_le | apply Z.ltb_lt]; lia.
  - unfold w_u32. by rewrite be_unbe.
Qed.

Lemma rd_field_back lo hi r p r' : rd_field lo hi r = (p, r') -> rd_bad r' = false ->
  sized lo hi p = true /\ rd_bad r = false /\ rd_b r = w_field p ++ rd_b r'.
Proof.
  unfold rd_field, rd_bind. destruct (rd_take 1 r) as [o r1] eqn:E. intros H Hb.
  destruct (rd_bad r1) eqn:Hb1.
  { unfold rd_take in E. destruct (rd_bad r); [|destruct (_ <? _)%nat]; simpl in E;
      injection E as <- <-; simpl in *; try discriminate; injection H as <- <-; discriminate. }
  apply rd_take_back in E as ([|c [|? ?]] & -> & Hl & Hr & Hrb); try discriminate; [|done].
  set (n := Z.to_nat (Z_of_byte c)) in *.
  destruct ((n <? lo)%nat || (hi <? n)%nat) eqn:En; [by injection H as _ <-|].
  apply orb_false_iff in En as [E1%Nat.ltb_ge E2%Nat.ltb_ge].
  destruct (rd_take n r1) as [o r2] eqn:E. injection H as <- <-.
  apply rd_take_back in E as (p & -> & Hp & _ & Hr1); [|done].
  change (default [] (Some p)) with p. split; [|split; [done|]].
  - unfold sized. rewrite Hp. by apply andb_true_iff; split; apply Nat.leb_le.
  - rewrite Hrb, Hr1. unfold w_field. rewrite Hp. unfold n. rewrite Z2Nat.id by apply Z_of_byte_range.
    by rewrite byte_of_Z_of_byte.
Qed.

Lemma rd_header_back b s r : rd_header {| rd_b := b; rd_bad := false |} = (Ok s, r) ->
  knownSuite s = true /\ b = w_header s ++ rd_b r.
Proof.
  unfold rd_header, rd_bind, rd_take. destruct b as [|v [|t b]]; simpl; try discriminate.
  destruct (Z.eqb_spec (Z_of_byte v) Version) as [Hv|]; [|discriminate].
  destruct (knownSuite (Z_of_byte t)) eqn:Hk; [|discriminate]. simpl. intros [= <- <-].
  split; [done|]. unfold w_header. by rewrite <- Hv, !byte_of_Z_of_byte.
Qed.

Lemma rd_end_back r : rd_end r = Ok tt -> rd_bad r = false /\ rd_b r = [].
Proof.
  unfold rd_end. destruct (rd_bad r); [discriminate|].
  destruct (Nat.eqb_spec (length (rd_b r)) 0) as [H|]; [|discriminate]. by apply nil_length_inv in H.
Qed.

(** Reduce the fields of a literal object, and nothing else. *)
Ltac fields_of T :=
  eval cbn [ct_Suite ct_Serial ct_CAID ct_NotBefore ct_NotAfter ct_Name ct_Addr ct_Identity ct_Sig
            de_Suite de_Epoch de_Published de_Expires de_CertHash de_LinkPub de_OnionPub de_Sig
            rq_Suite rq_Nonce rq_Name rq_Addr rq_Identity rq_Sig] in T.

Tactic Notation "fields" := match goal with |- ?G => let G' := fields_of G in change G' end.

Tactic Notation "fields" "in" hyp(H) :=
  let T := type of H in let T' := fields_of T in change T' in H.

(** Read the whole run from its end to its start. *)
Ltac read_back :=
  repeat match goal with
  | E : rd_field _ _ _ = (_, ?r'), B : rd_bad ?r' = false |- _ =>
      let H1 := fresh "Hs" in let H2 := fresh "Hb" in let H3 := fresh "Hr" in
      apply rd_field_back in E as (H1 & H2 & H3); [|exact B]; clear B
  | E : rd_fixed _ _ = (_, ?r'), B : rd_bad ?r' = false |- _ =>
      let H1 := fresh "Hs" in let H2 := fresh "Hb" in let H3 := fresh "Hr" in
      apply rd_fixed_back in E as (H1 & H2 & H3); [|exact B]; clear B
  | E : rd_i64 _ = (_, ?r'), B : rd_bad ?r' = false |- _ =>
      let H1 := fresh "Hs" in let H2 := fresh "Hb" in let H3 := fresh "Hr" in
      apply rd_i64_back in E as (H1 & H2 & H3); [|exact B]; clear B
  | E : rd_u32 _ = (_, ?r'), B : rd_bad ?r' = false |- _ =>
      let H1 := fresh "Hs" in let H2 := fresh "Hb" in let H3 := fresh "Hr" in
      apply rd_u32_back in E as (H1 & H2 & H3); [|exact B]; clear B
  end.

Ltac name_reads H :=
  repeat match type of H with
  | context [let '(_, _) := ?m in _] =>
      let x := fresh "x" in let r := fresh "r" in let E := fresh "E" in destruct m as [x r] eqn:E
  end.

Lemma decodeCert_back b c : decodeCert b = Ok c -> cert_wf c = true /\ b = Cert_Marshal c.
Proof.
  unfold decodeCert. destruct (rd_header _) as [h r] eqn:Eh. intros H.
  apply rbind_ok in H as (s & -> & H). apply rd_header_back in Eh as [Hk ->].
  destruct (rd_bind _ _ r) as [q r'] eqn:E. unfold rd_bind in E. name_reads E. injection E as <- <-.
  apply rbind_ok in H as ([] & [Hbad Hrest]%rd_end_back & H).
  destruct (negb _ || negb _) eqn:Ev; [discriminate|]. injection H as <-.
  apply orb_false_iff in Ev as [Hn%negb_false_iff Ha%negb_false_iff]. fields in Hn. fields in Ha. read_back.
  unfold cert_wf, Cert_Marshal, Cert_body. fields.
  split.
  - rewrite !andb_true_iff, ?Nat.eqb_eq. tauto.
  - repeat match goal with R : rd_b ?r = _ |- context [rd_b ?r] => rewrite R end.
    by rewrite app_nil_r, <- !app_assoc.
Qed.

Lemma decodeDescriptor_back b d : decodeDescriptor b = Ok d -> descriptor_wf d = true /\ b = Descriptor_Marshal d.
Proof.
  unfold decodeDescriptor. destruct (rd_header _) as [h r] eqn:Eh. intros H.
  apply rbind_ok in H as (s & -> & H). apply rd_header_back in Eh as [Hk ->].
  destruct (rd_bind _ _ r) as [q r'] eqn:E. unfold rd_bind in E. name_reads E. injection E as <- <-.
  apply rbind_ok in H as ([] & [Hbad Hrest]%rd_end_back & H). injection H as <-. read_back.
  unfold descriptor_wf, Descriptor_Marshal, Descriptor_body. fields.
  split.
  - rewrite !andb_true_iff, ?Nat.eqb_eq. tauto.
  - repeat match goal with R : rd_b ?r = _ |- context [rd_b ?r] => rewrite R end.
    by rewrite app_nil_r, <- !app_assoc.
Qed.

Lemma decodeRequest_back b c : decodeRequest b = Ok c -> request_wf c = true /\ b = Request_Marshal c.
Proof.
  unfold decodeRequest. destruct (rd_header _) as [h r] eqn:Eh. intros H.
  apply rbind_ok in H as (s & -> & H). apply rd_header_back in Eh as [Hk ->].
  destruct (rd_bind _ _ r) as [q r'] eqn:E. unfold rd_bind in E. name_reads E. injection E as <- <-.
  apply rbind_ok in H as ([] & [Hbad Hrest]%rd_end_back & H).
  destruct (negb _ || negb _) eqn:Ev; [discriminate|]. injection H as <-.
  apply orb_false_iff in Ev as [Hn%negb_false_iff Ha%negb_false_iff]. fields in Hn. fields in Ha. read_back.
  unfold request_wf, Request_Marshal, Request_body. fields.
  split.
  - rewrite !andb_true_iff, ?Nat.eqb_eq. tauto.
  - repeat match goal with R : rd_b ?r = _ |- context [rd_b ?r] => rewrite R end.
    by rewrite app_nil_r, <- !app_assoc.
Qed.

(** ** The reader, forwards: what a writer appended is read, and no more *)

Definition fine (b : bytes) : reader := {| rd_b := b; rd_bad := false |}.

Lemma rd_take_front p n rest : length p = n -> rd_take n (fine (p ++ rest)) = (Some p, fine rest).
Proof.
  intros <-. unfold rd_take, fine. simpl. rewrite length_app.
  rewrite (proj2 (Nat.ltb_ge _ _)) by lia. by rewrite take_app_length, drop_app_length.
Qed.

Lemma rd_fixed_front p n rest : length p = n -> rd_fixed n (fine (p ++ rest)) = (p, fine rest).
Proof. intros H. unfold rd_fixed, rd_bind. by rewrite rd_take_front. Qed.

Lemma rd_i64_front v rest : int64 v = true -> rd_i64 (fine (w_i64 v ++ rest)) = (v, fine rest).
Proof.
  intros H. unfold rd_i64, rd_bind, w_i64. rewrite rd_take_front by apply length_be.
  by rewrite i64_be.
Qed.

Lemma rd_u32_front v rest : uint32 v = true -> rd_u32 (fine (w_u32 v ++ rest)) = (v, fine rest).
Proof.
  intros [H1%Z.leb_le H2%Z.ltb_lt]%andb_true_iff. unfold rd_u32, rd_bind, w_u32.
  rewrite rd_take_front by apply length_be. rewrite unbe_be_small; [done|].
  change (8 * Z.of_nat 4) with 32. lia.
Qed.

Lemma rd_field_front lo hi p rest : sized lo hi p = true -> (hi <= 255)%nat ->
  rd_field lo hi (fine (w_field p ++ rest)) = (p, fine rest).
Proof.
  unfold sized. intros [H1%Nat.leb_le H2%Nat.leb_le]%andb_true_iff Hhi.
  unfold rd_field, rd_bind, w_field.
  change ((byte_of_Z (Z.of_nat (length p)) :: p) ++ rest)
    with ([byte_of_Z (Z.of_nat (length p))] ++ (p ++ rest)).
  rewrite (rd_take_front [_] 1) by done.
  rewrite Z_of_byte_of_Z, Z.mod_small, Nat2Z.id by lia.
  rewrite !(proj2 (Nat.ltb_ge _ _)) by lia. cbn [orb]. by rewrite rd_take_front.
Qed.

Lemma rd_header_front s rest : knownSuite s = true -> rd_header (fine (w_header s ++ rest)) = (Ok s, fine rest).
Proof. rewrite knownSuite_same. by intros [-> | ->]%known_cases. Qed.

Lemma sized_name l : ValidName l = true -> sized 1 maxName l = true.
Proof.
  unfold ValidName, sized. destruct (_ || _) eqn:E; [discriminate|].
  apply orb_false_iff in E as [E1%Nat.eqb_neq E2%Nat.ltb_ge]. intros _.
  apply andb_true_iff; split; apply Nat.leb_le; lia.
Qed.

Lemma sized_addr l : ValidAddr l = true -> sized 1 AddrSize l = true.
Proof.
  intros (h & p & _ & _ & _ & H & _)%valid_addr_split. unfold sized.
  apply andb_true_iff; split; apply Nat.leb_le; lia.
Qed.

Ltac split_wf H :=
  repeat match type of H with
  | andb _ _ = true => let H' := fresh "W" in apply andb_true_iff in H as [H H']
  end.

(** Run a decoder over the encodings it reads. *)
Ltac read_front :=
  repeat first
    [ rewrite rd_fixed_front by (by apply Nat.eqb_eq)
    | rewrite rd_i64_front by done | rewrite rd_u32_front by done
    | rewrite rd_field_front
        by first [done | by apply sized_name | by apply sized_addr | unfold maxName, maxKey, maxSig, AddrSize; lia] ].

Lemma decodeCert_Marshal c : cert_wf c = true -> decodeCert (Cert_Marshal c) = Ok c.
Proof.
  intros H. unfold cert_wf in H. split_wf H.
  unfold decodeCert, Cert_Marshal, Cert_body. rewrite <- (app_nil_r (w_field (ct_Sig c))), <- !app_assoc.
  match goal with |- context [rd_header {| rd_b := ?b; rd_bad := false |}] =>
    change {| rd_b := b; rd_bad := false |} with (fine b) end.
  rewrite rd_header_front by done. cbn [rbind]. unfold rd_bind. read_front.
  cbn [rd_end fine rd_bad rd_b orb negb length Nat.eqb rbind]. fields.
  rewrite W2, W1. by destruct c.
Qed.

Lemma decodeDescriptor_Marshal d : descriptor_wf d = true -> decodeDescriptor (Descriptor_Marshal d) = Ok d.
Proof.
  intros H. unfold descriptor_wf in H. split_wf H.
  unfold decodeDescriptor, Descriptor_Marshal, Descriptor_body.
  rewrite <- (app_nil_r (w_field (de_Sig d))), <- !app_assoc.
  match goal with |- context [rd_header {| rd_b := ?b; rd_bad := false |}] =>
    change {| rd_b := b; rd_bad := false |} with (fine b) end.
  rewrite rd_header_front by done. cbn [rbind]. unfold rd_bind. read_front.
  by destruct d.
Qed.

Lemma decodeRequest_Marshal r : request_wf r = true -> decodeRequest (Request_Marshal r) = Ok r.
Proof.
  intros H. unfold request_wf in H. split_wf H.
  unfold decodeRequest, Request_Marshal, Request_body.
  rewrite <- (app_nil_r (w_field (rq_Sig r))), <- !app_assoc.
  match goal with |- context [rd_header {| rd_b := ?b; rd_bad := false |}] =>
    change {| rd_b := b; rd_bad := false |} with (fine b) end.
  rewrite rd_header_front by done. cbn [rbind]. unfold rd_bind. read_front.
  cbn [rd_end fine rd_bad rd_b orb negb length Nat.eqb rbind]. fields.
  rewrite W2, W1. by destruct r.
Qed.

Lemma ParseCert_spec b c : ParseCert b = Ok c <-> cert_wf c = true /\ b = Cert_Marshal c.
Proof.
  unfold ParseCert. split.
  - intros (c' & H & Hm)%rbind_ok. case_bool_decide; [|discriminate]. injection Hm as <-.
    by apply decodeCert_back.
  - intros [H ->]. rewrite decodeCert_Marshal by done. cbn [rbind]. by rewrite bool_decide_true.
Qed.

Lemma ParseDescriptor_spec b d : ParseDescriptor b = Ok d <-> descriptor_wf d = true /\ b = Descriptor_Marshal d.
Proof.
  unfold ParseDescriptor. split.
  - intros (c' & H & Hm)%rbind_ok. case_bool_decide; [|discriminate]. injection Hm as <-.
    by apply decodeDescriptor_back.
  - intros [H ->]. rewrite decodeDescriptor_Marshal by done. cbn [rbind]. by rewrite bool_decide_true.
Qed.

Lemma ParseRequest_spec b r : ParseRequest b = Ok r <-> request_wf r = true /\ b = Request_Marshal r.
Proof.
  unfold ParseRequest. split.
  - intros (c' & H & Hm)%rbind_ok. case_bool_decide; [|discriminate]. injection Hm as <-.
    by apply decodeRequest_back.
  - intros [H ->]. rewrite decodeRequest_Marshal by done. cbn [rbind]. by rewrite bool_decide_true.
Qed.

(** C20. The three encodings are canonical: a certificate, a descriptor and a
    request parse from exactly one byte string each, the one that [Marshal]
    writes, and what parses is well formed; the check that compares with
    [Marshal] never refuses what decoded. *)
Theorem encodings_canonical b :
  (forall c, ParseCert b = Ok c <-> cert_wf c = true /\ b = Cert_Marshal c) /\
  (forall d, ParseDescriptor b = Ok d <-> descriptor_wf d = true /\ b = Descriptor_Marshal d) /\
  (forall r, ParseRequest b = Ok r <-> request_wf r = true /\ b = Request_Marshal r) /\
  ParseCert b = decodeCert b /\ ParseDescriptor b = decodeDescriptor b /\ ParseRequest b = decodeRequest b.
Proof.
  split; [|split; [|split]]; [intros; apply ParseCert_spec | intros; apply ParseDescriptor_spec
    | intros; apply ParseRequest_spec |].
  unfold ParseCert, ParseDescriptor, ParseRequest.
  split; [|split].
  - destruct (decodeCert b) as [c|e] eqn:E; [|done]. apply decodeCert_back in E as [_ ->].
    cbn [rbind]. by rewrite bool_decide_true.
  - destruct (decodeDescriptor b) as [c|e] eqn:E; [|done]. apply decodeDescriptor_back in E as [_ ->].
    cbn [rbind]. by rewrite bool_decide_true.
  - destruct (decodeRequest b) as [c|e] eqn:E; [|done]. apply decodeRequest_back in E as [_ ->].
    cbn [rbind]. by rewrite bool_decide_true.
Qed.

(** ** What is signed *)

Inductive Signable : Type :=
| SCert (c : Cert)
| SDescriptor (d : Descriptor)
| SRequest (r : Request).

(** The message under the object's signature. *)
Definition message (x : Signable) : bytes :=
  match x with
  | SCert c => signed certDomain (Cert_body c)
  | SDescriptor d => signed descriptorDomain (Descriptor_body d)
  | SRequest r => signed requestDomain (Request_body r)
  end.

Definition signable_wf (x : Signable) : bool :=
  match x with SCert c => cert_wf c | SDescriptor d => descriptor_wf d | SRequest r => request_wf r end.

Definition cert_with_sig (s : bytes) (c : Cert) : Cert :=
  {| ct_Suite := ct_Suite c; ct_Serial := ct_Serial c; ct_CAID := ct_CAID c; ct_NotBefore := ct_NotBefore c;
     ct_NotAfter := ct_NotAfter c; ct_Name := ct_Name c; ct_Addr := ct_Addr c; ct_Identity := ct_Identity c;
     ct_Sig := s |}.

Definition descriptor_with_sig (s : bytes) (d : Descriptor) : Descriptor :=
  {| de_Suite := de_Suite d; de_Epoch := de_Epoch d; de_Published := de_Published d; de_Expires := de_Expires d;
     de_CertHash := de_CertHash d; de_LinkPub := de_LinkPub d; de_OnionPub := de_OnionPub d; de_Sig := s |}.

Definition request_with_sig (s : bytes) (r : Request) : Request :=
  {| rq_Suite := rq_Suite r; rq_Nonce := rq_Nonce r; rq_Name := rq_Name r; rq_Addr := rq_Addr r;
     rq_Identity := rq_Identity r; rq_Sig := s |}.

Definition unsigned (x : Signable) : Signable :=
  match x with
  | SCert c => SCert (cert_with_sig [] c)
  | SDescriptor d => SDescriptor (descriptor_with_sig [] d)
  | SRequest r => SRequest (request_with_sig [] r)
  end.

Lemma cert_wf_sig s c : sized 0 maxSig s = true -> cert_wf c = true -> cert_wf (cert_with_sig s c) = true.
Proof. unfold cert_wf. intros Hs H. rewrite !andb_true_iff in *. cbn [cert_with_sig]. fields. tauto. Qed.

Lemma descriptor_wf_sig s d :
  sized 0 maxSig s = true -> descriptor_wf d = true -> descriptor_wf (descriptor_with_sig s d) = true.
Proof. unfold descriptor_wf. intros Hs H. rewrite !andb_true_iff in *. cbn [descriptor_with_sig]. fields. tauto. Qed.

Lemma request_wf_sig s r :
  sized 0 maxSig s = true -> request_wf r = true -> request_wf (request_with_sig s r) = true.
Proof. unfold request_wf. intros Hs H. rewrite !andb_true_iff in *. cbn [request_with_sig]. fields. tauto. Qed.

(** C21. A signature is over one object: two well-formed objects with the same
    signed message are of the same kind and agree in everything but the
    signature, so no signature over one kind verifies as another. *)
Theorem message_injective x y :
  signable_wf x = true -> signable_wf y = true -> message x = message y -> unsigned x = unsigned y.
Proof.
  destruct x as [c|d|r], y as [c'|d'|r']; cbn [signable_wf message unsigned]; intros Hx Hy H;
    unfold signed in H; try discriminate H; apply app_inj_1 in H as [_ H]; try done; f_equal.
  - apply (cert_wf_sig []), decodeCert_Marshal in Hx; [|done]. apply (cert_wf_sig []), decodeCert_Marshal in Hy; [|done].
    unfold Cert_Marshal in *. change (Cert_body (cert_with_sig [] c)) with (Cert_body c) in Hx.
    change (Cert_body (cert_with_sig [] c')) with (Cert_body c') in Hy. rewrite H in Hx. cbn [cert_with_sig ct_Sig] in *. congruence.
  - apply (descriptor_wf_sig []), decodeDescriptor_Marshal in Hx; [|done].
    apply (descriptor_wf_sig []), decodeDescriptor_Marshal in Hy; [|done].
    unfold Descriptor_Marshal in *. change (Descriptor_body (descriptor_with_sig [] d)) with (Descriptor_body d) in Hx.
    change (Descriptor_body (descriptor_with_sig [] d')) with (Descriptor_body d') in Hy.
    rewrite H in Hx. cbn [descriptor_with_sig de_Sig] in *. congruence.
  - apply (request_wf_sig []), decodeRequest_Marshal in Hx; [|done].
    apply (request_wf_sig []), decodeRequest_Marshal in Hy; [|done].
    unfold Request_Marshal in *. change (Request_body (request_with_sig [] r)) with (Request_body r) in Hx.
    change (Request_body (request_with_sig [] r')) with (Request_body r') in Hy.
    rewrite H in Hx. cbn [request_with_sig rq_Sig] in *. congruence.
Qed.

Definition demo_request (sig : bytes) : Request :=
  {| rq_Suite := SuiteGOST; rq_Nonce := replicate 16 x07; rq_Name := str "relay-1"; rq_Addr := str "relay-1:9000";
     rq_Identity := [x01; x02]; rq_Sig := sig |}.

Lemma message_injective_witness :
  signable_wf (SRequest (demo_request [x01])) = true /\ signable_wf (SRequest (demo_request [])) = true /\
  unsigned (SRequest (demo_request [x01])) = unsigned (SRequest (demo_request [])).
Proof.
  split; [by vm_compute|]. split; [by vm_compute|].
  apply (message_injective (SRequest (demo_request [x01])) (SRequest (demo_request []))); by vm_compute.
Defined.
