(* ===== verification/Cell.v ===== *)
(** * Cell: the fixed-size cell, its header and the nonces built from it

    Models [src/wire/cell.go], [src/wire/nonce.go] and [src/wire/counter.go].
    A Go [Cell] is an array of [CellSize] bytes; here it is a byte list, every
    constructor of which gives that length. *)

From Stdlib Require Import Strings.Byte Strings.String.
From S2P Require Import Prelude Effects Crypto.

(** ** Constants of the format *)

Definition CellSize : nat := 512.
Definition headerSize : nat := 18.
Definition BodySize : nat := 494.  (* CellSize - headerSize *)
Definition Version : byte := x02.

Definition KindData : byte := x01.
Definition KindControl : byte := x03.
Definition KindPadding : byte := x04.

Definition Kind_valid (k : byte) : bool :=
  bool_decide (k = KindData) || bool_decide (k = KindControl) || bool_decide (k = KindPadding).

Definition Kind_String (k : byte) : bytes :=
  if bool_decide (k = KindData) then str "data"
  else if bool_decide (k = KindControl) then str "control"
  else if bool_decide (k = KindPadding) then str "padding"
  else str "unknown".

(** ** Cells *)

Record Header : Type := {
  h_Version : byte;
  h_Kind : byte;
  h_Circuit : Z;
  h_Counter : Z
}.

Abbreviation Cell := bytes (only parsing).

Definition zero_cell : Cell := replicate CellSize x00.

(** [c[i]] of an array. *)
Definition byte_at (c : Cell) (i : nat) : byte := c !!! i.

Definition NewCell (h : Header) (body : bytes) : res Cell :=
  if negb (length body =? BodySize)%nat then Err (ErrWrap (Sentinel wire_ErrCellSize) (Other "body"))
  else if negb (Kind_valid (h_Kind h)) then Err (Sentinel wire_ErrKind)
  else Ok (Version :: h_Kind h :: be 8 (h_Circuit h) ++ be 8 (h_Counter h) ++ body).

Definition Cell_Header (c : Cell) : res Header :=
  if negb (bool_decide (byte_at c 0 = Version)) then Err (ErrWrap (Sentinel wire_ErrVersion) (Other "version"))
  else let k := byte_at c 1 in
  if negb (Kind_valid k) then Err (ErrWrap (Sentinel wire_ErrKind) (Other "kind"))
  else Ok {| h_Version := byte_at c 0; h_Kind := k;
             h_Circuit := unbe (slice 2 10 c); h_Counter := unbe (slice 10 18 c) |}.

Definition Cell_Body (c : Cell) : bytes := drop headerSize c.

Definition NewPadding : Cell := Version :: KindPadding :: replicate 510 x00.

Definition IsPadding (c : Cell) : bool :=
  bool_decide (byte_at c 0 = Version) && bool_decide (byte_at c 1 = KindPadding).

Definition aad (c : Cell) (counter : Z) (hop : nat) : bytes :=
  [byte_at c 0; byte_at c 1] ++ be 8 counter ++ [byte_of_Z (Z.of_nat hop)].

Definition SetCircuit (id : Z) (c : Cell) : Cell := copy_at 2 (be 8 id) c.

(** ** Nonces *)

Definition Forward : Z := 0.
Definition Backward : Z := 1.

Definition counterLimit : Z := 2 ^ 62.
Definition cellLimit : Z := 2 ^ 60.

Definition nonceFor (size : nat) (dir circuit counter : Z) : res bytes :=
  if counterLimit <=? counter then Err (Other "wire: counter exhausted")
  else if Backward <? dir then Err (Other "wire: unknown direction")
  else if (17 <=? size)%nat then
    Ok (byte_of_Z dir :: be 8 circuit ++ be 8 counter ++ replicate (size - 17) x00)
  else if (size =? 16)%nat then
    Ok (be 8 (Z.lor counter (u64 (Z.shiftl dir 62))) ++ be 8 circuit)
  else Err (Other "wire: nonce size too small").

(** ** Counter offsets *)

Record Offsets : Type := { off_fwd : Z; off_bwd : Z }.

(** [o[dir]] *)
Definition off (o : Offsets) (dir : Z) : Z := if dir =? Forward then off_fwd o else off_bwd o.

Definition purposeCounterForward : bytes := str "counter/fwd".
Definition purposeCounterBackward : bytes := str "counter/bwd".

Definition deriveOffsets `{CryptoProvider} (secret : bytes) (ctx : Context) : res Offsets :=
  let? f := DeriveKey secret purposeCounterForward ctx 8 in
  let? b := DeriveKey secret purposeCounterBackward ctx 8 in
  Ok {| off_fwd := Z.land (unbe f) (counterLimit - 1);
        off_bwd := Z.land (unbe b) (counterLimit - 1) |}.

Definition shift (value offset : Z) : Z := Z.land (u64 (value + offset)) (counterLimit - 1).

Definition unshift (value offset : Z) : Z := Z.land (u64 (value - offset)) (counterLimit - 1).

(** ** Lemmas on cells *)

Lemma NewCell_ok h body c :
  NewCell h body = Ok c ->
  length body = BodySize /\ Kind_valid (h_Kind h) = true /\
  c = Version :: h_Kind h :: be 8 (h_Circuit h) ++ be 8 (h_Counter h) ++ body.
Proof.
  unfold NewCell. destruct (Nat.eqb_spec (length body) BodySize); simpl; [|discriminate].
  destruct (Kind_valid (h_Kind h)); simpl; [|discriminate]. by intros [= <-].
Qed.

Lemma NewCell_total h body :
  length body = BodySize -> Kind_valid (h_Kind h) = true ->
  NewCell h body = Ok (Version :: h_Kind h :: be 8 (h_Circuit h) ++ be 8 (h_Counter h) ++ body).
Proof. intros Hl Hk. unfold NewCell. rewrite Hl, Hk. reflexivity. Qed.

Lemma NewCell_length h body c : NewCell h body = Ok c -> length c = CellSize.
Proof.
  intros (Hl & _ & ->)%NewCell_ok. unfold BodySize, CellSize in *.
  cbn [length]. rewrite !length_app, !length_be. lia.
Qed.

Lemma NewCell_Body h body c : NewCell h body = Ok c -> Cell_Body c = body.
Proof. intros (Hl & _ & ->)%NewCell_ok. reflexivity. Qed.

Lemma NewCell_bytes h body c :
  NewCell h body = Ok c -> byte_at c 0 = Version /\ byte_at c 1 = h_Kind h.
Proof. by intros (Hl & _ & ->)%NewCell_ok. Qed.

Lemma Cell_Header_of v k ci co body :
  length ci = 8%nat -> length co = 8%nat -> v = Version -> Kind_valid k = true ->
  Cell_Header (v :: k :: ci ++ co ++ body)
  = Ok {| h_Version := v; h_Kind := k; h_Circuit := unbe ci; h_Counter := unbe co |}.
Proof.
  intros Hi Ho -> Hk. unfold Cell_Header, byte_at. cbn [lookup_total list_lookup_total].
  rewrite Hk. cbn [negb]. change (bool_decide (Version = Version)) with true. cbn [negb].
  change (Version :: k :: ci ++ co ++ body) with ([Version; k] ++ ci ++ co ++ body).
  rewrite (slice_mid [Version; k]) by done.
  rewrite (app_assoc [Version; k] ci), (slice_mid ([Version; k] ++ ci)) by (len; done).
  done.
Qed.

Lemma Cell_Header_ok c h :
  Cell_Header c = Ok h ->
  byte_at c 0 = Version /\ byte_at c 1 = h_Kind h /\ h_Version h = Version /\
  Kind_valid (h_Kind h) = true /\ h_Circuit h = unbe (slice 2 10 c) /\ h_Counter h = unbe (slice 10 18 c).
Proof.
  unfold Cell_Header. case_bool_decide as Hv; simpl; [|discriminate].
  destruct (Kind_valid (byte_at c 1)) eqn:Hk; simpl; [|discriminate].
  intros [= <-]. by split_and!.
Qed.

Lemma length_Cell_Body c : length c = CellSize -> length (Cell_Body c) = BodySize.
Proof. unfold Cell_Body, CellSize, BodySize, headerSize. len. Qed.

(** A cell of the right size is its header fields followed by its body. *)
Lemma cell_shape c :
  length c = CellSize ->
  exists v k ci co, length ci = 8%nat /\ length co = 8%nat /\ c = v :: k :: ci ++ co ++ Cell_Body c.
Proof.
  intros Hc. unfold CellSize in Hc.
  destruct c as [|v [|k c]]; try discriminate Hc.
  exists v, k, (take 8 c), (take 8 (drop 8 c)). simpl in Hc.
  split; [len|]. split; [len|]. do 2 f_equal.
  unfold Cell_Body, headerSize. cbn [drop].
  transitivity (take 8 c ++ drop 8 c); [by rewrite take_drop|]. f_equal.
  transitivity (take 8 (drop 8 c) ++ drop 8 (drop 8 c)); [by rewrite take_drop|].
  by rewrite drop_drop.
Qed.

Lemma SetCircuit_shape v k ci co body id :
  length ci = 8%nat ->
  SetCircuit id (v :: k :: ci ++ co ++ body) = v :: k :: be 8 id ++ co ++ body.
Proof.
  intros Hi. unfold SetCircuit.
  change (v :: k :: ci ++ co ++ body) with ([v; k] ++ ci ++ co ++ body).
  rewrite copy_at_app by (try done; len).
  rewrite length_be, <- Hi, drop_app_length. done.
Qed.

(** ** Lemmas on counters and nonces *)

Lemma land_limit z : Z.land z (counterLimit - 1) = z mod counterLimit.
Proof. change (counterLimit - 1) with (Z.ones 62). apply Z.land_ones. lia. Qed.

Lemma u64_mod_limit z : u64 z mod counterLimit = z mod counterLimit.
Proof.
  unfold u64, counterLimit. apply Z.mod_mod_divide. exists 4. reflexivity.
Qed.

Lemma shift_mod v o : shift v o = (v + o) mod counterLimit.
Proof. unfold shift. by rewrite land_limit, u64_mod_limit. Qed.

Lemma unshift_mod v o : unshift v o = (v - o) mod counterLimit.
Proof. unfold unshift. by rewrite land_limit, u64_mod_limit. Qed.

Lemma limit_pos : 0 < counterLimit.
Proof. unfold counterLimit. lia. Qed.

Lemma shift_range v o : 0 <= shift v o < counterLimit.
Proof. rewrite shift_mod. apply Z.mod_pos_bound, limit_pos. Qed.

Lemma unshift_range v o : 0 <= unshift v o < counterLimit.
Proof. rewrite unshift_mod. apply Z.mod_pos_bound, limit_pos. Qed.

(** Working modulo [counterLimit]. *)
Lemma shift_shift v a b : shift (shift v a) b = shift v (shift a b).
Proof. rewrite !shift_mod, Zplus_mod_idemp_l, Zplus_mod_idemp_r. f_equal. lia. Qed.

Lemma shift_comm a b : shift a b = shift b a.
Proof. rewrite !shift_mod. f_equal. lia. Qed.

Lemma shift_0_r v : 0 <= v < counterLimit -> shift v 0 = v.
Proof. intros. rewrite shift_mod, Z.add_0_r. by apply Z.mod_small. Qed.

Lemma unshift_0_r v : 0 <= v < counterLimit -> unshift v 0 = v.
Proof. intros. rewrite unshift_mod, Z.sub_0_r. by apply Z.mod_small. Qed.

Lemma unshift_shift v o : 0 <= v < counterLimit -> unshift (shift v o) o = v.
Proof.
  intros. rewrite unshift_mod, shift_mod, Zminus_mod_idemp_l.
  replace (v + o - o) with v by lia. by apply Z.mod_small.
Qed.

Lemma shift_unshift v o : 0 <= v < counterLimit -> shift (unshift v o) o = v.
Proof.
  intros. rewrite unshift_mod, shift_mod, Zplus_mod_idemp_l.
  replace (v - o + o) with v by lia. by apply Z.mod_small.
Qed.

Lemma shift_inj_l a b o :
  0 <= a < counterLimit -> 0 <= b < counterLimit -> shift a o = shift b o -> a = b.
Proof.
  intros Ha Hb H. by rewrite <- (unshift_shift a o), H, unshift_shift.
Qed.

(** Taking a sum of offsets back in two steps. *)
Lemma unshift_shift_l v a b : unshift (shift v (shift a b)) a = shift v b.
Proof.
  rewrite unshift_mod, !shift_mod, Zplus_mod_idemp_r, Zminus_mod_idemp_l. f_equal. lia.
Qed.

Lemma deriveOffsets_range `{CryptoProvider} s c o dir :
  deriveOffsets s c = Ok o -> 0 <= off o dir < counterLimit.
Proof.
  unfold deriveOffsets. intros H0. inv_res. subst o. unfold off.
  destruct (dir =? Forward); simpl; rewrite land_limit; apply Z.mod_pos_bound, limit_pos.
Qed.

Lemma nonce_word_dir counter dir :
  0 <= counter < counterLimit -> dir = Forward \/ dir = Backward ->
  Z.lor counter (u64 (Z.shiftl dir 62)) = counter + dir * 2 ^ 62.
Proof.
  unfold counterLimit, Forward, Backward. intros Hc [-> | ->].
  - change (u64 (Z.shiftl 0 62)) with 0. rewrite Z.lor_0_r. lia.
  - change (u64 (Z.shiftl 1 62)) with (2 ^ 62).
    pose proof (land_pow2_below counter 62 ltac:(lia) Hc) as Hand.
    pose proof (Z.add_lor_land counter (2 ^ 62)) as Hadd. rewrite Hand in Hadd. lia.
Qed.

Lemma nonceFor_ok size dir circuit counter n :
  nonceFor size dir circuit counter = Ok n ->
  counter < counterLimit /\ dir <= Backward /\ (16 <= size)%nat /\ length n = size.
Proof.
  unfold nonceFor.
  destruct (Z.leb_spec counterLimit counter); [discriminate|].
  destruct (Z.ltb_spec Backward dir); [discriminate|].
  destruct (Nat.leb_spec 17 size) as [Hs|Hs].
  - intros [= <-]. split_and!; try lia. cbn [length]. len.
  - destruct (Nat.eqb_spec size 16) as [->|]; [|discriminate].
    intros [= <-]. split_and!; try lia. len.
Qed.

Lemma nonceFor_total size dir circuit counter :
  counter < counterLimit -> dir = Forward \/ dir = Backward -> (16 <= size)%nat ->
  exists n, nonceFor size dir circuit counter = Ok n.
Proof.
  intros Hc Hd Hs. unfold nonceFor.
  rewrite (proj2 (Z.leb_gt _ _) Hc).
  assert ((Backward <? dir) = false) as -> by (unfold Forward, Backward in *; lia).
  destruct (Nat.leb_spec 17 size); [eauto|].
  assert (size = 16%nat) as -> by lia. eauto.
Qed.

(** The two layouts of a nonce. *)
Lemma nonceFor_form size dir ci co n :
  dir = Forward \/ dir = Backward -> 0 <= co ->
  nonceFor size dir ci co = Ok n ->
  ((17 <= size)%nat /\ n = byte_of_Z dir :: be 8 ci ++ be 8 co ++ replicate (size - 17) x00) \/
  (size = 16%nat /\ 0 <= co + dir * 2 ^ 62 < 2 ^ 63 /\ n = be 8 (co + dir * 2 ^ 62) ++ be 8 ci).
Proof.
  intros Hd Hco H. pose proof (nonceFor_ok _ _ _ _ _ H) as (Hlim & _).
  unfold nonceFor in H. rewrite (proj2 (Z.leb_gt _ _) Hlim) in H.
  assert ((Backward <? dir) = false) as Hb by (unfold Forward, Backward in *; lia).
  rewrite Hb in H. destruct (Nat.leb_spec 17 size); [injection H as <-; by left|].
  destruct (Nat.eqb_spec size 16) as [->|]; [|discriminate].
  rewrite nonce_word_dir in H by (try split; assumption).
  injection H as <-. right. split_and!; try done;
    unfold Forward, Backward, counterLimit in *; lia.
Qed.

Lemma nonceFor_admissible size dir ci co n :
  dir = Forward \/ dir = Backward -> 0 <= co ->
  nonceFor size dir ci co = Ok n -> nonce_admissible n.
Proof.
  intros Hd Hco H. pose proof (nonceFor_ok _ _ _ _ _ H) as (_ & _ & _ & Hlen).
  apply nonceFor_form in H as [(Hs & _)|(-> & Hw & ->)]; [intros ?; lia | | done | done].
  intros _. cbn [be app]. eexists _, _. split; [reflexivity|].
  rewrite Z_of_byte_of_Z, Z.shiftr_div_pow2 by lia.
  change (8 * Z.of_nat 7) with 56.
  assert (0 <= (co + dir * 2 ^ 62) / 2 ^ 56 < 128).
  { split; [apply Z.div_pos; lia | apply Z.div_lt_upper_bound; lia]. }
  rewrite Z.mod_small; lia.
Qed.

(** ** The properties of the format *)

(** A header survives the cell: reading back the header and the body of a
    cell made from them gives them, with the version the code writes, whenever
    the two 64-bit fields are in range; and the cell has the one size. *)
Theorem cell_roundtrip h body c :
  0 <= h_Circuit h < 2 ^ 64 -> 0 <= h_Counter h < 2 ^ 64 ->
  NewCell h body = Ok c ->
  length c = CellSize /\ Cell_Body c = body /\
  Cell_Header c = Ok {| h_Version := Version; h_Kind := h_Kind h;
                        h_Circuit := h_Circuit h; h_Counter := h_Counter h |}.
Proof.
  intros Hci Hco H. split; [by eapply NewCell_length|]. split; [by eapply NewCell_Body|].
  apply NewCell_ok in H as (_ & Hk & ->).
  rewrite Cell_Header_of by (len; done). rewrite !unbe_be_small by (simpl; lia). done.
Qed.

Lemma cell_roundtrip_witness :
  exists c, NewCell {| h_Version := Version; h_Kind := KindControl; h_Circuit := 2 ^ 64 - 1; h_Counter := 7 |}
                    (replicate 494 x09) = Ok c /\ length c = CellSize.
Proof.
  eexists. split; [reflexivity|].
  refine (proj1 (cell_roundtrip {| h_Version := Version; h_Kind := KindControl;
                                   h_Circuit := 2 ^ 64 - 1; h_Counter := 7 |}
                                (replicate 494 x09) _ _ _ _)); [simpl; lia | simpl; lia | reflexivity].
Defined.

(** Nonces are unique under one key: two nonces of one width are equal only
    for the same direction, circuit and counter, so a key that sees every
    (direction, circuit, counter) once never sees a nonce twice; and a 16-byte
    nonce never has the top bit MGM refuses. *)
Theorem nonce_injective size d d' ci ci' co co' n :
  (d = Forward \/ d = Backward) -> (d' = Forward \/ d' = Backward) ->
  0 <= ci < 2 ^ 64 -> 0 <= ci' < 2 ^ 64 -> 0 <= co -> 0 <= co' ->
  nonceFor size d ci co = Ok n -> nonceFor size d' ci' co' = Ok n ->
  (d = d' /\ ci = ci' /\ co = co') /\ nonce_admissible n.
Proof.
  intros Hd Hd' Hci Hci' Hco Hco' H H'.
  pose proof (nonceFor_ok _ _ _ _ _ H) as (Hlim & _).
  pose proof (nonceFor_ok _ _ _ _ _ H') as (Hlim' & _).
  split; [|by eapply nonceFor_admissible].
  unfold counterLimit in *.
  apply nonceFor_form in H as [(Hs & ->)|(-> & Hw & ->)]; [| |done|done];
    apply nonceFor_form in H' as [(Hs' & E)|(Hs' & Hw' & E)]; try lia; try done.
  - apply (inj2 cons) in E as [Ed E].
    apply app_inj_1 in E as [Eci E]; [|by rewrite !length_be].
    apply app_inj_1 in E as [Eco _]; [|by rewrite !length_be].
    apply be_inj in Eci; [|simpl; lia|simpl; lia].
    apply be_inj in Eco; [|simpl; lia|simpl; lia].
    apply byte_of_Z_inj in Ed; unfold Forward, Backward in *; lia.
  - apply app_inj_1 in E as [Ew Eci]; [|by rewrite !length_be].
    apply be_inj in Eci; [|simpl; lia|simpl; lia].
    apply be_inj in Ew; [|simpl; lia|simpl; lia].
    unfold Forward, Backward in *. lia.
Qed.

Lemma nonce_injective_witness :
  nonceFor 16 Backward 5 9 = Ok (x40 :: replicate 6 x00 ++ x09 :: replicate 7 x00 ++ [x05])%byte /\
  nonce_admissible (x40 :: replicate 6 x00 ++ x09 :: replicate 7 x00 ++ [x05])%byte.
Proof.
  split; [reflexivity|].
  refine (proj2 (nonce_injective 16 Backward Backward 5 5 9 9 _ _ _ _ _ _ _ _ _));
    first [right; reflexivity | reflexivity | lia].
Defined.
