(* ===== verification/Replay.v ===== *)
(** * Replay: the counters a link takes and the setups a key remembers

    Models [src/wire/replay.go]: a [Sequence] takes counters strictly one after
    another, a [SetupCache] refuses a tag it has seen and refuses new ones once
    full rather than forget one.  The mutex of the cache is not modelled: each
    operation is atomic. *)

From Stdlib Require Import Strings.Byte Strings.String.
From S2P Require Import Prelude Effects Cell.

(** ** Sequence *)

Record Sequence : Type := { sq_next : Z; sq_taken : Z; sq_seeded : bool }.

(** The zero value. *)
Definition Sequence_zero : Sequence := {| sq_next := 0; sq_taken := 0; sq_seeded := false |}.

Definition Expect (first : Z) (s : Sequence) : Sequence :=
  {| sq_next := first; sq_taken := sq_taken s; sq_seeded := true |}.

Definition Next (counter : Z) (s : Sequence) : bool * Sequence :=
  if (counterLimit <=? counter) || (cellLimit <=? sq_taken s) then (false, s)
  else if sq_seeded s && negb (counter =? sq_next s) then (false, s)
  else (true, {| sq_next := shift counter 1; sq_taken := u64 (sq_taken s + 1); sq_seeded := true |}).

(** The counters a sequence takes out of those offered, in order. *)
Fixpoint taken_of (s : Sequence) (offered : list Z) : list Z :=
  match offered with
  | [] => []
  | c :: rest =>
      match Next c s with
      | (true, s') => c :: taken_of s' rest
      | (false, s') => taken_of s' rest
      end
  end.

(** ** SetupCache *)

Definition DefaultSetupCache : Z := 2 ^ 16.

Record SetupCache : Type := { sc_max : Z; sc_seen : gset bytes }.

Definition NewSetupCache (max : Z) : SetupCache :=
  {| sc_max := if max <=? 0 then DefaultSetupCache else max; sc_seen := ∅ |}.

Definition Add (tag : bytes) (c : SetupCache) : res unit * SetupCache :=
  if bool_decide (tag ∈ sc_seen c) then (Err (Sentinel wire_ErrSetupReplay), c)
  else if sc_max c <=? Z.of_nat (size (sc_seen c)) then (Err (Sentinel wire_ErrSetupCacheFull), c)
  else (Ok tt, {| sc_max := sc_max c; sc_seen := {[tag]} ∪ sc_seen c |}).

(** A run of [Add] calls: the tags accepted and the cache left. *)
Fixpoint add_all (tags : list bytes) (c : SetupCache) : list bytes * SetupCache :=
  match tags with
  | [] => ([], c)
  | t :: rest =>
      let '(r, c') := Add t c in
      let '(acc, c'') := add_all rest c' in
      (if is_ok r then t :: acc else acc, c'')
  end.

(** ** Lemmas *)

Lemma Next_true c s s' :
  Next c s = (true, s') ->
  c < counterLimit /\ sq_taken s < cellLimit /\ (sq_seeded s = true -> c = sq_next s) /\
  s' = {| sq_next := shift c 1; sq_taken := u64 (sq_taken s + 1); sq_seeded := true |}.
Proof.
  unfold Next.
  destruct (Z.leb_spec counterLimit c); simpl; [discriminate|].
  destruct (Z.leb_spec cellLimit (sq_taken s)); simpl; [discriminate|].
  destruct (sq_seeded s); simpl.
  - destruct (Z.eqb_spec c (sq_next s)); simpl; [|discriminate]. intros [= <-]. auto.
  - intros [= <-]. split_and!; auto. discriminate.
Qed.

Lemma Next_false c s s' : Next c s = (false, s') -> s' = s.
Proof. unfold Next. repeat case_match; congruence. Qed.

(** From a seeded sequence, what is taken is the next value and its successors. *)
Lemma taken_of_seeded offered s :
  sq_seeded s = true -> 0 <= sq_next s < counterLimit -> 0 <= sq_taken s <= cellLimit ->
  taken_of s offered
    = (fun i => shift (sq_next s) i) <$> seqZ 0 (Z.of_nat (length (taken_of s offered))) /\
  sq_taken s + Z.of_nat (length (taken_of s offered)) <= cellLimit.
Proof.
  revert s. induction offered as [|c offered IH]; intros s Hs Hn Ht; cbn [taken_of].
  { simpl. split; [done|lia]. }
  destruct (Next c s) as [[|] s'] eqn:E; [|apply Next_false in E as ->; by apply IH].
  apply Next_true in E as (Hc & Htk & Hnext & ->). specialize (Hnext Hs). subst c.
  set (s' := {| sq_next := _ |}).
  assert (Htk' : sq_taken s' = sq_taken s + 1).
  { simpl. apply Z.mod_small. unfold cellLimit in *. lia. }
  destruct (IH s') as [IHl IHn]; [done | apply shift_range | unfold cellLimit in *; lia |].
  rewrite Htk' in IHn. cbn [length]. split; [|lia].
  rewrite seqZ_cons, fmap_cons by lia. rewrite shift_0_r by done. f_equal.
  rewrite IHl at 1.
  replace (Z.pred (Z.of_nat (S (length (taken_of s' offered)))))
    with (Z.of_nat (length (taken_of s' offered))) by lia.
  rewrite <- (fmap_add_seqZ 1 0), <- list_fmap_compose.
  apply list_fmap_ext. intros k i Hi. simpl sq_next. unfold compose.
  rewrite shift_shift. f_equal. apply lookup_seqZ in Hi as [-> Hi].
  rewrite shift_mod. apply Z.mod_small. unfold counterLimit, cellLimit in *. lia.
Qed.

Lemma shifts_nodup f n :
  0 <= Z.of_nat n <= cellLimit -> NoDup ((fun i => shift f i) <$> seqZ 0 (Z.of_nat n)).
Proof.
  intros Hn. apply NoDup_fmap_2_strong; [|apply NoDup_seqZ].
  intros i j Hi%elem_of_seqZ Hj%elem_of_seqZ H.
  rewrite !(shift_comm f) in H. apply shift_inj_l in H;
    unfold counterLimit, cellLimit in *; lia.
Qed.

Lemma add_all_spec tags c acc c' :
  add_all tags c = (acc, c') -> Z.of_nat (size (sc_seen c)) <= sc_max c ->
  NoDup acc /\ sc_seen c' = list_to_set acc ∪ sc_seen c /\
  (forall t, t ∈ acc -> t ∉ sc_seen c) /\ sc_max c' = sc_max c /\
  Z.of_nat (size (sc_seen c')) <= sc_max c.
Proof.
  revert c acc c'. induction tags as [|t tags IH]; intros c acc c'; cbn [add_all].
  { intros [= <- <-] Hsz. split_and!; try done.
    - apply NoDup_nil_2.
    - symmetry. apply (left_id_L ∅ (∪)).
    - intros t Ht. by apply elem_of_nil in Ht. }
  destruct (Add t c) as [r c1] eqn:E.
  destruct (add_all tags c1) as [acc1 c2] eqn:E1. intros [= <- <-] Hsz.
  unfold Add in E. case_bool_decide as Hin; [injection E as <- <-; by eapply IH|].
  destruct (Z.leb_spec (sc_max c) (Z.of_nat (size (sc_seen c)))) as [Hf|Hf];
    [injection E as <- <-; by eapply IH|].
  injection E as <- <-. cbn [is_ok].
  apply IH in E1 as (Hnd & Hs & Hfr & Hm & Hl); simpl in *.
  - clear Hsz Hf. split_and!; [| | |done|done].
    + constructor; [|done]. intros Hc. apply (Hfr _ Hc), elem_of_union_l, elem_of_singleton_2. done.
    + rewrite Hs, (assoc_L (∪)), (comm_L (∪) (list_to_set acc1)). done.
    + intros u [->|Hu]%elem_of_cons; [done|]. intros Hc. apply (Hfr _ Hu), elem_of_union_r, Hc.
  - rewrite size_union, size_singleton; [lia|]. by apply disjoint_singleton_l.
Qed.

Lemma NewSetupCache_max m : 0 < sc_max (NewSetupCache m).
Proof. simpl. unfold DefaultSetupCache. destruct (Z.leb_spec m 0); lia. Qed.

(** ** Properties *)

(** What a link takes: whatever counters are offered to a fresh sequence, it
    takes one first value and then exactly its successors modulo 2^62, with none
    left out, repeated or reordered; at most 2^60 of them, so no value ever
    comes round.  After [Expect f] the first value taken is [f]. *)
Theorem sequence_in_turn offered :
  let l := taken_of Sequence_zero offered in
  Forall (fun c => 0 <= c) offered ->
  NoDup l /\ Z.of_nat (length l) <= cellLimit /\
  (exists first, l = (fun i => shift first i) <$> seqZ 0 (Z.of_nat (length l))) /\
  (forall f, 0 <= f < counterLimit ->
     let e := taken_of (Expect f Sequence_zero) offered in
     e = (fun i => shift f i) <$> seqZ 0 (Z.of_nat (length e))).
Proof.
  intros l Hpos. unfold l. clear l.
  assert (Hl : Z.of_nat (length (taken_of Sequence_zero offered)) <= cellLimit /\
    exists first, taken_of Sequence_zero offered
      = (fun i => shift first i) <$> seqZ 0 (Z.of_nat (length (taken_of Sequence_zero offered)))).
  { induction Hpos as [|c offered Hc Hpos IH]; cbn [taken_of].
    { split; [unfold cellLimit; simpl; lia | by exists 0]. }
    destruct (Next c Sequence_zero) as [[|] s'] eqn:E; [|apply Next_false in E as ->; done].
    apply Next_true in E as (Hlt & _ & _ & ->). set (s' := {| sq_next := _ |}).
    (* the first value taken seeds the sequence exactly as [Expect] would *)
    destruct (taken_of_seeded (c :: offered) (Expect c Sequence_zero)) as [HE HL];
      [done | simpl; lia | unfold cellLimit; simpl; lia |].
    assert (HT : taken_of (Expect c Sequence_zero) (c :: offered) = c :: taken_of s' offered).
    { cbn [taken_of]. unfold Next. simpl sq_taken. rewrite (proj2 (Z.leb_gt _ _) Hlt).
      simpl. by rewrite Z.eqb_refl. }
    rewrite HT in HE, HL. split; [exact HL | by exists c]. }
  destruct Hl as [Hn [f Hf]]. split; [|split; [done|split; [by exists f|]]].
  - rewrite Hf. apply shifts_nodup. lia.
  - intros g Hg. apply taken_of_seeded; [done | done | unfold cellLimit; simpl; lia].
Qed.

Lemma sequence_in_turn_witness :
  taken_of Sequence_zero [2 ^ 62 - 2; 5; 2 ^ 62 - 1; 0; 0; 1] = [2 ^ 62 - 2; 2 ^ 62 - 1; 0; 1] /\
  NoDup (taken_of Sequence_zero [2 ^ 62 - 2; 5; 2 ^ 62 - 1; 0; 0; 1]).
Proof.
  split; [vm_compute; reflexivity|].
  apply (sequence_in_turn [2 ^ 62 - 2; 5; 2 ^ 62 - 1; 0; 0; 1]).
  repeat constructor; lia.
Defined.

(** No setup is accepted twice: over any run of setups offered to a new
    cache the accepted tags are distinct, every one of them is still remembered
    at the end, so offering it again is refused as a replay even when the cache
    is full, and the cache never grows past its bound. *)
Theorem setup_cache_no_replay max tags acc c :
  add_all tags (NewSetupCache max) = (acc, c) ->
  NoDup acc /\
  (forall t, t ∈ acc -> Add t c = (Err (Sentinel wire_ErrSetupReplay), c)) /\
  Z.of_nat (size (sc_seen c)) <= sc_max (NewSetupCache max) /\
  size (sc_seen c) = length acc.
Proof.
  intros H. pose proof (NewSetupCache_max max) as Hmax.
  apply add_all_spec in H as (Hnd & Hs & _ & _ & Hsz).
  - split_and!; try done.
    + intros t Ht. unfold Add. rewrite bool_decide_true; [done | rewrite Hs; set_solver].
    + simpl in Hs. rewrite Hs, (right_id_L ∅ (∪)), size_list_to_set by done. done.
  - change (sc_seen (NewSetupCache max)) with (∅ : gset bytes). rewrite size_empty. lia.
Qed.

Lemma setup_cache_no_replay_witness :
  let run := add_all [str "a"; str "b"; str "a"; str "c"; str "d"] (NewSetupCache 3) in
  fst run = [str "a"; str "b"; str "c"] /\
  Add (str "b") (snd run) = (Err (Sentinel wire_ErrSetupReplay), snd run).
Proof.
  intros run. assert (Hacc : fst run = [str "a"; str "b"; str "c"]) by (vm_compute; reflexivity).
  split; [exact Hacc|].
  apply (setup_cache_no_replay 3 [str "a"; str "b"; str "a"; str "c"; str "d"] (fst run));
    [apply surjective_pairing | rewrite Hacc; apply list_elem_of_further, list_elem_of_here].
Defined.
