(* ===== verification/Onion.v ===== *)
(** * Onion: the layers of a cell, at the client, at a relay and at the exit

    Models [src/wire/onion.go].  The client keeps a [Circuit], a relay a [Hop];
    every function that pads a cell draws the padding from the entropy of the
    world, so it can fail when none is left. *)

From Stdlib Require Import Strings.Byte Strings.String.
From S2P Require Import Prelude Effects Crypto Cell.

Definition lengthPrefix : nat := 2.
Definition coverFlag : Z := 0x8000.

(** ** Framing *)

(** The [inner] buffer of [frame] is known by its width. *)
Definition frame (width : nat) (payload : bytes) (cover : bool) : M bytes :=
  if (width <? length payload + lengthPrefix)%nat || (coverFlag <=? Z.of_nat (length payload))
  then failM (ErrWrap (Sentinel wire_ErrPayloadSize) (Other "frame"))
  else
    let n := Z.of_nat (length payload) in
    let n := if cover then Z.lor n coverFlag else n in
    let! pad := rand_read (width - (lengthPrefix + length payload)) in
    retM (be 2 n ++ payload ++ pad).

Definition unframe (inner : bytes) : res (bytes * bool) :=
  if (length inner <? lengthPrefix)%nat then Err (Sentinel wire_ErrFraming)
  else
    let v := unbe (take lengthPrefix inner) in
    let cover := negb (Z.land v coverFlag =? 0) in
    let n := Z.ldiff v coverFlag in
    if (Z.of_nat (length inner) - Z.of_nat lengthPrefix <? n) || (cover && negb (n =? 0))
    then Err (ErrWrap (Sentinel wire_ErrFraming) (Other "length"))
    else Ok (slice lengthPrefix (lengthPrefix + Z.to_nat n) inner, cover).

Definition layerLen (index ov : nat) : nat := BodySize - index * ov.

(** ** The client's circuit *)

#[export] Instance AEAD_inhabited : Inhabited AEAD :=
  populate {| NonceSize := 0; Overhead := 0; Seal _ p _ := p; Open _ _ _ := Err (Other "") |}.

#[export] Instance Offsets_inhabited : Inhabited Offsets :=
  populate {| off_fwd := 0; off_bwd := 0 |}.

Record Circuit : Type := {
  cc_hops : list AEAD;
  cc_links : list Z;
  cc_before : list Offsets;
  cc_total : Offsets;
  cc_overhead : nat
}.

Definition add_offsets (sum o : Offsets) : Offsets :=
  {| off_fwd := shift (off_fwd sum) (off_fwd o); off_bwd := shift (off_bwd sum) (off_bwd o) |}.

(** The loop of [NewCircuit]: what is left of the keys and offsets, and the
    hops, the sums, the running sum and the overhead so far. *)
Fixpoint newCircuit_loop `{CryptoProvider} (keys : list bytes) (offs : list Offsets)
    (hops : list AEAD) (before : list Offsets) (sum : Offsets) (ov : nat)
    : res (list AEAD * list Offsets * Offsets * nat) :=
  match keys, offs with
  | k :: keys', o :: offs' =>
      match NewAEAD k with
      | Err e => Err (ErrWrap (Other "wire: hop") e)
      | Ok a =>
          if negb (ov =? 0)%nat && negb (Overhead a =? ov)%nat
          then Err (Other "wire: hops disagree on overhead")
          else newCircuit_loop keys' offs' (hops ++ [a]) (before ++ [sum]) (add_offsets sum o)
                 (if (ov =? 0)%nat then Overhead a else ov)
      end
  | _, _ => Ok (hops, before, sum, ov)
  end.

Definition NewCircuit `{CryptoProvider} (keys : list bytes) (offs : list Offsets) (links : list Z)
    : res Circuit :=
  if (length keys =? 0)%nat then Err (Other "wire: circuit needs at least one hop")
  else if negb (length links =? length keys)%nat || negb (length offs =? length keys)%nat
  then Err (Other "wire: keys against offsets and links")
  else
    let? (hops, before, sum, ov) := newCircuit_loop keys offs [] [] {| off_fwd := 0; off_bwd := 0 |} 0 in
    Ok {| cc_hops := hops; cc_links := links; cc_before := before; cc_total := sum; cc_overhead := ov |}.

Definition valueAt (c : Circuit) (i : nat) (dir first : Z) : Z :=
  if dir =? Forward then shift first (off_fwd (cc_before c !!! i))
  else unshift first (off_bwd (cc_before c !!! i)).

Definition ReplyNumber (c : Circuit) (counter : Z) : Z := unshift counter (off_bwd (cc_total c)).

Definition Hops (c : Circuit) : nat := length (cc_hops c).

Definition MaxPayload (c : Circuit) : Z :=
  Z.of_nat BodySize - Z.of_nat (Hops c) * Z.of_nat (cc_overhead c) - Z.of_nat lengthPrefix.

Definition Circuit_Close (c : Circuit) : Circuit :=
  {| cc_hops := []; cc_links := cc_links c; cc_before := cc_before c;
     cc_total := cc_total c; cc_overhead := cc_overhead c |}.

(** The sealing loop, [i] layers still to put on: from the exit inwards. *)
Fixpoint seal_layers (c : Circuit) (cell : Cell) (counter : Z) (i : nat) (body : bytes) : res bytes :=
  match i with
  | O => Ok body
  | S j =>
      let value := valueAt c j Forward counter in
      let hop := cc_hops c !!! j in
      let? nonce := nonceFor (NonceSize hop) Forward (cc_links c !!! j) value in
      seal_layers c cell counter j (Seal hop nonce body (aad cell value j))
  end.

Definition Circuit_seal (c : Circuit) (counter : Z) (payload : bytes) (cover : bool) : M Cell :=
  if (Hops c =? 0)%nat then failM (Other "wire: circuit closed")
  else if MaxPayload c <? Z.of_nat (length payload)
  then failM (ErrWrap (Sentinel wire_ErrPayloadSize) (Other "seal"))
  else if cellLimit <=? counter then failM (Other "wire: counter exhausted")
  else
    let! inner := frame (BodySize - Hops c * cc_overhead c) payload cover in
    let! cell := lift (NewCell {| h_Version := x00; h_Kind := KindData;
                                  h_Circuit := cc_links c !!! 0%nat; h_Counter := counter |}
                               (replicate BodySize x00)) in
    let! body := lift (seal_layers c cell counter (Hops c) inner) in
    if negb (length body =? BodySize)%nat then failM (Other "wire: sealed body")
    else retM (copy_at headerSize body cell).

Definition Circuit_Seal (c : Circuit) (counter : Z) (payload : bytes) : M Cell :=
  Circuit_seal c counter payload false.

Definition SealCover (c : Circuit) (counter : Z) : M Cell := Circuit_seal c counter [] true.

(** The opening loop of [OpenExit], from layer [i], with [n] layers to go. *)
Fixpoint open_layers (c : Circuit) (cell : Cell) (dir counter : Z) (i n : nat) (body : bytes) : res bytes :=
  match n with
  | O => Ok body
  | S m =>
      let value := valueAt c i dir counter in
      let hop := cc_hops c !!! i in
      let? nonce := nonceFor (NonceSize hop) dir (cc_links c !!! i) value in
      let? body' := Open hop nonce (take (layerLen i (cc_overhead c)) body) (aad cell value i) in
      open_layers c cell dir counter (S i) m body'
  end.

Definition OpenExit (c : Circuit) (cell : Cell) (dir : Z) : res (bytes * bool) :=
  let? h := Cell_Header cell in
  if counterLimit <=? h_Counter h then Err (Other "wire: counter exhausted")
  else
    let? body := open_layers c cell dir (h_Counter h) 0 (Hops c) (Cell_Body cell) in
    unframe body.

(** ** A relay's hop *)

Definition MaxHops : nat := 8.

Record Hop : Type := {
  hop_aead : option AEAD;
  hop_index : nat;
  hop_overhead : nat;
  hop_offset : Offsets
}.

#[export] Instance Hop_inhabited : Inhabited Hop :=
  populate {| hop_aead := None; hop_index := 0; hop_overhead := 0; hop_offset := inhabitant |}.

Definition NewHop `{CryptoProvider} (key : bytes) (o : Offsets) (index : nat) : res Hop :=
  if (MaxHops <=? index)%nat then Err (Other "wire: hop index outside 0..7")
  else
    let? a := NewAEAD key in
    if (layerLen index (Overhead a) <=? Overhead a)%nat
    then Err (Other "wire: hop index leaves no room in a cell")
    else Ok {| hop_aead := Some a; hop_index := index; hop_overhead := Overhead a; hop_offset := o |}.

Definition Hop_Close (h : Hop) : Hop :=
  {| hop_aead := None; hop_index := hop_index h; hop_overhead := hop_overhead h; hop_offset := hop_offset h |}.

Definition with_aead {A} (h : Hop) (k : AEAD -> M A) : M A :=
  match hop_aead h with
  | None => failM (Other "wire: hop closed")
  | Some a => k a
  end.

Definition Peel (h : Hop) (cell : Cell) : M Cell :=
  with_aead h (fun a =>
  let! hdr := lift (Cell_Header cell) in
  let! nonce := lift (nonceFor (NonceSize a) Forward (h_Circuit hdr) (h_Counter hdr)) in
  let! inner := lift (Open a nonce (take (layerLen (hop_index h) (hop_overhead h)) (Cell_Body cell))
                        (aad cell (h_Counter hdr) (hop_index h))) in
  let! refill := rand_read (BodySize - length inner) in
  lift (NewCell {| h_Version := h_Version hdr; h_Kind := h_Kind hdr; h_Circuit := h_Circuit hdr;
                   h_Counter := shift (h_Counter hdr) (off_fwd (hop_offset h)) |}
                (inner ++ refill))).

Definition OpenLast (h : Hop) (cell : Cell) : M (bytes * bool) :=
  let! peeled := Peel h cell in
  lift (unframe (Cell_Body peeled)).

(** One backward layer under the hop's key. *)
Definition Hop_seal (h : Hop) (hdr : Header) (inner : bytes) : M Cell :=
  let! out := lift (NewCell hdr (replicate BodySize x00)) in
  with_aead h (fun a =>
  let! nonce := lift (nonceFor (NonceSize a) Backward (h_Circuit hdr) (h_Counter hdr)) in
  let sealed := Seal a nonce inner (aad out (h_Counter hdr) (hop_index h)) in
  let! refill := rand_read (BodySize - length sealed) in
  retM (take headerSize out ++ sealed ++ refill)).

Definition sealReply (h : Hop) (inbound counter : Z) (payload : bytes) (cover : bool) : M Cell :=
  with_aead h (fun _ =>
  if cellLimit <=? counter then failM (Other "wire: counter exhausted")
  else
    let! inner := frame (layerLen (hop_index h) (hop_overhead h) - hop_overhead h) payload cover in
    Hop_seal h {| h_Version := x00; h_Kind := KindData; h_Circuit := inbound;
                  h_Counter := shift counter (off_bwd (hop_offset h)) |} inner).

Definition SealReply (h : Hop) (inbound counter : Z) (payload : bytes) : M Cell :=
  sealReply h inbound counter payload false.

Definition SealCoverReply (h : Hop) (inbound counter : Z) : M Cell :=
  sealReply h inbound counter [] true.

Definition Wrap (h : Hop) (cell : Cell) (inbound : Z) : M Cell :=
  with_aead h (fun _ =>
  let! hdr := lift (Cell_Header cell) in
  if negb (bool_decide (h_Kind hdr = KindData))
  then failM (ErrWrap (Sentinel wire_ErrKind) (Other "on the way back"))
  else if counterLimit <=? h_Counter hdr then failM (Other "wire: counter exhausted")
  else Hop_seal h {| h_Version := x00; h_Kind := KindData; h_Circuit := inbound;
                     h_Counter := shift (h_Counter hdr) (off_bwd (hop_offset h)) |}
                (take (layerLen (hop_index h + 1) (hop_overhead h)) (Cell_Body cell))).

(** ** Framing: what [unframe] gives back *)

Lemma frame_ok width payload cover w inner w' :
  frame width payload cover w = (Ok inner, w') ->
  (length payload + lengthPrefix <= width)%nat /\ Z.of_nat (length payload) < coverFlag /\
  length inner = width /\
  exists pad, inner = be 2 (if cover then Z.lor (Z.of_nat (length payload)) coverFlag
                            else Z.of_nat (length payload)) ++ payload ++ pad.
Proof.
  unfold frame. destruct (Nat.ltb_spec width (length payload + lengthPrefix)); simpl; [discriminate|].
  destruct (Z.leb_spec coverFlag (Z.of_nat (length payload))); [discriminate|].
  intros H1. inv_m. apply draw_ok in Ha as (e & Ha & _). apply read_full_ok in Ha as [Hl _].
  unfold lengthPrefix in *. split_and!; try lia; [len | by eexists].
Qed.

(** A frame comes back whole from under any tail; a cover frame carries nothing. *)
Lemma unframe_frame width payload cover w inner w' tail :
  (cover = true -> payload = []) ->
  frame width payload cover w = (Ok inner, w') -> unframe (inner ++ tail) = Ok (payload, cover).
Proof.
  intros Hcov (_ & Hlt & _ & pad & ->)%frame_ok. unfold unframe, coverFlag, lengthPrefix in *.
  set (n := if cover then _ else _).
  assert (Hn : 0 <= n < 2 ^ 16).
  { unfold n. destruct cover; [|lia]. rewrite (Hcov eq_refl). by split. }
  rewrite <- !app_assoc, take_app_le by (rewrite length_be; done).
  rewrite (take_ge (be 2 n)) by (rewrite length_be; done). rewrite unbe_be_small by exact Hn.
  assert (Hlen : (length (be 2 n ++ payload ++ pad ++ tail) <? 2)%nat = false)
    by (apply Nat.ltb_ge; len).
  rewrite Hlen. cbn [negb].
  assert (Hbits : negb (Z.land n 32768 =? 0) = cover /\ Z.ldiff n 32768 = Z.of_nat (length payload)).
  { unfold n. destruct cover; [rewrite (Hcov eq_refl); done|].
    change 32768 with (2 ^ 15) in *.
    rewrite land_pow2_below, ldiff_pow2_below by lia. done. }
  destruct Hbits as [-> ->].
  assert (Hlong : (Z.of_nat (length (be 2 n ++ payload ++ pad ++ tail)) - Z.of_nat 2
                   <? Z.of_nat (length payload)) = false) by (apply Z.ltb_ge; len).
  rewrite Hlong. cbn [orb].
  assert (Hz : cover && negb (Z.of_nat (length payload) =? 0) = false).
  { destruct cover; [by rewrite (Hcov eq_refl) | done]. }
  rewrite Hz, Nat2Z.id, slice_mid; [done | by rewrite length_be | lia].
Qed.

Lemma frame_total width payload cover w :
  (length payload + lengthPrefix <= width)%nat -> Z.of_nat (length payload) < coverFlag ->
  (width <= length (entropy w))%nat ->
  exists inner e, frame width payload cover w = (Ok inner, with_entropy e w) /\
    (length (entropy w) <= length e + width)%nat.
Proof.
  intros H1 H2 H3. unfold frame, lengthPrefix in *.
  rewrite (proj2 (Nat.ltb_ge _ _) H1), (proj2 (Z.leb_gt _ _) H2). cbn [orb].
  unfold bindM, rand_read, draw. rewrite read_full_enough by lia.
  eexists _, _. split; [reflexivity|]. len.
Qed.

(** ** The circuit that [NewCircuit] makes *)

Definition zero_offsets : Offsets := {| off_fwd := 0; off_bwd := 0 |}.

Definition sum_offsets (l : list Offsets) : Offsets := foldl add_offsets zero_offsets l.

Section Laws.
Context {P : CryptoProvider} {L : CryptoLaws}.

Lemma newCircuit_loop_spec keys offs hops before pre ov r :
  newCircuit_loop keys offs hops before (sum_offsets pre) ov = Ok r ->
  length offs = length keys -> ov = 0%nat \/ ov = overhead ->
  exists hs, r = (hops ++ hs, before ++ ((fun i => sum_offsets (pre ++ take i offs)) <$> seq 0 (length keys)),
                  sum_offsets (pre ++ offs), if (length keys =? 0)%nat then ov else overhead) /\
    Forall2 (fun k a => NewAEAD k = Ok a) keys hs.
Proof.
  revert offs hops before pre ov. induction keys as [|k keys IH]; intros offs hops before pre ov H Hl Hov.
  { destruct offs; [|done]. injection H as <-. exists []. rewrite !app_nil_r. by split. }
  destruct offs as [|o offs]; [done|]. injection Hl as Hl. cbn [newCircuit_loop] in H.
  destruct (NewAEAD k) as [a|] eqn:Ha; [|discriminate].
  destruct (aead_sizes _ _ Ha) as [_ Hoh]. rewrite Hoh in H. pose proof overhead_small as Hpos.
  destruct (negb (ov =? 0)%nat && negb (overhead =? ov)%nat) eqn:E.
  { destruct Hov as [-> | ->]; [discriminate|]. rewrite Nat.eqb_refl, andb_false_r in E. discriminate. }
  assert (Hif : (if (ov =? 0)%nat then overhead else ov) = overhead)
    by (destruct Hov as [-> | ->]; [done|]; by destruct (Nat.eqb_spec overhead 0)).
  rewrite Hif in H.
  assert (Hs : add_offsets (sum_offsets pre) o = sum_offsets (pre ++ [o]))
    by (unfold sum_offsets; by rewrite foldl_app).
  rewrite Hs in H. apply IH in H as (hs & -> & Hall); [|done|by right].
  exists (a :: hs). split; [|by constructor].
  assert (Hm : ((fun i => sum_offsets (pre ++ take i (o :: offs))) <$> seq 0 (length (k :: keys)))
             = sum_offsets pre :: ((fun i => sum_offsets ((pre ++ [o]) ++ take i offs)) <$> seq 0 (length keys))).
  { cbn [length seq]. rewrite fmap_cons, <- fmap_S_seq, <- list_fmap_compose.
    f_equal; [by rewrite take_0, app_nil_r|].
    apply list_fmap_ext. intros k' i _. unfold compose. by rewrite <- app_assoc. }
  rewrite Hm, <- !app_assoc. cbn [length Nat.eqb app]. by destruct (length keys =? 0)%nat.
Qed.

(** What is known of a circuit over [k] hops. *)
Record circuit_of (keys : list bytes) (offs : list Offsets) (links : list Z) (c : Circuit) : Prop := {
  co_pos : (0 < length keys)%nat;
  co_offs : length offs = length keys;
  co_links : length links = length keys;
  co_clinks : cc_links c = links;
  co_hops : Hops c = length keys;
  co_overhead : cc_overhead c = overhead;
  co_aead i : (i < length keys)%nat -> NewAEAD (keys !!! i) = Ok (cc_hops c !!! i);
  co_before i : (i < length keys)%nat -> cc_before c !!! i = sum_offsets (take i offs);
  co_total : cc_total c = sum_offsets offs
}.

Lemma NewCircuit_ok keys offs links c :
  NewCircuit keys offs links = Ok c -> circuit_of keys offs links c.
Proof.
  unfold NewCircuit. destruct (Nat.eqb_spec (length keys) 0); [discriminate|].
  destruct (Nat.eqb_spec (length links) (length keys)); simpl; [|discriminate].
  destruct (Nat.eqb_spec (length offs) (length keys)); simpl; [|discriminate].
  intros H. apply rbind_ok in H as ([[[hops before] sum] ov] & Hl & [= <-]).
  apply (newCircuit_loop_spec _ _ [] [] [] 0) in Hl as (hs & [= -> -> -> ->] & Hall);
    [|done|by left].
  rewrite (proj2 (Nat.eqb_neq _ _)) by done.
  pose proof (Forall2_length _ _ _ Hall) as Hlen.
  constructor; simpl; auto; try lia.
  - intros i Hi.
    destruct (lookup_lt_is_Some_2 keys i Hi) as [k Hk].
    destruct (Forall2_lookup_l _ _ _ _ _ Hall Hk) as (a & Ha & Hka).
    by rewrite (list_lookup_total_correct _ _ _ Hk), (list_lookup_total_correct _ _ _ Ha).
  - intros i Hi. apply list_lookup_total_correct.
    rewrite list_lookup_fmap, lookup_seq_lt by done. done.
Qed.

Lemma NewCircuit_total keys offs links :
  (0 < length keys)%nat -> length links = length keys -> length offs = length keys ->
  Forall (fun k => length k = KeySize) keys -> exists c, NewCircuit keys offs links = Ok c.
Proof.
  intros Hpos Hli Hof Hk. unfold NewCircuit.
  rewrite (proj2 (Nat.eqb_neq _ _)), Hli, Hof, !Nat.eqb_refl by lia. cbn [negb orb].
  assert (Hloop : forall hops before sum ov, ov = 0%nat \/ ov = overhead ->
    exists r, newCircuit_loop keys offs hops before sum ov = Ok r).
  { clear Hli Hpos. revert offs Hof. induction Hk as [|k keys Hk _ IH]; intros [|o offs] Hof; try done;
      intros hops before sum ov Hov; cbn [newCircuit_loop]; eauto.
    destruct (new_aead k Hk) as [a Ha]. rewrite Ha.
    destruct (aead_sizes _ _ Ha) as [_ ->].
    assert (Hg : negb (ov =? 0)%nat && negb (overhead =? ov)%nat = false)
      by (destruct Hov as [-> | ->]; [done | by rewrite Nat.eqb_refl, andb_false_r]).
    rewrite Hg. apply IH; [by injection Hof|].
    destruct Hov as [-> | ->]; right; [done | by case_match]. }
  destruct (Hloop [] [] zero_offsets 0%nat) as [[[[hops before] sum] ov] Hr]; [by left|].
  unfold zero_offsets in Hr. rewrite Hr. eexists. reflexivity.
Qed.

End Laws.
