(* ===== verification/Chain.v ===== *)
(** * Chain: a cell through a whole circuit, there and back

    The composition of the client's [Circuit] with the relays' [Hop]s of
    Onion.v: the client seals, every relay peels one layer and puts the next
    link's identifier on the cell, the exit opens the last layer; a reply gains
    one layer per relay and the client strips them all. *)

From Stdlib Require Import Strings.Byte Strings.String.
From S2P Require Import Prelude Effects Crypto C25519 Toy Cell Onion.

(** ** Definitions *)

(** A cell with a valid header of kind data. *)
Definition data_cell (circuit counter : Z) (body : bytes) : bytes :=
  Version :: KindData :: be 8 circuit ++ be 8 counter ++ body.

Definition data_aad (counter : Z) (index : nat) : bytes :=
  [Version; KindData] ++ be 8 counter ++ [byte_of_Z (Z.of_nat index)].

(** From hop [i], [n] relays peel the cell and send it on over the next link. *)
Fixpoint travel (hs : list Hop) (links : list Z) (i n : nat) (cell : Cell) : M Cell :=
  match n with
  | O => retM cell
  | S m => let! out := Peel (hs !!! i) cell in
           travel hs links (S i) m (SetCircuit (links !!! S i) out)
  end.

(** The cell through all the relays, and opened by the last one. *)
Definition deliver (hs : list Hop) (links : list Z) (cell : Cell) : M (bytes * bool) :=
  let! last := travel hs links 0 (length hs - 1) cell in
  OpenLast (hs !!! (length hs - 1)%nat) last.

(** The hops [i - 1], ..., [0] put their layers on a cell going back. *)
Fixpoint return_trip (hs : list Hop) (links : list Z) (i : nat) (cell : Cell) : M Cell :=
  match i with
  | O => retM cell
  | S j => let! out := Wrap (hs !!! j) cell (links !!! j) in return_trip hs links j out
  end.

(** The exit numbers a reply [n], and the relays bring it back. *)
Definition send_back (hs : list Hop) (links : list Z) (n : Z) (payload : bytes) (cover : bool) : M Cell :=
  let! first := sealReply (hs !!! (length hs - 1)%nat) (links !!! (length hs - 1)%nat) n payload cover in
  return_trip hs links (length hs - 1) first.

(** ** Shared lemmas *)

Lemma aad_data circuit counter body v i : aad (data_cell circuit counter body) v i = data_aad v i.
Proof. reflexivity. Qed.

Lemma data_cell_header circuit counter body :
  0 <= circuit < 2 ^ 64 -> 0 <= counter < 2 ^ 64 ->
  Cell_Header (data_cell circuit counter body)
  = Ok {| h_Version := Version; h_Kind := KindData; h_Circuit := circuit; h_Counter := counter |}.
Proof.
  intros Hci Hco. unfold data_cell. rewrite Cell_Header_of by (len; done).
  by rewrite !unbe_be_small.
Qed.

Lemma data_cell_body circuit counter body : Cell_Body (data_cell circuit counter body) = body.
Proof. reflexivity. Qed.

Lemma data_cell_new v circuit counter body :
  length body = BodySize ->
  NewCell {| h_Version := v; h_Kind := KindData; h_Circuit := circuit; h_Counter := counter |} body
  = Ok (data_cell circuit counter body).
Proof. intros Hb. by rewrite NewCell_total. Qed.

Lemma data_cell_set circuit counter body id :
  SetCircuit id (data_cell circuit counter body) = data_cell id counter body.
Proof. unfold data_cell. rewrite SetCircuit_shape by len. done. Qed.

Lemma data_cell_length circuit counter body :
  length body = BodySize -> length (data_cell circuit counter body) = CellSize.
Proof. unfold data_cell, CellSize, BodySize. len. Qed.

Lemma limit_64 v : 0 <= v < counterLimit -> 0 <= v < 2 ^ 64.
Proof. unfold counterLimit. lia. Qed.

Lemma valueAt_range c i dir first : 0 <= valueAt c i dir first < counterLimit.
Proof. unfold valueAt. case_match; [apply shift_range | apply unshift_range]. Qed.

Lemma sum_offsets_snoc l o : sum_offsets (l ++ [o]) = add_offsets (sum_offsets l) o.
Proof. unfold sum_offsets. by rewrite foldl_app. Qed.

Lemma sum_offsets_range l dir : 0 <= off (sum_offsets l) dir < counterLimit.
Proof.
  induction l as [|o l _] using rev_ind.
  - unfold off, sum_offsets, counterLimit. case_match; simpl; lia.
  - rewrite sum_offsets_snoc. unfold off. case_match; apply shift_range.
Qed.

#[export] Hint Resolve valueAt_range shift_range unshift_range limit_64 : jimichi.

Section Layers.
Context {P : CryptoProvider} {L : CryptoLaws}.
Context (keys : list bytes) (offs : list Offsets) (links : list Z) (c : Circuit).
Context (Hc : circuit_of keys offs links c).
Context (Hlinks : Forall (fun l => 0 <= l < 2 ^ 64) links).

Let k : nat := length keys.

Lemma link_range i : (i < k)%nat -> 0 <= links !!! i < 2 ^ 64.
Proof.
  intros Hi. rewrite Forall_forall in Hlinks. apply Hlinks, list_elem_of_lookup_total_2.
  rewrite (co_links _ _ _ _ Hc). done.
Qed.

Lemma hop_nonce_size i : (i < k)%nat -> NonceSize (cc_hops c !!! i) = nonce_size.
Proof. intros Hi. by destruct (aead_sizes _ _ (co_aead _ _ _ _ Hc i Hi)). Qed.

(** The layers of a body: [Ly i] is what hop [i] opens, [Ly k] the innermost
    content. *)
Definition layered (dir first : Z) (Ly : nat -> bytes) : Prop :=
  forall i, (i < k)%nat -> exists n,
    nonceFor nonce_size dir (links !!! i) (valueAt c i dir first) = Ok n /\
    Ly i = Seal (cc_hops c !!! i) n (Ly (S i)) (data_aad (valueAt c i dir first) i).

Lemma layered_length dir first Ly i :
  layered dir first Ly -> length (Ly k) = layerLen k overhead -> (k * overhead <= BodySize)%nat ->
  (i <= k)%nat -> length (Ly i) = layerLen i overhead.
Proof.
  intros HL Hk Hroom Hi. remember (k - i)%nat as d eqn:Hd. revert i Hi Hd.
  induction d as [|d IH]; intros i Hi Hd.
  { by replace i with k by lia. }
  destruct (HL i) as (n & _ & ->); [lia|].
  rewrite (seal_length _ _ _ _ _ (co_aead _ _ _ _ Hc i ltac:(unfold k in *; lia))), IH by lia.
  unfold layerLen. nia.
Qed.

Lemma open_layer i dir v n p ad :
  (i < k)%nat -> dir = Forward \/ dir = Backward -> 0 <= v ->
  nonceFor nonce_size dir (links !!! i) v = Ok n ->
  Open (cc_hops c !!! i) n (Seal (cc_hops c !!! i) n p ad) ad = Ok p.
Proof.
  intros Hi Hd Hv Hn. apply (open_seal (keys !!! i)); [by apply (co_aead _ _ _ _ Hc)| |].
  - by apply nonceFor_ok in Hn as (_ & _ & _ & ->).
  - by eapply nonceFor_admissible.
Qed.

(** The client's opening loop strips the layers from [i] on. *)
Lemma open_layers_layered dir first Ly circuit counter cbody i n body :
  dir = Forward \/ dir = Backward ->
  layered dir first Ly -> length (Ly k) = layerLen k overhead -> (k * overhead <= BodySize)%nat ->
  (i + n = k)%nat -> take (layerLen i overhead) body = Ly i ->
  exists body', open_layers c (data_cell circuit counter cbody) dir first i n body = Ok body' /\
    (n = 0%nat -> body' = body) /\ (n <> 0%nat -> body' = Ly k).
Proof.
  intros Hd HL Hk Hroom. revert i body. induction n as [|n IH]; intros i body Hin Hb.
  { eexists. split; [reflexivity|]. split; [done|lia]. }
  destruct (HL i) as (nonce & Hn & HLi); [lia|]. cbn [open_layers].
  rewrite (co_clinks _ _ _ _ Hc), hop_nonce_size, Hn by lia. cbn [rbind].
  rewrite (co_overhead _ _ _ _ Hc), Hb, HLi, aad_data.
  rewrite (open_layer i dir (valueAt c i dir first)) by (try apply valueAt_range; done || lia).
  cbn [rbind].
  destruct (IH (S i) (Ly (S i))) as (body' & -> & H0 & H1); [lia| |].
  - apply take_ge. rewrite (layered_length dir first Ly) by (done || lia). done.
  - eexists. split; [reflexivity|]. split; [lia|]. intros _.
    destruct n; [rewrite H0 by done; f_equal; lia | by apply H1].
Qed.

(** Layers over any content exist, since every nonce they need does. *)
Lemma layered_exists dir first inner :
  dir = Forward \/ dir = Backward -> exists Ly, layered dir first Ly /\ Ly k = inner.
Proof.
  intros Hd.
  assert (H : forall j body, (j <= k)%nat -> exists Ly : nat -> bytes, Ly j = body /\
    (forall i, (i < j)%nat -> exists n,
      nonceFor nonce_size dir (links !!! i) (valueAt c i dir first) = Ok n /\
      Ly i = Seal (cc_hops c !!! i) n (Ly (S i)) (data_aad (valueAt c i dir first) i))).
  { induction j as [|j IH]; intros body Hj.
    { exists (fun _ => body). split; [done | lia]. }
    destruct (nonceFor_total nonce_size dir (links !!! j) (valueAt c j dir first)) as [n Hn];
      [apply valueAt_range | done | apply nonce_size_wide |].
    destruct (IH (Seal (cc_hops c !!! j) n body (data_aad (valueAt c j dir first) j)))
      as (Ly & HLj & HL); [lia|].
    exists (fun i => if decide (i <= j)%nat then Ly i else body).
    split; [by rewrite decide_False by lia|].
    intros i Hi. destruct (decide (i = j)) as [->|Hne].
    - exists n. by rewrite decide_True, decide_False by lia.
    - rewrite !decide_True by lia. apply HL. lia. }
  destruct (H k inner) as (Ly & Hk & HL); [lia|]. by exists Ly.
Qed.

(** The sealing loop puts the layers on. *)
Lemma seal_layers_run first Ly circuit counter cbody j :
  layered Forward first Ly -> (j <= k)%nat ->
  seal_layers c (data_cell circuit counter cbody) first j (Ly j) = Ok (Ly 0%nat).
Proof.
  intros HL. induction j as [|j IH]; intros Hj; [done|].
  destruct (HL j) as (n & Hn & HLj); [lia|]. cbn [seal_layers].
  rewrite (co_clinks _ _ _ _ Hc), hop_nonce_size, Hn by lia. cbn [rbind].
  rewrite aad_data, <- HLj. apply IH. lia.
Qed.

(** ** The relays of the circuit *)

Definition hops_of (hs : list Hop) : Prop :=
  length hs = k /\ forall i, (i < k)%nat -> NewHop (keys !!! i) (offs !!! i) i = Ok (hs !!! i).

Context (hs : list Hop) (Hhs : hops_of hs).

Lemma hop_fields i :
  (i < k)%nat -> hop_aead (hs !!! i) = Some (cc_hops c !!! i) /\ hop_index (hs !!! i) = i /\
    hop_overhead (hs !!! i) = overhead /\ hop_offset (hs !!! i) = offs !!! i /\
    (overhead < layerLen i overhead)%nat.
Proof.
  intros Hi. destruct Hhs as [_ H]. specialize (H i Hi). unfold NewHop in H.
  destruct (MaxHops <=? i)%nat; [discriminate|].
  rewrite (co_aead _ _ _ _ Hc i Hi) in H. cbn [rbind] in H.
  destruct (aead_sizes _ _ (co_aead _ _ _ _ Hc i Hi)) as [_ Ho]. rewrite Ho in H.
  destruct (Nat.leb_spec (layerLen i overhead) overhead); [discriminate|].
  by injection H as <-.
Qed.

Lemma room : (k * overhead < BodySize)%nat.
Proof.
  pose proof (co_pos _ _ _ _ Hc) as Hp. fold k in Hp.
  destruct (hop_fields (k - 1)) as (_ & _ & _ & _ & H); [lia|].
  unfold layerLen in H. nia.
Qed.

Lemma offs_lookup i : (i < k)%nat -> offs !! i = Some (offs !!! i).
Proof.
  intros Hi. apply list_lookup_lookup_total_lt. rewrite (co_offs _ _ _ _ Hc). done.
Qed.

Lemma before_step i :
  (i < k)%nat -> add_offsets (cc_before c !!! i) (offs !!! i) = sum_offsets (take (S i) offs).
Proof.
  intros Hi. rewrite (co_before _ _ _ _ Hc) by done.
  by rewrite (take_S_r _ _ (offs !!! i)), sum_offsets_snoc by (by apply offs_lookup).
Qed.

Lemma value_step_forward i first :
  (S i < k)%nat ->
  shift (valueAt c i Forward first) (off_fwd (offs !!! i)) = valueAt c (S i) Forward first.
Proof.
  intros Hi. unfold valueAt. simpl (Forward =? Forward). cbv iota.
  rewrite (co_before _ _ _ _ Hc (S i)), <- before_step by (unfold k in *; lia).
  by rewrite shift_shift.
Qed.

Lemma value_first_forward first :
  0 <= first < counterLimit -> valueAt c 0 Forward first = first.
Proof.
  intros Hf. unfold valueAt. simpl (Forward =? Forward). cbv iota.
  rewrite (co_before _ _ _ _ Hc) by apply (co_pos _ _ _ _ Hc). by apply shift_0_r.
Qed.

(** ** Forward: one relay, then all of them *)

(** The cell on the link into hop [i]: its header, and its body up to the width
    of the layers that are left. *)
Definition on_link (first : Z) (Ly : nat -> bytes) (i : nat) (cell : bytes) : Prop :=
  exists body, cell = data_cell (links !!! i) (valueAt c i Forward first) body /\
    length body = BodySize /\ take (layerLen i overhead) body = Ly i.

Lemma peel_on_link first Ly i cell w :
  (i < k)%nat -> layered Forward first Ly -> length (Ly k) = layerLen k overhead ->
  on_link first Ly i cell -> (BodySize <= length (entropy w))%nat ->
  exists body' w', Peel (hs !!! i) cell w
      = (Ok (data_cell (links !!! i) (shift (valueAt c i Forward first) (off_fwd (offs !!! i))) body'), w') /\
    length body' = BodySize /\ take (layerLen (S i) overhead) body' = Ly (S i) /\
    (length (entropy w) <= length (entropy w') + BodySize)%nat.
Proof.
  intros Hi HL Hk (body & -> & Hlen & Htake) Hw.
  destruct (hop_fields i Hi) as (Ha & Hidx & Hov & Hoff & Hroom).
  destruct (HL i Hi) as (n & Hn & HLi). pose proof (valueAt_range c i Forward first) as Hv.
  assert (Hlen' : length (Ly (S i)) = layerLen (S i) overhead).
  { apply (layered_length Forward first); auto; pose proof room; lia. }
  unfold Peel, with_aead. rewrite Ha, Hidx, Hov, Hoff.
  unfold bindM, lift. rewrite data_cell_header by auto using link_range with jimichi.
  cbn [h_Circuit h_Counter h_Version h_Kind].
  rewrite hop_nonce_size, Hn, data_cell_body, Htake, HLi, aad_data by done.
  rewrite (open_layer i Forward (valueAt c i Forward first)) by (try apply Hv; auto).
  unfold rand_read, draw. rewrite read_full_enough by (rewrite Hlen'; unfold layerLen; lia).
  rewrite data_cell_new.
  2:{ rewrite length_app, length_take, Hlen'. unfold layerLen in *. lia. }
  eexists _, _. split; [reflexivity|]. split_and!.
  - rewrite length_app, length_take, Hlen'. unfold layerLen in *. lia.
  - rewrite <- Hlen', take_app_length. done.
  - simpl. rewrite length_drop. lia.
Qed.

Lemma travel_on_link first Ly i n cell w :
  layered Forward first Ly -> length (Ly k) = layerLen k overhead -> (i + n < k)%nat ->
  on_link first Ly i cell -> (n * BodySize <= length (entropy w))%nat ->
  exists cell' w', travel hs links i n cell w = (Ok cell', w') /\ on_link first Ly (i + n) cell' /\
    (length (entropy w) <= length (entropy w') + n * BodySize)%nat.
Proof.
  intros HL Hk. revert i cell w. induction n as [|n IH]; intros i cell w Hin Hon Hw.
  { exists cell, w. rewrite Nat.add_0_r. split_and!; [done|done|lia]. }
  destruct (peel_on_link first Ly i cell w) as (body & w1 & HP & Hb & Ht & He); auto; try lia.
  cbn [travel]. unfold bindM. rewrite HP, data_cell_set, value_step_forward by lia.
  destruct (IH (S i) (data_cell (links !!! S i) (valueAt c (S i) Forward first) body) w1)
    as (cell' & w2 & HT & Hon' & He'); [lia | by exists body | lia |].
  exists cell', w2. rewrite Nat.add_succ_r. split_and!; [done | done | lia].
Qed.

(** What the client puts on its own link. *)
Lemma seal_on_link n payload cover w :
  0 <= n < cellLimit -> Z.of_nat (length payload) <= MaxPayload c ->
  (BodySize <= length (entropy w))%nat ->
  exists cell w' inner Ly, Circuit_seal c n payload cover w = (Ok cell, w') /\
    frame (BodySize - k * overhead) payload cover w = (Ok inner, w') /\
    layered Forward n Ly /\ Ly k = inner /\ length inner = layerLen k overhead /\ on_link n Ly 0 cell.
Proof.
  intros Hn Hmax Hw. pose proof room as Hroom. pose proof (co_pos _ _ _ _ Hc) as Hpos. fold k in Hpos.
  pose proof (co_hops _ _ _ _ Hc) as Hh. fold k in Hh.
  pose proof (co_overhead _ _ _ _ Hc) as Hov.
  assert (Hn' : 0 <= n < counterLimit) by (unfold cellLimit, counterLimit in *; lia).
  unfold MaxPayload in Hmax. rewrite Hh, Hov in Hmax. unfold lengthPrefix in Hmax.
  destruct (frame_total (BodySize - k * overhead) payload cover w) as (inner & e & HF & _);
    [unfold lengthPrefix; lia | unfold coverFlag, BodySize in *; lia | lia |].
  pose proof (frame_ok _ _ _ _ _ _ HF) as (_ & _ & Hli & _).
  destruct (layered_exists Forward n inner) as (Ly & HL & HLk); [by left|].
  pose proof (seal_layers_run n Ly (links !!! 0%nat) n (replicate BodySize x00) k HL (le_n k)) as HS.
  rewrite HLk in HS.
  assert (HL0 : length (Ly 0%nat) = BodySize).
  { rewrite (layered_length Forward n) by (try rewrite HLk; auto; lia). unfold layerLen. lia. }
  assert (Hseal : Circuit_seal c n payload cover w
    = (Ok (data_cell (links !!! 0%nat) n (Ly 0%nat)), with_entropy e w)).
  { unfold Circuit_seal. rewrite Hh, (proj2 (Nat.eqb_neq _ _)) by lia.
    unfold MaxPayload, lengthPrefix. rewrite Hh, Hov.
    rewrite (proj2 (Z.ltb_ge _ _)), (proj2 (Z.leb_gt _ _)) by lia.
    unfold bindM, lift. rewrite HF, (co_clinks _ _ _ _ Hc).
    rewrite data_cell_new, HS, HL0, Nat.eqb_refl by apply length_replicate. cbn [negb].
    unfold retM. do 2 f_equal. unfold data_cell, headerSize.
    change (Version :: KindData :: be 8 (links !!! 0%nat) ++ be 8 n ++ replicate BodySize x00)
      with (([Version; KindData] ++ be 8 (links !!! 0%nat) ++ be 8 n) ++ replicate BodySize x00).
    rewrite copy_at_app, HL0, drop_ge, app_nil_r by (len; done). done. }
  exists (data_cell (links !!! 0%nat) n (Ly 0%nat)), (with_entropy e w), inner, Ly.
  split_and!; auto. exists (Ly 0%nat). rewrite value_first_forward by done.
  split_and!; auto. apply take_ge. rewrite HL0. unfold layerLen. lia.
Qed.

(** ** Backward: the counters, one relay, then all of them *)

Definition bwd_sum (l : list Offsets) : Z := off_bwd (sum_offsets l).

Lemma bwd_sum_range l : 0 <= bwd_sum l < counterLimit.
Proof. exact (sum_offsets_range l Backward). Qed.

Lemma bwd_sum_app l m : bwd_sum (l ++ m) = shift (bwd_sum l) (bwd_sum m).
Proof.
  unfold bwd_sum. induction m as [|o m IH] using rev_ind.
  - rewrite app_nil_r. change (off_bwd (sum_offsets [])) with 0.
    by rewrite shift_0_r by apply bwd_sum_range.
  - rewrite app_assoc, !sum_offsets_snoc. cbn [add_offsets off_bwd]. by rewrite IH, shift_shift.
Qed.

(** The counter a reply numbered [n] carries on the link out of hop [i]. *)
Definition back_value (n : Z) (i : nat) : Z := shift n (bwd_sum (drop i offs)).

Lemma back_value_end n : 0 <= n < counterLimit -> back_value n k = n.
Proof.
  intros Hn. unfold back_value. rewrite drop_ge by (rewrite (co_offs _ _ _ _ Hc); done).
  by apply shift_0_r.
Qed.

Lemma back_value_step n i :
  (i < k)%nat -> shift (back_value n (S i)) (off_bwd (offs !!! i)) = back_value n i.
Proof.
  intros Hi. unfold back_value. rewrite (drop_S _ _ i (offs_lookup i Hi)).
  change (offs !!! i :: drop (S i) offs) with ([offs !!! i] ++ drop (S i) offs).
  rewrite bwd_sum_app. change (bwd_sum [offs !!! i]) with (shift 0 (off_bwd (offs !!! i))).
  rewrite shift_shift, (shift_comm (shift 0 _)), (shift_comm 0).
  rewrite <- !shift_shift, (shift_0_r (shift _ _)) by apply shift_range.
  reflexivity.
Qed.

(** The client computes the same values from the one on its own link. *)
Lemma valueAt_back n i : (i < k)%nat -> valueAt c i Backward (back_value n 0) = back_value n i.
Proof.
  intros Hi. unfold valueAt. simpl (Backward =? Forward). cbv iota.
  rewrite (co_before _ _ _ _ Hc) by done. unfold back_value. rewrite drop_0.
  rewrite <- (take_drop i offs) at 1. rewrite bwd_sum_app. apply unshift_shift_l.
Qed.

Lemma reply_number n : 0 <= n < counterLimit -> ReplyNumber c (back_value n 0) = n.
Proof.
  intros Hn. unfold ReplyNumber, back_value. rewrite (co_total _ _ _ _ Hc), drop_0.
  by apply unshift_shift.
Qed.

(** One backward layer, whoever puts it on. *)
Lemma hop_seal_step n Ly i inner w :
  (i < k)%nat -> layered Backward (back_value n 0) Ly -> length (Ly k) = layerLen k overhead ->
  inner = Ly (S i) -> (BodySize <= length (entropy w))%nat ->
  exists cell w', Hop_seal (hs !!! i) {| h_Version := x00; h_Kind := KindData; h_Circuit := links !!! i;
                                        h_Counter := back_value n i |} inner w = (Ok cell, w') /\
    (exists body, cell = data_cell (links !!! i) (back_value n i) body /\
       length body = BodySize /\ take (layerLen i overhead) body = Ly i) /\
    (length (entropy w) <= length (entropy w') + BodySize)%nat.
Proof.
  intros Hi HL Hk -> Hw. destruct (hop_fields i Hi) as (Ha & Hidx & Hov & Hoff & _).
  destruct (HL i Hi) as (nonce & Hn & HLi). rewrite valueAt_back in Hn, HLi by done.
  assert (Hli : length (Ly i) = layerLen i overhead).
  { apply (layered_length Backward (back_value n 0)); auto; pose proof room; lia. }
  unfold Hop_seal, with_aead. rewrite Ha, Hidx. unfold bindM, lift.
  rewrite data_cell_new by apply length_replicate. cbn [h_Circuit h_Counter].
  rewrite hop_nonce_size, Hn, aad_data, <- HLi by done.
  unfold rand_read, draw. rewrite read_full_enough by (rewrite Hli; unfold layerLen; lia).
  eexists _, _. split; [reflexivity|]. split.
  - exists (Ly i ++ take (BodySize - length (Ly i)) (entropy w)). split_and!.
    + unfold data_cell, headerSize.
      change (Version :: KindData :: be 8 (links !!! i) ++ be 8 (back_value n i) ++ replicate BodySize x00)
        with (([Version; KindData] ++ be 8 (links !!! i) ++ be 8 (back_value n i)) ++ replicate BodySize x00).
      rewrite take_app_length' by (len; done). done.
    + rewrite length_app, length_take, Hli. unfold layerLen. lia.
    + rewrite <- Hli, take_app_length. done.
  - simpl. rewrite length_drop. lia.
Qed.

Definition on_back (n : Z) (Ly : nat -> bytes) (i : nat) (cell : bytes) : Prop :=
  exists body, cell = data_cell (links !!! i) (back_value n i) body /\
    length body = BodySize /\ take (layerLen i overhead) body = Ly i.

Lemma return_trip_on_back n Ly i cell w :
  layered Backward (back_value n 0) Ly -> length (Ly k) = layerLen k overhead ->
  (i < k)%nat -> on_back n Ly i cell -> (i * BodySize <= length (entropy w))%nat ->
  exists cell' w', return_trip hs links i cell w = (Ok cell', w') /\ on_back n Ly 0 cell'.
Proof.
  intros HL Hk. revert cell w. induction i as [|i IH]; intros cell w Hi Hon Hw.
  { by exists cell, w. }
  destruct Hon as (body & -> & Hlen & Htake).
  destruct (hop_fields i) as (Ha & Hidx & Hov & Hoff & _); [lia|].
  assert (Hrange : 0 <= back_value n (S i) < counterLimit) by apply shift_range.
  destruct (hop_seal_step n Ly i (take (layerLen (i + 1) overhead) body) w)
    as (out & w1 & HS & Hon' & He); auto; [lia | by rewrite Nat.add_1_r | lia |].
  destruct (IH out w1) as (cell' & w2 & HR & Hon0); [lia | done | lia |].
  exists cell', w2. split; [|done]. cbn [return_trip]. unfold bindM at 1.
  assert (HW : Wrap (hs !!! i) (data_cell (links !!! S i) (back_value n (S i)) body) (links !!! i) w
    = (Ok out, w1)).
  { unfold Wrap, with_aead. rewrite Ha, Hidx, Hov, Hoff. unfold bindM, lift.
    rewrite data_cell_header by auto using link_range with jimichi. cbn [h_Kind h_Counter].
    rewrite bool_decide_true by done. cbn [negb].
    rewrite (proj2 (Z.leb_gt _ _)), back_value_step by (lia || apply Hrange).
    exact HS. }
  by rewrite HW.
Qed.

(** What the exit puts on the link back to its neighbour. *)
Lemma reply_on_back n payload cover w :
  0 <= n < cellLimit -> Z.of_nat (length payload) <= MaxPayload c ->
  (2 * BodySize <= length (entropy w))%nat ->
  exists cell w' inner Ly w1, sealReply (hs !!! (k - 1)%nat) (links !!! (k - 1)%nat) n payload cover w = (Ok cell, w') /\
    frame (BodySize - k * overhead) payload cover w = (Ok inner, w1) /\
    layered Backward (back_value n 0) Ly /\ Ly k = inner /\ length inner = layerLen k overhead /\
    on_back n Ly (k - 1) cell /\ (length (entropy w) <= length (entropy w') + 2 * BodySize)%nat.
Proof.
  intros Hn Hmax Hw. pose proof room as Hroom. pose proof (co_pos _ _ _ _ Hc) as Hpos. fold k in Hpos.
  unfold MaxPayload in Hmax. rewrite (co_hops _ _ _ _ Hc), (co_overhead _ _ _ _ Hc) in Hmax. fold k in Hmax.
  unfold lengthPrefix in Hmax.
  destruct (frame_total (BodySize - k * overhead) payload cover w) as (inner & e & HF & He);
    [unfold lengthPrefix; lia | unfold coverFlag, BodySize in *; lia | lia |].
  pose proof (frame_ok _ _ _ _ _ _ HF) as (_ & _ & Hli & _).
  destruct (layered_exists Backward (back_value n 0) inner) as (Ly & HL & HLk); [by right|].
  destruct (hop_fields (k - 1)) as (Ha & Hidx & Hov & Hoff & _); [lia|].
  destruct (hop_seal_step n Ly (k - 1) inner (with_entropy e w)) as (cell & w' & HS & Hon & He').
  { lia. } { done. } { by rewrite HLk. } { replace (S (k - 1)) with k by lia. done. }
  { simpl. lia. }
  exists cell, w', inner, Ly, (with_entropy e w). split_and!; auto; [|simpl in He'; lia].
  unfold sealReply, with_aead. rewrite Ha, Hidx, Hov, Hoff, (proj2 (Z.leb_gt _ _)) by lia.
  replace (layerLen (k - 1) overhead - overhead)%nat with (BodySize - k * overhead)%nat
    by (unfold layerLen; nia).
  unfold bindM at 1. rewrite HF. rewrite <- HS. do 2 f_equal.
  rewrite <- back_value_step by lia. replace (S (k - 1)) with k by lia.
  rewrite back_value_end; [done|]. unfold cellLimit, counterLimit in *. lia.
Qed.

End Layers.

(** ** A circuit of three hops over the toy suite *)

Module Demo.
Import ToySuite.

Definition keys : list bytes := [replicate 32 x01; replicate 32 x02; replicate 32 x03].

Definition offs : list Offsets :=
  [{| off_fwd := 5; off_bwd := 2 ^ 62 - 9 |}; {| off_fwd := 2 ^ 61; off_bwd := 11 |};
   {| off_fwd := 2 ^ 61 + 3; off_bwd := 0 |}].

Definition links : list Z := [7; 2 ^ 64 - 1; 12].

Definition circuit : Circuit := get_ok (NewCircuit keys offs links) eq_refl.

Definition hops : list Hop :=
  [get_ok (NewHop (keys !!! 0%nat) (offs !!! 0%nat) 0) eq_refl;
   get_ok (NewHop (keys !!! 1%nat) (offs !!! 1%nat) 1) eq_refl;
   get_ok (NewHop (keys !!! 2%nat) (offs !!! 2%nat) 2) eq_refl].

Definition world : World := {| entropy := replicate 2500 x5a; size_cache := ∅; pub_cache := ∅ |}.

Lemma circuit_ok : NewCircuit keys offs links = Ok circuit.
Proof. apply get_ok_spec. Qed.

Lemma hops_ok : hops_of keys offs hops.
Proof.
  split; [done|]. intros [|[|[|i]]] Hi; [exact (get_ok_spec _ _) .. |].
  simpl in Hi. lia.
Qed.

Definition sent : res Cell * World := Circuit_seal circuit 41 (str "hello") false world.

Lemma sent_ok : is_ok (fst sent) = true.
Proof. vm_compute. reflexivity. Qed.

Definition cell : Cell := get_ok (fst sent) sent_ok.

Lemma cell_ok : Circuit_seal circuit 41 (str "hello") false world = (Ok cell, snd sent).
Proof.
  change (Circuit_seal circuit 41 (str "hello") false world) with sent.
  unfold cell. rewrite <- get_ok_spec. by destruct sent.
Qed.


End Demo.

(** ** Properties *)

(** The links of a circuit fit their 64-bit field. *)
Definition good_links (links : list Z) : Prop := Forall (fun l => 0 <= l < 2 ^ 64) links.

Lemma demo_links : good_links Demo.links.
Proof. repeat constructor; lia. Qed.

Section Properties.
Context {P : CryptoProvider} {L : CryptoLaws}.

(** C1. A message reaches the exit: for a circuit and the relays that hold its
    keys and offsets at their positions, any payload up to [MaxPayload] (or
    cover) sealed under any counter the code takes goes out as one cell of the
    one size, and the relays, each peeling its layer and rewriting the circuit,
    bring the exit to exactly that payload and cover flag, whatever randomness
    the client and the relays padded with. *)
Theorem forward_delivery keys offs links c hs payload cover n w :
  NewCircuit keys offs links = Ok c -> good_links links -> hops_of keys offs hs ->
  0 <= n < cellLimit -> (cover = true -> payload = []) ->
  Z.of_nat (length payload) <= MaxPayload c -> (BodySize <= length (entropy w))%nat ->
  exists cell w1, Circuit_seal c n payload cover w = (Ok cell, w1) /\ length cell = CellSize /\
    forall w2, (length hs * BodySize <= length (entropy w2))%nat ->
      exists w3, deliver hs links cell w2 = (Ok (payload, cover), w3).
Proof.
  intros Hc%NewCircuit_ok Hli Hhs Hn Hcov Hmax Hw.
  destruct (seal_on_link keys offs links c Hc hs Hhs n payload cover w Hn Hmax Hw)
    as (cell & w1 & inner & Ly & HS & HF & HL & HLk & Hlen & Hon).
  exists cell, w1. split; [done|]. split.
  { destruct Hon as (body & -> & Hb & _). by apply data_cell_length. }
  intros w2 Hw2. pose proof (proj1 Hhs) as Hk. rewrite Hk in Hw2.
  pose proof (co_pos _ _ _ _ Hc) as Hpos.
  assert (HLlen : length (Ly (length keys)) = layerLen (length keys) overhead) by (rewrite HLk; done).
  destruct (travel_on_link keys offs links c Hc Hli hs Hhs n Ly 0 (length keys - 1) cell w2)
    as (cell' & w3 & HT & Hon' & He); auto; try lia; try nia.
  unfold deliver. rewrite Hk. unfold bindM at 1. rewrite HT.
  destruct (peel_on_link keys offs links c Hc Hli hs Hhs n Ly (length keys - 1) cell' w3)
    as (body & w4 & HP & Hb & Ht & _); auto; try lia; try nia.
  exists w4. unfold OpenLast, bindM, lift. rewrite HP, data_cell_body.
  replace (S (length keys - 1)) with (length keys) in Ht by lia. rewrite HLk in Ht.
  rewrite <- (take_drop (layerLen (length keys) overhead) body), Ht.
  by rewrite (unframe_frame _ _ _ _ _ _ _ Hcov HF).
Qed.

(** What a link shows: on its way the cell always has the one size and kind
    data, and on the link into hop [i] it carries that link's circuit
    identifier and the first counter plus the offsets of the hops passed. *)
Theorem forward_headers keys offs links c hs payload cover n w cell w1 i w2 :
  NewCircuit keys offs links = Ok c -> good_links links -> hops_of keys offs hs ->
  0 <= n < cellLimit -> Z.of_nat (length payload) <= MaxPayload c ->
  (BodySize <= length (entropy w))%nat -> Circuit_seal c n payload cover w = (Ok cell, w1) ->
  (i < length hs)%nat -> (i * BodySize <= length (entropy w2))%nat ->
  exists cell' w3, travel hs links 0 i cell w2 = (Ok cell', w3) /\ length cell' = CellSize /\
    Cell_Header cell' = Ok {| h_Version := Version; h_Kind := KindData; h_Circuit := links !!! i;
      h_Counter := shift n (off_fwd (sum_offsets (take i offs))) |}.
Proof.
  intros Hc%NewCircuit_ok Hli Hhs Hn Hmax Hw Hcell Hi Hw2.
  destruct (seal_on_link keys offs links c Hc hs Hhs n payload cover w Hn Hmax Hw)
    as (cell0 & w0 & inner & Ly & HS & HF & HL & HLk & Hlen & Hon).
  rewrite Hcell in HS. injection HS as <- <-.
  pose proof (proj1 Hhs) as Hk. rewrite Hk in Hi.
  assert (HLlen : length (Ly (length keys)) = layerLen (length keys) overhead) by (rewrite HLk; done).
  destruct (travel_on_link keys offs links c Hc Hli hs Hhs n Ly 0 i cell w2)
    as (cell' & w3 & HT & (body & -> & Hb & _) & _); auto; try lia; try nia.
  eexists _, _. split; [exact HT|]. split; [by apply data_cell_length|].
  rewrite data_cell_header.
  - simpl (0 + i)%nat. unfold valueAt. simpl (Forward =? Forward). cbv iota.
    by rewrite (co_before _ _ _ _ Hc) by done.
  - eapply link_range; eauto.
  - apply limit_64, valueAt_range.
Qed.

(** C2. A reply comes back: the exit's reply number [n], wrapped once by every
    relay on the way, reaches the client as one cell on the client's own link,
    opens there to exactly the payload and cover flag sent, and the client
    recovers the number [n] from the counter it carries. *)
Theorem backward_delivery keys offs links c hs payload cover n w :
  NewCircuit keys offs links = Ok c -> good_links links -> hops_of keys offs hs ->
  0 <= n < cellLimit -> (cover = true -> payload = []) ->
  Z.of_nat (length payload) <= MaxPayload c ->
  ((length hs + 1) * BodySize <= length (entropy w))%nat ->
  exists cell w' h, send_back hs links n payload cover w = (Ok cell, w') /\
    length cell = CellSize /\ Cell_Header cell = Ok h /\ h_Kind h = KindData /\
    h_Circuit h = links !!! 0%nat /\ OpenExit c cell Backward = Ok (payload, cover) /\
    ReplyNumber c (h_Counter h) = n.
Proof.
  intros Hc%NewCircuit_ok Hli Hhs Hn Hcov Hmax Hw.
  pose proof (proj1 Hhs) as Hk. pose proof (co_pos _ _ _ _ Hc) as Hpos.
  destruct (reply_on_back keys offs links c Hc hs Hhs n payload cover w)
    as (cell & w' & inner & Ly & w1 & HS & HF & HL & HLk & Hlen & Hon & He); auto; try lia; try nia.
  assert (HLlen : length (Ly (length keys)) = layerLen (length keys) overhead) by (rewrite HLk; done).
  destruct (return_trip_on_back keys offs links c Hc Hli hs Hhs n Ly (length keys - 1) cell w')
    as (cell' & w2 & HR & (body & -> & Hb & Ht)); auto; try lia; try nia.
  assert (Hv : 0 <= back_value offs n 0 < counterLimit) by apply shift_range.
  assert (Hl0 : 0 <= links !!! 0%nat < 2 ^ 64) by (eapply link_range; eauto).
  eexists _, w2, _. split; [unfold send_back, bindM; rewrite Hk, HS; exact HR|].
  split; [by apply data_cell_length|].
  rewrite data_cell_header by auto using limit_64. split; [done|]. cbn [h_Kind h_Circuit h_Counter].
  split_and!; [done | done | | by eapply reply_number; [eauto | unfold cellLimit, counterLimit in *; lia]].
  unfold OpenExit. rewrite data_cell_header by auto using limit_64. cbn [rbind h_Counter].
  rewrite (proj2 (Z.leb_gt _ _)), data_cell_body, (co_hops _ _ _ _ Hc) by apply Hv.
  pose proof (room keys offs links c Hc hs Hhs) as Hroom.
  destruct (open_layers_layered keys offs links c Hc Backward (back_value offs n 0) Ly
    (links !!! 0%nat) (back_value offs n 0) body 0 (length keys) body)
    as (body' & HO & _ & Hk'); auto; try lia; try nia.
  rewrite HO. cbn [rbind]. rewrite Hk' by lia. rewrite HLk.
  rewrite <- (app_nil_r inner). by eapply unframe_frame.
Qed.

(** What [Seal] refuses and why: a closed circuit, a payload over
    [MaxPayload] with [ErrPayloadSize], and a counter past the limit, and it
    draws no randomness for any of them. *)
Theorem seal_refuses c n payload cover w :
  (Hops c = 0%nat \/ MaxPayload c < Z.of_nat (length payload) \/ cellLimit <= n) ->
  exists e, Circuit_seal c n payload cover w = (Err e, w) /\
    (errors_is e wire_ErrPayloadSize = true <->
     Hops c <> 0%nat /\ MaxPayload c < Z.of_nat (length payload)).
Proof.
  intros H. unfold Circuit_seal.
  destruct (Nat.eqb_spec (Hops c) 0) as [E|E].
  { eexists. split; [reflexivity|]. split; [done|]. by intros []. }
  destruct (Z.ltb_spec (MaxPayload c) (Z.of_nat (length payload))) as [E1|E1].
  { eexists. split; [reflexivity|]. done. }
  rewrite (proj2 (Z.leb_le _ _)) by lia.
  eexists. split; [reflexivity|]. split; [done|]. lia.
Qed.


End Properties.

(** ** Witnesses *)

Import ToySuite.

(** Discharge the hypotheses of a property about the demo circuit. *)
Ltac demo :=
  first [exact Demo.circuit_ok | exact demo_links | exact Demo.hops_ok
        | apply Z.leb_le; reflexivity | apply Z.ltb_lt; reflexivity
        | apply Nat.leb_le; reflexivity | done | vm_compute; split; congruence].

Lemma forward_delivery_witness :
  NewCircuit Demo.keys Demo.offs Demo.links = Ok Demo.circuit /\
  exists cell w1, Circuit_seal Demo.circuit 41 (str "hello") false Demo.world = (Ok cell, w1) /\
    length cell = CellSize /\
    forall w2, (length Demo.hops * BodySize <= length (entropy w2))%nat ->
      exists w3, deliver Demo.hops Demo.links cell w2 = (Ok (str "hello", false), w3).
Proof.
  split; [exact Demo.circuit_ok|].
  apply (forward_delivery Demo.keys Demo.offs); demo.
Defined.

Lemma backward_delivery_witness :
  NewCircuit Demo.keys Demo.offs Demo.links = Ok Demo.circuit /\
  exists cell w' h, send_back Demo.hops Demo.links 3 [] true Demo.world = (Ok cell, w') /\
    length cell = CellSize /\ Cell_Header cell = Ok h /\ h_Kind h = KindData /\
    h_Circuit h = 7 /\ OpenExit Demo.circuit cell Backward = Ok ([], true) /\
    ReplyNumber Demo.circuit (h_Counter h) = 3.
Proof.
  split; [exact Demo.circuit_ok|].
  apply (backward_delivery Demo.keys Demo.offs); demo.
Defined.

Lemma seal_refuses_witness :
  MaxPayload Demo.circuit = 444 /\
  exists e, Circuit_seal Demo.circuit 0 (replicate 445 x00) false Demo.world = (Err e, Demo.world) /\
    (errors_is e wire_ErrPayloadSize = true <->
     Hops Demo.circuit <> 0%nat /\ MaxPayload Demo.circuit < Z.of_nat (length (replicate 445 x00))).
Proof.
  split; [reflexivity|]. apply seal_refuses. right. left. reflexivity.
Defined.

Lemma forward_headers_witness :
  Circuit_seal Demo.circuit 41 (str "hello") false Demo.world = (Ok Demo.cell, snd Demo.sent) /\
  exists cell' w3, travel Demo.hops Demo.links 0 2 Demo.cell Demo.world = (Ok cell', w3) /\
    length cell' = CellSize /\
    Cell_Header cell' = Ok {| h_Version := Version; h_Kind := KindData; h_Circuit := 12;
      h_Counter := 2 ^ 61 + 46 |}.
Proof.
  split; [exact Demo.cell_ok|].
  apply (forward_headers Demo.keys Demo.offs Demo.links Demo.circuit Demo.hops (str "hello") false 41
    Demo.world Demo.cell (snd Demo.sent) 2 Demo.world); first [exact Demo.cell_ok | demo].
Defined.

