(* ===== verification/Setup.v ===== *)
(** * Setup: the nested setup cell

    Models [src/wire/setup.go].  [BuildSetup] seals one layer per relay, each
    addressed to the relay's onion key; [OpenSetup] is what a relay does with
    its layer and [ForwardSetup] what it passes on.  The probe of [sizesOf] is
    remembered in the world.  Releasing key buffers is not modelled here. *)

From Stdlib Require Import Strings.Byte Strings.String.
From S2P Require Import Prelude Effects Crypto C25519 Toy Cell Onion Chain.

Definition AddrSize : nat := 64.
Definition setupFlags : nat := 1.
Definition setupHdr : nat := 73.  (* setupFlags + AddrSize + 8 *)

Definition exchangeSetup : bytes := str "setup".
Definition purposeSetup : bytes := str "setup".
Definition purposeCell : bytes := str "cell".
Definition purposeReplay : bytes := str "setup/replay".

Record SetupHop : Type := {
  sh_StaticPub : bytes;
  sh_NextAddr : bytes;
  sh_NextCircuit : Z;
  sh_Link : Z
}.

#[export] Instance SetupHop_inhabited : Inhabited SetupHop :=
  populate {| sh_StaticPub := []; sh_NextAddr := []; sh_NextCircuit := 0; sh_Link := 0 |}.

Record SetupResult : Type := {
  sr_Cell : Cell;
  sr_CellKeys : list bytes;
  sr_Offsets : list Offsets
}.

Record SetupLayer : Type := {
  sl_NextAddr : bytes;
  sl_NextCircuit : Z;
  sl_Inner : bytes;
  sl_CellKey : bytes;
  sl_Offsets : Offsets;
  sl_First : Z;
  sl_Tag : bytes
}.

(** What the client holds per hop while it builds the cell. *)
Record HopKeys : Type := {
  hk_setup : bytes;
  hk_cell : bytes;
  hk_offsets : Offsets;
  hk_eph : bytes
}.

#[export] Instance HopKeys_inhabited : Inhabited HopKeys :=
  populate {| hk_setup := []; hk_cell := []; hk_offsets := inhabitant; hk_eph := [] |}.

(** A layer that does not fit is a negative length in Go; the callers ask
    [setupFits] first. *)
Definition setupLayerLen (index perHop : nat) : nat := BodySize - index * perHop.

Definition setupFits (index perHop : nat) : bool := (index * perHop <=? BodySize)%nat.

Definition perHopCost (pubLen ov : nat) : nat := pubLen + ov + setupHdr.

Definition putAddr (dst addr : bytes) : res bytes :=
  if (length dst <? length addr)%nat then Err (Sentinel wire_ErrAddrSize)
  else Ok (copy_at 0 addr dst).

(** [strings.TrimRight(s, "\x00")] *)
Fixpoint takeAddr (src : bytes) : bytes :=
  match src with
  | [] => []
  | b :: t => match takeAddr t with
              | [] => if bool_decide (b = x00) then [] else [b]
              | r => b :: r
              end
  end.

(** The counter the first forward cell carries into the hop after these. *)
Definition firstForward (before : list Offsets) : Z :=
  foldl (fun sum o => shift sum (off_fwd o)) 0 before.

Definition setupAAD (index : nat) : bytes := [Version; KindControl; byte_of_Z (Z.of_nat index)].

Section Setup.
Context {P : CryptoProvider}.

Definition sizesOf : M suiteSizes := fun w =>
  match size_cache w !! Suite with
  | Some v => (Ok v, w)
  | None =>
      (let! (_, pub) := draw GenerateEphemeral in
       let! a := lift (NewAEAD (replicate KeySize x00)) in
       let sz := {| sz_pub := length pub; sz_overhead := Overhead a |} in
       fun w => (Ok sz, with_size Suite sz w)) w
  end.

Definition PublicKeySize : M nat :=
  let! sz := sizesOf in retM (sz_pub sz).

Definition MaxLayers : M nat :=
  let! sz := sizesOf in
  retM (Nat.min (BodySize / perHopCost (sz_pub sz) (sz_overhead sz)) MaxHops).

Definition setupContext (index : nat) (link : Z) (staticPub ephPub : bytes) : res Context :=
  NewContext exchangeSetup [[Version]; [byte_of_Z (Z.of_nat index)]; be 8 link; staticPub; ephPub].

Definition setupTag (secret : bytes) (ctx : Context) : res bytes :=
  DeriveKey secret purposeReplay ctx 16.

(** The keys of one hop: what the first loop of [BuildSetup] does in a round. *)
Definition hop_keys (sz : suiteSizes) (i : nat) (hop : SetupHop) : M HopKeys :=
  if negb (length (sh_StaticPub hop) =? sz_pub sz)%nat
  then failM (ErrWrap (Other "wire: key of hop") (Sentinel crypto_ErrBadPublicKey))
  else
    let! (ephPriv, ephPub) := draw GenerateEphemeral in
    let! ctx := lift (setupContext i (sh_Link hop) (sh_StaticPub hop) ephPub) in
    let! secret := mwrap "wire: agree with hop" (lift (Agree ephPriv (sh_StaticPub hop) ctx)) in
    let! setupKey := lift (DeriveKey secret purposeSetup ctx KeySize) in
    let! cellKey := lift (DeriveKey secret purposeCell ctx KeySize) in
    let! offsets := lift (deriveOffsets secret ctx) in
    retM {| hk_setup := setupKey; hk_cell := cellKey; hk_offsets := offsets; hk_eph := ephPub |}.

Fixpoint all_keys (sz : suiteSizes) (i : nat) (chain : list SetupHop) : M (list HopKeys) :=
  match chain with
  | [] => retM []
  | hop :: rest =>
      let! k := hop_keys sz i hop in
      let! ks := all_keys sz (S i) rest in
      retM (k :: ks)
  end.

(** The plaintext of one layer. *)
Definition layer_plain (before : list Offsets) (hop : SetupHop) (body : bytes) : res bytes :=
  let more := negb (bool_decide (sh_NextAddr hop = [])) in
  let next := if more then sh_NextCircuit hop else firstForward before in
  let? addr := putAddr (replicate AddrSize x00) (sh_NextAddr hop) in
  Ok ((if more then x01 else x00) :: addr ++ be 8 next ++ body).

(** The second loop of [BuildSetup], innermost layer first. *)
Fixpoint seal_setup (i : nat) (before : list Offsets) (chain : list SetupHop) (ks : list HopKeys)
    (innermost : bytes) : res bytes :=
  match chain, ks with
  | hop :: chain', k :: ks' =>
      let? body := seal_setup (S i) (before ++ [hk_offsets k]) chain' ks' innermost in
      let? plain := layer_plain before hop body in
      let? a := NewAEAD (hk_setup k) in
      let? nonce := nonceFor (NonceSize a) Forward (sh_Link hop) 0 in
      Ok (hk_eph k ++ Seal a nonce plain (setupAAD i))
  | _, _ => Ok innermost
  end.

Definition BuildSetup (chain : list SetupHop) : M SetupResult :=
  if (length chain =? 0)%nat then failM (Other "wire: empty chain")
  else
    let! sz := sizesOf in
    let perHop := perHopCost (sz_pub sz) (sz_overhead sz) in
    if negb (setupFits (length chain) perHop) then failM (Sentinel wire_ErrSetupSize)
    else
      let! ks := all_keys sz 0 chain in
      let! innermost := rand_read (setupLayerLen (length chain) perHop) in
      let! body := lift (seal_setup 0 [] chain ks innermost) in
      let! pad := rand_read (BodySize - length body) in
      let! cell := lift (NewCell {| h_Version := x00; h_Kind := KindControl;
                                    h_Circuit := sh_Link (chain !!! 0%nat); h_Counter := 0 |}
                                 (body ++ pad)) in
      retM {| sr_Cell := cell; sr_CellKeys := hk_cell <$> ks; sr_Offsets := hk_offsets <$> ks |}.

Definition OpenSetup (staticPriv staticPub : bytes) (cell : Cell) : M SetupLayer :=
  let! hdr := lift (Cell_Header cell) in
  if negb (bool_decide (h_Kind hdr = KindControl)) then failM (Other "wire: not a setup cell")
  else if Z.of_nat MaxHops <=? h_Counter hdr then failM (Sentinel wire_ErrSetupSize)
  else
    let index := Z.to_nat (h_Counter hdr) in
    let! sz := sizesOf in
    if negb (length staticPub =? sz_pub sz)%nat then failM (Sentinel crypto_ErrBadPublicKey)
    else
      let perHop := perHopCost (sz_pub sz) (sz_overhead sz) in
      let layerLen := setupLayerLen index perHop in
      if negb (setupFits index perHop) || (layerLen <=? sz_pub sz + sz_overhead sz)%nat
         || (BodySize <? layerLen)%nat
      then failM (Sentinel wire_ErrSetupSize)
      else
        let layer := take layerLen (Cell_Body cell) in
        let ephPub := take (sz_pub sz) layer in
        let! ctx := lift (setupContext index (h_Circuit hdr) staticPub ephPub) in
        let! secret := lift (Agree staticPriv ephPub ctx) in
        let! setupKey := lift (DeriveKey secret purposeSetup ctx KeySize) in
        let! tag := lift (setupTag secret ctx) in
        let! cellKey := lift (DeriveKey secret purposeCell ctx KeySize) in
        let! offsets := lift (deriveOffsets secret ctx) in
        let! a := lift (NewAEAD setupKey) in
        let! nonce := lift (nonceFor (NonceSize a) Forward (h_Circuit hdr) 0) in
        let! plain := lift (Open a nonce (drop (sz_pub sz) layer) (setupAAD index)) in
        if (length plain <? setupHdr)%nat then failM (Sentinel wire_ErrFraming)
        else
          let next := unbe (slice (setupFlags + AddrSize) setupHdr plain) in
          let inner := drop setupHdr plain in
          if bool_decide (plain !!! 0%nat = x01) then
            retM {| sl_NextAddr := takeAddr (slice setupFlags (setupFlags + AddrSize) plain);
                    sl_NextCircuit := next; sl_Inner := inner; sl_CellKey := cellKey;
                    sl_Offsets := offsets; sl_First := 0; sl_Tag := tag |}
          else if counterLimit <=? next then failM (Sentinel wire_ErrFraming)
          else
            retM {| sl_NextAddr := []; sl_NextCircuit := 0; sl_Inner := inner; sl_CellKey := cellKey;
                    sl_Offsets := offsets; sl_First := next; sl_Tag := tag |}.

Definition ForwardSetup (layer : SetupLayer) (index : nat) : M Cell :=
  let! pad := rand_read (BodySize - length (sl_Inner layer)) in
  lift (NewCell {| h_Version := x00; h_Kind := KindControl; h_Circuit := sl_NextCircuit layer;
                   h_Counter := Z.of_nat (index + 1) |} (sl_Inner layer ++ pad)).

End Setup.

(** ** The cell on its way *)

Section Trip.
Context {P : CryptoProvider}.

(** Every relay opens its layer with its key pair and, while there is a next
    address, forwards; the layers the relays got. *)
Fixpoint setup_trip (nodes : list (bytes * bytes)) (i : nat) (cell : Cell) : M (list SetupLayer) :=
  match nodes with
  | [] => failM (Other "no such relay")
  | (priv, pub) :: rest =>
      let! layer := OpenSetup priv pub cell in
      if bool_decide (sl_NextAddr layer = []) then retM [layer]
      else
        let! next := ForwardSetup layer i in
        let! ls := setup_trip rest (S i) next in
        retM (layer :: ls)
  end.

(** The hop ciphers the relays make of their layers. *)
Fixpoint relay_hops (i : nat) (ls : list SetupLayer) : res (list Hop) :=
  match ls with
  | [] => Ok []
  | l :: ls' =>
      let? h := NewHop (sl_CellKey l) (sl_Offsets l) i in
      let? hs := relay_hops (S i) ls' in
      Ok (h :: hs)
  end.

End Trip.

(** ** The sizes of a suite *)

Section Laws.
Context {P : CryptoProvider} {L : CryptoLaws}.

Definition known_sizes : suiteSizes := {| sz_pub := pub_size; sz_overhead := overhead |}.

(** The size cache holds nothing but the truth; and it holds it. *)
Definition sizes_sound (w : World) : Prop := forall v, size_cache w !! Suite = Some v -> v = known_sizes.

Definition sizes_cached (w : World) : Prop := size_cache w !! Suite = Some known_sizes.

Definition perHop : nat := perHopCost pub_size overhead.

Lemma sizesOf_cached w : sizes_cached w -> sizesOf w = (Ok known_sizes, w).
Proof. unfold sizesOf. by intros ->. Qed.

Lemma sizesOf_ok w sz w' :
  sizes_sound w -> sizesOf w = (Ok sz, w') -> sz = known_sizes /\ sizes_cached w'.
Proof.
  intros Hs H. unfold sizesOf in H. destruct (size_cache w !! Suite) as [v|] eqn:E.
  { injection H as <- <-. pose proof (Hs v E) as ->. by split. }
  apply bindM_ok in H as ([priv pub] & w1 & H1 & H). inv_m. injection H as <- <-.
  apply draw_ok in H1 as (e & H1 & ->).
  destruct (aead_sizes _ _ Ha) as [_ Ho]. rewrite Ho.
  rewrite (generate_pub_size priv pub) by (by eexists _, _). split; [done|].
  unfold sizes_cached, with_size. simpl. apply lookup_insert_eq.
Qed.

Lemma fits_hops k : setupFits k perHop = true -> (k <= 6)%nat.
Proof.
  unfold setupFits, perHop, perHopCost, setupHdr, BodySize.
  pose proof pub_size_range. pose proof overhead_small.
  intros Hk%Nat.leb_le. nia.
Qed.

(** ** The keys the client derives *)

Record made (i : nat) (hop : SetupHop) (k : HopKeys) : Prop := {
  md_pub : length (sh_StaticPub hop) = pub_size;
  md_run : exists ephPriv ctx secret,
    KeyPair ephPriv (hk_eph k) /\
    setupContext i (sh_Link hop) (sh_StaticPub hop) (hk_eph k) = Ok ctx /\
    Agree ephPriv (sh_StaticPub hop) ctx = Ok secret /\
    DeriveKey secret purposeSetup ctx KeySize = Ok (hk_setup k) /\
    DeriveKey secret purposeCell ctx KeySize = Ok (hk_cell k) /\
    deriveOffsets secret ctx = Ok (hk_offsets k)
}.

Lemma hop_keys_ok i hop w k w' : hop_keys known_sizes i hop w = (Ok k, w') -> made i hop k.
Proof.
  unfold hop_keys. destruct (Nat.eqb_spec (length (sh_StaticPub hop)) pub_size) as [Hl|]; simpl;
    rewrite ?(proj2 (Nat.eqb_eq _ _) Hl), ?(proj2 (Nat.eqb_neq _ _)) by done; [|discriminate].
  simpl. intros H. apply bindM_ok in H as ([priv pub] & w1 & H1 & H). inv_m. subst.
  apply draw_ok in H1 as (e & H1 & _). simpl.
  split; [done|]. exists priv, a, a0. split_and!; try done.
  by eexists _, _.
Qed.

Lemma made_eph i hop k : made i hop k -> length (hk_eph k) = pub_size.
Proof. intros [_ (p & c & s & Hp & _)]. by eapply generate_pub_size. Qed.

Fixpoint all_made (i : nat) (chain : list SetupHop) (ks : list HopKeys) : Prop :=
  match chain, ks with
  | [], [] => True
  | hop :: chain', k :: ks' => made i hop k /\ all_made (S i) chain' ks'
  | _, _ => False
  end.

Lemma all_keys_ok i chain w ks w' : all_keys known_sizes i chain w = (Ok ks, w') -> all_made i chain ks.
Proof.
  induction chain as [|hop chain IH] in i, w, ks |- *; cbn [all_keys]; intros H; inv_m; subst; [done|].
  cbn [all_made]. split; [by eapply hop_keys_ok | by eapply IH].
Qed.

(** ** The layers *)

Lemma layer_plain_ok before hop body plain :
  layer_plain before hop body = Ok plain ->
  exists addr, plain = (if bool_decide (sh_NextAddr hop = []) then x00 else x01) :: addr
      ++ be 8 (if bool_decide (sh_NextAddr hop = []) then firstForward before else sh_NextCircuit hop) ++ body /\
    length addr = AddrSize /\ addr = sh_NextAddr hop ++ replicate (AddrSize - length (sh_NextAddr hop)) x00.
Proof.
  unfold layer_plain, putAddr. intros H. inv_res. subst plain a.
  apply Nat.ltb_ge in Hb. rewrite length_replicate in Hb.
  assert (Hz : length (replicate AddrSize x00) = AddrSize) by apply length_replicate.
  exists (copy_at 0 (sh_NextAddr hop) (replicate AddrSize x00)). split; [by case_bool_decide|]. split.
  { by rewrite length_copy_at by lia. }
  rewrite copy_at_front by (rewrite length_replicate; lia). by rewrite drop_replicate.
Qed.

Lemma length_layer_plain before hop body plain :
  layer_plain before hop body = Ok plain -> length plain = (setupHdr + length body)%nat.
Proof. intros (a & -> & H & _)%layer_plain_ok. cbn [length]. rewrite !length_app, length_be, H. done. Qed.

(** One layer of the cell, outermost first. *)
Lemma seal_setup_cons i before hop chain k ks inner body :
  seal_setup i before (hop :: chain) (k :: ks) inner = Ok body ->
  exists rest plain a nonce, seal_setup (S i) (before ++ [hk_offsets k]) chain ks inner = Ok rest /\
    layer_plain before hop rest = Ok plain /\ NewAEAD (hk_setup k) = Ok a /\
    nonceFor (NonceSize a) Forward (sh_Link hop) 0 = Ok nonce /\
    body = hk_eph k ++ Seal a nonce plain (setupAAD i).
Proof. cbn [seal_setup]. intros H. inv_res. subst. by exists a, a0, a1, a2. Qed.

Lemma seal_setup_length i before chain ks inner body :
  all_made i chain ks -> seal_setup i before chain ks inner = Ok body ->
  length body = (length inner + length chain * perHop)%nat.
Proof.
  revert i before ks body. induction chain as [|hop chain IH]; intros i before [|k ks] body Hm H;
    try done; [injection H as <-; simpl; lia|].
  destruct Hm as [Hmade Hm].
  apply seal_setup_cons in H as (rest & plain & a & nonce & Hr & Hp & Ha & _ & ->).
  apply IH in Hr; [|done]. apply length_layer_plain in Hp.
  rewrite length_app, (made_eph _ _ _ Hmade), (seal_length _ _ _ _ _ Ha), Hp, Hr.
  unfold perHop, perHopCost. cbn [length]. lia.
Qed.

(** ** A relay opens its layer *)

Definition control_cell (link : Z) (i : nat) (body : bytes) : Cell :=
  Version :: KindControl :: be 8 link ++ be 8 (Z.of_nat i) ++ body.

Lemma control_cell_new v link i body :
  length body = BodySize ->
  NewCell {| h_Version := v; h_Kind := KindControl; h_Circuit := link; h_Counter := Z.of_nat i |} body
  = Ok (control_cell link i body).
Proof. intros Hl. by apply NewCell_total. Qed.

Lemma control_cell_header link i body :
  0 <= link < 2 ^ 64 -> (i <= MaxHops)%nat ->
  Cell_Header (control_cell link i body)
  = Ok {| h_Version := Version; h_Kind := KindControl; h_Circuit := link; h_Counter := Z.of_nat i |}.
Proof.
  intros Hl Hi. unfold MaxHops in Hi. unfold control_cell.
  rewrite Cell_Header_of by (apply length_be || done). by rewrite !unbe_be_small by (simpl; lia).
Qed.

Lemma takeAddr_app l m : takeAddr m = [] -> takeAddr (l ++ m) = takeAddr l.
Proof. intros Hm. induction l as [|b l IH]; cbn [app takeAddr]; [done | by rewrite IH]. Qed.

Lemma takeAddr_pad l n : takeAddr (l ++ replicate n x00) = takeAddr l.
Proof. apply takeAddr_app. induction n as [|n IH]; simpl; [done | by rewrite IH]. Qed.

Lemma firstForward_range before : 0 <= firstForward before < counterLimit.
Proof.
  unfold firstForward. destruct before as [|o before _] using rev_ind.
  { pose proof limit_pos. simpl. lia. }
  rewrite foldl_snoc. apply shift_range.
Qed.

Lemma derive_replay : exists l, DeriveLabel Suite purposeReplay = Ok l.
Proof. destruct (known_cases Suite suite_known) as [-> | ->]; eexists; reflexivity. Qed.

(** The layer a relay gets from what the client put in. *)
Definition opened (before : list Offsets) (hop : SetupHop) (k : HopKeys) (rest tag : bytes) : SetupLayer :=
  let exit := bool_decide (sh_NextAddr hop = []) in
  {| sl_NextAddr := sh_NextAddr hop; sl_NextCircuit := if exit then 0 else sh_NextCircuit hop;
     sl_Inner := rest; sl_CellKey := hk_cell k; sl_Offsets := hk_offsets k;
     sl_First := if exit then firstForward before else 0; sl_Tag := tag |}.

(** What the client needs of the fields of a hop. *)
Definition hop_ok (hop : SetupHop) : Prop :=
  0 <= sh_Link hop < 2 ^ 64 /\ 0 <= sh_NextCircuit hop < 2 ^ 64 /\ takeAddr (sh_NextAddr hop) = sh_NextAddr hop.

(** Reading a plaintext back. *)
Lemma plain_fields before hop rest plain :
  hop_ok hop -> layer_plain before hop rest = Ok plain ->
  (length plain <? setupHdr)%nat = false /\
  drop setupHdr plain = rest /\
  takeAddr (slice setupFlags (setupFlags + AddrSize) plain) = sh_NextAddr hop /\
  unbe (slice (setupFlags + AddrSize) setupHdr plain)
    = (if bool_decide (sh_NextAddr hop = []) then firstForward before else sh_NextCircuit hop) /\
  (plain !!! 0%nat = x01 <-> sh_NextAddr hop <> []).
Proof.
  intros (Hl & Hn & Ht) H. pose proof (length_layer_plain _ _ _ _ H) as Hlen.
  apply layer_plain_ok in H as (addr & Hp & Ha & Haddr).
  set (f := if bool_decide _ then x00 else x01) in Hp. set (v := if bool_decide _ then firstForward _ else _) in Hp.
  assert (Hv : 0 <= v < 2 ^ 64).
  { unfold v. case_bool_decide; [|done]. pose proof (firstForward_range before). unfold counterLimit in *. lia. }
  split; [apply Nat.ltb_ge; lia|]. subst plain. split_and!.
  - change (f :: addr ++ be 8 v ++ rest) with ([f] ++ addr ++ be 8 v ++ rest).
    rewrite !app_assoc. rewrite drop_app_length'; [done|].
    rewrite !length_app, length_be, Ha. done.
  - change (f :: addr ++ be 8 v ++ rest) with ([f] ++ addr ++ be 8 v ++ rest).
    rewrite slice_mid by (rewrite ?Ha; done). by rewrite Haddr, takeAddr_pad.
  - change (f :: addr ++ be 8 v ++ rest) with ([f] ++ addr ++ be 8 v ++ rest).
    rewrite (app_assoc [f]), slice_mid by (rewrite ?length_app, ?length_be, ?Ha; done).
    by apply unbe_be_small.
  - cbn. unfold f. by case_bool_decide.
Qed.

Lemma open_layer_ok i before hop k rest plain a nonce priv pad w :
  made i hop k -> hop_ok hop -> KeyPair priv (sh_StaticPub hop) ->
  layer_plain before hop rest = Ok plain -> NewAEAD (hk_setup k) = Ok a ->
  nonceFor (NonceSize a) Forward (sh_Link hop) 0 = Ok nonce ->
  (S i * perHop <= BodySize)%nat -> (i < MaxHops)%nat -> length rest = (BodySize - S i * perHop)%nat ->
  sizes_cached w ->
  exists tag, OpenSetup priv (sh_StaticPub hop)
    (control_cell (sh_Link hop) i ((hk_eph k ++ Seal a nonce plain (setupAAD i)) ++ pad)) w
  = (Ok (opened before hop k rest tag), w).
Proof.
  intros Hmd Hok Hkp Hp Ha Hn Hfit Hi Hrest Hw.
  pose proof (made_eph _ _ _ Hmd) as Heph. pose proof (length_layer_plain _ _ _ _ Hp) as Hpl.
  destruct Hmd as [Hpub (ephPriv & ctx & secret & Hek & Hctx & Hag & Hsk & Hck & Hoff)].
  destruct derive_replay as [lab Hlab].
  destruct (derive_uniform _ _ _ _ _ purposeReplay 16 lab Hsk Hlab) as [tag Htag].
  { pose proof key_size_pos. lia. }
  exists tag.
  assert (Hcost : perHop = (pub_size + overhead + setupHdr)%nat) by done.
  assert (Hlay : setupLayerLen i perHop = (pub_size + (length plain + overhead))%nat).
  { unfold setupLayerLen. rewrite Hpl, Hrest. nia. }
  unfold OpenSetup, bindM, lift. rewrite control_cell_header by (apply Hok || lia).
  cbn [h_Kind h_Counter h_Circuit]. rewrite bool_decide_true by done. cbn [negb].
  rewrite (proj2 (Z.leb_gt _ _)) by lia. rewrite (sizesOf_cached w Hw), Nat2Z.id.
  cbn [sz_pub sz_overhead known_sizes]. rewrite Hpub, Nat.eqb_refl. cbn [negb]. fold perHop.
  assert (Hg : negb (setupFits i perHop) || (setupLayerLen i perHop <=? pub_size + overhead)%nat
    || (BodySize <? setupLayerLen i perHop)%nat = false).
  { apply orb_false_iff. split; [apply orb_false_iff; split|].
    - unfold setupFits. apply negb_false_iff, Nat.leb_le. lia.
    - apply Nat.leb_gt. unfold setupHdr in *. lia.
    - apply Nat.ltb_ge. unfold setupLayerLen. lia. }
  rewrite Hg. change (Cell_Body (control_cell ?l ?j ?b)) with b.
  rewrite (take_app_length' (hk_eph k ++ _)) by (rewrite length_app, (seal_length _ _ _ _ _ Ha); lia).
  rewrite take_app_length', drop_app_length' by done.
  rewrite Hctx, (agree_comm _ _ _ _ _ Hkp Hek), Hag, Hsk. unfold setupTag. rewrite Htag, Hck, Hoff, Ha, Hn.
  rewrite (open_seal _ _ _ _ _ Ha).
  2: { pose proof (nonceFor_ok _ _ _ _ _ Hn) as (_ & _ & _ & ->). by apply (aead_sizes _ _ Ha). }
  2: { eapply nonceFor_admissible; [by left | | exact Hn]. lia. }
  destruct (plain_fields before hop rest plain Hok Hp) as (-> & -> & -> & -> & H01).
  unfold opened. destruct (decide (sh_NextAddr hop = [])) as [E|E].
  - rewrite !(bool_decide_true (sh_NextAddr hop = [])) by done.
    rewrite bool_decide_false by tauto.
    rewrite (proj2 (Z.leb_gt _ _)) by apply firstForward_range. by rewrite E.
  - rewrite !(bool_decide_false (sh_NextAddr hop = [])) by done. by rewrite bool_decide_true by tauto.
Qed.

(** ** The whole trip *)

(** A chain the way the client lays it: each hop names its successor and the
    circuit of the link to it, the last one nobody. *)
Fixpoint chain_ok (chain : list SetupHop) : Prop :=
  match chain with
  | [] => True
  | hop :: rest =>
      hop_ok hop /\
      match rest with
      | [] => sh_NextAddr hop = []
      | next :: _ => sh_NextAddr hop <> [] /\ sh_NextCircuit hop = sh_Link next
      end /\ chain_ok rest
  end.

Definition holds_key (node : bytes * bytes) (hop : SetupHop) : Prop :=
  KeyPair (fst node) (sh_StaticPub hop) /\ snd node = sh_StaticPub hop.

Fixpoint layers_of (before : list Offsets) (chain : list SetupHop) (ks : list HopKeys)
    (ls : list SetupLayer) : Prop :=
  match chain, ks, ls with
  | [], [], [] => True
  | hop :: chain', k :: ks', l :: ls' =>
      (exists rest tag, l = opened before hop k rest tag) /\
      layers_of (before ++ [hk_offsets k]) chain' ks' ls'
  | _, _, _ => False
  end.

Lemma forward_opened i before hop k rest tag w :
  sh_NextAddr hop <> [] -> (length rest <= BodySize)%nat -> (BodySize <= length (entropy w))%nat ->
  exists pad w', ForwardSetup (opened before hop k rest tag) i w
    = (Ok (control_cell (sh_NextCircuit hop) (S i) (rest ++ pad)), w') /\
    (length rest + length pad = BodySize)%nat /\ size_cache w' = size_cache w /\
    (length (entropy w) <= length (entropy w') + BodySize)%nat.
Proof.
  intros Hne Hr Hw. unfold ForwardSetup, bindM, rand_read, draw. cbn [sl_Inner opened sl_NextCircuit].
  rewrite read_full_enough by lia. rewrite bool_decide_false by done.
  exists (take (BodySize - length rest) (entropy w)), (with_entropy (drop (BodySize - length rest) (entropy w)) w).
  assert (length (take (BodySize - length rest) (entropy w)) = (BodySize - length rest)%nat)
    by (rewrite length_take; lia).
  rewrite Nat.add_1_r. unfold lift. rewrite control_cell_new by (rewrite length_app; lia).
  split_and!; [done | lia | done | simpl; rewrite length_drop; lia].
Qed.

Lemma trip_ok nodes i before chain ks inner body pad w :
  Forall2 holds_key nodes chain -> all_made i chain ks -> chain_ok chain -> (0 < length chain)%nat ->
  seal_setup i before chain ks inner = Ok body -> ((i + length chain) * perHop <= BodySize)%nat ->
  (i + length chain <= MaxHops)%nat -> (length inner + (i + length chain) * perHop = BodySize)%nat ->
  (length body + length pad = BodySize)%nat -> sizes_cached w ->
  (length chain * BodySize <= length (entropy w))%nat ->
  exists ls w', setup_trip nodes i (control_cell (sh_Link (chain !!! 0%nat)) i (body ++ pad)) w = (Ok ls, w') /\
    layers_of before chain ks ls.
Proof.
  intros Hn. revert i before ks body pad w.
  induction Hn as [|[priv pub] hop nodes chain [Hkp Hpub] Hn IH];
    intros i before ks body pad w Hm Hok Hpos Hs Hfit Hmax Hin Hpad Hw He; [simpl in Hpos; lia|].
  destruct ks as [|k ks]; [done|]. destruct Hm as [Hmd Hm]. destruct Hok as (Hhop & Hnext & Hok).
  simpl in Hkp, Hpub. subst pub. cbn [length] in *.
  apply seal_setup_cons in Hs as (rest & plain & a & nonce & Hs & Hp & Ha & Hno & ->).
  pose proof (seal_setup_length _ _ _ _ _ _ Hm Hs) as Hrest.
  destruct (open_layer_ok i before hop k rest plain a nonce priv pad w) as [tag HO]; auto; try lia; try nia.
  cbn [setup_trip]. unfold bindM at 1. cbn [lookup_total list_lookup_total]. rewrite HO.
  cbn [sl_NextAddr opened].
  destruct chain as [|hop' chain].
  - rewrite bool_decide_true by done. eexists _, _. split; [reflexivity|].
    destruct ks; [|done]. split; [by eexists _, _ | done].
  - destruct Hnext as [Hne Hlink]. rewrite bool_decide_false by done.
    destruct (forward_opened i before hop k rest tag w) as (pad' & w1 & HF & Hl & Hsz & He1); try done; try nia.
    unfold bindM at 1. rewrite HF. rewrite Hlink.
    destruct (IH (S i) (before ++ [hk_offsets k]) ks rest pad' w1) as (ls & w2 & HT & HL);
      auto; cbn [length] in *; try lia; try nia.
    { unfold sizes_cached. by rewrite Hsz. }
    unfold bindM at 1. cbn [lookup_total list_lookup_total] in HT. rewrite HT.
    eexists _, _. split; [reflexivity|]. split; [by eexists _, _ | done].
Qed.

Lemma layers_fields before chain ks ls :
  layers_of before chain ks ls ->
  sl_CellKey <$> ls = hk_cell <$> ks /\ sl_Offsets <$> ls = hk_offsets <$> ks /\
  sl_NextAddr <$> ls = sh_NextAddr <$> chain.
Proof.
  revert before ks ls. induction chain as [|hop chain IH]; intros before [|k ks] [|l ls] H; try done.
  destruct H as [(rest & tag & ->) H]. destruct (IH _ _ _ H) as (H1 & H2 & H3).
  cbn [fmap list_fmap sl_CellKey sl_Offsets sl_NextAddr opened]. by rewrite H1, H2, H3.
Qed.

Lemma layers_first before chain ks ls :
  chain_ok chain -> layers_of before chain ks ls -> (0 < length chain)%nat ->
  sl_First <$> last ls = Some (firstForward (before ++ take (length chain - 1) (hk_offsets <$> ks))).
Proof.
  revert before ks ls. induction chain as [|hop chain IH]; intros before [|k ks] [|l ls] Hok H Hpos;
    try done; [simpl in Hpos; lia|].
  destruct H as [(rest & tag & ->) H]. destruct Hok as (Hhop & Hnext & Hok).
  destruct chain as [|hop' chain].
  - destruct ks, ls; try done. simpl. rewrite bool_decide_true by done. by rewrite app_nil_r.
  - destruct ks as [|k' ks], ls as [|l' ls]; try done.
    change (last (?a :: l' :: ls)) with (last (l' :: ls)).
    rewrite (IH _ _ _ Hok H) by (simpl; lia). rewrite <- app_assoc.
    cbn [length]. rewrite !Nat.sub_succ, !Nat.sub_0_r. done.
Qed.

Lemma firstForward_sum before : firstForward before = off_fwd (sum_offsets before).
Proof.
  unfold firstForward, sum_offsets. change 0 with (off_fwd zero_offsets) at 1.
  generalize zero_offsets. induction before as [|o before IH]; intros z; simpl; [done|].
  by rewrite <- IH.
Qed.

Lemma draw_size {A} (d : Draw A) w a w' : draw d w = (Ok a, w') -> size_cache w' = size_cache w.
Proof. by intros (e & _ & ->)%draw_ok. Qed.

Lemma all_keys_size sz i chain w ks w' :
  all_keys sz i chain w = (Ok ks, w') -> size_cache w' = size_cache w.
Proof.
  induction chain as [|hop chain IH] in i, w, ks |- *; cbn [all_keys]; intros H; [by inv_m|].
  apply bindM_ok in H as (k & w1 & Hk & H). inv_m. apply IH in Ha. rewrite Ha.
  unfold hop_keys in Hk. destruct (negb _); [done|].
  apply bindM_ok in Hk as ([priv pub] & w2 & Hd & Hk). inv_m. by eapply draw_size.
Qed.

(** What [BuildSetup] makes of a chain. *)
Lemma BuildSetup_ok chain w r w1 :
  sizes_sound w -> BuildSetup chain w = (Ok r, w1) ->
  exists ks inner body pad, (0 < length chain)%nat /\ all_made 0 chain ks /\
    seal_setup 0 [] chain ks inner = Ok body /\ (length chain * perHop <= BodySize)%nat /\
    (length inner + length chain * perHop = BodySize)%nat /\
    (length body + length pad = BodySize)%nat /\ sizes_cached w1 /\
    r = {| sr_Cell := control_cell (sh_Link (chain !!! 0%nat)) 0 (body ++ pad);
           sr_CellKeys := hk_cell <$> ks; sr_Offsets := hk_offsets <$> ks |}.
Proof.
  intros Hs H. unfold BuildSetup in H.
  destruct (Nat.eqb_spec (length chain) 0) as [|Hne]; [discriminate|].
  apply bindM_ok in H as (sz & w0 & Hsz & H). apply sizesOf_ok in Hsz as [-> Hc]; [|done].
  cbn [sz_pub sz_overhead known_sizes] in H. fold perHop in H.
  destruct (setupFits (length chain) perHop) eqn:Hfit; [|discriminate]. cbn [negb] in H.
  apply bindM_ok in H as (ks & w2 & Hks & H). apply bindM_ok in H as (inner & w3 & Hin & H).
  apply bindM_ok in H as (body & w4 & [Hb ->]%lift_ok & H).
  apply bindM_ok in H as (pad & w5 & Hpad & H). apply bindM_ok in H as (cell & w6 & [Hcell ->]%lift_ok & H).
  apply retM_ok in H as [-> ->].
  pose proof (all_keys_ok _ _ _ _ _ Hks) as Hm.
  pose proof (rand_read_ok _ _ _ _ Hin) as Hli. pose proof (rand_read_ok _ _ _ _ Hpad) as Hlp.
  pose proof (seal_setup_length _ _ _ _ _ _ Hm Hb) as Hlb.
  unfold setupFits in Hfit. apply Nat.leb_le in Hfit. unfold setupLayerLen in Hli.
  exists ks, inner, body, pad. split_and!; try done; try lia.
  - unfold sizes_cached. rewrite (draw_size _ _ _ _ Hpad), (draw_size _ _ _ _ Hin), (all_keys_size _ _ _ _ _ _ Hks).
    exact Hc.
  - f_equal. change 0 with (Z.of_nat 0) in Hcell.
    rewrite control_cell_new in Hcell by (rewrite length_app; lia). by injection Hcell as <-.
Qed.

(** The relays' hop ciphers open what the client's circuit seals. *)
Lemma relay_hops_ok i ls :
  (i + length ls <= 6)%nat -> Forall (fun k => length k = KeySize) (sl_CellKey <$> ls) ->
  exists hs, relay_hops i ls = Ok hs /\ length hs = length ls /\
    forall j, (j < length ls)%nat ->
      NewHop ((sl_CellKey <$> ls) !!! j) ((sl_Offsets <$> ls) !!! j) (i + j) = Ok (hs !!! j).
Proof.
  intros Hi Hk. induction ls as [|l ls IH] in i, Hi, Hk |- *.
  { exists []. split_and!; [done | done | intros j Hj; simpl in Hj; lia]. }
  apply Forall_cons in Hk as [Hl Hk].
  cbn [length] in Hi. destruct (IH (S i)) as (hs & Hr & Hlen & Hall); [lia | done |].
  assert (Hh : exists h, NewHop (sl_CellKey l) (sl_Offsets l) i = Ok h).
  { unfold NewHop, MaxHops. rewrite (proj2 (Nat.leb_gt _ _)) by lia.
    destruct (new_aead _ Hl) as [a Ha]. rewrite Ha. cbn [rbind].
    destruct (aead_sizes _ _ Ha) as [_ ->]. pose proof overhead_small.
    rewrite (proj2 (Nat.leb_gt _ _)); [eauto|]. unfold layerLen, BodySize. nia. }
  destruct Hh as [h Hh]. exists (h :: hs). cbn [relay_hops]. rewrite Hh. cbn [rbind]. rewrite Hr.
  split; [done|]. split; [cbn [length]; lia|]. intros [|j] Hj; [by rewrite Nat.add_0_r|].
  cbn [length] in Hj. rewrite Nat.add_succ_r, <- Nat.add_succ_l. apply (Hall j). lia.
Qed.

Lemma made_key_sizes i chain ks : all_made i chain ks -> Forall (fun k => length k = KeySize) (hk_cell <$> ks).
Proof.
  revert i ks. induction chain as [|hop chain IH]; intros i [|k ks] H; try done.
  destruct H as [[_ (p & c & s & _ & _ & _ & _ & Hc & _)] H].
  constructor; [by eapply derive_size | by eapply IH].
Qed.

Lemma all_made_length i chain ks : all_made i chain ks -> length ks = length chain.
Proof.
  revert i ks. induction chain as [|hop chain IH]; intros i [|k ks] H; try done.
  destruct H as [_ H]. cbn [length]. f_equal. by eapply IH.
Qed.

Lemma chain_links chain : chain_ok chain -> good_links (sh_Link <$> chain).
Proof.
  induction chain as [|hop chain IH]; intros H; [constructor|].
  destruct H as ((Hl & _) & _ & H). constructor; [exact Hl | by apply IH].
Qed.

(** ** Properties *)

(** Setup reaches every relay: for a chain the client lays and relays that
    hold the onion keys it names, the cell [BuildSetup] makes has the one size,
    and relay after relay opens its layer and forwards, whatever they pad with,
    until the exit; each gets exactly the cell key and offsets the client keeps
    for it and the successor the client names, and the exit gets the counter
    the first forward cell will carry there. *)
Theorem setup_delivery chain nodes w r w1 w2 :
  sizes_sound w -> BuildSetup chain w = (Ok r, w1) -> chain_ok chain -> Forall2 holds_key nodes chain ->
  sizes_cached w2 -> (length chain * BodySize <= length (entropy w2))%nat ->
  length (sr_Cell r) = CellSize /\
  exists ls w3, setup_trip nodes 0 (sr_Cell r) w2 = (Ok ls, w3) /\
    sl_CellKey <$> ls = sr_CellKeys r /\ sl_Offsets <$> ls = sr_Offsets r /\
    sl_NextAddr <$> ls = sh_NextAddr <$> chain /\
    sl_First <$> last ls = Some (firstForward (take (length chain - 1) (sr_Offsets r))).
Proof.
  intros Hs (ks & inner & body & pad & Hpos & Hm & Hb & Hfit & Hin & Hpad & _ & ->)%BuildSetup_ok
    Hok Hn Hw He; [|done].
  split. { eapply NewCell_length, (control_cell_new x00). by rewrite length_app. }
  cbn [sr_Cell sr_CellKeys sr_Offsets].
  assert (length chain <= 6)%nat by (apply fits_hops, Nat.leb_le; exact Hfit).
  destruct (trip_ok nodes 0 [] chain ks inner body pad w2) as (ls & w3 & HT & HL);
    auto; unfold MaxHops; try lia.
  exists ls, w3. split; [done|]. destruct (layers_fields _ _ _ _ HL) as (-> & -> & ->).
  by rewrite (layers_first _ _ _ _ Hok HL Hpos).
Qed.

(** Setup makes a circuit: the keys and offsets [BuildSetup] returns make a
    circuit, and the hop ciphers the relays make of the layers they opened are
    those at its positions, so that every property of a circuit holds between
    this client and these relays; the exit's first counter is the value the
    client's offsets give the counter zero on the exit's link. *)
Theorem setup_makes_circuit chain nodes w r w1 w2 :
  sizes_sound w -> BuildSetup chain w = (Ok r, w1) -> chain_ok chain -> Forall2 holds_key nodes chain ->
  sizes_cached w2 -> (length chain * BodySize <= length (entropy w2))%nat ->
  exists c ls w3 hs,
    NewCircuit (sr_CellKeys r) (sr_Offsets r) (sh_Link <$> chain) = Ok c /\
    good_links (sh_Link <$> chain) /\
    setup_trip nodes 0 (sr_Cell r) w2 = (Ok ls, w3) /\
    relay_hops 0 ls = Ok hs /\ hops_of (sr_CellKeys r) (sr_Offsets r) hs /\
    sl_First <$> last ls
      = Some (shift 0 (off_fwd (sum_offsets (take (length chain - 1) (sr_Offsets r))))).
Proof.
  intros Hs (ks & inner & body & pad & Hpos & Hm & Hb & Hfit & Hin & Hpad & _ & ->)%BuildSetup_ok
    Hok Hn Hw He; [|done]. cbn [sr_Cell sr_CellKeys sr_Offsets].
  assert (length chain <= 6)%nat by (apply fits_hops, Nat.leb_le; exact Hfit).
  pose proof (all_made_length _ _ _ Hm) as Hlen.
  destruct (trip_ok nodes 0 [] chain ks inner body pad w2) as (ls & w3 & HT & HL);
    auto; unfold MaxHops; try lia.
  destruct (layers_fields _ _ _ _ HL) as (Hk & Ho & _).
  assert (length ls = length ks) as Hls by (apply (f_equal length) in Hk; by rewrite !length_fmap in Hk).
  destruct (NewCircuit_total (hk_cell <$> ks) (hk_offsets <$> ks) (sh_Link <$> chain)) as [c Hc];
    rewrite ?length_fmap; try lia; [by eapply made_key_sizes|].
  destruct (relay_hops_ok 0 ls) as (hs & Hr & Hl & Hall); [lia | |].
  { rewrite Hk. by eapply made_key_sizes. }
  exists c, ls, w3, hs. split_and!; auto using chain_links.
  - split; [rewrite length_fmap; lia|]. rewrite length_fmap, <- Hk, <- Ho. intros i Hi. apply (Hall i). lia.
  - rewrite (layers_first _ _ _ _ Hok HL Hpos), <- firstForward_sum, shift_comm, shift_0_r; [done|].
    apply firstForward_range.
Qed.

End Laws.

(** ** Witnesses: a chain of two relays over the toy suite *)

Module SetupDemo.
Import ToySuite.

Definition pair1 : bytes * bytes := get_ok (fst (GenerateEphemeral (replicate 32 x21))) eq_refl.
Definition pair2 : bytes * bytes := get_ok (fst (GenerateEphemeral (replicate 32 x42))) eq_refl.

Definition chain : list SetupHop :=
  [{| sh_StaticPub := snd pair1; sh_NextAddr := str "exit.example:9000"; sh_NextCircuit := 77; sh_Link := 5 |};
   {| sh_StaticPub := snd pair2; sh_NextAddr := []; sh_NextCircuit := 0; sh_Link := 77 |}].

Definition built : res SetupResult * World := BuildSetup chain Demo.world.

Lemma built_is_ok : is_ok (fst built) = true.
Proof. vm_compute. reflexivity. Qed.

Definition result : SetupResult := get_ok (fst built) built_is_ok.

Lemma built_ok : BuildSetup chain Demo.world = (Ok result, snd built).
Proof. unfold result. rewrite <- get_ok_spec. change (BuildSetup chain Demo.world) with built. by destruct built. Qed.

Lemma sound : sizes_sound Demo.world.
Proof. intros v H. discriminate H. Qed.

Lemma good : chain_ok chain.
Proof. repeat split; try done; vm_compute; congruence. Qed.

Lemma owners : Forall2 holds_key [pair1; pair2] chain.
Proof.
  apply Forall2_cons. split; [|apply Forall2_cons; split; [|by constructor]]; split; try done.
  - exists (replicate 32 x21), []. vm_compute. reflexivity.
  - exists (replicate 32 x42), []. vm_compute. reflexivity.
Qed.

Definition world2 : World := with_size Suite {| sz_pub := 32; sz_overhead := 16 |} Demo.world.

Lemma cached : sizes_cached world2.
Proof. apply lookup_insert_eq. Qed.

Lemma enough : (length chain * BodySize <= length (entropy world2))%nat.
Proof. apply Nat.leb_le. reflexivity. Qed.

End SetupDemo.

Import ToySuite SetupDemo.

Lemma setup_delivery_witness :
  BuildSetup chain Demo.world = (Ok result, snd built) /\
  length (sr_Cell result) = CellSize /\
  exists ls w3, setup_trip [pair1; pair2] 0 (sr_Cell result) world2 = (Ok ls, w3) /\
    sl_CellKey <$> ls = sr_CellKeys result /\ sl_Offsets <$> ls = sr_Offsets result /\
    sl_NextAddr <$> ls = sh_NextAddr <$> chain /\
    sl_First <$> last ls = Some (firstForward (take (length chain - 1) (sr_Offsets result))).
Proof.
  split; [exact built_ok|].
  exact (setup_delivery chain [pair1; pair2] Demo.world result (snd built) world2
    sound built_ok good owners cached enough).
Defined.

Lemma setup_makes_circuit_witness :
  BuildSetup chain Demo.world = (Ok result, snd built) /\
  exists c ls w3 hs,
    NewCircuit (sr_CellKeys result) (sr_Offsets result) (sh_Link <$> chain) = Ok c /\
    good_links (sh_Link <$> chain) /\
    setup_trip [pair1; pair2] 0 (sr_Cell result) world2 = (Ok ls, w3) /\
    relay_hops 0 ls = Ok hs /\ hops_of (sr_CellKeys result) (sr_Offsets result) hs /\
    sl_First <$> last ls
      = Some (shift 0 (off_fwd (sum_offsets (take (length chain - 1) (sr_Offsets result))))).
Proof.
  split; [exact built_ok|].
  exact (setup_makes_circuit chain [pair1; pair2] Demo.world result (snd built) world2
    sound built_ok good owners cached enough).
Defined.
