(* ===== verification/Pki.v ===== *)
(** * Pki: anchors, bundles and their verification

    Models [src/pki/anchor.go] and [src/pki/verify.go].  Times and durations are
    in nanoseconds; [Unix] is the time in whole seconds, rounded down. *)

From Stdlib Require Import Strings.Byte Strings.String.
From S2P Require Import Prelude Effects Crypto Toy Text Json Addr Cert Setup.

Definition Second : Z := 10 ^ 9.
Definition Minute : Z := 60 * Second.
Definition Hour : Z := 60 * Minute.

Definition Unix (t : Z) : Z := t / Second.

Definition Skew : Z := 2 * Minute.
Definition MaxDescriptorLife : Z := 24 * Hour.

(** ** Anchors *)

Record Anchor : Type := { an_Suite : Z; an_Pub : bytes }.

Definition Anchor_String (a : Anchor) : bytes := Suite_String (an_Suite a) ++ ":"%byte :: b64_encode (an_Pub a).

Definition ParseAnchor (s : bytes) : res Anchor :=
  match index_byte ":" s with
  | None => Err (Sentinel pki_ErrFormat)
  | Some i =>
      match suiteByName (take i s) with
      | None => Err (Sentinel pki_ErrSuite)
      | Some suite =>
          match b64_decode (drop (i + 1) s) with
          | None => Err (Sentinel pki_ErrFormat)
          | Some pub =>
              if (length pub =? 0)%nat || (maxKey <? length pub)%nat then Err (Sentinel pki_ErrFormat)
              else
                let a := {| an_Suite := suite; an_Pub := pub |} in
                if negb (bool_decide (Anchor_String a = s)) then Err (Sentinel pki_ErrFormat) else Ok a
          end
      end
  end.

Section Keys.
Context {P : CryptoProvider}.

Definition keyID (pub : bytes) : bytes := copy_at 0 (Hash pub) (replicate IDSize x00).
Definition Anchor_ID (a : Anchor) : bytes := keyID (an_Pub a).
Definition Fingerprint (pub : bytes) : bytes := hex_encode (keyID pub).
Definition KeyHash (pub : bytes) : bytes := hex_encode (Hash pub).

End Keys.

(** ** Bundles *)

Record Bundle : Type := { bu_V : Z; bu_Suite : bytes; bu_Cert : bytes; bu_Descriptor : bytes }.

Record envelope : Type := { en_V : Z; en_Suite : bytes; en_Cert : bytes; en_Descriptor : bytes }.

Definition envelope_json (e : envelope) : bytes :=
  write_object [("v", itoa (en_V e)); ("suite", quote (en_Suite e)); ("cert", quote (en_Cert e));
                ("descriptor", quote (en_Descriptor e))]%string.

Definition Bundle_Marshal (b : Bundle) : bytes :=
  envelope_json {| en_V := bu_V b; en_Suite := bu_Suite b; en_Cert := b64_encode (bu_Cert b);
                   en_Descriptor := b64_encode (bu_Descriptor b) |}.

(** One member of the object, into the field it names. *)
Definition set_envelope (e : envelope) (k raw : bytes) : option envelope :=
  if named "v" k then
    option_map (fun v => {| en_V := v; en_Suite := en_Suite e; en_Cert := en_Cert e;
                            en_Descriptor := en_Descriptor e |}) (int_of (en_V e) raw)
  else if named "suite" k then
    option_map (fun s => {| en_V := en_V e; en_Suite := s; en_Cert := en_Cert e;
                            en_Descriptor := en_Descriptor e |}) (string_of (en_Suite e) raw)
  else if named "cert" k then
    option_map (fun s => {| en_V := en_V e; en_Suite := en_Suite e; en_Cert := s;
                            en_Descriptor := en_Descriptor e |}) (string_of (en_Cert e) raw)
  else if named "descriptor" k then
    option_map (fun s => {| en_V := en_V e; en_Suite := en_Suite e; en_Cert := en_Cert e;
                            en_Descriptor := s |}) (string_of (en_Descriptor e) raw)
  else Some e.

Definition zero_envelope : envelope := {| en_V := 0; en_Suite := []; en_Cert := []; en_Descriptor := [] |}.

(** [json.NewDecoder(bytes.NewReader(raw)).Decode(&e)] *)
Definition decode_envelope (raw : bytes) : option envelope :=
  match first_value raw with
  | None => None
  | Some v => match object_of v with
              | None => None
              | Some ms => decode_fields set_envelope zero_envelope ms
              end
  end.

Definition ParseBundle (raw : bytes) : res Bundle :=
  match decode_envelope raw with
  | None => Err (Sentinel pki_ErrFormat)
  | Some e =>
      if negb (en_V e =? Version) then Err (Sentinel pki_ErrVersion)
      else
        match b64_decode (en_Cert e), b64_decode (en_Descriptor e) with
        | Some cert, Some desc =>
            if bool_decide (en_Suite e = []) || (length desc =? 0)%nat then Err (Sentinel pki_ErrFormat)
            else
              let b := {| bu_V := en_V e; bu_Suite := en_Suite e; bu_Cert := cert; bu_Descriptor := desc |} in
              if negb (bool_decide (Bundle_Marshal b = raw)) then Err (Sentinel pki_ErrFormat) else Ok b
        | _, _ => Err (Sentinel pki_ErrFormat)
        end
  end.

(** ** Verification *)

Record Policy : Type := { po_Anchor : Anchor; po_Skew : Z; po_MaxLife : Z }.

Definition maxLife (pol : Policy) : Z :=
  if (po_MaxLife pol <=? 0) || (MaxDescriptorLife <? po_MaxLife pol) then MaxDescriptorLife
  else po_MaxLife pol.

Record Verified : Type := {
  ve_Addr : bytes;
  ve_Name : bytes;
  ve_Identity : bytes;
  ve_LinkPub : bytes;
  ve_OnionPub : bytes;
  ve_Epoch : Z;
  ve_CertUntil : Z;
  ve_DescUntil : Z
}.

Definition certWindow (c : Cert) (now skew : Z) : res unit :=
  if (ct_NotAfter c <=? ct_NotBefore c) || (Unix (now + skew) <? ct_NotBefore c) || (ct_NotAfter c <=? Unix now)
  then Err (Sentinel pki_ErrCertTime)
  else Ok tt.

(** The difference is taken on the 64-bit patterns, without sign. *)
Definition descWindow (d : Descriptor) (c : Cert) (now skew life : Z) : res unit :=
  if (de_Expires d <=? de_Published d) || (ct_NotAfter c <? de_Expires d) then Err (Sentinel pki_ErrDescTime)
  else if u64 (life / Second) <? u64 (u64 (de_Expires d) - u64 (de_Published d))
  then Err (Sentinel pki_ErrDescTime)
  else if (Unix (now + skew) <? de_Published d) || (de_Expires d <=? Unix now)
  then Err (Sentinel pki_ErrDescTime)
  else Ok tt.

Section Verification.
Context {P : CryptoProvider}.

Definition keySizes (d : Descriptor) : M unit :=
  let! size := PublicKeySize in
  if negb (length (de_LinkPub d) =? size)%nat || negb (length (de_OnionPub d) =? size)%nat
  then failM (Sentinel pki_ErrKeySize)
  else retM tt.

(** What [Verify] settles about the certificate, and about the descriptor. *)
Definition verify_cert (pol : Policy) (addr raw : bytes) (now skew : Z) : res Cert :=
  let? c := ParseCert raw in
  if negb (ct_Suite c =? Suite) then Err (Sentinel pki_ErrSuite)
  else if negb (bool_decide (ct_CAID c = Anchor_ID (po_Anchor pol))) then Err (Sentinel pki_ErrUnknownCA)
  else if negb (Crypto.Verify (an_Pub (po_Anchor pol)) (signed certDomain (Cert_body c)) (ct_Sig c))
  then Err (Sentinel pki_ErrCertSignature)
  else
    let? _ := certWindow c now skew in
    if negb (bool_decide (ct_Addr c = addr)) then Err (Sentinel pki_ErrWrongAddr) else Ok c.

Definition verify_descriptor (pol : Policy) (c : Cert) (certRaw raw : bytes) (now skew : Z) : res Descriptor :=
  let? d := ParseDescriptor raw in
  if negb (de_Suite d =? Suite) then Err (Sentinel pki_ErrSuite)
  else if negb (bool_decide (de_CertHash d = Hash certRaw)) then Err (Sentinel pki_ErrCertMismatch)
  else if negb (Crypto.Verify (ct_Identity c) (signed descriptorDomain (Descriptor_body d)) (de_Sig d))
  then Err (Sentinel pki_ErrDescSignature)
  else
    let? _ := descWindow d c now skew (maxLife pol) in
    Ok d.

Definition verified (c : Cert) (d : Descriptor) : Verified :=
  {| ve_Addr := ct_Addr c; ve_Name := ct_Name c; ve_Identity := ct_Identity c; ve_LinkPub := de_LinkPub d;
     ve_OnionPub := de_OnionPub d; ve_Epoch := de_Epoch d; ve_CertUntil := ct_NotAfter c;
     ve_DescUntil := de_Expires d |}.

Definition Verify (pol : Policy) (addr bundle : bytes) (now : Z) : M Verified :=
  if negb (an_Suite (po_Anchor pol) =? Suite) then failM (Sentinel pki_ErrSuite)
  else
    let! b := lift (ParseBundle bundle) in
    if negb (bool_decide (bu_Suite b = Suite_String Suite)) then failM (Sentinel pki_ErrSuite)
    else
      let skew := Z.max (po_Skew pol) 0 in
      let! c := lift (verify_cert pol addr (bu_Cert b) now skew) in
      let! d := lift (verify_descriptor pol c (bu_Cert b) (bu_Descriptor b) now skew) in
      let! _ := keySizes d in
      retM (verified c d).

(** The nodes in turn, the first error ends it. *)
Fixpoint read_nodes (read : bytes -> bytes -> M Verified) (addrs bundles : list bytes) : M (list Verified) :=
  match addrs, bundles with
  | addr :: addrs', bundle :: bundles' =>
      let! v := mwrap "node" (read addr bundle) in
      let! vs := read_nodes read addrs' bundles' in
      retM (v :: vs)
  | _, _ => retM []
  end.

Definition same_node (a b : Verified) : bool :=
  bool_decide (ve_Addr a = ve_Addr b) || bool_decide (ve_OnionPub a = ve_OnionPub b) ||
  (0 <? length (ve_Identity a))%nat && bool_decide (ve_Identity a = ve_Identity b).

(** [nodes[i]] is compared with every earlier one. *)
Definition repeated (nodes : list Verified) : bool :=
  existsb (fun i => match nodes !! i with
                    | Some b => existsb (fun a => same_node a b) (take i nodes)
                    | None => false
                    end) (seq 0 (length nodes)).

Definition eachNode (addrs bundles : list bytes) (read : bytes -> bytes -> M Verified) : M (list Verified) :=
  if negb (length addrs =? length bundles)%nat then failM (Other "pki: addresses for bundles")
  else
    let! nodes := read_nodes read addrs bundles in
    if repeated nodes then failM (ErrWrap (Other "nodes") (Sentinel pki_ErrDuplicate)) else retM nodes.

Definition VerifyChain (pol : Policy) (addrs bundles : list bytes) (now : Z) : M (list Verified) :=
  eachNode addrs bundles (fun addr bundle => Verify pol addr bundle now).

Definition read_unverified (addr bundle : bytes) : M Verified :=
  let! b := lift (ParseBundle bundle) in
  if negb (bool_decide (bu_Suite b = Suite_String Suite)) then failM (Sentinel pki_ErrSuite)
  else
    let! d := lift (ParseDescriptor (bu_Descriptor b)) in
    if negb (de_Suite d =? Suite) then failM (Sentinel pki_ErrSuite)
    else
      let! _ := keySizes d in
      retM {| ve_Addr := addr; ve_Name := []; ve_Identity := []; ve_LinkPub := de_LinkPub d;
              ve_OnionPub := de_OnionPub d; ve_Epoch := de_Epoch d; ve_CertUntil := 0; ve_DescUntil := 0 |}.

Definition Unverified (addrs bundles : list bytes) : M (list Verified) :=
  eachNode addrs bundles read_unverified.

End Verification.

(** ** One spelling *)

Definition bundle_wf (b : Bundle) : bool :=
  (bu_V b =? Version) && negb (bool_decide (bu_Suite b = [])) && forallb plain (bu_Suite b) &&
  negb (length (bu_Descriptor b) =? 0)%nat.

Definition anchor_wf (a : Anchor) : bool := Crypto.knownSuite (an_Suite a) && sized 1 maxKey (an_Pub a).

Lemma decode_envelope_json v s cert desc :
  v = 1 -> forallb plain s = true ->
  decode_envelope (envelope_json {| en_V := v; en_Suite := s; en_Cert := b64_encode cert; en_Descriptor := b64_encode desc |})
  = Some {| en_V := v; en_Suite := s; en_Cert := b64_encode cert; en_Descriptor := b64_encode desc |}.
Proof.
  intros -> Hs. unfold decode_envelope, envelope_json. cbn [en_V en_Suite en_Cert en_Descriptor].
  set (ms := [("v", itoa 1); ("suite", quote s); ("cert", quote (b64_encode cert));
              ("descriptor", quote (b64_encode desc))]%string).
  assert (Hk : Forall (fun m => forallb plain (str (fst m)) = true) ms) by (repeat constructor).
  assert (Hv : Forall (fun m => value_text (snd m)) ms).
  { unfold ms. rewrite !Forall_cons, Forall_nil. cbn [snd].
    pose proof one_text. pose proof (quote_text s Hs). auto 10 using quote_text, b64_plain. }
  rewrite first_value_text by (by apply write_object_text). rewrite object_of_write by done.
  unfold ms, members_of, decode_fields. cbn [map fst snd foldl].
  unfold set_envelope. cbv beta iota.
  change (named "v" (str "v")) with true. change (named "v" (str "suite")) with false.
  change (named "suite" (str "suite")) with true. change (named "v" (str "cert")) with false.
  change (named "suite" (str "cert")) with false. change (named "cert" (str "cert")) with true.
  change (named "v" (str "descriptor")) with false. change (named "suite" (str "descriptor")) with false.
  change (named "cert" (str "descriptor")) with false. change (named "descriptor" (str "descriptor")) with true.
  change (int_of (en_V zero_envelope) (itoa 1)) with (Some 1). cbv beta iota. cbn [option_map].
  rewrite string_of_quote by done. cbn [option_map].
  rewrite string_of_quote by apply b64_plain. cbn [option_map].
  rewrite string_of_quote by apply b64_plain. done.
Qed.

Lemma ParseBundle_Marshal b : bundle_wf b = true -> ParseBundle (Bundle_Marshal b) = Ok b.
Proof.
  unfold bundle_wf. rewrite !andb_true_iff. intros [[[Hv%Z.eqb_eq Hn%negb_true_iff] Hs] Hd%negb_true_iff].
  unfold ParseBundle. unfold Bundle_Marshal at 1. rewrite decode_envelope_json by done.
  cbn [en_V en_Suite en_Cert en_Descriptor]. rewrite Hv, !b64_decode_encode, Hn, Hd. cbn [negb Z.eqb Version orb Pos.eqb].
  destruct b as [v s c d]. cbn [bu_V bu_Suite bu_Cert bu_Descriptor] in *. subst v. by rewrite bool_decide_true.
Qed.

Lemma ParseBundle_marshal raw b : ParseBundle raw = Ok b -> raw = Bundle_Marshal b.
Proof.
  unfold ParseBundle. destruct (decode_envelope raw) as [e|]; [|discriminate].
  destruct (negb _); [discriminate|].
  destruct (b64_decode (en_Cert e)), (b64_decode (en_Descriptor e)); try discriminate.
  destruct (_ || _); [discriminate|]. case_bool_decide; [|discriminate]. by intros [= <-].
Qed.

Lemma ParseBundle_fields raw b : ParseBundle raw = Ok b ->
  bu_V b = Version /\ bu_Suite b <> [] /\ bu_Descriptor b <> [].
Proof.
  unfold ParseBundle. destruct (decode_envelope raw) as [e|]; [|discriminate].
  destruct (Z.eqb_spec (en_V e) Version) as [Hv|]; [|discriminate]. cbn [negb].
  destruct (b64_decode (en_Cert e)) as [c|], (b64_decode (en_Descriptor e)) as [d|]; try discriminate.
  destruct (_ || _) eqn:E; [discriminate|].
  apply orb_false_iff in E as [E1%bool_decide_eq_false E2%Nat.eqb_neq].
  case_bool_decide; [|discriminate]. intros [= <-]. cbn. repeat split; auto.
  by intros ->.
Qed.

Lemma ParseAnchor_spec s a : ParseAnchor s = Ok a <-> anchor_wf a = true /\ s = Anchor_String a.
Proof.
  unfold ParseAnchor, anchor_wf. split.
  - destruct (index_byte ":" s) as [i|]; [|discriminate].
    destruct (suiteByName (take i s)) as [suite|] eqn:Hs; [|discriminate].
    apply suiteByName_some in Hs as [Hk _].
    destruct (b64_decode _) as [pub|]; [|discriminate].
    destruct (_ || _) eqn:E; [discriminate|]. case_bool_decide as Hr; [|discriminate]. intros [= <-].
    apply orb_false_iff in E as [E1%Nat.eqb_neq E2%Nat.ltb_ge]. cbn [an_Suite an_Pub]. split; [|done].
    rewrite Hk. unfold sized. cbn [andb]. apply andb_true_iff; split; apply Nat.leb_le; lia.
  - intros [[Hk Hl]%andb_true_iff ->]. unfold sized in Hl. apply andb_true_iff in Hl as [H1%Nat.leb_le H2%Nat.leb_le].
    assert (Hno : ":"%byte ∉ Suite_String (an_Suite a)).
    { apply known_cases in Hk as [-> | ->]; refine (proj1 (bool_decide_eq_true (_ ∉ _)) _); reflexivity. }
    unfold Anchor_String. rewrite index_byte_app by done. rewrite take_app_length, suiteByName_String by done.
    replace (drop (length (Suite_String (an_Suite a)) + 1) (Suite_String (an_Suite a) ++ ":"%byte :: b64_encode (an_Pub a)))
      with (b64_encode (an_Pub a)).
    2: { rewrite drop_app_ge by lia. replace (_ + 1 - _)%nat with 1%nat by lia. done. }
    rewrite b64_decode_encode, (proj2 (Nat.eqb_neq _ _)), (proj2 (Nat.ltb_ge _ _)) by lia. cbn [orb an_Suite an_Pub].
    rewrite bool_decide_true by done. by destruct a.
Qed.

(** Bundles and anchors have one spelling: what parses is what [Marshal] or
    [String] writes, so no other order, case, spacing, escape, line break or
    padding gets through, and what they write parses to itself. *)
Theorem texts_canonical raw :
  (forall b, ParseBundle raw = Ok b ->
     raw = Bundle_Marshal b /\ bu_V b = Version /\ bu_Suite b <> [] /\ bu_Descriptor b <> []) /\
  (forall b, bundle_wf b = true -> raw = Bundle_Marshal b -> ParseBundle raw = Ok b) /\
  (forall a, ParseAnchor raw = Ok a <-> anchor_wf a = true /\ raw = Anchor_String a).
Proof.
  split; [|split].
  - intros b H. split; [by apply ParseBundle_marshal | by apply ParseBundle_fields in H].
  - intros b Hb ->. by apply ParseBundle_Marshal.
  - intros a. apply ParseAnchor_spec.
Qed.

(** ** Evaluation: the bundles the code's own documentation gives *)

Definition text_bundle : Bundle :=
  {| bu_V := 1; bu_Suite := str "gost"; bu_Cert := [x01; x02; x03]; bu_Descriptor := [x04] |}.

Definition unq (s : string) : bytes := map (fun c => if bool_decide (c = "'"%byte) then QUOTE else c) (str s).

Example bundle_text :
  Bundle_Marshal text_bundle = unq "{'v':1,'suite':'gost','cert':'AQID','descriptor':'BA=='}".
Proof. vm_compute. reflexivity. Qed.

Example bundles_refused : map (fun s => ParseBundle (unq s))
  ["{'v': 1,'suite':'gost','cert':'AQID','descriptor':'BA=='}"; "{'V':1,'suite':'gost','cert':'AQID','descriptor':'BA=='}";
   "{'v':1,'suite':'c25519','suite':'gost','cert':'AQID','descriptor':'BA=='}"; "{'v':1,'suite':'gost','cert':null,'descriptor':'BA=='}";
   "{'v':1,'suite':'gost','cert':'AB==','descriptor':'BA=='}"; "{'v':1.0,'suite':'gost','cert':'AQID','descriptor':'BA=='}";
   "{'v':1,'suite':'gost','cert':'AQID','descriptor':'BA=='}{}"; "[]"; "v=1"]%string
  = replicate 9 (Err (Sentinel pki_ErrFormat)).
Proof. vm_compute. reflexivity. Qed.

Example bundles_version : map (fun s => ParseBundle (unq s))
  ["{'v':2,'suite':'gost','cert':'AQID','descriptor':'BA=='}"; "{'suite':'gost','cert':'AQID','descriptor':'BA=='}"; "null"]%string
  = replicate 3 (Err (Sentinel pki_ErrVersion)).
Proof. vm_compute. reflexivity. Qed.

(** ** Windows *)

Definition cert_in_window (c : Cert) (now skew : Z) : Prop :=
  ct_NotBefore c < ct_NotAfter c /\ ct_NotBefore c <= Unix (now + skew) /\ Unix now < ct_NotAfter c.

Definition desc_in_window (d : Descriptor) (c : Cert) (now skew life : Z) : Prop :=
  de_Published d < de_Expires d /\ de_Expires d <= ct_NotAfter c /\
  de_Expires d - de_Published d <= life / Second /\
  de_Published d <= Unix (now + skew) /\ Unix now < de_Expires d.

Lemma maxLife_range pol : 0 < maxLife pol <= MaxDescriptorLife.
Proof.
  unfold maxLife. destruct (_ || _) eqn:E; [done|].
  apply orb_false_iff in E as [E1%Z.leb_gt E2%Z.ltb_ge]. lia.
Qed.

Lemma certWindow_spec c now skew : certWindow c now skew = Ok tt <-> cert_in_window c now skew.
Proof.
  unfold certWindow, cert_in_window.
  destruct (Z.leb_spec (ct_NotAfter c) (ct_NotBefore c)), (Z.ltb_spec (Unix (now + skew)) (ct_NotBefore c)),
    (Z.leb_spec (ct_NotAfter c) (Unix now)); cbn [orb]; split; intros; try discriminate; try done; lia.
Qed.

(** The unsigned difference of two 64-bit times in order is their difference. *)
Lemma unsigned_difference a b : int64 a = true -> int64 b = true -> a < b -> u64 (u64 b - u64 a) = b - a.
Proof.
  unfold int64, u64. intros [A1 A2]%andb_true_iff [B1 B2]%andb_true_iff Hab.
  rewrite Zminus_mod_idemp_l, Zminus_mod_idemp_r. apply Z.mod_small. lia.
Qed.

Lemma descWindow_spec d c now skew life :
  int64 (de_Published d) = true -> int64 (de_Expires d) = true -> 0 <= life <= MaxDescriptorLife ->
  descWindow d c now skew life = Ok tt <-> desc_in_window d c now skew life.
Proof.
  intros Hp He Hl. unfold descWindow, desc_in_window.
  destruct (Z.leb_spec (de_Expires d) (de_Published d)); cbn [orb]; [split; [discriminate|lia]|].
  destruct (Z.ltb_spec (ct_NotAfter c) (de_Expires d)); [split; [discriminate|lia]|].
  rewrite unsigned_difference by done.
  assert (Hs : u64 (life / Second) = life / Second).
  { apply Z.mod_small. unfold MaxDescriptorLife, Hour, Minute, Second in *. Z.to_euclidean_division_equations. lia. }
  rewrite Hs. destruct (Z.ltb_spec (life / Second) (de_Expires d - de_Published d)); [split; [discriminate|lia]|].
  destruct (Z.ltb_spec (Unix (now + skew)) (de_Published d)); cbn [orb]; [split; [discriminate|lia]|].
  destruct (Z.leb_spec (de_Expires d) (Unix now)); split; try discriminate; try done; lia.
Qed.

Lemma certWindow_err c now skew e : certWindow c now skew = Err e -> e = Sentinel pki_ErrCertTime.
Proof. unfold certWindow. destruct (_ || _); congruence. Qed.

Lemma descWindow_err d c now skew life e : descWindow d c now skew life = Err e -> e = Sentinel pki_ErrDescTime.
Proof. unfold descWindow. repeat case_match; congruence. Qed.

(** The windows are what they say on all 64-bit times: a descriptor passes
    exactly when it is published before it expires, within the certificate, lives
    no longer than the policy allows, and the clock is inside it, late by less
    than a second and early by at most the skew; no difference overflows. *)
Theorem windows_exact pol d c now skew :
  cert_wf c = true -> descriptor_wf d = true ->
  (certWindow c now skew = Ok tt <-> cert_in_window c now skew) /\
  (descWindow d c now skew (maxLife pol) = Ok tt <-> desc_in_window d c now skew (maxLife pol)) /\
  maxLife pol / Second <= 86400.
Proof.
  intros Hc Hd. pose proof (maxLife_range pol) as Hl.
  unfold descriptor_wf in Hd. rewrite !andb_true_iff in Hd.
  split; [apply certWindow_spec|]. split; [apply descWindow_spec; [tauto|tauto|lia]|].
  unfold MaxDescriptorLife, Hour, Minute, Second in *. Z.to_euclidean_division_equations. lia.
Qed.

(** ** What passes *)

Section Sound.
Context `{CL : CryptoLaws}.

Definition cert_accepted (pol : Policy) (addr : bytes) (now skew : Z) (c : Cert) : Prop :=
  cert_wf c = true /\ ct_Suite c = Suite /\ ct_CAID c = Anchor_ID (po_Anchor pol) /\
  Crypto.Verify (an_Pub (po_Anchor pol)) (message (SCert c)) (ct_Sig c) = true /\
  cert_in_window c now skew /\ ct_Addr c = addr.

Definition descriptor_accepted (pol : Policy) (c : Cert) (certRaw : bytes) (now skew : Z) (d : Descriptor) : Prop :=
  descriptor_wf d = true /\ de_Suite d = Suite /\ de_CertHash d = Hash certRaw /\
  Crypto.Verify (ct_Identity c) (message (SDescriptor d)) (de_Sig d) = true /\
  desc_in_window d c now skew (maxLife pol).

Lemma verify_cert_spec pol addr raw now skew c :
  verify_cert pol addr raw now skew = Ok c <-> cert_accepted pol addr now skew c /\ raw = Cert_Marshal c.
Proof.
  unfold verify_cert, cert_accepted. split.
  - intros (c' & [Hwf ->]%ParseCert_spec & H)%rbind_ok.
    destruct (Z.eqb_spec (ct_Suite c') Suite); [|discriminate]. cbn [negb] in H.
    case_bool_decide; [|discriminate]. cbn [negb] in H.
    destruct (Crypto.Verify _ _ _) eqn:Hv; [|discriminate]. cbn [negb] in H.
    apply rbind_ok in H as ([] & Hw%certWindow_spec & H).
    case_bool_decide; [|discriminate]. injection H as <-. done.
  - intros [(Hwf & Hs & Hca & Hv & Hw & Ha) ->].
    rewrite (proj2 (ParseCert_spec _ c)) by done. cbn [rbind message] in *.
    rewrite Hs, Z.eqb_refl, bool_decide_true, Hv, (proj2 (certWindow_spec _ _ _)) by done.
    cbn [negb rbind]. by rewrite bool_decide_true.
Qed.

Lemma verify_descriptor_spec pol c certRaw raw now skew d :
  verify_descriptor pol c certRaw raw now skew = Ok d <->
  descriptor_accepted pol c certRaw now skew d /\ raw = Descriptor_Marshal d.
Proof.
  pose proof (maxLife_range pol) as Hlife.
  assert (Hwd : forall d, descriptor_wf d = true ->
    descWindow d c now skew (maxLife pol) = Ok tt <-> desc_in_window d c now skew (maxLife pol)).
  { intros d' H. unfold descriptor_wf in H. rewrite !andb_true_iff in H. apply descWindow_spec; [tauto|tauto|lia]. }
  unfold verify_descriptor, descriptor_accepted. split.
  - intros (c' & [Hwf ->]%ParseDescriptor_spec & H)%rbind_ok.
    destruct (Z.eqb_spec (de_Suite c') Suite); [|discriminate]. cbn [negb] in H.
    case_bool_decide; [|discriminate]. cbn [negb] in H.
    destruct (Crypto.Verify _ _ _) eqn:Hv; [|discriminate]. cbn [negb] in H.
    apply rbind_ok in H as ([] & Hw & H). injection H as <-. apply Hwd in Hw; [|done]. done.
  - intros [(Hwf & Hs & Hca & Hv & Hw) ->].
    rewrite (proj2 (ParseDescriptor_spec _ d)) by done. cbn [rbind message] in *.
    rewrite Hs, Z.eqb_refl, bool_decide_true, Hv by done.
    cbn [negb]. by rewrite (proj2 (Hwd d Hwf) Hw).
Qed.

Definition sizes_right (d : Descriptor) : Prop :=
  length (de_LinkPub d) = pub_size /\ length (de_OnionPub d) = pub_size.

Lemma PublicKeySize_ok w n w' : sizes_sound w -> PublicKeySize w = (Ok n, w') -> n = pub_size /\ sizes_cached w'.
Proof.
  unfold PublicKeySize. intros Hs (sz & w1 & H & [-> ->]%retM_ok)%bindM_ok.
  apply sizesOf_ok in H as [-> H]; [|done]. done.
Qed.

Lemma keySizes_ok d w w' : sizes_sound w -> keySizes d w = (Ok tt, w') -> sizes_right d.
Proof.
  intros Hs (n & w1 & [-> _]%PublicKeySize_ok & H)%bindM_ok; [|done].
  destruct (Nat.eqb_spec (length (de_LinkPub d)) pub_size), (Nat.eqb_spec (length (de_OnionPub d)) pub_size);
    try discriminate. done.
Qed.

Lemma keySizes_cached d w : sizes_cached w -> sizes_right d -> keySizes d w = (Ok tt, w).
Proof.
  intros Hc [H1 H2]. unfold keySizes, PublicKeySize, bindM. rewrite sizesOf_cached by done. cbn [retM].
  by rewrite H1, H2, Nat.eqb_refl.
Qed.

Lemma Verify_ok pol addr bundle now w v w' :
  sizes_sound w -> Verify pol addr bundle now w = (Ok v, w') ->
  an_Suite (po_Anchor pol) = Suite /\
  exists b c d, ParseBundle bundle = Ok b /\ bundle = Bundle_Marshal b /\ bu_Suite b = Suite_String Suite /\
    bu_Cert b = Cert_Marshal c /\ bu_Descriptor b = Descriptor_Marshal d /\
    cert_accepted pol addr now (Z.max (po_Skew pol) 0) c /\
    descriptor_accepted pol c (bu_Cert b) now (Z.max (po_Skew pol) 0) d /\
    sizes_right d /\ v = verified c d.
Proof.
  intros Hs. unfold Verify. destruct (Z.eqb_spec (an_Suite (po_Anchor pol)) Suite); [|discriminate].
  cbn [negb]. intros H. split; [done|]. inv_m. apply negb_false_iff, bool_decide_eq_true in Hb.
  apply verify_cert_spec in Ha0 as [Hc Hcr]. apply verify_descriptor_spec in Ha1 as [Hd Hdr].
  destruct a2. apply keySizes_ok in Ha2; [|done].
  pose proof (ParseBundle_marshal _ _ Ha). exists a, a0, a1. tauto.
Qed.

(** C18. What [Verify] accepts is authenticated end to end: the bundle is the one
    encoding of a certificate that the pinned anchor signed for this address and
    of a descriptor that the certified key signed over the hash of that
    certificate, both are inside their windows, and the keys returned are the
    descriptor's and have the suite's size. *)
Theorem verify_sound pol addr bundle now w v w' :
  sizes_sound w -> Verify pol addr bundle now w = (Ok v, w') ->
  an_Suite (po_Anchor pol) = Suite /\
  exists b c d, bundle = Bundle_Marshal b /\ bu_Suite b = Suite_String Suite /\
    bu_Cert b = Cert_Marshal c /\ bu_Descriptor b = Descriptor_Marshal d /\
    cert_accepted pol addr now (Z.max (po_Skew pol) 0) c /\
    descriptor_accepted pol c (bu_Cert b) now (Z.max (po_Skew pol) 0) d /\
    sizes_right d /\ v = verified c d.
Proof.
  intros Hs H. destruct (Verify_ok _ _ _ _ _ _ _ Hs H) as (Ha & b & c & d & _ & Hv). split; [done|]. by exists b, c, d.
Qed.

(** The bundle of a certificate and a descriptor. *)
Definition bundle_of (c : Cert) (d : Descriptor) : Bundle :=
  {| bu_V := Version; bu_Suite := Suite_String Suite; bu_Cert := Cert_Marshal c;
     bu_Descriptor := Descriptor_Marshal d |}.

Lemma bundle_of_wf c d : bundle_wf (bundle_of c d) = true.
Proof.
  unfold bundle_wf, bundle_of. cbn [bu_V bu_Suite bu_Descriptor].
  destruct (known_cases Suite suite_known) as [-> | ->]; reflexivity.
Qed.

(** The other way around: what meets the conditions passes. *)
Lemma Verify_accepts pol addr now w c d :
  an_Suite (po_Anchor pol) = Suite -> sizes_cached w ->
  cert_accepted pol addr now (Z.max (po_Skew pol) 0) c ->
  descriptor_accepted pol c (Cert_Marshal c) now (Z.max (po_Skew pol) 0) d -> sizes_right d ->
  Verify pol addr (Bundle_Marshal (bundle_of c d)) now w = (Ok (verified c d), w).
Proof.
  intros Ha Hw Hc Hd Hs. unfold Verify. rewrite Ha, Z.eqb_refl. cbn [negb].
  rewrite ParseBundle_Marshal by apply bundle_of_wf. unfold lift, bindM at 1. cbn [bundle_of bu_Suite bu_Cert bu_Descriptor].
  rewrite bool_decide_true by done. cbn [negb].
  unfold bindM. rewrite (proj2 (verify_cert_spec _ _ _ _ _ c)) by done.
  rewrite (proj2 (verify_descriptor_spec _ _ _ _ _ _ d)) by done.
  by rewrite keySizes_cached.
Qed.

(** ** What does not pass, and what the error says *)

Definition format_error (s : sentinel) : Prop := s ∈ [pki_ErrFormat; pki_ErrVersion; pki_ErrSuite].

Lemma rd_header_err b e r : rd_header {| rd_b := b; rd_bad := false |} = (Err e, r) ->
  exists s, e = Sentinel s /\ format_error s.
Proof.
  unfold rd_header, rd_bind, rd_take, format_error.
  destruct b as [|v [|t b]]; simpl; [| |destruct (negb _); [|destruct (negb _)]];
    try (intros [= <- _]; eexists; split; [done|set_solver]). discriminate.
Qed.

Lemma rd_end_err r e : rd_end r = Err e -> e = Sentinel pki_ErrFormat.
Proof. unfold rd_end. destruct (_ || _); congruence. Qed.

Lemma ParseCert_err b e : ParseCert b = Err e -> exists s, e = Sentinel s /\ format_error s.
Proof.
  assert (Hf : exists s, Sentinel pki_ErrFormat = Sentinel s /\ format_error s)
    by (eexists; split; [done | unfold format_error; set_solver]).
  unfold ParseCert, decodeCert. destruct (rd_header _) as [[s|e'] r] eqn:E; cbn [rbind].
  - destruct (rd_bind _ _ r) as [c r']. destruct (rd_end r') as [[]|e'] eqn:Ee; cbn [rbind].
    + destruct (_ || _); cbn [rbind]; [by intros [= <-]|]. destruct (negb _); [by intros [= <-]|discriminate].
    + apply rd_end_err in Ee as ->. by intros [= <-].
  - intros [= <-]. by apply rd_header_err in E.
Qed.

Lemma ParseDescriptor_err b e : ParseDescriptor b = Err e -> exists s, e = Sentinel s /\ format_error s.
Proof.
  assert (Hf : exists s, Sentinel pki_ErrFormat = Sentinel s /\ format_error s)
    by (eexists; split; [done | unfold format_error; set_solver]).
  unfold ParseDescriptor, decodeDescriptor. destruct (rd_header _) as [[s|e'] r] eqn:E; cbn [rbind].
  - destruct (rd_bind _ _ r) as [c r']. destruct (rd_end r') as [[]|e'] eqn:Ee; cbn [rbind].
    + destruct (negb _); [by intros [= <-]|discriminate].
    + apply rd_end_err in Ee as ->. by intros [= <-].
  - intros [= <-]. by apply rd_header_err in E.
Qed.

Lemma ParseBundle_err b e : ParseBundle b = Err e -> exists s, e = Sentinel s /\ format_error s.
Proof.
  intros H. assert (e = Sentinel pki_ErrFormat \/ e = Sentinel pki_ErrVersion) as [-> | ->].
  { unfold ParseBundle in H. repeat case_match; try discriminate; injection H; auto. }
  all: eexists; split; [done | unfold format_error; set_solver].
Qed.

(** The bundle's certificate, and its descriptor, can be read. *)
Definition cert_readable (pol : Policy) (bundle : bytes) (b : Bundle) (c : Cert) : Prop :=
  an_Suite (po_Anchor pol) = Suite /\ ParseBundle bundle = Ok b /\ bu_Suite b = Suite_String Suite /\
  ParseCert (bu_Cert b) = Ok c /\ ct_Suite c = Suite.

Definition descriptor_readable (b : Bundle) (d : Descriptor) : Prop :=
  ParseDescriptor (bu_Descriptor b) = Ok d /\ de_Suite d = Suite.

Definition reason (pol : Policy) (addr bundle : bytes) (now : Z) (s : sentinel) : Prop :=
  let skew := Z.max (po_Skew pol) 0 in
  let signed_cert c := ct_CAID c = Anchor_ID (po_Anchor pol) /\
    Crypto.Verify (an_Pub (po_Anchor pol)) (message (SCert c)) (ct_Sig c) = true in
  match s with
  | pki_ErrFormat | pki_ErrVersion | pki_ErrSuite =>
      ~ exists b c d, cert_readable pol bundle b c /\ descriptor_readable b d
  | pki_ErrUnknownCA => exists b c, cert_readable pol bundle b c /\ ct_CAID c <> Anchor_ID (po_Anchor pol)
  | pki_ErrCertSignature => exists b c, cert_readable pol bundle b c /\
      ct_CAID c = Anchor_ID (po_Anchor pol) /\
      Crypto.Verify (an_Pub (po_Anchor pol)) (message (SCert c)) (ct_Sig c) = false
  | pki_ErrCertTime => exists b c, cert_readable pol bundle b c /\ signed_cert c /\ ~ cert_in_window c now skew
  | pki_ErrWrongAddr => exists b c, cert_readable pol bundle b c /\ signed_cert c /\
      cert_in_window c now skew /\ ct_Addr c <> addr
  | pki_ErrCertMismatch => exists b c d, cert_readable pol bundle b c /\ cert_accepted pol addr now skew c /\
      descriptor_readable b d /\ de_CertHash d <> Hash (bu_Cert b)
  | pki_ErrDescSignature => exists b c d, cert_readable pol bundle b c /\ cert_accepted pol addr now skew c /\
      descriptor_readable b d /\ de_CertHash d = Hash (bu_Cert b) /\
      Crypto.Verify (ct_Identity c) (message (SDescriptor d)) (de_Sig d) = false
  | pki_ErrDescTime => exists b c d, cert_readable pol bundle b c /\ cert_accepted pol addr now skew c /\
      descriptor_readable b d /\ de_CertHash d = Hash (bu_Cert b) /\
      Crypto.Verify (ct_Identity c) (message (SDescriptor d)) (de_Sig d) = true /\
      ~ desc_in_window d c now skew (maxLife pol)
  | pki_ErrKeySize => exists b c d, cert_readable pol bundle b c /\ cert_accepted pol addr now skew c /\
      descriptor_accepted pol c (bu_Cert b) now skew d /\ ~ sizes_right d
  | _ => False
  end.

Lemma reason_format pol addr bundle now s :
  format_error s -> ~ (exists b c d, cert_readable pol bundle b c /\ descriptor_readable b d) ->
  reason pol addr bundle now s.
Proof.
  unfold format_error. intros H. repeat (apply elem_of_cons in H as [->|H]; [done|]). by apply elem_of_nil in H.
Qed.

Lemma verify_cert_reason pol addr bundle now b e :
  an_Suite (po_Anchor pol) = Suite -> ParseBundle bundle = Ok b -> bu_Suite b = Suite_String Suite ->
  verify_cert pol addr (bu_Cert b) now (Z.max (po_Skew pol) 0) = Err e ->
  exists s, e = Sentinel s /\ reason pol addr bundle now s.
Proof.
  intros Ha Hb Hs H. unfold verify_cert in H.
  destruct (ParseCert (bu_Cert b)) as [c|e'] eqn:Hc; cbn [rbind] in H.
  2: { injection H as ->. apply ParseCert_err in Hc as Hf. destruct Hf as (s & -> & Hf). exists s. split; [done|].
       apply reason_format; [done|]. intros (b' & c & d & (_ & Hb' & _ & Hc' & _) & _). congruence. }
  destruct (Z.eqb_spec (ct_Suite c) Suite) as [Hcs|Hcs]; cbn [negb] in H.
  2: { injection H as <-. exists pki_ErrSuite. split; [done|].
       intros (b' & c' & d & (_ & Hb' & _ & Hc' & Hs') & _). congruence. }
  assert (Hr : cert_readable pol bundle b c) by done.
  case_bool_decide as Hid; cbn [negb] in H; [|injection H as <-; eexists; split; [done|]; by exists b, c].
  destruct (Crypto.Verify _ _ _) eqn:Hv; cbn [negb] in H; [|injection H as <-; eexists; split; [done|]; by exists b, c].
  destruct (certWindow c now _) as [[]|e'] eqn:Hw; cbn [rbind] in H.
  - apply certWindow_spec in Hw. case_bool_decide; [discriminate|].
    injection H as <-. eexists; split; [done|]. by exists b, c.
  - injection H as ->. apply certWindow_err in Hw as He. subst e. eexists; split; [done|].
    exists b, c. split; [done|]. split; [done|]. rewrite <- certWindow_spec. congruence.
Qed.

Lemma verify_descriptor_reason pol addr bundle now b c e :
  cert_readable pol bundle b c -> cert_accepted pol addr now (Z.max (po_Skew pol) 0) c ->
  verify_descriptor pol c (bu_Cert b) (bu_Descriptor b) now (Z.max (po_Skew pol) 0) = Err e ->
  exists s, e = Sentinel s /\ reason pol addr bundle now s.
Proof.
  intros Hr Ha H. unfold verify_descriptor in H.
  destruct (ParseDescriptor (bu_Descriptor b)) as [d|e'] eqn:Hd; cbn [rbind] in H.
  2: { injection H as ->. apply ParseDescriptor_err in Hd as Hf. destruct Hf as (s & -> & Hf). exists s.
       split; [done|]. apply reason_format; [done|]. destruct Hr as (_ & Hb & _).
       intros (b' & c' & d & (_ & Hb' & _) & Hd' & _). congruence. }
  destruct (Z.eqb_spec (de_Suite d) Suite) as [Hcs|Hcs]; cbn [negb] in H.
  2: { injection H as <-. exists pki_ErrSuite. split; [done|]. destruct Hr as (_ & Hb & _).
       intros (b' & c' & d' & (_ & Hb' & _) & Hd' & Hs'). congruence. }
  assert (Hdr : descriptor_readable b d) by done.
  case_bool_decide as Hid; cbn [negb] in H; [|injection H as <-; eexists; split; [done|]; by exists b, c, d].
  destruct (Crypto.Verify _ _ _) eqn:Hv; cbn [negb] in H; [|injection H as <-; eexists; split; [done|]; by exists b, c, d].
  destruct (descWindow _ _ _ _ _) as [[]|e'] eqn:Hw; cbn [rbind] in H; [discriminate|].
  injection H as ->. apply descWindow_err in Hw as He. subst e. eexists; split; [done|].
  exists b, c, d. repeat (split; [done|]).
  pose proof (maxLife_range pol). apply ParseDescriptor_spec in Hd as [Hwf _].
  unfold descriptor_wf in Hwf. rewrite !andb_true_iff in Hwf.
  rewrite <- descWindow_spec by (tauto || lia). congruence.
Qed.

(** C19. Every refusal has its own sentinel and says the truth, and the order of
    the checks can be read off it: an error about times or addresses is only
    given for what the anchor signed, one about the descriptor's times or keys
    only for what the certified node signed, and a refusal leaves no trace. *)
Theorem verify_errors pol addr bundle now w e w' :
  sizes_cached w -> Verify pol addr bundle now w = (Err e, w') ->
  w' = w /\ exists s, e = Sentinel s /\ reason pol addr bundle now s.
Proof.
  intros Hc. unfold Verify, bindM, lift.
  assert (Hfail : forall s, format_error s -> (~ exists b c d, cert_readable pol bundle b c /\ descriptor_readable b d) ->
    exists t, Sentinel s = Sentinel t /\ reason pol addr bundle now t).
  { intros s Hs Hn. exists s. split; [done|]. by apply reason_format. }
  assert (Hsuite : format_error pki_ErrSuite) by (unfold format_error; set_solver).
  destruct (Z.eqb_spec (an_Suite (po_Anchor pol)) Suite) as [Ha|Ha]; cbn [negb].
  2: { intros [= <- <-]. split; [done|]. apply Hfail; [done|]. by intros (b & c & d & (Ha' & _) & _). }
  destruct (ParseBundle bundle) as [b|e'] eqn:Hb.
  2: { intros [= <- <-]. split; [done|]. apply ParseBundle_err in Hb as Hf. destruct Hf as (s & -> & Hf).
       apply Hfail; [done|]. intros (b & c & d & (_ & Hb' & _) & _). congruence. }
  case_bool_decide as Hs; cbn [negb].
  2: { intros [= <- <-]. split; [done|]. apply Hfail; [done|].
       intros (b' & c & d & (_ & Hb' & Hs' & _) & _). congruence. }
  destruct (verify_cert _ _ _ _ _) as [c|e'] eqn:Hvc.
  2: { intros [= <- <-]. split; [done|]. by eapply verify_cert_reason. }
  apply verify_cert_spec in Hvc as [Hca Hcr].
  assert (Hr : cert_readable pol bundle b c).
  { repeat (split; [done|]). split; [apply ParseCert_spec; split; [apply Hca|done] | apply Hca]. }
  destruct (verify_descriptor _ _ _ _ _ _) as [d|e'] eqn:Hvd.
  2: { intros [= <- <-]. split; [done|]. by eapply verify_descriptor_reason. }
  apply verify_descriptor_spec in Hvd as [Hda _].
  unfold keySizes, PublicKeySize, bindM. rewrite sizesOf_cached by done. cbn [retM known_sizes sz_pub].
  destruct (Nat.eqb_spec (length (de_LinkPub d)) pub_size), (Nat.eqb_spec (length (de_OnionPub d)) pub_size);
    cbn [negb orb failM retM]; try discriminate; intros [= <- <-]; (split; [done|]);
    exists pki_ErrKeySize; (split; [done|]); exists b, c, d; unfold sizes_right; repeat (split; [done|]); tauto.
Qed.

(** ** Chains *)

(** With the sizes known, reading a bundle leaves the world as it is. *)
Lemma Verify_world pol addr bundle now w : sizes_cached w -> snd (Verify pol addr bundle now w) = w.
Proof.
  intros Hc. unfold Verify, bindM, lift. destruct (negb _); [done|].
  destruct (ParseBundle bundle) as [b|]; [|done]. destruct (negb _); [done|].
  destruct (verify_cert _ _ _ _ _) as [c|]; [|done].
  destruct (verify_descriptor _ _ _ _ _ _) as [d|]; [|done].
  unfold keySizes, PublicKeySize, bindM. rewrite sizesOf_cached by done. cbn [retM]. by destruct (_ || _).
Qed.

Lemma read_nodes_spec (read : bytes -> bytes -> M Verified) w addrs bundles nodes :
  (forall a b, snd (read a b w) = w) -> length addrs = length bundles ->
  read_nodes read addrs bundles w = (Ok nodes, w) <->
  Forall3 (fun a b v => read a b w = (Ok v, w)) addrs bundles nodes.
Proof.
  intros Hw. revert bundles nodes. induction addrs as [|a addrs IH]; intros [|b bundles] nodes Hl; try discriminate.
  - cbn [read_nodes]. split.
    + intros [-> _]%retM_ok. constructor.
    + intros H. inversion H. done.
  - injection Hl as Hl. cbn [read_nodes]. unfold bindM, mwrap. specialize (Hw a b) as Hab.
    destruct (read a b w) as [r w1] eqn:E. cbn [snd] in Hab. subst w1.
    destruct r as [v|e]; cbn [wrap_err].
    + destruct (read_nodes read addrs bundles w) as [rs w2] eqn:E2. split.
      * destruct rs as [vs|e]; [|discriminate]. intros [= <- ->]. constructor; [done|]. by apply IH.
      * intros H. inversion H as [|? v' ? ? ? vs H1 H2]; subst. apply IH in H2; [|done].
        rewrite E in H1. rewrite E2 in H2. injection H1 as ->. by injection H2 as -> ->.
    + split; [discriminate|]. intros H. inversion H. congruence.
Qed.

Lemma repeated_spec nodes : repeated nodes = false <->
  forall i j a b, (j < i)%nat -> nodes !! j = Some a -> nodes !! i = Some b -> same_node a b = false.
Proof.
  unfold repeated. split.
  - intros H i j a b Hj Ha Hb. apply not_true_is_false. intros Hs.
    apply (eq_true_false_abs _ (eq_refl true)). rewrite <- H. symmetry. apply existsb_exists. exists i.
    split; [apply in_seq; apply lookup_lt_Some in Hb; lia|]. rewrite Hb. apply existsb_exists. exists a.
    split; [|done]. apply list_elem_of_In, list_elem_of_lookup. exists j. rewrite lookup_take_lt; done.
  - intros H. apply not_true_is_false. intros (i & Hi & Hex)%existsb_exists.
    destruct (nodes !! i) as [b|] eqn:Hb; [|discriminate].
    apply existsb_exists in Hex as (a & Ha%list_elem_of_In%list_elem_of_lookup & Hs).
    destruct Ha as [j Hj]. apply lookup_take_Some in Hj as [Hj Hlt].
    by rewrite (H i j a b) in Hs.
Qed.

Lemma no_dup_lookup {A B} (f : A -> B) (l : list A) :
  NoDup (map f l) <->
  forall i j a b, (j < i)%nat -> l !! j = Some a -> l !! i = Some b -> f a <> f b.
Proof.
  rewrite NoDup_alt. split.
  - intros H i j a b Hj Ha Hb He.
    assert (j = i); [|lia]. apply (H j i (f a)); rewrite list_lookup_fmap;
      [by rewrite Ha | by rewrite Hb, He].
  - intros H i j x Hi Hj. rewrite list_lookup_fmap in Hi, Hj.
    destruct (l !! i) as [a|] eqn:Ha; [|discriminate]. destruct (l !! j) as [b|] eqn:Hb; [|discriminate].
    injection Hi as Hi. injection Hj as Hj.
    destruct (lt_eq_lt_dec i j) as [[Hlt|]|Hlt]; [|done|].
    + exfalso. eapply (H j i a b); [done..|congruence].
    + exfalso. eapply (H i j b a); [done..|congruence].
Qed.

(** No two nodes share an address, an onion key or an identity. *)
Definition distinct_nodes (nodes : list Verified) : Prop :=
  NoDup (map ve_Addr nodes) /\ NoDup (map ve_OnionPub nodes) /\ NoDup (map ve_Identity nodes).

Lemma repeated_distinct nodes :
  Forall (fun v => (0 < length (ve_Identity v))%nat) nodes -> repeated nodes = false <-> distinct_nodes nodes.
Proof.
  intros Hid. rewrite repeated_spec. unfold distinct_nodes. rewrite !no_dup_lookup. unfold same_node.
  rewrite Forall_lookup in Hid. split.
  - intros H. repeat split; intros i j a b Hj Ha Hb He; specialize (H i j a b Hj Ha Hb);
      rewrite !orb_false_iff, !andb_false_iff, !bool_decide_eq_false in H; [tauto|tauto|].
    specialize (Hid _ _ Ha). rewrite Nat.ltb_ge in H. cbn in Hid. destruct H as [_ [?|?]]; [lia|done].
  - intros (H1 & H2 & H3) i j a b Hj Ha Hb.
    rewrite !orb_false_iff, !andb_false_iff, !bool_decide_eq_false. eauto 10.
Qed.

Lemma Verify_identity pol addr bundle now w v w' :
  Verify pol addr bundle now w = (Ok v, w') -> (0 < length (ve_Identity v))%nat /\ ve_Addr v = addr.
Proof.
  unfold Verify. destruct (negb _); [discriminate|]. intros H. inv_m.
  apply verify_cert_spec in Ha0 as [(Hwf & _ & _ & _ & _ & Had) _]. cbn [verified ve_Identity ve_Addr].
  unfold cert_wf in Hwf. rewrite !andb_true_iff in Hwf. destruct Hwf as [[_ Hi] _].
  unfold sized in Hi. apply andb_true_iff in Hi as [Hi%Nat.leb_le _]. done.
Qed.

(** A chain passes exactly when every bundle passes on its own for the
    address in its place and no two nodes share an address, an onion key or an
    identity; the nodes come out in the order asked for. *)
Theorem chain_distinct pol addrs bundles now w nodes :
  sizes_cached w ->
  VerifyChain pol addrs bundles now w = (Ok nodes, w) <->
  Forall3 (fun a b v => Verify pol a b now w = (Ok v, w)) addrs bundles nodes /\ distinct_nodes nodes.
Proof.
  intros Hc. unfold VerifyChain, eachNode.
  assert (Hw : forall a b, snd (Verify pol a b now w) = w) by (intros; by apply Verify_world).
  assert (Hids : Forall3 (fun a b v => Verify pol a b now w = (Ok v, w)) addrs bundles nodes ->
    Forall (fun v => (0 < length (ve_Identity v))%nat) nodes).
  { induction 1 as [|a b v ? ? ? H]; constructor; [by apply Verify_identity in H as [? _]|done]. }
  destruct (Nat.eqb_spec (length addrs) (length bundles)) as [Hl|Hl]; cbn [negb].
  - pose proof (fun vs => read_nodes_spec (fun a b => Verify pol a b now) w addrs bundles vs Hw Hl) as Hspec.
    unfold bindM. destruct (read_nodes _ addrs bundles w) as [[vs|e] w1].
    + split.
      * destruct (repeated vs) eqn:Hr; [discriminate|]. intros [= -> ->].
        assert (H : Forall3 (fun a b v => Verify pol a b now w = (Ok v, w)) addrs bundles nodes) by (by apply Hspec).
        split; [done|]. by apply repeated_distinct; [apply Hids|].
      * intros [H Hd]. apply repeated_distinct in Hd; [|by apply Hids].
        apply Hspec in H. injection H as -> ->. by rewrite Hd.
    + split; [discriminate|]. intros [H%Hspec _]. congruence.
  - split; [discriminate|]. intros [H _]. exfalso. apply Hl. clear -H. by induction H; simpl; f_equal.
Qed.

End Sound.

Lemma texts_canonical_witness :
  bundle_wf text_bundle = true /\ ParseBundle (Bundle_Marshal text_bundle) = Ok text_bundle.
Proof.
  split; [by vm_compute|].
  apply (proj1 (proj2 (texts_canonical (Bundle_Marshal text_bundle)))); by vm_compute.
Defined.

(** ** A concrete anchor and two nodes, over the primitives of [Toy] *)

Module PkiDemo.
Import Toy ToySuite.

Definition seed (n : byte) : bytes := replicate 32 n.
Definition pub (n : byte) : bytes := C25519.C25519.publicKey (seed n).
Definition sign (n : byte) (m : bytes) : bytes := C25519.C25519.sign (seed n ++ pub n) m.

Definition anchor : Anchor := {| an_Suite := SuiteC25519; an_Pub := pub x03 |}.
Definition policy : Policy := {| po_Anchor := anchor; po_Skew := Skew; po_MaxLife := 0 |}.
Definition start : Z := 1700000000.
Definition noon : Z := (start + 100) * Second + 5.

Definition addr_of (n : byte) : bytes := [n] ++ str ".relay:9000".

Definition cert (n : byte) : Cert :=
  let c := {| ct_Suite := SuiteC25519; ct_Serial := replicate 16 n; ct_CAID := Anchor_ID anchor;
              ct_NotBefore := start; ct_NotAfter := start + 86400; ct_Name := [n]; ct_Addr := addr_of n;
              ct_Identity := pub n; ct_Sig := [] |} in
  cert_with_sig (sign x03 (message (SCert c))) c.

Definition descriptor (n : byte) : Descriptor :=
  let d := {| de_Suite := SuiteC25519; de_Epoch := 1; de_Published := start + 50; de_Expires := start + 3650;
              de_CertHash := Hash (Cert_Marshal (cert n)); de_LinkPub := seed n; de_OnionPub := seed n;
              de_Sig := [] |} in
  descriptor_with_sig (sign n (message (SDescriptor d))) d.

Definition bundle (n : byte) : bytes :=
  Bundle_Marshal {| bu_V := Version; bu_Suite := Suite_String SuiteC25519; bu_Cert := Cert_Marshal (cert n);
                    bu_Descriptor := Descriptor_Marshal (descriptor n) |}.

Definition world : World :=
  {| entropy := []; size_cache := {[ SuiteC25519 := known_sizes ]}; pub_cache := ∅ |}.

Lemma world_cached : sizes_cached world.
Proof. reflexivity. Qed.

Lemma world_sound : sizes_sound world.
Proof. intros v H. rewrite world_cached in H. congruence. Qed.

Example cert_ok : cert_wf (cert "a") = true.
Proof. vm_compute. reflexivity. Qed.

Example descriptor_ok : descriptor_wf (descriptor "a") = true.
Proof. vm_compute. reflexivity. Qed.

Example accepted : is_ok (fst (Verify policy (addr_of "a") (bundle "a") noon world)) = true.
Proof. vm_compute. reflexivity. Qed.

Example refusals :
  map (fun '(a, b, t) => fst (Verify policy a b t world))
    [(addr_of "a", bundle "b", noon); (addr_of "a", bundle "a", noon + 90000 * Second);
     (addr_of "a", bundle "a", noon + 3600 * Second); (addr_of "a", [], noon)]%byte
  = map (fun s => Err (Sentinel s)) [pki_ErrWrongAddr; pki_ErrCertTime; pki_ErrDescTime; pki_ErrFormat].
Proof. vm_compute. reflexivity. Qed.

Example wrong_addr : is_ok (fst (Verify policy (addr_of "a") (bundle "b") noon world)) = false.
Proof. vm_compute. reflexivity. Qed.

Example chain_accepted :
  is_ok (fst (VerifyChain policy (map addr_of ["a"; "b"]%byte) (map bundle ["a"; "b"]%byte) noon world)) = true.
Proof. vm_compute. reflexivity. Qed.

Example chain_world :
  snd (VerifyChain policy (map addr_of ["a"; "b"]%byte) (map bundle ["a"; "b"]%byte) noon world) = world.
Proof. vm_compute. reflexivity. Qed.

Example chain_repeated :
  fst (VerifyChain policy (map addr_of ["a"; "a"]%byte) (map bundle ["a"; "a"]%byte) noon world)
  = Err (ErrWrap (Other "nodes") (Sentinel pki_ErrDuplicate)).
Proof. vm_compute. reflexivity. Qed.

End PkiDemo.

Import ToySuite.

Lemma windows_exact_witness :
  cert_wf (PkiDemo.cert "a") = true /\ descriptor_wf (PkiDemo.descriptor "a") = true /\
  (certWindow (PkiDemo.cert "a") PkiDemo.noon Skew = Ok tt <-> cert_in_window (PkiDemo.cert "a") PkiDemo.noon Skew).
Proof.
  split; [exact PkiDemo.cert_ok|]. split; [exact PkiDemo.descriptor_ok|].
  exact (proj1 (windows_exact PkiDemo.policy (PkiDemo.descriptor "a") (PkiDemo.cert "a") PkiDemo.noon Skew
    PkiDemo.cert_ok PkiDemo.descriptor_ok)).
Defined.

Lemma verify_sound_witness :
  exists v w, Verify PkiDemo.policy (PkiDemo.addr_of "a") (PkiDemo.bundle "a") PkiDemo.noon PkiDemo.world = (Ok v, w) /\
  exists c d, Crypto.Verify (ct_Identity c) (message (SDescriptor d)) (de_Sig d) = true /\ v = verified c d.
Proof.
  destruct (run_ok _ PkiDemo.accepted) as (v & w & H). exists v, w. split; [exact H|].
  destruct (verify_sound PkiDemo.policy _ _ _ _ _ _ PkiDemo.world_sound H)
    as (_ & b & c & d & _ & _ & _ & _ & _ & Hd & _ & Hv).
  exists c, d. split; [apply Hd | exact Hv].
Defined.

Lemma verify_errors_witness :
  exists e w, Verify PkiDemo.policy (PkiDemo.addr_of "a") (PkiDemo.bundle "b") PkiDemo.noon PkiDemo.world = (Err e, w) /\
  w = PkiDemo.world.
Proof.
  destruct (run_err _ PkiDemo.wrong_addr) as (e & w & H). exists e, w. split; [exact H|].
  apply (verify_errors PkiDemo.policy _ _ _ _ _ _ PkiDemo.world_cached H).
Defined.

Lemma chain_distinct_witness :
  exists nodes, VerifyChain PkiDemo.policy (map PkiDemo.addr_of ["a"; "b"]%byte) (map PkiDemo.bundle ["a"; "b"]%byte)
    PkiDemo.noon PkiDemo.world = (Ok nodes, PkiDemo.world) /\ distinct_nodes nodes.
Proof.
  destruct (run_ok _ PkiDemo.chain_accepted) as (nodes & w & H).
  assert (w = PkiDemo.world) as ->.
  { pose proof PkiDemo.chain_world as Hw. rewrite H in Hw. exact Hw. }
  exists nodes. split; [exact H|].
  exact (proj2 (proj1 (chain_distinct _ _ _ _ _ _ PkiDemo.world_cached) H)).
Defined.
