(* ===== verification/Identity.v ===== *)
(** * Identity: enrollment, from the request to the bundle a node serves

    Models [src/pki/request.go], [src/pki/ca.go] and [src/pki/identity.go].  An
    operation is one step: the mutexes are left out, and the stored bundle,
    which is read without one, is a field like the others.  A released key
    buffer is [None]; the locking of its memory is left out. *)

From Stdlib Require Import Strings.Byte Strings.String.
From stdpp Require Import relations.
From S2P Require Import Prelude Effects Crypto Toy Text Json Addr Cert Setup Pki.

(** [InstallWindow]: how long after its request a node takes the certificate. *)
Definition InstallWindow : Z := Minute.

Record CA : Type := { ca_anchor : Anchor; ca_id : bytes; ca_priv : option bytes }.

Record Identity : Type := {
  id_name : bytes;
  id_addr : bytes;
  id_pub : bytes;
  id_priv : option bytes;
  id_cert : option Cert;
  id_certRaw : bytes;
  id_link : bytes;
  id_onion : bytes;
  id_epoch : Z;
  id_bundle : option bytes
}.

Definition id_with_cert (c : option Cert) (raw : bytes) (b : option bytes) (i : Identity) : Identity :=
  {| id_name := id_name i; id_addr := id_addr i; id_pub := id_pub i; id_priv := id_priv i; id_cert := c;
     id_certRaw := raw; id_link := id_link i; id_onion := id_onion i; id_epoch := id_epoch i; id_bundle := b |}.

Definition id_with_keys (link onion : bytes) (epoch : Z) (i : Identity) : Identity :=
  {| id_name := id_name i; id_addr := id_addr i; id_pub := id_pub i; id_priv := id_priv i;
     id_cert := id_cert i; id_certRaw := id_certRaw i; id_link := link; id_onion := onion; id_epoch := epoch;
     id_bundle := id_bundle i |}.

Definition id_with_bundle (b : option bytes) (i : Identity) : Identity :=
  id_with_cert (id_cert i) (id_certRaw i) b i.

Section Operations.
Context {P : CryptoProvider}.

(** ** Requests *)

Definition Request_verify (r : Request) : res unit :=
  if negb (Crypto.Verify (rq_Identity r) (signed requestDomain (Request_body r)) (rq_Sig r))
  then Err (Sentinel pki_ErrRequestSignature) else Ok tt.

Definition Request_Check (r : Request) (nonce name addr : bytes) : res unit :=
  if negb (rq_Suite r =? Suite) then Err (Sentinel pki_ErrSuite)
  else if negb (bool_decide (rq_Nonce r = nonce)) then Err (Sentinel pki_ErrNonce)
  else if negb (bool_decide (rq_Name r = name)) || negb (bool_decide (rq_Addr r = addr))
  then Err (Sentinel pki_ErrRoster)
  else Request_verify r.

(** Both owners of a signing key sign the same way: [secmem.ErrReleased] once it
    is gone. *)
Definition sign_with (priv : option bytes) (domain body : bytes) : M bytes :=
  match priv with
  | None => failM (Sentinel secmem_ErrReleased)
  | Some k => draw (Sign k (signed domain body))
  end.

(** ** The certification authority *)

Definition NewCA : M CA :=
  let! (priv, pub) := draw GenerateSigning in
  let a := {| an_Suite := Suite; an_Pub := pub |} in
  retM {| ca_anchor := a; ca_id := Anchor_ID a; ca_priv := Some priv |}.

Definition CA_Anchor (c : CA) : Anchor := {| an_Suite := an_Suite (ca_anchor c); an_Pub := an_Pub (ca_anchor c) |}.

Definition CA_sign (c : CA) (domain body : bytes) : M bytes := sign_with (ca_priv c) domain body.

Definition Issue (c : CA) (r : Request) (notBefore notAfter : Z) : M Cert :=
  if negb (rq_Suite r =? Suite) then failM (Sentinel pki_ErrSuite)
  else if negb (ValidName (rq_Name r)) || negb (ValidAddr (rq_Addr r)) ||
          (length (rq_Identity r) =? 0)%nat || (maxKey <? length (rq_Identity r))%nat
  then failM (Sentinel pki_ErrFormat)
  else
    let! _ := lift (Request_verify r) in
    if Unix notAfter <=? Unix notBefore then failM (Sentinel pki_ErrCertTime)
    else
      let! serial := rand_read SerialSize in
      let cert := {| ct_Suite := Suite; ct_Serial := serial; ct_CAID := ca_id c; ct_NotBefore := Unix notBefore;
                     ct_NotAfter := Unix notAfter; ct_Name := rq_Name r; ct_Addr := rq_Addr r;
                     ct_Identity := rq_Identity r; ct_Sig := [] |} in
      let! sig := CA_sign c certDomain (Cert_body cert) in
      retM (cert_with_sig sig cert).

Definition CA_Close (c : CA) : CA := {| ca_anchor := ca_anchor c; ca_id := ca_id c; ca_priv := None |}.

(** ** The node *)

Definition NewIdentity (name addr : bytes) : M Identity :=
  if negb (ValidName name) || negb (ValidAddr addr) then failM (Sentinel pki_ErrFormat)
  else
    let! (priv, pub) := draw GenerateSigning in
    retM {| id_name := name; id_addr := addr; id_pub := pub; id_priv := Some priv; id_cert := None;
            id_certRaw := []; id_link := []; id_onion := []; id_epoch := 0; id_bundle := None |}.

Definition Identity_Fingerprint (i : Identity) : bytes := Fingerprint (id_pub i).
Definition Identity_KeyHash (i : Identity) : bytes := KeyHash (id_pub i).

Definition Identity_sign (i : Identity) (domain body : bytes) : M bytes := sign_with (id_priv i) domain body.

Definition Identity_Request (i : Identity) (nonce : bytes) : M bytes :=
  let r := {| rq_Suite := Suite; rq_Nonce := nonce; rq_Name := id_name i; rq_Addr := id_addr i;
              rq_Identity := id_pub i; rq_Sig := [] |} in
  let! sig := Identity_sign i requestDomain (Request_body r) in
  retM (Request_Marshal (request_with_sig sig r)).

(** The node does not know the anchor: the CA's signature is not checked here. *)
Definition Install (raw : bytes) (now : Z) (i : Identity) : res unit * Identity :=
  let r :=
    let? c := ParseCert raw in
    if negb (ct_Suite c =? Suite) then Err (Sentinel pki_ErrSuite)
    else if negb (bool_decide (ct_Identity c = id_pub i)) then Err (Sentinel pki_ErrCertMismatch)
    else if negb (bool_decide (ct_Name c = id_name i)) || negb (bool_decide (ct_Addr c = id_addr i))
    then Err (Sentinel pki_ErrRoster)
    else
      let? _ := certWindow c now Skew in
      if bool_decide (id_priv i = None) then Err (Sentinel secmem_ErrReleased) else Ok c in
  match r with
  | Err e => (Err e, i)
  | Ok c => (Ok tt, id_with_cert (Some c) raw None i)
  end.

Definition SetKeys (link onion : bytes) (epoch : Z) (i : Identity) : Identity := id_with_keys link onion epoch i.

(** The descriptor of [Refresh], before it is signed. *)
Definition fresh_descriptor (i : Identity) (published expires : Z) : Descriptor :=
  {| de_Suite := Suite; de_Epoch := id_epoch i; de_Published := published; de_Expires := expires;
     de_CertHash := Hash (id_certRaw i); de_LinkPub := id_link i; de_OnionPub := id_onion i; de_Sig := [] |}.

(** What [Refresh] comes to: a new bundle, or an error and whether the bundle is
    withdrawn with it. *)
Definition refreshed (now ttl : Z) (i : Identity) : M (res (option bytes)) :=
  if (ttl <=? 0) || (MaxDescriptorLife <? ttl) then failM (Sentinel pki_ErrDescTime)
  else
    match id_priv i, id_cert i with
    | None, _ => failM (Sentinel secmem_ErrReleased)
    | _, None => failM (Sentinel pki_ErrNoCert)
    | Some _, Some cert =>
        let! size := PublicKeySize in
        if negb (length (id_link i) =? size)%nat || negb (length (id_onion i) =? size)%nat
        then failM (Sentinel pki_ErrKeySize)
        else
          let published := Unix now in
          if ct_NotAfter cert <=? published then retM (Err (Sentinel pki_ErrCertTime))
          else
            let expires := Z.min (Unix (now + ttl)) (ct_NotAfter cert) in
            if expires <=? published then failM (Sentinel pki_ErrDescTime)
            else if negb (length (Hash (id_certRaw i)) =? HashSize)%nat
            then failM (Other "pki: hash size differs from the descriptor field")
            else
              let d := fresh_descriptor i published expires in
              let! sig := Identity_sign i descriptorDomain (Descriptor_body d) in
              retM (Ok (Some (Bundle_Marshal
                {| bu_V := Version; bu_Suite := Suite_String Suite; bu_Cert := id_certRaw i;
                   bu_Descriptor := Descriptor_Marshal (descriptor_with_sig sig d) |})))
    end.

Definition Refresh (now ttl : Z) (i : Identity) (w : World) : (res unit * Identity) * World :=
  match refreshed now ttl i w with
  | (Ok (Ok b), w') => ((Ok tt, id_with_bundle b i), w')
  | (Ok (Err e), w') => ((Err e, id_with_bundle None i), w')
  | (Err e, w') => ((Err e, i), w')
  end.

Definition Identity_Bundle (i : Identity) : option bytes := id_bundle i.

Definition Identity_Close (i : Identity) : Identity :=
  {| id_name := id_name i; id_addr := id_addr i; id_pub := id_pub i; id_priv := None; id_cert := id_cert i;
     id_certRaw := id_certRaw i; id_link := id_link i; id_onion := id_onion i; id_epoch := id_epoch i;
     id_bundle := None |}.

(** ** Bundles without a certificate *)

Definition UnsignedEpoch (link onion : bytes) (epoch : Z) : M bytes :=
  let! size := PublicKeySize in
  if negb (length link =? size)%nat || negb (length onion =? size)%nat then failM (Sentinel pki_ErrKeySize)
  else
    let d := {| de_Suite := Suite; de_Epoch := epoch; de_Published := 0; de_Expires := 0;
                de_CertHash := replicate HashSize x00; de_LinkPub := link; de_OnionPub := onion; de_Sig := [] |} in
    retM (Bundle_Marshal {| bu_V := Version; bu_Suite := Suite_String Suite; bu_Cert := [];
                            bu_Descriptor := Descriptor_Marshal d |}).

Definition Unsigned (link onion : bytes) : M bytes := UnsignedEpoch link onion 0.

End Operations.

(** ** The invariant of an identity *)

Section Invariant.
Context `{CL : CryptoLaws}.

(** The descriptor [d] is this node's, over the certificate [c]. *)
Record own_descriptor (pub : bytes) (c : Cert) (d : Descriptor) : Prop := {
  od_wf : descriptor_wf d = true;
  od_suite : de_Suite d = Suite;
  od_hash : de_CertHash d = Hash (Cert_Marshal c);
  od_sig : Crypto.Verify pub (message (SDescriptor d)) (de_Sig d) = true;
  od_sizes : sizes_right d;
  od_times : de_Published d < de_Expires d <= ct_NotAfter c;
  od_life : de_Expires d - de_Published d <= MaxDescriptorLife / Second
}.

(** The certificate [c] is this node's. *)
Record own_cert (i : Identity) (c : Cert) : Prop := {
  oc_wf : cert_wf c = true;
  oc_raw : id_certRaw i = Cert_Marshal c;
  oc_suite : ct_Suite c = Suite;
  oc_identity : ct_Identity c = id_pub i;
  oc_name : ct_Name c = id_name i;
  oc_addr : ct_Addr c = id_addr i
}.

Record id_inv (i : Identity) : Prop := {
  ii_pair : forall p, id_priv i = Some p -> SigningPair p (id_pub i);
  ii_epoch : uint32 (id_epoch i) = true;
  ii_cert : forall c, id_cert i = Some c -> own_cert i c;
  ii_bundle : forall raw, id_bundle i = Some raw -> id_priv i <> None /\
    exists c d, id_cert i = Some c /\ raw = Bundle_Marshal (bundle_of c d) /\ own_descriptor (id_pub i) c d
}.

Lemma sign_with_ok k pub x w s w' :
  SigningPair k pub -> draw (Sign k (message x)) w = (Ok s, w') ->
  Crypto.Verify pub (message x) s = true /\ sized 0 maxSig s = true.
Proof.
  intros Hk (e & H & _)%draw_ok. split; [by eapply sign_verify|].
  apply sign_size in H. unfold sized, maxSig. apply andb_true_iff; split; apply Nat.leb_le; lia.
Qed.

Lemma sizes_right_sized d : sizes_right d -> sized 1 maxKey (de_LinkPub d) = true /\ sized 1 maxKey (de_OnionPub d) = true.
Proof.
  intros [H1 H2]. pose proof pub_size_range. unfold sized, maxKey. rewrite H1, H2.
  split; apply andb_true_iff; split; apply Nat.leb_le; lia.
Qed.

Lemma life_bound now ttl : ttl <= MaxDescriptorLife -> Unix (now + ttl) - Unix now <= MaxDescriptorLife / Second.
Proof. unfold Unix, MaxDescriptorLife, Hour, Minute, Second. intros. Z.to_euclidean_division_equations. lia. Qed.

Lemma refreshed_ok now ttl i w b w' :
  id_inv i -> sizes_sound w -> 0 <= now -> refreshed now ttl i w = (Ok (Ok b), w') ->
  exists k c d, id_priv i = Some k /\ id_cert i = Some c /\ b = Some (Bundle_Marshal (bundle_of c d)) /\
    own_descriptor (id_pub i) c d /\ de_LinkPub d = id_link i /\ de_OnionPub d = id_onion i /\
    de_Epoch d = id_epoch i /\ de_Published d = Unix now /\
    de_Expires d = Z.min (Unix (now + ttl)) (ct_NotAfter c) /\ 0 < ttl <= MaxDescriptorLife.
Proof.
  intros Hi Hw Hn. unfold refreshed. destruct (_ || _) eqn:Ht; [discriminate|].
  apply orb_false_iff in Ht as [Ht1%Z.leb_gt Ht2%Z.ltb_ge].
  destruct (id_priv i) as [k|] eqn:Hk; [|discriminate]. destruct (id_cert i) as [c|] eqn:Hc; [|discriminate].
  intros (size & w1 & [-> _]%PublicKeySize_ok & H)%bindM_ok; [|done].
  destruct (Nat.eqb_spec (length (id_link i)) pub_size) as [Hl|]; [|discriminate].
  destruct (Nat.eqb_spec (length (id_onion i)) pub_size) as [Ho|]; [|discriminate]. cbn [negb orb] in H.
  destruct (Z.leb_spec (ct_NotAfter c) (Unix now)) as [|Hna]; [discriminate|].
  set (exp := Z.min (Unix (now + ttl)) (ct_NotAfter c)) in *.
  destruct (Z.leb_spec exp (Unix now)) as [|Hexp]; [discriminate|]. rewrite hash_size in H. cbn [negb Nat.eqb ContextSize HashSize] in H.
  set (d0 := fresh_descriptor i (Unix now) exp) in *.
  apply bindM_ok in H as (sig & w2 & Hsig & [[= ->] ->]%retM_ok).
  destruct (ii_cert i Hi c Hc) as [Hwf Hraw Hs _ _ _].
  unfold Identity_sign, sign_with in Hsig. rewrite Hk in Hsig.
  destruct (sign_with_ok k (id_pub i) (SDescriptor d0) w1 sig w2 (ii_pair i Hi k Hk) Hsig) as [Hv Hsz].
  exists k, c, (descriptor_with_sig sig d0). rewrite Hraw.
  assert (Hsr : sizes_right (descriptor_with_sig sig d0)) by done.
  destruct (sizes_right_sized _ Hsr) as [Hs1 Hs2].
  assert (0 <= Unix now) by (unfold Unix, Second; Z.to_euclidean_division_equations; lia).
  assert (int64 (ct_NotAfter c) = true) as Hi64 by (unfold cert_wf in Hwf; rewrite !andb_true_iff in Hwf; tauto).
  unfold int64 in Hi64. apply andb_true_iff in Hi64 as [_ Hi64%Z.ltb_lt].
  repeat split; try done; try (unfold exp in *; cbn; lia).
  - unfold descriptor_wf. cbn [descriptor_with_sig d0 fresh_descriptor de_Suite de_Epoch de_Published de_Expires de_CertHash
      de_LinkPub de_OnionPub de_Sig] in *.
    rewrite knownSuite_same, suite_known, (ii_epoch i Hi), Hs1, Hs2, Hsz, hash_size. unfold int64, exp in *. cbn [andb].
    repeat (apply andb_true_iff; split); try done; try (apply Z.leb_le || apply Z.ltb_lt); lia.
  - cbn. by rewrite Hraw.
  - pose proof (life_bound now ttl Ht2). unfold exp. cbn [descriptor_with_sig d0 fresh_descriptor de_Published de_Expires]. unfold exp. lia.
Qed.

(** *** Every operation keeps it *)

Inductive id_step : Identity -> Identity -> Prop :=
| st_install raw now i r i' : Install raw now i = (r, i') -> id_step i i'
| st_keys link onion epoch i : uint32 epoch = true -> id_step i (SetKeys link onion epoch i)
| st_refresh now ttl i w r i' w' :
    sizes_sound w -> 0 <= now -> Refresh now ttl i w = ((r, i'), w') -> id_step i i'
| st_close i : id_step i (Identity_Close i).

Lemma Install_ok raw now i i' : Install raw now i = (Ok tt, i') ->
  exists c, ParseCert raw = Ok c /\ ct_Suite c = Suite /\ ct_Identity c = id_pub i /\ ct_Name c = id_name i /\
    ct_Addr c = id_addr i /\ cert_in_window c now Skew /\ id_priv i <> None /\
    i' = id_with_cert (Some c) raw None i.
Proof.
  unfold Install. destruct (ParseCert raw) as [c|e]; cbn [rbind]; [|discriminate].
  destruct (Z.eqb_spec (ct_Suite c) Suite); cbn [negb]; [|discriminate].
  case_bool_decide as Hid; cbn [negb]; [|discriminate].
  destruct (bool_decide_reflect (ct_Name c = id_name i)); cbn [negb orb]; [|discriminate].
  destruct (bool_decide_reflect (ct_Addr c = id_addr i)); cbn [negb]; [|discriminate].
  destruct (certWindow c now Skew) as [[]|e'] eqn:Hw; cbn [rbind]; [|discriminate].
  apply certWindow_spec in Hw.
  destruct (bool_decide_reflect (id_priv i = None)); [discriminate|]. intros [= <-]. by exists c.
Qed.

Lemma Install_err raw now i e i' : Install raw now i = (Err e, i') -> i' = i.
Proof. unfold Install. destruct (rbind _ _); [discriminate|]. by intros [= _ <-]. Qed.

Lemma Install_inv raw now i r i' : id_inv i -> Install raw now i = (r, i') -> id_inv i'.
Proof.
  intros Hi H. destruct r as [[]|e]; [|by apply Install_err in H as ->].
  apply Install_ok in H as (c & [Hwf Hraw]%ParseCert_spec & Hs & Hid & Hn & Ha & _ & Hk & ->).
  destruct Hi as [H1 H2 H3 H4]. split; cbn [id_with_cert id_priv id_pub id_epoch id_cert id_bundle]; try done.
  by intros c' [= <-].
Qed.

Lemma Refresh_inv now ttl i w r i' w' :
  sizes_sound w -> 0 <= now -> id_inv i -> Refresh now ttl i w = ((r, i'), w') -> id_inv i'.
Proof.
  intros Hw Hn Hi. unfold Refresh. destruct (refreshed now ttl i w) as [[[b|e]|e] w1] eqn:E; intros [= <- <- <-].
  - apply refreshed_ok in E as (k & c & d & Hk & Hc & -> & Hd & _); [|done..].
    destruct Hi as [H1 H2 H3 H4]. split; cbn [id_with_bundle id_with_cert id_priv id_pub id_epoch id_cert id_bundle]; try done.
    + intros c' Hc'. by destruct (H3 c' Hc').
    + intros raw <-%(inj Some). split; [congruence|]. by exists c, d.
  - destruct Hi as [H1 H2 H3 H4]. split; try done. intros c' Hc'. by destruct (H3 c' Hc').
  - done.
Qed.

Lemma id_step_inv i i' : id_inv i -> id_step i i' -> id_inv i'.
Proof.
  intros Hi H. destruct H.
  - by eapply Install_inv.
  - destruct Hi as [H1 H2 H3 H4]. split; try done. intros c Hc. by destruct (H3 c Hc).
  - by eapply Refresh_inv.
  - destruct Hi as [H1 H2 H3 H4]. split; try done. intros c Hc. by destruct (H3 c Hc).
Qed.

Lemma id_steps_inv i i' : id_inv i -> rtc id_step i i' -> id_inv i'.
Proof. intros Hi H. induction H; [done|]. eauto using id_step_inv. Qed.

(** Who the node is never changes. *)
Lemma id_step_same i i' : id_step i i' ->
  id_name i' = id_name i /\ id_addr i' = id_addr i /\ id_pub i' = id_pub i /\
  (id_priv i = None -> id_priv i' = None).
Proof.
  intros H. destruct H; try done.
  - destruct r as [[]|e]; [|by apply Install_err in H as ->].
    apply Install_ok in H as (c & _ & _ & _ & _ & _ & _ & _ & ->). done.
  - unfold Refresh in H1. destruct (refreshed now ttl i w) as [[[b|e]|e] w1]; injection H1 as <- <- <-; done.
Qed.

Lemma id_steps_same i i' : rtc id_step i i' ->
  id_name i' = id_name i /\ id_addr i' = id_addr i /\ id_pub i' = id_pub i /\
  (id_priv i = None -> id_priv i' = None).
Proof.
  intros H. induction H as [|x y z (H1 & H2 & H3 & H4)%id_step_same _ IH]; [done|].
  rewrite <- H1, <- H2, <- H3. naive_solver.
Qed.

Lemma NewIdentity_ok name addr w i w' : NewIdentity name addr w = (Ok i, w') ->
  id_inv i /\ id_name i = name /\ id_addr i = addr /\ ValidName name = true /\ ValidAddr addr = true /\
  exists k, id_priv i = Some k.
Proof.
  unfold NewIdentity. destruct (negb _ || negb _) eqn:E; [discriminate|].
  apply orb_false_iff in E as [?%negb_false_iff ?%negb_false_iff].
  intros ((k & pub) & w1 & (e & Hk & _)%draw_ok & [-> _]%retM_ok)%bindM_ok.
  split; [|eauto 10]. split; cbn [id_priv id_pub id_epoch id_cert id_bundle]; try done.
  intros p [= <-]. by exists (entropy w), e.
Qed.

(** Whatever is done to a node's identity, in any order, the bundle it serves
    is its own: one certificate that was installed for its name, address and key,
    and a descriptor signed with that key over that certificate, which expires
    with the certificate at the latest and lives a day at most.  After [Close]
    it never serves one again. *)
Theorem identity_serves name addr w i0 w' i :
  NewIdentity name addr w = (Ok i0, w') -> rtc id_step i0 i ->
  (forall raw, Identity_Bundle i = Some raw -> exists c d, raw = Bundle_Marshal (bundle_of c d) /\
     cert_wf c = true /\ ct_Name c = name /\ ct_Addr c = addr /\ ct_Identity c = id_pub i0 /\
     own_descriptor (id_pub i0) c d) /\
  (forall i', rtc id_step (Identity_Close i) i' -> Identity_Bundle i' = None).
Proof.
  intros (Hi & Hn & Ha & _)%NewIdentity_ok H. pose proof (id_steps_inv _ _ Hi H) as Hinv.
  pose proof (id_steps_same _ _ H) as (En & Ea & Ep & _). split.
  - intros raw Hb. destruct (ii_bundle i Hinv raw Hb) as (_ & c & d & Hc & -> & Hd).
    destruct (ii_cert i Hinv c Hc). exists c, d. rewrite <- Ep. repeat split; auto; try congruence; apply Hd.
  - intros i' H'. pose proof (id_step_inv _ _ Hinv (st_close i)) as Hcl.
    pose proof (id_steps_inv _ _ Hcl H') as Hinv'. apply id_steps_same in H' as (_ & _ & _ & Hp).
    unfold Identity_Bundle. destruct (id_bundle i') as [raw|] eqn:E; [|done].
    destruct (ii_bundle i' Hinv' raw E) as [Hk _]. exfalso. by apply Hk, Hp.
Qed.

(** *** Enrollment *)

Lemma keyID_length pub : length (keyID pub) = IDSize.
Proof. unfold keyID. rewrite length_copy_at by lia. done. Qed.

Lemma CA_pair w ca w' : NewCA w = (Ok ca, w') ->
  an_Suite (ca_anchor ca) = Suite /\ ca_id ca = Anchor_ID (ca_anchor ca) /\
  exists k, ca_priv ca = Some k /\ SigningPair k (an_Pub (ca_anchor ca)).
Proof.
  intros ((k & pub) & w1 & (e & Hk & _)%draw_ok & [-> _]%retM_ok)%bindM_ok.
  split; [done|]. split; [done|]. exists k. split; [done|]. by exists (entropy w), e.
Qed.

(** What the node asks for is what the enroller reads and checks. *)
Lemma Identity_Request_ok i nonce w raw w' :
  id_inv i -> ValidName (id_name i) = true -> ValidAddr (id_addr i) = true ->
  length nonce = NonceSize -> Identity_Request i nonce w = (Ok raw, w') ->
  exists r, ParseRequest raw = Ok r /\ Request_Check r nonce (id_name i) (id_addr i) = Ok tt /\
    rq_Name r = id_name i /\ rq_Addr r = id_addr i /\ rq_Identity r = id_pub i.
Proof.
  intros Hi Hn Ha Hl. unfold Identity_Request.
  set (r0 := {| rq_Suite := Suite; rq_Nonce := nonce; rq_Name := id_name i; rq_Addr := id_addr i;
                rq_Identity := id_pub i; rq_Sig := [] |}).
  intros (sig & w1 & Hs & [-> _]%retM_ok)%bindM_ok. unfold Identity_sign, sign_with in Hs.
  destruct (id_priv i) as [k|] eqn:Hk; [|discriminate].
  destruct (sign_with_ok k (id_pub i) (SRequest r0) w sig w1 (ii_pair i Hi k Hk) Hs) as [Hv Hsz].
  pose proof (signing_pub_size _ _ (ii_pair i Hi k Hk)) as Hp.
  exists (request_with_sig sig r0). split; [|split; [|done]].
  - apply ParseRequest_spec. split; [|done]. unfold request_wf, r0. cbn [request_with_sig rq_Suite rq_Nonce rq_Name
      rq_Addr rq_Identity rq_Sig]. rewrite knownSuite_same, suite_known, Hl, Hn, Ha, Hsz. cbn [andb Nat.eqb NonceSize].
    unfold sized, maxKey. rewrite (proj2 (Nat.leb_le _ _)), (proj2 (Nat.leb_le _ _)) by lia. done.
  - unfold Request_Check, Request_verify. cbn [request_with_sig rq_Suite rq_Nonce rq_Name rq_Addr rq_Identity rq_Sig r0].
    rewrite Z.eqb_refl, !bool_decide_true by done. cbn [negb orb]. unfold message in Hv. 
    change (Request_body (request_with_sig sig r0)) with (Request_body r0).
    change (rq_Identity (request_with_sig sig r0)) with (id_pub i). by rewrite Hv.
Qed.

(** What the CA issues is over the request it was given. *)
Lemma Issue_ok w0 ca w1 r nb na w c w' :
  NewCA w0 = (Ok ca, w1) -> Issue ca r nb na w = (Ok c, w') ->
  - 2 ^ 63 <= Unix nb -> Unix na < 2 ^ 63 ->
  cert_wf c = true /\ ct_Suite c = Suite /\ ct_CAID c = Anchor_ID (ca_anchor ca) /\
  Crypto.Verify (an_Pub (ca_anchor ca)) (message (SCert c)) (ct_Sig c) = true /\
  Request_verify r = Ok tt /\ ct_Name c = rq_Name r /\ ct_Addr c = rq_Addr r /\
  ct_Identity c = rq_Identity r /\ ct_NotBefore c = Unix nb /\ ct_NotAfter c = Unix na /\ Unix nb < Unix na.
Proof.
  intros (Hs & Hid & k & Hk & Hp)%CA_pair H Hnb Hna. unfold Issue in H.
  destruct (negb (rq_Suite r =? Suite)); [discriminate|].
  destruct (_ || _) eqn:E; [discriminate|].
  rewrite !orb_false_iff, !negb_false_iff, Nat.eqb_neq, Nat.ltb_ge in E. destruct E as (((En & Ea) & El) & Eh).
  apply bindM_ok in H as ([] & w2 & [Hr ->]%lift_ok & H).
  destruct (Z.leb_spec (Unix na) (Unix nb)); [discriminate|].
  apply bindM_ok in H as (serial & w3 & Hser%rand_read_ok & H).
  apply bindM_ok in H as (sig & w4 & Hsig & [-> _]%retM_ok).
  unfold CA_sign, sign_with in Hsig. rewrite Hk in Hsig.
  set (c0 := {| ct_Suite := Suite; ct_Serial := serial; ct_CAID := ca_id ca; ct_NotBefore := Unix nb;
                ct_NotAfter := Unix na; ct_Name := rq_Name r; ct_Addr := rq_Addr r;
                ct_Identity := rq_Identity r; ct_Sig := [] |}) in *.
  destruct (sign_with_ok k (an_Pub (ca_anchor ca)) (SCert c0) _ _ _ Hp Hsig) as [Hv Hsz].
  split; [|by repeat split].
  unfold cert_wf, c0. cbn [cert_with_sig ct_Suite ct_Serial ct_CAID ct_NotBefore ct_NotAfter ct_Name ct_Addr ct_Identity ct_Sig].
  rewrite knownSuite_same, suite_known, Hser, Hid, En, Ea, Hsz. unfold Anchor_ID. rewrite keyID_length.
  unfold int64, sized. rewrite !(proj2 (Z.leb_le _ _)), !(proj2 (Z.ltb_lt _ _)), !(proj2 (Nat.leb_le _ _)) by lia.
  done.
Qed.

(** When a refreshed bundle passes. *)
Definition serves_at (pol : Policy) (c : Cert) (published ttl now : Z) : Prop :=
  ct_NotBefore c <= Unix (now + Z.max (po_Skew pol) 0) /\ Unix published <= Unix (now + Z.max (po_Skew pol) 0) /\
  Unix now < Unix (published + ttl) /\ Unix now < ct_NotAfter c.

Lemma whole_life now ttl : ttl mod Second = 0 -> Unix (now + ttl) - Unix now = ttl / Second.
Proof. unfold Unix, Second. intros. Z.to_euclidean_division_equations. lia. Qed.

Lemma Install_issued i c now :
  cert_wf c = true -> ct_Suite c = Suite -> ct_Identity c = id_pub i -> ct_Name c = id_name i ->
  ct_Addr c = id_addr i -> cert_in_window c now Skew -> id_priv i <> None ->
  Install (Cert_Marshal c) now i = (Ok tt, id_with_cert (Some c) (Cert_Marshal c) None i).
Proof.
  intros Hwf Hs Hid Hn Ha Hw Hk. unfold Install. rewrite (proj2 (ParseCert_spec _ c)) by done. cbn [rbind].
  rewrite Hs, Z.eqb_refl, !bool_decide_true, (proj2 (certWindow_spec _ _ _)) by done. cbn [negb orb rbind].
  by rewrite bool_decide_false.
Qed.

(** Enrollment works end to end: the request a node makes parses and passes
    the enroller's check; the certificate the CA then issues for it installs
    while it is valid; and once the node's keys are set and a descriptor made,
    the bundle it serves passes [Verify] under that CA's anchor, for the node's
    address and with the node's keys, at every time inside both windows, under
    every policy that allows the lifetime. *)
Theorem enrolled_verifies w0 ca w1 name addr w2 i w3 nonce w4 raw w5 :
  NewCA w0 = (Ok ca, w1) -> NewIdentity name addr w2 = (Ok i, w3) -> length nonce = NonceSize ->
  Identity_Request i nonce w4 = (Ok raw, w5) ->
  exists r, ParseRequest raw = Ok r /\ Request_Check r nonce name addr = Ok tt /\
  forall nb na w6 c w7, Issue ca r nb na w6 = (Ok c, w7) -> - 2 ^ 63 <= Unix nb -> Unix na < 2 ^ 63 ->
  forall now, Unix nb <= Unix (now + Skew) -> Unix now < Unix na ->
  exists i1, Install (Cert_Marshal c) now i = (Ok tt, i1) /\
  forall link onion epoch t ttl w8 i2 w9, uint32 epoch = true -> sizes_sound w8 -> 0 <= t -> ttl mod Second = 0 ->
    Refresh t ttl (SetKeys link onion epoch i1) w8 = ((Ok tt, i2), w9) ->
  exists bundle, Identity_Bundle i2 = Some bundle /\
  forall pol now' w, po_Anchor pol = CA_Anchor ca -> ttl <= maxLife pol -> sizes_cached w ->
    serves_at pol c t ttl now' ->
  exists v, Verify pol addr bundle now' w = (Ok v, w) /\ ve_Name v = name /\ ve_Addr v = addr /\
    ve_Identity v = id_pub i /\ ve_LinkPub v = link /\ ve_OnionPub v = onion /\ ve_Epoch v = epoch.
Proof.
  intros Hca (Hi & Hn & Ha & Vn & Va & k & Hk)%NewIdentity_ok Hnl Hreq. subst name addr.
  destruct (Identity_Request_ok i nonce w4 raw w5 Hi Vn Va Hnl Hreq) as (r & Hr & Hchk & En & Ea & Ei).
  exists r. split; [done|]. split; [done|]. intros nb na w6 c w7 Hiss Hnb Hna now Hw1 Hw2.
  destruct (Issue_ok _ _ _ _ _ _ _ _ _ Hca Hiss Hnb Hna) as (Hwf & Hs & Hcaid & Hv & _ & Cn & Ca & Ci & Cb & Cat & Hlt).
  exists (id_with_cert (Some c) (Cert_Marshal c) None i). split.
  { apply Install_issued; try done; try congruence. unfold cert_in_window. lia. }
  intros link onion epoch t ttl w8 i2 w9 Hep Hw8 Ht Hwhole HR.
  set (i1 := SetKeys link onion epoch (id_with_cert (Some c) (Cert_Marshal c) None i)) in HR.
  assert (Hi1 : id_inv i1).
  { destruct Hi as [H1 H2 H3 H4]. split; try done. intros c' [= <-]. split; try done; cbn; congruence. }
  unfold Refresh in HR. destruct (refreshed t ttl i1 w8) as [[[b|e]|e] w'] eqn:E; [|discriminate|discriminate].
  injection HR as <- _.
  apply refreshed_ok in E as (k' & c' & d & _ & [= <-] & -> & Hd & Dl & Do & De & Dp & Dx & Httl); [|done..].
  change (id_link i1) with link in Dl. change (id_onion i1) with onion in Do. change (id_epoch i1) with epoch in De.
  exists (Bundle_Marshal (bundle_of c d)). split; [done|].
  intros pol now' w Hpol Hlife Hw Hat. destruct Hat as (A1 & A2 & A3 & A4). destruct Hd as [O1 O2 O3 O4 O5 O6 O7].
  assert (Ean : an_Pub (po_Anchor pol) = an_Pub (ca_anchor ca)) by (by rewrite Hpol).
  assert (Eas : an_Suite (po_Anchor pol) = Suite) by (rewrite Hpol; by apply CA_pair in Hca as [? _]).
  exists (verified c d). split; [|cbn; repeat split; congruence].
  apply Verify_accepts; try done.
  - split; [done|]. split; [done|]. split; [unfold Anchor_ID in *; by rewrite Ean|].
    split; [by rewrite Ean|]. split; [unfold cert_in_window; lia | congruence].
  - split; [done|]. split; [done|]. split; [done|]. split; [by rewrite Ci, Ei|].
    unfold desc_in_window. pose proof (whole_life t ttl Hwhole).
    pose proof (Z.div_le_mono ttl (maxLife pol) Second ltac:(done) Hlife). lia.
Qed.
End Invariant.

(** ** One enrollment, over the primitives of [Toy] *)

Module EnrollDemo.
Import ToySuite.

Definition world : World :=
  {| entropy := map (fun n => byte_of_Z (Z.of_nat n)) (seq 1 64);
     size_cache := {[ SuiteC25519 := known_sizes ]}; pub_cache := ∅ |}.

Lemma world_sizes : sizes_cached world.
Proof. reflexivity. Qed.

Lemma world_sizes_sound : sizes_sound world.
Proof. intros v H. rewrite world_sizes in H. congruence. Qed.

Definition name : bytes := str "relay-1".
Definition addr : bytes := str "relay-1:9000".
Definition nonce : bytes := replicate 16 x2a.
Definition start : Z := 1700000000 * Second.
Definition until : Z := start + 30 * Hour.
Definition key (n : byte) : bytes := replicate 32 n.

(** The outcome of each step, evaluated; [made] keeps the run it came from. *)
Ltac made := vm_compute; reflexivity.

Lemma ca_runs : is_ok (fst (NewCA world)) = true.
Proof. made. Qed.
Definition ca : CA := Eval vm_compute in get_ok (fst (NewCA world)) ca_runs.
Definition w1 : World := Eval vm_compute in snd (NewCA world).
Lemma ca_made : NewCA world = (Ok ca, w1).
Proof. made. Qed.

Lemma id_runs : is_ok (fst (NewIdentity name addr world)) = true.
Proof. made. Qed.
Definition id : Identity := Eval vm_compute in get_ok (fst (NewIdentity name addr world)) id_runs.
Lemma id_made : NewIdentity name addr world = (Ok id, w1).
Proof. made. Qed.

Lemma request_runs : is_ok (fst (Identity_Request id nonce world)) = true.
Proof. made. Qed.
Definition raw : bytes := Eval vm_compute in get_ok (fst (Identity_Request id nonce world)) request_runs.
Lemma raw_made : Identity_Request id nonce world = (Ok raw, world).
Proof. made. Qed.

Lemma parse_runs : is_ok (ParseRequest raw) = true.
Proof. made. Qed.
Definition request : Request := Eval vm_compute in get_ok (ParseRequest raw) parse_runs.
Lemma request_made : ParseRequest raw = Ok request.
Proof. made. Qed.

Lemma issue_runs : is_ok (fst (Issue ca request start until world)) = true.
Proof. made. Qed.
Definition cert : Cert := Eval vm_compute in get_ok (fst (Issue ca request start until world)) issue_runs.
Definition w2 : World := Eval vm_compute in snd (Issue ca request start until world).
Lemma cert_made : Issue ca request start until world = (Ok cert, w2).
Proof. made. Qed.

Definition installed : Identity := Eval vm_compute in snd (Install (Cert_Marshal cert) start id).
Lemma installed_made : Install (Cert_Marshal cert) start id = (Ok tt, installed).
Proof. made. Qed.

Definition served : Identity :=
  Eval vm_compute in snd (fst (Refresh start Hour (SetKeys (key "l") (key "o") 7 installed) world)).
Lemma served_made : Refresh start Hour (SetKeys (key "l") (key "o") 7 installed) world = ((Ok tt, served), world).
Proof. made. Qed.

Definition policy : Policy := {| po_Anchor := CA_Anchor ca; po_Skew := Skew; po_MaxLife := 0 |}.

Lemma in_window : serves_at policy cert start Hour (start + Minute).
Proof.
  unfold serves_at. repeat split; first [apply Z.leb_le | apply Z.ltb_lt]; made.
Qed.

End EnrollDemo.

Import ToySuite.

Lemma identity_serves_witness :
  NewIdentity EnrollDemo.name EnrollDemo.addr EnrollDemo.world = (Ok EnrollDemo.id, EnrollDemo.w1) /\
  forall i', rtc id_step (Identity_Close EnrollDemo.id) i' -> Identity_Bundle i' = None.
Proof.
  split; [exact EnrollDemo.id_made|].
  exact (proj2 (identity_serves _ _ _ _ _ _ EnrollDemo.id_made (rtc_refl _ _))).
Defined.

Lemma enrolled_verifies_witness :
  exists bundle v, Verify EnrollDemo.policy EnrollDemo.addr bundle (EnrollDemo.start + Minute) EnrollDemo.world
    = (Ok v, EnrollDemo.world) /\ ve_LinkPub v = EnrollDemo.key "l".
Proof.
  destruct (enrolled_verifies _ _ _ _ _ _ _ _ EnrollDemo.nonce _ _ _ EnrollDemo.ca_made EnrollDemo.id_made
    eq_refl EnrollDemo.raw_made) as (r & Hr & _ & H).
  rewrite EnrollDemo.request_made in Hr. apply ok_inj in Hr as <-.
  destruct (H _ _ _ _ _ EnrollDemo.cert_made ltac:(apply Z.leb_le; vm_compute; reflexivity)
    ltac:(apply Z.ltb_lt; vm_compute; reflexivity) EnrollDemo.start
    ltac:(apply Z.leb_le; vm_compute; reflexivity) ltac:(apply Z.ltb_lt; vm_compute; reflexivity)) as (i1 & Hi1 & H1).
  rewrite EnrollDemo.installed_made in Hi1. apply (f_equal snd) in Hi1. cbn [snd] in Hi1. subst i1.
  destruct (H1 _ _ 7 EnrollDemo.start Hour _ _ _ eq_refl EnrollDemo.world_sizes_sound ltac:(apply Z.leb_le; vm_compute; reflexivity)
    eq_refl EnrollDemo.served_made) as (bundle & _ & H3).
  destruct (H3 EnrollDemo.policy _ _ eq_refl ltac:(apply Z.leb_le; vm_compute; reflexivity) EnrollDemo.world_sizes
    EnrollDemo.in_window) as (v & Hv & _ & _ & _ & Hl & _).
  exists bundle, v. split; [exact Hv | exact Hl].
Defined.
