(* ===== verification/Roster.v ===== *)
(** * Roster: the nodes of an enrollment and the mirror of their descriptors

    Models [src/pki/roster.go], over what [encoding/json] does (Json.v).  A slice
    that is decoded into twice keeps what its backing array held, so the nodes of
    the envelope are a backing array and a length. *)

From Stdlib Require Import Strings.Byte Strings.String.
From S2P Require Import Prelude Effects Crypto C25519 Toy Text Json Addr Cert Cell Setup Pki.

Definition MaxRoster : nat := 4096.

Record RosterNode : Type := { rn_Name : bytes; rn_Addr : bytes }.

Record Roster : Type := { ro_Anchor : Anchor; ro_Nodes : list RosterNode }.

Record rosterEnvelope : Type := { re_Anchor : bytes; re_Backing : list RosterNode; re_Len : nat }.

Definition re_Nodes (e : rosterEnvelope) : list RosterNode := take (re_Len e) (re_Backing e).

Definition node_json (n : RosterNode) : bytes :=
  write_object [("name", quote (rn_Name n)); ("addr", quote (rn_Addr n))]%string.

Definition Roster_Marshal (r : Roster) : bytes :=
  write_object [("anchor", quote (Anchor_String (ro_Anchor r)));
                ("nodes", write_array (map node_json (ro_Nodes r)))]%string.

(** ** Decoding a roster *)

Definition zero_node : RosterNode := {| rn_Name := []; rn_Addr := [] |}.

Definition set_node (n : RosterNode) (k raw : bytes) : option RosterNode :=
  if named "name" k then option_map (fun s => {| rn_Name := s; rn_Addr := rn_Addr n |}) (string_of (rn_Name n) raw)
  else if named "addr" k then option_map (fun s => {| rn_Name := rn_Name n; rn_Addr := s |}) (string_of (rn_Addr n) raw)
  else Some n.

Definition node_of (old : RosterNode) (raw : bytes) : option RosterNode :=
  match object_of raw with
  | None => None
  | Some ms => decode_fields set_node old ms
  end.

(** Each element is decoded over what the backing array holds there. *)
Fixpoint decode_nodes (backing : list RosterNode) (raws : list bytes) : option (list RosterNode) :=
  match raws with
  | [] => Some backing
  | r :: rest =>
      match node_of (default zero_node (head backing)) r with
      | None => None
      | Some n => option_map (cons n) (decode_nodes (tail backing) rest)
      end
  end.

Definition set_nodes (e : rosterEnvelope) (raw : bytes) : option rosterEnvelope :=
  match array_of raw with
  | None => None
  | Some [] => Some {| re_Anchor := re_Anchor e; re_Backing := []; re_Len := 0 |}
  | Some raws =>
      option_map (fun b => {| re_Anchor := re_Anchor e; re_Backing := b; re_Len := length raws |})
        (decode_nodes (re_Backing e) raws)
  end.

Definition set_roster (e : rosterEnvelope) (k raw : bytes) : option rosterEnvelope :=
  if named "anchor" k then
    option_map (fun s => {| re_Anchor := s; re_Backing := re_Backing e; re_Len := re_Len e |})
      (string_of (re_Anchor e) raw)
  else if named "nodes" k then set_nodes e raw
  else Some e.

Definition zero_roster : rosterEnvelope := {| re_Anchor := []; re_Backing := []; re_Len := 0 |}.

(** [json.Unmarshal(raw, &e)] *)
Definition decode_roster (raw : bytes) : option rosterEnvelope :=
  match only_value raw with
  | None => None
  | Some v => match object_of v with
              | None => None
              | Some ms => decode_fields set_roster zero_roster ms
              end
  end.

(** The loop of [ParseRoster] over the nodes. *)
Fixpoint check_nodes (seen : gset bytes) (nodes : list RosterNode) : res unit :=
  match nodes with
  | [] => Ok tt
  | n :: rest =>
      if negb (ValidName (rn_Name n)) || negb (ValidAddr (rn_Addr n)) then Err (Sentinel pki_ErrFormat)
      else if bool_decide (rn_Name n ∈ seen) || bool_decide (rn_Addr n ∈ seen) then Err (Sentinel pki_ErrDuplicate)
      else check_nodes ({[rn_Name n; rn_Addr n]} ∪ seen) rest
  end.

Definition ParseRoster (raw : bytes) : res Roster :=
  if (MaxRoster <? length raw)%nat then Err (Sentinel pki_ErrFormat)
  else
    match decode_roster raw with
    | None => Err (Sentinel pki_ErrFormat)
    | Some e =>
        let? anchor := ParseAnchor (re_Anchor e) in
        if (length (re_Nodes e) =? 0)%nat then Err (Sentinel pki_ErrFormat)
        else
          let? _ := check_nodes ∅ (re_Nodes e) in
          let r := {| ro_Anchor := anchor; ro_Nodes := re_Nodes e |} in
          if negb (bool_decide (Roster_Marshal r = raw)) then Err (Sentinel pki_ErrFormat) else Ok r
    end.

Definition Has (r : Roster) (name addr : bytes) : bool :=
  existsb (fun n => bool_decide (rn_Name n = name) && bool_decide (rn_Addr n = addr)) (ro_Nodes r).

(** ** The mirror *)

(** A [mirrorItem] has the same two fields. *)
Record MirrorEntry : Type := { me_Addr : bytes; me_Bundle : bytes }.

Definition item_json (it : MirrorEntry) : bytes :=
  write_object [("addr", quote (me_Addr it)); ("bundle", write_raw (me_Bundle it))]%string.

Definition mirror_json (items : list MirrorEntry) : bytes := write_array (map item_json items).

(** [a < b] of two Go strings. *)
Fixpoint less (a b : bytes) : bool :=
  match a, b with
  | _, [] => false
  | [], _ :: _ => true
  | x :: a', y :: b' => (Z_of_byte x <? Z_of_byte y) || (bool_decide (x = y) && less a' b')
  end.

(** [sort.Slice] by address, as an insertion sort: which of two items with one
    address comes first it leaves open, and then only which of two refusals
    [checkMirror] gives depends on it. *)
Fixpoint insert_item (it : MirrorEntry) (l : list MirrorEntry) : list MirrorEntry :=
  match l with
  | [] => [it]
  | x :: t => if less (me_Addr x) (me_Addr it) then x :: insert_item it t else it :: l
  end.

Definition sort_items (l : list MirrorEntry) : list MirrorEntry := foldr insert_item [] l.

(** The loop of [checkMirror], behind the address it saw last. *)
Fixpoint check_items (prev : option bytes) (items : list MirrorEntry) : res unit :=
  match items with
  | [] => Ok tt
  | it :: rest =>
      if negb (ValidAddr (me_Addr it)) then Err (Sentinel pki_ErrFormat)
      else if bool_decide (prev = Some (me_Addr it)) then Err (Sentinel pki_ErrDuplicate)
      else if match prev with Some p => less (me_Addr it) p | None => false end then Err (Sentinel pki_ErrFormat)
      else
        let? _ := ParseBundle (me_Bundle it) in
        check_items (Some (me_Addr it)) rest
  end.

Definition checkMirror (items : list MirrorEntry) : res unit :=
  if (length items =? 0)%nat then Err (Sentinel pki_ErrFormat) else check_items None items.

Definition MarshalMirror (entries : list MirrorEntry) : res bytes :=
  let items := sort_items entries in
  let? _ := checkMirror items in
  Ok (mirror_json items).

Definition zero_item : MirrorEntry := {| me_Addr := []; me_Bundle := [] |}.

(** A [RawMessage] takes the raw text of its value. *)
Definition set_item (it : MirrorEntry) (k raw : bytes) : option MirrorEntry :=
  if named "addr" k then option_map (fun s => {| me_Addr := s; me_Bundle := me_Bundle it |}) (string_of (me_Addr it) raw)
  else if named "bundle" k then Some {| me_Addr := me_Addr it; me_Bundle := raw |}
  else Some it.

Definition item_of (raw : bytes) : option MirrorEntry :=
  match object_of raw with
  | None => None
  | Some ms => decode_fields set_item zero_item ms
  end.

Fixpoint decode_items (raws : list bytes) : option (list MirrorEntry) :=
  match raws with
  | [] => Some []
  | r :: rest => match item_of r, decode_items rest with Some it, Some its => Some (it :: its) | _, _ => None end
  end.

Definition decode_mirror (raw : bytes) : option (list MirrorEntry) :=
  match only_value raw with
  | None => None
  | Some v => match array_of v with None => None | Some raws => decode_items raws end
  end.

Definition ParseMirror (raw : bytes) : res (list MirrorEntry) :=
  match decode_mirror raw with
  | None => Err (Sentinel pki_ErrFormat)
  | Some items =>
      let? _ := checkMirror items in
      if negb (bool_decide (mirror_json items = raw)) then Err (Sentinel pki_ErrFormat) else Ok items
  end.

(** ** Evaluation: the rosters of the code's own test *)

Definition test_anchor : Anchor := {| an_Suite := SuiteC25519; an_Pub := replicate 32 x07 |}.
Definition test_node (n : string) : RosterNode := {| rn_Name := str n; rn_Addr := str n ++ str ".jimichi.svc:9000" |}.
Definition test_roster : Roster := {| ro_Anchor := test_anchor; ro_Nodes := [test_node "relay-1"; test_node "relay-2"] |}.

Definition roster_text (nodes : string) : bytes :=
  unq "{'anchor':'" ++ Anchor_String test_anchor ++ unq "','nodes':[" ++ unq nodes ++ unq "]}".

Example roster_round : ParseRoster (Roster_Marshal test_roster) = Ok test_roster.
Proof. vm_compute. reflexivity. Qed.

Example rosters_refused : map (fun s => ParseRoster (roster_text s))
  ["{'name':'r-1','addr':'r-1:9000'}, {'name':'r-2','addr':'r-2:9000'}"; ""; "{'addr':'r-1:9000','name':'r-1'}";
   "{'Name':'r-1','addr':'r-1:9000'}"; "{'name':'R_1','addr':'r-1:9000'}"; "{'name':'r-1','addr':'r-1'}";
   "{'name':'r-1','addr':'a@r-1:9000'}"; "null"; "{'name':'r-1','addr':'r-1:9000','note':''}"]%string
  = replicate 9 (Err (Sentinel pki_ErrFormat)).
Proof. vm_compute. reflexivity. Qed.

Example rosters_repeated : map (fun s => ParseRoster (roster_text s))
  ["{'name':'r-1','addr':'r-1:9000'},{'name':'r-1','addr':'r-2:9000'}";
   "{'name':'r-1','addr':'r-1:9000'},{'name':'r-2','addr':'r-1:9000'}"]%string
  = replicate 2 (Err (Sentinel pki_ErrDuplicate)).
Proof. vm_compute. reflexivity. Qed.

(** ** Texts *)

Lemma addr_char_plain c : addr_char c = true -> plain c = true.
Proof. by destruct c. Qed.

Lemma addr_chars_plain l : forallb addr_char l = true -> forallb plain l = true.
Proof. rewrite !forallb_forall. intros H c Hc. apply addr_char_plain. auto. Qed.

Lemma ValidAddr_plain a : ValidAddr a = true -> forallb plain a = true.
Proof. intros H. by apply addr_chars_plain, valid_addr_safe. Qed.

Lemma ValidName_plain s : ValidName s = true -> forallb plain s = true.
Proof.
  unfold ValidName. destruct (_ || _); [discriminate|]. rewrite !forallb_forall. intros H c Hc.
  apply addr_char_plain. unfold addr_char. by rewrite (H c Hc).
Qed.

Lemma Anchor_String_plain a : anchor_wf a = true -> forallb plain (Anchor_String a) = true.
Proof.
  unfold anchor_wf, Anchor_String. rewrite andb_true_iff. intros [Hk _].
  rewrite forallb_app. cbn [forallb]. rewrite b64_plain, andb_true_r.
  destruct (known_cases _ Hk) as [-> | ->]; reflexivity.
Qed.

Definition node_wf (n : RosterNode) : bool := ValidName (rn_Name n) && ValidAddr (rn_Addr n).

Lemma two_members (k1 k2 : string) v1 v2 : forallb plain (str k1) = true -> forallb plain (str k2) = true ->
  value_text v1 -> value_text v2 ->
  value_text (write_object [(k1, v1); (k2, v2)]) /\
  object_of (write_object [(k1, v1); (k2, v2)]) = Some [(str k1, v1); (str k2, v2)].
Proof.
  intros H1 H2 V1 V2.
  assert (Hk : Forall (fun m => forallb plain (str (fst m)) = true) [(k1, v1); (k2, v2)]) by (repeat constructor; done).
  assert (Hv : Forall (fun m => value_text (snd m)) [(k1, v1); (k2, v2)]) by (repeat (constructor; [done|]); constructor).
  split; [by apply write_object_text | by rewrite object_of_write].
Qed.

Lemma node_json_text n : node_wf n = true -> value_text (node_json n).
Proof.
  unfold node_wf. rewrite andb_true_iff. intros [Hn Ha].
  apply two_members; try done; apply quote_text; [by apply ValidName_plain | by apply ValidAddr_plain].
Qed.

Lemma node_of_json old n : node_wf n = true -> node_of old (node_json n) = Some n.
Proof.
  unfold node_wf. rewrite andb_true_iff. intros [Hn%ValidName_plain Ha%ValidAddr_plain]. unfold node_of, node_json.
  rewrite (proj2 (two_members "name" "addr" _ _ eq_refl eq_refl (quote_text _ Hn) (quote_text _ Ha))).
  unfold decode_fields. cbn [foldl fst snd]. unfold set_node.
  change (named "name" (str "name")) with true. change (named "name" (str "addr")) with false.
  change (named "addr" (str "addr")) with true. cbv beta iota.
  rewrite string_of_quote by done. cbn [option_map]. rewrite string_of_quote by done. by destruct n.
Qed.

Lemma decode_nodes_json nodes : forallb node_wf nodes = true -> decode_nodes [] (map node_json nodes) = Some nodes.
Proof.
  induction nodes as [|n nodes IH]; [done|]. cbn [forallb map decode_nodes]. intros [Hn H]%andb_true_iff.
  cbn [head default tail]. by rewrite node_of_json, IH.
Qed.

Lemma decode_roster_Marshal r : anchor_wf (ro_Anchor r) = true -> forallb node_wf (ro_Nodes r) = true -> ro_Nodes r <> [] ->
  exists e, decode_roster (Roster_Marshal r) = Some e /\ re_Anchor e = Anchor_String (ro_Anchor r) /\ re_Nodes e = ro_Nodes r.
Proof.
  intros Ha%Anchor_String_plain Hn Hne. unfold decode_roster, Roster_Marshal.
  assert (Hv : Forall value_text (map node_json (ro_Nodes r))).
  { apply Forall_forall. intros v Hv. apply list_elem_of_fmap in Hv as (n & -> & Hin). apply node_json_text.
    rewrite forallb_forall in Hn. by apply Hn, list_elem_of_In. }
  destruct (two_members "anchor" "nodes" (quote (Anchor_String (ro_Anchor r))) (write_array (map node_json (ro_Nodes r)))
    eq_refl eq_refl (quote_text _ Ha) (write_array_text _ Hv)) as [Ht Ho].
  rewrite only_value_text, Ho by done. unfold decode_fields. cbn [foldl fst snd]. unfold set_roster.
  change (named "anchor" (str "anchor")) with true. change (named "anchor" (str "nodes")) with false.
  change (named "nodes" (str "nodes")) with true. cbv beta iota.
  rewrite string_of_quote by done. cbn [option_map]. unfold set_nodes. rewrite array_of_write by done.
  cbn [zero_roster re_Backing re_Anchor re_Len].
  destruct (map node_json (ro_Nodes r)) as [|x t] eqn:E; [by destruct (ro_Nodes r)|].
  pose proof (decode_nodes_json _ Hn) as Hd. rewrite E in Hd. rewrite Hd. cbn [option_map].
  eexists. split; [done|]. split; [done|].
  unfold re_Nodes. cbn [re_Len re_Backing]. rewrite <- E, length_map. by apply take_ge.
Qed.

(** ** What a roster is *)

Lemma check_nodes_ok nodes seen : check_nodes seen nodes = Ok tt <->
  forallb node_wf nodes = true /\ NoDup (map rn_Name nodes ++ map rn_Addr nodes) /\
  Forall (fun n => (rn_Name n ∉ seen) /\ (rn_Addr n ∉ seen)) nodes.
Proof.
  revert seen. induction nodes as [|n nodes IH]; intros seen; cbn [check_nodes forallb map].
  { split; [intros _; split_and!; [done | constructor | constructor] | done]. }
  unfold node_wf at 1. destruct (ValidName (rn_Name n)) eqn:Hn, (ValidAddr (rn_Addr n)) eqn:Ha; cbn [negb orb andb];
    try (split; [discriminate | by intros (? & _)]).
  assert (Hne : rn_Name n <> rn_Addr n).
  { intros E. unfold ValidName in Hn. destruct (_ || _) in Hn; [discriminate|].
    apply valid_addr_split in Ha as (h & p & Hs%split_host_port & _). destruct Hs as [Hs _].
    rewrite forallb_forall in Hn. assert (Hc : In ":"%byte (rn_Name n)).
    { rewrite E, Hs. apply list_elem_of_In. unfold address. destruct (bracketed _); set_solver. }
    by apply Hn in Hc. }
  assert (Hnd : NoDup ((rn_Name n :: map rn_Name nodes) ++ rn_Addr n :: map rn_Addr nodes) <->
    (rn_Name n ∉ map rn_Name nodes ++ map rn_Addr nodes) /\ (rn_Addr n ∉ map rn_Name nodes ++ map rn_Addr nodes) /\
    NoDup (map rn_Name nodes ++ map rn_Addr nodes)).
  { cbn [app]. rewrite NoDup_cons, <- Permutation_middle, NoDup_cons, elem_of_cons. tauto. }
  rewrite Hnd, Forall_cons. destruct (_ || _) eqn:E.
  - split; [discriminate|]. intros (_ & _ & [H1 H2] & _). by rewrite !bool_decide_false in E.
  - apply orb_false_iff in E as [E1%bool_decide_eq_false E2%bool_decide_eq_false]. rewrite IH.
    rewrite !not_elem_of_app, !Forall_forall.
    assert (Hin : forall x, x ∈ map rn_Name nodes <-> exists m, m ∈ nodes /\ rn_Name m = x).
    { intros x. rewrite list_elem_of_fmap. naive_solver. }
    assert (Hin' : forall x, x ∈ map rn_Addr nodes <-> exists m, m ∈ nodes /\ rn_Addr m = x).
    { intros x. rewrite list_elem_of_fmap. naive_solver. }
    rewrite !Hin, !Hin'.
    assert (Hs : forall x, x ∉ ({[rn_Name n; rn_Addr n]} ∪ seen : gset bytes) <->
      x <> rn_Name n /\ x <> rn_Addr n /\ x ∉ seen).
    { intros x. rewrite !not_elem_of_union, !not_elem_of_singleton. tauto. }
    split.
    + intros (Hw & Hd & H). split_and!; try done; [intros (m & Hm & E) .. |]; try (destruct (H m Hm) as [H1 H2];
        rewrite Hs in H1, H2; by destruct H1 as (? & ? & ?), H2 as (? & ? & ?)).
      intros m Hm. destruct (H m Hm) as [H1 H2]. rewrite Hs in H1, H2. tauto.
    + intros (Hw & ((D1 & D2) & (D3 & D4) & Hd) & _ & H). split_and!; [done | done |].
      intros m Hm. rewrite !Hs. destruct (H m Hm) as [H1 H2]. split_and!; try done; intros E; eauto.
Qed.

(** What parses of the text of a roster is that roster, be the text right or not. *)
Lemma ParseRoster_Marshal r r' : anchor_wf (ro_Anchor r) = true -> ro_Nodes r <> [] -> forallb node_wf (ro_Nodes r) = true ->
  ParseRoster (Roster_Marshal r) = Ok r' -> r' = r.
Proof.
  intros Ha Hne Hw. unfold ParseRoster. destruct (_ <? _)%nat; [discriminate|].
  destruct (decode_roster_Marshal r Ha Hw Hne) as (e & -> & -> & ->).
  rewrite (proj2 (ParseAnchor_spec _ (ro_Anchor r))) by done. cbn [rbind].
  destruct (_ =? _)%nat; [discriminate|]. intros H. apply rbind_ok in H as (u & _ & H). destruct (negb _); [discriminate|].
  apply ok_inj in H as <-. by destruct r.
Qed.

Definition roster_ok (r : Roster) : Prop :=
  anchor_wf (ro_Anchor r) = true /\ ro_Nodes r <> [] /\ forallb node_wf (ro_Nodes r) = true /\
  NoDup (map rn_Name (ro_Nodes r) ++ map rn_Addr (ro_Nodes r)) /\ (length (Roster_Marshal r) <= MaxRoster)%nat.

(** A roster has one spelling: the parser takes exactly the bytes [Marshal]
    writes of a roster with a well-formed anchor, at least one node, valid names
    and addresses of which none occurs twice, and no more than [MaxRoster] bytes
    in all; so equal rosters are equal bytes. *)
Theorem roster_exact raw r : ParseRoster raw = Ok r <-> raw = Roster_Marshal r /\ roster_ok r.
Proof.
  unfold roster_ok, ParseRoster. split.
  - destruct (Nat.ltb_spec MaxRoster (length raw)) as [|Hl]; [discriminate|].
    destruct (decode_roster raw) as [e|]; [|discriminate]. intros H.
    apply rbind_ok in H as (a & Ha & H). apply ParseAnchor_spec in Ha as [Ha _].
    destruct (Nat.eqb_spec (length (re_Nodes e)) 0) as [|Hne]; [discriminate|].
    apply rbind_ok in H as ([] & (Hw & Hd & _)%check_nodes_ok & H).
    case_bool_decide as Hm; [|discriminate]. cbn [negb] in H. apply ok_inj in H as <-. cbn [ro_Anchor ro_Nodes] in *.
    split_and!; try done; [by intros E; rewrite E in Hne | by rewrite Hm].
  - intros (-> & Ha & Hne & Hw & Hd & Hl). rewrite (proj2 (Nat.ltb_ge _ _) Hl).
    destruct (decode_roster_Marshal r Ha Hw Hne) as (e & -> & -> & ->).
    rewrite (proj2 (ParseAnchor_spec _ (ro_Anchor r))) by done. cbn [rbind].
    rewrite (proj2 (Nat.eqb_neq _ _)) by (by intros E%nil_length_inv).
    rewrite (proj2 (check_nodes_ok (ro_Nodes r) ∅)).
    2: { split_and!; try done. apply Forall_true. set_solver. }
    cbn [rbind]. destruct r as [a ns]. cbn. by rewrite bool_decide_true.
Qed.

(** ** What the compaction leaves alone *)

(** A text that [json.Marshal] of a [RawMessage] copies as it is. *)
Definition solid (v : bytes) : Prop :=
  forall rest, compact false false 0 (v ++ rest) = v ++ compact false false 0 rest.

Lemma solid_app v w : solid v -> solid w -> solid (v ++ w).
Proof. intros Hv Hw rest. by rewrite <- !app_assoc, Hv, Hw. Qed.

(** A character of the structure or of a number. *)
Definition mark (c : byte) : bool := bool_decide (c ∈ ["{"; "}"; "["; "]"; ":"; ","; "1"]%byte).

Lemma solid_mark c : mark c = true -> solid [c].
Proof. by destruct c. Qed.

Lemma compact_plain s rest : forallb plain s = true ->
  compact true false 0 (s ++ QUOTE :: rest) = s ++ QUOTE :: compact false false 0 rest.
Proof.
  induction s as [|c s IH]; [done|]. cbn [forallb app]. intros [Hc Hs]%andb_true_iff. rewrite <- IH by done.
  by destruct c.
Qed.

Lemma solid_quote s : forallb plain s = true -> solid (quote s).
Proof.
  intros Hs rest. rewrite quote_plain by done. cbn [app]. rewrite <- app_assoc. cbn [app].
  change (compact false false 0 (QUOTE :: s ++ QUOTE :: rest)) with (QUOTE :: compact true false 0 (s ++ QUOTE :: rest)).
  rewrite compact_plain by done. by rewrite <- app_assoc.
Qed.

Lemma solid_separated l : Forall solid l -> solid (separated l).
Proof.
  intros H. induction H as [|x l Hx Hl IH]; [by intros rest|]. destruct l as [|y l]; [done|].
  rewrite separated_cons. apply solid_app; [done|]. by apply (solid_app [","%byte]); [apply solid_mark|].
Qed.

Lemma solid_object ms : Forall (fun m => forallb plain (str (fst m)) = true /\ solid (snd m)) ms -> solid (write_object ms).
Proof.
  intros H. unfold write_object. apply (solid_app ["{"%byte]); [by apply solid_mark|].
  apply solid_app; [|by apply solid_mark]. apply solid_separated.
  induction H as [|m ms [Hk Hv] H IH]; [constructor|]. constructor; [|exact IH].
  apply solid_app; [by apply solid_quote|]. by apply (solid_app [":"%byte]); [apply solid_mark|].
Qed.

Lemma bundle_solid b : bundle_wf b = true -> solid (Bundle_Marshal b).
Proof.
  unfold bundle_wf. rewrite !andb_true_iff. intros [[[Hv%Z.eqb_eq _] Hs] _].
  unfold Bundle_Marshal, envelope_json. cbn [en_V en_Suite en_Cert en_Descriptor]. rewrite Hv.
  apply solid_object. rewrite !Forall_cons, Forall_nil; cbn [fst snd]; split_and!; try done;
    first [by apply (solid_mark "1"%byte) | by apply solid_quote | apply solid_quote, b64_plain].
Qed.

Lemma bundle_value_text b : bundle_wf b = true -> value_text (Bundle_Marshal b).
Proof.
  unfold bundle_wf. rewrite !andb_true_iff. intros [[[Hv%Z.eqb_eq _] Hs] _].
  unfold Bundle_Marshal, envelope_json. cbn [en_V en_Suite en_Cert en_Descriptor]. rewrite Hv.
  apply write_object_text; rewrite !Forall_cons, Forall_nil; cbn [fst snd]; split_and!; try done;
    first [exact one_text | by apply quote_text | apply quote_text, b64_plain].
Qed.

Lemma write_raw_solid v : v <> [] -> solid v -> write_raw v = v.
Proof.
  intros Hne H. unfold write_raw. destruct v as [|c t]; [done|]. pose proof (H []) as E.
  change (compact false false 0 []) with (@nil byte) in E. by rewrite !app_nil_r in E.
Qed.

(** ** Order *)

Lemma less_irrefl a : less a a = false.
Proof. induction a as [|x a IH]; [done|]. cbn [less]. by rewrite Z.ltb_irrefl, IH, andb_false_r. Qed.

Lemma less_trans a b c : less a b = true -> less b c = true -> less a c = true.
Proof.
  revert b c. induction a as [|x a IH]; intros [|y b] [|z c]; try done. cbn [less].
  rewrite !orb_true_iff, !andb_true_iff, !bool_decide_eq_true, !Z.ltb_lt.
  intros [H1|[-> H1]] [H2|[-> H2]]; auto; [left; lia|]. right. split; [done|]. by eapply IH.
Qed.

Lemma less_total a b : a <> b -> less a b = false -> less b a = true.
Proof.
  revert b. induction a as [|x a IH]; intros [|y b] Hne; try done. cbn [less].
  rewrite orb_false_iff, orb_true_iff, andb_true_iff, bool_decide_eq_true, Z.ltb_ge, Z.ltb_lt.
  intros [H1 H2]. destruct (decide (x = y)) as [->|Hxy].
  - right. split; [done|]. rewrite bool_decide_true in H2 by done. apply IH; [congruence | done].
  - left. destruct (Z.eq_dec (Z_of_byte x) (Z_of_byte y)) as [E|]; [by apply Z_of_byte_inj in E|]. lia.
Qed.

Lemma less_asym a b : less a b = true -> less b a = false.
Proof. intros H. destruct (less b a) eqn:E; [|done]. pose proof (less_trans _ _ _ H E) as F. by rewrite less_irrefl in F. Qed.

(** [a <= b] *)
Definition at_most (a b : MirrorEntry) : Prop := less (me_Addr b) (me_Addr a) = false.

Lemma insert_perm it l : insert_item it l ≡ₚ it :: l.
Proof.
  induction l as [|x l IH]; [done|]. cbn [insert_item]. destruct (less _ _); [|done].
  rewrite IH. constructor.
Qed.

Lemma sort_perm l : sort_items l ≡ₚ l.
Proof. induction l as [|x l IH]; [done|]. cbn [sort_items foldr]. rewrite insert_perm. by constructor. Qed.

(** In order by address and no address twice. *)
Fixpoint ordered (prev : option bytes) (l : list MirrorEntry) : Prop :=
  match l with
  | [] => True
  | it :: rest => match prev with Some p => less p (me_Addr it) = true | None => True end /\ ordered (Some (me_Addr it)) rest
  end.

Lemma ordered_weaken p q l : (match q, p with Some b, Some a => less b a = true \/ b = a | None, _ => True | _, None => False end) ->
  ordered p l -> ordered q l.
Proof.
  destruct l as [|it l]; [done|]. cbn [ordered]. intros H [H1 H2]. split; [|done].
  destruct q as [b|]; [|done]. destruct p as [a|]; [|done].
  destruct H as [H | ->]; [by eapply less_trans | done].
Qed.

Lemma insert_ordered it l prev : ordered prev l -> (match prev with Some p => less p (me_Addr it) = true | None => True end) ->
  me_Addr it ∉ map me_Addr l -> ordered prev (insert_item it l).
Proof.
  revert prev. induction l as [|x l IH]; intros prev Ho Hp Hin; [done|]. cbn [insert_item map] in *.
  destruct Ho as [H1 H2]. apply not_elem_of_cons in Hin as [Hne Hin]. destruct (less (me_Addr x) (me_Addr it)) eqn:E.
  - split; [done|]. by apply IH.
  - split; [done|]. split; [by apply less_total|]. done.
Qed.

Lemma sort_ordered l : NoDup (map me_Addr l) -> ordered None (sort_items l).
Proof.
  induction l as [|x l IH]; [done|]. cbn [map sort_items foldr]. intros [Hx Hd]%NoDup_cons.
  apply insert_ordered; [by apply IH | done|]. intros H. apply Hx.
  apply list_elem_of_fmap in H as (y & -> & Hy). fold (sort_items l) in Hy. rewrite sort_perm in Hy.
  by apply list_elem_of_fmap_2.
Qed.

Lemma ordered_after p l : ordered (Some p) l -> Forall (fun it => less p (me_Addr it) = true) l.
Proof.
  revert p. induction l as [|x l IH]; intros p; [constructor|]. intros [H1 H2]. constructor; [done|].
  eapply Forall_impl; [by apply IH|]. cbn. intros y Hy. by eapply less_trans.
Qed.

Lemma ordered_NoDup p l : ordered p l -> NoDup (map me_Addr l).
Proof.
  revert p. induction l as [|x l IH]; intros p; [constructor|]. intros [_ H]. constructor; [|by eapply IH].
  intros Hin. apply list_elem_of_fmap in Hin as (y & E & Hy).
  pose proof (proj1 (Forall_forall _ _) (ordered_after _ _ H) y Hy) as Hl. cbn in Hl. by rewrite E, less_irrefl in Hl.
Qed.

(** One set of entries has one order. *)
Lemma ordered_unique l m p : ordered p l -> ordered p m -> l ≡ₚ m -> l = m.
Proof.
  revert m p. induction l as [|x l IH]; intros m p Hl Hm Hp.
  { by apply Permutation_nil in Hp. }
  destruct m as [|y m]; [by apply Permutation_sym, Permutation_nil in Hp|].
  assert (x = y) as ->.
  { destruct Hl as [_ Hl], Hm as [_ Hm].
    assert (x ∈ y :: m) as Hx by (rewrite <- Hp; by left). assert (y ∈ x :: l) as Hy by (rewrite Hp; by left).
    apply elem_of_cons in Hx as [?|Hx]; [done|]. apply elem_of_cons in Hy as [?|Hy]; [done|].
    pose proof (proj1 (Forall_forall _ _) (ordered_after _ _ Hl) y Hy) as H1.
    pose proof (proj1 (Forall_forall _ _) (ordered_after _ _ Hm) x Hx) as H2. cbn in H1, H2.
    apply less_asym in H1. congruence. }
  f_equal. apply (IH m (Some (me_Addr y))); [by destruct Hl | by destruct Hm | by apply Permutation_cons_inv in Hp].
Qed.

(** ** What a mirror is *)

Definition entry_ok (it : MirrorEntry) : Prop :=
  ValidAddr (me_Addr it) = true /\ exists b, ParseBundle (me_Bundle it) = Ok b.

Definition mirror_ok (es : list MirrorEntry) : Prop := es <> [] /\ ordered None es /\ Forall entry_ok es.

(** A bundle the way a node's identity writes it. *)
Definition written (it : MirrorEntry) : Prop := exists b, bundle_wf b = true /\ me_Bundle it = Bundle_Marshal b.

Lemma check_items_ok prev items : check_items prev items = Ok tt <-> ordered prev items /\ Forall entry_ok items.
Proof.
  revert prev. induction items as [|it items IH]; intros prev; cbn [check_items ordered]; [by split|].
  rewrite Forall_cons. unfold entry_ok at 1. destruct (ValidAddr (me_Addr it)); cbn [negb].
  2: { split; [discriminate | by intros (_ & (? & _) & _)]. }
  assert (Hp : match prev with Some p => less p (me_Addr it) = true | None => True end <->
    prev <> Some (me_Addr it) /\ match prev with Some p => less (me_Addr it) p | None => false end = false).
  { destruct prev as [p|]; [|done]. split.
    - intros H. split; [intros [= ->]; by rewrite less_irrefl in H | by apply less_asym].
    - intros [Hne H]. apply less_total; [congruence | done]. }
  rewrite Hp. case_bool_decide as E; [split; [discriminate | by intros [[[? _] _] _]]|].
  destruct (match prev with Some p => less (me_Addr it) p | None => false end).
  { split; [discriminate | by intros [[[_ ?] _] _]]. }
  destruct (ParseBundle (me_Bundle it)) as [b|e] eqn:Eb; cbn [rbind].
  - rewrite IH. split; [intros [? ?]; split_and!; eauto | tauto].
  - split; [discriminate | by intros (_ & (_ & b & ?) & _)].
Qed.

Lemma checkMirror_ok items : checkMirror items = Ok tt <-> mirror_ok items.
Proof.
  unfold checkMirror, mirror_ok. destruct items as [|it items]; cbn [length Nat.eqb]; [split; [done | tauto]|].
  rewrite check_items_ok. split; [by intros []; split_and! | tauto].
Qed.

Lemma item_json_ok it : ValidAddr (me_Addr it) = true -> written it ->
  value_text (item_json it) /\ item_of (item_json it) = Some it.
Proof.
  intros Ha%ValidAddr_plain (b & Hb & E). unfold item_of, item_json.
  assert (Hw : write_raw (me_Bundle it) = me_Bundle it).
  { rewrite E. apply write_raw_solid; [done | by apply bundle_solid]. }
  rewrite Hw. destruct (two_members "addr" "bundle" (quote (me_Addr it)) (me_Bundle it) eq_refl eq_refl (quote_text _ Ha))
    as [Ht Ho]; [rewrite E; by apply bundle_value_text|]. split; [exact Ht|]. rewrite Ho.
  unfold decode_fields. cbn [foldl fst snd]. unfold set_item.
  change (named "addr" (str "addr")) with true. change (named "addr" (str "bundle")) with false.
  change (named "bundle" (str "bundle")) with true. cbv beta iota.
  rewrite string_of_quote by done. by destruct it.
Qed.

Lemma decode_mirror_json es : Forall (fun it => ValidAddr (me_Addr it) = true /\ written it) es ->
  decode_mirror (mirror_json es) = Some es.
Proof.
  intros H. unfold decode_mirror, mirror_json.
  assert (Hv : Forall value_text (map item_json es)).
  { apply Forall_forall. intros v Hv. apply list_elem_of_fmap in Hv as (it & -> & Hin).
    destruct (proj1 (Forall_forall _ _) H it Hin). by apply item_json_ok. }
  rewrite only_value_text, array_of_write by (done || by apply write_array_text).
  clear Hv. induction H as [|it es [Ha Hw] H IH]; [done|]. cbn [map decode_items].
  by rewrite (proj2 (item_json_ok it Ha Hw)), IH.
Qed.

Lemma MarshalMirror_ok entries r :
  MarshalMirror entries = Ok r <-> exists es, es ≡ₚ entries /\ mirror_ok es /\ r = mirror_json es.
Proof.
  unfold MarshalMirror. split.
  - intros H. apply rbind_ok in H as ([] & Hc%checkMirror_ok & [= <-]). exists (sort_items entries).
    split; [apply sort_perm | done].
  - intros (es & Hp & Hok & ->). assert (sort_items entries = es) as ->.
    { destruct Hok as (_ & Ho & _). apply (ordered_unique _ _ None); [|done|by rewrite sort_perm].
      apply sort_ordered. apply ordered_NoDup in Ho. by rewrite <- Hp. }
    by rewrite (proj2 (checkMirror_ok es) Hok).
Qed.

(** [MarshalMirror] takes every set of entries with valid, different addresses and bundles that parse. *)
Lemma MarshalMirror_total entries :
  entries <> [] -> NoDup (map me_Addr entries) -> Forall entry_ok entries -> exists r, MarshalMirror entries = Ok r.
Proof.
  intros Hne Hd He. eexists. apply MarshalMirror_ok. exists (sort_items entries).
  split; [apply sort_perm|]. split; [|reflexivity]. split; [|split; [by apply sort_ordered | by rewrite sort_perm]].
  intros E. apply Hne, Permutation_nil_r. by rewrite <- E, sort_perm.
Qed.

(** A set of bundles has one mirror: [MarshalMirror] takes exactly the
    entries, in any order, that have valid and different addresses and bundles
    that parse, and writes them in the order of their addresses; what parses as a
    mirror is what it writes of such entries, byte for byte, and what it writes of
    bundles the way nodes write them parses back to them. *)
Theorem mirror_exact raw :
  (forall entries, MarshalMirror entries = Ok raw <->
     exists es, es ≡ₚ entries /\ mirror_ok es /\ raw = mirror_json es) /\
  (forall es, ParseMirror raw = Ok es -> mirror_ok es /\ raw = mirror_json es /\ MarshalMirror es = Ok raw) /\
  (forall es, mirror_ok es -> Forall written es -> raw = mirror_json es -> ParseMirror raw = Ok es).
Proof.
  split_and!.
  - intros entries. apply MarshalMirror_ok.
  - intros es. unfold ParseMirror. destruct (decode_mirror raw) as [items|]; [|discriminate]. intros H.
    apply rbind_ok in H as ([] & Hc%checkMirror_ok & H). case_bool_decide as E; [|discriminate]. cbn [negb] in H.
    apply ok_inj in H as <-. split; [done|]. split; [done|]. apply MarshalMirror_ok. by exists items.
  - intros es Hok Hw ->. unfold ParseMirror. destruct (Hok) as (_ & _ & He).
    rewrite decode_mirror_json.
    + rewrite (proj2 (checkMirror_ok es) Hok). cbn [rbind]. by rewrite bool_decide_true.
    + apply Forall_forall. intros it Hin. split; [by destruct (proj1 (Forall_forall _ _) He it Hin)|].
      by apply (proj1 (Forall_forall _ _) Hw).
Qed.

(** ** Witnesses *)

Lemma roster_exact_witness :
  roster_ok test_roster /\ ParseRoster (Roster_Marshal test_roster) = Ok test_roster.
Proof.
  assert (H : roster_ok test_roster) by (apply (roster_exact (Roster_Marshal test_roster) test_roster); vm_compute; reflexivity).
  split; [exact H|]. apply roster_exact. split; [reflexivity | exact H].
Defined.

Definition test_entry (n : string) : MirrorEntry :=
  {| me_Addr := str n ++ str ":9000"; me_Bundle := Bundle_Marshal text_bundle |}.

Lemma mirror_exact_witness :
  mirror_ok [test_entry "a"; test_entry "b"] /\
  ParseMirror (mirror_json [test_entry "a"; test_entry "b"]) = Ok [test_entry "a"; test_entry "b"] /\
  MarshalMirror [test_entry "b"; test_entry "a"] = Ok (mirror_json [test_entry "a"; test_entry "b"]).
Proof.
  assert (Hok : mirror_ok [test_entry "a"; test_entry "b"]) by (apply checkMirror_ok; vm_compute; reflexivity).
  destruct (mirror_exact (mirror_json [test_entry "a"; test_entry "b"])) as (H1 & _ & H3). split; [exact Hok|]. split.
  - apply H3; [exact Hok | | reflexivity].
    repeat (apply Forall_cons; split; [exists text_bundle; split; vm_compute; reflexivity|]). constructor.
  - apply H1. exists [test_entry "a"; test_entry "b"]. split; [apply perm_swap|]. split; [exact Hok | reflexivity].
Defined.
