(* ===== verification/Fetch.v ===== *)
(** * Fetch: reading bundles from an info port

    Models [src/internal/fetch/fetch.go]: [get], [retried], [Bundle] and [Mirror],
    which judge answers, and [URL].  What the network gives to one request is a
    value of [Answer], and the requests of one call get the answers of a list in
    turn; the transport and the pauses are left out. *)

From Stdlib Require Import Strings.Byte Strings.String.
From S2P Require Import Prelude Effects Crypto Text Json Addr Cert Pki Roster.

Definition MaxBundle : nat := 16 * 1024.
Definition MaxMirror : nat := 256 * 1024.

Definition StatusOK : Z := 200.
Definition StatusServiceUnavailable : Z := 503.

(** Errors that are told apart: a [StatusError], [ErrTooLarge], any other. *)
Inductive fetchError : Type :=
| StatusError (code : Z) (unpublished : string)
| TooLarge
| FetchOther (e : error).

(** One request: no connection, a status other than 200, or a body that is read
    whole ([Some]) or breaks off. *)
Inductive Answer : Type :=
| Failed (e : error)
| Answered (code : Z) (body : option bytes).

Definition outcome (A : Type) : Type := result (bool * fetchError) A.

(** ** Where a request goes *)

Definition JoinHostPort (host port : bytes) : bytes :=
  if bool_decide (":"%byte ∈ host) then "["%byte :: host ++ str "]:" ++ port else host ++ ":"%byte :: port.

(** The text of a URL with a host that [ValidHost] takes, a port of digits and a plain
    path has nothing to escape and is parsed by [net/url] into these parts again,
    so the rest of the source's condition holds; every other host or port is
    refused by the first two checks. *)
Definition URL (addr port : bytes) (path : string) : res bytes :=
  match SplitHostPort addr with
  | None => Err (Other "address")
  | Some (host, _) =>
      if negb (ValidHost host) || negb (ValidPort port) then Err (Other "fetch: does not name one host and port")
      else Ok (str "http://" ++ JoinHostPort host port ++ str path)
  end.

(** An address that a certificate can carry has an info port. *)
Lemma URL_ok addr port path : ValidAddr addr = true -> ValidPort port = true -> exists host,
  (exists p, SplitHostPort addr = Some (host, p)) /\ URL addr port path = Ok (str "http://" ++ JoinHostPort host port ++ str path).
Proof.
  intros (h & p & Hs & Hh & _)%valid_addr_split Hp. exists h. split; [by exists p|].
  unfold URL. rewrite Hs. unfold ValidHost. by rewrite Hh, Hp.
Qed.

Section Fetch.
Context {P : CryptoProvider}.

(** An error comes with whether another try is worth it. *)
Definition get {A} (limit : nat) (unpublished : string) (parse : bytes -> res A) (a : Answer) : outcome A :=
  match a with
  | Failed e => Err (true, FetchOther e)
  | Answered code body =>
      if code =? StatusOK then
        match body with
        | None => Err (true, FetchOther (Sentinel io_ErrUnexpectedEOF))
        | Some body =>
            if (limit <? length body)%nat then Err (false, TooLarge)
            else match parse body with
                 | Err e => Err (false, FetchOther e)
                 | Ok a => Ok a
                 end
        end
      else if code =? StatusServiceUnavailable then Err (true, StatusError code unpublished)
      else Err (false, StatusError code "")
  end.

(** At most [attempts] requests; [last] is the error of the one before. *)
Fixpoint retried_from {A} (last : option fetchError) (once : Answer -> outcome A) (attempts : nat) (answers : list Answer)
    : result (option fetchError) A * list Answer :=
  match attempts with
  | O => (Err last, answers)
  | S attempts =>
      match answers with
      | [] => (Err last, [])
      | a :: rest =>
          match once a with
          | Ok body => (Ok body, rest)
          | Err (false, e) => (Err (Some e), rest)
          | Err (true, e) => retried_from (Some e) once attempts rest
          end
      end
  end.

Definition retried {A} := @retried_from A None.

Definition Fetch_Bundle (attempts : nat) (answers : list Answer) : result (option fetchError) bytes * list Answer :=
  retried (get MaxBundle "no descriptor published, the node has no valid certificate"
             (fun body => let? _ := ParseBundle body in Ok body)) attempts answers.

Definition Fetch_Mirror (attempts : nat) (answers : list Answer)
    : result (option fetchError) (list MirrorEntry) * list Answer :=
  retried (get MaxMirror "no descriptors published, the node has no descriptor of its own in service"
             ParseMirror) attempts answers.

(** ** What a try comes to *)

(** Worth another try: no connection, a body that broke off, nothing published yet. *)
Definition try_again (a : Answer) : Prop :=
  match a with
  | Failed _ => True
  | Answered code body => (code = StatusOK /\ body = None) \/ code = StatusServiceUnavailable
  end.

Lemma get_again {A} limit u (parse : bytes -> res A) a e :
  get limit u parse a = Err (true, e) -> try_again a.
Proof.
  unfold get, try_again. destruct a as [x|code body]; [done|].
  destruct (Z.eqb_spec code StatusOK); [|destruct (Z.eqb_spec code StatusServiceUnavailable); [by right|discriminate]].
  destruct body as [body|]; [|by left]. destruct (limit <? length body)%nat; [intros [=]|]. destruct (parse body); intros [=].
Qed.

Lemma get_answer {A} limit u (parse : bytes -> res A) a v : get limit u parse a = Ok v ->
  exists body, a = Answered StatusOK (Some body) /\ (length body <= limit)%nat /\ parse body = Ok v.
Proof.
  unfold get. destruct a as [x|code body]; [discriminate|].
  destruct (Z.eqb_spec code StatusOK) as [->|]; [|by destruct (code =? _)].
  destruct body as [body|]; [|discriminate].
  destruct (Nat.ltb_spec limit (length body)); [discriminate|].
  destruct (parse body) eqn:E; [|discriminate]. intros [= <-]. eauto.
Qed.

Lemma retried_from_spec {A} (once : Answer -> outcome A) attempts answers last r rest :
  retried_from last once attempts answers = (r, rest) ->
  exists used, answers = used ++ rest /\ (length used <= attempts)%nat /\
    match r with
    | Ok v => exists a before, used = before ++ [a] /\ once a = Ok v /\
        Forall (fun b => exists e, once b = Err (true, e)) before
    | Err e => (exists a before x, used = before ++ [a] /\ once a = Err (false, x) /\ e = Some x /\
        Forall (fun b => exists e, once b = Err (true, e)) before) \/
        ((length used = attempts \/ rest = []) /\ Forall (fun b => exists e, once b = Err (true, e)) used)
    end.
Proof.
  revert answers last. induction attempts as [|n IH]; intros answers last; cbn.
  - intros [= <- <-]. exists []. split_and!; [done | done |]. right. split; [by left | done].
  - destruct answers as [|a answers]; [intros [= <- <-]; exists []; split_and!; [done | cbn; lia |];
      right; split; [by right | done]|].
    destruct (once a) as [v|[[] x]] eqn:E.
    + intros [= <- <-]. exists [a]. split_and!; [done | cbn; lia |]. by exists a, [].
    + intros (used & -> & Hl & H)%IH. exists (a :: used). split_and!; [done | cbn; lia |].
      assert (exists e, once a = Err (true, e)) as Ha by eauto. destruct r as [v|e].
      * destruct H as (b & before & -> & Hb & Hbef). exists b, (a :: before). split_and!; try done. by constructor.
      * destruct H as [(b & before & y & -> & Hb & -> & Hbef)|[Hn Hbef]].
        -- left. exists b, (a :: before), y. split_and!; try done. by constructor.
        -- right. split; [|by constructor]. destruct Hn as [<-|Hn]; [by left | by right].
    + intros [= <- <-]. exists [a]. split_and!; [done | cbn; lia |]. left. by exists a, [], x.
Qed.

(** A fetched bundle is the first answer that is not worth another try, within
    the limit, and it parses; so a later answer never replaces a refusal. *)
Lemma Fetch_Bundle_ok attempts answers b rest : Fetch_Bundle attempts answers = (Ok b, rest) ->
  exists before, answers = before ++ Answered StatusOK (Some b) :: rest /\ Forall try_again before /\
    (length before < attempts)%nat /\ (length b <= MaxBundle)%nat /\ is_ok (ParseBundle b) = true.
Proof.
  intros (used & -> & Hl & a & before & -> & Ha & Hb)%retried_from_spec. exists before.
  apply get_answer in Ha as (body & -> & Hlim & Hp). apply rbind_ok in Hp as (x & Hx & [= <-]).
  rewrite <- app_assoc. split_and!; try done.
  - eapply Forall_impl; [exact Hb|]. by intros c (e & ?%get_again).
  - rewrite length_app in Hl. cbn in Hl. lia.
  - by rewrite Hx.
Qed.

End Fetch.
