(* ===== verification/Link.v ===== *)
(** * Link: the encrypted channel between two neighbours

    Models [src/link/link.go].  The connection beneath is what will still arrive
    on it and what was written to it; it may refuse a write after taking some of
    the bytes.  A read past the end of what arrives fails the way [io.ReadFull]
    does on a closed stream: a peer that stays silent is one that never gets
    there.  Key buffers are the bytes they hold. *)

From Stdlib Require Import Strings.Byte Strings.String.
From S2P Require Import Prelude Effects State Crypto C25519 Toy Cell.

Definition exchangeLink : bytes := str "link".
Definition purposeI2R : bytes := str "link/i2r".
Definition purposeR2I : bytes := str "link/r2i".
Definition modeAnonymous : byte := x00.
Definition modeAuthenticated : byte := x01.

(** ** The connection beneath *)

(** [raw_room] is what a write may still take before it fails with [raw_err];
    [raw_deadline] is the answer to setting a write deadline. *)
Record Raw : Type := {
  raw_in : bytes;
  raw_out : bytes;
  raw_room : option nat;
  raw_err : error;
  raw_deadline : res unit;
  raw_closed : bool
}.

Definition raw_set_in (b : bytes) (r : Raw) : Raw :=
  {| raw_in := b; raw_out := raw_out r; raw_room := raw_room r; raw_err := raw_err r;
     raw_deadline := raw_deadline r; raw_closed := raw_closed r |}.

Definition raw_set_out (b : bytes) (room : option nat) (r : Raw) : Raw :=
  {| raw_in := raw_in r; raw_out := b; raw_room := room; raw_err := raw_err r;
     raw_deadline := raw_deadline r; raw_closed := raw_closed r |}.

Definition raw_Close (r : Raw) : Raw :=
  {| raw_in := raw_in r; raw_out := raw_out r; raw_room := raw_room r; raw_err := raw_err r;
     raw_deadline := raw_deadline r; raw_closed := true |}.

Definition raw_Write (p : bytes) : ST Raw unit := fun r w =>
  if raw_closed r then ((Err (Sentinel net_ErrClosed), r), w)
  else
    match raw_room r with
    | None => ((Ok tt, raw_set_out (raw_out r ++ p) None r), w)
    | Some n =>
        if (length p <=? n)%nat then ((Ok tt, raw_set_out (raw_out r ++ p) (Some (n - length p)%nat) r), w)
        else ((Err (raw_err r), raw_set_out (raw_out r ++ take n p) (Some O) r), w)
    end.

(** [io.ReadFull(raw, buf)] for a buffer of [n] bytes. *)
Definition raw_ReadFull (n : nat) : ST Raw bytes := fun r w =>
  if raw_closed r then ((Err (Sentinel net_ErrClosed), r), w)
  else if (n <=? length (raw_in r))%nat
  then ((Ok (take n (raw_in r)), raw_set_in (drop n (raw_in r)) r), w)
  else ((Err (Sentinel (if bool_decide (raw_in r = []) then io_EOF else io_ErrUnexpectedEOF)),
         raw_set_in [] r), w).

(** ** The link *)

Record Conn : Type := {
  cn_send : option AEAD;
  cn_recv : option AEAD;
  cn_frame : nat;
  cn_sendSeq : Z;
  cn_writeTimeout : Z;
  cn_werr : option error;
  cn_recvSeq : Z
}.

Definition cn_set_write (seq : Z) (werr : option error) (c : Conn) : Conn :=
  {| cn_send := cn_send c; cn_recv := cn_recv c; cn_frame := cn_frame c; cn_sendSeq := seq;
     cn_writeTimeout := cn_writeTimeout c; cn_werr := werr; cn_recvSeq := cn_recvSeq c |}.

Definition cn_set_recvSeq (seq : Z) (c : Conn) : Conn :=
  {| cn_send := cn_send c; cn_recv := cn_recv c; cn_frame := cn_frame c; cn_sendSeq := cn_sendSeq c;
     cn_writeTimeout := cn_writeTimeout c; cn_werr := cn_werr c; cn_recvSeq := seq |}.

Definition SetWriteTimeout (d : Z) (c : Conn) : Conn :=
  {| cn_send := cn_send c; cn_recv := cn_recv c; cn_frame := cn_frame c; cn_sendSeq := cn_sendSeq c;
     cn_writeTimeout := d; cn_werr := cn_werr c; cn_recvSeq := cn_recvSeq c |}.

Definition discard (c : Conn) : Conn :=
  {| cn_send := None; cn_recv := None; cn_frame := cn_frame c; cn_sendSeq := cn_sendSeq c;
     cn_writeTimeout := cn_writeTimeout c; cn_werr := cn_werr c; cn_recvSeq := cn_recvSeq c |}.

Definition nonce (size : nat) (seq : Z) : bytes := replicate (size - 8) x00 ++ be 8 seq.

(** A link is its ends and the connection it runs on. *)
Definition Link : Type := Conn * Raw.

Definition on_raw {A} (m : ST Raw A) : ST Link A := fun l w =>
  let '((a, r), w') := m (snd l) w in ((a, (fst l, r)), w').

Definition mod_conn (f : Conn -> Conn) : ST Link unit := modS (fun l => (f (fst l), snd l)).

Definition WriteCell (cell : Cell) : ST Link unit :=
  let* c := getS fst in
  match cn_werr c, cn_send c with
  | Some e, _ => failS e
  | None, None => failS (Sentinel net_ErrClosed)
  | None, Some a =>
      let fr := Seal a (nonce (NonceSize a) (cn_sendSeq c)) cell [] in
      let seq := u64 (cn_sendSeq c + 1) in
      let broken (r : res unit) : ST Link unit :=
        match r with
        | Ok _ => retS tt
        | Err e => let* _ := mod_conn (cn_set_write seq (Some e)) in failS e
        end in
      let* _ := mod_conn (cn_set_write seq None) in
      let* d := getS (fun l => if 0 <? cn_writeTimeout c then raw_deadline (snd l) else Ok tt) in
      let* _ := broken d in
      fun l w =>
        let '((r, raw), w') := raw_Write fr (snd l) w in
        broken r (fst l, raw) w'
  end.

Definition readFrame : ST Link Cell :=
  let* c := getS fst in
  let* buf := on_raw (raw_ReadFull (cn_frame c)) in
  match cn_recv c with
  | None => failS (Sentinel net_ErrClosed)
  | Some a =>
      let* plain := resS (Open a (nonce (NonceSize a) (cn_recvSeq c)) buf []) in
      let* _ := mod_conn (cn_set_recvSeq (u64 (cn_recvSeq c + 1))) in
      retS (copy_at 0 plain zero_cell)
  end.

(** The loop of [ReadCell]: every round takes a frame off what arrives. *)
Fixpoint read_cell (fuel : nat) : ST Link Cell :=
  let* cell := readFrame in
  if negb (IsPadding cell) then retS cell
  else match fuel with
       | O => failS (Sentinel io_EOF)
       | S f => read_cell f
       end.

Definition ReadCell : ST Link Cell := fun l w => read_cell (length (raw_in (snd l))) l w.

Definition Link_Close (l : Link) : Link := (discard (fst l), raw_Close (snd l)).

Section Handshake.
Context {P : CryptoProvider}.

Definition pubSize : M nat := fun w =>
  match pub_cache w !! Suite with
  | Some n => (Ok n, w)
  | None =>
      (let! (_, pub) := draw GenerateEphemeral in
       fun w => (Ok (length pub), with_pub Suite (length pub) w)) w
  end.

Definition FrameSize : res nat :=
  let? a := NewAEAD (replicate KeySize x00) in
  Ok (CellSize + Overhead a)%nat.

Definition InitiatorHandshakeSize : M nat :=
  let! n := pubSize in retM (n + 1)%nat.

Definition ResponderHandshakeSize : M nat :=
  let! n := pubSize in
  let! fr := lift FrameSize in
  retM (n + fr)%nat.

Definition handshakeContext (mode : byte) (initiatorEph responderEph responderStatic : bytes) : res Context :=
  NewContext exchangeLink
    ([[Version]; [mode]; initiatorEph; responderEph] ++
     (if bool_decide (mode = modeAuthenticated) then [responderStatic] else [])).

(** [fmt.Errorf("%w: %w", ErrHandshake, err)], and with [%v]. *)
Definition handshake_error (e : error) : error := ErrWrap (Sentinel link_ErrHandshake) e.
Definition handshake_hides (e : error) : error := ErrWrap (Sentinel link_ErrHandshake) (ErrHide e).

Definition rmap_err {A} (f : error -> error) (r : res A) : res A :=
  match r with Ok a => Ok a | Err e => Err (f e) end.

Definition chainKey (ctx : Context) (mode : byte) (esPriv esPeer ephPriv ephPeer : bytes) : res bytes :=
  if negb (bool_decide (mode = modeAuthenticated)) then rmap_err handshake_hides (Agree ephPriv ephPeer ctx)
  else
    let? es := rmap_err handshake_hides (Agree esPriv esPeer ctx) in
    let? ee := rmap_err handshake_hides (Agree ephPriv ephPeer ctx) in
    MixKey es ee ctx.

Definition newConn (secret : bytes) (ctx : Context) (sendPurpose recvPurpose : bytes) : res Conn :=
  let? sendKey := DeriveKey secret sendPurpose ctx KeySize in
  let? recvKey := DeriveKey secret recvPurpose ctx KeySize in
  let? send := NewAEAD sendKey in
  let? recv := NewAEAD recvKey in
  Ok {| cn_send := Some send; cn_recv := Some recv; cn_frame := (CellSize + Overhead send)%nat;
        cn_sendSeq := 0; cn_writeTimeout := 0; cn_werr := None; cn_recvSeq := 0 |}.

(** Run the link's own code on the connection of a handshake. *)
Definition over {A} (c : Conn) (m : ST Link A) : ST Raw (A * Conn) := fun raw w =>
  match m (c, raw) w with
  | ((Ok a, (c', raw')), w') => ((Ok (a, c'), raw'), w')
  | ((Err e, (_, raw')), w') => ((Err e, raw'), w')
  end.

(** [None] is the nil key of an anonymous link. *)
Definition Dial (peerStatic : option bytes) : ST Raw Conn :=
  let* (ephPriv, ephPub) := worldS (draw GenerateEphemeral) in
  let known := match peerStatic with Some k => negb (length k =? length ephPub)%nat | None => false end in
  if known then failS (handshake_error (Sentinel crypto_ErrBadPublicKey))
  else
    let mode := match peerStatic with Some _ => modeAuthenticated | None => modeAnonymous end in
    let static := default [] peerStatic in
    let* _ := raw_Write (mode :: ephPub) in
    let* peerEph := errS handshake_error (raw_ReadFull (length ephPub)) in
    let* ctx := errS handshake_error (resS (handshakeContext mode ephPub peerEph static)) in
    let* secret := resS (chainKey ctx mode ephPriv static ephPriv peerEph) in
    let* c := resS (newConn secret ctx purposeI2R purposeR2I) in
    let* (first, c) := errS handshake_error (over c readFrame) in
    if negb (IsPadding first) then failS (Sentinel link_ErrHandshake) else retS c.

Definition Accept (staticPriv : option bytes) (staticPub : bytes) : ST Raw Conn :=
  let* n := worldS pubSize in
  let* hello := errS handshake_error (raw_ReadFull (n + 1)) in
  let mode := hd x00 hello in
  let peerEph := tl hello in
  let authenticated := bool_decide (mode = modeAuthenticated) in
  if negb (bool_decide (mode = modeAnonymous)) &&
     negb (authenticated && negb (bool_decide (staticPriv = None)) && (length staticPub =? n)%nat)
  then failS (Sentinel link_ErrHandshake)
  else
    let static := if authenticated then staticPub else [] in
    let* (ephPriv, ephPub) := worldS (draw GenerateEphemeral) in
    let* _ := raw_Write ephPub in
    let* ctx := errS handshake_error (resS (handshakeContext mode peerEph ephPub static)) in
    let* secret := resS (chainKey ctx mode (default [] staticPriv) peerEph ephPriv peerEph) in
    let* c := resS (newConn secret ctx purposeR2I purposeI2R) in
    let* (_, c) := errS handshake_error (over c (WriteCell NewPadding)) in
    retS c.

End Handshake.

(** ** Frames *)

Section Frames.
Context `{CL : CryptoLaws}.

(** A connection that takes writes. *)
Definition writable (c : Conn) (r : Raw) : Prop :=
  raw_closed r = false /\ raw_room r = None /\ (cn_writeTimeout c <= 0 \/ raw_deadline r = Ok tt).

(** The frame with number [n] of a direction. *)
Definition frame_of (a : AEAD) (n : Z) (cell : Cell) : bytes := Seal a (nonce (NonceSize a) n) cell [].

(** What one end seals the other opens, and they are at the same number. *)
Record linked (k : bytes) (a : AEAD) (from to : Conn) : Prop := {
  lk_key : NewAEAD k = Ok a;
  lk_send : cn_send from = Some a;
  lk_recv : cn_recv to = Some a;
  lk_seq : cn_sendSeq from = cn_recvSeq to;
  lk_frame : cn_frame to = (CellSize + overhead)%nat;
  lk_werr : cn_werr from = None
}.

Lemma nonce_length size n : (8 <= size)%nat -> length (nonce size n) = size.
Proof. intros. unfold nonce. rewrite length_app, length_replicate, length_be. lia. Qed.

Lemma nonce_ok size n : (16 <= size)%nat -> nonce_admissible (nonce size n).
Proof.
  intros H Hl. unfold nonce. destruct (size - 8)%nat as [|m] eqn:E; [lia|].
  exists x00, (replicate m x00 ++ be 8 n). split; [done|]. vm_compute. done.
Qed.

Lemma open_frame k a n cell : NewAEAD k = Ok a ->
  Open a (nonce (NonceSize a) n) (frame_of a n cell) [] = Ok cell.
Proof.
  intros Hk. destruct (aead_sizes k a Hk) as [Hn _]. pose proof nonce_size_wide. unfold frame_of.
  apply (open_seal k); [done| |]; rewrite Hn; [apply nonce_length; lia | by apply nonce_ok].
Qed.

Lemma frame_of_length k a n cell : NewAEAD k = Ok a -> length cell = CellSize ->
  length (frame_of a n cell) = (CellSize + overhead)%nat.
Proof. intros Hk Hl. unfold frame_of. by rewrite (seal_length k), Hl. Qed.

Lemma WriteCell_runs k a c r cell w :
  NewAEAD k = Ok a -> cn_send c = Some a -> cn_werr c = None -> writable c r ->
  WriteCell cell (c, r) w =
    ((Ok tt, (cn_set_write (u64 (cn_sendSeq c + 1)) None c,
              raw_set_out (raw_out r ++ frame_of a (cn_sendSeq c) cell) None r)), w).
Proof.
  intros Hk Hs He (Hc & Hr & Ht). unfold WriteCell, bindS, getS, mod_conn, modS. cbn [fst snd].
  rewrite He, Hs. cbn [fst snd].
  assert ((if 0 <? cn_writeTimeout c then raw_deadline r else Ok tt) = Ok tt) as ->.
  { destruct Ht as [Ht | ->]; [by rewrite (proj2 (Z.ltb_ge _ _)) | by destruct (0 <? _)]. }
  unfold retS, raw_Write. cbn [fst snd]. rewrite Hc, Hr. done.
Qed.

Lemma readFrame_runs k a c r f cell rest w :
  NewAEAD k = Ok a -> cn_recv c = Some a -> cn_frame c = (CellSize + overhead)%nat -> length cell = CellSize ->
  f = frame_of a (cn_recvSeq c) cell -> raw_closed r = false -> raw_in r = f ++ rest ->
  readFrame (c, r) w = ((Ok cell, (cn_set_recvSeq (u64 (cn_recvSeq c + 1)) c, raw_set_in rest r)), w).
Proof.
  intros Hk Hr Hf Hl -> Hc Hin. unfold readFrame, bindS, getS, on_raw, raw_ReadFull, resS, mod_conn, modS, retS.
  cbn [fst snd]. rewrite Hc, Hin, Hf.
  pose proof (frame_of_length k a (cn_recvSeq c) cell Hk Hl) as Hfl.
  rewrite (proj2 (Nat.leb_le _ _)) by (rewrite length_app; lia).
  rewrite <- Hfl, take_app_length, drop_app_length. cbn [fst snd]. rewrite Hr, (open_frame k) by done.
  cbn [fst snd]. rewrite copy_at_front by (rewrite Hl; done). rewrite drop_ge by (rewrite Hl; done).
  by rewrite app_nil_r.
Qed.

Lemma raw_ReadFull_ok n r w b r' w' : raw_ReadFull n r w = ((Ok b, r'), w') ->
  raw_closed r = false /\ length b = n /\ raw_in r = b ++ raw_in r' /\ r' = raw_set_in (raw_in r') r /\ w' = w.
Proof.
  unfold raw_ReadFull. destruct (raw_closed r); [discriminate|].
  destruct (Nat.leb_spec n (length (raw_in r))); [|discriminate]. intros [= <- <- <-].
  cbn [raw_set_in raw_in]. rewrite take_drop, length_take. split_and!; try done. lia.
Qed.

(** What opens was sealed, under this key and with exactly the next number. *)
Lemma readFrame_sound k a c r cell l' w w' :
  NewAEAD k = Ok a -> cn_recv c = Some a -> cn_frame c = (CellSize + overhead)%nat ->
  readFrame (c, r) w = ((Ok cell, l'), w') ->
  length cell = CellSize /\ raw_in r = frame_of a (cn_recvSeq c) cell ++ raw_in (snd l') /\
  fst l' = cn_set_recvSeq (u64 (cn_recvSeq c + 1)) c /\ snd l' = raw_set_in (raw_in (snd l')) r /\ w' = w.
Proof.
  intros Hk Hr Hf H. unfold readFrame in H.
  apply bindS_ok in H as (c' & s1 & w1 & (-> & -> & ->)%getS_ok & H). cbn [fst] in H.
  apply bindS_ok in H as (buf & l1 & w1 & Hread & H). rewrite Hr in H.
  apply bindS_ok in H as (plain & l2 & w2 & (Hopen & -> & ->)%resS_ok & H).
  apply bindS_ok in H as (u & l3 & w3 & (-> & ->)%modS_ok & (-> & -> & ->)%retS_ok).
  unfold on_raw in Hread. cbn [fst snd] in *.
  destruct (raw_ReadFull (cn_frame c) r w) as [[b r1] w1'] eqn:E. injection Hread as -> <- ->.
  apply raw_ReadFull_ok in E as (_ & Hl & Hin & Hr1 & ->). cbn [fst snd] in *.
  apply (open_sound k) in Hopen as Hs; [|done].
  assert (Hal : length plain = CellSize).
  { apply (f_equal length) in Hs. rewrite (seal_length k), Hl, Hf in Hs by done. lia. }
  assert (copy_at 0 plain zero_cell = plain) as ->.
  { rewrite copy_at_front by (rewrite Hal; done). rewrite drop_ge by (rewrite Hal; done). apply app_nil_r. }
  split_and!; try done. rewrite Hin, Hs. done.
Qed.

(** *** Runs of cells *)

Fixpoint write_cells (cells : list Cell) : ST Link unit :=
  match cells with
  | [] => retS tt
  | c :: t => let* _ := WriteCell c in write_cells t
  end.

(** [n] calls of [ReadCell]. *)
Fixpoint read_cells (n : nat) : ST Link (list Cell) :=
  match n with
  | O => retS []
  | S m => let* c := ReadCell in let* t := read_cells m in retS (c :: t)
  end.

Definition cells_ok (cells : list Cell) : bool := forallb (fun c => length c =? CellSize)%nat cells.

Fixpoint frames_of (a : AEAD) (n : Z) (cells : list Cell) : bytes :=
  match cells with
  | [] => []
  | c :: t => frame_of a n c ++ frames_of a (u64 (n + 1)) t
  end.

(** The cells a caller sees. *)
Definition payload_cells (cells : list Cell) : list Cell := List.filter (fun c => negb (IsPadding c)) cells.

Definition advance (n : Z) (cells : list Cell) : Z := foldl (fun n _ => u64 (n + 1)) n cells.

Lemma write_cells_runs k a cells c r w :
  NewAEAD k = Ok a -> cn_send c = Some a -> cn_werr c = None -> writable c r ->
  write_cells cells (c, r) w =
    ((Ok tt, (cn_set_write (advance (cn_sendSeq c) cells) None c,
              raw_set_out (raw_out r ++ frames_of a (cn_sendSeq c) cells) None r)), w).
Proof.
  intros Hk. revert c r. induction cells as [|cell cells IH]; intros c r Hs He Hw.
  - destruct Hw as (_ & Hr & _). destruct c, r. cbn in *. subst. by rewrite app_nil_r.
  - cbn [write_cells]. rewrite (bindS_eq _ _ _ _ _ _ _ (WriteCell_runs k a c r cell w Hk Hs He Hw)).
    rewrite IH by (done || by destruct Hw as (? & ? & ?); split_and!).
    cbn [frames_of advance foldl]. destruct r. cbn. by rewrite <- app_assoc.
Qed.

(** Reading past padding needs no more rounds than there are bytes. *)
Lemma read_cell_runs k a pads cell rest c r w fuel :
  NewAEAD k = Ok a -> cn_recv c = Some a -> cn_frame c = (CellSize + overhead)%nat ->
  cells_ok (pads ++ [cell]) = true -> forallb IsPadding pads = true -> IsPadding cell = false ->
  raw_closed r = false -> raw_in r = frames_of a (cn_recvSeq c) (pads ++ [cell]) ++ rest ->
  (length pads <= fuel)%nat ->
  read_cell fuel (c, r) w =
    ((Ok cell, (cn_set_recvSeq (advance (cn_recvSeq c) (pads ++ [cell])) c, raw_set_in rest r)), w).
Proof.
  intros Hk. revert c r fuel. induction pads as [|p pads IH]; intros c r fuel Hr Hf Hok Hp Hc Hcl Hin Hfuel.
  - cbn [app cells_ok forallb] in *. rewrite andb_true_r in Hok. apply Nat.eqb_eq in Hok.
    cbn [frames_of] in Hin. rewrite app_nil_r in Hin.
    assert (Hfr : readFrame (c, r) w = ((Ok cell, (cn_set_recvSeq (u64 (cn_recvSeq c + 1)) c, raw_set_in rest r)), w))
      by (by eapply readFrame_runs).
    destruct fuel; cbn [read_cell]; rewrite (bindS_eq _ _ _ _ _ _ _ Hfr), Hc; done.
  - cbn [app cells_ok forallb] in Hok, Hp. apply andb_true_iff in Hok as [Hl%Nat.eqb_eq Hok], Hp as [Hpad Hp].
    cbn [app frames_of] in Hin. rewrite <- app_assoc in Hin.
    destruct fuel as [|fuel]; [simpl in Hfuel; lia|]. cbn [read_cell].
    rewrite (bindS_eq _ _ _ _ _ _ _ (readFrame_runs k a c r _ p _ w Hk Hr Hf Hl eq_refl Hcl Hin)), Hpad. cbn [negb].
    rewrite IH; try done. simpl in Hfuel. lia.
Qed.

Lemma frames_of_length k a n cells : NewAEAD k = Ok a -> cells_ok cells = true ->
  length (frames_of a n cells) = (length cells * (CellSize + overhead))%nat.
Proof.
  intros Hk. revert n. induction cells as [|c cells IH]; intros n H; [done|].
  cbn [cells_ok forallb] in H. apply andb_true_iff in H as [Hc%Nat.eqb_eq H].
  cbn [frames_of length]. rewrite length_app, (frame_of_length k), IH by done. lia.
Qed.

Lemma frames_of_app a n p q : frames_of a n (p ++ q) = frames_of a n p ++ frames_of a (advance n p) q.
Proof. revert n. induction p as [|c p IH]; intros n; cbn [app frames_of]; [done|]. rewrite IH, <- app_assoc. done. Qed.

Lemma advance_app n p q : advance n (p ++ q) = advance (advance n p) q.
Proof. unfold advance. by rewrite foldl_app. Qed.

(** The padding before the first cell that is none. *)
Lemma split_padding cells : payload_cells cells = [] \/
  exists pads c rest, cells = pads ++ c :: rest /\ forallb IsPadding pads = true /\ IsPadding c = false /\
    payload_cells cells = c :: payload_cells rest.
Proof.
  induction cells as [|c cells IH]; [by left|].
  unfold payload_cells in *. cbn [List.filter]. destruct (IsPadding c) eqn:E; cbn [negb].
  - destruct IH as [IH|(pads & d & rest & -> & Hp & Hd & ->)]; [by left|]. right.
    exists (c :: pads), d, rest. cbn [forallb app]. by rewrite E.
  - right. by exists [], c, cells.
Qed.

Lemma ReadCell_runs k a pads cell rest c r w :
  NewAEAD k = Ok a -> cn_recv c = Some a -> cn_frame c = (CellSize + overhead)%nat ->
  cells_ok (pads ++ [cell]) = true -> forallb IsPadding pads = true -> IsPadding cell = false ->
  raw_closed r = false -> raw_in r = frames_of a (cn_recvSeq c) (pads ++ [cell]) ++ rest ->
  ReadCell (c, r) w =
    ((Ok cell, (cn_set_recvSeq (advance (cn_recvSeq c) (pads ++ [cell])) c, raw_set_in rest r)), w).
Proof.
  intros Hk Hr Hf Hok Hp Hc Hcl Hin. unfold ReadCell. apply (read_cell_runs k a); try done. cbn [snd].
  rewrite Hin, length_app, (frames_of_length k), length_app by done. unfold CellSize. simpl length. lia.
Qed.

Lemma read_cells_runs k a cells c r w rest :
  NewAEAD k = Ok a -> cn_recv c = Some a -> cn_frame c = (CellSize + overhead)%nat ->
  cells_ok cells = true -> raw_closed r = false -> raw_in r = frames_of a (cn_recvSeq c) cells ++ rest ->
  exists read left, cells = read ++ left /\ payload_cells left = [] /\
    read_cells (length (payload_cells cells)) (c, r) w =
      ((Ok (payload_cells cells), (cn_set_recvSeq (advance (cn_recvSeq c) read) c,
        raw_set_in (frames_of a (advance (cn_recvSeq c) read) left ++ rest) r)), w).
Proof.
  intros Hk. remember (length (payload_cells cells)) as n eqn:En.
  revert cells c r En. induction n as [|n IH]; intros cells c r En Hr Hf Hok Hcl Hin.
  - exists [], cells. split; [done|]. symmetry in En. apply nil_length_inv in En as ->. split; [done|].
    cbn [read_cells advance foldl]. destruct c, r. cbn in *. by subst.
  - destruct (split_padding cells) as [E|(pads & d & tl & -> & Hp & Hd & E)]; [rewrite E in En; discriminate|].
    rewrite E in En |- *. injection En as En.
    unfold cells_ok in Hok. rewrite forallb_app in Hok. apply andb_true_iff in Hok as [Hok1 Hok2].
    cbn [forallb] in Hok2. apply andb_true_iff in Hok2 as [Hok2 Hok3].
    assert (Hok12 : cells_ok (pads ++ [d]) = true).
    { unfold cells_ok. rewrite forallb_app. cbn [forallb]. by rewrite Hok1, Hok2. }
    replace (pads ++ d :: tl) with ((pads ++ [d]) ++ tl) in Hin by (by rewrite <- app_assoc).
    rewrite frames_of_app, <- app_assoc in Hin.
    pose proof (ReadCell_runs k a pads d _ c r w Hk Hr Hf Hok12 Hp Hd Hcl Hin) as H1.
    cbn [read_cells]. rewrite (bindS_eq _ _ _ _ _ _ _ H1).
    destruct (IH tl (cn_set_recvSeq (advance (cn_recvSeq c) (pads ++ [d])) c)
      (raw_set_in (frames_of a (advance (cn_recvSeq c) (pads ++ [d])) tl ++ rest) r)) as (rd & left & -> & Hl & H2); try done.
    exists (pads ++ d :: rd), left. split; [by rewrite <- app_assoc|]. split; [done|].
    rewrite (bindS_eq _ _ _ _ _ _ _ H2).
    replace (pads ++ d :: rd) with ((pads ++ [d]) ++ rd) by (by rewrite <- app_assoc).
    by rewrite (advance_app _ (pads ++ [d]) rd).
Qed.

(** C26. The link delivers: whatever cells one end writes, the other reads, each
    once, in their order and unchanged, padding left out; what the reader has
    not taken then is padding, and the two ends are still at the same number. *)
Theorem link_delivers k a from to r1 r2 cells w1 w2 rest :
  linked k a from to -> writable from r1 -> cells_ok cells = true -> raw_closed r2 = false ->
  exists from' r1' sent, write_cells cells (from, r1) w1 = ((Ok tt, (from', r1')), w1) /\
    raw_out r1' = raw_out r1 ++ sent /\ length sent = (length cells * (CellSize + overhead))%nat /\
  exists to' read left, read_cells (length (payload_cells cells)) (to, raw_set_in (sent ++ rest) r2) w2 =
      ((Ok (payload_cells cells), (to', raw_set_in (frames_of a (cn_recvSeq to') left ++ rest) r2)), w2) /\
    cells = read ++ left /\ payload_cells left = [] /\ cn_recvSeq to' = advance (cn_recvSeq to) read /\
    (left = [] -> linked k a from' to').
Proof.
  intros [Hk Hs Hr Hseq Hf He] Hw Hok Hcl.
  eexists _, _, (frames_of a (cn_sendSeq from) cells).
  split; [by apply (write_cells_runs k)|]. split; [done|]. split; [by apply (frames_of_length k)|].
  destruct (read_cells_runs k a cells to (raw_set_in (frames_of a (cn_sendSeq from) cells ++ rest) r2) w2 rest)
    as (rd & left & Hcells & Hleft & Hrun); try done; [cbn [raw_set_in raw_in]; by rewrite Hseq|].
  eexists _, rd, left. split; [exact Hrun|]. split; [done|]. split; [done|]. split; [done|].
  intros ->. rewrite app_nil_r in Hcells. subst rd. split; try done. cbn. by rewrite Hseq.
Qed.

(** *** What a reader takes *)

Lemma read_cell_sound k a fuel c r w cell l' w' :
  NewAEAD k = Ok a -> cn_recv c = Some a -> cn_frame c = (CellSize + overhead)%nat ->
  read_cell fuel (c, r) w = ((Ok cell, l'), w') ->
  exists pads, forallb IsPadding pads = true /\ IsPadding cell = false /\ cells_ok (pads ++ [cell]) = true /\
    raw_in r = frames_of a (cn_recvSeq c) (pads ++ [cell]) ++ raw_in (snd l') /\
    fst l' = cn_set_recvSeq (advance (cn_recvSeq c) (pads ++ [cell])) c.
Proof.
  intros Hk. revert c r w. induction fuel as [|fuel IH]; intros c r w Hr Hf H; cbn [read_cell] in H;
    apply bindS_ok in H as (p & [c1 r1] & w1 & Hfr & H);
    destruct (readFrame_sound k a c r p _ _ _ Hk Hr Hf Hfr) as (Hl & Hin & Hc1 & _ & ->); cbn [fst snd] in *;
    destruct (IsPadding p) eqn:Hp; cbn [negb] in H.
  - discriminate.
  - apply retS_ok in H as (-> & -> & ->). exists []. cbn [app cells_ok forallb frames_of fst snd].
    rewrite Hl, app_nil_r. split_and!; done.
  - subst c1. destruct (IH (cn_set_recvSeq (u64 (cn_recvSeq c + 1)) c) r1 w) as (pads & Hpads & Hc & Hok & Hin' & Hf'); try done.
    exists (p :: pads). cbn [forallb app cells_ok frames_of]. rewrite Hp, Hpads, Hl. split_and!; try done.
    rewrite Hin, Hin'. cbn [cn_set_recvSeq cn_recvSeq]. by rewrite <- app_assoc.
  - apply retS_ok in H as (-> & -> & ->). exists []. cbn [app cells_ok forallb frames_of fst snd].
    rewrite Hl, app_nil_r. split_and!; done.
Qed.

Lemma payload_pads pads cell : forallb IsPadding pads = true -> IsPadding cell = false ->
  payload_cells (pads ++ [cell]) = [cell].
Proof.
  intros Hp Hc. induction pads as [|p pads IH]; unfold payload_cells in *; cbn [app List.filter].
  - by rewrite Hc.
  - cbn [forallb] in Hp. apply andb_true_iff in Hp as [-> Hp]. cbn [negb]. auto.
Qed.

Lemma payload_app p q : payload_cells (p ++ q) = payload_cells p ++ payload_cells q.
Proof. apply List.filter_app. Qed.

Lemma nonce_inj size n m : (8 <= size)%nat -> 0 <= n < 2 ^ 64 -> 0 <= m < 2 ^ 64 ->
  nonce size n = nonce size m -> n = m.
Proof. intros _ Hn Hm H. apply (inj (app _)) in H. by apply be_inj in H. Qed.

(** C27. The link takes only what was sealed for it: the bytes a reader consumed
    to return its cells are the sealings, under its own key and under successive
    frame numbers from the one it expected, of those cells and of padding in
    their order, so a frame that was replayed, dropped, reordered or altered is
    never returned; below 2^64 frames no two numbers share a nonce. *)
Theorem link_authentic k a n to r w cells l' w' :
  NewAEAD k = Ok a -> cn_recv to = Some a -> cn_frame to = (CellSize + overhead)%nat ->
  read_cells n (to, r) w = ((Ok cells, l'), w') ->
  exists all, cells = payload_cells all /\ cells_ok all = true /\
    raw_in r = frames_of a (cn_recvSeq to) all ++ raw_in (snd l') /\
    cn_recvSeq (fst l') = advance (cn_recvSeq to) all /\
    (forall i j, 0 <= i < 2 ^ 64 -> 0 <= j < 2 ^ 64 -> nonce nonce_size i = nonce nonce_size j -> i = j).
Proof.
  intros Hk Hr Hf H.
  enough (exists all, cells = payload_cells all /\ cells_ok all = true /\
    raw_in r = frames_of a (cn_recvSeq to) all ++ raw_in (snd l') /\
    cn_recvSeq (fst l') = advance (cn_recvSeq to) all) as (all & ?).
  { exists all. split_and!; try tauto. intros i j Hi Hj. pose proof nonce_size_wide. apply nonce_inj; lia. }
  revert to r w cells Hr Hf H. induction n as [|n IH]; intros to r w cells Hr Hf H; cbn [read_cells] in H.
  - apply retS_ok in H as (-> & -> & ->). by exists [].
  - apply bindS_ok in H as (c & [to1 r1] & w1 & H1 & H).
    apply bindS_ok in H as (t & l2 & w2 & H2 & (-> & -> & ->)%retS_ok).
    destruct (read_cell_sound k a _ to r w c _ _ Hk Hr Hf H1) as (pads & Hp & Hc & Hok & Hin & Hto).
    cbn [fst snd] in *. subst to1.
    destruct (IH (cn_set_recvSeq _ to) r1 w1 t Hr Hf H2) as (all & -> & Hok' & Hin' & Hs).
    exists ((pads ++ [c]) ++ all). rewrite payload_app, (payload_pads pads c) by done.
    split_and!; [done| | |].
    + unfold cells_ok in *. by rewrite forallb_app, Hok, Hok'.
    + rewrite Hin, Hin', (frames_of_app a _ (pads ++ [c]) all). by rewrite <- app_assoc.
    + by rewrite Hs, (advance_app _ (pads ++ [c]) all).
Qed.

(** After a failed write the link is dead: every later write fails with the
    same error and puts nothing on the wire, so a frame cut short is never
    followed by another. *)
Theorem link_poisoned cell c r w e c' r' w' :
  WriteCell cell (c, r) w = ((Err e, (c', r')), w') ->
  (forall cell2 r2 w2, WriteCell cell2 (c', r2) w2 = ((Err e, (c', r2)), w2)) /\
  exists n, raw_out r' = raw_out r ++ take n (match cn_send c with
                                              | Some a => frame_of a (cn_sendSeq c) cell
                                              | None => [] end).
Proof.
  unfold WriteCell, bindS, getS, mod_conn, modS, retS, failS. cbn [fst snd].
  destruct (cn_werr c) as [e0|] eqn:He.
  { intros [= <- <- <- _]. rewrite He. split; [done|]. exists 0%nat. by rewrite take_0, app_nil_r. }
  destruct (cn_send c) as [a|] eqn:Hs.
  2: { intros [= <- <- <- _]. rewrite He, Hs. split; [done|]. exists 0%nat. by rewrite app_nil_r. }
  cbn [fst snd]. destruct (if 0 <? cn_writeTimeout c then raw_deadline r else Ok tt) as [[]|e0]; cbn [fst snd].
  - unfold raw_Write. destruct (raw_closed r); cbn [fst snd].
    { intros [= <- <- <- _]. split; [done|]. exists 0%nat. by rewrite take_0, app_nil_r. }
    destruct (raw_room r) as [n|]; [|discriminate]. destruct (length _ <=? n)%nat; [discriminate|]. cbn [fst snd].
    intros [= <- <- <- _]. split; [done|]. by exists n.
  - intros [= <- <- <- _]. split; [done|]. exists 0%nat. by rewrite take_0, app_nil_r.
Qed.

End Frames.

(** ** The handshake *)

Section Agreement.
Context `{CL : CryptoLaws}.

Definition pub_sound (w : World) : Prop := forall n, pub_cache w !! Suite = Some n -> n = pub_size.

Definition mode_of (peer : option bytes) : byte :=
  match peer with Some _ => modeAuthenticated | None => modeAnonymous end.

(** The initiator's first bytes. *)
Definition hello_of (peer : option bytes) (ephPub : bytes) : bytes := mode_of peer :: ephPub.

Lemma pubSize_ok w n w' : pub_sound w -> pubSize w = (Ok n, w') -> n = pub_size.
Proof.
  intros Hs. unfold pubSize. destruct (pub_cache w !! Suite) as [m|] eqn:E; [intros [= <- _]; auto|].
  intros ((priv & pub) & w1 & (e & Hg & _)%draw_ok & [= <- _])%bindM_ok.
  apply (generate_pub_size priv). by eexists _, _.
Qed.

Lemma raw_Write_ok p r w r' w' : raw_Write p r w = ((Ok tt, r'), w') ->
  raw_out r' = raw_out r ++ p /\ raw_in r' = raw_in r /\ raw_closed r' = raw_closed r /\ w' = w.
Proof.
  unfold raw_Write. destruct (raw_closed r) eqn:E; [discriminate|]. destruct (raw_room r) as [n|].
  - destruct (length p <=? n)%nat; [|discriminate]. by intros [= <- <-].
  - by intros [= <- <-].
Qed.

Lemma WriteCell_ok cell c r w c' r' w' : WriteCell cell (c, r) w = ((Ok tt, (c', r')), w') ->
  exists a, cn_send c = Some a /\ cn_werr c = None /\ c' = cn_set_write (u64 (cn_sendSeq c + 1)) None c /\
    raw_out r' = raw_out r ++ frame_of a (cn_sendSeq c) cell /\ raw_in r' = raw_in r /\ w' = w.
Proof.
  unfold WriteCell, bindS, getS, mod_conn, modS, retS, failS. cbn [fst snd].
  destruct (cn_werr c); [discriminate|]. destruct (cn_send c) as [a|]; [|discriminate].
  cbn [fst snd]. destruct (if 0 <? cn_writeTimeout c then raw_deadline r else Ok tt) as [[]|]; cbn [fst snd]; [|discriminate].
  destruct (raw_Write _ r w) as [[[[]|e] raw] w1] eqn:E; [|discriminate]. intros [= <- <- <-].
  apply raw_Write_ok in E as (Ho & Hin & _ & ->). exists a. split_and!; done.
Qed.

Lemma newConn_ok secret ctx p q c : newConn secret ctx p q = Ok c ->
  exists sk rk sa ra, DeriveKey secret p ctx KeySize = Ok sk /\ DeriveKey secret q ctx KeySize = Ok rk /\
    NewAEAD sk = Ok sa /\ NewAEAD rk = Ok ra /\
    c = {| cn_send := Some sa; cn_recv := Some ra; cn_frame := (CellSize + overhead)%nat; cn_sendSeq := 0;
           cn_writeTimeout := 0; cn_werr := None; cn_recvSeq := 0 |}.
Proof.
  unfold newConn. intros H. apply rbind_ok in H as (sk & Hsk & H). apply rbind_ok in H as (rk & Hrk & H).
  apply rbind_ok in H as (sa & Hsa & H). apply rbind_ok in H as (ra & Hra & H). injection H as <-.
  exists sk, rk, sa, ra. destruct (aead_sizes sk sa Hsa) as [_ ->]. done.
Qed.

(** The two directions are two ends of the same keys. *)
Lemma newConn_swap secret ctx p q sk rk sa ra :
  DeriveKey secret p ctx KeySize = Ok sk -> DeriveKey secret q ctx KeySize = Ok rk ->
  NewAEAD sk = Ok sa -> NewAEAD rk = Ok ra ->
  newConn secret ctx q p =
    Ok {| cn_send := Some ra; cn_recv := Some sa; cn_frame := (CellSize + overhead)%nat; cn_sendSeq := 0;
          cn_writeTimeout := 0; cn_werr := None; cn_recvSeq := 0 |}.
Proof.
  intros Hsk Hrk Hsa Hra. unfold newConn. rewrite Hrk, Hsk. cbn [rbind]. rewrite Hra, Hsa. cbn [rbind].
  by destruct (aead_sizes rk ra Hra) as [_ ->].
Qed.

(** Both sides come to one chain key. *)
Lemma chainKey_agrees ctx mode ei Ei er Er s static :
  KeyPair ei Ei -> KeyPair er Er -> (mode = modeAuthenticated -> KeyPair s static) ->
  chainKey ctx mode ei static ei Er = chainKey ctx mode s Ei er Ei.
Proof.
  intros Hi Hr Hs. unfold chainKey. rewrite (agree_comm ei Ei er Er) by done.
  case_bool_decide as Hm; [|done]. cbn [negb]. by rewrite (agree_comm ei Ei s static) by auto.
Qed.

(** What an initiator wrote to come to a link. *)
Lemma link_Dial_ok peer raw w c raw' w' : Dial peer raw w = ((Ok c, raw'), w') ->
  exists ephPriv ephPub a, KeyPair ephPriv ephPub /\ raw_out raw' = raw_out raw ++ hello_of peer ephPub /\
    cn_send c = Some a /\ cn_sendSeq c = 0 /\ match peer with Some k => length k = pub_size | None => True end.
Proof.
  unfold Dial. intros H.
  apply bindS_ok in H as ((ephPriv & ephPub) & r1 & w1 & [(e & Hg & ->)%draw_ok ->]%worldS_ok & H).
  assert (Hkp : KeyPair ephPriv ephPub) by (by eexists _, _). pose proof (generate_pub_size _ _ Hkp) as Hl.
  destruct (match peer with Some k => negb (length k =? length ephPub)%nat | None => false end) eqn:Ek; [discriminate|].
  fold (mode_of peer) in H.
  apply bindS_ok in H as ([] & r2 & w2 & (Ho & _ & _ & ->)%raw_Write_ok & H).
  apply bindS_ok in H as (peerEph & r3 & w3 & (_ & _ & _ & E3 & ->)%errS_ok%raw_ReadFull_ok & H).
  apply bindS_ok in H as (ctx & r4 & w4 & (_ & -> & ->)%errS_ok%resS_ok & H).
  apply bindS_ok in H as (secret & r5 & w5 & (_ & -> & ->)%resS_ok & H).
  apply bindS_ok in H as (c0 & r6 & w6 & (Hc & -> & ->)%resS_ok & H).
  apply newConn_ok in Hc as (sk & rk & sa & ra & Hsk & Hrk & Hsa & Hra & ->).
  apply bindS_ok in H as ((first & c1) & r7 & w7 & Hf%errS_ok & H).
  destruct (negb (IsPadding first)); [discriminate|]. apply retS_ok in H as (-> & -> & ->).
  unfold over in Hf. destruct (readFrame _ _) as [[[f|e'] [c2 r8]] w8] eqn:E in Hf; [|discriminate].
  injection Hf as <- <- <- <-.
  apply (readFrame_sound rk ra) in E as (_ & _ & Hc1 & Hr & _); [|done ..]. cbn [fst snd] in *.
  exists ephPriv, ephPub, sa. subst c2. split_and!; try done.
  - rewrite Hr, E3. cbn [raw_set_in raw_out]. rewrite Ho. done.
  - destruct peer as [k|]; [|done]. apply negb_false_iff, Nat.eqb_eq in Ek. by rewrite Ek.
Qed.

Record accepted (sp : option bytes) (spub : bytes) (mode : byte) (peerEph ephPriv ephPub : bytes)
    (ctx : Context) (secret : bytes) (c0 : Conn) : Prop := {
  ac_pair : KeyPair ephPriv ephPub;
  ac_size : length peerEph = pub_size;
  ac_mode : mode = modeAnonymous \/ mode = modeAuthenticated /\ sp <> None /\ length spub = pub_size;
  ac_ctx : handshakeContext mode peerEph ephPub (if bool_decide (mode = modeAuthenticated) then spub else []) = Ok ctx;
  ac_secret : chainKey ctx mode (default [] sp) peerEph ephPriv peerEph = Ok secret;
  ac_conn : newConn secret ctx purposeR2I purposeI2R = Ok c0
}.

Lemma Accept_ok sp spub raw w c raw' w' :
  pub_sound w -> Accept sp spub raw w = ((Ok c, raw'), w') ->
  exists mode peerEph ephPriv ephPub ctx secret c0 a,
    accepted sp spub mode peerEph ephPriv ephPub ctx secret c0 /\
    raw_in raw = (mode :: peerEph) ++ raw_in raw' /\ cn_send c0 = Some a /\ c = cn_set_write 1 None c0 /\
    raw_out raw' = raw_out raw ++ ephPub ++ frame_of a 0 NewPadding.
Proof.
  intros Hp H. unfold Accept in H.
  apply bindS_ok in H as (n & r1 & w1 & [Hn ->]%worldS_ok & H). apply pubSize_ok in Hn as ->; [|done].
  apply bindS_ok in H as (hello & r2 & w2 & Hh%errS_ok & H).
  apply raw_ReadFull_ok in Hh as (Hcl & Hl & Hin & Hr2 & ->).
  destruct hello as [|mode peerEph]; [simpl in Hl; lia|]. cbn [hd tl] in H.
  destruct (_ && _) eqn:Hmode in H; [discriminate|].
  apply bindS_ok in H as ((ephPriv & ephPub) & r3 & w3 & [(e & Hg & ->)%draw_ok ->]%worldS_ok & H).
  apply bindS_ok in H as ([] & r4 & w4 & (Ho & Hi & _ & ->)%raw_Write_ok & H).
  apply bindS_ok in H as (ctx & r5 & w5 & (Hctx & -> & ->)%errS_ok%resS_ok & H).
  apply bindS_ok in H as (secret & r6 & w6 & (Hsec & -> & ->)%resS_ok & H).
  apply bindS_ok in H as (c0 & r7 & w7 & (Hc0 & -> & ->)%resS_ok & H).
  apply bindS_ok in H as ((u & c1) & r8 & w8 & Hw%errS_ok & (-> & -> & ->)%retS_ok).
  unfold over in Hw. destruct (WriteCell NewPadding (c0, r4) _) as [[[u'|e'] [c2 r9]] w9] eqn:E; [|discriminate].
  injection Hw as <- <- <- <-. destruct u'. apply WriteCell_ok in E as (a & Ha & _ & -> & Ho2 & Hi2 & _).
  pose proof Hc0 as (sk & rk & sa & ra & _ & _ & _ & _ & Ec0)%newConn_ok.
  exists mode, peerEph, ephPriv, ephPub, ctx, secret, c0, a. split_and!; try done.
  - split; try done.
    + by eexists _, _.
    + simpl in Hl. lia.
    + destruct (bool_decide_reflect (mode = modeAnonymous)); [by left|]. right.
      cbn [negb andb] in Hmode. apply negb_false_iff in Hmode. rewrite !andb_true_iff in Hmode.
      destruct Hmode as [[Hm%bool_decide_eq_true Hs%negb_true_iff%bool_decide_eq_false] Hpl%Nat.eqb_eq]. done.
  - by rewrite Hi2, Hi.
  - by subst c0.
  - rewrite Ho2, Ho. replace (cn_sendSeq c0) with 0 by by rewrite Ec0. rewrite Hr2. cbn [raw_set_in raw_out]. by rewrite <- app_assoc.
Qed.

(** C25. The two ends of a handshake agree: if the responder accepts what the
    initiator wrote, with its published link key where the initiator asks for
    one, then the initiator that receives the responder's answer comes to a link
    as well, nothing else is read or written on either side, and each direction
    is keyed alike at both ends and stands at the same frame. *)
Theorem link_agrees peer sp spub wi ephPriv ephPub ei raw_r rest_r wr cr raw_r' wr' :
  GenerateEphemeral (entropy wi) = (Ok (ephPriv, ephPub), ei) ->
  match peer with Some k => k = spub /\ exists p, sp = Some p /\ KeyPair p spub | None => True end ->
  pub_sound wr -> raw_in raw_r = hello_of peer ephPub ++ rest_r ->
  Accept sp spub raw_r wr = ((Ok cr, raw_r'), wr') ->
  exists answer, raw_out raw_r' = raw_out raw_r ++ answer /\ raw_in raw_r' = rest_r /\
  forall raw_i rest_i, raw_closed raw_i = false -> raw_room raw_i = None -> raw_in raw_i = answer ++ rest_i ->
  exists ci ki ai kr ar,
    Dial peer raw_i wi = ((Ok ci, raw_set_in rest_i (raw_set_out (raw_out raw_i ++ hello_of peer ephPub) None raw_i)),
                          with_entropy ei wi) /\
    linked ki ai ci cr /\ linked kr ar cr ci.
Proof.
  intros Hg Hpeer Hp Hin (mode & peerEph & er & Er & ctx & secret & c0 & a & [A1 A2 A3 A4 A5 A6] & Hin' & Ha & -> & Ho)%Accept_ok; [|done].
  assert (Hi : KeyPair ephPriv ephPub) by (by eexists _, _).
  pose proof (generate_pub_size _ _ Hi) as Hl. pose proof (generate_pub_size _ _ A1) as Hlr.
  rewrite Hin in Hin'. unfold hello_of in Hin'. apply app_inj_1 in Hin' as [[= <- <-] Hrest]; [|simpl; lia].
  exists (Er ++ frame_of a 0 NewPadding). split; [done|]. split; [done|].
  intros raw_i rest_i Hcl Hroom Hraw.
  apply newConn_ok in A6 as (sk & rk & sa & ra & Hsk & Hrk & Hsa & Hra & ->). injection Ha as <-.
  set (static := default [] peer).
  assert (Hst : (if bool_decide (mode_of peer = modeAuthenticated) then spub else []) = static).
  { destruct peer as [s|]; cbn; [by destruct Hpeer as [-> _] | done]. }
  rewrite Hst in A4.
  assert (Hck : chainKey ctx (mode_of peer) ephPriv static ephPriv Er = Ok secret).
  { rewrite <- A5. apply chainKey_agrees; [done|done|]. intros Hm. destruct peer as [s|]; [|discriminate Hm].
    destruct Hpeer as [-> (p & -> & Hkp)]. done. }
  pose proof (newConn_swap secret ctx _ _ sk rk sa ra Hsk Hrk Hsa Hra) as Hnc.
  set (ci0 := {| cn_send := Some ra; cn_recv := Some sa; cn_frame := (CellSize + overhead)%nat; cn_sendSeq := 0;
                 cn_writeTimeout := 0; cn_werr := None; cn_recvSeq := 0 |}) in *.
  exists (cn_set_recvSeq 1 ci0), rk, ra, sk, sa. split; [|split; split; done].
  unfold Dial. unfold bindS at 1, worldS, draw. rewrite Hg.
  assert (Hkn : match peer with Some k => negb (length k =? length ephPub)%nat | None => false end = false).
  { destruct peer as [s|]; [|done]. destruct Hpeer as [-> (p & _ & Hkp)].
    rewrite (generate_pub_size _ _ Hkp), Hl, Nat.eqb_refl. done. }
  rewrite Hkn. unfold bindS at 1, raw_Write. rewrite Hcl, Hroom.
  unfold bindS at 1, errS at 1, raw_ReadFull. cbn [raw_set_out raw_closed raw_in]. rewrite Hcl, Hraw.
  rewrite Hl, <- Hlr, <- app_assoc.
  rewrite (proj2 (Nat.leb_le _ _)) by (rewrite length_app; lia). rewrite take_app_length, drop_app_length.
  fold (mode_of peer). fold static.
  unfold bindS at 1, errS at 1, resS at 1. rewrite A4. unfold bindS at 1, resS at 1. rewrite Hck.
  unfold bindS at 1, resS at 1. rewrite Hnc.
  unfold bindS, errS, over. erewrite (readFrame_runs sk sa ci0 _ _ NewPadding rest_i); try done.
Qed.

End Agreement.

(** ** Witnesses *)

Lemma run_ends {S A} (x : (res A * S) * World) r : fst (fst x) = r -> exists s w, x = ((r, s), w).
Proof. destruct x as [[? s] w]. cbn. intros ->. by exists s, w. Qed.

Lemma run_ends_ok {S A} (x : (res A * S) * World) : is_ok (fst (fst x)) = true -> exists a s w, x = ((Ok a, s), w).
Proof. destruct x as [[[a|e] s] w]; [by exists a, s, w | discriminate]. Qed.

Module LinkDemo.
Import ToySuite.

Definition world : World := {| entropy := replicate 4096 x5a; size_cache := ∅; pub_cache := ∅ |}.

(** A connection that brings [b]. *)
Definition wire_of (b : bytes) : Raw :=
  {| raw_in := b; raw_out := []; raw_room := None; raw_err := Other "broken pipe"; raw_deadline := Ok tt;
     raw_closed := false |}.

Definition static : bytes * bytes := get_ok (fst (GenerateEphemeral (replicate 32 x21))) eq_refl.
Definition eph : bytes * bytes :=
  Eval vm_compute in get_ok (fst (GenerateEphemeral (entropy world))) eq_refl.
Definition responder : World := with_entropy (replicate 4096 x37) world.
Definition hello : bytes := Eval vm_compute in hello_of (Some (snd static)) (snd eph).

Lemma answered : exists c raw w, Accept (Some (fst static)) (snd static) (wire_of hello) responder = ((Ok c, raw), w).
Proof. apply run_ends_ok. vm_compute. reflexivity. Qed.

Definition a_key : bytes := replicate 32 x55.
Definition aead : AEAD := get_ok (NewAEAD a_key) eq_refl.

Lemma aead_is : NewAEAD a_key = Ok aead.
Proof. apply get_ok_spec. Qed.

Definition sender : Conn :=
  {| cn_send := Some aead; cn_recv := None; cn_frame := (CellSize + overhead)%nat; cn_sendSeq := 0;
     cn_writeTimeout := 0; cn_werr := None; cn_recvSeq := 0 |}.
Definition receiver : Conn :=
  {| cn_send := None; cn_recv := Some aead; cn_frame := (CellSize + overhead)%nat; cn_sendSeq := 0;
     cn_writeTimeout := 0; cn_werr := None; cn_recvSeq := 0 |}.

Definition cell (b : byte) : Cell := Version :: replicate (CellSize - 1) b.

(** Two cells with padding before, between and after them. *)
Definition cells : list Cell := [NewPadding; cell x03; NewPadding; cell x02; NewPadding].

Definition arriving : bytes := frames_of aead 0 cells.

Lemma cells_taken : exists got l w, read_cells 2 (receiver, wire_of arriving) world = ((Ok got, l), w).
Proof. apply run_ends_ok. vm_compute. reflexivity. Qed.

(** A connection that takes ten bytes more. *)
Definition narrow : Raw :=
  {| raw_in := []; raw_out := []; raw_room := Some 10%nat; raw_err := Other "broken pipe"; raw_deadline := Ok tt;
     raw_closed := false |}.

Lemma cut : exists l w, WriteCell (cell x03) (sender, narrow) world = ((Err (Other "broken pipe"), l), w).
Proof. apply run_ends. vm_compute. reflexivity. Qed.

End LinkDemo.

Import ToySuite.

Lemma link_delivers_witness :
  exists from' r1' sent, write_cells LinkDemo.cells (LinkDemo.sender, LinkDemo.wire_of []) LinkDemo.world =
      ((Ok tt, (from', r1')), LinkDemo.world) /\
    raw_out r1' = sent /\ length sent = (5 * (CellSize + overhead))%nat /\ length (payload_cells LinkDemo.cells) = 2%nat.
Proof.
  destruct (link_delivers LinkDemo.a_key LinkDemo.aead LinkDemo.sender LinkDemo.receiver (LinkDemo.wire_of [])
    (LinkDemo.wire_of []) LinkDemo.cells LinkDemo.world LinkDemo.world [])
    as (f & r & s & H & Ho & Hl & _).
  - split; [exact LinkDemo.aead_is | reflexivity ..].
  - split; [reflexivity|]. split; [reflexivity|]. left. vm_compute. discriminate.
  - vm_compute. reflexivity.
  - reflexivity.
  - exists f, r, s. split; [exact H|]. split; [exact Ho|]. split; [exact Hl|]. vm_compute. reflexivity.
Defined.

Lemma link_authentic_witness :
  exists got all, got = payload_cells all /\ LinkDemo.arriving <> [] /\
    exists l : Link, LinkDemo.arriving = frames_of LinkDemo.aead 0 all ++ raw_in (snd l) /\
      fst (fst (read_cells 2 (LinkDemo.receiver, LinkDemo.wire_of LinkDemo.arriving) LinkDemo.world)) = Ok got.
Proof.
  destruct LinkDemo.cells_taken as (got & l & w & E).
  destruct (link_authentic LinkDemo.a_key LinkDemo.aead 2 LinkDemo.receiver (LinkDemo.wire_of LinkDemo.arriving)
    LinkDemo.world got l w LinkDemo.aead_is eq_refl eq_refl E) as (all & H & _ & Hr & _).
  exists got, all. split; [exact H|]. split; [vm_compute; discriminate|].
  exists l. split; [exact Hr|]. rewrite E. reflexivity.
Defined.

Lemma link_poisoned_witness :
  exists c' r', fst (WriteCell (LinkDemo.cell x03) (LinkDemo.sender, LinkDemo.narrow) LinkDemo.world) =
      (Err (Other "broken pipe"), (c', r')) /\
    forall cell2 r2 w2, WriteCell cell2 (c', r2) w2 = ((Err (Other "broken pipe"), (c', r2)), w2).
Proof.
  destruct LinkDemo.cut as ([c' r'] & w & E). exists c', r'. split; [rewrite E; reflexivity|].
  exact (proj1 (link_poisoned (LinkDemo.cell x03) LinkDemo.sender LinkDemo.narrow LinkDemo.world _ c' r' w E)).
Defined.

Lemma link_agrees_witness :
  exists answer ci, fst (fst (Dial (Some (snd LinkDemo.static)) (LinkDemo.wire_of (answer ++ [x01])) LinkDemo.world)) =
    Ok ci.
Proof.
  destruct LinkDemo.answered as (c & raw & w & E).
  destruct (link_agrees (Some (snd LinkDemo.static)) (Some (fst LinkDemo.static)) (snd LinkDemo.static) LinkDemo.world
    (fst LinkDemo.eph) (snd LinkDemo.eph) (snd (GenerateEphemeral (entropy LinkDemo.world)))
    (LinkDemo.wire_of LinkDemo.hello) [] LinkDemo.responder c raw w) as (answer & _ & _ & H).
  - vm_compute. reflexivity.
  - split; [reflexivity|]. exists (fst LinkDemo.static). split; [reflexivity|].
    exists (replicate 32 x21), []. vm_compute. reflexivity.
  - intros n Hn. discriminate Hn.
  - vm_compute. reflexivity.
  - exact E.
  - destruct (H (LinkDemo.wire_of (answer ++ [x01])) [x01] eq_refl eq_refl eq_refl) as (ci & ki & ai & kr & ar & Hd & _).
    exists answer, ci. rewrite Hd. reflexivity.
Defined.
