(* ===== verification/Choose.v ===== *)
(** * Choose: how a client draws the nodes of its path

    Models [src/client/choose.go].  The random source is the stream of bytes it
    will still give; nodes are their indices in the list they are drawn from.  A
    Go [int] is a [Z] below 2^63. *)

From Stdlib Require Import Strings.Byte Strings.String.
From S2P Require Import Prelude Effects State.

Definition maxDraws : nat := 128.

(** [io.ReadFull(rnd, b[:])] and the big-endian value of what it read. *)
Definition read8 : ST bytes Z := fun s w =>
  if (8 <=? length s)%nat then ((Ok (unbe (take 8 s)), drop 8 s), w)
  else ((Err (Sentinel (if bool_decide (s = []) then io_EOF else io_ErrUnexpectedEOF)), []), w).

Definition reject (m : Z) : Z := u64 (- m) mod m.

Fixpoint below_loop (fuel : nat) (m : Z) : ST bytes Z :=
  match fuel with
  | O => failS (Sentinel client_ErrChoice)
  | S f =>
      let* v := errS (ErrWrap (Other "client: random choice")) read8 in
      if reject m <=? v then retS (v mod m) else below_loop f m
  end.

Definition below (m : Z) : ST bytes Z := below_loop maxDraws m.

Definition ChooseEntry (n : Z) : ST bytes Z :=
  if n <? 1 then failS (Sentinel client_ErrChoice) else below n.

(** [l[i], l[j] = l[j], l[i]] *)
Definition swap (i j : nat) (l : list Z) : list Z := <[j := l !!! i]> (<[i := l !!! j]> l).

(** The loop of [ChooseRest], from its [i] on. *)
Fixpoint rest_loop (todo i : nat) (others path : list Z) : ST bytes (list Z) :=
  match todo with
  | O => retS path
  | S t =>
      let* j := below (Z.of_nat (length others) - Z.of_nat i) in
      let others := swap i (i + Z.to_nat j) others in
      rest_loop t (S i) others (path ++ [others !!! i])
  end.

Definition others_of (entry n : Z) : list Z := List.filter (fun i => negb (i =? entry)) (seqZ 0 n).

Definition ChooseRest (entry n hops : Z) : ST bytes (list Z) :=
  if (hops <? 1) || (n <? hops) || (entry <? 0) || (n <=? entry) then failS (Sentinel client_ErrChoice)
  else rest_loop (Z.to_nat (hops - 1)) 0 (others_of entry n) [entry].

Definition Choose (n hops : Z) : ST bytes (list Z) :=
  if (hops <? 1) || (n <? hops) then failS (Sentinel client_ErrChoice)
  else
    let* entry := ChooseEntry n in
    ChooseRest entry n hops.

Definition MaxAbsent (n hops missing : Z) : Z := Z.min missing (i64 (n - hops)).

Inductive MirrorVerdict : Type := MirrorTaken | MirrorLacksEntry | MirrorLacksTooMany.

#[export] Instance MirrorVerdict_eq_decision : EqDecision MirrorVerdict.
Proof. solve_decision. Defined.

Definition count_absent (served : list bool) : Z :=
  foldl (fun absent held => if negb held then absent + 1 else absent) 0 served.

Definition JudgeMirror (served : list bool) (entry hops missing : Z) : MirrorVerdict * Z * Z :=
  let absent := count_absent served in
  let allowed := MaxAbsent (Z.of_nat (length served)) hops missing in
  if (entry <? 0) || (Z.of_nat (length served) <=? entry) || negb (served !!! Z.to_nat entry)
  then (MirrorLacksEntry, absent, allowed)
  else if allowed <? absent then (MirrorLacksTooMany, absent, allowed)
  else (MirrorTaken, absent, allowed).

(** ** One draw *)

(** [v] is a value [below m] takes, and it gives [j]. *)
Definition accepted (m v j : Z) : Prop := reject m <= v < 2 ^ 64 /\ v mod m = j.

Lemma reject_mod m : 1 <= m < 2 ^ 63 -> reject m = 2 ^ 64 mod m.
Proof.
  intros H. unfold reject, u64.
  replace (- m) with (2 ^ 64 - m + (-1) * 2 ^ 64) by lia.
  rewrite Z.mod_add, (Z.mod_small (2 ^ 64 - m)) by lia.
  replace (2 ^ 64 - m) with (2 ^ 64 + (-1) * m) by lia. apply Z.mod_add. lia.
Qed.

Lemma below_loop_takes fuel m v j rest w :
  accepted m v j -> 1 <= m < 2 ^ 63 -> below_loop (S fuel) m (be 8 v ++ rest) w = ((Ok j, rest), w).
Proof.
  intros [[Hr Hv] <-] Hm. cbn [below_loop]. unfold bindS, errS, read8.
  assert (0 <= v) by (unfold reject in Hr; pose proof (Z.mod_pos_bound (u64 (- m)) m ltac:(lia)); lia).
  rewrite length_app, length_be, take_app_length', drop_app_length' by done.
  cbn [Nat.add Nat.leb]. rewrite unbe_be_small by lia. by rewrite (proj2 (Z.leb_le _ _)).
Qed.

Lemma read8_ok s w v s' w' : read8 s w = ((Ok v, s'), w') ->
  s = be 8 v ++ s' /\ 0 <= v < 2 ^ 64 /\ w' = w.
Proof.
  unfold read8. destruct (Nat.leb_spec 8 (length s)) as [Hl|]; [|discriminate]. intros [= <- <- <-].
  assert (length (take 8 s) = 8%nat) as H8 by (rewrite length_take; lia).
  rewrite be_unbe, take_drop by done. split_and!; try done; pose proof (unbe_bound (take 8 s)) as B; rewrite H8 in B; lia.
Qed.

Lemma below_loop_ok fuel m s w j s' w' : below_loop fuel m s w = ((Ok j, s'), w') ->
  w' = w /\ exists v skipped, accepted m v j /\ s = skipped ++ be 8 v ++ s' /\ (length skipped + 8 <= fuel * 8)%nat.
Proof.
  revert s. induction fuel as [|fuel IH]; intros s H; [discriminate|]. cbn [below_loop] in H.
  apply bindS_ok in H as (v & s1 & w1 & (-> & Hv & ->)%errS_ok%read8_ok & H).
  destruct (Z.leb_spec (reject m) v).
  - apply retS_ok in H as (-> & -> & ->). split; [done|]. exists v, []. split_and!; [split; [lia|done] | done | simpl; lia].
  - apply IH in H as (-> & v' & sk & Hv' & -> & Hl). split; [done|]. exists v', (be 8 v ++ sk).
    split_and!; [done | by rewrite <- !app_assoc | rewrite length_app, length_be; lia].
Qed.

(** What a draw does to the source: it leaves a suffix of it, and takes at most
    [fuel] values. *)
Lemma below_loop_reads fuel m s w : exists r s',
  below_loop fuel m s w = ((r, s'), w) /\ s' `suffix_of` s /\ (length s <= length s' + fuel * 8)%nat /\
  ((fuel * 8 <= length s)%nat -> forall e, r = Err e -> e = Sentinel client_ErrChoice).
Proof.
  revert s. induction fuel as [|fuel IH]; intros s.
  - exists (Err (Sentinel client_ErrChoice)), s. split_and!; try done; [lia|]. intros _ e. by intros [= <-].
  - cbn [below_loop]. unfold bindS at 1, errS, read8. destruct (Nat.leb_spec 8 (length s)) as [Hl|Hl].
    + cbn [fst snd]. destruct (reject m <=? unbe (take 8 s)).
      * unfold retS. eexists _, _. split; [done|]. split_and!; [|rewrite length_drop; lia | discriminate].
        exists (take 8 s). by rewrite take_drop.
      * destruct (IH (drop 8 s)) as (r & s' & -> & Hs & Hn & He). eexists _, _. split; [done|].
        rewrite length_drop in Hn, He. split_and!; [|lia|].
        -- transitivity (drop 8 s); [done|]. exists (take 8 s). by rewrite take_drop.
        -- intros Hle. apply He. lia.
    + eexists _, _. split; [done|]. split_and!; [by eexists; rewrite app_nil_r | simpl; lia | lia].
Qed.

(** Every value [below m] gives comes from equally many 64-bit values: the [k]th
    of the [2^64 / m] that give [j]. *)
Definition kth (m j k : Z) : Z := reject m + (j - reject m) mod m + k * m.

(** A draw below [m] is fair: each value from 0 to [m - 1] is given by
    exactly [2^64 / m] of the 64-bit values the source may give, so a uniform
    source gives each equally often; what is rejected is fewer than [m] values. *)
Theorem below_fair m j v : 1 <= m < 2 ^ 63 -> 0 <= j < m ->
  (accepted m v j <-> exists k, 0 <= k < 2 ^ 64 / m /\ v = kth m j k) /\
  (forall k k', kth m j k = kth m j k' -> k = k') /\ 0 <= reject m < m.
Proof.
  intros Hm Hj. pose proof (reject_mod m Hm) as Er. pose proof (Z.mod_pos_bound (2 ^ 64) m ltac:(lia)) as Br.
  pose proof (Z.div_mod (2 ^ 64) m ltac:(lia)) as Eq. rewrite <- Er in *. unfold accepted, kth.
  set (r := reject m) in *. set (q := 2 ^ 64 / m) in *.
  pose proof (Z.mod_pos_bound (j - r) m ltac:(lia)) as Bd. set (d := (j - r) mod m) in *.
  assert (Hd : (r + d) mod m = j).
  { unfold d. rewrite Zplus_mod_idemp_r. replace (r + (j - r)) with j by lia. by apply Z.mod_small. }
  split_and!; [|nia|lia|lia]. split.
  - intros [Hv Ev]. exists ((v - r) / m).
    assert (Ed : (v - r) mod m = d) by (unfold d; rewrite <- Ev, Zminus_mod_idemp_l; done).
    pose proof (Z.div_mod (v - r) m ltac:(lia)). rewrite Ed in *.
    split; [|lia]. split; [apply Z.div_pos; lia | apply Z.div_lt_upper_bound; nia].
  - intros (k & Hk & ->). split; [nia|]. by rewrite Z.mod_add by lia.
Qed.

(** ** The shuffle *)

Lemma length_swap i j l : length (swap i j l) = length l.
Proof. unfold swap. by rewrite !length_insert. Qed.

(** The loop works on the part of [others] it has not passed. *)
Fixpoint shuffle (js : list nat) (pool : list Z) : list Z :=
  match js with
  | [] => []
  | j :: rest => (pool !!! j) :: shuffle rest (drop 1 (swap 0 j pool))
  end.

(** Each index is below what is left to draw from. *)
Fixpoint indices_ok (m : nat) (js : list nat) : Prop :=
  match js with
  | [] => True
  | j :: rest => (j < m)%nat /\ indices_ok (m - 1) rest
  end.

Lemma drop_swap i j l : drop i (swap i (i + j) l) = swap 0 j (drop i l).
Proof.
  unfold swap. rewrite !drop_insert_ge by lia. rewrite !lookup_total_drop.
  do 2 f_equal; [lia | f_equal; lia | f_equal; lia].
Qed.

Lemma swap_head j pool : (j < length pool)%nat -> pool ≡ₚ (pool !!! j) :: drop 1 (swap 0 j pool).
Proof.
  destruct pool as [|x t]; [simpl; lia|]. destruct j as [|j]; intros Hj; [done|].
  destruct (lookup_lt_is_Some_2 t j) as [y Hy]; [simpl in Hj; lia|].
  unfold swap. rewrite (list_lookup_total_correct (x :: t) (S j) y) by done. cbn. rewrite drop_0.
  rewrite (insert_take_drop t j) by (simpl in Hj; lia). rewrite <- (take_drop_middle t j y Hy) at 1.
  rewrite <- !Permutation_middle. constructor.
Qed.

(** A draw without replacement: what was drawn, and what stays. *)
Lemma swap_draws j pool : NoDup pool -> (j < length pool)%nat ->
  (pool !!! j ∉ drop 1 (swap 0 j pool)) /\ NoDup (drop 1 (swap 0 j pool)) /\
  forall x, x ∈ pool <-> x = pool !!! j \/ x ∈ drop 1 (swap 0 j pool).
Proof.
  intros Hd Hj. pose proof (swap_head j pool Hj) as Hp. set (y := pool !!! j) in *.
  set (left := drop 1 (swap 0 j pool)) in *. clearbody y left.
  rewrite Hp in Hd. apply NoDup_cons in Hd as [Hn Hd]. split_and!; try done.
  intros x. rewrite Hp. apply elem_of_cons.
Qed.

Lemma swap_first i j l : (i + j < length l)%nat -> swap i (i + j) l !!! i = drop i l !!! j.
Proof.
  intros H. rewrite lookup_total_drop. unfold swap. destruct j as [|j].
  - rewrite Nat.add_0_r in *. by rewrite list_lookup_total_insert_eq by (rewrite length_insert; lia).
  - rewrite list_lookup_total_insert_ne by lia. by rewrite list_lookup_total_insert_eq by lia.
Qed.

Lemma shuffle_sound js pool : NoDup pool -> indices_ok (length pool) js ->
  NoDup (shuffle js pool) /\ shuffle js pool ⊆ pool /\ length (shuffle js pool) = length js.
Proof.
  revert pool. induction js as [|j js IH]; intros pool Hd Hok; cbn [shuffle indices_ok length] in *.
  { split_and!; [constructor | set_solver | done]. }
  destruct Hok as [Hj Hok]. destruct (swap_draws j pool Hd Hj) as (Hn & Hd' & Hx).
  destruct (IH (drop 1 (swap 0 j pool))) as (H1 & H2 & H3); [done | by rewrite length_drop, length_swap|].
  split_and!; [constructor; [set_solver | done] | | by rewrite H3].
  intros x. rewrite Hx. set_solver.
Qed.

Lemma shuffle_onto p pool : NoDup pool -> NoDup p -> p ⊆ pool ->
  exists js, length js = length p /\ indices_ok (length pool) js /\ shuffle js pool = p.
Proof.
  revert pool. induction p as [|x p IH]; intros pool Hd Hp Hs; [by exists []|].
  apply NoDup_cons in Hp as [Hx Hp]. destruct (list_elem_of_lookup_1 pool x) as [j Hj]; [set_solver|].
  pose proof (lookup_lt_Some _ _ _ Hj) as Hlt. destruct (swap_draws j pool Hd Hlt) as (Hn & Hd' & Hel).
  rewrite (list_lookup_total_correct _ _ _ Hj) in Hn, Hel.
  destruct (IH (drop 1 (swap 0 j pool))) as (js & Hl & Hok & E); [done | done | |].
  { intros y Hy. assert (y ∈ pool) as [-> | ?]%Hel by set_solver; done. }
  exists (j :: js). cbn [length indices_ok shuffle]. rewrite length_drop, length_swap in Hok.
  rewrite (list_lookup_total_correct _ _ _ Hj), E, Hl. done.
Qed.

Lemma shuffle_inj js js' pool : NoDup pool -> indices_ok (length pool) js -> indices_ok (length pool) js' ->
  shuffle js pool = shuffle js' pool -> js = js'.
Proof.
  revert js' pool. induction js as [|j js IH]; intros [|j' js'] pool Hd Hok Hok' E; try done.
  cbn [shuffle indices_ok] in *. destruct Hok as [Hj Hok], Hok' as [Hj' Hok']. injection E as Ej E.
  assert (j = j') as <-.
  { destruct (lookup_lt_is_Some_2 pool j Hj) as [x Hx], (lookup_lt_is_Some_2 pool j' Hj') as [y Hy].
    rewrite (list_lookup_total_correct _ _ _ Hx), (list_lookup_total_correct _ _ _ Hy) in Ej. subst y.
    by apply (NoDup_lookup pool j j' x). }
  f_equal. apply (IH _ (drop 1 (swap 0 j pool))); try done; try (by rewrite length_drop, length_swap).
  by destruct (swap_draws j pool Hd Hj) as (_ & ? & _).
Qed.

(** ** The draws of a path *)

(** Values that give these indices, each below what is left. *)
Fixpoint accepted_all (m : Z) (vs : list Z) (js : list nat) : Prop :=
  match vs, js with
  | [], [] => True
  | v :: vs', j :: js' => accepted m v (Z.of_nat j) /\ accepted_all (m - 1) vs' js'
  | _, _ => False
  end.

Definition stream (vs : list Z) : bytes := vs ≫= be 8.

Lemma rest_loop_takes vs js i others path rest w :
  accepted_all (Z.of_nat (length others) - Z.of_nat i) vs js -> indices_ok (length others - i) js ->
  Z.of_nat (length others) < 2 ^ 63 ->
  rest_loop (length js) i others path (stream vs ++ rest) w = ((Ok (path ++ shuffle js (drop i others)), rest), w).
Proof.
  revert vs i others path. induction js as [|j js IH]; intros [|v vs] i others path Ha Hok Hl; try done.
  { cbn. by rewrite app_nil_r. }
  cbn [accepted_all indices_ok] in *. destruct Ha as [Hv Ha], Hok as [Hj Hok]. cbn [rest_loop length].
  change (stream (v :: vs)) with (be 8 v ++ stream vs). rewrite <- app_assoc. unfold below, maxDraws.
  rewrite (bindS_eq _ _ _ _ _ _ _ (below_loop_takes _ _ v _ _ w Hv ltac:(lia))). rewrite Nat2Z.id.
  rewrite IH; rewrite ?length_swap; try done.
  - rewrite swap_first by lia. cbn [shuffle]. rewrite <- app_assoc. cbn [app].
    by rewrite <- drop_swap, drop_drop, Nat.add_1_r.
  - by replace (Z.of_nat (length others) - Z.of_nat (S i)) with (Z.of_nat (length others) - Z.of_nat i - 1) by lia.
  - by replace (length others - S i)%nat with (length others - i - 1)%nat by lia.
Qed.

Lemma elem_of_others x entry n : x ∈ others_of entry n <-> 0 <= x < n /\ x <> entry.
Proof.
  unfold others_of. rewrite list_elem_of_In, filter_In, <- list_elem_of_In, elem_of_seqZ, negb_true_iff, Z.eqb_neq.
  split; intros; split; lia.
Qed.

Lemma NoDup_others entry n : NoDup (others_of entry n).
Proof. unfold others_of. apply NoDup_ListNoDup, List.NoDup_filter, NoDup_ListNoDup, NoDup_seqZ. Qed.

Lemma length_others entry n : 0 <= entry < n -> length (others_of entry n) = Z.to_nat (n - 1).
Proof.
  intros H. assert (Hp : seqZ 0 n ≡ₚ entry :: others_of entry n).
  { apply NoDup_Permutation; [apply NoDup_seqZ | |].
    - constructor; [rewrite elem_of_others; lia | apply NoDup_others].
    - intros x. rewrite elem_of_cons, elem_of_others, elem_of_seqZ. destruct (Z.eq_dec x entry); lia. }
  apply Permutation_length in Hp. rewrite length_seqZ in Hp. simpl in Hp. lia.
Qed.

(** The paths of [hops] nodes among [n], in order. *)
Definition is_path (n hops : Z) (p : list Z) : Prop :=
  NoDup p /\ Forall (fun x => 0 <= x < n) p /\ Z.of_nat (length p) = hops.

(** The path that the indices draw. *)
Definition drawn (n : Z) (js : list nat) : list Z :=
  match js with
  | [] => []
  | e :: rest => Z.of_nat e :: shuffle rest (others_of (Z.of_nat e) n)
  end.

(** As many draws as hops, each below what is left. *)
Definition draws_ok (n hops : Z) (js : list nat) : Prop :=
  Z.of_nat (length js) = hops /\ indices_ok (Z.to_nat n) js.

Lemma draws_cons n hops js : 1 <= hops -> draws_ok n hops js ->
  exists e rest, js = e :: rest /\ 0 <= Z.of_nat e < n /\ Z.of_nat (length rest) = hops - 1 /\
    indices_ok (length (others_of (Z.of_nat e) n)) rest.
Proof.
  intros Hh [Hl Hok]. destruct js as [|e rest]; [simpl in Hl; lia|]. destruct Hok as [He Hok].
  exists e, rest. split; [done|]. assert (0 <= Z.of_nat e < n) by lia. split; [done|]. split; [simpl in Hl; lia|].
  rewrite length_others by done. by replace (Z.to_nat (n - 1)) with (Z.to_nat n - 1)%nat by lia.
Qed.

Lemma drawn_path n hops js : 1 <= hops -> draws_ok n hops js -> is_path n hops (drawn n js).
Proof.
  intros Hh (e & rest & -> & He & Hl & Hok)%draws_cons; [|done].
  destruct (shuffle_sound rest _ (NoDup_others _ n) Hok) as (H1 & H2 & H3). cbn [drawn].
  split_and!; [constructor; [|done] | constructor; [done|] | simpl; lia].
  - intros Hin%H2. rewrite elem_of_others in Hin. lia.
  - apply Forall_forall. intros x Hx%H2. rewrite elem_of_others in Hx. tauto.
Qed.

Lemma drawn_onto n hops p : 1 <= hops -> is_path n hops p -> exists js, draws_ok n hops js /\ drawn n js = p.
Proof.
  intros Hh (Hd & Hr & Hl). destruct p as [|x p]; [simpl in Hl; lia|].
  apply NoDup_cons in Hd as [Hx Hd]. apply Forall_cons in Hr as [Hxr Hr].
  destruct (shuffle_onto p (others_of x n) (NoDup_others x n) Hd) as (js & Hjl & Hok & E).
  { intros y Hy. rewrite elem_of_others. split; [by eapply (proj1 (Forall_forall _ _) Hr)|]. by intros ->. }
  exists (Z.to_nat x :: js). unfold draws_ok. cbn [drawn indices_ok length]. rewrite Z2Nat.id, E by lia.
  rewrite length_others in Hok by done. replace (Z.to_nat (n - 1)) with (Z.to_nat n - 1)%nat in Hok by lia.
  split_and!; try done; [simpl in Hl; lia | lia].
Qed.

Lemma drawn_inj n hops js js' : 1 <= hops -> draws_ok n hops js -> draws_ok n hops js' ->
  drawn n js = drawn n js' -> js = js'.
Proof.
  intros Hh (e & r & -> & He & Hl & Hok)%draws_cons (e' & r' & -> & He' & Hl' & Hok')%draws_cons; try done.
  cbn [drawn]. intros [= <-%(inj Z.of_nat) E]. f_equal. by apply (shuffle_inj r r' (others_of (Z.of_nat e) n) (NoDup_others _ n)).
Qed.

Lemma Choose_takes n hops js vs rest w : 1 <= hops <= n -> n < 2 ^ 63 -> draws_ok n hops js ->
  accepted_all n vs js -> Choose n hops (stream vs ++ rest) w = ((Ok (drawn n js), rest), w).
Proof.
  intros Hh Hn (e & r & -> & He & Hl & Hok)%draws_cons Ha; [|lia].
  destruct vs as [|v vs]; [done|]. destruct Ha as [Hv Ha]. unfold Choose, ChooseEntry, below, maxDraws.
  rewrite (proj2 (Z.ltb_ge hops 1)), (proj2 (Z.ltb_ge n hops)), (proj2 (Z.ltb_ge n 1)) by lia. cbn [orb].
  change (stream (v :: vs)) with (be 8 v ++ stream vs). rewrite <- app_assoc.
  rewrite (bindS_eq _ _ _ _ _ _ _ (below_loop_takes _ n v _ _ w Hv ltac:(lia))). unfold ChooseRest.
  rewrite (proj2 (Z.ltb_ge hops 1)), (proj2 (Z.ltb_ge n hops)), (proj2 (Z.ltb_ge (Z.of_nat e) 0)),
    (proj2 (Z.leb_gt n (Z.of_nat e))) by lia. cbn [orb].
  replace (Z.to_nat (hops - 1)) with (length r) by lia. pose proof (length_others (Z.of_nat e) n He) as Ho.
  rewrite rest_loop_takes; [done| | |].
  - rewrite Ho. by replace (Z.of_nat (Z.to_nat (n - 1)) - Z.of_nat 0) with (n - 1) by lia.
  - by rewrite Nat.sub_0_r.
  - lia.
Qed.

(** C35. Every ordered path is drawn equally often: the index sequences, each
    index below what is left to draw from, are in bijection with the ordered
    paths of [hops] different nodes among [n], and [Choose] gives the path of
    the indices its source draws; each index comes from one accepted value, and
    takes only that value off the source. *)
Theorem choose_fair n hops : 1 <= hops <= n -> n < 2 ^ 63 ->
  (forall js, draws_ok n hops js -> is_path n hops (drawn n js)) /\
  (forall p, is_path n hops p -> exists js, draws_ok n hops js /\ drawn n js = p /\
     forall js', draws_ok n hops js' -> drawn n js' = p -> js' = js) /\
  (forall js vs rest w, draws_ok n hops js -> accepted_all n vs js ->
     Choose n hops (stream vs ++ rest) w = ((Ok (drawn n js), rest), w)).
Proof.
  intros Hh Hn. split_and!.
  - intros js. apply drawn_path. lia.
  - intros p Hp. destruct (drawn_onto n hops p) as (js & Hok & E); [lia | done |].
    exists js. split_and!; try done. intros js' Hok' <-. by apply (drawn_inj n hops); [lia|..].
  - intros. by apply Choose_takes.
Qed.

(** ** It ends *)

(** A computation on the source that takes at most [n] bytes, ends the way [ok]
    says, and given as many bytes fails only with [ErrChoice]. *)
Definition takes_at_most {A} (n : nat) (m : ST bytes A) (ok : A -> Prop) : Prop :=
  forall s w, exists r s', m s w = ((r, s'), w) /\ s' `suffix_of` s /\ (length s <= length s' + n)%nat /\
    ((n <= length s)%nat -> forall e, r = Err e -> e = Sentinel client_ErrChoice) /\
    (forall a, r = Ok a -> ok a).

Definition draw_cost : nat := maxDraws * 8.

Lemma below_takes m : 1 <= m < 2 ^ 63 -> takes_at_most draw_cost (below m) (fun j => 0 <= j < m).
Proof.
  intros Hm s w. unfold below. destruct (below_loop_reads maxDraws m s w) as (r & s' & E & H1 & H2 & H3).
  exists r, s'. split_and!; try done. intros j ->. apply below_loop_ok in E as (_ & v & sk & [_ <-] & _).
  apply Z.mod_pos_bound. lia.
Qed.

Lemma takes_ret {A} (a : A) (ok : A -> Prop) n : ok a -> takes_at_most n (retS a) ok.
Proof. intros H s w. eexists _, _. split; [done|]. split_and!; [done | lia | done | by intros ? [= <-]]. Qed.

Lemma takes_bind {A B} n1 n2 (m : ST bytes A) (k : A -> ST bytes B) ok1 ok2 :
  takes_at_most n1 m ok1 -> (forall a, ok1 a -> takes_at_most n2 (k a) ok2) ->
  takes_at_most (n1 + n2) (let* a := m in k a) ok2.
Proof.
  intros Hm Hk s w. destruct (Hm s w) as ([a|e] & s1 & E & S1 & L1 & F1 & O1); unfold bindS; rewrite E.
  - destruct (Hk a (O1 a eq_refl) s1 w) as (r & s2 & E2 & S2 & L2 & F2 & O2). exists r, s2.
    pose proof (suffix_length _ _ S1). split_and!; try done; [by transitivity s1 | lia|]. intros. apply F2; [lia | done].
  - exists (Err e), s1. split_and!; try done; [lia|]. intros Hn e' [= <-]. apply F1; [lia | done].
Qed.

Lemma rest_loop_ends todo i others path : (todo + i <= length others)%nat -> Z.of_nat (length others) < 2 ^ 63 ->
  takes_at_most (todo * draw_cost) (rest_loop todo i others path) (fun p => exists js,
    length js = todo /\ indices_ok (length others - i) js /\ p = path ++ shuffle js (drop i others)).
Proof.
  revert i others path. induction todo as [|todo IH]; intros i others path Hl Hn.
  - apply takes_ret. exists []. cbn. by rewrite app_nil_r.
  - cbn [rest_loop Nat.mul]. eapply takes_bind; [apply below_takes; lia|]. intros j Hj. cbn beta in Hj.
    set (others' := swap i (i + Z.to_nat j) others) in *.
    assert (Hl' : length others' = length others) by apply length_swap.
    intros s w. destruct (IH (S i) others' (path ++ [others' !!! i]) ltac:(lia) ltac:(lia) s w)
      as (r & s' & E & H1 & H2 & H3 & H4). exists r, s'. split_and!; try done.
    intros p Hp. destruct (H4 p Hp) as (js & Hjl & Hok & ->). exists (Z.to_nat j :: js). split_and!.
    + by rewrite <- Hjl.
    + split; [lia|]. rewrite Hl' in Hok. by replace (length others - i - 1)%nat with (length others - S i)%nat by lia.
    + unfold others'. rewrite swap_first by lia. cbn [shuffle]. rewrite <- app_assoc. cbn [app].
      by rewrite <- drop_swap, drop_drop, Nat.add_1_r.
Qed.

Lemma ChooseRest_ends entry n hops : 1 <= hops <= n -> n < 2 ^ 63 -> 0 <= entry < n ->
  takes_at_most (Z.to_nat (hops - 1) * draw_cost) (ChooseRest entry n hops)
    (fun p => is_path n hops p /\ head p = Some entry).
Proof.
  intros Hh Hn He s w. unfold ChooseRest.
  rewrite (proj2 (Z.ltb_ge hops 1)), (proj2 (Z.ltb_ge n hops)), (proj2 (Z.ltb_ge entry 0)),
    (proj2 (Z.leb_gt n entry)) by lia. cbn [orb]. pose proof (length_others entry n He) as Ho.
  destruct (rest_loop_ends (Z.to_nat (hops - 1)) 0 (others_of entry n) [entry] ltac:(lia) ltac:(lia) s w)
    as (r & s' & E & H1 & H2 & H3 & H4). exists r, s'. split_and!; try done.
  intros p Hp. destruct (H4 p Hp) as (js & Hl & Hok & ->). rewrite Nat.sub_0_r in Hok. split; [|done].
  rewrite <- (Z2Nat.id entry) by lia. apply (drawn_path n hops (Z.to_nat entry :: js)); [lia|].
  unfold draws_ok. cbn [length indices_ok]. replace (Z.to_nat n - 1)%nat with (length (others_of entry n)) by lia.
  split; [lia|]. split; [lia | done].
Qed.

(** The choice of a path always ends: whatever the source gives, at most
    [hops * 128] values are read off it, also when every one of them has to be
    rejected; a path that comes out has [hops] different nodes of the list, and
    a source that does not run dry leaves [ErrChoice] as the only failure.  A
    length no path can have is refused before anything is read. *)
Theorem choose_ends n hops : n < 2 ^ 63 ->
  (1 <= hops <= n -> takes_at_most (Z.to_nat hops * draw_cost) (Choose n hops) (is_path n hops)) /\
  (~ (1 <= hops <= n) -> forall s w, Choose n hops s w = ((Err (Sentinel client_ErrChoice), s), w)).
Proof.
  intros Hn. split.
  - intros Hh. replace (Z.to_nat hops) with (1 + Z.to_nat (hops - 1))%nat by lia. rewrite Nat.mul_add_distr_r.
    intros s w. unfold Choose. rewrite (proj2 (Z.ltb_ge hops 1)), (proj2 (Z.ltb_ge n hops)) by lia. cbn [orb].
    revert s w. apply (takes_bind (1 * draw_cost) _ _ _ (fun e => 0 <= e < n)).
    + rewrite Nat.mul_1_l. unfold ChooseEntry. rewrite (proj2 (Z.ltb_ge n 1)) by lia. apply below_takes. lia.
    + intros e He s w. destruct (ChooseRest_ends e n hops Hh Hn He s w) as (r & s' & E & H1 & H2 & H3 & H4).
      exists r, s'. split_and!; try done. intros p Hp. by apply (H4 p Hp).
  - intros Hh s w. unfold Choose. destruct (Z.ltb_spec hops 1); [done|]. destruct (Z.ltb_spec n hops); [done | lia].
Qed.

(** ** The mirror of the entry *)

Lemma count_absent_spec served : count_absent served = Z.of_nat (length served) - Z.of_nat (length (List.filter id served)).
Proof.
  unfold count_absent.
  enough (forall z, foldl (fun absent held => if negb held then absent + 1 else absent) z served =
    z + Z.of_nat (length served) - Z.of_nat (length (List.filter id served))) as -> by lia.
  induction served as [|[] served IH]; intros z; cbn [foldl negb List.filter id length]; rewrite ?IH; cbn [length]; lia.
Qed.

(** What a client takes from its entry: exactly the mirror that holds the
    entry itself and lacks no more of the listed nodes than was allowed, and such
    a mirror still holds enough of them for the whole path; of two faults the
    missing entry is the one named. *)
Theorem mirror_judged served entry hops missing : 1 <= hops <= Z.of_nat (length served) ->
  Z.of_nat (length served) < 2 ^ 63 ->
  let '(v, absent, allowed) := JudgeMirror served entry hops missing in
  let held := Z.of_nat (length (List.filter id served)) in
  absent + held = Z.of_nat (length served) /\ allowed = Z.min missing (Z.of_nat (length served) - hops) /\
  (v = MirrorTaken <-> (0 <= entry /\ served !! Z.to_nat entry = Some true) /\ absent <= allowed) /\
  (v = MirrorLacksEntry <-> ~ (0 <= entry /\ served !! Z.to_nat entry = Some true)) /\
  (v = MirrorTaken -> hops <= held).
Proof.
  intros Hh Hn. unfold JudgeMirror, MaxAbsent. rewrite count_absent_spec.
  set (len := Z.of_nat (length served)) in *. set (held := Z.of_nat (length (List.filter id served))).
  assert (Ei : i64 (len - hops) = len - hops) by (unfold i64; rewrite Z.mod_small; lia). rewrite Ei.
  destruct ((entry <? 0) || (len <=? entry) || negb (served !!! Z.to_nat entry)) eqn:E.
  - assert (Hno : ~ (0 <= entry /\ served !! Z.to_nat entry = Some true)).
    { intros [H0 H]. rewrite (list_lookup_total_correct _ _ _ H) in E. apply lookup_lt_Some in H.
      rewrite (proj2 (Z.ltb_ge _ _)), (proj2 (Z.leb_gt _ _)) in E by lia. discriminate. }
    split_and!; try lia; [|tauto|discriminate]. split; [discriminate|tauto].
  - rewrite !orb_false_iff, negb_false_iff, Z.ltb_ge, Z.leb_gt in E. destruct E as [[H0 H1] H2].
    assert (Hyes : served !! Z.to_nat entry = Some true).
    { destruct (lookup_lt_is_Some_2 served (Z.to_nat entry)) as [b Hb]; [lia|].
      by rewrite (list_lookup_total_correct _ _ _ Hb) in H2; subst b. }
    destruct (Z.ltb_spec (Z.min missing (len - hops)) (len - held)).
    + split_and!; try lia; [split; [discriminate | lia] | split; [discriminate | tauto] | discriminate].
    + split_and!; try lia; [tauto | split; [discriminate | tauto]].
Qed.

(** ** Witnesses *)

Lemma below_fair_witness :
  (accepted 6 (6 * 1000 + 4 + 2) 0 <-> exists k, 0 <= k < 2 ^ 64 / 6 /\ 6 * 1000 + 4 + 2 = kth 6 0 k) /\
  accepted 6 (6 * 1000 + 4 + 2) 0.
Proof.
  split; [|vm_compute; split; [split; [discriminate | reflexivity] | reflexivity]].
  exact (proj1 (below_fair 6 0 (6 * 1000 + 4 + 2) ltac:(lia) ltac:(lia))).
Defined.

Lemma choose_fair_witness :
  is_path 5 3 [3; 0; 4] /\
  (forall w, Choose 5 3 (stream [1003; 1004; 1001] ++ [x2a]) w = ((Ok [3; 0; 4], [x2a]), w)) /\
  exists js, draws_ok 5 3 js /\ drawn 5 js = [3; 0; 4].
Proof.
  destruct (choose_fair 5 3 ltac:(lia) ltac:(lia)) as (H1 & H2 & H3).
  assert (draws_ok 5 3 [3; 0; 2]%nat) as Hd by (vm_compute; repeat split; lia).
  pose proof (H1 _ Hd) as Hp. split; [exact Hp|]. split.
  - intros w. apply (H3 [3; 0; 2]%nat [1003; 1004; 1001] [x2a] w Hd).
    repeat split; vm_compute; first [discriminate | reflexivity].
  - destruct (H2 [3; 0; 4] Hp) as (js & Hjs & E & _). exists js. split; [exact Hjs | exact E].
Defined.

Lemma choose_ends_witness :
  takes_at_most (3 * draw_cost) (Choose 5 3) (is_path 5 3) /\
  forall s w, Choose 2 3 s w = ((Err (Sentinel client_ErrChoice), s), w).
Proof.
  split.
  - exact (proj1 (choose_ends 5 3 ltac:(lia)) ltac:(lia)).
  - exact (proj2 (choose_ends 2 3 ltac:(lia)) ltac:(lia)).
Defined.

Lemma mirror_judged_witness :
  JudgeMirror [true; false; true] 0 2 1 = (MirrorTaken, 1, 1) /\ 2 <= Z.of_nat (length (List.filter id [true; false; true])).
Proof.
  pose proof (mirror_judged [true; false; true] 0 2 1 ltac:(simpl; lia) ltac:(simpl; lia)) as H.
  change (JudgeMirror [true; false; true] 0 2 1) with (MirrorTaken, 1, 1) in H |- *.
  destruct H as (_ & _ & _ & _ & H). split; [reflexivity | exact (H eq_refl)].
Defined.
