(* ===== verification/Client.v ===== *)
(** * Client: the circuit a client builds, its sends, its replies and its end

    Models [src/client/client.go].  [Dial] is a computation over the world and the
    connection the dialler answers with; after it the client is a state machine.
    A call of [send], the goroutine that receives, the ticker of the schedule or of
    the cover cells and a call of [Close] are threads; a step of the machine is what
    one of them does between two points where another may come in: taking the send
    lock, counting a cell, writing it, reading a cell, judging it.  Whoever uses the
    circuit keys is one of the sends or the receiver, which is what the code counts in
    [busy].  What time does is left to the order of the steps. *)

From Stdlib Require Import Strings.Byte Strings.String.
From S2P Require Import Prelude Effects State Crypto C25519 Toy Cell Replay Onion Chain Setup Link.

(** ** What a client is built from *)

Record Node : Type := {
  nd_Addr : bytes;
  nd_StaticPub : bytes;
  nd_LinkPub : bytes
}.

#[export] Instance Node_inhabited : Inhabited Node :=
  populate {| nd_Addr := []; nd_StaticPub := []; nd_LinkPub := [] |}.

Definition linkKey (n : Node) : bytes := if (length (nd_LinkPub n) =? 0)%nat then nd_StaticPub n else nd_LinkPub n.

Inductive Mode : Type := Immediate | ConstantRate.

#[export] Instance Mode_eq_decision : EqDecision Mode.
Proof. solve_decision. Defined.

Record Config : Type := {
  cf_Chain : list Node;
  cf_Mode : Mode;
  cf_Rate : Z;
  cf_CoverRate : Z;
  cf_Jitter : Z
}.

Definition repliesCap : nat := 64.
Definition queueCap : nat := 256.

(** Where a call of [send] stands: in its delay, behind the send lock with
    [closed] looked at, or with its cell counted and not yet written. *)
Inductive Sending : Type :=
| Delaying (cover : bool) (payload : bytes)
| Locked (cover : bool) (payload : bytes)
| Sealed (n : Z) (cell : Cell).

(** Where the goroutine that receives stands; [want] is the number it waits for. *)
Inductive Receiving : Type :=
| Reading (want : Z)
| Opening (want : Z) (cell : Cell)
| Ended.

(** The goroutine of [startSchedule] or [startCover]. *)
Inductive Ticking : Type := NoTicker | TickIdle | TickSends | TickStopped.

(** How far [Close] has come. *)
Inductive Closing : Type := Living | ClosesLink | StopsTicker | WaitsBusy | Closed.

#[export] Instance Closing_eq_decision : EqDecision Closing.
Proof. solve_decision. Defined.

(** [cl_lock] is who holds the send lock, [cl_closed] whether [Close] was called,
    which is [closed] of the code; a key is [None] once released. *)
Record Client : Type := {
  cl_cfg : Config;
  cl_link : Link;
  cl_circuit : Circuit;
  cl_keys : list (option bytes);
  cl_replies : list bytes;
  cl_queue : list bytes;
  cl_dropped : Z;
  cl_inbound : Z;
  cl_maxPayload : Z;
  cl_refused : option error;
  cl_sent : Z;
  cl_lock : option nat;
  cl_sends : gmap nat Sending;
  cl_recv : Receiving;
  cl_ticker : Ticking;
  cl_closing : Closing
}.

Definition cl_closed (c : Client) : bool := negb (bool_decide (cl_closing c = Living)).

(** The ticker's own sends run under this name. *)
Definition tickTid : nat := 0.

(** Updates of one field. *)

Definition set_link (v : Link) (c : Client) : Client :=
  {| cl_cfg := cl_cfg c; cl_link := v; cl_circuit := cl_circuit c; cl_keys := cl_keys c;
     cl_replies := cl_replies c; cl_queue := cl_queue c; cl_dropped := cl_dropped c;
     cl_inbound := cl_inbound c; cl_maxPayload := cl_maxPayload c; cl_refused := cl_refused c;
     cl_sent := cl_sent c; cl_lock := cl_lock c; cl_sends := cl_sends c; cl_recv := cl_recv c;
     cl_ticker := cl_ticker c; cl_closing := cl_closing c |}.

Definition set_circuit (v : Circuit) (c : Client) : Client :=
  {| cl_cfg := cl_cfg c; cl_link := cl_link c; cl_circuit := v; cl_keys := cl_keys c;
     cl_replies := cl_replies c; cl_queue := cl_queue c; cl_dropped := cl_dropped c;
     cl_inbound := cl_inbound c; cl_maxPayload := cl_maxPayload c; cl_refused := cl_refused c;
     cl_sent := cl_sent c; cl_lock := cl_lock c; cl_sends := cl_sends c; cl_recv := cl_recv c;
     cl_ticker := cl_ticker c; cl_closing := cl_closing c |}.

Definition set_keys (v : list (option bytes)) (c : Client) : Client :=
  {| cl_cfg := cl_cfg c; cl_link := cl_link c; cl_circuit := cl_circuit c; cl_keys := v;
     cl_replies := cl_replies c; cl_queue := cl_queue c; cl_dropped := cl_dropped c;
     cl_inbound := cl_inbound c; cl_maxPayload := cl_maxPayload c; cl_refused := cl_refused c;
     cl_sent := cl_sent c; cl_lock := cl_lock c; cl_sends := cl_sends c; cl_recv := cl_recv c;
     cl_ticker := cl_ticker c; cl_closing := cl_closing c |}.

Definition set_replies (v : list bytes) (c : Client) : Client :=
  {| cl_cfg := cl_cfg c; cl_link := cl_link c; cl_circuit := cl_circuit c; cl_keys := cl_keys c;
     cl_replies := v; cl_queue := cl_queue c; cl_dropped := cl_dropped c; cl_inbound := cl_inbound c;
     cl_maxPayload := cl_maxPayload c; cl_refused := cl_refused c; cl_sent := cl_sent c; cl_lock := cl_lock c;
     cl_sends := cl_sends c; cl_recv := cl_recv c; cl_ticker := cl_ticker c; cl_closing := cl_closing c |}.

Definition set_queue (v : list bytes) (c : Client) : Client :=
  {| cl_cfg := cl_cfg c; cl_link := cl_link c; cl_circuit := cl_circuit c; cl_keys := cl_keys c;
     cl_replies := cl_replies c; cl_queue := v; cl_dropped := cl_dropped c; cl_inbound := cl_inbound c;
     cl_maxPayload := cl_maxPayload c; cl_refused := cl_refused c; cl_sent := cl_sent c; cl_lock := cl_lock c;
     cl_sends := cl_sends c; cl_recv := cl_recv c; cl_ticker := cl_ticker c; cl_closing := cl_closing c |}.

Definition set_dropped (v : Z) (c : Client) : Client :=
  {| cl_cfg := cl_cfg c; cl_link := cl_link c; cl_circuit := cl_circuit c; cl_keys := cl_keys c;
     cl_replies := cl_replies c; cl_queue := cl_queue c; cl_dropped := v; cl_inbound := cl_inbound c;
     cl_maxPayload := cl_maxPayload c; cl_refused := cl_refused c; cl_sent := cl_sent c; cl_lock := cl_lock c;
     cl_sends := cl_sends c; cl_recv := cl_recv c; cl_ticker := cl_ticker c; cl_closing := cl_closing c |}.

Definition set_refused (v : option error) (c : Client) : Client :=
  {| cl_cfg := cl_cfg c; cl_link := cl_link c; cl_circuit := cl_circuit c; cl_keys := cl_keys c;
     cl_replies := cl_replies c; cl_queue := cl_queue c; cl_dropped := cl_dropped c;
     cl_inbound := cl_inbound c; cl_maxPayload := cl_maxPayload c; cl_refused := v; cl_sent := cl_sent c;
     cl_lock := cl_lock c; cl_sends := cl_sends c; cl_recv := cl_recv c; cl_ticker := cl_ticker c;
     cl_closing := cl_closing c |}.

Definition set_sent (v : Z) (c : Client) : Client :=
  {| cl_cfg := cl_cfg c; cl_link := cl_link c; cl_circuit := cl_circuit c; cl_keys := cl_keys c;
     cl_replies := cl_replies c; cl_queue := cl_queue c; cl_dropped := cl_dropped c;
     cl_inbound := cl_inbound c; cl_maxPayload := cl_maxPayload c; cl_refused := cl_refused c; cl_sent := v;
     cl_lock := cl_lock c; cl_sends := cl_sends c; cl_recv := cl_recv c; cl_ticker := cl_ticker c;
     cl_closing := cl_closing c |}.

Definition set_lock (v : option nat) (c : Client) : Client :=
  {| cl_cfg := cl_cfg c; cl_link := cl_link c; cl_circuit := cl_circuit c; cl_keys := cl_keys c;
     cl_replies := cl_replies c; cl_queue := cl_queue c; cl_dropped := cl_dropped c;
     cl_inbound := cl_inbound c; cl_maxPayload := cl_maxPayload c; cl_refused := cl_refused c;
     cl_sent := cl_sent c; cl_lock := v; cl_sends := cl_sends c; cl_recv := cl_recv c;
     cl_ticker := cl_ticker c; cl_closing := cl_closing c |}.

Definition set_sends (v : gmap nat Sending) (c : Client) : Client :=
  {| cl_cfg := cl_cfg c; cl_link := cl_link c; cl_circuit := cl_circuit c; cl_keys := cl_keys c;
     cl_replies := cl_replies c; cl_queue := cl_queue c; cl_dropped := cl_dropped c;
     cl_inbound := cl_inbound c; cl_maxPayload := cl_maxPayload c; cl_refused := cl_refused c;
     cl_sent := cl_sent c; cl_lock := cl_lock c; cl_sends := v; cl_recv := cl_recv c; cl_ticker := cl_ticker c;
     cl_closing := cl_closing c |}.

Definition set_recv (v : Receiving) (c : Client) : Client :=
  {| cl_cfg := cl_cfg c; cl_link := cl_link c; cl_circuit := cl_circuit c; cl_keys := cl_keys c;
     cl_replies := cl_replies c; cl_queue := cl_queue c; cl_dropped := cl_dropped c;
     cl_inbound := cl_inbound c; cl_maxPayload := cl_maxPayload c; cl_refused := cl_refused c;
     cl_sent := cl_sent c; cl_lock := cl_lock c; cl_sends := cl_sends c; cl_recv := v;
     cl_ticker := cl_ticker c; cl_closing := cl_closing c |}.

Definition set_ticker (v : Ticking) (c : Client) : Client :=
  {| cl_cfg := cl_cfg c; cl_link := cl_link c; cl_circuit := cl_circuit c; cl_keys := cl_keys c;
     cl_replies := cl_replies c; cl_queue := cl_queue c; cl_dropped := cl_dropped c;
     cl_inbound := cl_inbound c; cl_maxPayload := cl_maxPayload c; cl_refused := cl_refused c;
     cl_sent := cl_sent c; cl_lock := cl_lock c; cl_sends := cl_sends c; cl_recv := cl_recv c; cl_ticker := v;
     cl_closing := cl_closing c |}.

Definition set_closing (v : Closing) (c : Client) : Client :=
  {| cl_cfg := cl_cfg c; cl_link := cl_link c; cl_circuit := cl_circuit c; cl_keys := cl_keys c;
     cl_replies := cl_replies c; cl_queue := cl_queue c; cl_dropped := cl_dropped c;
     cl_inbound := cl_inbound c; cl_maxPayload := cl_maxPayload c; cl_refused := cl_refused c;
     cl_sent := cl_sent c; cl_lock := cl_lock c; cl_sends := cl_sends c; cl_recv := cl_recv c;
     cl_ticker := cl_ticker c; cl_closing := v |}.

(** ** Dialling *)

(** [int64(v >> 1) % n] of eight random bytes. *)
Definition randomBelow (n : Z) : M Z :=
  if n <=? 0 then retM 0
  else let! b := rand_read 8 in retM (Z.rem (i64 (Z.shiftr (unbe b) 1)) n).

Definition randomCircuitID : M Z :=
  let! b := mwrap "client: random circuit id" (rand_read 8) in retM (unbe b).

Fixpoint randomLinks (n : nat) : M (list Z) :=
  match n with
  | O => retM []
  | S m => let! id := randomCircuitID in let! ids := randomLinks m in retM (id :: ids)
  end.

(** The chain as the setup cell takes it: a hop names its successor. *)
Fixpoint setupChain (chain : list Node) (links : list Z) : list SetupHop :=
  match chain, links with
  | node :: chain', id :: links' =>
      {| sh_StaticPub := nd_StaticPub node;
         sh_NextAddr := match chain' with next :: _ => nd_Addr next | [] => [] end;
         sh_NextCircuit := match chain', links' with _ :: _, id' :: _ => id' | _, _ => 0 end;
         sh_Link := id |} :: setupChain chain' links'
  | _, _ => []
  end.

Section Dialling.
Context {P : CryptoProvider}.

(** What [Dial] has before it opens a connection. *)
Record Prepared : Type := { pr_links : list Z; pr_setup : SetupResult; pr_circuit : Circuit }.

Definition prepare (cfg : Config) : M Prepared :=
  if (length (cf_Chain cfg) =? 0)%nat then failM (Other "client: empty chain")
  else
    let! size := PublicKeySize in
    let good n := (length (nd_StaticPub n) =? size)%nat && (length (linkKey n) =? size)%nat in
    if negb (forallb good (cf_Chain cfg)) then failM (Sentinel client_ErrNodeKey)
    else
      let! links := randomLinks (length (cf_Chain cfg)) in
      let! setup := BuildSetup (setupChain (cf_Chain cfg) links) in
      let! circuit := lift (NewCircuit (sr_CellKeys setup) (sr_Offsets setup) links) in
      retM {| pr_links := links; pr_setup := setup; pr_circuit := circuit |}.

Definition starts_ticker (cfg : Config) : Ticking :=
  if bool_decide (cf_Mode cfg = ConstantRate) && (0 <? cf_Rate cfg) then TickIdle
  else if 0 <? cf_CoverRate cfg then TickIdle
  else NoTicker.

Definition newClient (cfg : Config) (p : Prepared) (l : Link) : Client :=
  {| cl_cfg := cfg; cl_link := l; cl_circuit := pr_circuit p; cl_keys := Some <$> sr_CellKeys (pr_setup p);
     cl_replies := []; cl_queue := []; cl_dropped := 0; cl_inbound := pr_links p !!! 0%nat;
     cl_maxPayload := MaxPayload (pr_circuit p); cl_refused := None; cl_sent := 0; cl_lock := None;
     cl_sends := ∅; cl_recv := Reading 0; cl_ticker := starts_ticker cfg; cl_closing := Living |}.

(** [net] is what dialling the entry comes to.  What is left of the connection
    is the second result; a failed [Dial] has closed it. *)
Definition Dial (cfg : Config) (net : res Raw) (w : World) : (res Client * option Raw) * World :=
  match prepare cfg w with
  | (Err e, w) => ((Err e, None), w)
  | (Ok p, w) =>
      match net with
      | Err e => ((Err e, None), w)
      | Ok raw =>
          match Link.Dial (Some (linkKey (cf_Chain cfg !!! 0%nat))) raw w with
          | ((Err e, raw), w) => ((Err e, Some (raw_Close raw)), w)
          | ((Ok conn, raw), w) =>
              match WriteCell (sr_Cell (pr_setup p)) (conn, raw) w with
              | ((Err e, l), w) => ((Err e, Some (snd (Link_Close l))), w)
              | ((Ok _, l), w) => ((Ok (newClient cfg p l), Some (snd l)), w)
              end
          end
      end
  end.

End Dialling.

(** ** Sending *)

Definition scheduled (c : Client) : bool :=
  bool_decide (cf_Mode (cl_cfg c) = ConstantRate) && (0 <? cf_Rate (cl_cfg c)).

Definition errClosed : error := Other "client: closed".

Definition delay (c : Client) : M unit :=
  if cf_Jitter (cl_cfg c) <=? 0 then retM tt
  else let! _ := randomBelow (cf_Jitter (cl_cfg c)) in retM tt.

(** A call of [send] by the thread [tid], up to the send lock: [None] while it
    goes on, [Some] of what it returns otherwise. *)
Definition send (tid : nat) (cover : bool) (payload : bytes) : ST Client (option (res unit)) := fun c w =>
  if cl_closed c then ((Ok (Some (Err errClosed)), c), w)
  else
    match delay c w with
    | (Err e, w) => ((Ok (Some (Err e)), c), w)
    | (Ok _, w) => ((Ok None, set_sends (<[tid := Delaying cover payload]> (cl_sends c)) c), w)
    end.

(** The thread is done. *)
Definition leave_send (tid : nat) (c : Client) : Client :=
  set_sends (delete tid (cl_sends c)) (if bool_decide (cl_lock c = Some tid) then set_lock None c else c).

(** What a step of a send puts on the link. *)
Inductive Sent : Type :=
| Waits
| Returns (r : res unit)
| Writes (n : Z) (cell : Cell) (r : res unit).

Definition send_step (tid : nat) (c : Client) (w : World) : (Sent * Client) * World :=
  match cl_sends c !! tid with
  | None => ((Waits, c), w)
  | Some (Delaying cover payload) =>
      match cl_lock c with
      | Some _ => ((Waits, c), w)
      | None =>
          if cl_closed c then ((Returns (Err errClosed), leave_send tid c), w)
          else ((Waits, set_lock (Some tid) (set_sends (<[tid := Locked cover payload]> (cl_sends c)) c)), w)
      end
  | Some (Locked cover payload) =>
      let n := cl_sent c in
      match (if cover then SealCover (cl_circuit c) n else Circuit_Seal (cl_circuit c) n payload) w with
      | (Err e, w) => ((Returns (Err e), leave_send tid c), w)
      | (Ok cell, w) =>
          ((Waits, set_sent (u64 (n + 1)) (set_sends (<[tid := Sealed n cell]> (cl_sends c)) c)), w)
      end
  | Some (Sealed n cell) =>
      let '((r, l), w) := WriteCell cell (cl_link c) w in
      ((Writes n cell r, leave_send tid (set_link l c)), w)
  end.

(** [Send] of the package: a scheduled client only queues. *)
Definition Send (tid : nat) (payload : bytes) : ST Client (option (res unit)) := fun c w =>
  if scheduled c then
    if cl_maxPayload c <? Z.of_nat (length payload)
    then ((Ok (Some (Err (Sentinel wire_ErrPayloadSize))), c), w)
    else if (length (cl_queue c) <? queueCap)%nat
    then ((Ok (Some (Ok tt)), set_queue (cl_queue c ++ [payload]) c), w)
    else ((Ok (Some (Ok tt)), set_dropped (u64 (cl_dropped c + 1)) c), w)
  else send tid false payload c w.

Definition SendCover (tid : nat) : ST Client (option (res unit)) := send tid true [].

(** A tick: payload if the schedule has one and cover otherwise; cover alone when
    the cells are sent as they come. *)
Definition tick : ST Client unit := fun c w =>
  match cl_ticker c with
  | TickIdle =>
      let '(cover, payload, c1) :=
        match scheduled c, cl_queue c with
        | true, p :: q => (false, p, set_queue q c)
        | _, _ => (true, [], c)
        end in
      match send tickTid cover payload c1 w with
      | ((Ok None, c), w) => ((Ok tt, set_ticker TickSends c), w)
      | ((_, c), w) => ((Ok tt, set_ticker TickStopped c), w)
      end
  | _ => ((Ok tt, c), w)
  end.

(** The ticker's own send came back. *)
Definition ticked (r : Sent) (c : Client) : Client :=
  match cl_ticker c, r with
  | TickSends, (Returns (Ok _) | Writes _ _ (Ok _)) => set_ticker TickIdle c
  | TickSends, (Returns (Err _) | Writes _ _ (Err _)) => set_ticker TickStopped c
  | _, _ => c
  end.

(** ** Receiving *)

Definition open (cell : Cell) (want : Z) (c : Client) : res (bytes * bool) :=
  match Cell_Header cell with
  | Err _ => Err (Sentinel client_ErrReplyHeader)
  | Ok h =>
      if negb (bool_decide (h_Kind h = KindData)) || negb (h_Circuit h =? cl_inbound c)
      then Err (Sentinel client_ErrReplyHeader)
      else
        match OpenExit (cl_circuit c) cell Backward with
        | Err _ => Err (Sentinel client_ErrReplyNotOpened)
        | Ok (payload, cover) =>
            if negb (ReplyNumber (cl_circuit c) (h_Counter h) =? want) then Err (Sentinel client_ErrReplyOutOfTurn)
            else if cl_sent c <=? want then Err (Sentinel client_ErrReplyUnsolicited)
            else Ok (payload, cover)
        end
  end.

(** What the receiver took: the number and the reply it opened under it. *)
Definition Taken : Type := option (Z * bytes * bool).

Definition deliver (payload : bytes) (cover : bool) (c : Client) : Client :=
  if cover then c
  else if (length (cl_replies c) <? repliesCap)%nat then set_replies (cl_replies c ++ [payload]) c
  else c.

Definition receive (c : Client) (w : World) : (Taken * Client) * World :=
  match cl_recv c with
  | Ended => ((None, c), w)
  | Reading want =>
      match ReadCell (cl_link c) w with
      | ((Err _, l), w) => ((None, set_recv Ended (set_link l c)), w)
      | ((Ok cell, l), w) => ((None, set_recv (Opening want cell) (set_link l c)), w)
      end
  | Opening want cell =>
      match open cell want c with
      | Err e =>
          ((None, set_recv Ended (set_link (Link_Close (cl_link c)) (set_refused (Some e) c))), w)
      | Ok (payload, cover) =>
          ((Some (want, payload, cover), set_recv (Reading (u64 (want + 1))) (deliver payload cover c)), w)
      end
  end.

Definition Refused (c : Client) : option error := cl_refused c.

Definition Broken (c : Client) : bool := negb (bool_decide (Refused c = None)).

(** ** Closing *)

Definition ended (r : Receiving) : bool := match r with Ended => true | _ => false end.

Definition stopped (t : Ticking) : bool := match t with NoTicker | TickStopped => true | _ => false end.

(** The [busy] group is down to zero. *)
Definition idle (c : Client) : bool := bool_decide (cl_sends c = ∅) && ended (cl_recv c).

Definition Close (c : Client) : Client :=
  match cl_closing c with Living => set_closing ClosesLink c | _ => c end.

Definition close_step (c : Client) : Client :=
  match cl_closing c with
  | Living | Closed => c
  | ClosesLink => set_closing StopsTicker (set_link (Link_Close (cl_link c)) c)
  | StopsTicker => if stopped (cl_ticker c) then set_closing WaitsBusy c else c
  | WaitsBusy =>
      if idle c
      then set_closing Closed (set_keys ((fun _ => None) <$> cl_keys c) (set_circuit (Circuit_Close (cl_circuit c)) c))
      else c
  end.

(** The ticker sees that it was told to stop. *)
Definition stop_ticker (c : Client) : Client :=
  match cl_ticker c, cl_closing c with
  | TickIdle, (StopsTicker | WaitsBusy | Closed) => set_ticker TickStopped c
  | _, _ => c
  end.

(** ** The machine *)

(** What may happen next: a caller's thread enters [Send] or [SendCover], a send
    goes on, the ticker ticks or stops, bytes arrive, the receiver goes on, a reply
    is taken off the channel, [Close] is called or goes on. *)
Inductive Event : Type :=
| EvSend (tid : nat) (payload : bytes)
| EvCover (tid : nat)
| EvStep (tid : nat)
| EvTick
| EvStop
| EvArrive (b : bytes)
| EvReceive
| EvTake
| EvClose
| EvCloses.

(** What can be seen of a step. *)
Inductive Seen : Type :=
| Nothing
| Answer (tid : nat) (r : res unit)
| OnLink (n : Z) (cell : Cell) (r : res unit)
| Reply (n : Z) (payload : bytes) (cover : bool).

Definition seen_enter (tid : nat) (r : res (option (res unit))) : Seen :=
  match r with Ok (Some r) => Answer tid r | _ => Nothing end.

(** A caller's thread has a name of its own, and is not in a send already. *)
Definition fresh_tid (tid : nat) (c : Client) : bool :=
  negb (tid =? tickTid)%nat && bool_decide (cl_sends c !! tid = None).

Definition arrive (b : bytes) (c : Client) : Client :=
  let '(conn, raw) := cl_link c in set_link (conn, raw_set_in (raw_in raw ++ b) raw) c.

Definition step (e : Event) (c : Client) (w : World) : (Seen * Client) * World :=
  match e with
  | EvSend tid payload =>
      if fresh_tid tid c then let '((r, c), w) := Send tid payload c w in ((seen_enter tid r, c), w)
      else ((Nothing, c), w)
  | EvCover tid =>
      if fresh_tid tid c then let '((r, c), w) := SendCover tid c w in ((seen_enter tid r, c), w)
      else ((Nothing, c), w)
  | EvStep tid =>
      let '((r, c), w) := send_step tid c w in
      let c := if (tid =? tickTid)%nat then ticked r c else c in
      ((match r with Waits => Nothing | Returns r => Answer tid r | Writes n cell r => OnLink n cell r end, c), w)
  | EvTick => let '((_, c), w) := tick c w in ((Nothing, c), w)
  | EvStop => ((Nothing, stop_ticker c), w)
  | EvArrive b => ((Nothing, arrive b c), w)
  | EvReceive =>
      let '((t, c), w) := receive c w in
      ((match t with Some (n, p, cover) => Reply n p cover | None => Nothing end, c), w)
  | EvTake => ((Nothing, set_replies (tail (cl_replies c)) c), w)
  | EvClose => ((Nothing, Close c), w)
  | EvCloses => ((Nothing, close_step c), w)
  end.

(** What is seen over a run of events, in order. *)
Fixpoint run (es : list Event) (c : Client) (w : World) : (list Seen * Client) * World :=
  match es with
  | [] => (([], c), w)
  | e :: rest =>
      let '((s, c), w) := step e c w in
      let '((ss, c), w) := run rest c w in ((s :: ss, c), w)
  end.

(** The numbers of the cells put on the link, and of the replies taken. *)
Definition written_of (s : Seen) : list Z := match s with OnLink n _ _ => [n] | _ => [] end.
Definition taken_number (s : Seen) : list Z := match s with Reply n _ _ => [n] | _ => [] end.

Definition written (ss : list Seen) : list Z := ss ≫= written_of.
Definition taken_in (ss : list Seen) : list Z := ss ≫= taken_number.

(** ** The invariant *)

Definition holds (s : Sending) : bool := match s with Delaying _ _ => false | _ => true end.

(** The number of the cell that is counted and not yet written. *)
Definition pending (c : Client) : list Z :=
  match cl_lock c with
  | Some t => match cl_sends c !! t with Some (Sealed n _) => [n] | _ => [] end
  | None => []
  end.

(** The number of the reply that is due, while somebody waits for one. *)
Definition due (c : Client) : option Z :=
  match cl_recv c with Reading w | Opening w _ => Some w | Ended => None end.

Definition link_closed (l : Link) : Prop := cn_send (fst l) = None /\ raw_closed (snd l) = true.

Definition reply_class (e : error) : Prop :=
  e = Sentinel client_ErrReplyHeader \/ e = Sentinel client_ErrReplyNotOpened \/
  e = Sentinel client_ErrReplyOutOfTurn \/ e = Sentinel client_ErrReplyUnsolicited.

(** [k0] is the circuit the client was dialled with and [ks] its keys. *)
Section Invariant.
Context (k0 : Circuit) (ks : list bytes).

Definition sealed_by (n : Z) (cell : Cell) : Prop :=
  exists payload cover w w', Circuit_seal k0 n payload cover w = (Ok cell, w').

Record inv (c : Client) : Prop := {
  i_lock t s : cl_sends c !! t = Some s -> holds s = true -> cl_lock c = Some t;
  i_held t : cl_lock c = Some t -> exists s, cl_sends c !! t = Some s /\ holds s = true;
  i_sealed t n cell : cl_sends c !! t = Some (Sealed n cell) -> cl_sent c = n + 1 /\ sealed_by n cell;
  i_sent : 0 <= cl_sent c <= cellLimit;
  i_due w : due c = Some w -> 0 <= w <= cl_sent c;
  i_ticker : cl_ticker c = TickSends <-> is_Some (cl_sends c !! tickTid);
  i_stop : cl_closing c = WaitsBusy \/ cl_closing c = Closed -> stopped (cl_ticker c) = true;
  i_shut : cl_closing c <> Living -> cl_closing c <> ClosesLink -> link_closed (cl_link c);
  i_live : cl_closing c <> Closed -> cl_circuit c = k0 /\ cl_keys c = Some <$> ks;
  i_done : cl_closing c = Closed -> idle c = true /\ cl_circuit c = Circuit_Close k0 /\
             cl_keys c = (fun _ => None) <$> ks;
  i_queue : (length (cl_queue c) <= queueCap)%nat /\ (length (cl_replies c) <= repliesCap)%nat;
  i_refused e : cl_refused c = Some e -> reply_class e /\ cl_recv c = Ended /\ link_closed (cl_link c)
}.

Lemma busy_open c : inv c -> idle c = false -> cl_circuit c = k0 /\ cl_keys c = Some <$> ks.
Proof. intros I Hi. apply (i_live c I). intros E. destruct (i_done c I E) as [H _]. congruence. Qed.

Lemma idle_sends c t s : cl_sends c !! t = Some s -> idle c = false.
Proof. intros H. unfold idle. rewrite bool_decide_false; [done|]. intros E. rewrite E, lookup_empty in H. done. Qed.

(** *** Sends *)

Lemma write_closed cell l w : link_closed l -> snd (fst (WriteCell cell l w)) = l.
Proof.
  destruct l as [conn raw]. intros [H _]. unfold WriteCell, bindS, getS, failS. cbn [fst snd] in *.
  destruct (cn_werr conn); [done|]. by rewrite H.
Qed.

Lemma leave_same t c : cl_recv (leave_send t c) = cl_recv c /\ cl_sent (leave_send t c) = cl_sent c /\
  cl_sends (leave_send t c) = delete t (cl_sends c) /\ cl_link (leave_send t c) = cl_link c /\
  cl_ticker (leave_send t c) = cl_ticker c /\ cl_closing (leave_send t c) = cl_closing c.
Proof. unfold leave_send. by case_bool_decide. Qed.

(** What a step of a send does to the whole of the machine. *)
Definition after_send (tid : nat) (r : Sent) (c : Client) : Client := if (tid =? tickTid)%nat then ticked r c else c.

Lemma inv_leave tid c l r s : inv c -> cl_sends c !! tid = Some s -> r <> Waits ->
  (link_closed (cl_link c) -> l = cl_link c) -> inv (after_send tid r (leave_send tid (set_link l c))).
Proof.
  intros I Hs Hr Hl. pose proof (i_ticker c I) as It.
  assert (Hclosed : link_closed (cl_link c) -> link_closed l) by (intros H; by rewrite (Hl H)).
  assert (Hnd : cl_closing c <> Closed).
  { intros E. destruct (i_done c I E) as (Hi & _). by rewrite (idle_sends c tid s Hs) in Hi. }
  assert (Hgen : forall t, (t = TickSends <-> is_Some (delete tid (cl_sends c) !! tickTid)) ->
    (cl_closing c = WaitsBusy -> stopped t = true) ->
    inv (set_ticker t (leave_send tid (set_link l c)))).
  { intros t Ht Hst. unfold leave_send. cbn [cl_lock set_link cl_sends].
    destruct I as [I1 I2 I3 I4 I5 I6 I7 I8 I9 I10 I11 I12].
    case_bool_decide as Hlock; constructor; cbn; auto; try tauto.
    - intros t' s' [Hne Hs']%lookup_delete_Some Hh. specialize (I1 _ _ Hs' Hh). congruence.
    - done.
    - intros t' n cell [_ H]%lookup_delete_Some. by apply I3 in H.
    - intros e He. destruct (I12 e He) as (? & ? & ?). auto.
    - intros t' s' [_ Hs']%lookup_delete_Some. by apply I1.
    - intros t' Ht'. destruct (I2 t' Ht') as (s' & Hs' & Hh). exists s'. split; [|done].
      rewrite lookup_delete_ne by congruence. done.
    - intros t' n cell [_ H]%lookup_delete_Some. by apply I3 in H.
    - intros e He. destruct (I12 e He) as (? & ? & ?). auto. }
  assert (Hst : cl_closing c = WaitsBusy -> stopped (cl_ticker c) = true) by (intros E; apply (i_stop c I); by left).
  unfold after_send. destruct (Nat.eqb_spec tid tickTid) as [->|Hne].
  - assert (Et : cl_ticker c = TickSends) by (apply It; by eexists).
    rewrite Et in Hst. cbn in Hst.
    unfold ticked, leave_send in *. cbn [cl_lock set_link cl_sends] in *.
    destruct r as [|[]|? ? []]; [done|..]; case_bool_decide; cbn [cl_ticker set_sends set_lock set_link];
      rewrite Et; apply Hgen; auto; rewrite lookup_delete_eq; (split; [discriminate | by intros [? ?]]).
  - specialize (Hgen (cl_ticker c)). unfold leave_send in *. cbn [cl_lock set_link cl_sends] in *.
    assert (Hd : forall c' : Client, set_ticker (cl_ticker c') c' = c') by (by intros []).
    case_bool_decide; (match type of Hgen with _ -> _ -> inv (set_ticker _ ?x) => specialize (Hd x) end);
      cbn [cl_ticker set_sends set_lock set_link] in Hd; rewrite Hd in Hgen; apply Hgen; auto;
      by rewrite lookup_delete_ne by done.
Qed.

Lemma not_closed c : cl_closed c = false -> cl_closing c = Living.
Proof. unfold cl_closed. intros H%negb_false_iff. by apply bool_decide_eq_true in H. Qed.

Lemma inv_enter tid t cover payload c : inv c -> cl_sends c !! tid = None -> cl_closing c = Living ->
  (t = TickSends <-> is_Some (<[tid := Delaying cover payload]> (cl_sends c) !! tickTid)) ->
  inv (set_ticker t (set_sends (<[tid := Delaying cover payload]> (cl_sends c)) c)).
Proof.
  intros [I1 I2 I3 I4 I5 I6 I7 I8 I9 I10 I11 I12] Hs Hc Ht. constructor; cbn; auto.
  - intros t' s' [[-> <-]|[_ H]]%lookup_insert_Some; [discriminate | by apply I1].
  - intros t' Hl. destruct (I2 t' Hl) as (s' & Hs' & Hh). exists s'. split; [|done].
    rewrite lookup_insert_ne by congruence. done.
  - intros t' n cell [[-> E]|[_ H]]%lookup_insert_Some; [discriminate | by apply I3 in H].
  - rewrite Hc. by intros [|].
  - rewrite Hc. discriminate.
Qed.

Lemma inv_locks tid cover payload c : inv c -> cl_sends c !! tid = Some (Delaying cover payload) ->
  cl_lock c = None -> cl_closing c = Living ->
  inv (set_lock (Some tid) (set_sends (<[tid := Locked cover payload]> (cl_sends c)) c)).
Proof.
  intros [I1 I2 I3 I4 I5 I6 I7 I8 I9 I10 I11 I12] Hs Hl Hc. constructor; cbn; auto.
  - intros t' s' [[-> <-]|[_ H]]%lookup_insert_Some Hh; [done|]. specialize (I1 _ _ H Hh). congruence.
  - intros t' [= <-]. exists (Locked cover payload). by rewrite lookup_insert_eq.
  - intros t' n cell [[-> E]|[_ H]]%lookup_insert_Some; [discriminate | by apply I3 in H].
  - rewrite I6. destruct (decide (tid = tickTid)) as [->|]; [|by rewrite lookup_insert_ne].
    rewrite lookup_insert_eq, Hs. split; intros _; by eexists.
  - rewrite Hc. discriminate.
Qed.

Lemma seal_limit n payload cover w cell w' : Circuit_seal k0 n payload cover w = (Ok cell, w') -> n < cellLimit.
Proof.
  unfold Circuit_seal. destruct (_ =? _)%nat; [discriminate|]. destruct (_ <? _); [discriminate|].
  destruct (Z.leb_spec cellLimit n); [discriminate | done].
Qed.

Lemma inv_seals tid cover payload c cell : inv c -> cl_sends c !! tid = Some (Locked cover payload) ->
  sealed_by (cl_sent c) cell ->
  inv (set_sent (u64 (cl_sent c + 1)) (set_sends (<[tid := Sealed (cl_sent c) cell]> (cl_sends c)) c)) /\
  u64 (cl_sent c + 1) = cl_sent c + 1.
Proof.
  intros I Hs Hseal. pose proof (idle_sends c tid _ Hs) as Hidle.
  destruct I as [I1 I2 I3 I4 I5 I6 I7 I8 I9 I10 I11 I12].
  assert (Hlim : cl_sent c < cellLimit) by (destruct Hseal as (? & ? & ? & ? & H); by apply seal_limit in H).
  assert (Eu : u64 (cl_sent c + 1) = cl_sent c + 1).
  { unfold u64. apply Z.mod_small. unfold cellLimit in *. lia. }
  rewrite Eu. split; [|done]. constructor; cbn; auto.
  - intros t' s' [[-> <-]|[_ H]]%lookup_insert_Some Hh; [by apply (I1 _ _ Hs) | by apply (I1 _ _ H)].
  - intros t' Hl. destruct (I2 t' Hl) as (s' & Hs' & Hh). destruct (decide (t' = tid)) as [->|].
    + exists (Sealed (cl_sent c) cell). by rewrite lookup_insert_eq.
    + exists s'. by rewrite lookup_insert_ne.
  - intros t' n x [[-> [= <- <-]]|[Hne H]]%lookup_insert_Some; [done|].
    pose proof (I1 _ _ H eq_refl) as H1. rewrite (I1 _ _ Hs eq_refl) in H1. congruence.
  - lia.
  - intros w Hw. specialize (I5 w Hw). lia.
  - rewrite I6. destruct (decide (tid = tickTid)) as [->|]; [|by rewrite lookup_insert_ne].
    rewrite lookup_insert_eq, Hs. split; intros _; by eexists.
  - intros E. destruct (I10 E) as (Hi & _). congruence.
Qed.

(** What the steps of a send do to the numbers. *)
Definition numbers (c : Client) (s : list Z) (c' : Client) : Prop :=
  s ++ pending c' = pending c ++ seqZ (cl_sent c) (cl_sent c' - cl_sent c) /\ cl_sent c <= cl_sent c'.

Lemma numbers_same c c' : pending c' = pending c -> cl_sent c' = cl_sent c -> numbers c [] c'.
Proof.
  intros H1 H2. unfold numbers. rewrite H1, H2, Z.sub_diag, seqZ_nil, app_nil_r by lia. split; [done | lia].
Qed.

Lemma after_send_fields tid r c : cl_sent (after_send tid r c) = cl_sent c /\ pending (after_send tid r c) = pending c /\
  cl_recv (after_send tid r c) = cl_recv c.
Proof. unfold after_send, ticked. repeat case_match; done. Qed.

Definition sent_numbers (r : Sent) : list Z := match r with Writes n _ _ => [n] | _ => [] end.

Lemma after_wait tid c : after_send tid Waits c = c.
Proof. unfold after_send, ticked. by repeat case_match. Qed.

Lemma pending_leave tid s c l : inv c -> cl_sends c !! tid = Some s -> holds s = true ->
  pending (leave_send tid (set_link l c)) = [].
Proof.
  intros I Hs Hh. unfold leave_send. cbn [cl_lock set_link cl_sends].
  rewrite bool_decide_true by (by apply (i_lock c I _ s)). done.
Qed.

Lemma send_step_inv tid c w r c' w' : inv c -> send_step tid c w = ((r, c'), w') ->
  inv (after_send tid r c') /\ numbers c (sent_numbers r) c' /\ cl_recv c' = cl_recv c /\
  (forall n cell x, r = Writes n cell x -> sealed_by n cell).
Proof.
  intros I H. unfold send_step in H.
  assert (Hll : set_link (cl_link c) c = c) by (by destruct c).
  destruct (cl_sends c !! tid) as [[cover payload|cover payload|n cell]|] eqn:Hs.
  - destruct (cl_lock c) as [t|] eqn:Hl.
    { injection H as <- <- <-. rewrite after_wait. split_and!; [done | by apply numbers_same | done | discriminate]. }
    destruct (cl_closed c) eqn:Hc.
    + injection H as <- <- <-. destruct (leave_same tid c) as (Hr & Hse & _).
      split_and!; [|apply numbers_same|done|discriminate].
      * rewrite <- Hll at 1. by apply (inv_leave tid c (cl_link c) _ _ I Hs).
      * unfold leave_send. rewrite Hl. cbn [set_sends bool_decide]. case_bool_decide; [done|]. unfold pending. cbn. by rewrite Hl.
      * done.
    + injection H as <- <- <-. rewrite after_wait. apply not_closed in Hc.
      split_and!; [by apply inv_locks | apply numbers_same; [|done] | done | discriminate].
      unfold pending. cbn. by rewrite lookup_insert_eq, Hl.
  - destruct (busy_open c I (idle_sends c _ _ Hs)) as [Hk _].
    destruct (_ w) as [[cell|e] w1] eqn:E in H.
    + injection H as <- <- <-. rewrite after_wait.
      assert (Hseal : sealed_by (cl_sent c) cell).
      { rewrite Hk in E. destruct cover; [exists [], true, w, w1 | exists payload, false, w, w1]; exact E. }
      destruct (inv_seals tid cover payload c cell I Hs Hseal) as [I' Eu].
      split_and!; [done | | done | discriminate]. unfold numbers, pending. cbn. rewrite Eu.
      rewrite (i_lock c I _ _ Hs eq_refl), lookup_insert_eq, Hs. split; [|lia].
      replace (cl_sent c + 1 - cl_sent c) with 1 by lia. done.
    + injection H as <- <- <-. destruct (leave_same tid c) as (Hr & Hse & _). split_and!; [| |done|discriminate].
      * rewrite <- Hll at 1. by apply (inv_leave tid c (cl_link c) _ _ I Hs).
      * apply numbers_same; [|done]. rewrite <- Hll at 1. rewrite (pending_leave tid _ c _ I Hs eq_refl).
        unfold pending. by rewrite (i_lock c I _ _ Hs eq_refl), Hs.
  - destruct (WriteCell cell (cl_link c) w) as [[x l] w1] eqn:E. injection H as <- <- <-.
    destruct (leave_same tid (set_link l c)) as (Hr & Hse & _). destruct (i_sealed c I _ _ _ Hs) as [Hn Hby].
    split_and!; [| | done | intros ? ? ? [= <- <- <-]; done].
    + apply (inv_leave tid c l _ _ I Hs); [done|]. intros Hl. pose proof (write_closed cell _ w Hl) as H. by rewrite E in H.
    + unfold numbers. rewrite (pending_leave tid _ c l I Hs eq_refl), Hse. cbn [set_link cl_sent sent_numbers app].
      unfold pending. rewrite (i_lock c I _ _ Hs eq_refl), Hs, Z.sub_diag. split; [done | lia].
  - injection H as <- <- <-. rewrite after_wait. split_and!; [done | by apply numbers_same | done | discriminate].
Qed.

(** *** The ticker *)

Lemma inv_ticker t c : inv c -> cl_ticker c <> TickSends -> t <> TickSends ->
  (stopped (cl_ticker c) = true -> stopped t = true) -> inv (set_ticker t c).
Proof.
  intros [I1 I2 I3 I4 I5 I6 I7 I8 I9 I10 I11 I12] H1 H2 H3. constructor; cbn; auto.
  split; [done|]. intros H. by apply I6 in H.
Qed.

Lemma inv_queue q c : inv c -> (length q <= queueCap)%nat -> inv (set_queue q c).
Proof. intros [] Hq. constructor; cbn; auto. split; [done | tauto]. Qed.

Lemma send_enters tid cover payload c w r c' w' : send tid cover payload c w = ((r, c'), w') ->
  (exists x, r = Ok (Some x) /\ c' = c) \/
  (r = Ok None /\ cl_closing c = Living /\ c' = set_sends (<[tid := Delaying cover payload]> (cl_sends c)) c).
Proof.
  unfold send. destruct (cl_closed c) eqn:E; [intros [= <- <- <-]; left; eauto|]. apply not_closed in E.
  destruct (delay c w) as [[u|e] w1]; intros [= <- <- <-]; [by right | left; eauto].
Qed.

Lemma pending_enter tid s c : inv c -> cl_sends c !! tid = None ->
  pending (set_sends (<[tid := s]> (cl_sends c)) c) = pending c.
Proof.
  intros I Hs. unfold pending. cbn. destruct (cl_lock c) as [t|] eqn:Hl; [|done].
  destruct (i_held c I t Hl) as (s' & Hs' & _). rewrite lookup_insert_ne by congruence. done.
Qed.

Lemma same_ticker c : set_ticker (cl_ticker c) c = c.
Proof. by destruct c. Qed.

Lemma send_inv tid cover payload c w r c' w' : inv c -> cl_sends c !! tid = None -> tid <> tickTid ->
  send tid cover payload c w = ((r, c'), w') ->
  inv c' /\ pending c' = pending c /\ cl_sent c' = cl_sent c /\ cl_recv c' = cl_recv c.
Proof.
  intros I Hs Hne [(x & -> & ->)|(-> & Hc & ->)]%send_enters; [done|]. rewrite pending_enter by done.
  split_and!; try done. pose proof (inv_enter tid (cl_ticker c) cover payload c I Hs Hc) as H.
  rewrite <- (same_ticker (set_sends _ c)). apply H. rewrite lookup_insert_ne by done. apply (i_ticker c I).
Qed.

Lemma Send_inv tid payload c w r c' w' : inv c -> cl_sends c !! tid = None -> tid <> tickTid ->
  Send tid payload c w = ((r, c'), w') ->
  inv c' /\ pending c' = pending c /\ cl_sent c' = cl_sent c /\ cl_recv c' = cl_recv c.
Proof.
  intros I Hs Hne. unfold Send. destruct (scheduled c); [|by apply send_inv].
  destruct (_ <? _); [intros [= <- <- <-]; done|].
  destruct (Nat.ltb_spec (length (cl_queue c)) queueCap); intros [= <- <- <-].
  - split_and!; try done. apply inv_queue; [done|]. rewrite length_app. simpl. lia.
  - split_and!; try done. by destruct I.
Qed.

Lemma tick_inv c w r c' w' : inv c -> tick c w = ((r, c'), w') ->
  inv c' /\ pending c' = pending c /\ cl_sent c' = cl_sent c /\ cl_recv c' = cl_recv c.
Proof.
  intros I. unfold tick. destruct (cl_ticker c) eqn:Et; try by intros [= <- <- <-].
  assert (Hs : cl_sends c !! tickTid = None).
  { apply eq_None_not_Some. intros H. apply (i_ticker c I) in H. congruence. }
  destruct (match scheduled c, cl_queue c with true, p :: q => _ | _, _ => _ end) as [[cover payload] c1] eqn:E1.
  assert (Hc1 : inv c1 /\ pending c1 = pending c /\ cl_sent c1 = cl_sent c /\ cl_recv c1 = cl_recv c /\
    cl_sends c1 = cl_sends c /\ cl_ticker c1 = TickIdle /\ cl_closing c1 = cl_closing c).
  { destruct (scheduled c), (cl_queue c) as [|p q] eqn:Eq; injection E1 as <- <- <-; split_and!; try done.
    apply inv_queue; [done|]. destruct (i_queue c I) as [H _]. rewrite Eq in H. simpl in H. lia. }
  destruct Hc1 as (I1 & Hp & Hse & Hr & Hsd & Ht1 & Hcl).
  destruct (send tickTid cover payload c1 w) as [[x c2] w2] eqn:E2.
  assert (Hstop : inv (set_ticker TickStopped c1)) by (apply inv_ticker; congruence || done).
  apply send_enters in E2 as [(y & -> & ->)|(-> & Hc & ->)]; intros [= <- <- <-].
  - split_and!; try done.
  - rewrite <- Hsd in Hs. split_and!; try done.
    + apply inv_enter; try done. rewrite lookup_insert_eq. split; [by eexists | done].
    + rewrite <- Hp. rewrite <- (pending_enter tickTid (Delaying cover payload) c1 I1 Hs). done.
Qed.

(** *** The receiver *)

Lemma read_closed l w : link_closed l -> exists e, ReadCell l w = ((Err e, l), w).
Proof.
  destruct l as [conn raw]. intros [_ H]. unfold ReadCell. exists (Sentinel net_ErrClosed).
  destruct (length _); cbn [read_cell]; unfold bindS at 1, readFrame, bindS, getS, on_raw, raw_ReadFull;
    cbn [fst snd] in *; by rewrite H.
Qed.

Definition took (t : Taken) : list Z := match t with Some (n, _, _) => [n] | None => [] end.

Lemma open_ok cell want c p cover : open cell want c = Ok (p, cover) -> want < cl_sent c.
Proof.
  unfold open. destruct (Cell_Header cell) as [h|]; [|discriminate]. destruct (_ || _); [discriminate|].
  destruct (OpenExit _ _ _) as [[p' cover']|]; [|discriminate]. destruct (negb _); [discriminate|].
  destruct (Z.leb_spec (cl_sent c) want); [discriminate | done].
Qed.

Lemma open_err cell want c e : open cell want c = Err e -> reply_class e.
Proof.
  unfold open, reply_class. destruct (Cell_Header cell) as [h|]; [|intros [= <-]; auto].
  destruct (_ || _); [intros [= <-]; auto|].
  destruct (OpenExit _ _ _) as [[p' cover']|]; [|intros [= <-]; auto].
  destruct (negb _); [intros [= <-]; auto|]. destruct (_ <=? _); [intros [= <-]; auto | discriminate].
Qed.

Lemma receive_inv c w t c' w' : inv c -> receive c w = ((t, c'), w') ->
  inv c' /\ pending c' = pending c /\ cl_sent c' = cl_sent c /\
  match due c with
  | None => t = None /\ due c' = None
  | Some a => (t = None /\ (due c' = Some a \/ due c' = None)) \/
              (took t = [a] /\ due c' = Some (a + 1) /\ a < cl_sent c')
  end.
Proof.
  intros I H. unfold receive in H. assert (I' := I). destruct I' as [I1 I2 I3 I4 I5 I6 I7 I8 I9 I10 I11 I12].
  destruct (cl_recv c) as [want|want cell|] eqn:Er.
  - assert (Hd : due c = Some want) by (unfold due; by rewrite Er). rewrite Hd.
    assert (Hl : forall l, snd (fst (ReadCell (cl_link c) w)) = l -> link_closed (cl_link c) -> link_closed l).
    { intros l <- Hlc. destruct (read_closed _ w Hlc) as [e ->]. exact Hlc. }
    assert (Hnone : forall e, cl_refused c = Some e -> False) by (intros e He; destruct (I12 e He) as (_ & ? & _); congruence).
    assert (Hnc : cl_closing c <> Closed).
    { intros E. destruct (I10 E) as (Hi & _). unfold idle in Hi. rewrite Er, andb_false_r in Hi. discriminate. }
    destruct (ReadCell (cl_link c) w) as [[[cell|e] l] w1] eqn:E; injection H as <- <- <-; specialize (Hl l eq_refl).
    + split_and!; try done; [|left; split; [done | by left]].
      constructor; cbn; auto; [| done | intros e He; by destruct (Hnone e)].
      intros a [= <-]. by apply I5.
    + split_and!; try done; [|left; split; [done | by right]].
      constructor; cbn; auto; [done | done | intros e' He; by destruct (Hnone e')].
  - assert (Hd : due c = Some want) by (unfold due; by rewrite Er). rewrite Hd.
    assert (Hnone : forall e, cl_refused c = Some e -> False) by (intros e He; destruct (I12 e He) as (_ & ? & _); congruence).
    assert (Hnc : cl_closing c <> Closed).
    { intros E. destruct (I10 E) as (Hi & _). unfold idle in Hi. rewrite Er, andb_false_r in Hi. discriminate. }
    destruct (open cell want c) as [[p cover]|e] eqn:Eo; injection H as <- <- <-.
    + apply open_ok in Eo. pose proof (I5 want Hd) as Hw.
      assert (Eu : u64 (want + 1) = want + 1) by (unfold u64; apply Z.mod_small; unfold cellLimit in *; lia).
      rewrite Eu. assert (Hdl : inv (set_recv (Reading (want + 1)) (deliver p cover c))).
      { unfold deliver. destruct cover; [|destruct (Nat.ltb_spec (length (cl_replies c)) repliesCap)];
          constructor; cbn; auto; try done; try (intros a [= <-]; lia); try (intros e He; by destruct (Hnone e)).
        split; [tauto|]. rewrite length_app. simpl. lia. }
      assert (Hsame : cl_sent (deliver p cover c) = cl_sent c /\ pending (deliver p cover c) = pending c)
        by (unfold deliver; by repeat case_match).
      destruct Hsame as [Hs Hp]. split_and!; [done | exact Hp | exact Hs |]. right. split_and!; [done | done |].
      cbn. by rewrite Hs.
    + split_and!; try done; [|left; split; [done | by right]].
      constructor; cbn; auto; [done | done | done | intros e' [= <-]; split_and!; try done; by eapply open_err].
  - assert (Hd : due c = None) by (unfold due; by rewrite Er). rewrite Hd. by injection H as <- <- <-.
Qed.

(** *** The end *)

Lemma close_inv c : inv c -> inv (Close c).
Proof.
  intros [I1 I2 I3 I4 I5 I6 I7 I8 I9 I10 I11 I12]. unfold Close.
  destruct (cl_closing c) eqn:Ec; [|by constructor; rewrite ?Ec ..].
  constructor; cbn; auto; try (by intros [|]); try done.
Qed.

Lemma close_same c : pending (Close c) = pending c /\ cl_sent (Close c) = cl_sent c /\ cl_recv (Close c) = cl_recv c.
Proof. unfold Close. by destruct (cl_closing c). Qed.

Lemma close_step_same c : pending (close_step c) = pending c /\ cl_sent (close_step c) = cl_sent c /\
  cl_recv (close_step c) = cl_recv c.
Proof. unfold close_step. destruct (cl_closing c), (stopped (cl_ticker c)), (idle c); done. Qed.

Lemma link_close_closed l : link_closed (Link_Close l).
Proof. done. Qed.

Lemma idle_nothing c : idle c = true -> cl_sends c = ∅ /\ cl_recv c = Ended.
Proof.
  unfold idle. rewrite andb_true_iff, bool_decide_eq_true. intros [-> H]. split; [done|].
  by destruct (cl_recv c).
Qed.

Lemma close_step_inv c : inv c -> inv (close_step c).
Proof.
  intros I. assert (I' := I). destruct I' as [I1 I2 I3 I4 I5 I6 I7 I8 I9 I10 I11 I12]. unfold close_step.
  destruct (cl_closing c) eqn:Ec; [done| | | |done].
  - constructor; cbn; auto; try (by intros [|]); try done.
    intros e He. destruct (I12 e He) as (? & ? & _). done.
  - destruct (stopped (cl_ticker c)) eqn:Es; [|done]. constructor; cbn; auto; done.
  - destruct (idle c) eqn:Ei; [|done]. destruct (I9) as [Hk Hks]; [congruence|].
    constructor; cbn; auto; try done.
    intros _. split; [done|]. rewrite Hk, Hks. split; [done|]. by rewrite <- list_fmap_compose.
Qed.

Lemma stop_inv c : inv c -> inv (stop_ticker c).
Proof. intros I. unfold stop_ticker. by destruct (cl_ticker c) eqn:Et, (cl_closing c); try done; apply inv_ticker; rewrite ?Et. Qed.

Lemma arrive_inv b c : inv c -> inv (arrive b c) /\ pending (arrive b c) = pending c /\
  cl_sent (arrive b c) = cl_sent c /\ cl_recv (arrive b c) = cl_recv c.
Proof.
  intros [I1 I2 I3 I4 I5 I6 I7 I8 I9 I10 I11 I12]. unfold arrive. destruct (cl_link c) as [conn raw].
  split_and!; [constructor; cbn; auto | done ..].
Qed.

Lemma take_inv c : inv c -> inv (set_replies (tail (cl_replies c)) c).
Proof.
  intros [I1 I2 I3 I4 I5 I6 I7 I8 I9 I10 I11 I12]. constructor; cbn; auto. split; [tauto|].
  destruct (cl_replies c); simpl in *; lia.
Qed.

(** *** A step, and a run *)

Lemma step_inv e c w s c' w' : inv c -> step e c w = ((s, c'), w') ->
  inv c' /\ numbers c (written_of s) c' /\ (forall n cell x, s = OnLink n cell x -> sealed_by n cell) /\
  match due c with
  | None => taken_number s = [] /\ due c' = None
  | Some a => (taken_number s = [] /\ (due c' = Some a \/ due c' = None)) \/
              (taken_number s = [a] /\ due c' = Some (a + 1) /\ a < cl_sent c')
  end.
Proof.
  intros I H.
  assert (Hquiet : forall c1, inv c1 -> pending c1 = pending c -> cl_sent c1 = cl_sent c -> cl_recv c1 = cl_recv c ->
    forall s1, written_of s1 = [] -> taken_number s1 = [] ->
    inv c1 /\ numbers c (written_of s1) c1 /\ (forall n cell x, s1 = OnLink n cell x -> sealed_by n cell) /\
    match due c with
    | None => taken_number s1 = [] /\ due c1 = None
    | Some a => (taken_number s1 = [] /\ (due c1 = Some a \/ due c1 = None)) \/
                (taken_number s1 = [a] /\ due c1 = Some (a + 1) /\ a < cl_sent c1)
    end).
  { intros c1 I1 Hp Hs Hr s1 Hw Ht. split_and!; [done | by rewrite Hw; apply numbers_same | intros; subst; done |].
    unfold due. rewrite Hr, Ht. destruct (cl_recv c); auto. }
  destruct e as [tid payload|tid|tid| | |b| | | |]; cbn [step] in H.
  - destruct (fresh_tid tid c) eqn:Ef; [|by injection H as <- <- <-; apply Hquiet].
    unfold fresh_tid in Ef. rewrite andb_true_iff, negb_true_iff, Nat.eqb_neq, bool_decide_eq_true in Ef.
    destruct (Send tid payload c w) as [[r c1] w1] eqn:E. injection H as <- <- <-.
    destruct (Send_inv tid payload c w r c1 w1 I) as (I1 & ? & ? & ?); try tauto.
    apply Hquiet; try done; unfold seen_enter; by repeat case_match.
  - destruct (fresh_tid tid c) eqn:Ef; [|by injection H as <- <- <-; apply Hquiet].
    unfold fresh_tid in Ef. rewrite andb_true_iff, negb_true_iff, Nat.eqb_neq, bool_decide_eq_true in Ef.
    destruct (SendCover tid c w) as [[r c1] w1] eqn:E. injection H as <- <- <-.
    destruct (send_inv tid true [] c w r c1 w1 I) as (I1 & ? & ? & ?); try tauto.
    apply Hquiet; try done; unfold seen_enter; by repeat case_match.
  - destruct (send_step tid c w) as [[r c1] w1] eqn:E. injection H as <- <- <-. fold (after_send tid r c1).
    destruct (send_step_inv tid c w r c1 w1 I E) as (I1 & [Hn Hle] & Hr & Hby).
    destruct (after_send_fields tid r c1) as (Hs1 & Hp1 & Hr1).
    split_and!; [done | | |].
    + unfold numbers. rewrite Hs1, Hp1. destruct r; done.
    + destruct r; try discriminate. intros ? ? ? [= <- <- <-]. by eapply Hby.
    + unfold due. rewrite Hr1, Hr. destruct r, (cl_recv c); auto.
  - destruct (tick c w) as [[r c1] w1] eqn:E. injection H as <- <- <-.
    destruct (tick_inv c w r c1 w1 I E) as (? & ? & ? & ?). by apply Hquiet.
  - injection H as <- <- <-. apply Hquiet; try done; [by apply stop_inv | by unfold stop_ticker; repeat case_match ..].
  - injection H as <- <- <-. destruct (arrive_inv b c I) as (? & ? & ? & ?). by apply Hquiet.
  - destruct (receive c w) as [[t c1] w1] eqn:E. injection H as <- <- <-.
    destruct (receive_inv c w t c1 w1 I E) as (I1 & Hp & Hs & Hd).
    assert (Hw : written_of (match t with Some (n, p, cover) => Reply n p cover | None => Nothing end) = [])
      by (by destruct t as [[[? ?] ?]|]).
    rewrite Hw. split_and!; [done | by apply numbers_same | intros n cell x; by destruct t as [[[? ?] ?]|] |].
    assert (Ht : taken_number (match t with Some (n, p, cover) => Reply n p cover | None => Nothing end) = took t)
      by (by destruct t as [[[? ?] ?]|]).
    rewrite Ht. destruct (due c); [|by destruct Hd as [-> ?]].
    destruct Hd as [[-> Hd]|Hd]; [by left | by right].
  - injection H as <- <- <-. apply Hquiet; try done. by apply take_inv.
  - injection H as <- <- <-. destruct (close_same c) as (? & ? & ?). apply Hquiet; try done. by apply close_inv.
  - injection H as <- <- <-. destruct (close_step_same c) as (? & ? & ?). apply Hquiet; try done. by apply close_step_inv.
Qed.

Lemma run_inv es c w ss c' w' : inv c -> run es c w = ((ss, c'), w') ->
  inv c' /\ numbers c (written ss) c' /\ (forall n cell x, OnLink n cell x ∈ ss -> sealed_by n cell) /\
  match due c with
  | None => taken_in ss = [] /\ due c' = None
  | Some a => exists k, 0 <= k /\ taken_in ss = seqZ a k /\ (due c' = Some (a + k) \/ due c' = None) /\
                (0 < k -> a + k <= cl_sent c')
  end.
Proof.
  revert c w ss c' w'. induction es as [|e es IH]; intros c w ss c' w' I H; cbn [run] in H.
  { injection H as <- <- <-. split_and!; [done | by apply numbers_same | by intros ? ? ? ?%elem_of_nil |].
    destruct (due c) as [a|] eqn:Ed; [|done]. exists 0. rewrite seqZ_nil, Z.add_0_r by lia. split_and!; auto; lia. }
  destruct (step e c w) as [[s c1] w1] eqn:E1. destruct (run es c1 w1) as [[ss1 c2] w2] eqn:E2.
  injection H as <- <- <-. destruct (step_inv e c w s c1 w1 I E1) as (I1 & [N1 M1] & B1 & D1).
  destruct (IH c1 w1 ss1 c2 w2 I1 E2) as (I2 & [N2 M2] & B2 & D2).
  split_and!; [done | | |].
  - unfold numbers, written in *. rewrite bind_cons, <- app_assoc, N2, app_assoc, N1, <- app_assoc. split; [|lia].
    f_equal. replace (cl_sent c1) with (cl_sent c + (cl_sent c1 - cl_sent c)) at 2 by lia.
    rewrite <- seqZ_app by lia. f_equal. lia.
  - intros n cell x [Hx|Hx]%elem_of_cons; [by eapply B1 | by eapply B2].
  - unfold taken_in in *. rewrite bind_cons. destruct (due c) as [a|].
    + destruct D1 as [[-> [Hd | Hd]]|(-> & Hd & Hlt)]; rewrite Hd in D2.
      * exact D2.
      * destruct D2 as [-> Hd2]. exists 0. rewrite seqZ_nil by lia. split_and!; auto; lia.
      * destruct D2 as (k & Hk & -> & Hd2 & Hb). exists (1 + k). rewrite seqZ_app by lia.
        split_and!; [lia | done | by rewrite Z.add_assoc | intros _].
        destruct (Z.eq_dec k 0) as [->|]; [lia|]. rewrite Z.add_assoc. apply Hb. lia.
    + destruct D1 as [-> Hd]. by rewrite Hd in D2.
Qed.

End Invariant.

(** ** What is dialled *)

Section Dialled.
Context `{CL : CryptoLaws}.

Lemma randomLinks_ok n w ids w' : randomLinks n w = (Ok ids, w') -> length ids = n /\ good_links ids.
Proof.
  revert w ids w'. induction n as [|n IH]; intros w ids w' H; cbn [randomLinks] in H.
  { apply retM_ok in H as [-> _]. by split; [|constructor]. }
  apply bindM_ok in H as (id & w1 & Hid & H). apply bindM_ok in H as (t & w2 & [Hl Hg]%IH & [-> _]%retM_ok).
  split; [by cbn; rewrite Hl|]. constructor; [|done]. unfold randomCircuitID in Hid.
  apply bindM_ok in Hid as (b & w3 & Hb%mwrap_ok%rand_read_ok & [-> _]%retM_ok).
  pose proof (unbe_bound b) as B. rewrite Hb in B. exact B.
Qed.

Lemma prepare_ok cfg w p w' : prepare cfg w = (Ok p, w') ->
  cf_Chain cfg <> [] /\ length (pr_links p) = length (cf_Chain cfg) /\ good_links (pr_links p) /\
  NewCircuit (sr_CellKeys (pr_setup p)) (sr_Offsets (pr_setup p)) (pr_links p) = Ok (pr_circuit p) /\
  exists size w0 w1 w2, PublicKeySize w = (Ok size, w0) /\ randomLinks (length (cf_Chain cfg)) w0 = (Ok (pr_links p), w1) /\
    BuildSetup (setupChain (cf_Chain cfg) (pr_links p)) w1 = (Ok (pr_setup p), w2) /\
    Forall (fun n => length (nd_StaticPub n) = size /\ length (linkKey n) = size) (cf_Chain cfg).
Proof.
  unfold prepare. destruct (Nat.eqb_spec (length (cf_Chain cfg)) 0) as [|Hne]; [discriminate|]. intros H.
  apply bindM_ok in H as (size & w0 & Hsz & H). destruct (forallb _ _) eqn:Hall in H; [|discriminate]. cbn [negb] in H.
  apply bindM_ok in H as (links & w1 & Hl & H). apply bindM_ok in H as (setup & w2 & Hb & H).
  apply bindM_ok in H as (k & w3 & [Hc ->]%lift_ok & [-> ->]%retM_ok). cbn [pr_links pr_setup pr_circuit].
  destruct (randomLinks_ok _ _ _ _ Hl) as [Hlen Hg].
  split_and!; try done; [by intros E; rewrite E in Hne|]. exists size, w0, w1, w2. split_and!; try done.
  apply Forall_forall. intros n Hn. rewrite forallb_forall in Hall.
  specialize (Hall n (proj1 (list_elem_of_In _ _) Hn)). by rewrite andb_true_iff, !Nat.eqb_eq in Hall.
Qed.

Lemma Dial_ok cfg net w c raw w' : Dial cfg net w = ((Ok c, raw), w') ->
  exists p w0 raw0 conn raw1 w1 l, prepare cfg w = (Ok p, w0) /\ net = Ok raw0 /\
    Link.Dial (Some (linkKey (cf_Chain cfg !!! 0%nat))) raw0 w0 = ((Ok conn, raw1), w1) /\
    WriteCell (sr_Cell (pr_setup p)) (conn, raw1) w1 = ((Ok tt, l), w') /\
    c = newClient cfg p l /\ raw = Some (snd l).
Proof.
  unfold Dial. destruct (prepare cfg w) as [[p|e] w0] eqn:Ep; [|discriminate]. destruct net as [raw0|]; [|discriminate].
  destruct (Link.Dial _ raw0 w0) as [[[conn|e] raw1] w1] eqn:El; [|discriminate].
  destruct (WriteCell _ _ w1) as [[[u|e] l] w2] eqn:Ew; [|discriminate]. intros [= <- <- <-]. destruct u.
  by exists p, w0, raw0, conn, raw1, w1, l.
Qed.

Lemma newClient_inv cfg p l : inv (pr_circuit p) (sr_CellKeys (pr_setup p)) (newClient cfg p l).
Proof.
  constructor; cbn; try done.
  - intros w [= <-]. lia.
  - unfold starts_ticker. rewrite lookup_empty. split; [by repeat case_match | by intros [? ?]].
  - by intros [|].
  - split; apply Nat.leb_le; reflexivity.
Qed.

(** A run of a client from the moment [Dial] returned it. *)
Definition dialled_run (cfg : Config) (net : res Raw) (w : World) (c0 : Client) (es : list Event)
    (ss : list Seen) (c : Client) : Prop :=
  exists raw w1 w2 w3, Dial cfg net w = ((Ok c0, raw), w1) /\ run es c0 w2 = ((ss, c), w3).

Lemma live_keys (l : list bytes) : omap id (Some <$> l) = l.
Proof. induction l as [|x t IH]; [done|]. cbn. f_equal. exact IH. Qed.

Lemma dialled_ok cfg net w c0 es ss c : dialled_run cfg net w c0 es ss c ->
  exists offs links, NewCircuit (omap id (cl_keys c0)) offs links = Ok (cl_circuit c0) /\ good_links links /\
  links !!! 0%nat = cl_inbound c0 /\ cl_keys c0 = Some <$> omap id (cl_keys c0) /\
  inv (cl_circuit c0) (omap id (cl_keys c0)) c0 /\ due c0 = Some 0 /\ cl_sent c0 = 0 /\ pending c0 = [].
Proof.
  intros (raw & w1 & w2 & w3 & (p & w0 & raw0 & conn & raw1 & w4 & l & Hp & _ & _ & _ & -> & _)%Dial_ok & _).
  apply prepare_ok in Hp as (_ & _ & Hg & Hc & _). cbn [newClient cl_keys cl_circuit cl_inbound].
  rewrite live_keys. exists (sr_Offsets (pr_setup p)), (pr_links p). split_and!; try done. apply newClient_inv.
Qed.

Lemma sealed_header k0 keys offs links n cell : NewCircuit keys offs links = Ok k0 -> good_links links ->
  0 <= n -> sealed_by k0 n cell ->
  Cell_Header cell = Ok {| h_Version := Version; h_Kind := KindData; h_Circuit := links !!! 0%nat; h_Counter := n |} /\
  length cell = CellSize.
Proof.
  intros Hc%NewCircuit_ok Hg Hn (payload & cover & w & w' & H). pose proof (seal_limit _ _ _ _ _ _ _ H) as Hlim.
  assert (Hl0 : 0 <= links !!! 0%nat < 2 ^ 64).
  { destruct Hc as [Hpos _ Hl _ _ _ _ _ _]. apply (proj1 (Forall_forall _ _) Hg).
    apply list_elem_of_lookup_total_2. lia. }
  unfold Circuit_seal in H. destruct (_ =? _)%nat; [discriminate|]. destruct (_ <? _); [discriminate|].
  destruct (cellLimit <=? n); [discriminate|].
  apply bindM_ok in H as (inner & w1 & _ & H). apply bindM_ok in H as (x & w2 & [Hx ->]%lift_ok & H).
  apply bindM_ok in H as (body & w3 & _ & H). destruct (Nat.eqb_spec (length body) BodySize) as [Hb|]; [|discriminate].
  apply retM_ok in H as [-> _]. rewrite (data_cell_new x00) in Hx by apply length_replicate. apply ok_inj in Hx as <-.
  rewrite (co_clinks _ _ _ _ Hc).
  assert (E : copy_at headerSize body (data_cell (links !!! 0%nat) n (replicate BodySize x00))
              = data_cell (links !!! 0%nat) n body).
  { unfold data_cell, headerSize.
    change (Version :: KindData :: be 8 (links !!! 0%nat) ++ be 8 n ++ replicate BodySize x00)
      with (([Version; KindData] ++ be 8 (links !!! 0%nat) ++ be 8 n) ++ replicate BodySize x00).
    rewrite copy_at_app by (rewrite ?length_replicate, ?Hb; len; done).
    by rewrite drop_ge, app_nil_r by (rewrite length_replicate, Hb; done). }
  rewrite E. split; [|by apply data_cell_length]. rewrite data_cell_header; [done | done |].
  unfold cellLimit in Hlim. lia.
Qed.

(** A relay's sequence takes all the counters of a row from its start. *)
Lemma sequence_takes n s : sq_seeded s = true -> sq_next s = sq_taken s -> 0 <= sq_taken s ->
  sq_taken s + n <= cellLimit -> taken_of s (seqZ (sq_taken s) n) = seqZ (sq_taken s) n.
Proof.
  intros Hs Hn H0 Hlim. destruct (Z.le_gt_cases n 0) as [|Hpos]; [by rewrite seqZ_nil|].
  replace n with (Z.of_nat (Z.to_nat n)) in * by lia. generalize dependent (Z.to_nat n). intros m Hlim Hpos. clear n.
  assert (Hc : cellLimit < counterLimit /\ counterLimit < 2 ^ 64) by (unfold cellLimit, counterLimit; lia).
  clear Hpos. induction m as [|m IH] in s, Hs, Hn, H0, Hlim |- *; [done|].
  rewrite seqZ_cons by lia. cbn [taken_of]. unfold Next. rewrite Hs, Hn, Z.eqb_refl.
  rewrite (proj2 (Z.leb_gt counterLimit _)), (proj2 (Z.leb_gt cellLimit _)) by lia. cbn [orb andb negb].
  f_equal. replace (Z.pred (Z.of_nat (S m))) with (Z.of_nat m) by lia.
  assert (Eu : u64 (sq_taken s + 1) = Z.succ (sq_taken s)) by (unfold u64; rewrite Z.mod_small; lia).
  assert (Es : shift (sq_taken s) 1 = Z.succ (sq_taken s)) by (rewrite shift_mod, Z.mod_small; lia).
  rewrite Eu, Es. apply (IH {| sq_next := _; sq_taken := _; sq_seeded := true |}); cbn; lia || done.
Qed.

(** C31. A client's cells leave in turn: in any interleaving of its threads the
    cells put on the entry link carry the counters 0, 1, 2, ... without gap or
    repetition, each is one sealing of the client's circuit under its number with
    the entry circuit in its header, at most one counted cell is not yet written,
    and the sequence the first relay checks takes every one of them. *)
Theorem client_sends_in_turn cfg net w c0 es ss c : dialled_run cfg net w c0 es ss c ->
  let m := Z.of_nat (length (written ss)) in
  written ss = seqZ 0 m /\ cl_sent c = m + Z.of_nat (length (pending c)) /\ cl_sent c <= cellLimit /\
  taken_of (Expect 0 Sequence_zero) (written ss) = written ss /\
  forall n cell r, OnLink n cell r ∈ ss -> length cell = CellSize /\
  Cell_Header cell = Ok {| h_Version := Version; h_Kind := KindData; h_Circuit := cl_inbound c0; h_Counter := n |} /\
  exists payload cover w1 w2, Circuit_seal (cl_circuit c0) n payload cover w1 = (Ok cell, w2).
Proof.
  intros H m. destruct (dialled_ok _ _ _ _ _ _ _ H) as (offs & links & Hc & Hg & <- & _ & I & _ & Hs & Hp).
  destruct H as (raw & w1 & w2 & w3 & _ & Hrun).
  destruct (run_inv _ _ _ _ _ _ _ _ I Hrun) as (I' & [Hn Hle] & Hby & _).
  rewrite Hp, Hs, Z.sub_0_r in Hn. cbn [app] in Hn. pose proof (i_sent _ _ _ I') as Hlim.
  assert (Hlen : cl_sent c = m + Z.of_nat (length (pending c))).
  { apply (f_equal length) in Hn. rewrite length_app, length_seqZ in Hn. unfold m. lia. }
  assert (Hw : written ss = seqZ 0 m).
  { apply (f_equal (take (length (written ss)))) in Hn. rewrite take_app_length in Hn. rewrite Hn.
    rewrite Hlen, seqZ_app by lia. rewrite take_app_length'; [done|]. rewrite length_seqZ. unfold m. lia. }
  split_and!; try done; try lia.
  - rewrite Hw. apply (sequence_takes m (Expect 0 Sequence_zero)); cbn; lia || done.
  - intros n cell r Hin. pose proof (Hby n cell r Hin) as Hseal.
    assert (0 <= n) as H0.
    { assert (n ∈ written ss) as Hin' by (apply list_elem_of_bind; exists (OnLink n cell r); split; [by left | done]).
      rewrite Hw, elem_of_seqZ in Hin'. lia. }
    destruct (sealed_header _ _ _ _ n cell Hc Hg H0 Hseal) as [-> ->]. done.
Qed.

(** *** After the link closed *)




(** C33. The circuit keys outlive their use: while a call of [send] or the
    receiver is under way the circuit is the one that was dialled and no key of
    it is released, and where [Close] has gone through nothing of the sort is
    under way, the link is closed, the circuit is empty and every key released. *)
Theorem keys_outlive_use cfg net w c0 es ss c : dialled_run cfg net w c0 es ss c ->
  (idle c = false -> cl_circuit c = cl_circuit c0 /\ cl_keys c = cl_keys c0 /\ Forall (fun k => is_Some k) (cl_keys c)) /\
  (cl_closing c = Closed -> cl_sends c = ∅ /\ cl_recv c = Ended /\ stopped (cl_ticker c) = true /\
     link_closed (cl_link c) /\ Hops (cl_circuit c) = 0%nat /\ Forall (fun k => k = None) (cl_keys c) /\
     length (cl_keys c) = length (cl_keys c0)).
Proof.
  intros H. destruct (dialled_ok _ _ _ _ _ _ _ H) as (offs & links & _ & _ & _ & Hk & I & _).
  destruct H as (raw & w1 & w2 & w3 & _ & Hrun).
  destruct (run_inv _ _ _ _ _ _ _ _ I Hrun) as (I' & _). split.
  - intros Hi. destruct (busy_open _ _ _ I' Hi) as [Hc Hks]. rewrite Hks, <- Hk. split_and!; [done | done |].
    rewrite Hk. apply Forall_fmap, Forall_true. intros x. by eexists.
  - intros Hcl. destruct (i_done _ _ _ I' Hcl) as (Hi & Hc & Hks). apply idle_nothing in Hi as [Hs Hr].
    split_and!; try done.
    + apply (i_stop _ _ _ I'). by right.
    + apply (i_shut _ _ _ I'); by rewrite Hcl.
    + by rewrite Hc.
    + rewrite Hks. by apply Forall_fmap, Forall_true.
    + rewrite Hks, length_fmap. rewrite Hk at 2. by rewrite length_fmap.
Qed.

(** ** Closing comes to an end *)

(** The events a client's own threads bring about once it is closed. *)
Definition own (e : Event) : bool :=
  match e with EvStep _ | EvStop | EvReceive | EvCloses => true | _ => false end.

Definition leads (n : nat) (c : Client) (w : World) (c' : Client) (w' : World) : Prop :=
  exists es ss, forallb own es = true /\ (length es <= n)%nat /\ run es c w = ((ss, c'), w').

Lemma run_app es1 es2 c w : run (es1 ++ es2) c w =
  let '((ss1, c1), w1) := run es1 c w in let '((ss2, c2), w2) := run es2 c1 w1 in ((ss1 ++ ss2, c2), w2).
Proof.
  revert c w. induction es1 as [|e es1 IH]; intros c w; cbn [app run].
  - by destruct (run es2 c w) as [[? ?] ?].
  - destruct (step e c w) as [[s c1] w1]. rewrite IH. destruct (run es1 c1 w1) as [[ss1 c2] w2].
    by destruct (run es2 c2 w2) as [[ss2 c3] w3].
Qed.

Lemma leads_refl c w : leads 0 c w c w.
Proof. by exists [], []. Qed.

Lemma leads_trans n m c w c1 w1 c2 w2 : leads n c w c1 w1 -> leads m c1 w1 c2 w2 -> leads (n + m) c w c2 w2.
Proof.
  intros (es1 & ss1 & O1 & L1 & R1) (es2 & ss2 & O2 & L2 & R2). exists (es1 ++ es2), (ss1 ++ ss2).
  rewrite forallb_app, O1, O2, length_app, run_app, R1, R2. split_and!; [done | lia | done].
Qed.

Lemma leads_step e c w s c' w' : own e = true -> step e c w = ((s, c'), w') -> leads 1 c w c' w'.
Proof. intros Ho Hs. exists [e], [s]. cbn. rewrite Ho, Hs. done. Qed.

Lemma leads_weaken n m c w c' w' : (n <= m)%nat -> leads n c w c' w' -> leads m c w c' w'.
Proof. intros H (es & ss & ? & ? & ?). exists es, ss. split_and!; [done | lia | done]. Qed.

Section Ends.
Context (k0 : Circuit) (ks : list bytes).

Lemma leads_inv n c w c' w' : inv k0 ks c -> leads n c w c' w' -> inv k0 ks c'.
Proof. intros I (es & ss & _ & _ & R). by destruct (run_inv _ _ _ _ _ _ _ _ I R) as (? & _). Qed.

(** What the drain of a thread leaves alone. *)
Definition drained (c c' : Client) (sends : gmap nat Sending) : Prop :=
  cl_sends c' = sends /\ cl_closing c' = cl_closing c /\ cl_recv c' = cl_recv c.

Lemma after_send_drained tid r c : cl_sends (after_send tid r c) = cl_sends c /\
  cl_closing (after_send tid r c) = cl_closing c /\ cl_recv (after_send tid r c) = cl_recv c.
Proof. unfold after_send, ticked. repeat case_match; done. Qed.

Lemma leave_drained tid l c c' r : c' = after_send tid r (leave_send tid (set_link l c)) ->
  drained c c' (delete tid (cl_sends c)).
Proof.
  intros ->. unfold drained. destruct (after_send_drained tid r (leave_send tid (set_link l c))) as (-> & -> & ->).
  destruct (leave_same tid (set_link l c)) as (-> & _ & -> & _ & _ & ->). done.
Qed.

Lemma step_of_send tid c w r c1 w1 : send_step tid c w = ((r, c1), w1) ->
  leads 1 c w (after_send tid r c1) w1.
Proof.
  intros E. eapply (leads_step (EvStep tid)); [done|]. cbn [step]. by rewrite E.
Qed.

Lemma drain_written tid n cell c w : cl_sends c !! tid = Some (Sealed n cell) ->
  exists c' w', leads 1 c w c' w' /\ drained c c' (delete tid (cl_sends c)).
Proof.
  intros Hs. destruct (send_step tid c w) as [[r c1] w1] eqn:E. exists (after_send tid r c1), w1.
  split; [by apply step_of_send|]. unfold send_step in E. rewrite Hs in E.
  destruct (WriteCell cell (cl_link c) w) as [[x l] w2]. injection E as <- <- <-. by eapply leave_drained.
Qed.

Lemma drain_one tid s c w : cl_sends c !! tid = Some s -> cl_closed c = true -> (holds s = false -> cl_lock c = None) ->
  exists c' w', leads 2 c w c' w' /\ drained c c' (delete tid (cl_sends c)).
Proof.
  intros Hs Hc Hl. assert (Hll : set_link (cl_link c) c = c) by (by destruct c).
  destruct s as [cover payload|cover payload|n cell].
  - assert (E : send_step tid c w = ((Returns (Err errClosed), leave_send tid c), w))
      by (unfold send_step; by rewrite Hs, (Hl eq_refl), Hc).
    eexists _, _. split; [eapply (leads_weaken 1); [lia | by apply step_of_send]|].
    apply (leave_drained tid (cl_link c) c _ (Returns (Err errClosed))). by rewrite Hll.
  - destruct (send_step tid c w) as [[r c1] w1] eqn:E. pose proof (step_of_send _ _ _ _ _ _ E) as L.
    unfold send_step in E. rewrite Hs in E. destruct (_ w) as [[cell|e] w2] in E; injection E as <- <- <-.
    + rewrite after_wait in L.
      destruct (drain_written tid (cl_sent c) cell (set_sent (u64 (cl_sent c + 1))
        (set_sends (<[tid := Sealed (cl_sent c) cell]> (cl_sends c)) c)) w2) as (c' & w' & L' & (D1 & D2 & D3)).
      { cbn. by rewrite lookup_insert_eq. }
      exists c', w'. split; [exact (leads_trans 1 1 _ _ _ _ _ _ L L')|]. split_and!; [|done|done].
      rewrite D1. cbn. by rewrite delete_insert_eq.
    + eexists _, _. split; [eapply (leads_weaken 1); [lia | exact L]|].
      apply (leave_drained tid (cl_link c) c _ (Returns (Err e))). by rewrite Hll.
  - destruct (drain_written tid n cell c w Hs) as (c' & w' & L & D). exists c', w'.
    split; [by eapply (leads_weaken 1); [lia|]|done].
Qed.

Lemma drain_sends c w : inv k0 ks c -> cl_closed c = true ->
  exists c' w', leads (2 * size (cl_sends c)) c w c' w' /\ drained c c' ∅.
Proof.
  remember (size (cl_sends c)) as n eqn:En. revert c w En. induction n as [|n IH]; intros c w En I Hc.
  { symmetry in En. apply map_size_empty_inv in En. exists c, w. split; [apply leads_refl | by split_and!]. }
  assert (exists tid s, cl_sends c !! tid = Some s /\ (holds s = false -> cl_lock c = None)) as (tid & s & Hs & Hl).
  { destruct (cl_lock c) as [t|] eqn:Hl.
    - destruct (i_held _ _ c I t Hl) as (s & Hs & Hh). exists t, s. split; [done|]. congruence.
    - destruct (map_choose (cl_sends c)) as (tid & s & Hs); [|by exists tid, s].
      intros E. rewrite E, map_size_empty in En. discriminate. }
  destruct (drain_one tid s c w Hs Hc Hl) as (c1 & w1 & L1 & (D1 & D2 & D3)).
  destruct (IH c1 w1) as (c2 & w2 & L2 & (E1 & E2 & E3)).
  - rewrite D1, map_size_delete_Some by (by eexists). lia.
  - by eapply leads_inv.
  - unfold cl_closed in *. by rewrite D2.
  - exists c2, w2. split; [by eapply (leads_weaken (2 + 2 * n)); [lia | eapply leads_trans]|].
    split_and!; [done | by rewrite E2 | by rewrite E3].
Qed.

Lemma drain_receiver c w : link_closed (cl_link c) ->
  exists c' w', leads 2 c w c' w' /\ cl_recv c' = Ended /\ cl_sends c' = cl_sends c /\
    cl_closing c' = cl_closing c /\ cl_ticker c' = cl_ticker c.
Proof.
  intros Hl.
  assert (Hread : forall c w want, link_closed (cl_link c) -> cl_recv c = Reading want ->
    leads 1 c w (set_recv Ended (set_link (cl_link c) c)) w).
  { intros c1 w1 want Hl1 Hr. eapply (leads_step EvReceive); [done|]. cbn [step receive]. unfold receive. rewrite Hr.
    destruct (read_closed (cl_link c1) w1 Hl1) as [e ->]. done. }
  destruct (cl_recv c) as [want|want cell|] eqn:Er.
  - eexists _, _. split; [eapply (leads_weaken 1); [lia | by eapply Hread]|]. done.
  - destruct (step EvReceive c w) as [[s c1] w1] eqn:E. pose proof (leads_step EvReceive c w s c1 w1 eq_refl E) as L.
    cbn [step] in E. unfold receive in E. rewrite Er in E. destruct (open cell want c) as [[p cover]|e]; injection E as <- <- <-.
    + set (c2 := set_recv (Reading (u64 (want + 1))) (deliver p cover c)) in *.
      assert (D : cl_link c2 = cl_link c /\ cl_sends c2 = cl_sends c /\ cl_closing c2 = cl_closing c /\ cl_ticker c2 = cl_ticker c)
        by (unfold c2, deliver; by repeat case_match).
      destruct D as (D1 & D2 & D3 & D4).
      eexists _, _. split; [apply (leads_trans 1 1 _ _ _ _ _ _ L); eapply Hread; [by rewrite D1 | done]|]. done.
    + eexists _, _. split; [eapply (leads_weaken 1); [lia | exact L]|]. done.
  - exists c, w. split; [eapply (leads_weaken 0); [lia | apply leads_refl]|]. done.
Qed.

Lemma closes c w : leads 1 c w (close_step c) w.
Proof. by eapply (leads_step EvCloses). Qed.

(** From where the link is closed and the ticker stopped. *)
Lemma finish c w : inv k0 ks c -> cl_closing c = WaitsBusy ->
  exists c' w', leads (2 * size (cl_sends c) + 3) c w c' w' /\ cl_closing c' = Closed.
Proof.
  intros I Hc. destruct (drain_sends c w I) as (c1 & w1 & L1 & (D1 & D2 & D3)); [by unfold cl_closed; rewrite Hc|].
  assert (I1 : inv k0 ks c1) by (by eapply leads_inv).
  destruct (drain_receiver c1 w1) as (c2 & w2 & L2 & E1 & E2 & E3 & _).
  { apply (i_shut _ _ _ I1); by rewrite D2, Hc. }
  exists (close_step c2), w2. split.
  { eapply (leads_weaken (2 * size (cl_sends c) + 2 + 1)); [lia|]. eapply leads_trans; [by eapply leads_trans|]. apply closes. }
  unfold close_step, idle. rewrite E1, E2, E3, D1, D2, Hc. by rewrite bool_decide_true.
Qed.

Lemma stops c w : inv k0 ks c -> cl_closing c = StopsTicker ->
  exists c' w', leads (2 * size (cl_sends c) + 5) c w c' w' /\ cl_closing c' = Closed.
Proof.
  intros I Hc. destruct (drain_sends c w I) as (c1 & w1 & L1 & (D1 & D2 & D3)); [by unfold cl_closed; rewrite Hc|].
  assert (I1 : inv k0 ks c1) by (by eapply leads_inv).
  assert (L2 : leads 1 c1 w1 (stop_ticker c1) w1) by (by eapply (leads_step EvStop)).
  assert (I2 : inv k0 ks (stop_ticker c1)) by (exact (leads_inv _ _ _ _ _ I1 L2)).
  assert (Hst : stopped (cl_ticker (stop_ticker c1)) = true).
  { assert (Hn : cl_ticker c1 <> TickSends) by (rewrite (i_ticker _ _ _ I1), D1, lookup_empty; by intros [? ?]).
    unfold stop_ticker. rewrite D2, Hc. by destruct (cl_ticker c1) eqn:E; cbn; rewrite ?E. }
  assert (Hsame : cl_closing (stop_ticker c1) = StopsTicker /\ cl_sends (stop_ticker c1) = ∅)
    by (unfold stop_ticker; rewrite D2, Hc; destruct (cl_ticker c1); cbn; by rewrite ?D1, ?D2).
  destruct Hsame as [Hcl Hse].
  pose proof (leads_trans _ _ _ _ _ _ _ _ (leads_trans _ _ _ _ _ _ _ _ L1 L2) (closes (stop_ticker c1) w1)) as L3.
  assert (I3 : inv k0 ks (close_step (stop_ticker c1))) by (exact (leads_inv _ _ _ _ _ I L3)).
  assert (H3 : close_step (stop_ticker c1) = set_closing WaitsBusy (stop_ticker c1))
    by (unfold close_step; by rewrite Hcl, Hst).
  destruct (finish (close_step (stop_ticker c1)) w1 I3) as (c4 & w4 & L4 & H4); [by rewrite H3|].
  exists c4, w4. split; [|done]. rewrite H3 in L3, L4. cbn [cl_sends set_closing] in L4. rewrite Hse, map_size_empty in L4.
  eapply leads_weaken; [|exact (leads_trans _ _ _ _ _ _ _ _ L3 L4)]. lia.
Qed.

Lemma close_finishes c w : inv k0 ks c -> cl_closing c <> Living ->
  exists c' w', leads (2 * size (cl_sends c) + 6) c w c' w' /\ cl_closing c' = Closed.
Proof.
  intros I Hc. destruct (cl_closing c) eqn:E; [done| | | |].
  - pose proof (closes c w) as L. assert (I1 : inv k0 ks (close_step c)) by (exact (leads_inv _ _ _ _ _ I L)).
    assert (H1 : close_step c = set_closing StopsTicker (set_link (Link_Close (cl_link c)) c))
      by (unfold close_step; by rewrite E).
    destruct (stops (close_step c) w I1) as (c2 & w2 & L2 & H2); [by rewrite H1|].
    exists c2, w2. split; [|done]. eapply leads_weaken; [|exact (leads_trans _ _ _ _ _ _ _ _ L L2)].
    rewrite H1. cbn [cl_sends set_closing set_link]. lia.
  - destruct (stops c w I E) as (c2 & w2 & L2 & H2). exists c2, w2. split; [|done]. eapply leads_weaken; [|done]. lia.
  - destruct (finish c w I E) as (c2 & w2 & L2 & H2). exists c2, w2. split; [|done]. eapply leads_weaken; [|done]. lia.
  - exists c, w. split; [|done]. eapply (leads_weaken 0); [lia | apply leads_refl].
Qed.

End Ends.

(** C34. [Close] comes to its end by itself: from any state in which it was called,
    in whatever place the sends, the receiver and the ticker are, the client's own
    threads lead it to the state where everything is released, in at most two steps
    for each send under way and six more; the peer need do nothing.  A second
    [Close] changes nothing, and a closed client takes no more sends. *)
Theorem close_ends cfg net w c0 es ss c w2 : dialled_run cfg net w c0 es ss c -> cl_closing c <> Living ->
  (exists c' w', leads (2 * size (cl_sends c) + 6) c w2 c' w' /\ cl_closing c' = Closed) /\
  Close c = c /\
  forall tid cover payload w3, send tid cover payload c w3 = ((Ok (Some (Err errClosed)), c), w3).
Proof.
  intros H Hc. destruct (dialled_ok _ _ _ _ _ _ _ H) as (offs & links & _ & _ & _ & _ & I & _).
  destruct H as (raw & w1 & w4 & w3 & _ & Hrun).
  destruct (run_inv _ _ _ _ _ _ _ _ I Hrun) as (I' & _). split; [by eapply close_finishes|]. split.
  - unfold Close. by destruct (cl_closing c).
  - intros. unfold send, cl_closed. by rewrite bool_decide_false.
Qed.

(** ** The schedule *)

(** A row of calls of [Send], the answers aside. *)
Fixpoint send_all (tid : nat) (ps : list bytes) (c : Client) (w : World) : Client * World :=
  match ps with
  | [] => (c, w)
  | p :: rest => let '((_, c), w) := Send tid p c w in send_all tid rest c w
  end.

Definition fits (c : Client) (p : bytes) : bool := Z.of_nat (length p) <=? cl_maxPayload c.

(** The client with the schedule's own two fields set. *)
Definition set_schedule (q : list bytes) (d : Z) (c : Client) : Client := set_dropped d (set_queue q c).

Lemma same_schedule c : set_schedule (cl_queue c) (cl_dropped c) c = c.
Proof. by destruct c. Qed.

Lemma Send_scheduled tid p c w : scheduled c = true ->
  Send tid p c w =
    if fits c p then
      if (length (cl_queue c) <? queueCap)%nat
      then ((Ok (Some (Ok tt)), set_schedule (cl_queue c ++ [p]) (cl_dropped c) c), w)
      else ((Ok (Some (Ok tt)), set_schedule (cl_queue c) (u64 (cl_dropped c + 1)) c), w)
    else ((Ok (Some (Err (Sentinel wire_ErrPayloadSize))), c), w).
Proof.
  intros Hs. unfold Send, fits. rewrite Hs. rewrite Z.ltb_antisym.
  destruct (Z.of_nat (length p) <=? cl_maxPayload c); cbn [negb]; [|done].
  destruct (_ <? _)%nat; unfold set_schedule; by destruct c.
Qed.

(** A scheduled client's link does not follow the conversation: [Send] puts
    what fits in the queue, in its order, until 256 wait, counts what it has to
    drop, refuses what is too long, and touches nothing else, so no cell leaves
    because of it; and a tick starts exactly one send whatever the queue holds,
    of the first message if there is one and of a cover cell if not. *)
Theorem schedule_blind c : scheduled c = true -> (length (cl_queue c) <= queueCap)%nat -> 0 <= cl_dropped c < 2 ^ 64 ->
  (forall tid ps w,
     let offered := cl_queue c ++ List.filter (fits c) ps in
     send_all tid ps c w = (set_schedule (take queueCap offered)
       (u64 (cl_dropped c + Z.of_nat (length offered - queueCap))) c, w)) /\
  (forall w u w1, cl_ticker c = TickIdle -> cl_closing c = Living -> delay c w = (Ok u, w1) ->
     tick c w = ((Ok tt, set_ticker TickSends (set_sends (<[tickTid :=
         match cl_queue c with p :: _ => Delaying false p | [] => Delaying true [] end]> (cl_sends c))
         (set_queue (tail (cl_queue c)) c))), w1)).
Proof.
  intros Hs Hq Hd. split.
  - intros tid ps. induction ps as [|p ps IH] in c, Hs, Hq, Hd |- *; intros w offered.
    { unfold offered. cbn [send_all List.filter]. rewrite app_nil_r, take_ge by done.
      replace (length (cl_queue c) - queueCap)%nat with 0%nat by lia. rewrite Z.add_0_r. unfold u64.
      by rewrite Z.mod_small, same_schedule. }
    cbn [send_all]. rewrite (Send_scheduled tid p c w Hs). subst offered. cbn [List.filter].
    destruct (fits c p) eqn:Ef; [|by apply IH].
    destruct (Nat.ltb_spec (length (cl_queue c)) queueCap) as [Hlt|Hge].
    + rewrite (IH (set_schedule (cl_queue c ++ [p]) (cl_dropped c) c)); try done.
      * cbn [cl_queue cl_dropped set_schedule set_dropped set_queue]. rewrite <- app_assoc. by destruct c.
      * cbn. rewrite length_app. simpl. lia.
    + rewrite (IH (set_schedule (cl_queue c) (u64 (cl_dropped c + 1)) c)); try done.
      * cbn [cl_queue cl_dropped set_schedule set_dropped set_queue]. rewrite !take_app_le, !length_app by lia.
        cbn [length]. unfold u64. rewrite Zplus_mod_idemp_l.
        replace (length (cl_queue c) + S (length (List.filter (fits c) ps)) - queueCap)%nat
          with (S (length (cl_queue c) + length (List.filter (fits c) ps) - queueCap)) by lia.
        change (List.filter (fits (set_schedule _ _ c)) ps) with (List.filter (fits c) ps).
        replace (cl_dropped c + Z.of_nat (S (length (cl_queue c) + length (List.filter (fits c) ps) - queueCap)))
          with (cl_dropped c + 1 + Z.of_nat (length (cl_queue c) + length (List.filter (fits c) ps) - queueCap)) by lia.
        by destruct c.
      * cbn. unfold u64. apply Z.mod_pos_bound. lia.
  - intros w u w1 Ht Hc Hdel. unfold tick. rewrite Ht, Hs. unfold send, cl_closed.
    destruct (cl_queue c) as [|p q] eqn:Eq; cbn [cl_closing set_queue]; rewrite Hc, bool_decide_true by done; cbn [negb].
    + rewrite Hdel. cbn [tail]. do 3 f_equal. destruct c. cbn in *. by subst.
    + change (delay (set_queue q c) w) with (delay c w). by rewrite Hdel.
Qed.

(** ** What dialling comes to *)

Lemma randomLinks_size n w ids w' : randomLinks n w = (Ok ids, w') -> size_cache w' = size_cache w.
Proof.
  revert w ids w'. induction n as [|n IH]; intros w ids w' H; cbn [randomLinks] in H; [by inv_m|].
  apply bindM_ok in H as (id & w1 & Hid & H). apply bindM_ok in H as (t & w2 & Ht%IH & [_ ->]%retM_ok).
  rewrite Ht. unfold randomCircuitID in Hid.
  apply bindM_ok in Hid as (b & w3 & Hb%mwrap_ok%draw_size & [_ ->]%retM_ok). done.
Qed.

Definition addr_ok (a : bytes) : Prop := a <> [] /\ takeAddr a = a.

Definition owns (node : bytes * bytes) (n : Node) : Prop := KeyPair (fst node) (nd_StaticPub n) /\ snd node = nd_StaticPub n.

Lemma setupChain_links chain links : length links = length chain -> sh_Link <$> setupChain chain links = links.
Proof.
  revert links. induction chain as [|n chain IH]; intros [|l links] H; try done. cbn. f_equal. apply IH. by injection H.
Qed.

Lemma setupChain_length chain links : length links = length chain -> length (setupChain chain links) = length chain.
Proof. intros H. by rewrite <- (length_fmap sh_Link), setupChain_links. Qed.

Lemma setupChain_ok chain links : length links = length chain -> good_links links ->
  Forall (fun n => addr_ok (nd_Addr n)) (tail chain) -> chain_ok (setupChain chain links).
Proof.
  revert links. induction chain as [|n chain IH]; intros [|l links] Hl Hg Ha; try done.
  apply Forall_cons in Hg as [Hl0 Hg]. injection Hl as Hl. cbn [setupChain chain_ok]. split; [|split].
  - unfold hop_ok. cbn. split; [done|]. destruct chain as [|n' chain], links as [|l' links]; try done.
    apply Forall_cons in Ha as [[_ Ha] _]. apply Forall_cons in Hg as [Hg _]. done.
  - destruct chain as [|n' chain], links as [|l' links]; try done.
    apply Forall_cons in Ha as [[Ha _] _]. done.
  - apply IH; [done | done |]. destruct chain; [done|]. by apply Forall_cons in Ha as [_ ?].
Qed.

Lemma setupChain_owned nodes chain links : length links = length chain -> Forall2 owns nodes chain ->
  Forall2 holds_key nodes (setupChain chain links).
Proof.
  intros Hl H. revert links Hl. induction H as [|node n nodes chain [Hk Hp] H IH]; intros [|l links] Hl; try done.
  constructor; [split; [exact Hk | exact Hp]|]. apply IH. by injection Hl.
Qed.

(** C30. Dialling lays a circuit: if the relays of the chain hold the keys it names
    and their addresses can be carried, then what the client wrote on its link to
    the entry ends with the sealed setup cell, that cell opens relay after relay
    to the exit, and the hop ciphers the relays make of it are those of the
    circuit the client has: every property of a circuit holds between them. *)
Theorem dial_lays_circuit cfg net w c raw w1 nodes w2 :
  Dial cfg net w = ((Ok c, Some raw), w1) -> sizes_sound w ->
  Forall2 owns nodes (cf_Chain cfg) -> Forall (fun n => addr_ok (nd_Addr n)) (tail (cf_Chain cfg)) ->
  sizes_cached w2 -> (length (cf_Chain cfg) * BodySize <= length (entropy w2))%nat ->
  exists keys offs links setup ls w3 hs,
    cl_keys c = Some <$> keys /\ NewCircuit keys offs links = Ok (cl_circuit c) /\ good_links links /\
    links !!! 0%nat = cl_inbound c /\
    (exists front a, raw_out raw = front ++ frame_of a 0 setup /\ cn_send (fst (cl_link c)) = Some a) /\
    setup_trip nodes 0 setup w2 = (Ok ls, w3) /\ relay_hops 0 ls = Ok hs /\ hops_of keys offs hs /\
    sl_First <$> last ls = Some (shift 0 (off_fwd (sum_offsets (take (length (cf_Chain cfg) - 1) offs)))).
Proof.
  intros (p & w0 & raw0 & conn & raw1 & w4 & l & Hp & -> & Hd & Hw & -> & [= ->])%Dial_ok Hs Hn Ha Hc He.
  apply prepare_ok in Hp as (Hne & Hll & Hg & Hk & size & w5 & w6 & w7 & Hsz & Hrl & Hb & _).
  assert (Hs6 : sizes_sound w6).
  { unfold PublicKeySize in Hsz. apply bindM_ok in Hsz as (sz & w8 & Hz & [_ ->]%retM_ok).
    apply sizesOf_ok in Hz as [_ Hz]; [|done]. intros v Hv. rewrite (randomLinks_size _ _ _ _ Hrl) in Hv.
    unfold sizes_cached in Hz. congruence. }
  pose proof (setupChain_length _ _ Hll) as Hcl.
  destruct (setup_makes_circuit _ nodes _ _ _ w2 Hs6 Hb) as (k & ls & w8 & hs & Hk' & _ & Ht & Hr & Hh & Hf); auto.
  - by apply setupChain_ok.
  - by apply setupChain_owned.
  - by rewrite Hcl.
  - exists (sr_CellKeys (pr_setup p)), (sr_Offsets (pr_setup p)), (pr_links p), (sr_Cell (pr_setup p)), ls, w8, hs.
    destruct l as [conn' raw']. apply WriteCell_ok in Hw as (a & Hsa & _ & -> & Ho & _ & _).
    apply Link.link_Dial_ok in Hd as (ephPriv & ephPub & a' & _ & _ & _ & Hseq & _). rewrite Hseq in Ho.
    split_and!; try done.
    + exists (raw_out raw1), a. split; [exact Ho | exact Hsa].
    + by rewrite <- Hcl.
Qed.

(** No circuit is dialled on doubtful keys: a chain with a key missing or of
    the wrong size is refused before anything is drawn or opened, whatever the
    dialler would answer; a client that was dialled named nodes with keys of the
    right size only, and its link asked the entry for its key; a connection that
    was opened and did not become a client's is closed. *)
Theorem dial_checks_keys cfg net w : sizes_sound w ->
  (sizes_cached w -> cf_Chain cfg <> [] ->
     ~ Forall (fun n => length (nd_StaticPub n) = pub_size /\ length (linkKey n) = pub_size) (cf_Chain cfg) ->
     Dial cfg net w = ((Err (Sentinel client_ErrNodeKey), None), w)) /\
  (forall c raw w1, Dial cfg net w = ((Ok c, raw), w1) ->
     Forall (fun n => length (nd_StaticPub n) = pub_size /\ length (linkKey n) = pub_size) (cf_Chain cfg) /\
     exists raw0 eph rest, net = Ok raw0 /\ raw_out <$> raw = Some (raw_out raw0 ++ (modeAuthenticated :: eph) ++ rest) /\
       length eph = pub_size) /\
  (forall e raw w1, Dial cfg net w = ((Err e, Some raw), w1) -> raw_closed raw = true).
Proof.
  intros Hs. split_and!.
  - intros Hc Hne Hbad. unfold Dial, prepare. rewrite (proj2 (Nat.eqb_neq _ _)) by (by intros E%nil_length_inv).
    unfold PublicKeySize, bindM. rewrite (sizesOf_cached w Hc). unfold retM. cbn [sz_pub known_sizes].
    match goal with |- context [forallb ?f _] => destruct (forallb f (cf_Chain cfg)) eqn:E end; [|done].
    exfalso. apply Hbad, Forall_forall. intros n Hn. rewrite forallb_forall in E.
    specialize (E n (proj1 (list_elem_of_In _ _) Hn)). by rewrite andb_true_iff, !Nat.eqb_eq in E.
  - intros c raw w1 (p & w0 & raw0 & conn & raw1 & w4 & l & Hp & -> & Hd & Hw & -> & ->)%Dial_ok.
    apply prepare_ok in Hp as (Hne & _ & _ & _ & size & w5 & w6 & w7 & Hsz & _ & _ & Hall).
    unfold PublicKeySize in Hsz. apply bindM_ok in Hsz as (sz & w8 & Hz & [-> _]%retM_ok).
    apply sizesOf_ok in Hz as [-> _]; [|done]. split; [exact Hall|].
    destruct l as [conn' raw']. apply WriteCell_ok in Hw as (a & Hsa & _ & -> & Ho & _ & _).
    apply Link.link_Dial_ok in Hd as (ephPriv & ephPub & a' & Hkp & Ho1 & _).
    exists raw0, ephPub, (frame_of a (cn_sendSeq conn) (sr_Cell (pr_setup p))). split_and!; [done | |].
    + cbn [snd fmap option_fmap option_map]. rewrite Ho, Ho1, <- app_assoc. done.
    + by eapply generate_pub_size.
  - intros e raw w1. unfold Dial. destruct (prepare cfg w) as [[p|e'] w0]; [|discriminate].
    destruct net as [raw0|]; [|discriminate]. destruct (Link.Dial _ raw0 w0) as [[[conn|e'] raw1] w2].
    + destruct (WriteCell _ _ w2) as [[[u|e'] l] w3]; [discriminate|]. by intros [= <- <- <-].
    + by intros [= <- <- <-].
Qed.

End Dialled.

(** ** Witnesses *)

(** The run of a client that dials: the counters it wrote and the replies it took. *)
Definition outcome `{CryptoProvider} (cfg : Config) (net : res Raw) (w : World) (es : list Event)
    : option (list Z * list Z * bool) :=
  match Dial cfg net w with
  | ((Ok c, Some _), w) => let '((ss, c'), _) := run es c w in Some (written ss, taken_in ss, cl_closed c')
  | _ => None
  end.

Lemma outcome_run `{CryptoProvider} cfg net w es x : outcome cfg net w es = Some x ->
  exists c0 ss c, dialled_run cfg net w c0 es ss c /\ (written ss, taken_in ss, cl_closed c) = x.
Proof.
  unfold outcome, dialled_run. destruct (Dial cfg net w) as [[[c0|e] [raw|]] w1] eqn:E; try discriminate.
  destruct (run es c0 w1) as [[ss c] w2] eqn:R. intros [= <-]. exists c0, ss, c. split; [|done].
  by exists (Some raw), w1, w1, w2.
Qed.

Module ClientDemo.
Import ToySuite.

Definition world : World := {| entropy := replicate 6000 x5a; size_cache := ∅; pub_cache := ∅ |}.

Definition pair1 : bytes * bytes := get_ok (fst (GenerateEphemeral (replicate 32 x21))) eq_refl.
Definition pair2 : bytes * bytes := get_ok (fst (GenerateEphemeral (replicate 32 x42))) eq_refl.

Definition cfg : Config :=
  {| cf_Chain := [{| nd_Addr := str "entry.example:9000"; nd_StaticPub := snd pair1; nd_LinkPub := [] |};
                  {| nd_Addr := str "exit.example:9000"; nd_StaticPub := snd pair2; nd_LinkPub := [] |}];
     cf_Mode := Immediate; cf_Rate := 0; cf_CoverRate := 0; cf_Jitter := 5 |}.

(** What the entry answers to the client's handshake. *)
Definition left_over : bytes := Eval vm_compute in entropy (snd (prepare cfg world)).
Definition hello : bytes :=
  Eval vm_compute in hello_of (Some (snd pair1)) (snd (get_ok (fst (GenerateEphemeral left_over)) eq_refl)).
Definition answer : bytes :=
  Eval vm_compute in raw_out (snd (fst (Accept (Some (fst pair1)) (snd pair1) (LinkDemo.wire_of hello) LinkDemo.responder))).

Definition net : res Raw := Ok (LinkDemo.wire_of answer).

Definition known : World := with_size Suite {| sz_pub := 32; sz_overhead := 16 |} world.

Lemma demo_sound : sizes_sound world.
Proof. intros v H. discriminate H. Qed.

Lemma demo_cached : sizes_cached known.
Proof. apply lookup_insert_eq. Qed.

(** Two threads send at once, and the second is first at the lock. *)
Definition events : list Event :=
  [EvCover 1; EvSend 2 (str "hi"); EvStep 2; EvStep 1; EvStep 2; EvStep 2; EvStep 1; EvStep 1; EvStep 1].

Lemma outcome_sends : outcome cfg net world events = Some ([0; 1], [], false).
Proof. vm_compute. reflexivity. Qed.

(** A reply that is none: one frame of zeros that do not open end the link; then Close. *)
Lemma outcome_close : outcome cfg net world (events ++ [EvArrive (replicate 528 x00); EvReceive; EvClose; EvClose]) = Some ([0; 1], [], true).
Proof. vm_compute. reflexivity. Qed.

Lemma dialled : exists c raw w, Dial cfg net world = ((Ok c, Some raw), w).
Proof.
  destruct (outcome_run _ _ _ _ _ outcome_sends) as (c0 & ss & c & (raw & w1 & w2 & w3 & H & _) & _).
  pose proof H as (p & w0 & raw0 & conn & raw1 & w4 & l & _ & _ & _ & _ & _ & Hr)%Dial_ok. rewrite Hr in H.
  exists c0, (snd l), w1. exact H.
Qed.

(** A scheduled client, its queue one short of full. *)
Definition paced : Client :=
  newClient {| cf_Chain := []; cf_Mode := ConstantRate; cf_Rate := 100; cf_CoverRate := 0; cf_Jitter := 0 |}
    {| pr_links := [7]; pr_setup := {| sr_Cell := []; sr_CellKeys := []; sr_Offsets := [] |};
       pr_circuit := Demo.circuit |} (LinkDemo.sender, LinkDemo.wire_of []).

Definition nearly_full : Client := set_queue (replicate 255 (str "old")) paced.

End ClientDemo.

Import ToySuite.

Lemma client_sends_in_turn_witness :
  exists c0 ss c, dialled_run ClientDemo.cfg ClientDemo.net ClientDemo.world c0 ClientDemo.events ss c /\
    written ss = [0; 1] /\ taken_of (Expect 0 Sequence_zero) (written ss) = written ss.
Proof.
  destruct (outcome_run _ _ _ _ _ ClientDemo.outcome_sends) as (c0 & ss & c & H & E). exists c0, ss, c.
  destruct (client_sends_in_turn _ _ _ _ _ _ _ H) as (_ & _ & _ & Ht & _).
  split; [exact H|]. split; [congruence | exact Ht].
Defined.


Lemma keys_outlive_use_witness :
  exists c0 ss c, dialled_run ClientDemo.cfg ClientDemo.net ClientDemo.world c0 ClientDemo.events ss c /\
    (idle c = false -> cl_circuit c = cl_circuit c0).
Proof.
  destruct (outcome_run _ _ _ _ _ ClientDemo.outcome_sends) as (c0 & ss & c & H & E). exists c0, ss, c.
  split; [exact H|]. intros Hi. exact (proj1 (proj1 (keys_outlive_use _ _ _ _ _ _ _ H) Hi)).
Defined.

Lemma close_ends_witness :
  exists c c' w', cl_closing c <> Living /\
    leads (2 * size (cl_sends c) + 6) c ClientDemo.world c' w' /\ cl_closing c' = Closed.
Proof.
  destruct (outcome_run _ _ _ _ _ ClientDemo.outcome_close) as (c0 & ss & c & H & E).
  assert (Hc : cl_closing c <> Living) by (injection E as _ _ E; intros Hl; unfold cl_closed in E; rewrite Hl in E; discriminate E).
  destruct (close_ends _ _ _ _ _ _ _ ClientDemo.world H Hc) as ((c' & w' & L & Hd) & _).
  exists c, c', w'. split; [exact Hc|]. split; [exact L | exact Hd].
Defined.

Lemma schedule_blind_witness :
  send_all 1 [str "a"; str "b"; str "c"] ClientDemo.nearly_full ClientDemo.world =
    (set_schedule (replicate 255 (str "old") ++ [str "a"]) 2 ClientDemo.nearly_full, ClientDemo.world).
Proof.
  destruct (schedule_blind ClientDemo.nearly_full eq_refl) as [H _].
  - apply Nat.leb_le. reflexivity.
  - split; [discriminate | reflexivity].
  - exact (H 1%nat [str "a"; str "b"; str "c"] ClientDemo.world).
Defined.

Lemma dial_lays_circuit_witness :
  exists c raw w1 keys offs links hs, Dial ClientDemo.cfg ClientDemo.net ClientDemo.world = ((Ok c, Some raw), w1) /\
    NewCircuit keys offs links = Ok (cl_circuit c) /\ hops_of keys offs hs.
Proof.
  destruct ClientDemo.dialled as (c & raw & w1 & E). exists c, raw, w1.
  destruct (dial_lays_circuit _ _ _ _ _ _ [ClientDemo.pair1; ClientDemo.pair2] ClientDemo.known E ClientDemo.demo_sound)
    as (keys & offs & links & setup & ls & w3 & hs & _ & Hk & _ & _ & _ & _ & _ & Hh & _).
  - apply Forall2_cons. split; [|apply Forall2_cons; split; [|by constructor]]; split; try reflexivity.
    + exists (replicate 32 x21), []. vm_compute. reflexivity.
    + exists (replicate 32 x42), []. vm_compute. reflexivity.
  - constructor; [|constructor]. split; [discriminate | reflexivity].
  - exact ClientDemo.demo_cached.
  - apply Nat.leb_le. reflexivity.
  - exists keys, offs, links, hs. split; [exact E|]. split; [exact Hk | exact Hh].
Defined.

Lemma dial_checks_keys_witness :
  Dial {| cf_Chain := [{| nd_Addr := []; nd_StaticPub := snd ClientDemo.pair1; nd_LinkPub := [x00] |}];
          cf_Mode := Immediate; cf_Rate := 0; cf_CoverRate := 0; cf_Jitter := 0 |} ClientDemo.net ClientDemo.known
    = ((Err (Sentinel client_ErrNodeKey), None), ClientDemo.known).
Proof.
  apply (dial_checks_keys _ _ ClientDemo.known).
  - intros v Hv. pose proof ClientDemo.demo_cached as Hc. unfold sizes_cached in Hc. congruence.
  - exact ClientDemo.demo_cached.
  - discriminate.
  - intros H. apply Forall_cons in H as [[_ H] _]. discriminate H.
Defined.
