(* ===== verification/Ring.v ===== *)
(** * Ring: the onion keys of a relay and their rotation

    Models [src/relay/onion.go].  The ring holds the key the node publishes and,
    after a rotation, the one before it, each with the tags of the setups it
    opened.  A key buffer is its bytes, [None] where Go has a nil buffer; the
    buffers the ring has released are kept in order in [rg_released].  The lock
    is left out: one operation is one step. *)

From Stdlib Require Import Strings.Byte Strings.String.
From S2P Require Import Prelude Effects Crypto C25519 Toy Cell Replay Onion Chain Setup.

Definition u32 (z : Z) : Z := z mod 2 ^ 32.

Definition MaxSetupCache : Z := 2 ^ 20.

Definition exchangeKeyCheck : bytes := str "relay/keycheck".

Record onionKey : Type := {
  ok_epoch : Z;
  ok_priv : bytes;
  ok_pub : bytes;
  ok_setups : SetupCache
}.

Record OnionRing : Type := {
  rg_pubSize : nat;
  rg_cacheSize : Z;
  rg_current : option onionKey;
  rg_previous : option onionKey;
  rg_closed : bool;
  rg_released : list bytes
}.

Definition refusedKey (err : error) (mismatch : sentinel) : error :=
  if errors_is err crypto_ErrBadPublicKey || errors_is err crypto_ErrBadKeySize
  then ErrWrap (Sentinel mismatch) (ErrHide err)
  else err.

Definition refuse_key {A} (mismatch : sentinel) (r : res A) : res A :=
  match r with Ok a => Ok a | Err e => Err (refusedKey e mismatch) end.

(** Retire, Close and Current do not need the provider. *)
Definition Retire (g : OnionRing) : OnionRing :=
  match rg_previous g with
  | None => g
  | Some k =>
      {| rg_pubSize := rg_pubSize g; rg_cacheSize := rg_cacheSize g; rg_current := rg_current g;
         rg_previous := None; rg_closed := rg_closed g; rg_released := rg_released g ++ [ok_priv k] |}
  end.

Definition slot_privs (o : option onionKey) : list bytes :=
  match o with Some k => [ok_priv k] | None => [] end.

Definition Ring_Close (g : OnionRing) : OnionRing :=
  {| rg_pubSize := rg_pubSize g; rg_cacheSize := rg_cacheSize g; rg_current := None;
     rg_previous := None; rg_closed := true;
     rg_released := rg_released g ++ slot_privs (rg_current g) ++ slot_privs (rg_previous g) |}.

Definition Current (g : OnionRing) : Z * option bytes :=
  match rg_current g with
  | None => (0, None)
  | Some k => (ok_epoch k, Some (ok_pub k))
  end.

Section Ring.
Context {P : CryptoProvider}.

Definition checkKeyPair (priv pub : bytes) (mismatch : sentinel) : M unit :=
  let! (ephPriv, ephPub) := draw GenerateEphemeral in
  let! ctx := lift (NewContext exchangeKeyCheck [pub; ephPub]) in
  let! theirs := lift (refuse_key mismatch (Agree ephPriv pub ctx)) in
  let! ours := lift (refuse_key mismatch (Agree priv ephPub ctx)) in
  if negb (bool_decide (theirs = ours)) then failM (Sentinel mismatch) else retM tt.

Definition staticRing (priv pub : bytes) (cacheSize : Z) : OnionRing :=
  {| rg_pubSize := length pub; rg_cacheSize := cacheSize;
     rg_current := Some {| ok_epoch := 0; ok_priv := priv; ok_pub := pub;
                           ok_setups := NewSetupCache cacheSize |};
     rg_previous := None; rg_closed := false; rg_released := [] |}.

Definition NewOnionRing (priv : option bytes) (pub : bytes) (cacheSize : Z) : M OnionRing :=
  if (cacheSize <? 0) || (MaxSetupCache <? cacheSize) then failM (Other "relay: setup cache outside")
  else
    let! size := PublicKeySize in
    match priv with
    | None => failM (Sentinel relay_ErrOnionKey)
    | Some priv =>
        if negb (length pub =? size)%nat then failM (Sentinel relay_ErrOnionKey)
        else
          let! _ := checkKeyPair priv pub relay_ErrOnionKey in
          retM {| rg_pubSize := size; rg_cacheSize := cacheSize;
                  rg_current := Some {| ok_epoch := 0; ok_priv := priv; ok_pub := pub;
                                        ok_setups := NewSetupCache cacheSize |};
                  rg_previous := None; rg_closed := false; rg_released := [] |}
    end.

(** What [Rotate] does under the lock. *)
Definition rotate_locked (priv pub : bytes) (g : OnionRing) : res Z * OnionRing :=
  match rg_current g with
  | None => (Err (Sentinel relay_errRingClosed), g)
  | Some cur =>
      if bool_decide (pub = ok_pub cur) then (Err (Sentinel relay_ErrOnionKey), g)
      else
        let e := u32 (ok_epoch cur + 1) in
        (Ok e, {| rg_pubSize := rg_pubSize g; rg_cacheSize := rg_cacheSize g;
                  rg_current := Some {| ok_epoch := e; ok_priv := priv; ok_pub := pub;
                                        ok_setups := NewSetupCache (rg_cacheSize g) |};
                  rg_previous := Some cur; rg_closed := rg_closed g;
                  rg_released := rg_released g ++ slot_privs (rg_previous g) |})
  end.

Definition Rotate (priv : option bytes) (pub : bytes) (g : OnionRing) (w : World)
    : (res Z * OnionRing) * World :=
  match priv with
  | None => ((Err (Sentinel relay_ErrOnionKey), g), w)
  | Some priv =>
      if negb (length pub =? rg_pubSize g)%nat then ((Err (Sentinel relay_ErrOnionKey), g), w)
      else
        match checkKeyPair priv pub relay_ErrOnionKey w with
        | (Err e, w') => ((Err e, g), w')
        | (Ok _, w') =>
            if rg_closed g then ((Err (Sentinel relay_errRingClosed), g), w')
            else (rotate_locked priv pub g, w')
        end
  end.

Inductive slot : Type := CurrentSlot | PreviousSlot.

(** What [Open] has found so far: the layer and the key that opened it, and the
    first refusal. *)
Definition Found : Type := option (SetupLayer * slot) * option error.

Definition try_key (cell : Cell) (s : slot) (o : option onionKey) (f : Found) (w : World) : Found * World :=
  match o with
  | None => (f, w)
  | Some k =>
      let '(r, w') := OpenSetup (ok_priv k) (ok_pub k) cell w in
      (match r, f with
       | Err e, (opened, None) => (opened, Some e)
       | Err _, _ => f
       | Ok layer, (None, refused) => (Some (layer, s), refused)
       | Ok _, _ => f
       end, w')
  end.

Definition set_setups (c : SetupCache) (k : onionKey) : onionKey :=
  {| ok_epoch := ok_epoch k; ok_priv := ok_priv k; ok_pub := ok_pub k; ok_setups := c |}.

Definition slot_key (s : slot) (g : OnionRing) : option onionKey :=
  match s with CurrentSlot => rg_current g | PreviousSlot => rg_previous g end.

Definition set_slot (s : slot) (k : onionKey) (g : OnionRing) : OnionRing :=
  {| rg_pubSize := rg_pubSize g; rg_cacheSize := rg_cacheSize g;
     rg_current := match s with CurrentSlot => Some k | PreviousSlot => rg_current g end;
     rg_previous := match s with CurrentSlot => rg_previous g | PreviousSlot => Some k end;
     rg_closed := rg_closed g; rg_released := rg_released g |}.

(** The end of [Open]: the tag is burned in the cache of the key that opened. *)
Definition burn (layer : SetupLayer) (s : slot) (g : OnionRing) : res SetupLayer * OnionRing :=
  match slot_key s g with
  | None => (Err (Sentinel relay_errRingClosed), g)
  | Some k =>
      let '(r, c) := Add (sl_Tag layer) (ok_setups k) in
      match r with
      | Err e => (Err e, set_slot s (set_setups c k) g)
      | Ok _ => (Ok layer, set_slot s (set_setups c k) g)
      end
  end.

(** The loop of [Open] over the two keys. *)
Definition try_keys (cell : Cell) (g : OnionRing) (w : World) : Found * World :=
  let '(f, w1) := try_key cell CurrentSlot (rg_current g) (None, None) w in
  try_key cell PreviousSlot (rg_previous g) f w1.

Definition Ring_Open (cell : Cell) (g : OnionRing) (w : World) : (res SetupLayer * OnionRing) * World :=
  if rg_closed g then ((Err (Sentinel relay_errRingClosed), g), w)
  else
    let '((opened, refused), w') := try_keys cell g w in
    match opened with
    | None => ((Err (default (Other "nil") refused), g), w')
    | Some (layer, s) => (burn layer s g, w')
    end.

(** ** Runs *)

Inductive ring_op : Type :=
| OpRotate (priv : option bytes) (pub : bytes)
| OpRetire
| OpClose
| OpOpen (cell : Cell).

(** One operation; with a setup it accepted, the epoch of the key and the tag. *)
Definition ring_step (op : ring_op) (g : OnionRing) (w : World)
    : (option (Z * bytes) * OnionRing) * World :=
  match op with
  | OpRotate priv pub => let '((_, g'), w') := Rotate priv pub g w in ((None, g'), w')
  | OpRetire => ((None, Retire g), w)
  | OpClose => ((None, Ring_Close g), w)
  | OpOpen cell =>
      let '((r, g'), w') := Ring_Open cell g w in
      let by_slot := match fst (fst (try_keys cell g w)) with Some (_, s) => slot_key s g | None => None end in
      ((match r with Ok layer => (fun k => (ok_epoch k, sl_Tag layer)) <$> by_slot | Err _ => None end, g'), w')
  end.

(** The ring after a run, and the setups it accepted, last first. *)
Fixpoint ring_run (ops : list ring_op) (acc : list (Z * bytes)) (g : OnionRing) (w : World)
    : list (Z * bytes) * OnionRing :=
  match ops with
  | [] => (acc, g)
  | op :: rest =>
      let '((a, g'), w') := ring_step op g w in
      ring_run rest (match a with Some x => x :: acc | None => acc end) g' w'
  end.

(** ** Lemmas *)

Lemma Add_ok tag c c' :
  Add tag c = (Ok tt, c') -> (tag ∉ sc_seen c) /\ sc_seen c' = {[tag]} ∪ sc_seen c.
Proof. unfold Add. repeat (case_bool_decide || case_match); intros [= <-]; done. Qed.

Lemma Add_err tag c e c' : Add tag c = (Err e, c') -> c' = c.
Proof. unfold Add. repeat (case_bool_decide || case_match); intros E; try discriminate; by injection E. Qed.

Lemma Add_fresh tag n : fst (Add tag (NewSetupCache n)) = Ok tt.
Proof.
  unfold Add. rewrite bool_decide_false by apply not_elem_of_empty.
  change (sc_seen (NewSetupCache n)) with (∅ : gset bytes). rewrite size_empty.
  pose proof (NewSetupCache_max n). by rewrite (proj2 (Z.leb_gt _ _)) by lia.
Qed.

Lemma set_slot_same s k g : slot_key s g = Some k -> set_slot s (set_setups (ok_setups k) k) g = g.
Proof. destruct s, k, g; simpl; by intros ->. Qed.

(** What [burn] does: it takes a new tag into the cache of that key, or refuses
    and changes nothing. *)
Lemma burn_spec layer s g k r g' :
  slot_key s g = Some k -> burn layer s g = (r, g') ->
  (exists e, r = Err e /\ g' = g) \/
  (exists c, r = Ok layer /\ (sl_Tag layer ∉ sc_seen (ok_setups k)) /\
     sc_seen c = {[sl_Tag layer]} ∪ sc_seen (ok_setups k) /\ g' = set_slot s (set_setups c k) g).
Proof.
  intros Hk. unfold burn. rewrite Hk. destruct (Add (sl_Tag layer) (ok_setups k)) as [[[]|e] c] eqn:E.
  - intros [= <- <-]. apply Add_ok in E as [Hn Hs]. right. by exists c.
  - intros [= <- <-]. apply Add_err in E as ->. left. exists e. by rewrite set_slot_same.
Qed.

Lemma try_key_slot cell s o f w layer s' refused w' :
  try_key cell s o f w = ((Some (layer, s'), refused), w') ->
  fst f = Some (layer, s') \/ (s' = s /\ exists k, o = Some k /\ fst (OpenSetup (ok_priv k) (ok_pub k) cell w) = Ok layer).
Proof.
  unfold try_key. destruct o as [k|]; [|intros [= -> _]; by left].
  destruct (OpenSetup (ok_priv k) (ok_pub k) cell w) as [[l|e] w1] eqn:E, f as [[x|] [y|]];
    intros [= ]; subst; simpl; eauto; right; split; eauto; exists k; by rewrite E.
Qed.

Lemma try_keys_slot cell g w layer s refused w' :
  try_keys cell g w = ((Some (layer, s), refused), w') -> exists k, slot_key s g = Some k.
Proof.
  unfold try_keys. destruct (try_key cell CurrentSlot (rg_current g) (None, None) w) as [f w1] eqn:E1.
  intros [H|(-> & k & H & _)]%try_key_slot; [|by exists k].
  destruct f as [o r]; simpl in H; subst o.
  apply try_key_slot in E1 as [E1|(-> & k & H & _)]; [discriminate E1 | by exists k].
Qed.

(** The two outcomes of [Ring_Open]. *)
Lemma Ring_Open_cases cell g w r g' w' :
  Ring_Open cell g w = ((r, g'), w') ->
  (exists e, r = Err e /\ g' = g) \/
  (exists layer s k c refused, r = Ok layer /\ rg_closed g = false /\
     try_keys cell g w = ((Some (layer, s), refused), w') /\ slot_key s g = Some k /\
     (sl_Tag layer ∉ sc_seen (ok_setups k)) /\
     sc_seen c = {[sl_Tag layer]} ∪ sc_seen (ok_setups k) /\ g' = set_slot s (set_setups c k) g).
Proof.
  unfold Ring_Open. destruct (rg_closed g); [intros [= <- <- <-]; left; eauto|].
  destruct (try_keys cell g w) as [[[[layer s]|] refused] w1] eqn:E.
  - pose proof (try_keys_slot _ _ _ _ _ _ _ E) as [k Hk].
    destruct (burn layer s g) as [r0 g0] eqn:EB. intros [= -> -> ->].
    destruct (burn_spec _ _ _ _ _ _ Hk EB) as [?|(c & -> & Hn & Hs & ->)]; [by left|].
    right. by exists layer, s, k, c, refused.
  - intros [= <- <- <-]. left. eauto.
Qed.

Lemma Rotate_cases priv pub g w r g' w' :
  Rotate priv pub g w = ((r, g'), w') ->
  (exists e, r = Err e /\ g' = g) \/
  (exists p cur, priv = Some p /\ rg_closed g = false /\ rg_current g = Some cur /\ pub <> ok_pub cur /\
     length pub = rg_pubSize g /\ checkKeyPair p pub relay_ErrOnionKey w = (Ok tt, w') /\
     (r, g') = rotate_locked p pub g /\ r = Ok (u32 (ok_epoch cur + 1))).
Proof.
  unfold Rotate. destruct priv as [p|]; [|intros [= <- <- <-]; left; eauto].
  destruct (Nat.eqb_spec (length pub) (rg_pubSize g)); simpl; [|intros [= <- <- <-]; left; eauto].
  destruct (checkKeyPair p pub relay_ErrOnionKey w) as [[[]|e0] w1] eqn:E; [|intros [= <- <- <-]; left; eauto].
  destruct (rg_closed g); [intros [= <- <- <-]; left; eauto|].
  destruct (rotate_locked p pub g) as [r0 g0] eqn:ER. intros [= -> -> ->].
  unfold rotate_locked in ER. destruct (rg_current g) as [cur|] eqn:Ec; [|injection ER as <- <-; left; eauto].
  case_bool_decide; [injection ER as <- <-; left; eauto|].
  right. exists p, cur. unfold rotate_locked. rewrite Ec, bool_decide_false by done.
  injection ER as <- <-. done.
Qed.

(** ** The invariant of a run *)

(** What was accepted under a live key is in its cache, and nothing was accepted
    under an epoch still to come. *)
Record ring_inv (acc : list (Z * bytes)) (g : OnionRing) : Prop := {
  ri_nodup : NoDup acc;
  ri_epoch k : rg_current g = Some k -> 0 <= ok_epoch k /\ forall e t, (e, t) ∈ acc -> e <= ok_epoch k;
  ri_prev p : rg_previous g = Some p -> exists k, rg_current g = Some k /\ ok_epoch p < ok_epoch k;
  ri_seen s k t : slot_key s g = Some k -> (ok_epoch k, t) ∈ acc -> t ∈ sc_seen (ok_setups k)
}.

(** The epoch can still be raised that many times without wrapping. *)
Definition epoch_room (n : nat) (g : OnionRing) : Prop :=
  forall k, rg_current g = Some k -> ok_epoch k + Z.of_nat n < 2 ^ 32.

Lemma inv_rotate acc g p pub cur n :
  ring_inv acc g -> epoch_room (S n) g -> rg_current g = Some cur -> pub <> ok_pub cur ->
  ring_inv acc (snd (rotate_locked p pub g)) /\ epoch_room n (snd (rotate_locked p pub g)).
Proof.
  intros [Hnd He Hp Hs] Hr Hc Hne. unfold rotate_locked. rewrite Hc, bool_decide_false by done. simpl.
  destruct (He cur Hc) as [H0 Hle]. specialize (Hr cur Hc).
  assert (Hu : u32 (ok_epoch cur + 1) = ok_epoch cur + 1) by (unfold u32; rewrite Z.mod_small; lia).
  rewrite Hu. split; [split; [done| | |]|].
  - intros k [= <-]. simpl. split; [lia|]. intros e t Ht. specialize (Hle e t Ht). lia.
  - intros q [= <-]. eexists. split; [done|]. simpl. lia.
  - intros [] k t [= <-] Hin; simpl in *.
    + specialize (Hle _ _ Hin). lia.
    + by apply (Hs CurrentSlot cur).
  - intros k [= <-]. simpl. lia.
Qed.

Lemma inv_retire acc g : ring_inv acc g -> ring_inv acc (Retire g).
Proof.
  intros [Hnd He Hp Hs]. unfold Retire. destruct (rg_previous g) eqn:E; [|by split; auto; rewrite E].
  split; simpl; auto; [done|]. intros [] k t Hk Hin; [by apply (Hs CurrentSlot k) | done].
Qed.

Lemma inv_close acc g : ring_inv acc g -> ring_inv acc (Ring_Close g).
Proof. intros [Hnd _ _ _]. split; simpl; try done. intros [] k t; done. Qed.

Lemma inv_burn acc g s k c t :
  ring_inv acc g -> slot_key s g = Some k -> (t ∉ sc_seen (ok_setups k)) ->
  sc_seen c = {[t]} ∪ sc_seen (ok_setups k) ->
  ring_inv ((ok_epoch k, t) :: acc) (set_slot s (set_setups c k) g).
Proof.
  intros [Hnd He Hp Hs] Hk Ht Hc.
  assert (Hle : forall q, rg_current g = Some q -> 0 <= ok_epoch q /\ ok_epoch k <= ok_epoch q).
  { intros q Hq. destruct (He q Hq) as [? _]. split; [done|]. destruct s; simpl in Hk.
    - rewrite Hq in Hk. injection Hk as ->. lia.
    - destruct (Hp k Hk) as (q' & Hq' & Hlt). rewrite Hq in Hq'. injection Hq' as ->. lia. }
  split.
  - constructor; [|done]. intros Hin. by apply Ht, (Hs s k).
  - intros q Hq.
    assert (exists q0, rg_current g = Some q0 /\ ok_epoch q = ok_epoch q0) as (q0 & Hq0 & ->).
    { destruct s; simpl in *; [injection Hq as <-; by exists k | by exists q]. }
    destruct (Hle q0 Hq0), (He q0 Hq0) as [_ Hall]. split; [done|].
    intros e u [[= -> ->]|Hin]%elem_of_cons; [done | by eapply Hall].
  - intros p Hpr. destruct s; simpl in *.
    + destruct (Hp p Hpr) as (q & Hq & Hlt). rewrite Hk in Hq. injection Hq as <-. eexists. split; [done | done].
    + injection Hpr as <-. destruct (Hp k Hk) as (q & Hq & Hlt). by exists q.
  - intros s' q u Hq Hin.
    assert (Hcase : (s' = s /\ q = set_setups c k) \/ (slot_key s' g = Some q /\ ok_epoch q <> ok_epoch k)).
    { destruct s, s'; simpl in *; try (injection Hq as <-; by left); right; split; try done.
      - destruct (Hp q Hq) as (k' & Hk' & Hlt). rewrite Hk in Hk'. injection Hk' as <-. lia.
      - destruct (Hp k Hk) as (q' & Hq' & Hlt). rewrite Hq in Hq'. injection Hq' as <-. lia. }
    destruct Hcase as [[-> ->]|[Hq' Hne]]; simpl in *.
    + rewrite Hc. apply elem_of_cons in Hin as [[= ->]|Hin]; [set_solver|].
      apply elem_of_union_r. by apply (Hs s k).
    + apply elem_of_cons in Hin as [[= ? ->]|Hin]; [done|]. by apply (Hs s' q).
Qed.

Lemma room_less n m g : (m <= n)%nat -> epoch_room n g -> epoch_room m g.
Proof. intros Hm Hr k Hk. specialize (Hr k Hk). lia. Qed.

Lemma room_slot n s k c g :
  slot_key s g = Some k -> epoch_room n g -> epoch_room n (set_slot s (set_setups c k) g).
Proof.
  intros Hk Hr q Hq. destruct s; simpl in *; [injection Hq as <-; by apply (Hr k) | by apply Hr].
Qed.

Lemma ring_step_inv op acc g w a g' w' n :
  ring_inv acc g -> epoch_room (S n) g -> ring_step op g w = ((a, g'), w') ->
  ring_inv (match a with Some x => x :: acc | None => acc end) g' /\ epoch_room n g'.
Proof.
  intros Hi Hr. pose proof (room_less (S n) n g ltac:(lia) Hr) as Hr'.
  destruct op as [priv pub| | |cell]; simpl.
  - destruct (Rotate priv pub g w) as [[r g0] w0] eqn:E. intros [= <- <- <-].
    destruct (Rotate_cases _ _ _ _ _ _ _ E) as [(e & _ & ->)|(p & cur & -> & _ & Hc & Hne & _ & _ & Hg & _)]; [done|].
    apply (f_equal snd) in Hg. simpl in Hg. rewrite Hg. by apply (inv_rotate acc g p pub cur).
  - intros [= <- <- <-]. split; [by apply inv_retire|]. unfold Retire. by destruct (rg_previous g).
  - intros [= <- <- <-]. split; [by apply inv_close|]. intros k. done.
  - destruct (Ring_Open cell g w) as [[r g0] w0] eqn:E. intros [= <- <- <-].
    destruct (Ring_Open_cases _ _ _ _ _ _ E) as [(e & -> & ->)|(layer & s & k & c & refused & -> & _ & HT & Hk & Hn & Hc & ->)];
      [done|].
    rewrite HT. simpl. rewrite Hk. simpl. split; [by apply inv_burn | by apply room_slot].
Qed.

Lemma ring_run_inv ops acc g w acc' g' :
  ring_inv acc g -> epoch_room (length ops) g -> ring_run ops acc g w = (acc', g') -> ring_inv acc' g'.
Proof.
  induction ops as [|op ops IH] in acc, g, w |- *; intros Hi Hr; cbn [ring_run length] in *; [by intros [= <- <-]|].
  destruct (ring_step op g w) as [[a g0] w0] eqn:E.
  destruct (ring_step_inv _ _ _ _ _ _ _ _ Hi Hr E). eauto.
Qed.

Lemma NewOnionRing_ok priv pub n w g w' :
  NewOnionRing priv pub n w = (Ok g, w') ->
  exists p, priv = Some p /\ 0 <= n <= MaxSetupCache /\ length pub = rg_pubSize g /\
    g = staticRing p pub n.
Proof.
  unfold NewOnionRing. destruct (Z.ltb_spec n 0), (Z.ltb_spec MaxSetupCache n); try discriminate. simpl.
  intros Hg. apply bindM_ok in Hg as (size & w1 & _ & Hg). destruct priv as [p|]; [|discriminate].
  destruct (Nat.eqb_spec (length pub) size); simpl in Hg; [|discriminate].
  apply bindM_ok in Hg as ([] & w2 & _ & [= <- <-]). exists p. unfold staticRing. subst. done.
Qed.

Lemma fresh_inv p pub n : ring_inv [] (staticRing p pub n).
Proof.
  split; simpl; try done; [apply NoDup_nil_2 | |].
  - intros k [= <-]. simpl. split; [done|]. intros e t H. by apply elem_of_nil in H.
  - intros [] k t Hk H; by apply elem_of_nil in H.
Qed.

End Ring.

(** ** Properties *)

Section Properties.
Context {P : CryptoProvider} {L : CryptoLaws}.

(** C7. No setup opens twice: over any run of openings, rotations, retirements
    and a close, with fewer operations than there are epochs, the setups a ring
    accepts are pairwise different under the epoch of the key that opened them,
    a rotation in between notwithstanding, and every one accepted under a key
    that is still live is refused as a replay if its tag is offered again. *)
Theorem ring_no_replay priv pub size w0 g w1 ops w acc g' :
  NewOnionRing priv pub size w0 = (Ok g, w1) -> Z.of_nat (length ops) < 2 ^ 32 ->
  ring_run ops [] g w = (acc, g') ->
  NoDup acc /\
  (forall s k layer, slot_key s g' = Some k -> (ok_epoch k, sl_Tag layer) ∈ acc ->
     burn layer s g' = (Err (Sentinel wire_ErrSetupReplay), g')).
Proof.
  intros (p & -> & _ & _ & ->)%NewOnionRing_ok Hn Hrun.
  apply ring_run_inv in Hrun as [Hnd _ _ Hs]; [|apply fresh_inv | intros k [= <-]; simpl; lia].
  split; [done|]. intros s k layer Hk Hin. unfold burn. rewrite Hk. unfold Add.
  rewrite bool_decide_true by (by apply (Hs s k)). by rewrite set_slot_same.
Qed.

(** A rotation lets the setups under way through and a retirement ends that:
    a setup that opens under the key before the rotation, and whose tag is new,
    still opens after it to the same layer, although the new key refuses it;
    once the old key is retired the refusal of the new key is the answer, and
    the old key's buffer is released. *)
Theorem rotation_grace g cur priv pub cell layer e1 w w1 w2 w3 w4 g' e refused :
  rg_closed g = false -> rg_current g = Some cur ->
  Rotate (Some priv) pub g w = ((Ok e, g'), w1) ->
  OpenSetup priv pub cell w2 = (Err refused, w3) ->
  OpenSetup (ok_priv cur) (ok_pub cur) cell w3 = (Ok layer, w4) ->
  Add (sl_Tag layer) (ok_setups cur) = (Ok tt, e1) ->
  fst (fst (Ring_Open cell g' w2)) = Ok layer /\
  Ring_Open cell (Retire g') w2 = ((Err refused, Retire g'), w3) /\
  ok_priv cur ∈ rg_released (Retire g').
Proof.
  intros Hcl Hc HR Hnew Hold HA.
  apply Rotate_cases in HR as [(x & [=] & _)|(p & cur' & [= <-] & _ & Hc' & Hne & _ & _ & Hg & _)].
  rewrite Hc in Hc'. injection Hc' as <-. unfold rotate_locked in Hg.
  rewrite Hc, bool_decide_false in Hg by done. injection Hg as _ ->. simpl.
  unfold Ring_Open, try_keys, try_key. simpl. rewrite Hcl, Hnew, Hold. simpl.
  unfold burn. simpl. rewrite HA. split_and!; [done | done |].
  apply elem_of_app. right. by apply list_elem_of_singleton.
Qed.

(** Every key buffer the ring was ever given. *)
Definition held (g : OnionRing) : list bytes :=
  rg_released g ++ slot_privs (rg_current g) ++ slot_privs (rg_previous g).

(** The ring loses no key and frees none twice: the buffers it has released
    and those in its two slots are together, at any time, exactly those it took
    over; a refused rotation changes nothing, so its caller still owns the key,
    opening setups releases nothing, and after a close all of them are
    released. *)
Theorem ring_owns_keys g w :
  (forall priv pub r g' w', Rotate priv pub g w = ((r, g'), w') ->
     match r with
     | Ok _ => exists p, priv = Some p /\ held g' ≡ₚ p :: held g /\ rg_previous g' = rg_current g
     | Err _ => g' = g
     end) /\
  held (Retire g) ≡ₚ held g /\ rg_previous (Retire g) = None /\
  rg_released (Ring_Close g) = held g /\
  (forall cell r g' w', Ring_Open cell g w = ((r, g'), w') ->
     held g' = held g /\ rg_released g' = rg_released g).
Proof.
  split_and!.
  - intros priv pub r g' w' [(e & -> & ->)|(p & cur & -> & _ & Hc & Hne & _ & _ & Hg & ->)]%Rotate_cases; [done|].
    exists p. split; [done|]. unfold rotate_locked in Hg. rewrite Hc, bool_decide_false in Hg by done.
    injection Hg as ->. unfold held. simpl. rewrite Hc. split; [|done]. simpl. solve_Permutation.
  - unfold Retire, held. destruct (rg_previous g) eqn:E; [|by rewrite E]. simpl. rewrite app_nil_r. solve_Permutation.
  - unfold Retire. by destruct (rg_previous g) eqn:E.
  - done.
  - intros cell r g' w' [(e & -> & ->)|(layer & s & k & c & x & _ & _ & _ & Hk & _ & _ & ->)]%Ring_Open_cases; [done|].
    unfold held. destruct s; simpl in *; by rewrite Hk.
Qed.

(** What the key check accepts: once an ephemeral pair is drawn and the
    exchange has a context, a pair passes exactly when the agreement of the
    ephemeral key with its public half and that of its private half with the
    ephemeral public key both succeed and give one secret; a pair the provider
    made passes whenever the first agreement succeeds. *)
Theorem key_check_accepts priv pub mismatch w ep eP e ctx :
  GenerateEphemeral (entropy w) = (Ok (ep, eP), e) ->
  NewContext exchangeKeyCheck [pub; eP] = Ok ctx ->
  (is_ok (fst (checkKeyPair priv pub mismatch w)) = true <->
   exists s, Agree ep pub ctx = Ok s /\ Agree priv eP ctx = Ok s) /\
  (KeyPair priv pub -> is_ok (Agree ep pub ctx) = true ->
   is_ok (fst (checkKeyPair priv pub mismatch w)) = true).
Proof.
  intros Hgen Hctx.
  assert (Hiff : is_ok (fst (checkKeyPair priv pub mismatch w)) = true <->
    exists s, Agree ep pub ctx = Ok s /\ Agree priv eP ctx = Ok s).
  { unfold checkKeyPair, bindM, lift, draw. rewrite Hgen, Hctx.
    destruct (Agree ep pub ctx) as [s|x]; simpl; [|by split; [|intros (? & ? & ?)]].
    destruct (Agree priv eP ctx) as [s'|x]; simpl; [|by split; [|intros (? & ? & ?)]].
    case_bool_decide as Heq; simpl; split; try done.
    - intros _. subst. eauto.
    - intros (u & [= <-] & [= ->]). done. }
  split; [done|]. intros Hkp Hok. apply Hiff.
  destruct (Agree ep pub ctx) as [s|] eqn:E; [|done]. exists s. split; [done|].
  rewrite <- E. apply agree_comm; [done|]. by exists (entropy w), e.
Qed.

End Properties.

(** ** Witnesses: the ring of the first relay of the demo chain *)

Module RingDemo.
Import ToySuite SetupDemo.

Definition new : res OnionRing * World := NewOnionRing (Some (fst pair1)) (snd pair1) 4 Demo.world.

Lemma new_is_ok : is_ok (fst new) = true.
Proof. vm_compute. reflexivity. Qed.

Definition ring : OnionRing := get_ok (fst new) new_is_ok.

Lemma new_ok : NewOnionRing (Some (fst pair1)) (snd pair1) 4 Demo.world = (Ok ring, snd new).
Proof. unfold ring. rewrite <- get_ok_spec. unfold new. by destruct (NewOnionRing _ _ _ _). Qed.

Lemma ring_is : ring = staticRing (fst pair1) (snd pair1) 4.
Proof. destruct (NewOnionRing_ok _ _ _ _ _ _ new_ok) as (p & [= <-] & _ & _ & H). exact H. Qed.

Definition ops : list ring_op :=
  [OpOpen (sr_Cell result); OpRotate (Some (fst pair2)) (snd pair2); OpOpen (sr_Cell result)].

(** The setup is accepted once, under epoch 0; the copy after the rotation is not. *)
Lemma one_accepted : length (fst (ring_run ops [] ring Demo.world)) = 1%nat.
Proof. rewrite ring_is. vm_compute. reflexivity. Qed.

Definition key0 : onionKey :=
  {| ok_epoch := 0; ok_priv := fst pair1; ok_pub := snd pair1; ok_setups := NewSetupCache 4 |}.

Definition fresh : OnionRing := staticRing (fst pair1) (snd pair1) 4.

Lemma rotated_ok : is_ok (fst (fst (Rotate (Some (fst pair2)) (snd pair2) fresh Demo.world))) = true.
Proof. vm_compute. reflexivity. Qed.

Lemma old_opens : is_ok (fst (OpenSetup (ok_priv key0) (ok_pub key0) (sr_Cell result) world2)) = true.
Proof. vm_compute. reflexivity. Qed.

Lemma new_refuses : is_ok (fst (OpenSetup (fst pair2) (snd pair2) (sr_Cell result) world2)) = false.
Proof. vm_compute. reflexivity. Qed.

Lemma new_world : snd (OpenSetup (fst pair2) (snd pair2) (sr_Cell result) world2) = world2.
Proof. vm_compute. reflexivity. Qed.

End RingDemo.

Import ToySuite SetupDemo.

Lemma ring_no_replay_witness :
  length (fst (ring_run RingDemo.ops [] RingDemo.ring Demo.world)) = 1%nat /\
  NoDup (fst (ring_run RingDemo.ops [] RingDemo.ring Demo.world)).
Proof.
  split; [exact RingDemo.one_accepted|].
  apply (ring_no_replay _ _ _ _ _ _ RingDemo.ops Demo.world _ (snd (ring_run RingDemo.ops [] RingDemo.ring Demo.world))
    RingDemo.new_ok); [simpl; lia | apply surjective_pairing].
Defined.

Lemma rotation_grace_witness :
  exists layer g' refused w3, fst (fst (Ring_Open (sr_Cell result) g' world2)) = Ok layer /\
    Ring_Open (sr_Cell result) (Retire g') world2 = ((Err refused, Retire g'), w3) /\
    ok_priv RingDemo.key0 ∈ rg_released (Retire g').
Proof.
  destruct (run_ok _ RingDemo.rotated_ok) as (e & g' & HR).
  destruct (run_err _ RingDemo.new_refuses) as (refused & w3 & HN).
  destruct (run_ok _ RingDemo.old_opens) as (layer & w4 & HO).
  assert (Hw : w3 = world2) by (rewrite <- RingDemo.new_world, HN; reflexivity). subst w3.
  exists layer, g', refused, world2.
  assert (HA : Add (sl_Tag layer) (ok_setups RingDemo.key0)
    = (Ok tt, snd (Add (sl_Tag layer) (ok_setups RingDemo.key0))))
    by (apply injective_projections; [apply Add_fresh | reflexivity]).
  pose proof (surjective_pairing (Rotate (Some (fst pair2)) (snd pair2) RingDemo.fresh Demo.world)) as HR'.
  rewrite HR in HR'. exact (rotation_grace RingDemo.fresh RingDemo.key0 _ _ _ layer _ _ _ _ _ _ g' e refused
    eq_refl eq_refl HR' HN HO HA).
Defined.

Lemma key_check_accepts_witness :
  exists ep eP e ctx, GenerateEphemeral (entropy Demo.world) = (Ok (ep, eP), e) /\
    NewContext exchangeKeyCheck [snd pair1; eP] = Ok ctx /\
    (is_ok (fst (checkKeyPair (fst pair1) (snd pair2) relay_ErrOnionKey Demo.world)) = false) /\
    (is_ok (fst (checkKeyPair (fst pair1) (snd pair1) relay_ErrOnionKey Demo.world)) = true <->
     exists s, Agree ep (snd pair1) ctx = Ok s /\ Agree (fst pair1) eP ctx = Ok s).
Proof.
  destruct (GenerateEphemeral (entropy Demo.world)) as [[[ep eP]|x] e] eqn:EG;
    [|apply (f_equal (fun r => is_ok (fst r))) in EG; vm_compute in EG; discriminate EG].
  destruct (NewContext exchangeKeyCheck [snd pair1; eP]) as [ctx|x] eqn:EC.
  - exists ep, eP, e, ctx. split; [reflexivity|]. split; [exact EC|]. split; [vm_compute; reflexivity|].
    exact (proj1 (key_check_accepts (fst pair1) (snd pair1) relay_ErrOnionKey Demo.world ep eP e ctx EG EC)).
  - apply (f_equal (fun r => match fst r with Ok p => snd p | Err _ => [] end)) in EG.
    cbn [fst snd] in EG. apply (f_equal is_ok) in EC. rewrite <- EG in EC. vm_compute in EC. discriminate EC.
Defined.
