(* ===== verification/Pace.v ===== *)
(** * Pace: the counters of a relay and the pacer of a link

    Models [Stats] of [src/relay/relay.go] and [src/relay/pace.go].  The
    goroutine of a pacer is a state machine driven by its timer: a tick sends
    one frame, the oldest cell of the queue or the padding cell.  What
    [WriteCell] answers is an input of the step.  A channel is its queue and its
    capacity. *)

From Stdlib Require Import Strings.Byte Strings.String.
From S2P Require Import Prelude Effects Crypto Cell.

(** ** Counters *)

Inductive stat : Type :=
| Accepted | Forwarded | Delivered | Dropped | Padding | Broken
| AcceptRetries | RefusedLinks | RefusedBusy | RefusedSource | RefusedRate | RefusedSetups
| RefusedExtend | FailedExtend | TimedOut | Expired.

#[export] Instance stat_eq_decision : EqDecision stat.
Proof. solve_decision. Defined.

Definition Stats : Type := stat -> Z.

Definition no_stats : Stats := fun _ => 0.

Definition stats_add (field : stat) (s : Stats) : Stats :=
  fun f => if decide (f = field) then u64 (s f + 1) else s f.

Definition stats_timeout (err : error) (s : Stats) : Stats :=
  if errors_is err os_ErrDeadlineExceeded then stats_add TimedOut s else s.

Definition lostToTeardown (err : error) : bool := errors_is err net_ErrClosed.

(** ** The pacer *)

Definition defaultQueueCells : Z := 64.
Definition maxQueueCells : Z := 4096.

Record queued : Type := { q_cell : Cell; q_forwarded : bool }.

Record pacer : Type := {
  pc_queue : list queued;
  pc_cap : nat;
  pc_running : bool    (* the goroutine has not returned *)
}.

Definition newPacer (size : Z) : pacer :=
  {| pc_queue := []; pc_cap := Z.to_nat (if size <=? 0 then defaultQueueCells else size); pc_running := true |}.

Definition set_queue (q : list queued) (p : pacer) : pacer :=
  {| pc_queue := q; pc_cap := pc_cap p; pc_running := pc_running p |}.

Definition stopped (p : pacer) : pacer :=
  {| pc_queue := pc_queue p; pc_cap := pc_cap p; pc_running := false |}.

Definition push (cell : Cell) (forwarded : bool) (p : pacer) : bool * pacer :=
  if (length (pc_queue p) <? pc_cap p)%nat
  then (true, set_queue (pc_queue p ++ [{| q_cell := cell; q_forwarded := forwarded |}]) p)
  else (false, p).

(** The frame [send] offers to the link. *)
Definition next_frame (p : pacer) : Cell :=
  match pc_queue p with q :: _ => q_cell q | [] => NewPadding end.

Definition send (outcome : res unit) (p : pacer) (s : Stats) : res unit * pacer * Stats :=
  match pc_queue p with
  | q :: rest =>
      match outcome with
      | Err e => (Err e, set_queue rest p, s)
      | Ok _ => (Ok tt, set_queue rest p, if q_forwarded q then stats_add Forwarded s else s)
      end
  | [] =>
      match outcome with
      | Err e => (Err e, p, s)
      | Ok _ => (Ok tt, p, stats_add Padding s)
      end
  end.

(** What closing does to the cells still waiting. *)
Fixpoint drain (q : list queued) (s : Stats) : Stats :=
  match q with [] => s | _ :: rest => drain rest (stats_add Dropped s) end.

Definition pacer_close (p : pacer) (s : Stats) : pacer * Stats :=
  ({| pc_queue := []; pc_cap := pc_cap p; pc_running := false |}, drain (pc_queue p) s).

(** One tick of [run]: the frame offered, and whether the link gets closed. *)
Definition tick (outcome : res unit) (p : pacer) (s : Stats) : option (Cell * bool) * pacer * Stats :=
  if pc_running p then
    let '(r, p', s') := send outcome p s in
    match r with
    | Ok _ => (Some (next_frame p, false), p', s')
    | Err e =>
        let s'' := stats_timeout e s' in
        (Some (next_frame p, true), stopped p', if lostToTeardown e then s'' else stats_add Broken s'')
    end
  else (None, p, s).

(** ** Runs *)

Inductive pace_event : Type :=
| EvPush (cell : Cell) (forwarded : bool)
| EvTick (outcome : res unit)
| EvClose.

Record PaceRun : Type := {
  pr_pacer : pacer;
  pr_stats : Stats;
  pr_accepted : list queued;   (* what [push] took, oldest first *)
  pr_frames : list Cell        (* the frames offered to the link, oldest first *)
}.

Definition pace_step (ev : pace_event) (r : PaceRun) : PaceRun :=
  match ev with
  | EvPush cell fwd =>
      let '(ok, p) := push cell fwd (pr_pacer r) in
      {| pr_pacer := p; pr_stats := pr_stats r;
         pr_accepted := if ok then pr_accepted r ++ [{| q_cell := cell; q_forwarded := fwd |}] else pr_accepted r;
         pr_frames := pr_frames r |}
  | EvTick outcome =>
      let '(f, p, s) := tick outcome (pr_pacer r) (pr_stats r) in
      {| pr_pacer := p; pr_stats := s; pr_accepted := pr_accepted r;
         pr_frames := pr_frames r ++ match f with Some (c, _) => [c] | None => [] end |}
  | EvClose =>
      let '(p, s) := pacer_close (pr_pacer r) (pr_stats r) in
      {| pr_pacer := p; pr_stats := s; pr_accepted := pr_accepted r; pr_frames := pr_frames r |}
  end.

Definition pace_run (evs : list pace_event) (r : PaceRun) : PaceRun := foldl (flip pace_step) r evs.

Definition pace_start (size : Z) : PaceRun :=
  {| pr_pacer := newPacer size; pr_stats := no_stats; pr_accepted := []; pr_frames := [] |}.

(** Ticks that went well. *)
Definition quiet (ev : pace_event) : bool :=
  match ev with EvPush _ _ => true | EvTick (Ok _) => true | _ => false end.

Definition is_tick (ev : pace_event) : bool :=
  match ev with EvTick _ => true | _ => false end.

Definition is_pad (c : Cell) : bool := bool_decide (c = NewPadding).

(** ** Lemmas *)

Lemma stats_add_same f s : 0 <= s f -> s f + 1 < 2 ^ 64 -> stats_add f s f = s f + 1.
Proof. intros. unfold stats_add. rewrite decide_True by done. unfold u64. rewrite Z.mod_small; lia. Qed.

Lemma stats_add_other f g s : f <> g -> stats_add f s g = s g.
Proof. intros. unfold stats_add. by rewrite decide_False. Qed.

Lemma drain_dropped q s : (0 <= s Dropped) -> s Dropped + Z.of_nat (length q) < 2 ^ 64 ->
  drain q s Dropped = s Dropped + Z.of_nat (length q).
Proof.
  revert s. induction q as [|x q IH]; intros s H0 H; cbn [drain length] in *; [lia|].
  rewrite IH; rewrite stats_add_same; lia.
Qed.

Lemma pace_run_cons ev evs r : pace_run (ev :: evs) r = pace_run evs (pace_step ev r).
Proof. done. Qed.

(** What a quiet run keeps: the goroutine runs, the queue fits, the frames are
    one per tick, and the frames that are no padding followed by the queue are
    what was accepted, in order. *)
Record pace_inv (ticks : nat) (r : PaceRun) : Prop := {
  pi_running : pc_running (pr_pacer r) = true;
  pi_cap : (length (pc_queue (pr_pacer r)) <= pc_cap (pr_pacer r))%nat;
  pi_frames : length (pr_frames r) = ticks;
  pi_fifo : Forall (fun q => is_pad (q_cell q) = false) (pr_accepted r) ->
    filter (fun c => is_pad c = false) (pr_frames r) ++ (q_cell <$> pc_queue (pr_pacer r))
    = q_cell <$> pr_accepted r;
  pi_queue : exists sent, pr_accepted r = sent ++ pc_queue (pr_pacer r);
  pi_dropped : pr_stats r Dropped = 0
}.

Lemma pace_step_inv n ev r :
  quiet ev = true -> pace_inv n r ->
  pace_inv (if is_tick ev then S n else n) (pace_step ev r) /\
  pc_cap (pr_pacer (pace_step ev r)) = pc_cap (pr_pacer r).
Proof.
  intros Hq [Hr Hc Hf Hp [sent Hs] Hd]. destruct ev as [cell fwd|[[]|e]|]; try discriminate Hq; simpl.
  - unfold push. destruct (Nat.ltb_spec (length (pc_queue (pr_pacer r))) (pc_cap (pr_pacer r))); [|split; [|done]; split; simpl; eauto].
    split; [|done]. split; simpl; auto.
    + rewrite length_app. simpl. lia.
    + intros [Hall _]%Forall_app. rewrite !fmap_app, app_assoc, Hp by done. done.
    + exists sent. by rewrite Hs, app_assoc.
  - unfold tick, send. rewrite Hr. destruct (pc_queue (pr_pacer r)) as [|q rest] eqn:E; simpl.
    + split; [|done]. split; simpl; eauto.
      * rewrite E. simpl. lia.
      * rewrite length_app, Hf. simpl. lia.
      * intros Hall. unfold next_frame. rewrite E. rewrite filter_app. cbn [filter].
        change (filter (fun c => is_pad c = false) [NewPadding]) with (@nil Cell).
        rewrite app_nil_r. by apply Hp.
      * exists sent. by rewrite ?E.
    + split; [|done]. split; simpl; auto.
      * simpl in Hc. lia.
      * rewrite length_app, Hf. simpl. lia.
      * intros Hall. unfold next_frame. rewrite E, filter_app. rewrite <- Hp by done. simpl.
        rewrite <- app_assoc. f_equal. rewrite Hs in Hall. apply Forall_app in Hall as [_ [Hh _]%Forall_cons].
        rewrite filter_cons_True by done. done.
      * exists (sent ++ [q]). by rewrite Hs, <- app_assoc.
      * by destruct (q_forwarded q).
Qed.

Lemma pace_run_inv n evs r :
  Forall (fun ev => quiet ev = true) evs -> pace_inv n r ->
  pace_inv (n + length (filter (fun ev => is_tick ev = true) evs)) (pace_run evs r) /\
  pc_cap (pr_pacer (pace_run evs r)) = pc_cap (pr_pacer r).
Proof.
  intros Hall. revert n r. induction Hall as [|ev evs Hq Hall IH]; intros n r Hi.
  { simpl. by rewrite Nat.add_0_r. }
  rewrite pace_run_cons. destruct (pace_step_inv n ev r Hq Hi) as [Hi' Hcap].
  destruct (IH _ _ Hi') as [HI HC]. rewrite HC, Hcap. split; [|done].
  destruct (is_tick ev) eqn:E.
  - rewrite filter_cons_True by done. cbn [length]. by rewrite Nat.add_succ_r.
  - rewrite filter_cons_False by (by rewrite E). done.
Qed.

Lemma pace_start_inv size : pace_inv 0 (pace_start size).
Proof. split; simpl; auto; [lia | by exists []]. Qed.

Lemma stopped_run evs r :
  pc_running (pr_pacer r) = false -> pr_frames (pace_run evs r) = pr_frames r.
Proof.
  revert r. induction evs as [|ev evs IH]; intros r Hr; [done|]. rewrite pace_run_cons.
  assert (Hs : pc_running (pr_pacer (pace_step ev r)) = false /\ pr_frames (pace_step ev r) = pr_frames r).
  { destruct ev as [cell fwd|o|]; simpl; unfold push, tick; rewrite ?Hr; simpl; rewrite ?app_nil_r; [|done..].
    by destruct (_ <? _)%nat. }
  destruct Hs as [Hs Hf]. by rewrite IH, Hf.
Qed.

(** ** Properties *)

(** A paced link shows only its clock: as long as writes succeed, the frames
    sent are one per tick whatever was queued when; the cells among them are
    exactly those the queue took, each once and in order, but for those still
    waiting; the queue never exceeds its capacity; and when the pacer closes,
    every cell still waiting, and no other, is counted as dropped. *)
Theorem pacer_clock size evs r p s :
  size < 2 ^ 63 -> Forall (fun ev => quiet ev = true) evs ->
  pace_run evs (pace_start size) = r -> pacer_close (pr_pacer r) (pr_stats r) = (p, s) ->
  length (pr_frames r) = length (filter (fun ev => is_tick ev = true) evs) /\
  (Forall (fun q => is_pad (q_cell q) = false) (pr_accepted r) ->
   filter (fun c => is_pad c = false) (pr_frames r) ++ (q_cell <$> pc_queue (pr_pacer r))
   = q_cell <$> pr_accepted r) /\
  (length (pc_queue (pr_pacer r)) <= pc_cap (newPacer size))%nat /\
  s Dropped = Z.of_nat (length (pc_queue (pr_pacer r))) /\ pc_queue p = [].
Proof.
  intros Hsz Hq <- [= <- <-].
  destruct (pace_run_inv 0 evs (pace_start size) Hq (pace_start_inv size)) as [[Hr Hc Hf Hp _ Hd] Hcap].
  rewrite Hcap in Hc. split_and!; try done.
  rewrite drain_dropped; rewrite Hd; try lia.
  assert (Z.of_nat (pc_cap (pr_pacer (pace_start size))) < 2 ^ 63).
  { simpl. unfold defaultQueueCells. destruct (Z.leb_spec size 0); lia. }
  lia.
Qed.

Lemma pacer_clock_witness :
  let evs := [EvTick (Ok tt); EvPush (replicate 512 x02) true; EvPush (replicate 512 x03) false;
              EvPush (replicate 512 x05) false; EvTick (Ok tt)] in
  let r := pace_run evs (pace_start 2) in
  (q_cell <$> pr_accepted r) = [replicate 512 x02; replicate 512 x03] /\ length (pr_frames r) = 2%nat.
Proof.
  intros evs r. split; [vm_compute; reflexivity|].
  refine (proj1 (pacer_clock 2 evs r _ _ _ _ eq_refl (surjective_pairing _))); [lia|].
  repeat constructor.
Defined.

(** A link that fails ends its pacer: the first write that fails is the last
    frame ever offered, its cell is not counted as forwarded, the link is
    closed, the deadline is counted when that is what failed, and the circuit
    counts as broken unless this node had closed the link itself. *)
Theorem pacer_failure p s e f p' s' evs acc frames :
  pc_running p = true -> tick (Err e) p s = (f, p', s') ->
  f = Some (next_frame p, true) /\
  s' Forwarded = s Forwarded /\ s' Padding = s Padding /\
  (errors_is e net_ErrClosed = true -> s' Broken = s Broken) /\
  (errors_is e net_ErrClosed = false -> s' Broken = u64 (s Broken + 1)) /\
  (errors_is e os_ErrDeadlineExceeded = true -> s' TimedOut = u64 (s TimedOut + 1)) /\
  pr_frames (pace_run evs {| pr_pacer := p'; pr_stats := s'; pr_accepted := acc; pr_frames := frames |}) = frames.
Proof.
  intros Hr Ht. unfold tick in Ht. rewrite Hr in Ht.
  assert (Hs : send (Err e) p s = (Err e, match pc_queue p with _ :: rest => set_queue rest p | [] => p end, s)).
  { unfold send. by destruct (pc_queue p). }
  rewrite Hs in Ht. injection Ht as <- <- <-. unfold lostToTeardown, stats_timeout.
  destruct (errors_is e net_ErrClosed), (errors_is e os_ErrDeadlineExceeded);
    split_and!; try done; by rewrite stopped_run.
Qed.

Lemma pacer_failure_witness :
  exists f p' s', tick (Err (Sentinel os_ErrDeadlineExceeded)) (newPacer 4) no_stats = (f, p', s') /\
    f = Some (NewPadding, true) /\ s' TimedOut = 1.
Proof.
  eexists _, _, _. split; [reflexivity|].
  destruct (pacer_failure (newPacer 4) no_stats (Sentinel os_ErrDeadlineExceeded) _ _ _ [] [] [] eq_refl eq_refl)
    as (H & _ & _ & _ & _ & Ht & _). split; [exact H | exact (Ht eq_refl)].
Defined.
