(* ===== verification/Limits.v ===== *)
(** * Limits: who may connect to a relay, and how often

    Models [src/relay/limits.go]: the effective limits, the token buckets in the
    code's 64-bit floating point, and the part of the [Relay] the admission of
    connections keeps, here the record [Gate].  Times are nanoseconds on the
    monotonic clock and come in as arguments.  A [*source] is its value in the
    table with an identity, because a timer holds the pointer; the timers set
    are the list [gt_timers].  The mutex makes every operation one step. *)

From Stdlib Require Import Strings.Byte Strings.String Floats.SpecFloat.
From S2P Require Import Prelude Effects Crypto Cell Pace.

(** ** 64-bit floating point *)

Abbreviation f64 := spec_float.

Definition f64_of_Z (z : Z) : f64 := binary_normalize 53 1024 z 0 false.
Definition f64_add : f64 -> f64 -> f64 := SFadd 53 1024.
Definition f64_sub : f64 -> f64 -> f64 := SFsub 53 1024.
Definition f64_mul : f64 -> f64 -> f64 := SFmul 53 1024.
Definition f64_div : f64 -> f64 -> f64 := SFdiv 53 1024.
Definition f64_ltb : f64 -> f64 -> bool := SFltb.
Definition f64_leb : f64 -> f64 -> bool := SFleb.

(** The built-in [min]. *)
Definition f64_min (x y : f64) : f64 :=
  match SFcompare x y with
  | None => S754_nan
  | Some Lt => x
  | Some Gt => y
  | Some Eq => match x with S754_zero true => x | _ => y end
  end.

(** The conversion to a 64-bit integer: towards zero, and the lowest integer for
    what has none. *)
Definition f64_to_i64 (x : f64) : Z :=
  match x with
  | S754_zero _ => 0
  | S754_finite s m e =>
      let v := if 0 <=? e then Z.pos m * 2 ^ e else Z.pos m / 2 ^ (- e) in
      let v := if s then - v else v in
      if (- 2 ^ 63 <=? v) && (v <? 2 ^ 63) then v else - 2 ^ 63
  | _ => - 2 ^ 63
  end.

Definition f64_finite (x : f64) : bool :=
  match x with S754_nan | S754_infinity _ => false | _ => true end.

(** [time.Duration.Seconds] and [time.Time.Sub]. *)
Definition Second : Z := 1000000000.
Definition Millisecond : Z := 1000000.

Definition Seconds (d : Z) : f64 :=
  f64_add (f64_of_Z (Z.quot d Second)) (f64_div (f64_of_Z (Z.rem d Second)) (f64_of_Z Second)).

Definition time_sub (a b : Z) : Z := Z.max (- 2 ^ 63) (Z.min (2 ^ 63 - 1) (a - b)).

(** ** The limits *)

Definition DefaultHandshakeTimeout : Z := 2 * Second.
Definition DefaultSetupTimeout : Z := 10 * Second.
Definition DefaultIdleTimeout : Z := 300 * Second.
Definition DefaultCircuitLifetime : Z := 86400 * Second.
Definition DefaultMaxHandshakes : Z := 32.
Definition DefaultMaxLinks : Z := 512.
Definition DefaultMaxLinksPerSource : Z := 32.
Definition DefaultSourceLinkRate : f64 := f64_of_Z 10.
Definition DefaultSourceLinkBurst : Z := 50.
Definition DefaultSourceSetupRate : f64 := f64_div (f64_of_Z 2) (f64_of_Z 10).
Definition DefaultSourceSetupBurst : Z := 10.
Definition sourceHandshakeShare : Z := 8.
Definition unpacedWriteTimeout : Z := 5 * Second.
Definition pacedWritePeriods : Z := 4.
Definition minPacedWriteLimit : Z := Second.
Definition maxSources : Z := 2 ^ 14.

Record Config : Type := {
  cf_QueueCells : Z;
  cf_SetupCache : Z;
  cf_Period : Z;
  cf_HandshakeTimeout : Z;
  cf_SetupTimeout : Z;
  cf_WriteTimeout : Z;
  cf_IdleTimeout : Z;
  cf_CircuitLifetime : Z;
  cf_MaxHandshakes : Z;
  cf_MaxHandshakesPerSource : Z;
  cf_MaxLinks : Z;
  cf_MaxLinksPerSource : Z;
  cf_SourceLinkRate : f64;
  cf_SourceLinkBurst : Z;
  cf_SourceSetupRate : f64;
  cf_SourceSetupBurst : Z
}.

Record limits : Type := {
  lm_handshake : Z;
  lm_setup : Z;
  lm_write : Z;
  lm_idle : Z;
  lm_lifetime : Z;
  lm_handshakes : Z;
  lm_sourceHandshakes : Z;
  lm_links : Z;
  lm_perSource : Z;
  lm_linkRate : f64;
  lm_setupRate : f64;
  lm_linkBurst : f64;
  lm_setupBurst : f64
}.

Definition pick (v def : Z) : Z := if v =? 0 then def else if v <? 0 then 0 else v.

(** [v == 0] and [v < 0] of a floating-point number. *)
Definition pick_f64 (v def : f64) : f64 :=
  match SFcompare v (S754_zero false) with
  | Some Eq => def
  | Some Lt => S754_zero false
  | _ => v
  end.

Definition resolveLimits (cfg : Config) : res limits :=
  if negb (f64_finite (cf_SourceLinkRate cfg)) || negb (f64_finite (cf_SourceSetupRate cfg))
  then Err (Other "relay: source rate is not a number of events per second")
  else if (cf_SourceLinkBurst cfg <? 0) || (cf_SourceSetupBurst cfg <? 0)
  then Err (Other "relay: negative burst")
  else
    let handshakes := pick (cf_MaxHandshakes cfg) DefaultMaxHandshakes in
    let shared := if handshakes =? 0 then DefaultMaxHandshakes else handshakes in
    Ok {| lm_handshake := pick (cf_HandshakeTimeout cfg) DefaultHandshakeTimeout;
          lm_setup := pick (cf_SetupTimeout cfg) DefaultSetupTimeout;
          lm_write :=
            if negb (cf_WriteTimeout cfg =? 0) then pick (cf_WriteTimeout cfg) 0
            else if 0 <? cf_Period cfg
                 then Z.max (i64 (pacedWritePeriods * cf_Period cfg)) minPacedWriteLimit
                 else unpacedWriteTimeout;
          lm_idle := pick (cf_IdleTimeout cfg) DefaultIdleTimeout;
          lm_lifetime := pick (cf_CircuitLifetime cfg) DefaultCircuitLifetime;
          lm_handshakes := handshakes;
          lm_sourceHandshakes :=
            pick (cf_MaxHandshakesPerSource cfg) (Z.max 1 (Z.quot shared sourceHandshakeShare));
          lm_links := pick (cf_MaxLinks cfg) DefaultMaxLinks;
          lm_perSource := pick (cf_MaxLinksPerSource cfg) DefaultMaxLinksPerSource;
          lm_linkRate := pick_f64 (cf_SourceLinkRate cfg) DefaultSourceLinkRate;
          lm_setupRate := pick_f64 (cf_SourceSetupRate cfg) DefaultSourceSetupRate;
          lm_linkBurst := f64_of_Z (pick (cf_SourceLinkBurst cfg) DefaultSourceLinkBurst);
          lm_setupBurst := f64_of_Z (pick (cf_SourceSetupBurst cfg) DefaultSourceSetupBurst) |}.

(** [0 < r] of a rate. *)
Definition rate_on (r : f64) : bool := f64_ltb (S754_zero false) r.

Definition perSourceOn (l : limits) : bool :=
  (0 <? lm_perSource l) || (0 <? lm_sourceHandshakes l) || rate_on (lm_linkRate l) || rate_on (lm_setupRate l).

(** ** Token buckets *)

Record bucket : Type := { bk_rate : f64; bk_burst : f64; bk_tokens : f64; bk_last : Z }.

Definition newBucket (rate burst : f64) (now : Z) : bucket :=
  {| bk_rate := rate; bk_burst := burst; bk_tokens := burst; bk_last := now |}.

Definition refill (now : Z) (b : bucket) : bucket :=
  {| bk_rate := bk_rate b; bk_burst := bk_burst b;
     bk_tokens := f64_min (bk_burst b)
       (f64_add (bk_tokens b) (f64_mul (Seconds (time_sub now (bk_last b))) (bk_rate b)));
     bk_last := now |}.

(** [rate <= 0] of a rate, false for a number that is none. *)
Definition rate_off (b : bucket) : bool := f64_leb (bk_rate b) (S754_zero false).

Definition set_tokens (t : f64) (b : bucket) : bucket :=
  {| bk_rate := bk_rate b; bk_burst := bk_burst b; bk_tokens := t; bk_last := bk_last b |}.

Definition bucket_take (now : Z) (b : bucket) : bool * bucket :=
  if rate_off b then (true, b)
  else
    let b := refill now b in
    if f64_ltb (bk_tokens b) (f64_of_Z 1) then (false, b)
    else (true, set_tokens (f64_sub (bk_tokens b) (f64_of_Z 1)) b).

Definition bucket_full (now : Z) (b : bucket) : bool * bucket :=
  if rate_off b then (true, b)
  else let b := refill now b in (f64_leb (bk_burst b) (bk_tokens b), b).

Definition refilledIn (now : Z) (b : bucket) : Z * bucket :=
  if rate_off b then (0, b)
  else
    let b := refill now b in
    let seconds := f64_min (f64_div (f64_sub (bk_burst b) (bk_tokens b)) (bk_rate b))
                           (Seconds (3600 * Second)) in
    (f64_to_i64 (f64_mul seconds (f64_of_Z Second)), b).

(** ** Sources *)

Record source : Type := {
  so_id : nat;            (* which object the pointer is *)
  so_open : Z;
  so_handshaking : Z;
  so_links : bucket;
  so_setups : bucket;
  so_forgetting : bool
}.

Definition so_set_counts (o h : Z) (s : source) : source :=
  {| so_id := so_id s; so_open := o; so_handshaking := h; so_links := so_links s;
     so_setups := so_setups s; so_forgetting := so_forgetting s |}.

Definition so_set_buckets (l st : bucket) (s : source) : source :=
  {| so_id := so_id s; so_open := so_open s; so_handshaking := so_handshaking s; so_links := l;
     so_setups := st; so_forgetting := so_forgetting s |}.

Definition so_set_forgetting (f : bool) (s : source) : source :=
  {| so_id := so_id s; so_open := so_open s; so_handshaking := so_handshaking s;
     so_links := so_links s; so_setups := so_setups s; so_forgetting := f |}.

Definition forgettable (now : Z) (s : source) : bool * source :=
  if negb (so_open s =? 0) then (false, s)
  else
    let '(lf, l) := bucket_full now (so_links s) in
    if lf then
      let '(sf, st) := bucket_full now (so_setups s) in (sf, so_set_buckets l st s)
    else (false, so_set_buckets l (so_setups s) s).

(** The address of the peer, as package netip has it. *)
Inductive Addr : Type :=
| NoAddr
| V4 (ip : Z)
| V6 (ip : Z) (zone : bytes).

(** What a [net.Addr] is to [sourceOf]: a TCP address, or another kind. *)
Inductive NetAddr : Type :=
| TCPAddr (a : Addr)
| OtherAddr.

(** [Addr.Unmap]: an IPv4-mapped IPv6 address is that IPv4 address. *)
Definition Unmap (a : Addr) : Addr :=
  match a with
  | V6 ip _ => if Z.shiftr ip 32 =? 0xffff then V4 (Z.land ip (Z.ones 32)) else a
  | _ => a
  end.

Definition sourceOf (addr : NetAddr) : Addr :=
  match addr with
  | OtherAddr => NoAddr
  | TCPAddr a =>
      match Unmap a with
      | V6 ip _ => V6 (Z.shiftl (Z.shiftr ip 64) 64) []
      | ip => ip
      end
  end.

#[export] Instance Addr_eq_decision : EqDecision Addr.
Proof. solve_decision. Defined.

#[export] Program Instance Addr_countable : Countable Addr :=
  inj_countable' (fun a => match a with NoAddr => None | V4 i => Some (inl i) | V6 i z => Some (inr (i, z)) end)
    (fun o => match o with None => NoAddr | Some (inl i) => V4 i | Some (inr (i, z)) => V6 i z end) _.
Next Obligation. by intros []. Qed.

(** ** Admission *)

Record Gate : Type := {
  gt_lim : limits;
  gt_cap : Z;
  gt_closed : bool;
  gt_inbound : Z;
  gt_handshaking : Z;
  gt_conns : gset nat;
  gt_handlers : Z;
  gt_sources : gmap Addr source;
  gt_timers : list (Addr * nat * Z);
  gt_fresh : nat;
  gt_stats : Stats
}.

Definition newGate (l : limits) (cap : Z) : Gate :=
  {| gt_lim := l; gt_cap := cap; gt_closed := false; gt_inbound := 0; gt_handshaking := 0;
     gt_conns := ∅; gt_handlers := 0; gt_sources := ∅; gt_timers := []; gt_fresh := 0;
     gt_stats := no_stats |}.

Definition gt_set_sources (m : gmap Addr source) (g : Gate) : Gate :=
  {| gt_lim := gt_lim g; gt_cap := gt_cap g; gt_closed := gt_closed g; gt_inbound := gt_inbound g;
     gt_handshaking := gt_handshaking g; gt_conns := gt_conns g; gt_handlers := gt_handlers g;
     gt_sources := m; gt_timers := gt_timers g; gt_fresh := gt_fresh g; gt_stats := gt_stats g |}.

Definition gt_set_counts (i h : Z) (c : gset nat) (n : Z) (g : Gate) : Gate :=
  {| gt_lim := gt_lim g; gt_cap := gt_cap g; gt_closed := gt_closed g; gt_inbound := i;
     gt_handshaking := h; gt_conns := c; gt_handlers := n; gt_sources := gt_sources g;
     gt_timers := gt_timers g; gt_fresh := gt_fresh g; gt_stats := gt_stats g |}.

Definition gt_set_timers (t : list (Addr * nat * Z)) (g : Gate) : Gate :=
  {| gt_lim := gt_lim g; gt_cap := gt_cap g; gt_closed := gt_closed g; gt_inbound := gt_inbound g;
     gt_handshaking := gt_handshaking g; gt_conns := gt_conns g; gt_handlers := gt_handlers g;
     gt_sources := gt_sources g; gt_timers := t; gt_fresh := gt_fresh g; gt_stats := gt_stats g |}.

Definition gt_bump (g : Gate) : Gate :=
  {| gt_lim := gt_lim g; gt_cap := gt_cap g; gt_closed := gt_closed g; gt_inbound := gt_inbound g;
     gt_handshaking := gt_handshaking g; gt_conns := gt_conns g; gt_handlers := gt_handlers g;
     gt_sources := gt_sources g; gt_timers := gt_timers g; gt_fresh := S (gt_fresh g); gt_stats := gt_stats g |}.

Definition gt_set_closed (g : Gate) : Gate :=
  {| gt_lim := gt_lim g; gt_cap := gt_cap g; gt_closed := true; gt_inbound := gt_inbound g;
     gt_handshaking := gt_handshaking g; gt_conns := gt_conns g; gt_handlers := gt_handlers g;
     gt_sources := gt_sources g; gt_timers := gt_timers g; gt_fresh := gt_fresh g; gt_stats := gt_stats g |}.

Definition gt_count (f : stat) (g : Gate) : Gate :=
  {| gt_lim := gt_lim g; gt_cap := gt_cap g; gt_closed := gt_closed g; gt_inbound := gt_inbound g;
     gt_handshaking := gt_handshaking g; gt_conns := gt_conns g; gt_handlers := gt_handlers g;
     gt_sources := gt_sources g; gt_timers := gt_timers g; gt_fresh := gt_fresh g;
     gt_stats := stats_add f (gt_stats g) |}.

Definition put_source (src : Addr) (s : source) (g : Gate) : Gate :=
  gt_set_sources (<[src := s]> (gt_sources g)) g.

Definition gate_source (src : Addr) (now : Z) (g : Gate) : option source * Gate :=
  match gt_sources g !! src with
  | Some s => (Some s, g)
  | None =>
      if gt_cap g <=? Z.of_nat (size (gt_sources g)) then (None, g)
      else
        let s := {| so_id := gt_fresh g; so_open := 0; so_handshaking := 0;
                    so_links := newBucket (lm_linkRate (gt_lim g)) (lm_linkBurst (gt_lim g)) now;
                    so_setups := newBucket (lm_setupRate (gt_lim g)) (lm_setupBurst (gt_lim g)) now;
                    so_forgetting := false |} in
        (Some s, gt_bump (put_source src s g))
  end.

(** [settle] of a source that is in the table. *)
Definition settle (src : Addr) (s : source) (now : Z) (g : Gate) : Gate :=
  if (0 <? so_open s) || so_forgetting s then g
  else
    let '(f, s) := forgettable now s in
    if f then gt_set_sources (delete src (gt_sources g)) g
    else
      let '(wl, l) := refilledIn now (so_links s) in
      let '(ws, st) := refilledIn now (so_setups s) in
      let s := so_set_forgetting true (so_set_buckets l st s) in
      gt_set_timers ((src, so_id s, Z.max wl ws + Millisecond) :: gt_timers g) (put_source src s g).

(** [settle(src, nil, now)] does nothing. *)
Definition settle_opt (src : Addr) (s : option source) (now : Z) (g : Gate) : Gate :=
  match s with Some s => settle src s now g | None => g end.

(** The shared caps at the end of [gate_admit], and the admission itself. *)
Definition admit_shared (conn : nat) (src : Addr) (s : option source) (now : Z) (g : Gate) : res unit * Gate :=
  if (0 <? lm_links (gt_lim g)) && (lm_links (gt_lim g) <=? gt_inbound g) then
    (Err (Sentinel relay_errRefused), settle_opt src s now (gt_count RefusedLinks g))
  else if (0 <? lm_handshakes (gt_lim g)) && (lm_handshakes (gt_lim g) <=? gt_handshaking g) then
    (Err (Sentinel relay_errRefused), settle_opt src s now (gt_count RefusedBusy g))
  else
    let g := match s with
             | Some s => put_source src (so_set_counts (so_open s + 1) (so_handshaking s + 1) s) g
             | None => g
             end in
    (Ok tt, gt_set_counts (gt_inbound g + 1) (gt_handshaking g + 1) ({[conn]} ∪ gt_conns g)
              (gt_handlers g + 1) g).

Definition gate_admit (conn : nat) (src : Addr) (now : Z) (g : Gate) : res unit * Gate :=
  if gt_closed g then (Err (Sentinel relay_errRelayClosed), g)
  else if perSourceOn (gt_lim g) then
    match gate_source src now g with
    | (None, g) => (Err (Sentinel relay_errRefused), gt_count RefusedSource g)
    | (Some s, g) =>
        let '(ok, l) := bucket_take now (so_links s) in
        let s := so_set_buckets l (so_setups s) s in
        let g := put_source src s g in
        if negb ok then (Err (Sentinel relay_errRefused), settle src s now (gt_count RefusedRate g))
        else if ((0 <? lm_perSource (gt_lim g)) && (lm_perSource (gt_lim g) <=? so_open s))
                || ((0 <? lm_sourceHandshakes (gt_lim g)) && (lm_sourceHandshakes (gt_lim g) <=? so_handshaking s))
        then (Err (Sentinel relay_errRefused), settle src s now (gt_count RefusedSource g))
        else admit_shared conn src (Some s) now g
    end
  else admit_shared conn src None now g.

Definition handshakeDone (src : Addr) (g : Gate) : Gate :=
  let g := gt_set_counts (gt_inbound g) (gt_handshaking g - 1) (gt_conns g) (gt_handlers g) g in
  match gt_sources g !! src with
  | Some s => put_source src (so_set_counts (so_open s) (so_handshaking s - 1) s) g
  | None => g
  end.

Definition leave (conn : nat) (src : Addr) (now : Z) (g : Gate) : Gate :=
  let g := gt_set_counts (gt_inbound g - 1) (gt_handshaking g) (gt_conns g ∖ {[conn]}) (gt_handlers g) g in
  match gt_sources g !! src with
  | Some s =>
      let s := so_set_counts (so_open s - 1) (so_handshaking s) s in
      settle src s now (put_source src s g)
  | None => g
  end.

(** A timer of [settle] fires: it holds the pointer, so it looks again only if
    the table still has that object. *)
Definition forget_fires (src : Addr) (id : nat) (now : Z) (g : Gate) : Gate :=
  match gt_sources g !! src with
  | Some s =>
      if (so_id s =? id)%nat then
        let s := so_set_forgetting false s in settle src s now (put_source src s g)
      else g
  | None => g
  end.

Definition allowSetup (src : Addr) (now : Z) (g : Gate) : bool * Gate :=
  if f64_leb (lm_setupRate (gt_lim g)) (S754_zero false) then (true, g)
  else
    match gt_sources g !! src with
    | None => (true, g)
    | Some s =>
        let '(ok, st) := bucket_take now (so_setups s) in
        (ok, put_source src (so_set_buckets (so_links s) st s) g)
    end.

Definition acceptBackoff (d : Z) : Z :=
  if d =? 0 then 5 * Millisecond else Z.min (i64 (2 * d)) Second.

(** ** Runs *)

(** The connections whose handlers are running: where from, and whether the
    handshake is still under way. *)
Record LiveConn : Type := { lc_id : nat; lc_src : Addr; lc_pending : bool }.

Inductive gate_step : Gate * list LiveConn -> Gate * list LiveConn -> Prop :=
| Step_admit g live conn src now g' :
    gate_admit conn src now g = (Ok tt, g') ->
    gate_step (g, live) (g', {| lc_id := conn; lc_src := src; lc_pending := true |} :: live)
| Step_refuse g live conn src now e g' :
    gate_admit conn src now g = (Err e, g') -> gate_step (g, live) (g', live)
| Step_done g l1 l2 conn src :
    gate_step (g, l1 ++ {| lc_id := conn; lc_src := src; lc_pending := true |} :: l2)
      (handshakeDone src g, l1 ++ {| lc_id := conn; lc_src := src; lc_pending := false |} :: l2)
| Step_leave g l1 l2 conn src now :
    gate_step (g, l1 ++ {| lc_id := conn; lc_src := src; lc_pending := false |} :: l2)
      (leave conn src now g, l1 ++ l2)
| Step_timer g live t1 t2 src id w now :
    gt_timers g = t1 ++ (src, id, w) :: t2 ->
    gate_step (g, live) (forget_fires src id now (gt_set_timers (t1 ++ t2) g), live)
| Step_allow g live src now :
    gate_step (g, live) (snd (allowSetup src now g), live)
| Step_close g live : gate_step (g, live) (gt_set_closed g, live).

Definition from_src (src : Addr) (c : LiveConn) : bool := bool_decide (lc_src c = src).

Definition n_open (src : Addr) (live : list LiveConn) : Z :=
  Z.of_nat (length (filter (fun c => from_src src c = true) live)).

Definition n_pending (src : Addr) (live : list LiveConn) : Z :=
  Z.of_nat (length (filter (fun c => from_src src c && lc_pending c = true) live)).

Definition pending (live : list LiveConn) : Z :=
  Z.of_nat (length (filter (fun c => lc_pending c = true) live)).

(** The timers set for a source. *)
Definition timer_ids (src : Addr) (ts : list (Addr * nat * Z)) : list nat :=
  (fun t => snd (fst t)) <$> filter (fun t => bool_decide (fst (fst t) = src) = true) ts.

(** ** The invariant *)

(** One entry of the table against the connections and timers of its source. *)
Definition entry_ok (l : limits) (o : option source) (ids : list nat) (n p : Z) : Prop :=
  match o with
  | None => ids = [] /\ n = 0
  | Some s =>
      so_open s = n /\ so_handshaking s = p /\ ids = (if so_forgetting s then [so_id s] else []) /\
      (0 < lm_perSource l -> n <= lm_perSource l) /\
      (0 < lm_sourceHandshakes l -> p <= lm_sourceHandshakes l)
  end.

(** Nothing is kept of a source without a link open or a timer set. *)
Definition entry_kept (o : option source) : Prop :=
  match o with None => True | Some s => 0 < so_open s \/ so_forgetting s = true end.

Section Invariant.
Context (l0 : limits) (cap0 : Z).

Record gate_inv (g : Gate) (live : list LiveConn) : Prop := {
  gi_inbound : gt_inbound g = Z.of_nat (length live);
  gi_handshaking : gt_handshaking g = pending live;
  gi_links : 0 < lm_links (gt_lim g) -> gt_inbound g <= lm_links (gt_lim g);
  gi_handshakes : 0 < lm_handshakes (gt_lim g) -> gt_handshaking g <= lm_handshakes (gt_lim g);
  gi_cap : Z.of_nat (size (gt_sources g)) <= Z.max 0 (gt_cap g);
  gi_off : perSourceOn (gt_lim g) = false -> gt_sources g = ∅ /\ gt_timers g = [];
  gi_entry : perSourceOn (gt_lim g) = true -> forall src,
    entry_ok (gt_lim g) (gt_sources g !! src) (timer_ids src (gt_timers g)) (n_open src live) (n_pending src live) /\
    entry_kept (gt_sources g !! src);
  gi_conf : gt_lim g = l0 /\ gt_cap g = cap0
}.

(** What an operation on one source leaves alone. *)
Record same_but (src : Addr) (g g' : Gate) : Prop := {
  sb_lim : gt_lim g' = gt_lim g;
  sb_cap : gt_cap g' = gt_cap g;
  sb_closed : gt_closed g' = gt_closed g;
  sb_inbound : gt_inbound g' = gt_inbound g;
  sb_handshaking : gt_handshaking g' = gt_handshaking g;
  sb_conns : gt_conns g' = gt_conns g;
  sb_sources x : x <> src -> gt_sources g' !! x = gt_sources g !! x;
  sb_timers x : x <> src -> timer_ids x (gt_timers g') = timer_ids x (gt_timers g)
}.

Lemma same_but_refl src g : same_but src g g.
Proof. by split. Qed.

Lemma same_but_trans src g1 g2 g3 : same_but src g1 g2 -> same_but src g2 g3 -> same_but src g1 g3.
Proof.
  intros [] []. split; try congruence.
  - intros x Hx. rewrite sb_sources1, sb_sources0; done.
  - intros x Hx. rewrite sb_timers1, sb_timers0; done.
Qed.

Lemma same_but_put src s g : same_but src g (put_source src s g).
Proof. split; try done. intros x Hx. simpl. by apply lookup_insert_ne. Qed.

Lemma same_but_count src f g : same_but src g (gt_count f g).
Proof. by split. Qed.

Lemma timer_ids_cons src x id w ts :
  timer_ids x ((src, id, w) :: ts) = if bool_decide (src = x) then id :: timer_ids x ts else timer_ids x ts.
Proof.
  unfold timer_ids. destruct (bool_decide (src = x)) eqn:E.
  - by rewrite filter_cons_True by done.
  - rewrite filter_cons_False; [done|]. simpl. by rewrite E.
Qed.

Lemma timer_ids_app x ts1 ts2 : timer_ids x (ts1 ++ ts2) = timer_ids x ts1 ++ timer_ids x ts2.
Proof. unfold timer_ids. by rewrite filter_app, fmap_app. Qed.

Lemma bucket_id now s : so_open (snd (forgettable now s)) = so_open s /\
  so_handshaking (snd (forgettable now s)) = so_handshaking s /\
  so_id (snd (forgettable now s)) = so_id s /\ so_forgetting (snd (forgettable now s)) = so_forgetting s /\
  (fst (forgettable now s) = true -> so_open s = 0).
Proof.
  unfold forgettable. destruct (Z.eqb_spec (so_open s) 0) as [E|]; simpl; [|done].
  destruct (bucket_full now (so_links s)) as [[] l]; simpl; [|done].
  by destruct (bucket_full now (so_setups s)) as [[] st].
Qed.

(** What [settle] leaves alone. *)
Lemma settle_size src s now g :
  gt_sources g !! src = Some s ->
  same_but src g (settle src s now g) /\
  (size (gt_sources (settle src s now g)) <= size (gt_sources g))%nat.
Proof.
  intros Hs. unfold settle.
  destruct ((0 <? so_open s) || so_forgetting s); [split; [apply same_but_refl | done]|].
  destruct (forgettable now s) as [[] s1].
  - split; [|simpl; rewrite map_size_delete, Hs; simpl; lia]. split; try done.
    intros x Hx. simpl. by apply lookup_delete_ne.
  - destruct (refilledIn now (so_links s1)), (refilledIn now (so_setups s1)). simpl.
    split; [|by rewrite map_size_insert, Hs]. split; try done.
    + intros x Hx. simpl. by apply lookup_insert_ne.
    + intros x Hx. simpl. rewrite timer_ids_cons, bool_decide_false by congruence. done.
Qed.

(** What [settle] does to the entry of its source. *)
Lemma settle_spec src s now g l n p :
  gt_sources g !! src = Some s -> 0 <= so_open s ->
  entry_ok l (Some s) (timer_ids src (gt_timers g)) n p ->
  let g' := settle src s now g in
  entry_ok l (gt_sources g' !! src) (timer_ids src (gt_timers g')) n p /\ entry_kept (gt_sources g' !! src).
Proof.
  intros Hs H0 He. simpl. unfold settle.
  destruct (Z.ltb_spec 0 (so_open s)) as [Hpos|Hpos]; simpl; [rewrite Hs; split; [done | by left]|].
  destruct (so_forgetting s) eqn:Hf; [rewrite Hs; split; [done | by right]|].
  destruct (bucket_id now s) as (Ho & Hh & Hid & Hfo & Hz).
  destruct (forgettable now s) as [[] s1]; simpl in *.
  - rewrite lookup_delete_eq. destruct He as (<- & _ & -> & _). rewrite Hf. simpl. auto.
  - destruct (refilledIn now (so_links s1)) as [wl l1]. destruct (refilledIn now (so_setups s1)) as [ws st1]. simpl.
    rewrite lookup_insert_eq. split; [|by right]. destruct He as (<- & <- & Hids & Hl).
    rewrite timer_ids_cons, bool_decide_true, Hids, Hf by done. simpl. split_and!; tauto.
Qed.

(** ** Counting connections *)

Lemma n_open_cons x c live : n_open x (c :: live) = (if from_src x c then 1 else 0) + n_open x live.
Proof.
  unfold n_open. destruct (from_src x c) eqn:E.
  - rewrite filter_cons_True by done. cbn [length]. lia.
  - rewrite filter_cons_False by (by rewrite E). lia.
Qed.

Lemma n_pending_cons x c live :
  n_pending x (c :: live) = (if from_src x c && lc_pending c then 1 else 0) + n_pending x live.
Proof.
  unfold n_pending. destruct (from_src x c && lc_pending c) eqn:E.
  - rewrite filter_cons_True by done. cbn [length]. lia.
  - rewrite filter_cons_False by (by rewrite E). lia.
Qed.

Lemma pending_cons c live : pending (c :: live) = (if lc_pending c then 1 else 0) + pending live.
Proof.
  unfold pending. destruct (lc_pending c) eqn:E.
  - rewrite filter_cons_True by done. cbn [length]. lia.
  - rewrite filter_cons_False by (by rewrite E). lia.
Qed.

Lemma counts_nonneg x live : 0 <= n_open x live /\ 0 <= n_pending x live <= n_open x live /\ 0 <= pending live.
Proof.
  split_and!; try (unfold n_open, n_pending, pending; lia).
  induction live as [|c live IH]; [done|]. rewrite n_open_cons, n_pending_cons.
  destruct (from_src x c), (lc_pending c); simpl; lia.
Qed.

(** The connection in the middle can as well be the first. *)
Lemma counts_middle c l1 l2 x :
  n_open x (l1 ++ c :: l2) = n_open x (c :: l1 ++ l2) /\
  n_pending x (l1 ++ c :: l2) = n_pending x (c :: l1 ++ l2) /\
  pending (l1 ++ c :: l2) = pending (c :: l1 ++ l2).
Proof.
  unfold n_open, n_pending, pending. rewrite <- !(Permutation_middle l1 l2 c). done.
Qed.

(** An operation on one source that leaves its entry in order keeps them all. *)
Lemma entries_after src g g' live live' :
  perSourceOn (gt_lim g) = true -> gate_inv g live -> same_but src g g' ->
  entry_ok (gt_lim g) (gt_sources g' !! src) (timer_ids src (gt_timers g')) (n_open src live') (n_pending src live') ->
  entry_kept (gt_sources g' !! src) ->
  (forall x, x <> src -> n_open x live' = n_open x live /\ n_pending x live' = n_pending x live) ->
  forall x, entry_ok (gt_lim g) (gt_sources g' !! x) (timer_ids x (gt_timers g')) (n_open x live') (n_pending x live') /\
    entry_kept (gt_sources g' !! x).
Proof.
  intros Hon Hi Hb He Hk Hoth x. destruct (decide (x = src)) as [->|Hx]; [done|].
  rewrite (sb_sources _ _ _ Hb), (sb_timers _ _ _ Hb) by done.
  destruct (Hoth x Hx) as [-> ->]. by apply Hi.
Qed.

Lemma n_cons_other x src c live :
  lc_src c = src -> x <> src -> n_open x (c :: live) = n_open x live /\ n_pending x (c :: live) = n_pending x live.
Proof.
  intros Hc Hx. rewrite n_open_cons, n_pending_cons. unfold from_src.
  rewrite bool_decide_false by congruence. simpl. lia.
Qed.

Lemma n_cons_same src c live :
  lc_src c = src -> n_open src (c :: live) = 1 + n_open src live /\
  n_pending src (c :: live) = (if lc_pending c then 1 else 0) + n_pending src live.
Proof.
  intros <-. rewrite n_open_cons, n_pending_cons. unfold from_src. by rewrite bool_decide_true.
Qed.

(** The entry an operation starts from. *)
Lemma entry_present g live src s :
  perSourceOn (gt_lim g) = true -> gate_inv g live -> gt_sources g !! src = Some s ->
  entry_ok (gt_lim g) (Some s) (timer_ids src (gt_timers g)) (n_open src live) (n_pending src live) /\
  entry_kept (Some s) /\ 0 <= so_open s.
Proof.
  intros Hon Hi Hs. destruct (gi_entry _ _ Hi Hon src) as [He Hk]. rewrite Hs in He, Hk.
  split_and!; try done. destruct He as (-> & _). apply (counts_nonneg src live).
Qed.

Lemma gate_source_ok src now g live s g' :
  perSourceOn (gt_lim g) = true -> gate_inv g live -> gate_source src now g = (Some s, g') ->
  gt_sources g' !! src = Some s /\ same_but src g g' /\ 0 <= so_open s /\
  Z.of_nat (size (gt_sources g')) <= Z.max 0 (gt_cap g) /\
  entry_ok (gt_lim g) (Some s) (timer_ids src (gt_timers g')) (n_open src live) (n_pending src live).
Proof.
  intros Hon Hi. unfold gate_source. destruct (gt_sources g !! src) as [s0|] eqn:E.
  - intros [= -> <-]. destruct (entry_present g live src s Hon Hi E) as (He & _ & H0).
    split_and!; first [done | apply same_but_refl | apply Hi].
  - destruct (Z.leb_spec (gt_cap g) (Z.of_nat (size (gt_sources g)))) as [|Hcap]; [discriminate|].
    destruct (gi_entry _ _ Hi Hon src) as [He _]. rewrite E in He. destruct He as [Hids Hn].
    pose proof (counts_nonneg src live).
    intros [= <- <-]. simpl. rewrite lookup_insert_eq. split_and!; try done; try lia.
    + split; try done. intros x Hx. simpl. by apply lookup_insert_ne.
    + rewrite map_size_insert, E. simpl. lia.
Qed.

Lemma inv_same_but g g' live src :
  perSourceOn (gt_lim g) = true -> gate_inv g live -> same_but src g g' ->
  Z.of_nat (size (gt_sources g')) <= Z.max 0 (gt_cap g) ->
  entry_ok (gt_lim g) (gt_sources g' !! src) (timer_ids src (gt_timers g')) (n_open src live) (n_pending src live) ->
  entry_kept (gt_sources g' !! src) -> gate_inv g' live.
Proof.
  intros Hon Hi Hb Hsz He Hk. pose proof (entries_after src g g' live live Hon Hi Hb He Hk ltac:(done)) as Hall.
  destruct Hb as [Hl Hc Hcl Hin Hh Hcs _ _]. destruct Hi.
  split; rewrite ?Hl, ?Hc, ?Hin, ?Hh; auto. by rewrite Hon.
Qed.

(** A refusal that has a source ends with [settle]. *)
Lemma inv_settle g live g1 src s now :
  perSourceOn (gt_lim g) = true -> gate_inv g live -> same_but src g g1 ->
  gt_sources g1 !! src = Some s -> 0 <= so_open s ->
  Z.of_nat (size (gt_sources g1)) <= Z.max 0 (gt_cap g) ->
  entry_ok (gt_lim g) (Some s) (timer_ids src (gt_timers g1)) (n_open src live) (n_pending src live) ->
  gate_inv (settle src s now g1) live.
Proof.
  intros Hon Hi Hb Hs H0 Hsz He.
  destruct (settle_spec src s now g1 _ _ _ Hs H0 He) as [He' Hk']. destruct (settle_size src s now g1 Hs) as [Hb' Hsz'].
  apply (inv_same_but g _ live src); try done; [by eapply same_but_trans | lia].
Qed.

Lemma inv_count f g live : gate_inv g live -> gate_inv (gt_count f g) live.
Proof. intros []. by split. Qed.

(** The caps at the end of [gate_admit]. *)
Lemma admit_shared_inv conn src os now g0 g live r g' :
  gate_inv g0 live ->
  (match os with
   | None => perSourceOn (gt_lim g0) = false /\ g = g0
   | Some s =>
       perSourceOn (gt_lim g0) = true /\ same_but src g0 g /\ gt_sources g !! src = Some s /\ 0 <= so_open s /\
       Z.of_nat (size (gt_sources g)) <= Z.max 0 (gt_cap g0) /\
       entry_ok (gt_lim g0) (Some s) (timer_ids src (gt_timers g)) (n_open src live) (n_pending src live) /\
       (0 < lm_perSource (gt_lim g0) -> so_open s < lm_perSource (gt_lim g0)) /\
       (0 < lm_sourceHandshakes (gt_lim g0) -> so_handshaking s < lm_sourceHandshakes (gt_lim g0))
   end) ->
  admit_shared conn src os now g = (r, g') ->
  match r with
  | Ok _ => gate_inv g' ({| lc_id := conn; lc_src := src; lc_pending := true |} :: live)
  | Err _ => gate_inv g' live
  end.
Proof.
  intros Hi Hos. set (c := {| lc_id := conn; lc_src := src; lc_pending := true |}).
  assert (Hg : gt_lim g = gt_lim g0 /\ gt_inbound g = gt_inbound g0 /\ gt_handshaking g = gt_handshaking g0).
  { destruct os as [s|]; [by destruct Hos as (_ & [] & _) | by destruct Hos as [_ ->]]. }
  destruct Hg as (Hl & Hin & Hh).
  assert (Hset : forall f, gate_inv (settle_opt src os now (gt_count f g)) live).
  { intros f. destruct os as [s|]; simpl.
    - destruct Hos as (Hon & Hb & Hs & H0 & Hsz & He & _).
      apply (inv_settle g0 live _ src s now); try done.
      by apply (same_but_trans _ _ g), same_but_count.
    - destruct Hos as [_ ->]. by apply inv_count. }
  unfold admit_shared. rewrite Hl, Hin, Hh.
  destruct ((0 <? lm_links (gt_lim g0)) && (lm_links (gt_lim g0) <=? gt_inbound g0)) eqn:El; [intros [= <- <-]; apply Hset|].
  destruct ((0 <? lm_handshakes (gt_lim g0)) && (lm_handshakes (gt_lim g0) <=? gt_handshaking g0)) eqn:Eh;
    [intros [= <- <-]; apply Hset|].
  intros [= <- <-]. destruct os as [s|]; simpl.
  - destruct Hos as (Hon & Hb & Hs & H0 & Hsz & He & Hps & Hsh).
    destruct (n_cons_same src c live eq_refl) as [Hno Hnp]. simpl in Hnp.
    assert (Hb1 : same_but src g0 (put_source src (so_set_counts (so_open s + 1) (so_handshaking s + 1) s) g))
      by (by eapply same_but_trans, same_but_put).
    pose proof (entries_after src g0 _ live (c :: live) Hon Hi Hb1) as Hall.
    simpl in Hall. rewrite lookup_insert_eq in Hall.
    destruct Hb1 as [_ Hcap _ _ _ _ _ _]. simpl in Hcap.
    destruct Hi as [Hi1 Hi2 Hi3 Hi4 Hi5 Hi6 Hi7 Hi8]. destruct He as (Heo & Heh & Hids & Hm1 & Hm2).
    split; simpl; rewrite ?Hl, ?Hcap, ?Hin, ?Hh.
    + lia.
    + rewrite pending_cons. simpl. lia.
    + lia.
    + lia.
    + rewrite map_size_insert, Hs. done.
    + by rewrite Hon.
    + intros _. apply Hall; [|left; simpl; lia | intros x Hx; by apply (n_cons_other x src)].
      rewrite Hno, Hnp. simpl. split_and!; try lia; done.
    + exact Hi8.
  - destruct Hos as [Hoff ->]. destruct Hi as [Hi1 Hi2 Hi3 Hi4 Hi5 Hi6 Hi7 Hi8].
    split; simpl; rewrite ?Hl, ?Hin, ?Hh; try done; try lia.
    + rewrite pending_cons. simpl. lia.
    + by rewrite Hoff.
Qed.

Lemma admit_inv conn src now g live r g' :
  gate_inv g live -> gate_admit conn src now g = (r, g') ->
  match r with
  | Ok _ => gate_inv g' ({| lc_id := conn; lc_src := src; lc_pending := true |} :: live)
  | Err _ => gate_inv g' live
  end.
Proof.
  intros Hi. unfold gate_admit. destruct (gt_closed g); [by intros [= <- <-]|].
  destruct (perSourceOn (gt_lim g)) eqn:Hon.
  2: { intros H. by eapply (admit_shared_inv conn src None now g). }
  destruct (gate_source src now g) as [[s|] g1] eqn:Eg.
  2: { intros [= <- <-]. unfold gate_source in Eg. repeat case_match; try discriminate.
       injection Eg as <-. by apply inv_count. }
  destruct (gate_source_ok src now g live s g1 Hon Hi Eg) as (Hs & Hb & H0 & Hsz & He).
  destruct (bucket_take now (so_links s)) as [ok b].
  set (s' := so_set_buckets b (so_setups s) s). set (g2 := put_source src s' g1).
  assert (Hb2 : same_but src g g2) by (by eapply same_but_trans, same_but_put).
  assert (Hs2 : gt_sources g2 !! src = Some s') by apply lookup_insert_eq.
  assert (Hsz2 : Z.of_nat (size (gt_sources g2)) <= Z.max 0 (gt_cap g)).
  { simpl. by rewrite map_size_insert, Hs. }
  assert (Hset : forall f, gate_inv (settle src s' now (gt_count f g2)) live).
  { intros f. apply (inv_settle g live _ src s' now); try done.
    by apply (same_but_trans _ _ g2), same_but_count. }
  destruct ok; simpl; [|intros [= <- <-]; apply Hset].
  rewrite (sb_lim _ _ _ Hb).
  destruct (((0 <? lm_perSource (gt_lim g)) && (lm_perSource (gt_lim g) <=? so_open s))
    || ((0 <? lm_sourceHandshakes (gt_lim g)) && (lm_sourceHandshakes (gt_lim g) <=? so_handshaking s))) eqn:El;
    [intros [= <- <-]; apply Hset|].
  apply (admit_shared_inv conn src (Some s') now g); [done|].
  apply orb_false_iff in El as [E1 E2]. split_and!; try done; simpl; lia.
Qed.

Lemma inv_middle g c l1 l2 : gate_inv g (l1 ++ c :: l2) -> gate_inv g (c :: l1 ++ l2).
Proof.
  intros [Hi1 Hi2 Hi3 Hi4 Hi5 Hi6 Hi7 Hi8]. destruct (counts_middle c l1 l2 NoAddr) as (_ & _ & Hp).
  split; try done.
  - rewrite Hi1, !length_app. cbn [length]. rewrite length_app. lia.
  - by rewrite Hi2.
  - intros Hon x. destruct (counts_middle c l1 l2 x) as (<- & <- & _). by apply Hi7.
Qed.

Lemma inv_middle' g c l1 l2 : gate_inv g (c :: l1 ++ l2) -> gate_inv g (l1 ++ c :: l2).
Proof.
  intros [Hi1 Hi2 Hi3 Hi4 Hi5 Hi6 Hi7 Hi8]. destruct (counts_middle c l1 l2 NoAddr) as (_ & _ & Hp).
  split; try done.
  - rewrite Hi1, !length_app. cbn [length]. rewrite length_app. lia.
  - by rewrite Hi2.
  - intros Hon x. destruct (counts_middle c l1 l2 x) as (-> & -> & _). by apply Hi7.
Qed.

(** An admitted connection has its entry in the table. *)
Lemma entry_of_live g c live :
  perSourceOn (gt_lim g) = true -> gate_inv g (c :: live) -> exists s, gt_sources g !! lc_src c = Some s.
Proof.
  intros Hon Hi. destruct (gi_entry _ _ Hi Hon (lc_src c)) as [He _].
  destruct (gt_sources g !! lc_src c) as [s|]; [by exists s|]. destruct He as [_ He].
  destruct (n_cons_same (lc_src c) c live eq_refl) as [Hn _].
  pose proof (counts_nonneg (lc_src c) live). lia.
Qed.

Lemma done_inv conn src g live :
  gate_inv g ({| lc_id := conn; lc_src := src; lc_pending := true |} :: live) ->
  gate_inv (handshakeDone src g) ({| lc_id := conn; lc_src := src; lc_pending := false |} :: live).
Proof.
  intros Hi. set (c := {| lc_id := conn; lc_src := src; lc_pending := true |}) in *.
  set (c' := {| lc_id := conn; lc_src := src; lc_pending := false |}).
  destruct (n_cons_same src c live eq_refl) as [Hno Hnp]. destruct (n_cons_same src c' live eq_refl) as [Hno' Hnp'].
  simpl in Hnp, Hnp'.
  assert (Hoth : forall x, x <> src -> n_open x (c' :: live) = n_open x (c :: live) /\
    n_pending x (c' :: live) = n_pending x (c :: live)).
  { intros x Hx. destruct (n_cons_other x src c live eq_refl Hx) as [-> ->]. by apply (n_cons_other x src). }
  pose proof (pending_cons c live) as Hp. pose proof (pending_cons c' live) as Hp'. simpl in Hp, Hp'.
  unfold handshakeDone. destruct (perSourceOn (gt_lim g)) eqn:Hon.
  - destruct (entry_of_live g c live Hon Hi) as [s Hs]. simpl in Hs. simpl gt_sources. rewrite Hs.
    destruct (entry_present g _ src s Hon Hi Hs) as (He & Hk & H0).
    set (s' := so_set_counts (so_open s) (so_handshaking s - 1) s).
    pose proof (entries_after src g (put_source src s' g) (c :: live) (c' :: live) Hon Hi
      (same_but_put src s' g)) as Hall. simpl in Hall. rewrite lookup_insert_eq in Hall.
    destruct Hi as [Hi1 Hi2 Hi3 Hi4 Hi5 Hi6 Hi7 Hi8]. destruct He as (Heo & Heh & Hids & Hm1 & Hm2).
    split; simpl; try done; try lia.
    + by rewrite map_size_insert, Hs.
    + by rewrite Hon.
    + intros _. apply Hall; [|done|done]. rewrite Hno', Hnp'. simpl. split_and!; try lia; done.
  - destruct (gi_off _ _ Hi Hon) as [Ho Ht]. simpl gt_sources. rewrite Ho, lookup_empty.
    destruct Hi as [Hi1 Hi2 Hi3 Hi4 Hi5 Hi6 Hi7 Hi8]. split; simpl; try done; try lia. by rewrite Hon.
Qed.

Lemma leave_inv conn src now g live :
  gate_inv g ({| lc_id := conn; lc_src := src; lc_pending := false |} :: live) ->
  gate_inv (leave conn src now g) live.
Proof.
  intros Hi. set (c := {| lc_id := conn; lc_src := src; lc_pending := false |}) in *.
  destruct (n_cons_same src c live eq_refl) as [Hno Hnp]. simpl in Hnp.
  pose proof (pending_cons c live) as Hp. simpl in Hp.
  assert (Hoth : forall x, x <> src -> n_open x live = n_open x (c :: live) /\
    n_pending x live = n_pending x (c :: live)).
  { intros x Hx. by destruct (n_cons_other x src c live eq_refl Hx) as [-> ->]. }
  unfold leave. destruct (perSourceOn (gt_lim g)) eqn:Hon.
  - destruct (entry_of_live g c live Hon Hi) as [s Hs]. simpl in Hs. simpl gt_sources. rewrite Hs.
    destruct (entry_present g _ src s Hon Hi Hs) as (He & Hk & H0).
    set (s' := so_set_counts (so_open s - 1) (so_handshaking s) s).
    set (g1 := put_source src s' _).
    pose proof (counts_nonneg src live).
    destruct (settle_spec src s' now g1 (gt_lim g) (n_open src live) (n_pending src live)) as [He' Hk'];
      [apply lookup_insert_eq | destruct He as [He _]; simpl; lia | |].
    { destruct He as (Heo & Heh & Hids & Hm1 & Hm2). simpl. split_and!; try lia; done. }
    destruct (settle_size src s' now g1) as [Hb Hsz]; [apply lookup_insert_eq|].
    assert (Hb' : same_but src (gt_set_counts (gt_inbound g - 1) (gt_handshaking g) (gt_conns g ∖ {[conn]}) (gt_handlers g) g)
      (settle src s' now g1)) by (eapply same_but_trans; [apply same_but_put | exact Hb]).
    assert (Hall : forall x, entry_ok (gt_lim g) (gt_sources (settle src s' now g1) !! x)
        (timer_ids x (gt_timers (settle src s' now g1))) (n_open x live) (n_pending x live) /\
        entry_kept (gt_sources (settle src s' now g1) !! x)).
    { intros x. destruct (decide (x = src)) as [->|Hx]; [done|].
      rewrite (sb_sources _ _ _ Hb'), (sb_timers _ _ _ Hb') by done. simpl.
      destruct (Hoth x Hx) as [-> ->]. by apply Hi. }
    destruct Hb' as [Hl Hcap _ Hin Hh _ _ _]. destruct Hi as [Hi1 Hi2 Hi3 Hi4 Hi5 Hi6 Hi7 Hi8]. simpl in *.
    split; rewrite ?Hl, ?Hcap, ?Hin, ?Hh; simpl; try done; try lia.
    + rewrite map_size_insert, Hs in Hsz. unfold id in Hsz. lia.
    + by rewrite Hon.
  - destruct (gi_off _ _ Hi Hon) as [Ho Ht]. simpl gt_sources. rewrite Ho, lookup_empty.
    destruct Hi as [Hi1 Hi2 Hi3 Hi4 Hi5 Hi6 Hi7 Hi8]. cbn [length] in Hi1.
    split; simpl; try done; try lia. by rewrite Hon.
Qed.

Lemma timer_inv g live t1 t2 src id w now :
  gate_inv g live -> gt_timers g = t1 ++ (src, id, w) :: t2 ->
  gate_inv (forget_fires src id now (gt_set_timers (t1 ++ t2) g)) live.
Proof.
  intros Hi Ht. destruct (perSourceOn (gt_lim g)) eqn:Hon.
  2: { destruct (gi_off _ _ Hi Hon) as [_ Hn]. rewrite Hn in Ht. by destruct t1. }
  (* the timer is the only one of its source, and its object is in the table *)
  destruct (gi_entry _ _ Hi Hon src) as [He _].
  rewrite Ht, timer_ids_app, timer_ids_cons, bool_decide_true in He by done.
  destruct (gt_sources g !! src) as [s|] eqn:Hs; [|destruct He as [He _]; by destruct (timer_ids src t1)].
  destruct He as (Heo & Heh & Hids & Hm).
  assert (Hid : so_forgetting s = true /\ timer_ids src t1 = [] /\ so_id s = id /\ timer_ids src t2 = []).
  { destruct (so_forgetting s), (timer_ids src t1) as [|y [|]], (timer_ids src t2); try discriminate Hids.
    by injection Hids as ->. }
  destruct Hid as (Hf & H1 & <- & H2). unfold forget_fires. simpl gt_sources. rewrite Hs, Nat.eqb_refl.
  set (g1 := gt_set_timers (t1 ++ t2) g). set (s' := so_set_forgetting false s).
  assert (Hb : same_but src g (put_source src s' g1)).
  { eapply same_but_trans; [|apply same_but_put]. split; try done. intros x Hx. simpl.
    rewrite Ht, !timer_ids_app, timer_ids_cons, bool_decide_false by congruence. done. }
  apply (inv_settle g live _ src s' now); try done.
  - apply lookup_insert_eq.
  - destruct (entry_present g live src s Hon Hi Hs) as (_ & _ & H0). exact H0.
  - simpl. rewrite map_size_insert, Hs. apply Hi.
  - simpl. rewrite timer_ids_app, H1, H2. done.
Qed.

Lemma allow_inv src now g live : gate_inv g live -> gate_inv (snd (allowSetup src now g)) live.
Proof.
  intros Hi. unfold allowSetup. destruct (f64_leb _ _); [done|].
  destruct (gt_sources g !! src) as [s|] eqn:Hs; [|done].
  destruct (bucket_take now (so_setups s)) as [ok b]. simpl.
  destruct (perSourceOn (gt_lim g)) eqn:Hon.
  2: { destruct (gi_off _ _ Hi Hon) as [Hn _]. by rewrite Hn, lookup_empty in Hs. }
  destruct (entry_present g live src s Hon Hi Hs) as (He & Hk & H0).
  apply (inv_same_but g _ live src Hon Hi (same_but_put _ _ _)); simpl.
  - rewrite map_size_insert, Hs. apply Hi.
  - by rewrite lookup_insert_eq.
  - by rewrite lookup_insert_eq.
Qed.

Lemma gate_step_inv gl gl' : gate_step gl gl' -> gate_inv (fst gl) (snd gl) -> gate_inv (fst gl') (snd gl').
Proof.
  intros Hst Hi. destruct Hst; simpl in *.
  - by apply (admit_inv conn src now g live (Ok tt)).
  - by apply (admit_inv conn src now g live (Err e)).
  - by apply inv_middle', done_inv, inv_middle.
  - by apply leave_inv, inv_middle.
  - by apply (timer_inv g live t1 t2 src id w).
  - by apply allow_inv.
  - by destruct Hi.
Qed.

Lemma new_inv : 0 <= lm_links l0 -> 0 <= lm_handshakes l0 -> gate_inv (newGate l0 cap0) [].
Proof.
  intros Hl Hh. split; simpl; try done; try (unfold pending; simpl; lia).
  rewrite map_size_empty. lia.
Qed.

End Invariant.

(** ** Properties *)

(** C8. Admission keeps its books and its bounds: in every state reachable by
    admissions, refusals, finished handshakes, departures, timers, setups and a
    close, the node counts exactly the connections whose handlers run and those
    still in their handshake, in total and per source; no limit that is on is
    exceeded; the table of sources never outgrows its cap; and it keeps a source
    only while that has a link open or a timer set for it, so once every
    connection has left and every timer has fired it is empty. *)
Theorem gate_bounds l cap g live :
  0 <= lm_links l -> 0 <= lm_handshakes l -> rtc gate_step (newGate l cap, []) (g, live) ->
  gt_inbound g = Z.of_nat (length live) /\ gt_handshaking g = pending live /\
  (0 < lm_links l -> gt_inbound g <= lm_links l) /\
  (0 < lm_handshakes l -> gt_handshaking g <= lm_handshakes l) /\
  Z.of_nat (size (gt_sources g)) <= Z.max 0 cap /\
  (forall src s, gt_sources g !! src = Some s ->
     so_open s = n_open src live /\ so_handshaking s = n_pending src live /\
     (0 < lm_perSource l -> so_open s <= lm_perSource l) /\
     (0 < lm_sourceHandshakes l -> so_handshaking s <= lm_sourceHandshakes l) /\
     (0 < so_open s \/ src ∈ (fun t => fst (fst t)) <$> gt_timers g)) /\
  (live = [] -> gt_timers g = [] -> gt_sources g = ∅).
Proof.
  intros Hl Hh Hr. assert (Hi : gate_inv l cap g live).
  { remember (newGate l cap, []) as st eqn:E. change g with (fst (g, live)). change live with (snd (g, live)) at 2.
    assert (Hi0 : gate_inv l cap (fst st) (snd st)) by (subst; by apply new_inv). clear E.
    induction Hr as [|x y z Hst _ IH]; [done|]. by apply IH, (gate_step_inv l cap x). }
  destruct (gi_conf _ _ _ _ Hi) as [El Ecap].
  assert (Hent : forall src s, gt_sources g !! src = Some s ->
     so_open s = n_open src live /\ so_handshaking s = n_pending src live /\
     (0 < lm_perSource l -> so_open s <= lm_perSource l) /\
     (0 < lm_sourceHandshakes l -> so_handshaking s <= lm_sourceHandshakes l) /\
     (0 < so_open s \/ src ∈ (fun t => fst (fst t)) <$> gt_timers g)).
  { intros src s Hs. destruct (perSourceOn (gt_lim g)) eqn:Hon.
    2: { destruct (gi_off _ _ _ _ Hi Hon) as [Hn _]. by rewrite Hn, lookup_empty in Hs. }
    destruct (gi_entry _ _ _ _ Hi Hon src) as [He Hk]. rewrite Hs in He, Hk.
    destruct He as (Ho & Hp & Hids & Hm1 & Hm2). rewrite El in Hm1, Hm2.
    split_and!; try done; try lia. destruct Hk as [|Hf]; [by left|right]. rewrite Hf in Hids.
    assert (Hin : so_id s ∈ timer_ids src (gt_timers g)) by (rewrite Hids; by apply list_elem_of_singleton).
    unfold timer_ids in Hin. apply list_elem_of_fmap in Hin as (t & _ & Ht).
    apply list_elem_of_filter in Ht as [Ht Hin]. apply bool_decide_eq_true in Ht as <-.
    apply list_elem_of_fmap. by exists t. }
  destruct Hi as [Hi1 Hi2 Hi3 Hi4 Hi5 _ _ _]. rewrite El in Hi3, Hi4. rewrite Ecap in Hi5.
  split_and!; try done. intros -> Ht. apply map_empty. intros src. destruct (gt_sources g !! src) as [s|] eqn:Hs; [|done].
  destruct (Hent src s Hs) as (Ho & _ & _ & _ & [Hpos|Hin]); [|by rewrite Ht in Hin; apply elem_of_nil in Hin].
  rewrite Ho in Hpos. unfold n_open in Hpos. simpl in Hpos. lia.
Qed.

(** What one setting comes to: its default when zero, off when negative. *)
Definition resolved (v def r : Z) : Prop :=
  (v = 0 -> r = def) /\ (v < 0 -> r = 0) /\ (0 < v -> r = v).

Lemma pick_resolved v def : resolved v def (pick v def).
Proof. unfold resolved, pick. destruct (Z.eqb_spec v 0), (Z.ltb_spec v 0); split_and!; lia. Qed.

(** What the configured limits come to: the configuration is refused exactly
    for a rate that is no number or a negative burst; otherwise every timeout
    and cap takes its default at zero, is off when negative and is taken as
    given when positive; a source may hold an eighth of the handshake slots by
    default but always at least one; and a write is bounded by a positive
    deadline, at least a second when paced, unless a negative one turns it
    off. *)
Theorem limits_resolved cfg :
  (is_ok (resolveLimits cfg) = true <->
   f64_finite (cf_SourceLinkRate cfg) = true /\ f64_finite (cf_SourceSetupRate cfg) = true /\
   0 <= cf_SourceLinkBurst cfg /\ 0 <= cf_SourceSetupBurst cfg) /\
  (forall l, resolveLimits cfg = Ok l ->
    resolved (cf_HandshakeTimeout cfg) DefaultHandshakeTimeout (lm_handshake l) /\
    resolved (cf_SetupTimeout cfg) DefaultSetupTimeout (lm_setup l) /\
    resolved (cf_IdleTimeout cfg) DefaultIdleTimeout (lm_idle l) /\
    resolved (cf_CircuitLifetime cfg) DefaultCircuitLifetime (lm_lifetime l) /\
    resolved (cf_MaxHandshakes cfg) DefaultMaxHandshakes (lm_handshakes l) /\
    resolved (cf_MaxLinks cfg) DefaultMaxLinks (lm_links l) /\
    resolved (cf_MaxLinksPerSource cfg) DefaultMaxLinksPerSource (lm_perSource l) /\
    (cf_MaxHandshakesPerSource cfg = 0 ->
      1 <= lm_sourceHandshakes l <= Z.max 1 (Z.max (lm_handshakes l) DefaultMaxHandshakes / 8)) /\
    (cf_MaxHandshakesPerSource cfg < 0 <-> lm_sourceHandshakes l = 0) /\
    (cf_WriteTimeout cfg < 0 <-> lm_write l = 0) /\
    (cf_WriteTimeout cfg = 0 -> 0 < cf_Period cfg -> Second <= lm_write l)).
Proof.
  unfold resolveLimits.
  destruct (f64_finite (cf_SourceLinkRate cfg)), (f64_finite (cf_SourceSetupRate cfg)); simpl;
    try (split; [by split; [|intros (? & ? & _)] | discriminate]).
  destruct (Z.ltb_spec (cf_SourceLinkBurst cfg) 0), (Z.ltb_spec (cf_SourceSetupBurst cfg) 0); simpl;
    try (split; [split; [discriminate | lia] | discriminate]).
  split; [split; [done | done]|]. intros l [= <-]. simpl.
  pose proof (pick_resolved (cf_MaxHandshakes cfg) DefaultMaxHandshakes) as Hh.
  set (h := pick (cf_MaxHandshakes cfg) DefaultMaxHandshakes) in *.
  set (sh := if h =? 0 then DefaultMaxHandshakes else h).
  assert (Hsh : 0 < sh <= Z.max h DefaultMaxHandshakes).
  { unfold sh, resolved, DefaultMaxHandshakes in *. destruct (Z.eqb_spec h 0); lia. }
  pose proof (Z.quot_div_nonneg sh 8 ltac:(lia) ltac:(lia)) as Hq. unfold sourceHandshakeShare.
  pose proof (Z.div_le_mono sh (Z.max h DefaultMaxHandshakes) 8 ltac:(lia) ltac:(lia)).
  pose proof (pick_resolved (cf_MaxHandshakesPerSource cfg) (Z.max 1 (sh ÷ 8))) as Hs.
  pose proof (pick_resolved (cf_WriteTimeout cfg) 0) as Hw.
  unfold minPacedWriteLimit, unpacedWriteTimeout, Second in *.
  assert (Hww : cf_WriteTimeout cfg = 0 -> (if negb (cf_WriteTimeout cfg =? 0) then 0 else 1) = 1)
    by (intros ->; done).
  split_and!; try apply pick_resolved; unfold resolved in *; try lia.
  - destruct (Z.eqb_spec (cf_WriteTimeout cfg) 0); simpl; [|lia]. destruct (Z.ltb_spec 0 (cf_Period cfg)); lia.
  - intros -> Hp. simpl. rewrite (proj2 (Z.ltb_lt _ _) Hp). lia.
Qed.

(** What counts as one peer: every zone and every interface half of an IPv6
    /64 is the same source, an IPv4-mapped address is the IPv4 one, distinct
    IPv4 addresses and distinct /64s are distinct sources, and asking again
    changes nothing. *)
Theorem source_groups :
  (forall ip z ip' z',
     Z.shiftr ip 32 <> 0xffff -> Z.shiftr ip' 32 <> 0xffff ->
     (sourceOf (TCPAddr (V6 ip z)) = sourceOf (TCPAddr (V6 ip' z')) <-> Z.shiftr ip 64 = Z.shiftr ip' 64)) /\
  (forall v4 z, 0 <= v4 < 2 ^ 32 -> sourceOf (TCPAddr (V6 (0xffff * 2 ^ 32 + v4) z)) = sourceOf (TCPAddr (V4 v4))) /\
  (forall a b, sourceOf (TCPAddr (V4 a)) = sourceOf (TCPAddr (V4 b)) -> a = b) /\
  (forall a, sourceOf (TCPAddr (sourceOf (TCPAddr a))) = sourceOf (TCPAddr a) \/
     exists ip z, a = V6 ip z /\ Z.shiftr ip 64 = 0).
Proof.
  assert (Hsh : forall i, Z.shiftr (Z.shiftl (Z.shiftr i 64) 64) 64 = Z.shiftr i 64).
  { intros i. by rewrite Z.shiftr_shiftl_l, Z.shiftl_0_r by lia. }
  split_and!.
  - intros ip z ip' z' Hm Hm'. cbn [sourceOf Unmap].
    rewrite (proj2 (Z.eqb_neq _ _) Hm), (proj2 (Z.eqb_neq _ _) Hm').
    split; [|intros E; by rewrite E]. intros [= E].
    by rewrite <- (Hsh ip), E, Hsh.
  - intros v z Hv. cbn [sourceOf Unmap].
    assert (E : Z.shiftr (0xffff * 2 ^ 32 + v) 32 = 0xffff).
    { rewrite Z.shiftr_div_pow2, Z.div_add_l, Z.div_small by lia. lia. }
    rewrite E, Z.eqb_refl. f_equal. rewrite Z.land_ones by lia.
    rewrite Z.add_comm, Z_mod_plus_full. by apply Z.mod_small.
  - by intros a b [= ->].
  - intros [|v|ip z]; [by left | by left |]. destruct (Z.eq_dec (Z.shiftr ip 64) 0) as [E0|E0]; [right; eauto|left].
    cbn [sourceOf Unmap]. destruct (Z.eqb_spec (Z.shiftr ip 32) 0xffff) as [|E]; [done|].
    cbn [sourceOf Unmap].
    destruct (Z.eqb_spec (Z.shiftr (Z.shiftl (Z.shiftr ip 64) 64) 32) 0xffff) as [E'|]; [|by rewrite Hsh].
    exfalso. rewrite Z.shiftr_shiftl_l in E' by lia. change (64 - 32) with 32 in E'.
    rewrite Z.shiftl_mul_pow2 in E' by lia. lia.
Qed.

(** ** Witnesses *)

Module GateDemo.

Definition config : Config :=
  {| cf_QueueCells := 0; cf_SetupCache := 0; cf_Period := 0; cf_HandshakeTimeout := 0; cf_SetupTimeout := 0;
     cf_WriteTimeout := 0; cf_IdleTimeout := 0; cf_CircuitLifetime := -1; cf_MaxHandshakes := 0;
     cf_MaxHandshakesPerSource := 0; cf_MaxLinks := 0; cf_MaxLinksPerSource := 1;
     cf_SourceLinkRate := f64_of_Z 0; cf_SourceLinkBurst := 0; cf_SourceSetupRate := f64_of_Z 0;
     cf_SourceSetupBurst := 0 |}.

Definition lim : limits := get_ok (resolveLimits config) eq_refl.

Definition peer : Addr := V4 16909060.

Definition g0 : Gate := newGate lim maxSources.

Definition g1 : Gate := snd (gate_admit 1 peer 1000 g0).

Definition live1 : list LiveConn := [{| lc_id := 1; lc_src := peer; lc_pending := true |}].

Lemma admitted : fst (gate_admit 1 peer 1000 g0) = Ok tt.
Proof. vm_compute. reflexivity. Qed.

(** The second connection of the same source is refused: it may hold one. *)
Lemma refused : fst (gate_admit 2 peer 2000 g1) = Err (Sentinel relay_errRefused).
Proof. vm_compute. reflexivity. Qed.

Lemma reached : rtc gate_step (g0, []) (snd (gate_admit 2 peer 2000 g1), live1).
Proof.
  eapply rtc_l; [apply (Step_admit g0 [] 1 peer 1000 g1)|].
  { rewrite <- admitted. apply surjective_pairing. }
  apply rtc_once, (Step_refuse g1 live1 2 peer 2000 (Sentinel relay_errRefused)).
  rewrite <- refused. apply surjective_pairing.
Qed.

End GateDemo.

Lemma gate_bounds_witness :
  gt_inbound (snd (gate_admit 2 GateDemo.peer 2000 GateDemo.g1)) = 1 /\
  Z.of_nat (size (gt_sources (snd (gate_admit 2 GateDemo.peer 2000 GateDemo.g1)))) <= Z.max 0 maxSources.
Proof.
  pose proof (gate_bounds GateDemo.lim maxSources _ GateDemo.live1 ltac:(vm_compute; congruence)
    ltac:(vm_compute; congruence) GateDemo.reached) as (H1 & _ & _ & _ & H5 & _).
  split; [exact H1 | exact H5].
Defined.

Lemma limits_resolved_witness :
  exists l, resolveLimits GateDemo.config = Ok l /\ resolved 0 DefaultSetupTimeout (lm_setup l).
Proof.
  exists GateDemo.lim. split; [apply get_ok_spec|].
  apply (limits_resolved GateDemo.config). apply get_ok_spec.
Defined.

Lemma source_groups_witness :
  sourceOf (TCPAddr (V6 (2 ^ 120 + 5) (str "eth0"))) = sourceOf (TCPAddr (V6 (2 ^ 120 + 2 ^ 63) [])).
Proof.
  assert (Ha : (Z.shiftr (2 ^ 120 + 5) 32 =? 0xffff) = false) by (vm_compute; reflexivity).
  assert (Hb : (Z.shiftr (2 ^ 120 + 2 ^ 63) 32 =? 0xffff) = false) by (vm_compute; reflexivity).
  assert (Hab : Z.shiftr (2 ^ 120 + 5) 64 = Z.shiftr (2 ^ 120 + 2 ^ 63) 64) by (vm_compute; reflexivity).
  exact (proj2 (proj1 source_groups (2 ^ 120 + 5) (str "eth0") (2 ^ 120 + 2 ^ 63) []
    (proj1 (Z.eqb_neq _ _) Ha) (proj1 (Z.eqb_neq _ _) Hb)) Hab).
Defined.
