(* ===== verification/Relay.v ===== *)
(** * Relay: circuits on a forwarding node

    Models [src/relay/relay.go].  A connection and the link on it are one
    number.  What the node cannot decide itself comes in with each operation:
    the clock, whether a dial, a handshake and a write succeed ([Env]).  What it
    sends is the log [rl_sent], the links it closed are [rl_closedLinks], and
    [rl_hops] counts the hop ciphers made and not yet closed.  An operation on a
    link runs as one step: the maps are guarded by a mutex, a circuit is only
    used by the handler of its own link and its backward goroutine, and a
    circuit is registered before its next hop is dialled. *)

From Stdlib Require Import Strings.Byte Strings.String.
From S2P Require Import Prelude Effects Crypto C25519 Toy Cell Replay Onion Chain Setup Ring Pace Limits.

(** ** State *)

Record circuit : Type := {
  ci_hop : Hop;
  ci_in : nat;
  ci_inbound : Z;
  ci_nextID : Z;
  ci_isExit : bool;
  ci_hopIndex : nat;
  ci_born : Z;
  ci_fwdSeq : Sequence;
  ci_bwdSeq : Sequence;
  ci_next : option nat;
  ci_replies : Z;
  ci_fwd : option pacer;
  ci_bwd : option pacer;
  ci_active : Z;
  ci_expiry : option Z;
  ci_unwatched : bool
}.

Definition ci_set_fwdSeq (v : Sequence) (c : circuit) : circuit :=
  {| ci_hop := ci_hop c; ci_in := ci_in c; ci_inbound := ci_inbound c; ci_nextID := ci_nextID c;
     ci_isExit := ci_isExit c; ci_hopIndex := ci_hopIndex c; ci_born := ci_born c; ci_fwdSeq := v;
     ci_bwdSeq := ci_bwdSeq c; ci_next := ci_next c; ci_replies := ci_replies c; ci_fwd := ci_fwd c;
     ci_bwd := ci_bwd c; ci_active := ci_active c; ci_expiry := ci_expiry c;
     ci_unwatched := ci_unwatched c |}.

Definition ci_set_bwdSeq (v : Sequence) (c : circuit) : circuit :=
  {| ci_hop := ci_hop c; ci_in := ci_in c; ci_inbound := ci_inbound c; ci_nextID := ci_nextID c;
     ci_isExit := ci_isExit c; ci_hopIndex := ci_hopIndex c; ci_born := ci_born c;
     ci_fwdSeq := ci_fwdSeq c; ci_bwdSeq := v; ci_next := ci_next c; ci_replies := ci_replies c;
     ci_fwd := ci_fwd c; ci_bwd := ci_bwd c; ci_active := ci_active c; ci_expiry := ci_expiry c;
     ci_unwatched := ci_unwatched c |}.

Definition ci_set_next (v : option nat) (c : circuit) : circuit :=
  {| ci_hop := ci_hop c; ci_in := ci_in c; ci_inbound := ci_inbound c; ci_nextID := ci_nextID c;
     ci_isExit := ci_isExit c; ci_hopIndex := ci_hopIndex c; ci_born := ci_born c;
     ci_fwdSeq := ci_fwdSeq c; ci_bwdSeq := ci_bwdSeq c; ci_next := v; ci_replies := ci_replies c;
     ci_fwd := ci_fwd c; ci_bwd := ci_bwd c; ci_active := ci_active c; ci_expiry := ci_expiry c;
     ci_unwatched := ci_unwatched c |}.

Definition ci_set_replies (v : Z) (c : circuit) : circuit :=
  {| ci_hop := ci_hop c; ci_in := ci_in c; ci_inbound := ci_inbound c; ci_nextID := ci_nextID c;
     ci_isExit := ci_isExit c; ci_hopIndex := ci_hopIndex c; ci_born := ci_born c;
     ci_fwdSeq := ci_fwdSeq c; ci_bwdSeq := ci_bwdSeq c; ci_next := ci_next c; ci_replies := v;
     ci_fwd := ci_fwd c; ci_bwd := ci_bwd c; ci_active := ci_active c; ci_expiry := ci_expiry c;
     ci_unwatched := ci_unwatched c |}.

Definition ci_set_fwd (v : option pacer) (c : circuit) : circuit :=
  {| ci_hop := ci_hop c; ci_in := ci_in c; ci_inbound := ci_inbound c; ci_nextID := ci_nextID c;
     ci_isExit := ci_isExit c; ci_hopIndex := ci_hopIndex c; ci_born := ci_born c;
     ci_fwdSeq := ci_fwdSeq c; ci_bwdSeq := ci_bwdSeq c; ci_next := ci_next c;
     ci_replies := ci_replies c; ci_fwd := v; ci_bwd := ci_bwd c; ci_active := ci_active c;
     ci_expiry := ci_expiry c; ci_unwatched := ci_unwatched c |}.

Definition ci_set_bwd (v : option pacer) (c : circuit) : circuit :=
  {| ci_hop := ci_hop c; ci_in := ci_in c; ci_inbound := ci_inbound c; ci_nextID := ci_nextID c;
     ci_isExit := ci_isExit c; ci_hopIndex := ci_hopIndex c; ci_born := ci_born c;
     ci_fwdSeq := ci_fwdSeq c; ci_bwdSeq := ci_bwdSeq c; ci_next := ci_next c;
     ci_replies := ci_replies c; ci_fwd := ci_fwd c; ci_bwd := v; ci_active := ci_active c;
     ci_expiry := ci_expiry c; ci_unwatched := ci_unwatched c |}.

Definition ci_set_active (v : Z) (c : circuit) : circuit :=
  {| ci_hop := ci_hop c; ci_in := ci_in c; ci_inbound := ci_inbound c; ci_nextID := ci_nextID c;
     ci_isExit := ci_isExit c; ci_hopIndex := ci_hopIndex c; ci_born := ci_born c;
     ci_fwdSeq := ci_fwdSeq c; ci_bwdSeq := ci_bwdSeq c; ci_next := ci_next c;
     ci_replies := ci_replies c; ci_fwd := ci_fwd c; ci_bwd := ci_bwd c; ci_active := v;
     ci_expiry := ci_expiry c; ci_unwatched := ci_unwatched c |}.

Definition ci_set_expiry (v : option Z) (c : circuit) : circuit :=
  {| ci_hop := ci_hop c; ci_in := ci_in c; ci_inbound := ci_inbound c; ci_nextID := ci_nextID c;
     ci_isExit := ci_isExit c; ci_hopIndex := ci_hopIndex c; ci_born := ci_born c;
     ci_fwdSeq := ci_fwdSeq c; ci_bwdSeq := ci_bwdSeq c; ci_next := ci_next c;
     ci_replies := ci_replies c; ci_fwd := ci_fwd c; ci_bwd := ci_bwd c; ci_active := ci_active c;
     ci_expiry := v; ci_unwatched := ci_unwatched c |}.

Definition ci_set_unwatched (v : bool) (c : circuit) : circuit :=
  {| ci_hop := ci_hop c; ci_in := ci_in c; ci_inbound := ci_inbound c; ci_nextID := ci_nextID c;
     ci_isExit := ci_isExit c; ci_hopIndex := ci_hopIndex c; ci_born := ci_born c;
     ci_fwdSeq := ci_fwdSeq c; ci_bwdSeq := ci_bwdSeq c; ci_next := ci_next c;
     ci_replies := ci_replies c; ci_fwd := ci_fwd c; ci_bwd := ci_bwd c; ci_active := ci_active c;
     ci_expiry := ci_expiry c; ci_unwatched := v |}.

Record RelayConfig : Type := {
  rc_Period : Z;
  rc_QueueCells : Z;
  rc_Peers : option (bytes -> option bytes);
  rc_Deliver : option (Z -> bytes -> option bytes)
}.

Record Relay : Type := {
  rl_cfg : RelayConfig;
  rl_gate : Gate;
  rl_onion : OnionRing;
  rl_circuits : gmap Z circuit;
  rl_owners : gmap nat Z;
  rl_closedLinks : gset nat;
  rl_sent : list (nat * Cell);
  rl_hops : Z
}.

Definition rl_set_gate (v : Gate) (r : Relay) : Relay :=
  {| rl_cfg := rl_cfg r; rl_gate := v; rl_onion := rl_onion r; rl_circuits := rl_circuits r;
     rl_owners := rl_owners r; rl_closedLinks := rl_closedLinks r; rl_sent := rl_sent r;
     rl_hops := rl_hops r |}.

Definition rl_set_onion (v : OnionRing) (r : Relay) : Relay :=
  {| rl_cfg := rl_cfg r; rl_gate := rl_gate r; rl_onion := v; rl_circuits := rl_circuits r;
     rl_owners := rl_owners r; rl_closedLinks := rl_closedLinks r; rl_sent := rl_sent r;
     rl_hops := rl_hops r |}.

Definition rl_set_circuits (v : gmap Z circuit) (r : Relay) : Relay :=
  {| rl_cfg := rl_cfg r; rl_gate := rl_gate r; rl_onion := rl_onion r; rl_circuits := v;
     rl_owners := rl_owners r; rl_closedLinks := rl_closedLinks r; rl_sent := rl_sent r;
     rl_hops := rl_hops r |}.

Definition rl_set_owners (v : gmap nat Z) (r : Relay) : Relay :=
  {| rl_cfg := rl_cfg r; rl_gate := rl_gate r; rl_onion := rl_onion r; rl_circuits := rl_circuits r;
     rl_owners := v; rl_closedLinks := rl_closedLinks r; rl_sent := rl_sent r; rl_hops := rl_hops r |}.

Definition rl_set_closedLinks (v : gset nat) (r : Relay) : Relay :=
  {| rl_cfg := rl_cfg r; rl_gate := rl_gate r; rl_onion := rl_onion r; rl_circuits := rl_circuits r;
     rl_owners := rl_owners r; rl_closedLinks := v; rl_sent := rl_sent r; rl_hops := rl_hops r |}.

Definition rl_set_sent (v : list (nat * Cell)) (r : Relay) : Relay :=
  {| rl_cfg := rl_cfg r; rl_gate := rl_gate r; rl_onion := rl_onion r; rl_circuits := rl_circuits r;
     rl_owners := rl_owners r; rl_closedLinks := rl_closedLinks r; rl_sent := v; rl_hops := rl_hops r |}.

Definition rl_set_hops (v : Z) (r : Relay) : Relay :=
  {| rl_cfg := rl_cfg r; rl_gate := rl_gate r; rl_onion := rl_onion r; rl_circuits := rl_circuits r;
     rl_owners := rl_owners r; rl_closedLinks := rl_closedLinks r; rl_sent := rl_sent r; rl_hops := v |}.

Record Env : Type := {
  ev_now : Z;
  ev_dial : res nat;
  ev_handshake : res unit;
  ev_write : res unit
}.

(** ** Computations on the relay *)

Definition R (A : Type) : Type := Relay -> World -> (res A * Relay) * World.

Definition retR {A} (a : A) : R A := fun r w => ((Ok a, r), w).

Definition failR {A} (e : error) : R A := fun r w => ((Err e, r), w).

Definition bindR {A B} (m : R A) (k : A -> R B) : R B := fun r w =>
  match m r w with
  | ((Ok a, r'), w') => k a r' w'
  | ((Err e, r'), w') => ((Err e, r'), w')
  end.

Notation "'do!' x ':=' m 'in' k" := (bindR m (fun x => k))
  (at level 10, x pattern, m at level 100, k at level 200) : go_scope.

(** Run a computation and go on with its result, an error included. *)
Definition tryR {A B} (m : R A) (k : res A -> R B) : R B := fun r w =>
  let '((a, r'), w') := m r w in k a r' w'.

Definition liftR {A} (m : M A) : R A := fun r w => let '(a, w') := m w in ((a, r), w').

Definition modR (f : Relay -> Relay) : R unit := fun r w => ((Ok tt, f r), w).

Definition getR {A} (f : Relay -> A) : R A := fun r w => ((Ok (f r), r), w).

Definition rl_lim (r : Relay) : limits := gt_lim (rl_gate r).
Definition rl_stats (r : Relay) : Stats := gt_stats (rl_gate r).

Definition gt_set_stats (s : Stats) (g : Gate) : Gate :=
  {| gt_lim := gt_lim g; gt_cap := gt_cap g; gt_closed := gt_closed g; gt_inbound := gt_inbound g;
     gt_handshaking := gt_handshaking g; gt_conns := gt_conns g; gt_handlers := gt_handlers g;
     gt_sources := gt_sources g; gt_timers := gt_timers g; gt_fresh := gt_fresh g; gt_stats := s |}.

Definition with_stats (f : Stats -> Stats) (r : Relay) : Relay :=
  rl_set_gate (gt_set_stats (f (rl_stats r)) (rl_gate r)) r.

Definition count (f : stat) : R unit := modR (with_stats (stats_add f)).
Definition count_timeout (e : error) : R unit := modR (with_stats (stats_timeout e)).

Definition close_link (l : nat) (r : Relay) : Relay := rl_set_closedLinks ({[l]} ∪ rl_closedLinks r) r.

Definition put_circuit (id : Z) (c : circuit) (r : Relay) : Relay :=
  rl_set_circuits (<[id := c]> (rl_circuits r)) r.

(** [WriteCell] on a link. *)
Definition write_cell (l : nat) (cell : Cell) (env : Env) : R unit := fun r w =>
  match ev_write env with
  | Ok _ => ((Ok tt, rl_set_sent (rl_sent r ++ [(l, cell)]) r), w)
  | Err e => ((Err e, r), w)
  end.

Definition writeFailure (err : error) : error :=
  if lostToTeardown err then ErrWrap (Sentinel relay_errFatal) (ErrHide err)
  else ErrWrap (Sentinel relay_errBroken) (ErrHide err).

Definition owns (l : nat) (r : Relay) : bool :=
  match rl_owners r !! l with Some _ => true | None => false end.

(** [time.Since(c.born)] *)
Definition touch (now : Z) (c : circuit) : circuit := ci_set_active (time_sub now (ci_born c)) c.

(** ** Expiry *)

Definition expiresAt (l : limits) (c : circuit) : option Z :=
  let at_idle := if 0 <? lm_idle l then Some (ci_born c + i64 (ci_active c + lm_idle l)) else None in
  if 0 <? lm_lifetime l then
    let fin := ci_born c + lm_lifetime l in
    match at_idle with
    | None => Some fin
    | Some a => if fin <? a then Some fin else Some a
    end
  else at_idle.

Definition watch (now : Z) (l : limits) (c : circuit) : circuit :=
  if (lm_idle l <=? 0) && (lm_lifetime l <=? 0) then c
  else
    let c := touch now c in
    if ci_unwatched c then c else ci_set_expiry (expiresAt l c) c.

Definition unwatch (c : circuit) : circuit := ci_set_expiry None (ci_set_unwatched true c).

(** The timer of the circuit fires. *)
Definition expire (id : Z) (now : Z) (r : Relay) : Relay :=
  match rl_circuits r !! id with
  | None => r
  | Some c =>
      if ci_unwatched c then r
      else
        match expiresAt (rl_lim r) c with
        | Some at_ =>
            if now <? at_ then put_circuit id (ci_set_expiry (Some at_) c) r
            else
              close_link (ci_in c)
                (with_stats (stats_add Expired) (put_circuit id (ci_set_unwatched true c) r))
        | None =>
            close_link (ci_in c)
              (with_stats (stats_add Expired) (put_circuit id (ci_set_unwatched true c) r))
        end
  end.

(** ** Teardown *)

Definition drop_conn (conn : nat) (g : Gate) : Gate :=
  gt_set_counts (gt_inbound g) (gt_handshaking g) (gt_conns g ∖ {[conn]}) (gt_handlers g) g.

(** What closing a pacer, nil or not, adds to the counters. *)
Definition close_pacer (p : option pacer) (s : Stats) : Stats :=
  match p with Some p => snd (pacer_close p s) | None => s end.

Definition release (c : circuit) (r : Relay) : Relay :=
  let r := match ci_next c with
           | Some l =>
               let r := with_stats (close_pacer (ci_fwd c)) (close_link l r) in
               rl_set_gate (drop_conn l (rl_gate r)) r
           | None => r
           end in
  let r := with_stats (close_pacer (ci_bwd c)) r in
  rl_set_hops (rl_hops r - 1) r.

Definition teardown (from : nat) (r : Relay) : Relay :=
  match rl_owners r !! from with
  | None => r
  | Some id =>
      let c := rl_circuits r !! id in
      let r := rl_set_owners (delete from (rl_owners r)) (rl_set_circuits (delete id (rl_circuits r)) r) in
      match c with Some c => release c r | None => r end
  end.

(** ** Data cells *)

(** A cell for a neighbour: through the pacer of that direction or at once. *)
Definition pass (id : Z) (p : option pacer) (set : option pacer -> circuit -> circuit) (c : circuit)
    (l : nat) (cell : Cell) (forwarded : bool) (env : Env) : R unit :=
  match p with
  | Some p =>
      let '(ok, p') := push cell forwarded p in
      do! _ := modR (put_circuit id (set (Some p') c)) in
      if ok then retR tt else failR (Sentinel relay_errQueueFull)
  | None =>
      do! _ := modR (put_circuit id c) in
      tryR (write_cell l cell env) (fun r =>
        match r with
        | Ok _ => if forwarded then count Forwarded else retR tt
        | Err e => do! _ := count_timeout e in failR (writeFailure e)
        end)
  end.

Definition seal_broken {A} (m : R A) : R A :=
  tryR m (fun a => match a with
                   | Ok a => retR a
                   | Err e => failR (ErrWrap (Sentinel relay_errBroken) (ErrHide e))
                   end).

Definition reply (id : Z) (c : circuit) (payload : option bytes) (env : Env) : R unit :=
  let counter := ci_replies c in
  let c := ci_set_replies (u64 (counter + 1)) c in
  let cover := seal_broken (liftR (SealCoverReply (ci_hop c) (ci_inbound c) counter)) in
  do! _ := modR (put_circuit id c) in
  do! cell :=
    match payload with
    | None => cover
    | Some p =>
        tryR (liftR (SealReply (ci_hop c) (ci_inbound c) counter p)) (fun a =>
          match a with
          | Ok cell => retR cell
          | Err e =>
              if errors_is e wire_ErrPayloadSize then do! _ := count Dropped in cover
              else failR (ErrWrap (Sentinel relay_errBroken) (ErrHide e))
          end)
    end in
  pass id (ci_bwd c) ci_set_bwd c (ci_in c) cell false env.

(** The end of [route]: a data cell on a circuit of this link. *)
Definition route_data (cell : Cell) (hdr : Header) (c : circuit) (env : Env) : R unit :=
  let id := h_Circuit hdr in
  if ci_isExit c then
    do! (payload, cover) := liftR (OpenLast (ci_hop c) cell) in
    let '(ok, seq) := Next (h_Counter hdr) (ci_fwdSeq c) in
    if negb ok then failR (Sentinel relay_errOutOfTurn)
    else
      let c := touch (ev_now env) (ci_set_fwdSeq seq c) in
      do! _ := count Delivered in
      do! deliver := getR (fun r => rc_Deliver (rl_cfg r)) in
      let answer := match deliver with
                    | Some f => if cover then None else f (ci_inbound c) payload
                    | None => None
                    end in
      reply id c answer env
  else
    do! out := liftR (Peel (ci_hop c) cell) in
    let '(ok, seq) := Next (h_Counter hdr) (ci_fwdSeq c) in
    if negb ok then failR (Sentinel relay_errOutOfTurn)
    else
      let c := touch (ev_now env) (ci_set_fwdSeq seq c) in
      let out := SetCircuit (ci_nextID c) out in
      match ci_next c with
      | Some l => pass id (ci_fwd c) ci_set_fwd c l out true env
      | None => failR (Other "no next hop")
      end.

(** ** The way back *)

(** One round of [backward] for a cell that came from the next hop; true when
    the goroutine ends, which closes the link the circuit came in on. *)
Definition backward_circuit (id : Z) (c : circuit) (cell : Cell) (env : Env) : R bool :=
  let finish := do! _ := modR (close_link (ci_in c)) in retR true in
  let broken := do! _ := count Broken in finish in
  match Cell_Header cell with
  | Err _ => broken
  | Ok hdr =>
      if negb (bool_decide (h_Kind hdr = KindData)) then broken
      else
        let '(ok, seq) := Next (h_Counter hdr) (ci_bwdSeq c) in
        if negb ok then broken
        else
          let c := ci_set_bwdSeq seq c in
          do! _ := modR (put_circuit id c) in
          tryR (liftR (Wrap (ci_hop c) cell (ci_inbound c))) (fun a =>
            match a with
            | Err _ => broken
            | Ok out =>
                let c := touch (ev_now env) c in
                tryR (pass id (ci_bwd c) ci_set_bwd c (ci_in c) out true env) (fun a =>
                  match a with
                  | Ok _ => retR false
                  | Err e => if errors_is e relay_errBroken then broken else finish
                  end)
            end)
  end.

Definition backward_cell (id : Z) (cell : Cell) (env : Env) : R bool :=
  do! co := getR (fun r => rl_circuits r !! id) in
  match co with
  | None => retR true
  | Some c => backward_circuit id c cell env
  end.

(** The next hop is gone: [backward] ends on a failed read. *)
Definition backward_eof (id : Z) (r : Relay) : Relay :=
  match rl_circuits r !! id with Some c => close_link (ci_in c) r | None => r end.

(** ** Setup *)

Section Relay.
Context {P : CryptoProvider}.

Definition set_ring (g : OnionRing) (r : Relay) : Relay := rl_set_onion g r.

Definition open_ring (cell : Cell) : R SetupLayer := fun r w =>
  let '((a, g), w') := Ring_Open cell (rl_onion r) w in ((a, set_ring g r), w').

Definition setupFailed {A} (from : nat) (err : error) : R A := fun r w =>
  if owns from r then ((Err err, r), w)
  else ((Err (ErrWrap (Sentinel relay_errFatal) (ErrHide err)), r), w).

Definition new_pacer (cfg : RelayConfig) : option pacer :=
  if rc_Period cfg <=? 0 then None else Some (newPacer (rc_QueueCells cfg)).

(** [hop.Close] *)
Definition close_hop : R unit := modR (fun r => rl_set_hops (rl_hops r - 1) r).

Definition hold (conn : nat) (r : Relay) : Relay :=
  rl_set_gate (gt_set_counts (gt_inbound (rl_gate r)) (gt_handshaking (rl_gate r))
    ({[conn]} ∪ gt_conns (rl_gate r)) (gt_handlers (rl_gate r)) (rl_gate r)) r.

Definition extend_fail {A} (raw : nat) (err : error) : R A :=
  do! _ := count_timeout err in
  do! _ := modR (fun r => rl_set_gate (drop_conn raw (rl_gate r)) (close_link raw r)) in
  failR err.

Definition lookup_peer (cfg : RelayConfig) (addr : bytes) : option (option bytes) :=
  match rc_Peers cfg with
  | None => Some None
  | Some peers =>
      match peers addr with
      | Some (b :: key) => Some (Some (b :: key))
      | _ => None
      end
  end.

Definition extend (id : Z) (c : circuit) (layer : SetupLayer) (index : nat) (env : Env) : R circuit :=
  do! cfg := getR rl_cfg in
  match lookup_peer cfg (sl_NextAddr layer) with
  | None => do! _ := count RefusedExtend in failR (Sentinel relay_errNotPeer)
  | Some _ =>
      match ev_dial env with
      | Err e => failR e
      | Ok raw =>
          do! closed := getR (fun r => gt_closed (rl_gate r)) in
          if closed : bool then
            do! _ := modR (close_link raw) in failR (Sentinel relay_errFatal)
          else
            do! _ := modR (hold raw) in
            match ev_handshake env with
            | Err e =>
                do! _ := (if errors_is e link_ErrHandshake then count FailedExtend else retR tt) in
                extend_fail raw e
            | Ok _ =>
                tryR (liftR (ForwardSetup layer index)) (fun a =>
                  match a with
                  | Err e => extend_fail raw e
                  | Ok fwd =>
                      tryR (write_cell raw fwd env) (fun a =>
                        match a with
                        | Err e => extend_fail raw e
                        | Ok _ =>
                            let c := ci_set_bwd (new_pacer cfg) (ci_set_fwd (new_pacer cfg)
                                       (ci_set_next (Some raw) c)) in
                            do! _ := modR (put_circuit id c) in retR c
                        end)
                  end)
            end
      end
  end.

Definition new_circuit (hop : Hop) (layer : SetupLayer) (hdr : Header) (from : nat) (now : Z) : circuit :=
  let exit := bool_decide (sl_NextAddr layer = []) in
  {| ci_hop := hop; ci_in := from; ci_inbound := h_Circuit hdr; ci_nextID := sl_NextCircuit layer;
     ci_isExit := exit; ci_hopIndex := Z.to_nat (h_Counter hdr); ci_born := now;
     ci_fwdSeq := if exit then Expect (sl_First layer) Sequence_zero else Sequence_zero;
     ci_bwdSeq := Sequence_zero; ci_next := None; ci_replies := 0; ci_fwd := None; ci_bwd := None;
     ci_active := 0; ci_expiry := None; ci_unwatched := false |}.

Definition register (id : Z) (from : nat) (c : circuit) (r : Relay) : Relay :=
  rl_set_owners (<[from := id]> (rl_owners r)) (put_circuit id c r).

Definition unregister (id : Z) (from : nat) (r : Relay) : Relay :=
  rl_set_owners (delete from (rl_owners r)) (rl_set_circuits (delete id (rl_circuits r)) r).

(** The part of [setup] after the layer has opened. *)
Definition setup_circuit (layer : SetupLayer) (hdr : Header) (from : nat) (env : Env) : R unit :=
  let index := Z.to_nat (h_Counter hdr) in
  let id := h_Circuit hdr in
  match NewHop (sl_CellKey layer) (sl_Offsets layer) index with
  | Err e => setupFailed from e
  | Ok hop =>
      do! _ := modR (fun r => rl_set_hops (rl_hops r + 1) r) in
      let c := new_circuit hop layer hdr from (ev_now env) in
      do! closed := getR (fun r => gt_closed (rl_gate r)) in
      do! circuit_taken := getR (fun r => bool_decide (is_Some (rl_circuits r !! id))) in
      do! link_taken := getR (owns from) in
      if closed : bool then do! _ := close_hop in failR (Sentinel relay_errFatal)
      else if circuit_taken : bool then do! _ := close_hop in setupFailed from (Sentinel relay_errDuplicate)
      else if link_taken : bool then do! _ := close_hop in failR (Sentinel relay_errLinkTaken)
      else
        do! _ := modR (register id from c) in
        do! cfg := getR rl_cfg in
        do! lim := getR rl_lim in
        if ci_isExit c then modR (put_circuit id (watch (ev_now env) lim (ci_set_bwd (new_pacer cfg) c)))
        else
          tryR (extend id c layer index env) (fun a =>
            match a with
            | Err e =>
                do! _ := modR (unregister id from) in
                do! _ := close_hop in
                setupFailed from e
            | Ok c => modR (put_circuit id (watch (ev_now env) lim c))
            end)
  end.

Definition allow_setup (src : Addr) (now : Z) : R bool := fun r w =>
  let '(ok, g) := allowSetup src now (rl_gate r) in ((Ok ok, rl_set_gate g r), w).

Definition setup (cell : Cell) (hdr : Header) (from : nat) (src : Addr) (env : Env) : R unit :=
  do! taken := getR (owns from) in
  if taken : bool then failR (Sentinel relay_errLinkTaken)
  else
    do! ok := allow_setup src (ev_now env) in
    if negb ok then do! _ := count RefusedSetups in setupFailed from (Sentinel relay_errSetupRate)
    else
      tryR (open_ring cell) (fun a =>
        match a with
        | Err e => setupFailed from e
        | Ok layer => setup_circuit layer hdr from env
        end).

Definition route (cell : Cell) (from : nat) (src : Addr) (env : Env) : R unit :=
  match Cell_Header cell with
  | Err e => failR e
  | Ok hdr =>
      do! _ := count Accepted in
      if bool_decide (h_Kind hdr = KindControl) then setup cell hdr from src env
      else
        do! co := getR (fun r => rl_circuits r !! h_Circuit hdr) in
        match co with
        | Some c =>
            if (ci_in c =? from)%nat then route_data cell hdr c env
            else failR (Other "relay: unknown circuit")
        | None => failR (Other "relay: unknown circuit")
        end
  end.

(** ** A connection and the node *)

(** A round of [handle]: whether the handler reads on. *)
Definition on_cell (cell : Cell) (from : nat) (src : Addr) (env : Env) : R bool :=
  tryR (route cell from src env) (fun a =>
    match a with
    | Ok _ => retR true
    | Err e =>
        if errors_is e relay_errBroken then do! _ := count Broken in retR false
        else
          do! _ := count Dropped in
          retR (negb (errors_is e relay_errFatal))
    end).

(** What [handle] defers: the link closes, its circuit goes, the slot is free. *)
Definition hang_up (from : nat) (src : Addr) (now : Z) (r : Relay) : Relay :=
  let r := teardown from (close_link from r) in
  rl_set_gate (leave from src now (rl_gate r)) r.

Definition Relay_Close (r : Relay) : Relay :=
  let conns := gt_conns (rl_gate r) in
  let r := rl_set_gate (gt_set_closed (rl_gate r)) r in
  rl_set_closedLinks (conns ∪ rl_closedLinks r) r.

Definition NewRelay (cfg : Config) (rcfg : RelayConfig) (staticPriv : option bytes) (staticPub : bytes)
    (onion : option OnionRing) : M Relay :=
  match staticPriv with
  | None => failM (Other "relay: no static key")
  | Some priv =>
      let! size := PublicKeySize in
      if negb (length staticPub =? size)%nat then failM (Sentinel relay_ErrStaticPubSize)
      else if (cf_QueueCells cfg <? 0) || (maxQueueCells <? cf_QueueCells cfg)
      then failM (Other "relay: queue outside")
      else if (cf_SetupCache cfg <? 0) || (MaxSetupCache <? cf_SetupCache cfg)
      then failM (Other "relay: setup cache outside")
      else
        let! lim := lift (resolveLimits cfg) in
        let! _ := checkKeyPair priv staticPub relay_ErrStaticPair in
        retM {| rl_cfg := rcfg; rl_gate := newGate lim maxSources;
                rl_onion := match onion with
                            | Some g => g
                            | None => staticRing priv staticPub (cf_SetupCache cfg)
                            end;
                rl_circuits := ∅; rl_owners := ∅; rl_closedLinks := ∅; rl_sent := []; rl_hops := 0 |}
  end.

(** ** Runs *)

Inductive direction : Type := ToNext | ToClient.

(** A tick of one of the pacers of a circuit. *)
Definition pacer_tick (id : Z) (d : direction) (outcome : res unit) (r : Relay) : Relay :=
  match rl_circuits r !! id with
  | None => r
  | Some c =>
      let '(p, set, l) := match d with
                          | ToNext => (ci_fwd c, ci_set_fwd, ci_next c)
                          | ToClient => (ci_bwd c, ci_set_bwd, Some (ci_in c))
                          end in
      match p, l with
      | Some p, Some l =>
          let '(f, p', s) := tick outcome p (rl_stats r) in
          let r := with_stats (fun _ => s) (put_circuit id (set (Some p') c) r) in
          match f with
          | Some (cell, false) => rl_set_sent (rl_sent r ++ [(l, cell)]) r
          | Some (_, true) => close_link l r
          | None => r
          end
      | _, _ => r
      end
  end.

Inductive relay_step : Relay * World -> Relay * World -> Prop :=
| RS_cell r w cell from src env r' w' :
    on_cell cell from src env r w = ((Ok true, r'), w') -> relay_step (r, w) (r', w')
| RS_cell_end r w cell from src env r' w' :
    on_cell cell from src env r w = ((Ok false, r'), w') ->
    relay_step (r, w) (hang_up from src (ev_now env) r', w')
| RS_eof r w from src now : relay_step (r, w) (hang_up from src now r, w)
| RS_back r w id cell env b r' w' :
    backward_cell id cell env r w = ((Ok b, r'), w') -> relay_step (r, w) (r', w')
| RS_back_eof r w id : relay_step (r, w) (backward_eof id r, w)
| RS_expire r w id now : relay_step (r, w) (expire id now r, w)
| RS_tick r w id d outcome : relay_step (r, w) (pacer_tick id d outcome r, w)
| RS_gate r w live live' g : gate_step (rl_gate r, live) (g, live') -> relay_step (r, w) (rl_set_gate g r, w)
| RS_ring r w op a g w' : ring_step op (rl_onion r) w = ((a, g), w') -> relay_step (r, w) (set_ring g r, w')
| RS_close r w : relay_step (r, w) (Relay_Close r, w).

End Relay.

(** ** The books of a relay *)

(** What of a circuit is fixed once its setup is done. *)
Record fixed_part : Type := { fp_in : nat; fp_inbound : Z; fp_exit : bool; fp_next : option nat; fp_hop : Hop }.

Definition fixed (c : circuit) : fixed_part :=
  {| fp_in := ci_in c; fp_inbound := ci_inbound c; fp_exit := ci_isExit c; fp_next := ci_next c; fp_hop := ci_hop c |}.

Record Books : Type := { bo_circuits : gmap Z fixed_part; bo_owners : gmap nat Z; bo_hops : Z }.

Definition books (r : Relay) : Books :=
  {| bo_circuits := fixed <$> rl_circuits r; bo_owners := rl_owners r; bo_hops := rl_hops r |}.

(** Links and circuits are paired, every circuit is kept under the identifier
    it came in with, a circuit has a next link exactly when it ends elsewhere,
    and there is one live hop cipher per circuit. *)
Record books_ok (b : Books) : Prop := {
  bk_owner l id : bo_owners b !! l = Some id <-> exists f, bo_circuits b !! id = Some f /\ fp_in f = l;
  bk_fixed id f : bo_circuits b !! id = Some f -> fp_inbound f = id /\ (fp_exit f = true <-> fp_next f = None);
  bk_hops : bo_hops b = Z.of_nat (size (bo_circuits b))
}.

(** A computation about the circuit [id] keeps the books and leaves every other
    circuit alone. *)
Definition Keeps {A} (id : Z) (f : fixed_part) (m : R A) : Prop := forall r w,
  bo_circuits (books r) !! id = Some f ->
  let r' := snd (fst (m r w)) in
  books r' = books r /\ forall x, x <> id -> rl_circuits r' !! x = rl_circuits r !! x.

Section Keeps.
Context (id : Z) (f : fixed_part).

Lemma keeps_ret {A} (a : A) : Keeps id f (retR a).
Proof. by intros r w _. Qed.

Lemma keeps_fail {A} e : Keeps id f (@failR A e).
Proof. by intros r w _. Qed.

Lemma keeps_get {A} (g : Relay -> A) : Keeps id f (getR g).
Proof. by intros r w _. Qed.

Lemma keeps_lift {A} (m : M A) : Keeps id f (liftR m).
Proof. intros r w _. unfold liftR. by destruct (m w). Qed.

Lemma keeps_try {A B} (m : R A) (k : res A -> R B) :
  Keeps id f m -> (forall a, Keeps id f (k a)) -> Keeps id f (tryR m k).
Proof.
  intros Hm Hk r w Hf. unfold tryR. destruct (Hm r w Hf) as [Hb Ho].
  destruct (m r w) as [[a r1] w1]. simpl in Hb, Ho.
  destruct (Hk a r1 w1) as [Hb' Ho']; [by rewrite Hb|]. simpl in *.
  split; [by rewrite Hb'|]. intros x Hx. by rewrite Ho', Ho.
Qed.

Lemma keeps_bind {A B} (m : R A) (k : A -> R B) :
  Keeps id f m -> (forall a, Keeps id f (k a)) -> Keeps id f (bindR m k).
Proof.
  intros Hm Hk. change (bindR m k) with (fun r w => match m r w with
    | ((Ok a, r'), w') => k a r' w' | ((Err e, r'), w') => ((@Err error B e, r'), w') end).
  intros r w Hf. pose proof (keeps_try m (fun a => match a with Ok a => k a | Err e => failR e end) Hm) as H.
  specialize (H ltac:(intros [a|e]; [apply Hk | apply keeps_fail]) r w Hf). unfold tryR, failR in H.
  by destruct (m r w) as [[[a|e] r1] w1].
Qed.

Lemma keeps_mod (g : Relay -> Relay) :
  (forall r, books (g r) = books r) -> (forall r, rl_circuits (g r) = rl_circuits r) -> Keeps id f (modR g).
Proof. intros Hb Hc r w _. simpl. split; [done|]. intros x _. by rewrite Hc. Qed.

Lemma keeps_put c : fixed c = f -> Keeps id f (modR (put_circuit id c)).
Proof.
  intros Hc r w Hf. simpl. split; [|intros x Hx; simpl; by apply lookup_insert_ne].
  unfold books. simpl. f_equal. by rewrite fmap_insert, Hc, insert_id.
Qed.

Lemma keeps_count s : Keeps id f (count s).
Proof. by apply keeps_mod. Qed.

Lemma keeps_write l cell env : Keeps id f (write_cell l cell env).
Proof. intros r w _. unfold write_cell. by destruct (ev_write env). Qed.

End Keeps.

Create HintDb keeps discriminated.

#[export] Hint Resolve keeps_ret keeps_fail keeps_get keeps_lift keeps_count keeps_write : keeps.

(** Follow a computation down to its steps. *)
Ltac keeps :=
  repeat match goal with
  | |- forall _, _ => intros ?
  | |- Keeps _ _ (bindR _ _) => apply keeps_bind
  | |- Keeps _ _ (tryR _ _) => apply keeps_try
  | |- Keeps _ _ (count_timeout _) => by apply keeps_mod
  | |- Keeps _ _ (modR (put_circuit _ _)) => by apply keeps_put
  | |- Keeps _ _ (modR _) => by apply keeps_mod
  | |- Keeps _ _ (let '(_, _) := ?x in _) => destruct x
  | |- Keeps _ _ (if ?b then _ else _) => destruct b
  | |- Keeps _ _ (match ?x with _ => _ end) => destruct x
  | _ => by auto with keeps
  end.

Lemma keeps_pass id p set c l cell fwd env :
  (forall o, fixed (set o c) = fixed c) -> Keeps id (fixed c) (pass id p set c l cell fwd env).
Proof.
  intros Hset. unfold pass. destruct p as [p|].
  - destruct (push cell fwd p) as [ok p']. apply keeps_bind; [by apply keeps_put | keeps].
  - keeps.
Qed.

Lemma keeps_reply id c payload env : Keeps id (fixed c) (reply id c payload env).
Proof.
  unfold reply. set (c' := ci_set_replies _ c). change (fixed c) with (fixed c').
  apply keeps_bind; [by apply keeps_put|]. intros _.
  apply keeps_bind; [unfold seal_broken; keeps|]. intros cell. by apply keeps_pass.
Qed.

Lemma keeps_route_data cell hdr c env : Keeps (h_Circuit hdr) (fixed c) (route_data cell hdr c env).
Proof.
  unfold route_data. destruct (ci_isExit c).
  - apply keeps_bind; [apply keeps_lift|]. intros [payload cover].
    destruct (Next (h_Counter hdr) (ci_fwdSeq c)) as [ok seq]. destruct (negb ok); [apply keeps_fail|].
    apply keeps_bind; [apply keeps_count|]. intros _. apply keeps_bind; [apply keeps_get|]. intros deliver.
    set (c' := touch _ _). change (fixed c) with (fixed c'). apply keeps_reply.
  - apply keeps_bind; [apply keeps_lift|]. intros out.
    destruct (Next (h_Counter hdr) (ci_fwdSeq c)) as [ok seq]. destruct (negb ok); [apply keeps_fail|].
    set (c' := touch _ _). destruct (ci_next c'); [by apply (keeps_pass _ _ _ c') | apply keeps_fail].
Qed.

Lemma keeps_backward id c cell env : Keeps id (fixed c) (backward_circuit id c cell env).
Proof.
  unfold backward_circuit. set (finish := bindR (modR (close_link (ci_in c))) _).
  assert (Hfin : Keeps id (fixed c) finish) by (unfold finish; keeps).
  assert (Hbr : Keeps id (fixed c) (do! _ := count Broken in finish))
    by (apply keeps_bind; [apply keeps_count | done]).
  destruct (Cell_Header cell) as [hdr|]; [|done]. destruct (negb _); [done|].
  destruct (Next (h_Counter hdr) (ci_bwdSeq c)) as [ok seq]. destruct (negb ok); [done|].
  set (c' := ci_set_bwdSeq seq c). apply keeps_bind; [by apply (keeps_put id (fixed c) c')|]. intros _.
  apply keeps_try; [apply keeps_lift|]. intros [out|]; [|done].
  apply keeps_try; [by apply (keeps_pass id _ _ (touch (ev_now env) c'))|].
  intros [u|e]; [apply keeps_ret | by destruct (errors_is e relay_errBroken)].
Qed.

(** ** What a setup does to the books *)

Section SetupBooks.
Context {P : CryptoProvider}.

(** The maps and the number of live hop ciphers. *)
Definition maps (r : Relay) : gmap Z circuit * gmap nat Z * Z := (rl_circuits r, rl_owners r, rl_hops r).

Lemma extend_fail_spec raw e r w :
  fst (fst (@extend_fail circuit raw e r w)) = Err e /\ maps (snd (fst (@extend_fail circuit raw e r w))) = maps r.
Proof. done. Qed.

Lemma extend_spec id c layer index env r w a r' w' :
  extend id c layer index env r w = ((a, r'), w') ->
  rl_owners r' = rl_owners r /\ rl_hops r' = rl_hops r /\
  match a with
  | Ok c' => rl_circuits r' = <[id := c']> (rl_circuits r) /\ is_Some (ci_next c') /\
             ci_in c' = ci_in c /\ ci_inbound c' = ci_inbound c /\ ci_isExit c' = ci_isExit c
  | Err _ => rl_circuits r' = rl_circuits r
  end.
Proof.
  unfold extend, bindR, getR. destruct (lookup_peer _ _); [|by intros [= <- <- _]].
  destruct (ev_dial env) as [raw|e]; [|by intros [= <- <- _]].
  destruct (gt_closed (rl_gate r)); [by intros [= <- <- _]|]. simpl.
  destruct (ev_handshake env) as [u|e]; [|destruct (errors_is e link_ErrHandshake); by intros [= <- <- _]].
  unfold tryR, liftR. destruct (ForwardSetup layer index w) as [[fwd|e] w1]; [|by intros [= <- <- _]].
  unfold write_cell. destruct (ev_write env) as [u'|e]; [|by intros [= <- <- _]].
  intros [= <- <- _]. simpl. split_and!; done.
Qed.

(** A setup that succeeds adds one circuit, under an identifier and on a link
    that had none; one that fails leaves the maps as they were. *)
Definition setup_outcome (from : nat) (hdr : Header) (a : res unit) (r r' : Relay) : Prop :=
  match a with
  | Ok _ => exists c, rl_circuits r !! h_Circuit hdr = None /\ rl_owners r !! from = None /\
      maps r' = (<[h_Circuit hdr := c]> (rl_circuits r), <[from := h_Circuit hdr]> (rl_owners r), rl_hops r + 1) /\
      ci_in c = from /\ ci_inbound c = h_Circuit hdr /\ (ci_isExit c = true <-> ci_next c = None)
  | Err _ => maps r' = maps r
  end.

Lemma setupFailed_spec from e r w :
  exists e', @setupFailed unit from e r w = ((Err e', r), w).
Proof. unfold setupFailed. destruct (owns from r); eauto. Qed.

Lemma fixed_watch now l c : fixed (watch now l c) = fixed c.
Proof. unfold watch. by repeat case_match. Qed.

Lemma setup_circuit_spec layer hdr from env r w a r' w' :
  setup_circuit layer hdr from env r w = ((a, r'), w') -> setup_outcome from hdr a r r'.
Proof.
  unfold setup_circuit. destruct (NewHop _ _ _) as [hop|e].
  2: { destruct (setupFailed_spec from e r w) as [e' ->]. by intros [= <- <- _]. }
  set (c := new_circuit hop layer hdr from (ev_now env)). unfold bindR at 1, modR at 1.
  set (r1 := rl_set_hops (rl_hops r + 1) r).
  assert (Hr1 : maps (rl_set_hops (rl_hops r1 - 1) r1) = maps r).
  { unfold maps, r1. simpl. do 2 f_equal. lia. }
  unfold bindR, getR, close_hop, modR.
  destruct (gt_closed (rl_gate r1)); [by intros [= <- <- _]|].
  case_bool_decide as Hid.
  { destruct (setupFailed_spec from (Sentinel relay_errDuplicate) (rl_set_hops (rl_hops r1 - 1) r1) w) as [e' ->].
    by intros [= <- <- _]. }
  destruct (owns from r1) eqn:Ho; [by intros [= <- <- _]|].
  assert (Hc : rl_circuits r !! h_Circuit hdr = None) by (by apply eq_None_not_Some).
  assert (Hf : rl_owners r !! from = None) by (unfold owns in Ho; simpl in Ho; by destruct (rl_owners r !! from)).
  set (r2 := register (h_Circuit hdr) from c r1).
  destruct (ci_isExit c) eqn:Hex.
  { intros [= <- <- _]. set (c2 := watch (ev_now env) (rl_lim r2) (ci_set_bwd (new_pacer (rl_cfg r2)) c)).
    assert (Hfw : fixed c2 = fixed c)
      by exact (fixed_watch (ev_now env) (rl_lim r2) (ci_set_bwd (new_pacer (rl_cfg r2)) c)).
    assert (Hnx : ci_next c = None) by done. exists c2.
    injection Hfw as H1 H2 H3 H4 _. split_and!; try done; [|by rewrite H3, H4, ?Hex, ?Hnx].
    unfold maps. simpl. by rewrite insert_insert_eq. }
  unfold tryR. destruct (extend (h_Circuit hdr) c layer (Z.to_nat (h_Counter hdr)) env r2 w) as [[[c'|e] r3] w3] eqn:E;
    apply extend_spec in E as (Ho' & Hh' & E); simpl in Ho', Hh'.
  - destruct E as (Hcs & Hnx & H1 & H2 & H3). simpl in Hcs. intros [= <- <- _].
    pose proof (fixed_watch (ev_now env) (rl_lim r2) c') as Hfw. injection Hfw as G1 G2 G3 G4 _.
    exists (watch (ev_now env) (rl_lim r2) c'). split_and!; try done; rewrite ?G1, ?G2, ?G3, ?G4, ?H1, ?H2, ?H3; try done.
    + unfold maps. simpl. by rewrite Hcs, Ho', Hh', !insert_insert_eq.
    + rewrite Hex. split; [done|]. intros Hn. rewrite Hn in Hnx. by destruct Hnx.
  - simpl in E.
    set (r4 := rl_set_hops _ _). destruct (setupFailed_spec from e r4 w3) as [e' ->]. intros [= <- <- _].
    unfold setup_outcome, maps, r4. simpl. rewrite E, Ho', Hh'. rewrite !delete_insert_id by done. do 2 f_equal. lia.
Qed.

Lemma setup_spec cell hdr from src env r w a r' w' :
  setup cell hdr from src env r w = ((a, r'), w') -> setup_outcome from hdr a r r'.
Proof.
  unfold setup, bindR at 1, getR. destruct (owns from r) eqn:Ho; [by intros [= <- <- _]|].
  unfold bindR at 1, allow_setup. destruct (allowSetup src (ev_now env) (rl_gate r)) as [[] g]; simpl.
  - unfold tryR, open_ring. destruct (Ring_Open cell _ w) as [[[layer|e] g'] w1].
    + intros H%setup_circuit_spec. exact H.
    + destruct (setupFailed_spec from e (set_ring g' (rl_set_gate g r)) w1) as [e' H]. simpl in H. rewrite H.
      by intros [= <- <- _].
  - unfold bindR, count, modR.
    set (r1 := with_stats _ _). destruct (setupFailed_spec from (Sentinel relay_errSetupRate) r1 w) as [e' ->].
    by intros [= <- <- _].
Qed.

End SetupBooks.

(** ** Steps and the books *)

Section Steps.
Context {P : CryptoProvider}.

(** What anything that arrives on a link leaves alone: the circuits of the other
    links, and their ownership. *)
Definition leaves_others (from : nat) (r r' : Relay) : Prop :=
  (forall x c, rl_circuits r !! x = Some c -> ci_in c <> from -> rl_circuits r' !! x = Some c) /\
  (forall l, l <> from -> rl_owners r' !! l = rl_owners r !! l).

Lemma maps_books r r' : maps r' = maps r -> books r' = books r.
Proof. unfold maps, books. by intros [= -> -> ->]. Qed.

Lemma maps_others from r r' : maps r' = maps r -> leaves_others from r r'.
Proof. unfold maps. intros [= E1 E2 _]. split; [intros x c; by rewrite E1 | intros l _; by rewrite E2]. Qed.

Lemma others_trans from r1 r2 r3 : leaves_others from r1 r2 -> leaves_others from r2 r3 -> leaves_others from r1 r3.
Proof.
  intros [H1 H2] [H3 H4]. split; [intros x c Hx Hc; apply H3; auto | intros l Hl; by rewrite H4, H2].
Qed.

Lemma route_books cell from src env r w a r' w' :
  route cell from src env r w = ((a, r'), w') ->
  (books r' = books r \/ exists hdr, a = Ok tt /\ setup_outcome from hdr a r r') /\ leaves_others from r r'.
Proof.
  unfold route. destruct (Cell_Header cell) as [hdr|e]; [|intros [= <- <- <-]; split; [by left | by apply maps_others]].
  unfold bindR at 1, count, modR. set (r1 := with_stats (stats_add Accepted) r).
  assert (Hr1 : maps r1 = maps r) by done.
  case_bool_decide.
  - intros H1%setup_spec. destruct a as [[]|e]; simpl in H1.
    + destruct H1 as (c & Hn & Hf & Hm & Hin & Hrest). split.
      * right. exists hdr. split; [done|]. by exists c.
      * unfold maps in Hm. injection Hm as E1 E2 _. simpl in *. split.
        -- intros x c' Hx _. rewrite E1. rewrite lookup_insert_ne; [done|]. intros <-. by rewrite Hn in Hx.
        -- intros l Hl. rewrite E2. by rewrite lookup_insert_ne.
    + split; [left; by rewrite (maps_books _ _ H1), (maps_books _ _ Hr1) | by apply maps_others].
  - unfold bindR, getR. destruct (rl_circuits r1 !! h_Circuit hdr) as [c|] eqn:Ec.
    2: { intros [= <- <- <-]. split; [by left | by apply maps_others]. }
    destruct (Nat.eqb_spec (ci_in c) from) as [Hin|]; [|intros [= <- <- <-]; split; [by left | by apply maps_others]].
    intros H1. destruct (keeps_route_data cell hdr c env r1 w) as [Hb Ho].
    { simpl in *. by rewrite lookup_fmap, Ec. }
    rewrite H1 in Hb, Ho. simpl in Hb, Ho. split; [by left|]. split.
    + intros x c' Hx Hne. rewrite Ho; [done|]. intros ->. simpl in Ec. rewrite Ec in Hx. by injection Hx as <-.
    + intros l _. apply (f_equal bo_owners) in Hb. simpl in Hb. by rewrite Hb.
Qed.

Lemma on_cell_route cell from src env r w b r' w' :
  on_cell cell from src env r w = ((Ok b, r'), w') ->
  exists a r1, route cell from src env r w = ((a, r1), w') /\ maps r' = maps r1 /\
    rl_closedLinks r' = rl_closedLinks r1 /\
    match a with Ok _ => b = true | Err e => b = negb (errors_is e relay_errBroken) && negb (errors_is e relay_errFatal) end.
Proof.
  unfold on_cell, tryR. destruct (route cell from src env r w) as [[a r1] w1].
  destruct a as [u|e]; [intros [= <- <- <-]; by exists (Ok u), r1|].
  destruct (errors_is e relay_errBroken) eqn:E; intros [= <- <- <-]; exists (Err e), r1; rewrite E; done.
Qed.

(** Adding and removing a circuit. *)
Lemma books_add r r' from hdr :
  books_ok (books r) -> setup_outcome from hdr (Ok tt) r r' -> books_ok (books r').
Proof.
  intros [Ho Hf Hh] (c & Hn & Hfr & Hm & Hin & Hib & Hex). unfold maps in Hm. injection Hm as E1 E2 E3.
  unfold books in *. rewrite E1, E2, E3, fmap_insert. simpl in *.
  assert (Hn' : (fixed <$> rl_circuits r) !! h_Circuit hdr = None) by (by rewrite lookup_fmap, Hn).
  split; simpl.
  - intros l id. destruct (decide (l = from)) as [->|Hl].
    + rewrite lookup_insert_eq. split.
      * intros [= <-]. exists (fixed c). by rewrite lookup_insert_eq.
      * intros (f & Hf' & Hl'). destruct (decide (id = h_Circuit hdr)) as [->|Hid]; [done|].
        rewrite lookup_insert_ne in Hf' by done. exfalso.
        assert (Hx : rl_owners r !! from = Some id) by (apply Ho; eauto). by rewrite Hfr in Hx.
    + rewrite lookup_insert_ne by done. rewrite Ho. split; intros (f & Hf' & <-).
      * exists f. split; [|done]. rewrite lookup_insert_ne; [done|]. intros <-. by rewrite Hn' in Hf'.
      * destruct (decide (id = h_Circuit hdr)) as [->|Hid].
        { rewrite lookup_insert_eq in Hf'. injection Hf' as <-. by simpl in Hl. }
        rewrite lookup_insert_ne in Hf' by done. eauto.
  - intros id f. destruct (decide (id = h_Circuit hdr)) as [->|Hid].
    + rewrite lookup_insert_eq. intros [= <-]. simpl. done.
    + rewrite lookup_insert_ne by done. apply Hf.
  - rewrite map_size_insert, Hn'. lia.
Qed.

Lemma release_maps c r : rl_circuits (release c r) = rl_circuits r /\ rl_owners (release c r) = rl_owners r /\
  rl_hops (release c r) = rl_hops r - 1.
Proof. unfold release. by destruct (ci_next c). Qed.

Lemma books_remove from r :
  books_ok (books r) ->
  books_ok (books (teardown from r)) /\ rl_owners (teardown from r) !! from = None /\
  (forall id, rl_owners r !! from = Some id -> rl_circuits (teardown from r) !! id = None) /\
  leaves_others from r (teardown from r).
Proof.
  intros [Ho Hf Hh]. unfold teardown. destruct (rl_owners r !! from) as [id|] eqn:E.
  2: { split_and!; try done. }
  destruct (proj1 (Ho from id) E) as (f & Hf' & Hin). simpl in Hf'. rewrite lookup_fmap in Hf'.
  destruct (rl_circuits r !! id) as [c|] eqn:Ec; [|done]. injection Hf' as <-.
  destruct (release_maps c (rl_set_owners (delete from (rl_owners r)) (rl_set_circuits (delete id (rl_circuits r)) r)))
    as (E1 & E2 & E3).
  cbn [rl_circuits rl_owners rl_hops rl_set_owners rl_set_circuits] in E1, E2, E3.
  split_and!.
  - unfold books. rewrite E1, E2, E3, fmap_delete. split; simpl in *.
    + intros l x. destruct (decide (l = from)) as [->|Hl].
      * rewrite lookup_delete_eq. split; [done|]. intros (f & Hx & Hl'). exfalso.
        destruct (decide (x = id)) as [->|Hid]; [by rewrite lookup_delete_eq in Hx|].
        rewrite lookup_delete_ne in Hx by done.
        assert (Hc : rl_owners r !! from = Some x) by (apply Ho; eauto). rewrite E in Hc. by injection Hc as ->.
      * rewrite lookup_delete_ne by done. rewrite Ho. split; intros (f & Hx & <-); exists f; (split; [|done]).
        -- rewrite lookup_delete_ne; [done|]. intros <-. rewrite lookup_fmap, Ec in Hx. injection Hx as <-. done.
        -- by apply lookup_delete_Some in Hx as [_ Hx].
    + intros x f Hx. apply lookup_delete_Some in Hx as [_ Hx]. by apply Hf.
    + rewrite map_size_delete, lookup_fmap, Ec. simpl. rewrite Hh.
      assert (0 < size (fixed <$> rl_circuits r))%nat; [|lia].
      apply Nat.neq_0_lt_0. intros Hz. apply map_size_empty_iff in Hz.
      apply (f_equal (fun m => m !! id)) in Hz. by rewrite lookup_fmap, Ec, lookup_empty in Hz.
  - rewrite E2. apply lookup_delete_eq.
  - intros x [= <-]. rewrite E1. apply lookup_delete_eq.
  - split; [intros x c' Hx Hne; rewrite E1, lookup_delete_ne; [done|] | intros l Hl; by rewrite E2, lookup_delete_ne].
    intros ->. rewrite Ec in Hx. by injection Hx as <-.
Qed.

Lemma hang_up_maps from src now r : maps (hang_up from src now r) = maps (teardown from (close_link from r)).
Proof. done. Qed.

Lemma books_close_link l r : books (close_link l r) = books r.
Proof. done. Qed.

Lemma put_books id c c' r :
  rl_circuits r !! id = Some c -> fixed c' = fixed c -> books (put_circuit id c' r) = books r.
Proof.
  intros Hc Hf. unfold books. simpl. f_equal. rewrite fmap_insert, Hf. apply insert_id. by rewrite lookup_fmap, Hc.
Qed.

Lemma on_cell_books cell from src env r w b r' w' : on_cell cell from src env r w = ((Ok b, r'), w') ->
  books_ok (books r) -> books_ok (books r') /\ leaves_others from r r'.
Proof.
  intros (a & r1 & Hr & Hm & _)%on_cell_route Hok. rewrite (maps_books _ _ Hm).
  apply route_books in Hr as [Hb Ho]. split; [|exact (others_trans _ _ _ _ Ho (maps_others from _ _ Hm))].
  destruct Hb as [->|(hdr & -> & Hs)]; [done | by eapply books_add].
Qed.

(** What goes on beside the handlers leaves the books as they are. *)
Lemma backward_books id cell env r w b r' w' : backward_cell id cell env r w = ((Ok b, r'), w') -> books r' = books r.
Proof.
  unfold backward_cell, bindR, getR. destruct (rl_circuits r !! id) as [c|] eqn:E; [|by intros [= _ <- _]]. intros H.
  destruct (keeps_backward id c cell env r w) as [Hb _]; [simpl; by rewrite lookup_fmap, E|]. rewrite H in Hb. exact Hb.
Qed.

Lemma eof_books id r : books (backward_eof id r) = books r.
Proof. unfold backward_eof. by destruct (rl_circuits r !! id). Qed.

Lemma expire_books id now r : books (expire id now r) = books r.
Proof.
  unfold expire. destruct (rl_circuits r !! id) as [c|] eqn:E; [|done]. destruct (ci_unwatched c); [done|].
  destruct (expiresAt (rl_lim r) c) as [at_|]; [destruct (now <? at_)|];
    rewrite ?books_close_link; change (books (with_stats ?f ?x)) with (books x); by erewrite put_books.
Qed.

Lemma tick_books id d outcome r : books (pacer_tick id d outcome r) = books r.
Proof.
  unfold pacer_tick. destruct (rl_circuits r !! id) as [c|] eqn:E; [|done]. destruct d.
  - destruct (ci_fwd c) as [p|], (ci_next c) as [l|]; try done. destruct (tick outcome p (rl_stats r)) as [[f p'] s].
    rewrite <- (put_books id c (ci_set_fwd (Some p') c) r E eq_refl). by destruct f as [[cl []]|].
  - destruct (ci_bwd c) as [p|]; [|done]. destruct (tick outcome p (rl_stats r)) as [[f p'] s].
    rewrite <- (put_books id c (ci_set_bwd (Some p') c) r E eq_refl). by destruct f as [[cl []]|].
Qed.

Lemma relay_step_books rw rw' : relay_step rw rw' -> books_ok (books (fst rw)) -> books_ok (books (fst rw')).
Proof.
  assert (Hhang : forall from src now r, books_ok (books r) -> books_ok (books (hang_up from src now r))).
  { intros from src now r Hok. rewrite (maps_books _ _ (hang_up_maps from src now r)). by apply books_remove. }
  intros [] Hok; simpl in *; eauto.
  - by apply (on_cell_books _ _ _ _ _ _ _ _ _ H).
  - apply Hhang. by apply (on_cell_books _ _ _ _ _ _ _ _ _ H).
  - by rewrite (backward_books _ _ _ _ _ _ _ _ H).
  - by rewrite eof_books.
  - by rewrite expire_books.
  - by rewrite tick_books.
Qed.

Lemma new_relay_books cfg rcfg priv pub onion w0 r0 w1 :
  NewRelay cfg rcfg priv pub onion w0 = (Ok r0, w1) -> books_ok (books r0).
Proof.
  intros Hn. unfold NewRelay in Hn. destruct priv as [pr|]; [|discriminate].
  apply bindM_ok in Hn as (size & w2 & _ & Hn). destruct (negb _); [discriminate|].
  destruct (_ || _); [discriminate|]. destruct (_ || _); [discriminate|].
  apply bindM_ok in Hn as (lim & w3 & _ & Hn). apply bindM_ok in Hn as (u & w4 & _ & [= <- <-]).
  unfold books. simpl. rewrite fmap_empty. split; simpl.
  - intros l id. split; [done | by intros (f & Hf & _)].
  - by intros id f Hf.
  - by rewrite map_size_empty.
Qed.

End Steps.

(** ** Data cells, case by case *)

Section Data.

(** What leaving through [pass] does. *)
Lemma pass_spec id p set c l cell fwd env r w a r' w' :
  pass id p set c l cell fwd env r w = ((a, r'), w') ->
  w' = w /\
  match a with
  | Ok _ =>
      match p with
      | Some p => exists p', push cell fwd p = (true, p') /\
          rl_circuits r' !! id = Some (set (Some p') c) /\ rl_sent r' = rl_sent r
      | None => rl_circuits r' !! id = Some c /\ rl_sent r' = rl_sent r ++ [(l, cell)]
      end
  | Err e => (errors_is e relay_errBroken = true \/ errors_is e relay_errFatal = true) /\ rl_sent r' = rl_sent r
  end.
Proof.
  unfold pass. destruct p as [p|].
  - destruct (push cell fwd p) as [[] p'] eqn:E; simpl; intros [= <- <- <-]; (split; [done|]).
    + exists p'. simpl. by rewrite lookup_insert_eq.
    + split; [by left | done].
  - unfold bindR, modR, tryR, write_cell. destruct (ev_write env) as [u|e].
    + destruct fwd; intros [= <- <- <-]; (split; [done|]); simpl; by rewrite lookup_insert_eq.
    + unfold count_timeout, modR. intros [= <- <- <-]. split; [done|]. split; [|done].
      unfold writeFailure. destruct (lostToTeardown e); [by right | by left].
Qed.

(** The cell that answers a data cell, under the reply number [n]. *)
Definition answer_cell (c : circuit) (n : Z) (payload : option bytes) (w : World) (cell : Cell) (w' : World) : Prop :=
  match payload with
  | None => SealCoverReply (ci_hop c) (ci_inbound c) n w = (Ok cell, w')
  | Some p =>
      SealReply (ci_hop c) (ci_inbound c) n p w = (Ok cell, w') \/
      exists e w1, SealReply (ci_hop c) (ci_inbound c) n p w = (Err e, w1) /\
        errors_is e wire_ErrPayloadSize = true /\
        SealCoverReply (ci_hop c) (ci_inbound c) n w1 = (Ok cell, w')
  end.

(** What a reply comes to: one cell back under the next number, or the end. *)
Definition reply_outcome (id : Z) (c : circuit) (payload : option bytes) (r : Relay) (w : World)
    (a : res unit) (r' : Relay) (w' : World) : Prop :=
  let c' := ci_set_replies (u64 (ci_replies c + 1)) c in
  match a with
  | Ok _ => exists cell, answer_cell c (ci_replies c) payload w cell w' /\
      match ci_bwd c with
      | Some p => exists p', push cell false p = (true, p') /\
          rl_circuits r' !! id = Some (ci_set_bwd (Some p') c') /\ rl_sent r' = rl_sent r
      | None => rl_circuits r' !! id = Some c' /\ rl_sent r' = rl_sent r ++ [(ci_in c, cell)]
      end
  | Err e => (errors_is e relay_errBroken = true \/ errors_is e relay_errFatal = true) /\ rl_sent r' = rl_sent r
  end.

(** The cover reply, whose failure ends the circuit. *)
Lemma cover_spec c n r w a r' w' :
  seal_broken (liftR (SealCoverReply (ci_hop c) (ci_inbound c) n)) r w = ((a, r'), w') ->
  rl_sent r' = rl_sent r /\
  match a with
  | Ok cell => SealCoverReply (ci_hop c) (ci_inbound c) n w = (Ok cell, w')
  | Err e => errors_is e relay_errBroken = true
  end.
Proof.
  unfold seal_broken, tryR, liftR.
  destruct (SealCoverReply (ci_hop c) (ci_inbound c) n w) as [[cell|e] w3]; by intros [= <- <- <-].
Qed.

Lemma reply_end id c payload env r w cell r1 w1 a r' w' :
  rl_sent r1 = rl_sent r -> answer_cell c (ci_replies c) payload w cell w1 ->
  pass id (ci_bwd c) ci_set_bwd (ci_set_replies (u64 (ci_replies c + 1)) c) (ci_in c) cell false env r1 w1
    = ((a, r'), w') ->
  reply_outcome id c payload r w a r' w'.
Proof.
  intros Hs Hans [-> Hp]%pass_spec. unfold reply_outcome. destruct a as [u|e]; rewrite Hs in Hp; [by exists cell | done].
Qed.

Lemma reply_spec id c payload env r w a r' w' :
  reply id c payload env r w = ((a, r'), w') -> reply_outcome id c payload r w a r' w'.
Proof.
  unfold reply. set (c' := ci_set_replies _ c). unfold bindR at 1, modR at 1.
  set (r1 := put_circuit id c' r). assert (Hs1 : rl_sent r1 = rl_sent r) by done.
  change (ci_hop c') with (ci_hop c). change (ci_inbound c') with (ci_inbound c).
  change (ci_bwd c') with (ci_bwd c). change (ci_in c') with (ci_in c).
  unfold bindR at 1. destruct payload as [p|].
  - unfold tryR at 1, liftR at 1.
    destruct (SealReply (ci_hop c) (ci_inbound c) (ci_replies c) p w) as [[cell|e] w1] eqn:ES.
    + apply reply_end; [done | by left].
    + destruct (errors_is e wire_ErrPayloadSize) eqn:Esz; [|by intros [= <- <- <-]; split; [left|]].
      unfold bindR at 1, count, modR at 1. set (r2 := with_stats _ r1).
      destruct (seal_broken _ r2 w1) as [[[cell|e'] r3] w3] eqn:EC; apply cover_spec in EC as [Hs3 EC].
      * apply reply_end; [by rewrite Hs3 | right; by exists e, w1].
      * intros [= <- <- <-]. split; [by left | by rewrite Hs3].
  - destruct (seal_broken _ r1 w) as [[[cell|e'] r3] w3] eqn:EC; apply cover_spec in EC as [Hs3 EC].
    + apply reply_end; [by rewrite Hs3 | done].
    + intros [= <- <- <-]. split; [by left | by rewrite Hs3].
Qed.

End Data.

(** ** Properties *)

Section Properties.
Context {P : CryptoProvider}.

(** C9. The books of a relay always balance: in every state a new relay reaches
    by cells, hang-ups, backward cells, expiries, pacer ticks, admissions and
    key rotations, every link that owns a circuit owns exactly the one that came
    in on it and every circuit has its owner, each is kept under the identifier
    it came in with, only an exit has no next link, and there are exactly as
    many live hop ciphers as circuits, so no key outlives its circuit and a
    refused setup leaks none. *)
Theorem relay_books cfg rcfg priv pub onion w0 r0 w1 r w :
  NewRelay cfg rcfg priv pub onion w0 = (Ok r0, w1) -> rtc relay_step (r0, w1) (r, w) -> books_ok (books r).
Proof.
  intros Hn Hr. pose proof (new_relay_books _ _ _ _ _ _ _ _ Hn) as H0.
  change (books_ok (books (fst (r, w)))). remember (r0, w1) as s eqn:Es. remember (r, w) as s' eqn:Es'.
  assert (Hs : books_ok (books (fst s))) by (by subst). clear Es Es'.
  induction Hr as [|x y z Hst _ IH]; [done|]. by apply IH, (relay_step_books x).
Qed.

(** C10. Links do not touch each other's circuits: whatever arrives on a link,
    setups and malformed cells included, and whether or not it ends the link,
    every circuit that came in on another link is left exactly as it was, and
    so is who owns what. *)
Theorem relay_isolation cell from src env r w go r' w' :
  books_ok (books r) -> on_cell cell from src env r w = ((Ok go, r'), w') ->
  let after := if go : bool then r' else hang_up from src (ev_now env) r' in
  (forall x c, rl_circuits r !! x = Some c -> ci_in c <> from -> rl_circuits after !! x = Some c) /\
  (forall l, l <> from -> rl_owners after !! l = rl_owners r !! l).
Proof.
  intros Hok H after. destruct (on_cell_books _ _ _ _ _ _ _ _ _ H Hok) as [Hok' Ho]. destruct go; [exact Ho|].
  destruct (books_remove from (close_link from r') Hok') as (_ & _ & _ & Hx).
  eapply others_trans; [exact Ho|]. eapply others_trans; [exact Hx|]. apply maps_others, hang_up_maps.
Qed.

(** A relay on the way passes every cell on or gives the circuit up: for a
    data cell on a circuit of this link that is not its exit, the relay either
    forwards to the next link exactly the peeled cell with the circuit rewritten,
    through the pacer or at once, having taken its counter in turn; or the layer
    did not open, and then nothing was sent and no circuit changed, the counter
    due included; or the circuit ends. *)
Theorem relay_forwards cell from src env r w a r' w' hdr c l :
  Cell_Header cell = Ok hdr -> h_Kind hdr <> KindControl ->
  rl_circuits r !! h_Circuit hdr = Some c -> ci_in c = from -> ci_isExit c = false -> ci_next c = Some l ->
  route cell from src env r w = ((a, r'), w') ->
  match a with
  | Ok _ => exists out seq c', Peel (ci_hop c) cell w = (Ok out, w') /\
      Next (h_Counter hdr) (ci_fwdSeq c) = (true, seq) /\
      rl_circuits r' !! h_Circuit hdr = Some c' /\ ci_fwdSeq c' = seq /\
      match ci_fwd c with
      | Some p => exists p', push (SetCircuit (ci_nextID c) out) true p = (true, p') /\
          ci_fwd c' = Some p' /\ rl_sent r' = rl_sent r
      | None => rl_sent r' = rl_sent r ++ [(l, SetCircuit (ci_nextID c) out)]
      end
  | Err e => rl_sent r' = rl_sent r /\
      ((Peel (ci_hop c) cell w = (Err e, w') /\ rl_circuits r' = rl_circuits r) \/
       errors_is e relay_errBroken = true \/ errors_is e relay_errFatal = true)
  end.
Proof.
  intros Hh Hk Hc Hin Hex Hnx. unfold route. rewrite Hh, bool_decide_false by done.
  unfold bindR at 1, count, modR at 1. set (r1 := with_stats _ r).
  unfold bindR, getR. cbv beta iota. change (rl_circuits r1) with (rl_circuits r). rewrite Hc, Hin, Nat.eqb_refl.
  unfold route_data. rewrite Hex. unfold bindR, liftR.
  destruct (Peel (ci_hop c) cell w) as [[out|e] w1]; [|intros [= <- <- <-]; split; [done | by left]].
  destruct (Next (h_Counter hdr) (ci_fwdSeq c)) as [[] seq]; simpl.
  2: { intros [= <- <- <-]. split; [done | right; by left]. }
  rewrite Hnx. intros [-> Hp]%pass_spec. simpl in Hp. destruct a as [u|e].
  - destruct (ci_fwd c) as [p|].
    + destruct Hp as (p' & Hpu & Hl & Hs). eexists out, seq, _. split_and!; first [done | exact Hl | by exists p'].
    + destruct Hp as [Hl Hs]. eexists out, seq, _. split_and!; first [done | exact Hl].
  - destruct Hp as [He Hs]. split; [done | by right].
Qed.

(** The exit answers every cell: for a data cell on a circuit that ends
    here, either the layer opened, its counter was due, and exactly one cell went
    back on the link it came from, or into the pacer of that link, sealed under
    the next reply number: the delivered answer to a payload when there is one
    that fits, cover in every other case; or the layer did not open and nothing
    changed; or the circuit ends. *)
Theorem exit_answers cell from src env r w a r' w' hdr c :
  Cell_Header cell = Ok hdr -> h_Kind hdr <> KindControl ->
  rl_circuits r !! h_Circuit hdr = Some c -> ci_in c = from -> ci_isExit c = true ->
  route cell from src env r w = ((a, r'), w') ->
  match a with
  | Ok _ => exists payload cover w1 seq back c',
      OpenLast (ci_hop c) cell w = (Ok (payload, cover), w1) /\
      Next (h_Counter hdr) (ci_fwdSeq c) = (true, seq) /\
      answer_cell c (ci_replies c)
        (if cover : bool then None
         else match rc_Deliver (rl_cfg r) with Some f => f (ci_inbound c) payload | None => None end) w1 back w' /\
      rl_circuits r' !! h_Circuit hdr = Some c' /\ ci_fwdSeq c' = seq /\
      ci_replies c' = u64 (ci_replies c + 1) /\
      match ci_bwd c with
      | Some p => exists p', push back false p = (true, p') /\ ci_bwd c' = Some p' /\ rl_sent r' = rl_sent r
      | None => rl_sent r' = rl_sent r ++ [(from, back)]
      end
  | Err e => rl_sent r' = rl_sent r /\
      ((OpenLast (ci_hop c) cell w = (Err e, w') /\ rl_circuits r' = rl_circuits r) \/
       errors_is e relay_errBroken = true \/ errors_is e relay_errFatal = true)
  end.
Proof.
  intros Hh Hk Hc Hin Hex. unfold route. rewrite Hh, bool_decide_false by done.
  unfold bindR at 1, count, modR at 1. set (r1 := with_stats _ r).
  unfold bindR, getR. cbv beta iota. change (rl_circuits r1) with (rl_circuits r). rewrite Hc, Hin, Nat.eqb_refl.
  unfold route_data. rewrite Hex. unfold bindR at 1, liftR.
  destruct (OpenLast (ci_hop c) cell w) as [[[payload cover]|e] w1]; [|intros [= <- <- <-]; split; [done | by left]].
  destruct (Next (h_Counter hdr) (ci_fwdSeq c)) as [[] seq]; simpl.
  2: { intros [= <- <- <-]. split; [done | right; by left]. }
  unfold bindR, count, modR, getR. simpl rl_cfg. set (c1 := touch _ _). set (r2 := with_stats _ r1).
  set (ans := match rc_Deliver (rl_cfg r) with Some f => if cover then None else f (ci_inbound c1) payload | None => None end).
  assert (Hans : ans = if cover then None else match rc_Deliver (rl_cfg r) with Some f => f (ci_inbound c) payload | None => None end).
  { unfold ans. destruct (rc_Deliver (rl_cfg r)), cover; done. }
  intros Hr%reply_spec. unfold reply_outcome in Hr. destruct a as [u|e].
  - destruct Hr as (back & Hb & Hr). change (ci_bwd c1) with (ci_bwd c) in Hr.
    destruct (ci_bwd c) as [p|].
    + destruct Hr as (p' & Hpu & Hl & Hs). eexists payload, cover, w1, seq, back, _.
      split_and!; [done | done | rewrite <- Hans; exact Hb | exact Hl | done | done | by exists p'].
    + destruct Hr as [Hl Hs]. eexists payload, cover, w1, seq, back, _.
      split_and!; [done | done | rewrite <- Hans; exact Hb | exact Hl | done | done |].
      change (ci_in c1) with (ci_in c) in Hs. by rewrite Hin in Hs.
  - destruct Hr as [He Hs]. split; [done | by right].
Qed.

(** A broken circuit is gone at once: when a cell ends its link, or the link
    is lost, the circuit it carried and its ownership are removed, its hop
    cipher is closed, and the link it came in on and the one to its next hop
    are both closed, so the break travels both ways. *)
Theorem break_tears_down from src now r id c :
  books_ok (books r) -> rl_owners r !! from = Some id -> rl_circuits r !! id = Some c ->
  let r' := hang_up from src now r in
  books_ok (books r') /\ rl_owners r' !! from = None /\ rl_circuits r' !! id = None /\
  rl_hops r' = rl_hops r - 1 /\ from ∈ rl_closedLinks r' /\
  (forall l, ci_next c = Some l -> l ∈ rl_closedLinks r').
Proof.
  intros Hok Ho Hc r'. destruct (books_remove from (close_link from r) Hok) as (Hb & Hn & Hd & _).
  unfold r'. pose proof (hang_up_maps from src now r) as Hm. rewrite (maps_books _ _ Hm).
  change (rl_circuits (hang_up from src now r)) with (rl_circuits (teardown from (close_link from r))).
  change (rl_owners (hang_up from src now r)) with (rl_owners (teardown from (close_link from r))).
  change (rl_hops (hang_up from src now r)) with (rl_hops (teardown from (close_link from r))).
  split_and!; [done | done | by apply Hd | | |].
  - unfold teardown. simpl. rewrite Ho, Hc. by destruct (release_maps c (rl_set_owners (delete from (rl_owners r))
      (rl_set_circuits (delete id (rl_circuits r)) (close_link from r)))) as (_ & _ & ->).
  - unfold hang_up, teardown. simpl. rewrite Ho, Hc. unfold release. destruct (ci_next c); simpl; set_solver.
  - intros l Hl. unfold hang_up, teardown. simpl. rewrite Ho, Hc. unfold release. rewrite Hl. simpl. set_solver.
Qed.

End Properties.

(** ** Witnesses: the two relays of the demo chain *)

Module RelayDemo.
Import ToySuite SetupDemo.

Definition env : Env :=
  {| ev_now := 7; ev_dial := Ok 9%nat; ev_handshake := Ok tt; ev_write := Ok tt |}.

(** Both answer a payload with itself. *)
Definition rcfg : RelayConfig :=
  {| rc_Period := 0; rc_QueueCells := 0; rc_Peers := None; rc_Deliver := Some (fun _ p => Some p) |}.

Definition start (pair : bytes * bytes) : res Relay * World :=
  NewRelay GateDemo.config rcfg (Some (fst pair)) (snd pair) None Demo.world.

Lemma start1_ok : is_ok (fst (start pair1)) = true.
Proof. vm_compute. reflexivity. Qed.

Lemma start2_ok : is_ok (fst (start pair2)) = true.
Proof. vm_compute. reflexivity. Qed.

Definition relay1 : Relay := get_ok (fst (start pair1)) start1_ok.
Definition relay2 : Relay := get_ok (fst (start pair2)) start2_ok.

(** The first takes the setup on link 3 and forwards it on link 9. *)
Definition after1 : World := snd (start pair1).

Definition set1 : (res bool * Relay) * World := on_cell (sr_Cell result) 3 NoAddr env relay1 after1.

Definition last_cell (l : list (nat * Cell)) : Cell :=
  match last l with Some (_, c) => c | None => [] end.

Definition sent1 : Cell := last_cell (rl_sent (snd (fst set1))).

(** The second takes it on link 9. *)
Definition set2 : (res bool * Relay) * World := on_cell sent1 9 NoAddr env relay2 world2.

Definition relay1' : Relay := snd (fst set1).
Definition relay2' : Relay := snd (fst set2).

(** The client's first data cell. *)
Definition circuit_ok : is_ok (NewCircuit (sr_CellKeys result) (sr_Offsets result) [5; 77]) = true.
Proof. vm_compute. reflexivity. Qed.

Definition cell_of (r : res Cell) : Cell := match r with Ok c => c | Err _ => [] end.

Definition data : Cell := cell_of (fst (Circuit_seal (get_ok _ circuit_ok) 0 (str "ping") false Demo.world)).

Definition hdr1 : Header := {| h_Version := Version; h_Kind := KindData; h_Circuit := 5; h_Counter := 0 |}.

Lemma data_header : Cell_Header data = Ok hdr1.
Proof. vm_compute. reflexivity. Qed.

Definition circuit1_ok (o : option circuit) : bool :=
  match o with
  | Some c => (ci_in c =? 3)%nat && negb (ci_isExit c) && bool_decide (ci_next c = Some 9%nat)
  | None => false
  end.

Lemma relay1_circuit : circuit1_ok (rl_circuits relay1' !! 5) = true.
Proof. vm_compute. reflexivity. Qed.

Lemma relay1_owner : rl_owners relay1' !! 3%nat = Some 5.
Proof. vm_compute. reflexivity. Qed.

Lemma relay1_routes : is_ok (fst (fst (route data 3 NoAddr env relay1' world2))) = true.
Proof. vm_compute. reflexivity. Qed.

Definition data2 : Cell := last_cell (rl_sent (snd (fst (route data 3 NoAddr env relay1' world2)))).

Definition circuit2_ok (o : option circuit) : bool :=
  match o with Some c => (ci_in c =? 9)%nat && ci_isExit c | None => false end.

Lemma relay2_circuit : circuit2_ok (rl_circuits relay2' !! 77) = true.
Proof. vm_compute. reflexivity. Qed.

Definition hdr2_ok (r : res Header) : bool :=
  match r with Ok h => bool_decide (h_Kind h = KindData) && (h_Circuit h =? 77) | Err _ => false end.

Lemma data2_header : hdr2_ok (Cell_Header data2) = true.
Proof. vm_compute. reflexivity. Qed.

Lemma relay2_routes : is_ok (fst (fst (route data2 9 NoAddr env relay2' world2))) = true.
Proof. vm_compute. reflexivity. Qed.

Lemma set1_ok : is_ok (fst (fst set1)) = true.
Proof. vm_compute. reflexivity. Qed.

Lemma set1_goes : fst (fst set1) = Ok true.
Proof. vm_compute. reflexivity. Qed.

Lemma relay1_new : start pair1 = (Ok relay1, after1).
Proof. unfold relay1. rewrite <- get_ok_spec. apply surjective_pairing. Qed.

Lemma start1_books : books_ok (books relay1).
Proof. exact (new_relay_books _ _ _ _ _ _ _ _ relay1_new). Qed.


Lemma set1_run : on_cell (sr_Cell result) 3 NoAddr env relay1 after1 = ((Ok true, relay1'), snd set1).
Proof. unfold relay1'. rewrite <- set1_goes. change (on_cell _ _ _ _ _ _) with set1. by destruct set1 as [[? ?] ?]. Qed.

Lemma relay1_books : books_ok (books relay1').
Proof. exact (relay_step_books (relay1, after1) _ (RS_cell _ _ _ _ _ _ _ _ set1_run) start1_books). Qed.

Lemma set1_reached : rtc relay_step (relay1, after1) (relay1', snd set1).
Proof.
  exact (rtc_once _ _ (RS_cell _ _ _ _ _ _ _ _ set1_run)).
Qed.

End RelayDemo.

Import ToySuite SetupDemo RelayDemo.

Lemma relay_forwards_witness :
  exists c out seq, rl_circuits relay1' !! 5 = Some c /\ fst (Peel (ci_hop c) data world2) = Ok out /\
    Next 0 (ci_fwdSeq c) = (true, seq).
Proof.
  pose proof relay1_circuit as Hc. destruct (rl_circuits relay1' !! 5) as [c|] eqn:E; [|discriminate Hc].
  apply andb_true_iff in Hc as [Hc Hn%bool_decide_eq_true].
  apply andb_true_iff in Hc as [Hin%Nat.eqb_eq Hex%negb_true_iff].
  destruct (run_ok _ relay1_routes) as ([] & r' & Hr).
  pose proof (surjective_pairing (route data 3 NoAddr env relay1' world2)) as Hp. rewrite Hr in Hp.
  destruct (relay_forwards data 3 NoAddr env relay1' world2 (Ok tt) r' _ hdr1 c 9 data_header
    ltac:(discriminate) E Hin Hex Hn Hp) as (out & seq & c' & Hpeel & Hnext & _).
  exists c, out, seq. split; [reflexivity|]. split; [by rewrite Hpeel | exact Hnext].
Defined.

Lemma exit_answers_witness :
  exists c payload cover w1, rl_circuits relay2' !! 77 = Some c /\
    OpenLast (ci_hop c) data2 world2 = (Ok (payload, cover), w1).
Proof.
  pose proof relay2_circuit as Hc. destruct (rl_circuits relay2' !! 77) as [c|] eqn:E; [|discriminate Hc].
  apply andb_true_iff in Hc as [Hin%Nat.eqb_eq Hex].
  pose proof data2_header as Hh. destruct (Cell_Header data2) as [h|] eqn:Eh; [|discriminate Hh].
  apply andb_true_iff in Hh as [Hk%bool_decide_eq_true Hid%Z.eqb_eq].
  destruct (run_ok _ relay2_routes) as ([] & r' & Hr).
  pose proof (surjective_pairing (route data2 9 NoAddr env relay2' world2)) as Hp. rewrite Hr in Hp.
  rewrite <- Hid in E.
  destruct (exit_answers data2 9 NoAddr env relay2' world2 (Ok tt) r' _ h c Eh
    ltac:(rewrite Hk; discriminate) E Hin Hex Hp) as (payload & cover & w1 & seq & back & c' & Ho & _).
  exists c, payload, cover, w1. split; [reflexivity | exact Ho].
Defined.

Lemma relay_books_witness :
  rl_owners relay1' !! 3%nat = Some 5 /\ books_ok (books relay1').
Proof.
  split; [exact relay1_owner|].
  exact (relay_books GateDemo.config rcfg _ _ None Demo.world relay1 after1 relay1' (snd set1)
    relay1_new set1_reached).
Defined.

Lemma relay_isolation_witness :
  exists go r' w', on_cell (replicate 512 x02) 4 NoAddr env relay1' world2 = ((Ok go, r'), w') /\
    rl_owners (if go : bool then r' else hang_up 4 NoAddr 7 r') !! 3%nat = Some 5.
Proof.
  assert (Hrun : is_ok (fst (fst (on_cell (replicate 512 x02) 4 NoAddr env relay1' world2))) = true)
    by (vm_compute; reflexivity).
  destruct (run_ok _ Hrun) as (go & r' & Hr).
  pose proof (surjective_pairing (on_cell (replicate 512 x02) 4 NoAddr env relay1' world2)) as Hp. rewrite Hr in Hp.
  exists go, r', (snd (on_cell (replicate 512 x02) 4 NoAddr env relay1' world2)). split; [exact Hp|].
  destruct (relay_isolation (replicate 512 x02) 4 NoAddr env relay1' world2 go r' _ relay1_books Hp) as [_ Hown].
  change 7 with (ev_now env). rewrite Hown by discriminate. exact relay1_owner.
Defined.

Lemma break_tears_down_witness :
  rl_owners relay1' !! 3%nat = Some 5 /\ 9%nat ∈ rl_closedLinks (hang_up 3 NoAddr 8 relay1').
Proof.
  split; [exact relay1_owner|].
  pose proof relay1_circuit as Hc. destruct (rl_circuits relay1' !! 5) as [c|] eqn:E; [|discriminate Hc].
  apply andb_true_iff in Hc as [_ Hn%bool_decide_eq_true].
  destruct (break_tears_down 3 NoAddr 8 relay1' 5 c relay1_books relay1_owner E) as (_ & _ & _ & _ & _ & H).
  apply H. exact Hn.
Defined.
