(* ===== verification/Server.v ===== *)
(** * Server: a relay while it serves

    Models the parts of [src/relay/relay.go] and [src/relay/limits.go] in which the threads
    of a relay meet: the accept loop [Serve], the life of a connection in [handle], and
    [Close], over the relay of Relay and the gate of Limits.  The loop, each handler and
    [Close] are where they are in the code, and any of them may take the next step.
    A connection and the link on it are one number, as in Relay; [Accept], the handshake
    and reads give what the environment decides.  [release] waits for the goroutine
    that reads from the next hop, so its rounds come before the teardown of the circuit. *)

From Stdlib Require Import Strings.Byte Strings.String.
From S2P Require Import Prelude Effects Crypto C25519 Toy Cell Replay Onion Chain Setup Ring Pace Limits Relay.

(** ** State *)

(** Where a handler is: in [link.Accept]; reading, awaiting its circuit or not; with its
    link and circuit to close; with its slot to give back; at the end. *)
Inductive phase : Type := Shaking | Reading (awaiting : bool) | Closing | Leaving | Finished.

Record handler : Type := { hd_src : Addr; hd_phase : phase; hd_deadline : option Z }.

(** The loop of [Serve]: at [Accept] with the pause after the last error, or in that
    pause, or returned. *)
Inductive loop : Type := Accepting (delay : Z) | Pausing (delay : Z) | Returned (r : res unit).

Inductive closing : Type := NotClosed | Waiting | Closed.

Record Server : Type := {
  sv_relay : Relay;
  sv_loop : loop;
  sv_handlers : gmap nat handler;
  sv_closing : closing
}.

Definition sv_set_relay (v : Relay) (s : Server) : Server :=
  {| sv_relay := v; sv_loop := sv_loop s; sv_handlers := sv_handlers s; sv_closing := sv_closing s |}.

Definition sv_set_loop (v : loop) (s : Server) : Server :=
  {| sv_relay := sv_relay s; sv_loop := v; sv_handlers := sv_handlers s; sv_closing := sv_closing s |}.

Definition sv_set_handlers (v : gmap nat handler) (s : Server) : Server :=
  {| sv_relay := sv_relay s; sv_loop := sv_loop s; sv_handlers := v; sv_closing := sv_closing s |}.

Definition sv_set_closing (v : closing) (s : Server) : Server :=
  {| sv_relay := sv_relay s; sv_loop := sv_loop s; sv_handlers := sv_handlers s; sv_closing := v |}.

Definition sv_gate (s : Server) : Gate := rl_gate (sv_relay s).

Definition sv_set_gate (g : Gate) (s : Server) : Server := sv_set_relay (rl_set_gate g (sv_relay s)) s.

Definition sv_lim (s : Server) : limits := rl_lim (sv_relay s).

Definition move (conn : nat) (h : handler) (p : phase) (s : Server) : Server :=
  sv_set_handlers (<[conn := {| hd_src := hd_src h; hd_phase := p; hd_deadline := hd_deadline h |}]> (sv_handlers s)) s.

Definition isClosed (s : Server) : bool := gt_closed (sv_gate s).

(** [Serving]: the counter is of the loops that have not returned. *)
Definition Serving (s : Server) : bool := match sv_loop s with Returned _ => false | _ => true end.

Definition Snapshot (s : Server) : Stats := rl_stats (sv_relay s).

(** What [Serve] begins with. *)
Definition served (r : Relay) : Server :=
  {| sv_relay := r; sv_loop := Accepting 0; sv_handlers := ∅; sv_closing := NotClosed |}.

(** ** The accept loop *)

(** [own] is what the error says of itself through a method [Temporary], if it has one. *)
Definition temporary (own : option bool) (err : error) : bool :=
  if errors_is err net_ErrClosed then false else default false own.

Inductive accepted : Type := Conn (conn : nat) (addr : NetAddr) | AcceptErr (own : option bool) (err : error).

(** A deadline that is set when the limit is on. *)
Definition deadline_of (now limit : Z) : option Z := if 0 <? limit then Some (now + limit) else None.

(** [Accept] returns. *)
Definition serve_accept (a : accepted) (now : Z) (delay : Z) (s : Server) : Server :=
  match a with
  | AcceptErr own err =>
      if isClosed s then sv_set_loop (Returned (Ok tt)) s
      else if negb (temporary own err) then sv_set_loop (Returned (Err err)) s
      else sv_set_loop (Pausing (acceptBackoff delay)) (sv_set_relay (with_stats (stats_add AcceptRetries) (sv_relay s)) s)
  | Conn conn addr =>
      let src := sourceOf addr in
      let '(r, g) := gate_admit conn src now (sv_gate s) in
      let s := sv_set_gate g s in
      match r with
      | Ok _ =>
          let h := {| hd_src := src; hd_phase := Shaking; hd_deadline := deadline_of now (lm_handshake (sv_lim s)) |} in
          sv_set_loop (Accepting 0) (sv_set_handlers (<[conn := h]> (sv_handlers s)) s)
      | Err e =>
          let s := sv_set_relay (close_link conn (sv_relay s)) s in
          sv_set_loop (if errors_is e relay_errRelayClosed then Returned (Ok tt) else Accepting 0) s
      end
  end.

(** The pause ends, by its timer or because the relay was closed. *)
Definition serve_resume (timer : bool) (delay : Z) (s : Server) : Server :=
  sv_set_loop (if timer then Accepting delay else Returned (Ok tt)) s.

(** ** A connection *)

(** [link.Accept] returns. *)
Definition shaken (conn : nat) (h : handler) (r : res unit) (now : Z) (s : Server) : Server :=
  let s := sv_set_gate (handshakeDone (hd_src h) (sv_gate s)) s in
  match r with
  | Err e => move conn h Leaving (sv_set_relay (with_stats (stats_timeout e) (sv_relay s)) s)
  | Ok _ =>
      let awaiting := 0 <? lm_setup (sv_lim s) in
      let h := {| hd_src := hd_src h; hd_phase := Reading awaiting; hd_deadline := deadline_of now (lm_setup (sv_lim s)) |} in
      sv_set_handlers (<[conn := h]> (sv_handlers s)) s
  end.

(** A read from the link that failed. *)
Definition read_failed (conn : nat) (h : handler) (e : error) (s : Server) : Server :=
  move conn h Closing (sv_set_relay (with_stats (stats_timeout e) (sv_relay s)) s).

(** [lc.Close] and [teardown]. *)
Definition close_conn (conn : nat) (h : handler) (s : Server) : Server :=
  move conn h Leaving (sv_set_relay (teardown conn (close_link conn (sv_relay s))) s).

(** [leave] and [conn.Close]. *)
Definition leave_conn (conn : nat) (h : handler) (now : Z) (s : Server) : Server :=
  let s := sv_set_gate (leave conn (hd_src h) now (sv_gate s)) s in
  move conn h Finished (sv_set_relay (close_link conn (sv_relay s)) s).

Definition gt_done (g : Gate) : Gate :=
  gt_set_counts (gt_inbound g) (gt_handshaking g) (gt_conns g) (gt_handlers g - 1) g.

(** [handlers.Done], the last a handler does. *)
Definition finish (conn : nat) (s : Server) : Server :=
  sv_set_handlers (delete conn (sv_handlers s)) (sv_set_gate (gt_done (sv_gate s)) s).

(** ** Close *)

(** The first call closes everything and waits; any other returns at once. *)
Definition Close (s : Server) : Server :=
  if isClosed s then s else sv_set_closing Waiting (sv_set_relay (Relay_Close (sv_relay s)) s).

(** [handlers.Wait] returns when nothing is left to wait for. *)
Definition wait_over (s : Server) : option Server :=
  match sv_closing s with
  | Waiting => if gt_handlers (sv_gate s) =? 0 then Some (sv_set_closing Closed s) else None
  | _ => None
  end.

(** ** Runs *)

Section Server.
Context {P : CryptoProvider}.

(** A read that gave a cell: the round of the handler with it. *)
Definition got_cell (conn : nat) (h : handler) (awaiting : bool) (cell : Cell) (env : Env) (s : Server) (w : World) : Server * World :=
  let '((go, r), w) := on_cell cell conn (hd_src h) env (sv_relay s) w in
  let s := sv_set_relay r s in
  match go with
  | Ok true =>
      if awaiting && owns conn r
      then (sv_set_handlers (<[conn := {| hd_src := hd_src h; hd_phase := Reading false; hd_deadline := None |}]> (sv_handlers s)) s, w)
      else (s, w)
  | _ => (move conn h Closing s, w)
  end.

(** A step of a handler when nothing more comes from its connection. *)
Inductive winds_down (conn : nat) : Server -> Server -> Prop :=
| WD_shake s h e now : sv_handlers s !! conn = Some h -> hd_phase h = Shaking ->
    winds_down conn s (shaken conn h (Err e) now s)
| WD_read s h b e : sv_handlers s !! conn = Some h -> hd_phase h = Reading b ->
    winds_down conn s (read_failed conn h e s)
| WD_close s h : sv_handlers s !! conn = Some h -> hd_phase h = Closing -> winds_down conn s (close_conn conn h s)
| WD_leave s h now : sv_handlers s !! conn = Some h -> hd_phase h = Leaving -> winds_down conn s (leave_conn conn h now s)
| WD_done s h : sv_handlers s !! conn = Some h -> hd_phase h = Finished -> winds_down conn s (finish conn s).

(** What else goes on: cells on the way back, timers, pacers and the onion ring. *)
Inductive background : Relay * World -> Relay * World -> Prop :=
| BG_back r w id cell env b r' w' : backward_cell id cell env r w = ((Ok b, r'), w') -> background (r, w) (r', w')
| BG_eof r w id : background (r, w) (backward_eof id r, w)
| BG_expire r w id now : background (r, w) (expire id now r, w)
| BG_tick r w id d outcome : background (r, w) (pacer_tick id d outcome r, w)
| BG_forget r w t1 t2 src id wait now : gt_timers (rl_gate r) = t1 ++ (src, id, wait) :: t2 ->
    background (r, w) (rl_set_gate (forget_fires src id now (gt_set_timers (t1 ++ t2) (rl_gate r))) r, w)
| BG_ring r w op a g w' : ring_step op (rl_onion r) w = ((a, g), w') -> background (r, w) (set_ring g r, w').

Inductive server_step : Server * World -> Server * World -> Prop :=
| SV_accept s w delay a now : sv_loop s = Accepting delay ->
    (match a with Conn conn _ => sv_handlers s !! conn = None | _ => True end) ->
    server_step (s, w) (serve_accept a now delay s, w)
| SV_resume s w delay timer : sv_loop s = Pausing delay -> timer = true \/ isClosed s = true ->
    server_step (s, w) (serve_resume timer delay s, w)
| SV_shaken s w conn h now : sv_handlers s !! conn = Some h -> hd_phase h = Shaking ->
    server_step (s, w) (shaken conn h (Ok tt) now s, w)
| SV_cell s w conn h b cell env s' w' : sv_handlers s !! conn = Some h -> hd_phase h = Reading b ->
    got_cell conn h b cell env s w = (s', w') -> server_step (s, w) (s', w')
| SV_down s w conn s' : winds_down conn s s' -> server_step (s, w) (s', w)
| SV_background s w r w' : background (sv_relay s, w) (r, w') -> server_step (s, w) (sv_set_relay r s, w')
| SV_close s w : server_step (s, w) (Close s, w)
| SV_closed s w s' : wait_over s = Some s' -> server_step (s, w) (s', w).

(** The server of a relay as [New] makes it. *)
Definition fresh_server (s : Server) (w : World) : Prop :=
  exists cfg rcfg priv pub onion w0 r, NewRelay cfg rcfg priv pub onion w0 = (Ok r, w) /\ s = served r.

End Server.

(** ** What the operations of a relay leave to the server *)

(** The count [Close] waits for, and whether it was called. *)
Definition waits (g : Gate) : Z * bool := (gt_handlers g, gt_closed g).

Lemma settle_waits src x now g : waits (settle src x now g) = waits g.
Proof.
  unfold settle. destruct (_ || _); [done|]. destruct (forgettable now x) as [[] x']; [done|].
  destruct (refilledIn now (so_links x')) as [wl l], (refilledIn now (so_setups x')) as [ws st]. done.
Qed.

Lemma settle_opt_waits src o now g : waits (settle_opt src o now g) = waits g.
Proof. destruct o; [apply settle_waits | done]. Qed.

Lemma leave_waits conn src now g : waits (leave conn src now g) = waits g.
Proof. unfold leave. set (g' := gt_set_counts _ _ _ _ g). destruct (gt_sources g' !! src); [by rewrite settle_waits | done]. Qed.

Lemma handshakeDone_waits src g : waits (handshakeDone src g) = waits g.
Proof. unfold handshakeDone. by destruct (gt_sources _ !! src). Qed.

Lemma allowSetup_waits src now g : waits (snd (allowSetup src now g)) = waits g.
Proof.
  unfold allowSetup. destruct (f64_leb _ _); [done|]. destruct (gt_sources g !! src) as [x|]; [|done].
  by destruct (bucket_take now (so_setups x)).
Qed.

Lemma forget_waits src id now g : waits (forget_fires src id now g) = waits g.
Proof. unfold forget_fires. destruct (gt_sources g !! src) as [x|]; [|done]. destruct (so_id x =? id)%nat; [by rewrite settle_waits | done]. Qed.

(** An admission counts one handler, a refusal none, and nobody is admitted once closed. *)
Definition counted (g : Gate) (r : res unit) (g' : Gate) : Prop :=
  gt_closed g' = gt_closed g /\ gt_handlers g' = gt_handlers g + (if is_ok r then 1 else 0) /\
  match r with Ok _ => gt_closed g = false | Err e => e = Sentinel (if gt_closed g then relay_errRelayClosed else relay_errRefused) end.

Lemma counted_refusal g g' : gt_closed g = false -> waits g' = waits g -> counted g (Err (Sentinel relay_errRefused)) g'.
Proof. intros Hc [= E1 E2]. unfold counted. cbn [is_ok]. rewrite Hc. split_and!; [congruence | lia | done]. Qed.

Lemma shared_counted conn src o now g g0 r g' : gt_closed g = false -> waits g0 = waits g ->
  admit_shared conn src o now g0 = (r, g') -> counted g r g'.
Proof.
  intros Hc H0. unfold admit_shared. destruct (_ && _); [|destruct (_ && _)].
  1-2: intros [= <- <-]; apply counted_refusal; [done | by rewrite settle_opt_waits].
  injection H0 as E1 E2. intros [= <- <-]. unfold counted. destruct o; cbn; rewrite Hc; split_and!; done || congruence || lia.
Qed.

Lemma admit_counted conn src now g r g' : gate_admit conn src now g = (r, g') -> counted g r g'.
Proof.
  unfold gate_admit. destruct (gt_closed g) eqn:Ec; [intros [= <- <-]; unfold counted; rewrite Ec; cbn; split_and!; done || lia|].
  destruct (perSourceOn (gt_lim g)); [|by apply shared_counted].
  destruct (gate_source src now g) as [[x|] g1] eqn:Eg.
  - assert (waits g1 = waits g) as H1.
    { unfold gate_source in Eg. destruct (gt_sources g !! src); [by injection Eg as _ <-|]. destruct (_ <=? _); [done|]. by injection Eg as _ <-. }
    destruct (bucket_take now (so_links x)) as [ok l]. destruct (negb ok); [|destruct (_ || _)]; [| |by apply shared_counted];
      intros [= <- <-]; apply counted_refusal; [done | by rewrite settle_waits | done | by rewrite settle_waits].
  - unfold gate_source in Eg. destruct (gt_sources g !! src); [done|]. destruct (_ <=? _); [|done]. injection Eg as <-.
    intros [= <- <-]. by apply counted_refusal.
Qed.

(** A computation that leaves the count and the flag alone. *)
Definition Apart {A} (m : R A) : Prop := forall r w, waits (rl_gate (snd (fst (m r w)))) = waits (rl_gate r).

Lemma apart_ret {A} (a : A) : Apart (retR a).
Proof. by intros r w. Qed.

Lemma apart_fail {A} e : Apart (@failR A e).
Proof. by intros r w. Qed.

Lemma apart_get {A} (f : Relay -> A) : Apart (getR f).
Proof. by intros r w. Qed.

Lemma apart_lift {A} (m : M A) : Apart (liftR m).
Proof. intros r w. unfold liftR. by destruct (m w). Qed.

Lemma apart_try {A B} (m : R A) (k : res A -> R B) : Apart m -> (forall a, Apart (k a)) -> Apart (tryR m k).
Proof.
  intros Hm Hk r w. unfold tryR. pose proof (Hm r w) as H. destruct (m r w) as [[a r1] w1]. cbn in H. by rewrite Hk.
Qed.

Lemma apart_bind {A B} (m : R A) (k : A -> R B) : Apart m -> (forall a, Apart (k a)) -> Apart (bindR m k).
Proof.
  intros Hm Hk r w. unfold bindR. pose proof (Hm r w) as H. destruct (m r w) as [[[a|e] r1] w1]; cbn in H; [by rewrite Hk | done].
Qed.

Lemma apart_mod (f : Relay -> Relay) : (forall r, waits (rl_gate (f r)) = waits (rl_gate r)) -> Apart (modR f).
Proof. intros H r w. apply H. Qed.

Lemma apart_write l cell env : Apart (write_cell l cell env).
Proof. intros r w. unfold write_cell. by destruct (ev_write env). Qed.

Create HintDb apart discriminated.

#[export] Hint Resolve apart_ret apart_fail apart_get apart_lift apart_write : apart.

Ltac apart :=
  repeat match goal with
  | |- forall _, _ => intros ?
  | |- Apart (bindR _ _) => apply apart_bind
  | |- Apart (tryR _ _) => apply apart_try
  | |- Apart (modR _) => by apply apart_mod
  | |- Apart (count _) => by apply apart_mod
  | |- Apart (count_timeout _) => by apply apart_mod
  | |- Apart (let '(_, _) := ?x in _) => destruct x
  | |- Apart (if ?b then _ else _) => destruct b
  | |- Apart (match ?x with _ => _ end) => destruct x
  | _ => by auto with apart
  end.

Lemma apart_pass id p set c l cell fwd env : Apart (pass id p set c l cell fwd env).
Proof. unfold pass. apart. Qed.

#[export] Hint Resolve apart_pass : apart.

Lemma apart_reply id c payload env : Apart (reply id c payload env).
Proof. unfold reply, seal_broken. apart. Qed.

#[export] Hint Resolve apart_reply : apart.

Lemma apart_data cell hdr c env : Apart (route_data cell hdr c env).
Proof. unfold route_data. apart. Qed.

Lemma apart_backward id cell env : Apart (backward_cell id cell env).
Proof. unfold backward_cell, backward_circuit. apart. Qed.

#[export] Hint Resolve apart_data apart_backward : apart.

Section Apart.
Context {P : CryptoProvider}.

Lemma apart_failed {A} from e : Apart (@setupFailed A from e).
Proof. intros r w. unfold setupFailed. by destruct (owns from r). Qed.

Lemma apart_open cell : Apart (open_ring cell).
Proof. intros r w. unfold open_ring. by destruct (Ring_Open cell (rl_onion r) w) as [[a g] w']. Qed.

Lemma apart_allow src now : Apart (allow_setup src now).
Proof.
  intros r w. unfold allow_setup. pose proof (allowSetup_waits src now (rl_gate r)) as H. by destruct (allowSetup src now (rl_gate r)).
Qed.

#[local] Hint Resolve apart_failed apart_open apart_allow : apart.

Lemma apart_extend id c layer index env : Apart (extend id c layer index env).
Proof. unfold extend, extend_fail. apart. Qed.

#[local] Hint Resolve apart_extend : apart.

Lemma apart_setup cell hdr from src env : Apart (setup cell hdr from src env).
Proof. unfold setup, setup_circuit, close_hop. apart. Qed.

#[local] Hint Resolve apart_setup : apart.

Lemma apart_cell cell from src env : Apart (on_cell cell from src env).
Proof. unfold on_cell, route. apart. Qed.

End Apart.

(** ** The invariant *)

(** The phases in which the link of a handler can carry a circuit. *)
Definition holds_link (p : phase) : bool := match p with Reading _ | Closing => true | _ => false end.

Definition pause_ok (d : Z) : Prop := d = 0 \/ 5 * Millisecond <= d <= Second.

Record server_ok (s : Server) : Prop := {
  si_books : books_ok (books (sv_relay s));
  si_owner l id : rl_owners (sv_relay s) !! l = Some id -> exists h, sv_handlers s !! l = Some h /\ holds_link (hd_phase h) = true;
  si_count : gt_handlers (sv_gate s) = Z.of_nat (size (sv_handlers s));
  si_closing : isClosed s = true <-> sv_closing s <> NotClosed;
  si_closed : sv_closing s = Closed -> sv_handlers s = ∅;
  si_loop : match sv_loop s with
            | Accepting d | Pausing d => pause_ok d
            | Returned (Ok _) => isClosed s = true
            | Returned (Err _) => True
            end
}.

Lemma backoff_ok d : pause_ok d -> 5 * Millisecond <= acceptBackoff d <= Second.
Proof.
  unfold acceptBackoff, pause_ok, Second, Millisecond. intros [->|H]; [cbn; lia|]. destruct (Z.eqb_spec d 0); [lia|]. unfold i64. rewrite Z.mod_small; lia.
Qed.

(** A change of the relay that keeps the books, the owners and what [Close] waits for. *)
Lemma ok_relay r s : server_ok s -> books r = books (sv_relay s) -> waits (rl_gate r) = waits (sv_gate s) -> server_ok (sv_set_relay r s).
Proof.
  intros [Hb Ho Hn Hc Hd Hl] Eb Ew. injection Ew as E1 E2. pose proof (f_equal bo_owners Eb) as E3. cbn in E3.
  split; unfold isClosed, sv_gate in *; cbn [sv_relay sv_set_relay sv_handlers sv_closing sv_loop]; rewrite ?E1, ?E2; try done.
  - by rewrite Eb.
  - intros l id. rewrite E3. apply Ho.
Qed.

Lemma ok_loop l s : server_ok s -> match l with Accepting d | Pausing d => pause_ok d | Returned (Ok _) => isClosed s = true | _ => True end ->
  server_ok (sv_set_loop l s).
Proof. by intros []. Qed.

(** A handler goes on: a handler with a circuit keeps its link. *)
Lemma ok_handler conn h h' s : server_ok s -> sv_handlers s !! conn = Some h ->
  holds_link (hd_phase h') = true \/ rl_owners (sv_relay s) !! conn = None ->
  server_ok (sv_set_handlers (<[conn := h']> (sv_handlers s)) s).
Proof.
  intros [Hb Ho Hn Hc Hd Hl] Hh Hp. split; try done; cbn [sv_handlers sv_set_handlers sv_relay sv_closing].
  - intros l id Hl'. destruct (decide (l = conn)) as [->|Hne]; [|rewrite lookup_insert_ne by done; by apply (Ho l id)].
    rewrite lookup_insert_eq. exists h'. split; [done|]. destruct Hp as [Hp|Hp]; [done | by rewrite Hp in Hl'].
  - rewrite map_size_insert_Some by (by exists h). exact Hn.
  - intros E. rewrite (Hd E) in Hh. done.
Qed.

Lemma no_owner conn h s : server_ok s -> sv_handlers s !! conn = Some h -> holds_link (hd_phase h) = false -> rl_owners (sv_relay s) !! conn = None.
Proof.
  intros Hs Hh Hp. destruct (rl_owners (sv_relay s) !! conn) as [id|] eqn:E; [|done].
  destruct (si_owner s Hs conn id E) as (h' & Hh' & Hp'). rewrite Hh in Hh'. injection Hh' as <-. by rewrite Hp in Hp'.
Qed.

Lemma accept_ok a now delay s : server_ok s -> sv_loop s = Accepting delay ->
  match a with Conn conn _ => sv_handlers s !! conn = None | _ => True end -> server_ok (serve_accept a now delay s).
Proof.
  intros Hs El Ha. pose proof (si_loop s Hs) as Hp. rewrite El in Hp. destruct a as [conn addr|own err]; cbn [serve_accept].
  - destruct (gate_admit conn (sourceOf addr) now (sv_gate s)) as [r g] eqn:E. apply admit_counted in E as (E1 & E2 & E3). destruct r as [u|e].
    + destruct Hs as [Hb Ho Hn Hc Hd Hl]. split; cbn [sv_handlers sv_set_handlers sv_set_loop sv_set_gate sv_set_relay sv_relay sv_closing sv_loop]; try done.
      * intros l id Hx. destruct (Ho l id Hx) as (h & Hh & Hp'). exists h. split; [|done]. rewrite lookup_insert_ne; [done|]. intros ->. by rewrite Ha in Hh.
      * unfold sv_gate in *. cbn [rl_gate rl_set_gate sv_relay sv_set_relay is_ok] in *. rewrite map_size_insert_None by done. cbn in E2 |- *. lia.
      * unfold isClosed, sv_gate in *. cbn. by rewrite E1.
      * intros Ec. exfalso. assert (sv_closing s <> NotClosed) as Hx by (by rewrite Ec). apply Hc in Hx. unfold isClosed in Hx. by rewrite E3 in Hx.
      * by left.
    + assert (server_ok (sv_set_relay (close_link conn (rl_set_gate g (sv_relay s))) s)) as Hs'.
      { apply ok_relay; [done | done |]. unfold waits. cbn [rl_gate close_link rl_set_closedLinks rl_set_gate]. rewrite E1, E2. cbn [is_ok]. f_equal. lia. }
      apply ok_loop; [done|]. subst e. unfold isClosed, sv_gate in *. cbn in *. destruct (gt_closed (rl_gate (sv_relay s))); cbn; [done | by left].
  - destruct (isClosed s) eqn:Ec; [by apply ok_loop|]. destruct (temporary own err); cbn [negb]; [|by apply ok_loop].
    apply ok_loop; [by apply ok_relay|]. right. by apply backoff_ok.
Qed.

Lemma shaken_ok conn h r now s : server_ok s -> sv_handlers s !! conn = Some h -> hd_phase h = Shaking -> server_ok (shaken conn h r now s).
Proof.
  intros Hs Hh Hp. assert (rl_owners (sv_relay s) !! conn = None) as Hn by (by apply (no_owner conn h); [..|rewrite Hp]).
  assert (server_ok (sv_set_gate (handshakeDone (hd_src h) (sv_gate s)) s)) as Hs' by (by apply ok_relay; [.. | apply handshakeDone_waits]).
  unfold shaken. destruct r as [u|e].
  - eapply ok_handler; [exact Hs' | exact Hh | by left].
  - apply (ok_handler conn h); [by apply (ok_relay _ _ Hs') | exact Hh | by right].
Qed.

Lemma read_failed_ok conn h e s : server_ok s -> sv_handlers s !! conn = Some h -> server_ok (read_failed conn h e s).
Proof. intros Hs Hh. apply (ok_handler conn h); [by apply ok_relay | exact Hh | by left]. Qed.

Lemma teardown_waits from r : waits (rl_gate (teardown from r)) = waits (rl_gate r).
Proof.
  unfold teardown. destruct (rl_owners r !! from) as [id|]; [|done]. destruct (rl_circuits r !! id) as [c|]; [|done].
  unfold release. by destruct (ci_next c).
Qed.

Lemma close_conn_ok conn h s : server_ok s -> sv_handlers s !! conn = Some h -> server_ok (close_conn conn h s).
Proof.
  intros Hs Hh. pose proof Hs as [Hb Ho Hn Hc Hd Hl]. destruct (books_remove conn (close_link conn (sv_relay s)) Hb) as (Hb' & Hnone & _ & [_ Hoth]).
  pose proof (teardown_waits conn (close_link conn (sv_relay s))) as [= E1 E2]. cbn [rl_gate close_link rl_set_closedLinks] in E1, E2.
  apply (ok_handler conn h); [| exact Hh | by right].
  split; unfold isClosed, sv_gate in *; cbn [sv_relay sv_set_relay sv_handlers sv_closing sv_loop]; rewrite ?E1, ?E2; try done.
  intros l id Hx. assert (l <> conn) as Hne by (intros ->; by rewrite Hnone in Hx). rewrite Hoth in Hx by done. by apply (Ho l id).
Qed.

Lemma leave_conn_ok conn h now s : server_ok s -> sv_handlers s !! conn = Some h -> hd_phase h = Leaving -> server_ok (leave_conn conn h now s).
Proof.
  intros Hs Hh Hp. assert (rl_owners (sv_relay s) !! conn = None) as Hn by (by apply (no_owner conn h); [..|rewrite Hp]).
  apply (ok_handler conn h); [|exact Hh | by right]. apply ok_relay; [|done..]. apply ok_relay; [done..|]. apply leave_waits.
Qed.

Lemma finish_ok conn h s : server_ok s -> sv_handlers s !! conn = Some h -> hd_phase h = Finished -> server_ok (finish conn s).
Proof.
  intros Hs Hh Hp. assert (rl_owners (sv_relay s) !! conn = None) as Hno by (by apply (no_owner conn h); [..|rewrite Hp]).
  destruct Hs as [Hb Ho Hn Hc Hd Hl]. split; cbn [finish sv_handlers sv_set_handlers sv_set_gate sv_set_relay sv_relay sv_closing sv_loop]; try done.
  - intros l id Hx. destruct (Ho l id Hx) as (h' & Hh' & Hp'). exists h'. split; [|done]. rewrite lookup_delete_ne; [done|]. intros ->. cbn in Hx. by rewrite Hno in Hx.
  - change (gt_handlers (sv_gate s) - 1 = Z.of_nat (size (delete conn (sv_handlers s)))). rewrite map_size_delete_Some by (by exists h). rewrite Hn.
    assert (0 < size (sv_handlers s))%nat; [|lia]. apply Nat.neq_0_lt_0. intros E%map_size_empty_iff. by rewrite E in Hh.
  - intros E. by rewrite (Hd E), delete_empty.
Qed.

Lemma Close_ok s : server_ok s -> server_ok (Close s).
Proof.
  intros Hs. unfold Close. destruct (isClosed s) eqn:E; [done|]. destruct Hs as [Hb Ho Hn Hc Hd Hl]. split; try done.
  cbn [sv_loop sv_set_closing sv_set_relay]. by destruct (sv_loop s) as [|?|[]].
Qed.

Lemma wait_over_ok s s' : server_ok s -> wait_over s = Some s' -> server_ok s'.
Proof.
  intros [Hb Ho Hn Hc Hd Hl]. unfold wait_over. destruct (sv_closing s) eqn:E; [done| |done]. destruct (Z.eqb_spec (gt_handlers (sv_gate s)) 0) as [E0|]; [|done].
  intros [= <-]. split; try done; cbn [sv_closing sv_set_closing].
  - split; [done|]. intros _. by apply Hc.
  - intros _. cbn. apply map_size_empty_inv. lia.
Qed.

Section Safety.
Context {P : CryptoProvider}.

Lemma background_kept r w r' w' : background (r, w) (r', w') -> books r' = books r /\ waits (rl_gate r') = waits (rl_gate r).
Proof.
  inversion 1; subst.
  - split; [by eapply backward_books|]. pose proof (apart_backward id cell env r w) as Ha. match goal with E : backward_cell _ _ _ _ _ = _ |- _ => by rewrite E in Ha end.
  - split; [apply eof_books|]. unfold backward_eof. by destruct (rl_circuits r !! id).
  - split; [apply expire_books|]. unfold expire. destruct (rl_circuits r !! id) as [c|]; [|done]. destruct (ci_unwatched c); [done|].
    destruct (expiresAt (rl_lim r) c) as [at_|]; [by destruct (now <? at_) | done].
  - split; [apply tick_books|]. unfold pacer_tick. destruct (rl_circuits r !! id) as [c|]; [|done].
    destruct d; [destruct (ci_fwd c) as [p|], (ci_next c) as [l|] | destruct (ci_bwd c) as [p|]]; try done;
      destruct (tick outcome p (rl_stats r)) as [[f p'] st]; by destruct f as [[cl []]|].
  - split; [done|]. cbn [rl_gate rl_set_gate]. by rewrite forget_waits.
  - done.
Qed.

Lemma got_cell_ok conn h b cell env s w s' w' : server_ok s -> sv_handlers s !! conn = Some h -> hd_phase h = Reading b ->
  got_cell conn h b cell env s w = (s', w') -> server_ok s'.
Proof.
  intros Hs Hh Hp. pose proof Hs as [Hb Ho Hn Hc Hd Hl]. unfold got_cell. pose proof (apart_cell cell conn (hd_src h) env (sv_relay s) w) as Ha.
  destruct (on_cell cell conn (hd_src h) env (sv_relay s) w) as [[go r] w1] eqn:E. cbn [fst snd] in Ha. injection Ha as E1 E2.
  assert (exists b', go = Ok b') as [b' ->].
  { revert E. unfold on_cell, tryR. destruct (route cell conn (hd_src h) env (sv_relay s) w) as [[[u|e] r1] w2]; [intros [= <- _ _]; by eexists|].
    destruct (errors_is e relay_errBroken); intros [= <- _ _]; by eexists. }
  destruct (on_cell_books _ _ _ _ _ _ _ _ _ E Hb) as [Hb' [_ Hoth]].
  assert (server_ok (sv_set_relay r s)) as Hs'.
  { split; unfold isClosed, sv_gate in *; cbn [sv_relay sv_set_relay sv_handlers sv_closing sv_loop]; rewrite ?E1, ?E2; try done.
    intros l id Hx. destruct (decide (l = conn)) as [->|Hne]; [exists h; by rewrite Hp|]. rewrite Hoth in Hx by done. by apply (Ho l id). }
  destruct b'; [destruct (b && owns conn r)|]; intros [= <- <-]; try done; apply (ok_handler conn h _ (sv_set_relay r s) Hs' Hh); by left.
Qed.

Lemma winds_down_ok conn s s' : server_ok s -> winds_down conn s s' -> server_ok s'.
Proof.
  intros Hs H. revert Hs. destruct H; intros Hs; [by apply shaken_ok | by apply read_failed_ok | by apply close_conn_ok | by apply leave_conn_ok | by apply (finish_ok _ h)].
Qed.

Lemma server_step_ok x y : server_step x y -> server_ok (fst x) -> server_ok (fst y).
Proof.
  intros [] Hs; cbn [fst] in *.
  - by apply accept_ok.
  - pose proof (si_loop s Hs) as Hl. rewrite H in Hl. apply ok_loop; [done|]. destruct timer; [done|]. by destruct H0.
  - by apply shaken_ok.
  - by eapply got_cell_ok.
  - by eapply winds_down_ok.
  - destruct (background_kept _ _ _ _ H) as [Eb Ew]. by apply ok_relay.
  - by apply Close_ok.
  - by eapply wait_over_ok.
Qed.

Lemma fresh_ok s w : fresh_server s w -> server_ok s.
Proof.
  intros (cfg & rcfg & priv & pub & onion & w0 & r & Hn & ->). pose proof (new_relay_books _ _ _ _ _ _ _ _ Hn) as Hb.
  assert (rl_owners r = ∅ /\ gt_handlers (rl_gate r) = 0 /\ gt_closed (rl_gate r) = false) as (E1 & E2 & E3).
  { unfold NewRelay in Hn. destruct priv as [pr|]; [|discriminate].
    apply bindM_ok in Hn as (size & w2 & _ & Hn). destruct (negb _); [discriminate|].
    destruct (_ || _); [discriminate|]. destruct (_ || _); [discriminate|].
    apply bindM_ok in Hn as (lim & w3 & _ & Hn). apply bindM_ok in Hn as (u & w4 & _ & [= <- _]). done. }
  split; unfold isClosed, sv_gate; cbn; rewrite ?E1, ?E2, ?E3; try done; by left.
Qed.

Lemma reachable_ok s w s' w' : fresh_server s w -> rtc server_step (s, w) (s', w') -> server_ok s'.
Proof.
  intros Hf Hr. apply fresh_ok in Hf. change s with (fst (s, w)) in Hf. change s' with (fst (s', w')). remember (s, w) as x. remember (s', w') as y.
  clear Heqx Heqy. induction Hr as [|x y z Hst _ IH]; [done|]. by apply IH, (server_step_ok x).
Qed.

End Safety.

(** ** What is left to do once closed *)

Definition rank (p : phase) : nat :=
  match p with Shaking => 5 | Reading _ => 4 | Closing => 3 | Leaving => 2 | Finished => 1 end.

(** The steps the handlers still have to take, at most. *)
Definition work (m : gmap nat handler) : nat := sum_list_with (fun ch => rank (hd_phase (snd ch))) (map_to_list m).

Lemma work_at (m : gmap nat handler) conn h : m !! conn = Some h -> work m = (rank (hd_phase h) + work (delete conn m))%nat.
Proof. intros H. unfold work. by rewrite <- (map_to_list_delete m conn h H). Qed.

Lemma work_insert m conn h : work (<[conn := h]> m) = (rank (hd_phase h) + work (delete conn m))%nat.
Proof. by rewrite (work_at _ conn h), delete_insert_eq by apply lookup_insert_eq. Qed.

Lemma work_move (m : gmap nat handler) conn h h' : m !! conn = Some h -> (work (<[conn := h']> m) + rank (hd_phase h) = work m + rank (hd_phase h'))%nat.
Proof. intros H. rewrite work_insert, (work_at m conn h H). lia. Qed.



Lemma work_less (m : gmap nat handler) conn h h' : m !! conn = Some h -> (rank (hd_phase h') <= rank (hd_phase h))%nat ->
  (work (<[conn := h']> m) <= work m)%nat.
Proof. intros H Hr. pose proof (work_move m conn h h' H). lia. Qed.

Lemma winds_down_work conn s s' : winds_down conn s s' -> (work (sv_handlers s') < work (sv_handlers s))%nat.
Proof.
  intros [];
  [pose proof (work_move (sv_handlers s0) conn h {| hd_src := hd_src h; hd_phase := Leaving; hd_deadline := hd_deadline h |} H)
  |pose proof (work_move (sv_handlers s0) conn h {| hd_src := hd_src h; hd_phase := Closing; hd_deadline := hd_deadline h |} H)
  |pose proof (work_move (sv_handlers s0) conn h {| hd_src := hd_src h; hd_phase := Leaving; hd_deadline := hd_deadline h |} H)
  |pose proof (work_move (sv_handlers s0) conn h {| hd_src := hd_src h; hd_phase := Finished; hd_deadline := hd_deadline h |} H)
  |cbn; rewrite (work_at (sv_handlers s0) conn h H), H0; cbn; lia];
  rewrite H0 in *; cbn in *; lia.
Qed.


Section Ends.
Context {P : CryptoProvider}.

(** Once closed a server admits nobody, so what is left never grows. *)
Lemma step_closing x y : server_ok (fst x) -> server_step x y -> sv_closing (fst x) <> NotClosed ->
  (sv_closing (fst y) = sv_closing (fst x) \/ sv_closing (fst x) = Waiting /\ sv_closing (fst y) = Closed) /\
  (work (sv_handlers (fst y)) <= work (sv_handlers (fst x)))%nat.
Proof.
  intros Hs H Hc. apply (si_closing _ Hs) in Hc. destruct H; cbn [fst] in *.
  - destruct a as [conn addr|own err]; cbn [serve_accept]; [|rewrite Hc; by split; [left|]].
    destruct (gate_admit conn (sourceOf addr) now (sv_gate s)) as [r g] eqn:E. apply admit_counted in E as (_ & _ & E).
    destruct r as [u|e]; [unfold isClosed in Hc; congruence | split; [by left | done]].
  - by split; [left|].
  - split; [by left|]. apply (work_less (sv_handlers s) _ h); [exact H | rewrite H0; cbn; lia].
  - revert H1. unfold got_cell. destruct (on_cell _ _ _ _ _ _) as [[go r] w1].
    destruct go as [[]|]; [destruct (b && owns conn r)|..]; intros [= <- <-]; (split; [by left|]); try done;
      (apply (work_less (sv_handlers s) _ h); [exact H | rewrite H0; cbn; lia]).
  - split; [left; by destruct H | apply Nat.lt_le_incl; by apply winds_down_work in H].
  - by split; [left|].
  - unfold Close. rewrite Hc. by split; [left|].
  - unfold wait_over in H. destruct (sv_closing s); [done| |done]. destruct (_ =? 0); [|done]. injection H as <-. split; [by right | done].
Qed.

Lemma stays_closed x y : server_ok (fst x) -> rtc server_step x y -> sv_closing (fst x) <> NotClosed ->
  server_ok (fst y) /\ sv_closing (fst y) <> NotClosed /\ (sv_closing (fst x) = Closed -> sv_closing (fst y) = Closed) /\
  (work (sv_handlers (fst y)) <= work (sv_handlers (fst x)))%nat.
Proof.
  intros Hs Hr. revert Hs. induction Hr as [x|x y z Hst _ IH]; intros Hs Hc; [done|].
  destruct (step_closing x y Hs Hst Hc) as [E Hw]. pose proof (server_step_ok _ _ Hst Hs) as Hy.
  destruct IH as (Hz & Hcz & Hcl & Hwz); [done | destruct E as [->|[_ ->]]; done |].
  split_and!; [done | done | | lia]. intros Ec. apply Hcl. destruct E as [->|[E _]]; congruence.
Qed.


End Ends.

(** ** Properties *)

Section Properties.
Context {P : CryptoProvider}.

(** Every circuit has the handler of its link running. *)
Lemma circuit_handled s id c : server_ok s -> rl_circuits (sv_relay s) !! id = Some c ->
  exists h, sv_handlers s !! ci_in c = Some h /\ holds_link (hd_phase h) = true.
Proof.
  intros Hs Hc. apply (si_owner s Hs _ id). apply (bk_owner _ (si_books s Hs)). exists (fixed c).
  split; [|done]. cbn. by rewrite lookup_fmap, Hc.
Qed.

Lemma idle_released s : server_ok s -> sv_handlers s = ∅ ->
  rl_circuits (sv_relay s) = ∅ /\ rl_owners (sv_relay s) = ∅ /\ rl_hops (sv_relay s) = 0.
Proof.
  intros Hs He. assert (rl_circuits (sv_relay s) = ∅) as Hc.
  { apply map_empty. intros id. destruct (rl_circuits (sv_relay s) !! id) as [c|] eqn:E; [|done].
    destruct (circuit_handled s id c Hs E) as (h & Hh & _). by rewrite He in Hh. }
  split_and!; [done | |].
  - apply map_empty. intros l. destruct (rl_owners (sv_relay s) !! l) as [id|] eqn:E; [|done].
    destruct (si_owner s Hs l id E) as (h & Hh & _). by rewrite He in Hh.
  - pose proof (bk_hops _ (si_books s Hs)) as Hh. cbn in Hh. by rewrite Hh, Hc, fmap_empty, map_size_empty.
Qed.

(** C11. [Close] returns once every circuit key is released.  Take a relay that serves, in
    any interleaving of its accept loop, the handlers of its connections, the cells on
    the way back, timers and [Close]: each circuit always has the handler of its own
    link still at work on it, and once [Close] has returned there is no handler, no
    circuit, no owner and no live hop cipher, then and ever after. *)
Theorem close_releases s0 w0 s w : fresh_server s0 w0 -> rtc server_step (s0, w0) (s, w) ->
  (forall id c, rl_circuits (sv_relay s) !! id = Some c -> exists h, sv_handlers s !! ci_in c = Some h /\ holds_link (hd_phase h) = true) /\
  (sv_closing s = Closed -> forall s' w', rtc server_step (s, w) (s', w') ->
    sv_handlers s' = ∅ /\ rl_circuits (sv_relay s') = ∅ /\ rl_owners (sv_relay s') = ∅ /\ rl_hops (sv_relay s') = 0).
Proof.
  intros Hf Hr. pose proof (reachable_ok _ _ _ _ Hf Hr) as Hs. split; [intros id c; by apply circuit_handled|].
  intros Hc s' w' Hr'. destruct (stays_closed (s, w) (s', w') Hs Hr') as (Hs' & _ & Hcl & _); [cbn; by rewrite Hc|].
  pose proof (si_closed s' Hs' (Hcl Hc)) as He. split; [done | by apply idle_released].
Qed.


(** What ends [Serve] and what does not.  At [Accept], in every run: an error after
    the relay was closed ends it without an error; a temporary one is waited out, for
    5 ms after a connection, then each time twice as long, at most 1 s; any other error
    ends it with that error.  A connection never ends it unless the relay is closed: it
    gets a handler, which [Close] will wait for, or is closed on the spot and nothing of
    it stays.  And [Serve] returns nil only when the relay is closed. *)
Theorem serve_ends s0 w0 s w d : fresh_server s0 w0 -> rtc server_step (s0, w0) (s, w) ->
  (sv_loop s = Returned (Ok tt) -> isClosed s = true) /\
  (sv_loop s = Accepting d ->
    (forall own err now, let s' := serve_accept (AcceptErr own err) now d s in
      sv_handlers s' = sv_handlers s /\
      sv_loop s' = (if isClosed s then Returned (Ok tt) else if negb (temporary own err) then Returned (Err err)
                    else Pausing (if d =? 0 then 5 * Millisecond else Z.min (2 * d) Second)) /\
      (d = 0 \/ 5 * Millisecond <= d <= Second)) /\
    (forall conn addr now, let s' := serve_accept (Conn conn addr) now d s in
      sv_loop s' = (if isClosed s then Returned (Ok tt) else Accepting 0) /\
      ((exists h, sv_handlers s' = <[conn := h]> (sv_handlers s) /\ hd_phase h = Shaking /\ hd_src h = sourceOf addr /\
          gt_handlers (sv_gate s') = gt_handlers (sv_gate s) + 1 /\ isClosed s = false) \/
       sv_handlers s' = sv_handlers s /\ gt_handlers (sv_gate s') = gt_handlers (sv_gate s) /\ conn ∈ rl_closedLinks (sv_relay s')))).
Proof.
  intros Hf Hr. pose proof (si_loop s (reachable_ok _ _ _ _ Hf Hr)) as Hl. split; [intros E; by rewrite E in Hl|].
  intros E. rewrite E in Hl. split.
  - intros own err now. cbn [serve_accept]. destruct (isClosed s); [done|]. destruct (negb (temporary own err)); [done|]. split; [done|]. split; [|done].
    cbn [sv_loop sv_set_loop]. f_equal. unfold acceptBackoff. destruct (Z.eqb_spec d 0); [done|].
    destruct Hl as [->|Hl]; [done|]. unfold i64, Second, Millisecond in *. rewrite Z.mod_small; lia.
  - intros conn addr now. cbn [serve_accept]. destruct (gate_admit conn (sourceOf addr) now (sv_gate s)) as [r g] eqn:Ea.
    apply admit_counted in Ea as (E1 & E2 & E3). unfold isClosed. destruct r as [u|e].
    + rewrite E3. split; [done|]. left. eexists. split; [done|]. split; [done|]. split; [done|]. by split.
    + cbn [sv_loop sv_set_loop]. subst e. split; [by destruct (gt_closed (sv_gate s))|]. right. cbn [is_ok] in E2. split; [done|]. split; [|cbn; set_solver]. cbn. lia.
Qed.

End Properties.

(** ** Witnesses: the first relay of the demo chain takes a connection, lays a circuit
    and is closed *)

Module ServerDemo.
Import ToySuite SetupDemo RelayDemo.

Definition peer : NetAddr := TCPAddr (V4 0x0a000001).

Definition fresh : Server := served relay1.

Lemma fresh_is : fresh_server fresh after1.
Proof. exists GateDemo.config, rcfg, (Some (fst pair1)), (snd pair1), None, Demo.world, relay1. split; [exact relay1_new | done]. Qed.

Definition accepted1 : Server := serve_accept (Conn 3 peer) 1000 0 fresh.

Definition hd0 : handler := {| hd_src := NoAddr; hd_phase := Finished; hd_deadline := None |}.

Definition handler_of (s : Server) : handler := default hd0 (sv_handlers s !! 3%nat).

Definition greeted : Server := shaken 3 (handler_of accepted1) (Ok tt) 1001 accepted1.

(** The setup of the demo chain arrives; its circuit is laid. *)
Definition laid : Server * World := got_cell 3 (handler_of greeted) true (sr_Cell result) env greeted after1.

Definition waiting : Server := Close (fst laid).

Definition torn : Server := read_failed 3 (handler_of waiting) (Sentinel net_ErrClosed) waiting.
Definition shut : Server := close_conn 3 (handler_of torn) torn.
Definition left_ : Server := leave_conn 3 (handler_of shut) 1003 shut.
Definition done_ : Server := finish 3 left_.

Definition in_phase (p : phase) (s : Server) : bool :=
  match sv_handlers s !! 3%nat with
  | Some h => match p, hd_phase h with
              | Shaking, Shaking | Closing, Closing | Leaving, Leaving | Finished, Finished => true
              | Reading a, Reading b => Bool.eqb a b
              | _, _ => false
              end
  | None => false
  end.

Lemma in_phase_ok p s : in_phase p s = true -> sv_handlers s !! 3%nat = Some (handler_of s) /\ hd_phase (handler_of s) = p.
Proof.
  unfold in_phase, handler_of. destruct (sv_handlers s !! 3%nat) as [h|]; [|done]. cbn.
  destruct p, (hd_phase h); try done. intros ->%eqb_prop. done.
Qed.

Lemma phases : in_phase Shaking accepted1 = true /\ in_phase (Reading true) greeted = true /\ in_phase (Reading false) (fst laid) = true /\
  in_phase (Reading false) waiting = true /\ in_phase Closing torn = true /\ in_phase Leaving shut = true /\ in_phase Finished left_ = true.
Proof. vm_compute. done. Qed.

(** The circuit is there until the end. *)
Example circuits_held : (size (rl_circuits (sv_relay (fst laid))), rl_hops (sv_relay (fst laid)), rl_hops (sv_relay done_), size (sv_handlers done_)) = (1%nat, 1, 0, 0%nat).
Proof. vm_compute. reflexivity. Qed.

Lemma step_accept : server_step (fresh, after1) (accepted1, after1).
Proof. apply (SV_accept fresh after1 0 (Conn 3 peer) 1000); [done | apply lookup_empty]. Qed.

Lemma step_shaken : server_step (accepted1, after1) (greeted, after1).
Proof. destruct phases as (H & _). apply in_phase_ok in H as [H H']. exact (SV_shaken accepted1 after1 3 (handler_of accepted1) 1001 H H'). Qed.

Lemma laid_pair : got_cell 3 (handler_of greeted) true (sr_Cell result) env greeted after1 = (fst laid, snd laid).
Proof. unfold laid. apply surjective_pairing. Qed.

Lemma step_cell : server_step (greeted, after1) (fst laid, snd laid).
Proof.
  destruct phases as (_ & H & _). apply in_phase_ok in H as [H H'].
  exact (SV_cell greeted after1 3 (handler_of greeted) true (sr_Cell result) env _ _ H H' laid_pair).
Qed.

Lemma laid_reached : rtc server_step (fresh, after1) (fst laid, snd laid).
Proof. exact (rtc_l _ _ _ _ step_accept (rtc_l _ _ _ _ step_shaken (rtc_once _ _ step_cell))). Qed.

Lemma waiting_reached : rtc server_step (fresh, after1) (waiting, snd laid).
Proof. exact (rtc_r _ _ _ laid_reached (SV_close (fst laid) (snd laid))). Qed.


Lemma done_over : wait_over done_ = Some (sv_set_closing Closed done_).
Proof. vm_compute. reflexivity. Qed.

Lemma steps_down : server_step (waiting, snd laid) (torn, snd laid) /\ server_step (torn, snd laid) (shut, snd laid) /\
  server_step (shut, snd laid) (left_, snd laid) /\ server_step (left_, snd laid) (done_, snd laid).
Proof.
  destruct phases as (_ & _ & _ & H4 & H5 & H6 & H7). apply in_phase_ok in H4 as [H4 P4], H5 as [H5 P5], H6 as [H6 P6], H7 as [H7 P7].
  split_and!.
  - exact (SV_down waiting (snd laid) 3 torn (WD_read 3 waiting _ false (Sentinel net_ErrClosed) H4 P4)).
  - exact (SV_down torn (snd laid) 3 shut (WD_close 3 torn _ H5 P5)).
  - exact (SV_down shut (snd laid) 3 left_ (WD_leave 3 shut _ 1003 H6 P6)).
  - exact (SV_down left_ (snd laid) 3 done_ (WD_done 3 left_ _ H7 P7)).
Qed.

Lemma closed_reached : rtc server_step (fresh, after1) (sv_set_closing Closed done_, snd laid).
Proof.
  destruct steps_down as (S1 & S2 & S3 & S4).
  etrans; [exact waiting_reached|]. exact ((rtc_l _ _ _ _ S1 (rtc_l _ _ _ _ S2 (rtc_l _ _ _ _ S3 (rtc_l _ _ _ _ S4
    (rtc_once _ _ (SV_closed done_ (snd laid) _ done_over))))))).
Qed.

Lemma start_accepting : sv_loop fresh = Accepting 0.
Proof. reflexivity. Qed.

End ServerDemo.

Import ToySuite SetupDemo RelayDemo ServerDemo.

Lemma close_releases_witness : sv_closing (sv_set_closing Closed done_) = Closed /\ rl_hops (sv_relay (sv_set_closing Closed done_)) = 0.
Proof.
  split; [reflexivity|]. destruct (close_releases fresh after1 _ _ fresh_is closed_reached) as [_ H].
  destruct (H eq_refl _ _ (rtc_refl _ _)) as (_ & _ & _ & Hh). exact Hh.
Defined.


Lemma serve_ends_witness : sv_loop fresh = Accepting 0 /\
  sv_loop (serve_accept (AcceptErr (Some true) (Other "too many open files")) 0 0 fresh) = Pausing (5 * Millisecond).
Proof.
  split; [reflexivity|]. destruct (serve_ends fresh after1 fresh after1 0 fresh_is (rtc_refl _ _)) as [_ H].
  destruct (H start_accepting) as [He _]. destruct (He (Some true) (Other "too many open files") 0) as (_ & E & _). exact E.
Defined.
