(* ===== verification/Peers.v ===== *)
(** * Peers: the descriptors of the other nodes a node keeps

    Models [peerCache] of [src/cmd/relay/peers.go] and [servedFrom] of
    [src/cmd/relay/admin.go].  A node asks each roster peer for its bundle,
    checks it under the roster's anchor, and serves the bundles it holds as one
    mirror.  A reading of the clock is an argument, in nanoseconds of the wall
    clock, and so is what a fetch brought and what the node serves of itself; the
    lock is left out and each critical section is one step.  Log lines are left
    out, the classes of failure they print are kept. *)

From Stdlib Require Import Strings.Byte Strings.String.
From stdpp Require Import relations.
From S2P Require Import Prelude Effects Crypto Toy Text Json Addr Cert Setup Pki Roster Fetch.

Definition peerRetry : Z := 5 * Second.
Definition maxCheckEvery : Z := Minute.
Definition maxInt64 : Z := 2 ^ 63 - 1.

(** ** What a bundle says of its own end *)

Record served : Type := {
  sv_bundle : bytes;
  sv_notAfter : Z;
  sv_published : Z;
  sv_expires : Z
}.

Section Served.
Context {P : CryptoProvider}.

Definition servedFrom (b : bytes) : res served :=
  let? bundle := ParseBundle b in
  let? c := ParseCert (bu_Cert bundle) in
  let? d := ParseDescriptor (bu_Descriptor bundle) in
  Ok {| sv_bundle := b; sv_notAfter := ct_NotAfter c; sv_published := de_Published d; sv_expires := de_Expires d |}.

End Served.

(** ** Failures *)

Definition pkiFailures : list sentinel :=
  [pki_ErrFormat; pki_ErrVersion; pki_ErrSuite; pki_ErrUnknownCA; pki_ErrCertSignature; pki_ErrCertTime;
   pki_ErrWrongAddr; pki_ErrCertMismatch; pki_ErrDescSignature; pki_ErrDescTime; pki_ErrKeySize; pki_ErrDuplicate].

Inductive class : Type :=
| ClassStatus (code : Z)
| ClassTooLarge
| ClassKnown (s : sentinel)
| ClassOther (text : string).

#[export] Instance class_eq_decision : EqDecision class.
Proof. solve_decision. Defined.

Definition failureClass (err : fetchError) (otherwise : string) : class :=
  match err with
  | StatusError code _ => ClassStatus code
  | TooLarge => ClassTooLarge
  | FetchOther e =>
      match List.find (errors_is e) pkiFailures with
      | Some known => ClassKnown known
      | None => ClassOther otherwise
      end
  end.

(** ** The cache *)

Record peerEntry : Type := {
  pe_bundle : bytes;
  pe_linkPub : bytes;
  pe_due : Z;
  pe_expires : Z
}.

Record mirror : Type := { mi_body : bytes; mi_until : Z }.

(** [verifiedPeer] under an anchor, or [unverifiedPeer]. *)
Inductive reader : Type := ByAnchor (a : Anchor) | WithoutAuth.

Record peerCache : Type := {
  pc_self : bytes;
  pc_addrs : list bytes;
  pc_read : reader;
  pc_retry : Z;
  pc_entries : gmap bytes peerEntry;
  pc_failed : gmap bytes class;
  pc_mirror : option mirror
}.

Definition with_entries (es : gmap bytes peerEntry) (f : gmap bytes class) (c : peerCache) : peerCache :=
  {| pc_self := pc_self c; pc_addrs := pc_addrs c; pc_read := pc_read c; pc_retry := pc_retry c;
     pc_entries := es; pc_failed := f; pc_mirror := pc_mirror c |}.

Definition with_mirror (m : option mirror) (c : peerCache) : peerCache :=
  {| pc_self := pc_self c; pc_addrs := pc_addrs c; pc_read := pc_read c; pc_retry := pc_retry c;
     pc_entries := pc_entries c; pc_failed := pc_failed c; pc_mirror := m |}.

Definition newPeerCache (self : bytes) (retry : Z) (addrs : list bytes) (read : reader) : peerCache :=
  {| pc_self := self; pc_addrs := addrs; pc_read := read;
     pc_retry := if retry <=? 0 then peerRetry else retry;
     pc_entries := ∅; pc_failed := ∅; pc_mirror := None |}.

(** An entry that has not run out at second [now]. *)
Definition live_entry (c : peerCache) (addr : bytes) (now : Z) : option peerEntry :=
  match pc_entries c !! addr with
  | Some e => if pe_expires e <=? now then None else Some e
  | None => None
  end.

Section Cache.
Context {P : CryptoProvider}.

Definition peer_policy (a : Anchor) : Policy := {| po_Anchor := a; po_Skew := Skew; po_MaxLife := 0 |}.

Definition verifiedPeer (a : Anchor) (addr bundle : bytes) (now : Z) : M peerEntry :=
  let! v := Verify (peer_policy a) addr bundle now in
  let! s := lift (servedFrom bundle) in
  retM {| pe_bundle := bundle; pe_linkPub := ve_LinkPub v;
          pe_due := sv_published s + Z.quot (sv_expires s - sv_published s) 2; pe_expires := sv_expires s |}.

Definition unverifiedPeer (addr bundle : bytes) (now : Z) : M peerEntry :=
  let! nodes := Unverified [addr] [bundle] in
  match nodes with
  | v :: _ => retM {| pe_bundle := bundle; pe_linkPub := ve_LinkPub v;
                      pe_due := Unix (now + maxCheckEvery); pe_expires := maxInt64 |}
  | [] => failM (Other "index out of range")
  end.

Definition read_peer (r : reader) : bytes -> bytes -> Z -> M peerEntry :=
  match r with
  | ByAnchor a => verifiedPeer a
  | WithoutAuth => unverifiedPeer
  end.

(** Whether a peer is asked at second [now]: it is missing, due or run out. *)
Definition asks (c : peerCache) (addr : bytes) (now : Z) : bool :=
  match pc_entries c !! addr with
  | Some e => pe_due e <=? now
  | None => true
  end.

(** The class of a failure is noted once; the entry held so far stays. *)
Definition note_failure (addr : bytes) (cause : class) (c : peerCache) : peerCache :=
  if bool_decide (pc_failed c !! addr = Some cause) then c
  else with_entries (pc_entries c) (<[addr := cause]> (pc_failed c)) c.

(** One turn of the loop of [refresh], with what the fetch brings if the peer is asked. *)
Definition refresh_peer (addr : bytes) (now : Z) (answer : result fetchError bytes) (c : peerCache) (w : World)
    : peerCache * World :=
  if negb (asks c addr (Unix now)) then (c, w)
  else
    match answer with
    | Err e => (note_failure addr (failureClass e "no answer") c, w)
    | Ok bundle =>
        match read_peer (pc_read c) addr bundle now w with
        | (Err e, w') => (note_failure addr (failureClass (FetchOther e) "not verified") c, w')
        | (Ok fresh, w') => (with_entries (<[addr := fresh]> (pc_entries c)) (delete addr (pc_failed c)) c, w')
        end
    end.

(** The entries of the mirror and the second its first bundle runs out. *)
Fixpoint mirrored (c : peerCache) (now : Z) (addrs : list bytes) (until : Z) : list MirrorEntry * Z :=
  match addrs with
  | [] => ([], until)
  | addr :: rest =>
      match live_entry c addr now with
      | None => mirrored c now rest until
      | Some e =>
          let '(es, u) := mirrored c now rest (Z.min until (pe_expires e)) in
          ({| me_Addr := addr; me_Bundle := pe_bundle e |} :: es, u)
      end
  end.

(** [own] is what [node.current] gives: the node's bundle and the second it runs out. *)
Definition publish (own : option (bytes * Z)) (now : Z) (c : peerCache) : peerCache :=
  match own with
  | None => with_mirror None c
  | Some (own, until) =>
      let '(es, u) := mirrored c (Unix now) (pc_addrs c) until in
      match MarshalMirror ({| me_Addr := pc_self c; me_Bundle := own |} :: es) with
      | Err _ => with_mirror None c
      | Ok body => with_mirror (Some {| mi_body := body; mi_until := u |}) c
      end
  end.

(** The loop over the peers, each with its reading of the clock and its answer. *)
Fixpoint refresh_from (addrs : list bytes) (asked : list (Z * result fetchError bytes)) (c : peerCache) (w : World)
    : peerCache * World :=
  match addrs, asked with
  | addr :: addrs', (now, answer) :: asked' =>
      let '(c', w') := refresh_peer addr now answer c w in refresh_from addrs' asked' c' w'
  | _, _ => (c, w)
  end.

Definition held (c : peerCache) (now : Z) : nat :=
  size (filter (fun kv => Unix now < pe_expires (snd kv)) (pc_entries c)).

(** [refresh]: whether every peer is held afterwards, at the reading [t]. *)
Definition refresh (asked : list (Z * result fetchError bytes)) (own : option (bytes * Z)) (tp t : Z)
    (c : peerCache) (w : World) : (bool * peerCache) * World :=
  let '(c1, w') := refresh_from (pc_addrs c) asked c w in
  let c2 := publish own tp c1 in
  (((held c2 t =? length (pc_addrs c2))%nat, c2), w').

(** Nanoseconds until the next refresh; [wait] so far in the loop. *)
Fixpoint wait_from (c : peerCache) (now : Z) (addrs : list bytes) (wait : Z) : Z :=
  match addrs with
  | [] => Z.max wait (pc_retry c)
  | addr :: rest =>
      match live_entry c addr now with
      | None => pc_retry c
      | Some e =>
          if pe_due e <=? now then pc_retry c
          else
            let left := pe_due e - now in
            wait_from c now rest (if left <? Z.quot wait Second then i64 (left * Second) else wait)
      end
  end.

Definition wait (c : peerCache) (now : Z) : Z := wait_from c (Unix now) (pc_addrs c) maxCheckEvery.

Definition linkKey (c : peerCache) (addr : bytes) (now : Z) : option bytes :=
  option_map pe_linkPub (live_entry c addr (Unix now)).

(** [descriptors]: the readings before, in and after a [publish] it may do. *)
Definition descriptors (own : option (bytes * Z)) (t0 tp t1 : Z) (c : peerCache) : option bytes * peerCache :=
  let c' := match pc_mirror c with
            | Some m => if mi_until m <=? Unix t0 then publish own tp c else c
            | None => c
            end in
  (match pc_mirror c' with
   | None => None
   | Some m => if mi_until m <=? Unix t1 then None else Some (mi_body m)
   end, c').

End Cache.

(** ** What the mirror holds *)

Section MirrorFacts.
Context {P : CryptoProvider}.

Lemma live_entry_some c addr now e :
  live_entry c addr now = Some e <-> pc_entries c !! addr = Some e /\ now < pe_expires e.
Proof.
  unfold live_entry. destruct (pc_entries c !! addr) as [e'|]; [|split; [done | by intros [? _]]].
  destruct (Z.leb_spec (pe_expires e') now); split; try done.
  - intros [[= <-] ?]. lia.
  - by intros [= <-].
  - by intros [[= <-] _].
Qed.

(** The live peers in their order, and the earliest end. *)
Lemma mirrored_spec c now addrs until es u : mirrored c now addrs until = (es, u) ->
  es = omap (fun a => option_map (fun e => {| me_Addr := a; me_Bundle := pe_bundle e |}) (live_entry c a now)) addrs /\
  u <= until /\ (forall a e, a ∈ addrs -> live_entry c a now = Some e -> u <= pe_expires e) /\
  (u = until \/ exists a e, a ∈ addrs /\ live_entry c a now = Some e /\ u = pe_expires e).
Proof.
  revert until es. induction addrs as [|a addrs IH]; intros until es; cbn [mirrored omap list_omap].
  - intros [= <- <-]. split_and!; try done; [by intros a e ?%elem_of_nil | by left].
  - destruct (live_entry c a now) as [e|] eqn:E.
    + destruct (mirrored c now addrs (Z.min until (pe_expires e))) as [es' u'] eqn:Em. intros [= <- <-].
      apply IH in Em as (-> & H1 & H2 & H3). split_and!; [done | lia | |].
      * intros b e' [->|Hb]%elem_of_cons He'; [rewrite E in He'; injection He' as <-; lia | eauto].
      * destruct H3 as [->|(b & e' & Hb & He' & ->)].
        -- destruct (Z.min_spec until (pe_expires e)) as [[_ ->]|[_ ->]]; [by left|].
           right. exists a, e. split_and!; [by left | done | done].
        -- right. exists b, e'. split_and!; [by right | done | done].
    + intros (-> & H1 & H2 & H3)%IH. split_and!; [done | done | |].
      * intros b e' [->|Hb]%elem_of_cons He'; [congruence | eauto].
      * destruct H3 as [->|(b & e' & Hb & He' & ->)]; [by left|]. right. exists b, e'.
        split_and!; [by right | done | done].
Qed.

Lemma mirrored_elem c now addrs until es u it : mirrored c now addrs until = (es, u) ->
  it ∈ es <-> me_Addr it ∈ addrs /\ exists e, live_entry c (me_Addr it) now = Some e /\ me_Bundle it = pe_bundle e.
Proof.
  intros (-> & _)%mirrored_spec. rewrite list_elem_of_omap. split.
  - intros (a & Ha & H). destruct (live_entry c a now) as [e|] eqn:E; [|discriminate]. injection H as <-.
    split; [done|]. by exists e.
  - intros (Ha & e & He & Hb). exists (me_Addr it). split; [done|]. rewrite He. cbn. rewrite <- Hb. by destruct it.
Qed.

Lemma mirrored_addrs c now addrs until es u : mirrored c now addrs until = (es, u) ->
  map me_Addr es `sublist_of` addrs.
Proof.
  intros (-> & _)%mirrored_spec. induction addrs as [|a addrs IH]; cbn; [constructor|].
  destruct (live_entry c a now); cbn; by constructor.
Qed.

Lemma publish_some own until now c m : pc_mirror (publish (Some (own, until)) now c) = Some m ->
  exists es u, mirrored c (Unix now) (pc_addrs c) until = (es, u) /\
    MarshalMirror ({| me_Addr := pc_self c; me_Bundle := own |} :: es) = Ok (mi_body m) /\ mi_until m = u.
Proof.
  unfold publish. destruct (mirrored _ _ _ _) as [es u]. destruct (MarshalMirror _) as [body|] eqn:E; [|done].
  cbn. intros [= <-]. by exists es, u.
Qed.

Lemma publish_fixed own now c :
  pc_self (publish own now c) = pc_self c /\ pc_addrs (publish own now c) = pc_addrs c /\
  pc_read (publish own now c) = pc_read c /\ pc_retry (publish own now c) = pc_retry c /\
  pc_entries (publish own now c) = pc_entries c /\ pc_failed (publish own now c) = pc_failed c.
Proof.
  unfold publish. destruct own as [[b u]|]; [|done]. destruct (mirrored _ _ _ _). by destruct (MarshalMirror _).
Qed.

Lemma note_failure_spec addr cause c :
  exists f, note_failure addr cause c = with_entries (pc_entries c) f c /\ f !! addr = Some cause /\
    forall a, a <> addr -> f !! a = pc_failed c !! a.
Proof.
  unfold note_failure. case_bool_decide as E.
  - exists (pc_failed c). split_and!; [by destruct c | done | done].
  - eexists. split; [done|]. split; [by rewrite lookup_insert_eq|]. intros a Ha. by rewrite lookup_insert_ne.
Qed.

(** What [refresh_peer] leaves as it is, and what it may put in the cache. *)
Lemma refresh_peer_cases addr now answer c w c' w' : refresh_peer addr now answer c w = (c', w') ->
  (asks c addr (Unix now) = false /\ c' = c /\ w' = w) \/
  (asks c addr (Unix now) = true /\ exists cause, c' = note_failure addr cause c) \/
  (asks c addr (Unix now) = true /\ exists bundle fresh, answer = Ok bundle /\
     read_peer (pc_read c) addr bundle now w = (Ok fresh, w') /\
     c' = with_entries (<[addr := fresh]> (pc_entries c)) (delete addr (pc_failed c)) c).
Proof.
  unfold refresh_peer. destruct (asks c addr (Unix now)); cbn [negb]; [|intros [= <- <-]; by left].
  destruct answer as [bundle|e]; [|intros [= <- <-]; right; left; eauto].
  destruct (read_peer (pc_read c) addr bundle now w) as [[fresh|e] w1] eqn:E; intros [= <- <-]; right;
    [right; eauto 6 | left; eauto].
Qed.

End MirrorFacts.

(** ** Runs of the cache *)

Section Runs.
Context `{CL : CryptoLaws}.

(** The bundle [e] holds passed under the anchor, for this address, at some time. *)
Definition authentic (a : Anchor) (addr : bytes) (e : peerEntry) : Prop :=
  exists t b c d, ParseBundle (pe_bundle e) = Ok b /\ bu_Cert b = Cert_Marshal c /\ bu_Descriptor b = Descriptor_Marshal d /\
    cert_accepted (peer_policy a) addr t Skew c /\
    descriptor_accepted (peer_policy a) c (Cert_Marshal c) t Skew d /\ sizes_right d /\
    pe_linkPub e = de_LinkPub d /\ pe_expires e = de_Expires d /\ de_Published d <= pe_due e <= de_Expires d.

Definition entry_checked (r : reader) (addr : bytes) (e : peerEntry) : Prop :=
  exists t w w', sizes_sound w /\ read_peer r addr (pe_bundle e) t w = (Ok e, w').

Lemma servedFrom_ok b s : servedFrom b = Ok s -> exists bu c d,
  ParseBundle b = Ok bu /\ ParseCert (bu_Cert bu) = Ok c /\ ParseDescriptor (bu_Descriptor bu) = Ok d /\
  s = {| sv_bundle := b; sv_notAfter := ct_NotAfter c; sv_published := de_Published d; sv_expires := de_Expires d |}.
Proof.
  intros (bu & H1 & (c & H2 & (d & H3 & [= <-])%rbind_ok)%rbind_ok)%rbind_ok. eauto 10.
Qed.

Lemma read_peer_bundle r addr bundle now w e w' : read_peer r addr bundle now w = (Ok e, w') -> pe_bundle e = bundle.
Proof.
  destruct r as [a|]; cbn [read_peer].
  - intros (v & w1 & _ & (s & w2 & _ & [-> _]%retM_ok)%bindM_ok)%bindM_ok. done.
  - intros (vs & w1 & _ & H)%bindM_ok. destruct vs as [|v vs]; [discriminate|]. by apply retM_ok in H as [-> _].
Qed.

Lemma checked_authentic a addr e : entry_checked (ByAnchor a) addr e -> authentic a addr e.
Proof.
  intros (t & w & w' & Hw & H). cbn [read_peer] in H.
  apply bindM_ok in H as (v & w1 & Hv & H). apply bindM_ok in H as (s & w2 & [Hs ->]%lift_ok & [He ->]%retM_ok).
  apply Verify_ok in Hv as (_ & b & c & d & Hb & _ & _ & Hc & Hd & Hca & Hda & Hsz & ->); [|done].
  apply servedFrom_ok in Hs as (b' & c' & d' & Hpb & Hpc & Hpd & ->). rewrite Hb in Hpb. apply ok_inj in Hpb as <-.
  rewrite Hc in Hda. rewrite Hd in Hpd. rewrite (proj2 (ParseDescriptor_spec _ d)) in Hpd by (split; [apply Hda | done]).
  apply ok_inj in Hpd as <-. exists t, b, c, d. rewrite He. cbn [pe_linkPub pe_expires pe_due pe_bundle sv_expires sv_published].
  change (Z.max (po_Skew (peer_policy a)) 0) with Skew in *.
  split_and!; try done; destruct Hda as (_ & _ & _ & _ & Hwin & _).
  - rewrite Z.quot_div_nonneg by lia. pose proof (Z.div_pos (de_Expires d - de_Published d) 2). lia.
  - rewrite Z.quot_div_nonneg by lia. pose proof (Z.div_le_upper_bound (de_Expires d - de_Published d) 2 (de_Expires d - de_Published d)). lia.
Qed.

(** What the node itself may be serving, and until when. *)
Variable Own : bytes -> Z -> Prop.

Definition own_ok (own : option (bytes * Z)) : Prop := forall b u, own = Some (b, u) -> Own b u.

Inductive pc_step : peerCache -> peerCache -> Prop :=
| pc_refresh addr now answer c w c' w' :
    addr ∈ pc_addrs c -> sizes_sound w -> refresh_peer addr now answer c w = (c', w') -> pc_step c c'
| pc_publish own now c : own_ok own -> pc_step c (publish own now c).

(** An item of a mirror that lasts until [until]. *)
Definition item_good (c : peerCache) (until : Z) (it : MirrorEntry) : Prop :=
  (me_Addr it = pc_self c /\ exists u, Own (me_Bundle it) u /\ until <= u) \/
  (me_Addr it ∈ pc_addrs c /\ exists e, me_Bundle it = pe_bundle e /\
     entry_checked (pc_read c) (me_Addr it) e /\ until <= pe_expires e).

Record pc_inv (c : peerCache) : Prop := {
  pi_entry addr e : pc_entries c !! addr = Some e -> addr ∈ pc_addrs c /\ entry_checked (pc_read c) addr e;
  pi_mirror m : pc_mirror c = Some m ->
    exists es, mi_body m = mirror_json es /\ mirror_ok es /\ Forall (item_good c (mi_until m)) es
}.

Lemma publish_inv own now c : own_ok own -> pc_inv c -> pc_inv (publish own now c).
Proof.
  intros Ho [H1 H2]. pose proof (publish_fixed own now c) as (E1 & E2 & E3 & _ & E5 & _). split.
  - intros addr e. rewrite E2, E3, E5. apply H1.
  - intros m Hm. unfold item_good. rewrite E1, E2, E3. destruct own as [[b u]|]; [|done].
    apply publish_some in Hm as (es & u' & Hm & Hmar & Hu). apply MarshalMirror_ok in Hmar as (es' & Hp & Hok & Hb).
    exists es'. split; [done|]. split; [done|]. rewrite Hp.
    pose proof (mirrored_spec _ _ _ _ _ _ Hm) as (_ & Hle & Hmin & _). constructor.
    + left. split; [done|]. exists u. split; [by apply Ho | lia].
    + apply Forall_forall. intros it Hin. right. apply (mirrored_elem _ _ _ _ _ _ it Hm) in Hin as (Ha & e & He & Hbe).
      pose proof (Hmin _ _ Ha He). apply live_entry_some in He as [He _]. split; [done|]. exists e.
      split_and!; [done | by apply H1 | lia].
Qed.

Lemma pc_step_fixed c c' : pc_step c c' ->
  pc_self c' = pc_self c /\ pc_addrs c' = pc_addrs c /\ pc_read c' = pc_read c /\ pc_retry c' = pc_retry c.
Proof.
  intros H. destruct H as [addr now answer c w c' w' _ _ H|own now c _]; [|pose proof (publish_fixed own now c); tauto].
  apply refresh_peer_cases in H as [(_ & -> & _)|[(_ & cause & ->)|(_ & b & f & _ & _ & ->)]]; try done.
  by destruct (note_failure_spec addr cause c) as (f & -> & _).
Qed.

Lemma pc_step_inv c c' : pc_inv c -> pc_step c c' -> pc_inv c'.
Proof.
  intros Hi H. destruct H as [addr now answer c w c' w' Ha Hw H|own now c Ho]; [|by apply publish_inv].
  destruct Hi as [H1 H2].
  apply refresh_peer_cases in H as [(_ & -> & _)|[(_ & cause & ->)|(_ & b & f & _ & Hr & ->)]]; [done| |].
  - destruct (note_failure_spec addr cause c) as (f & -> & _). by split.
  - split; [|done]. cbn [with_entries pc_entries pc_addrs pc_read]. intros addr' e.
    destruct (decide (addr' = addr)) as [->|Hne]; [|rewrite lookup_insert_ne by done; apply H1].
    rewrite lookup_insert_eq. intros [= <-]. split; [done|]. exists now, w, w'. split; [done|].
    by rewrite (read_peer_bundle _ _ _ _ _ _ _ Hr).
Qed.

Lemma pc_steps c c' : pc_inv c -> rtc pc_step c c' ->
  pc_inv c' /\ pc_self c' = pc_self c /\ pc_addrs c' = pc_addrs c /\ pc_read c' = pc_read c /\ pc_retry c' = pc_retry c.
Proof.
  intros Hi H. induction H as [|x y z Hs _ IH]; [done|].
  pose proof (pc_step_fixed _ _ Hs) as (<- & <- & <- & <-). apply IH. by eapply pc_step_inv.
Qed.

Lemma new_cache_inv self retry addrs r : pc_inv (newPeerCache self retry addrs r).
Proof. split; [intros addr e; cbn; by rewrite lookup_empty | done]. Qed.

End Runs.

(** ** What a node takes from its peers and hands on *)

Section Claims.
Context `{CL : CryptoLaws}.
Variable Own : bytes -> Z -> Prop.

(** The link key handed out comes from a bundle checked under the anchor. *)
Lemma inv_linkKey c a addr t k : pc_inv Own c -> pc_read c = ByAnchor a -> linkKey c addr t = Some k ->
  addr ∈ pc_addrs c /\ exists e, authentic a addr e /\ k = pe_linkPub e /\ Unix t < pe_expires e.
Proof.
  intros Hi Hr. unfold linkKey. destruct (live_entry c addr (Unix t)) as [e|] eqn:E; [|done]. intros [= <-].
  apply live_entry_some in E as [He Hl]. apply (pi_entry _ _ Hi) in He as [Ha Hc]. rewrite Hr in Hc.
  split; [done|]. exists e. by apply checked_authentic in Hc.
Qed.

(** What [descriptors] answers at a moment [t1] has not run out by then. *)
Lemma inv_descriptors c a own t0 tp t1 body c' : pc_inv Own c -> pc_read c = ByAnchor a -> own_ok Own own ->
  descriptors own t0 tp t1 c = (Some body, c') ->
  exists es, body = mirror_json es /\ mirror_ok es /\
    Forall (fun it => (me_Addr it = pc_self c /\ exists u, Own (me_Bundle it) u /\ Unix t1 < u) \/
      (me_Addr it ∈ pc_addrs c /\ exists e, authentic a (me_Addr it) e /\ me_Bundle it = pe_bundle e /\
         Unix t1 < pe_expires e)) es.
Proof.
  intros Hi Hr Ho. unfold descriptors.
  match goal with |- (match pc_mirror ?x with _ => _ end, _) = _ -> _ => set (c1 := x) end.
  assert (Hc1 : pc_inv Own c1 /\ pc_self c1 = pc_self c /\ pc_addrs c1 = pc_addrs c /\ pc_read c1 = pc_read c).
  { unfold c1. destruct (pc_mirror c) as [m|]; [|done]. destruct (_ <=? _); [|done].
    pose proof (publish_fixed own tp c) as (-> & -> & -> & _). split; [by apply publish_inv | done]. }
  destruct Hc1 as (Hi1 & S1 & S2 & S3). destruct (pc_mirror c1) as [m|] eqn:Em; [|done].
  destruct (Z.leb_spec (mi_until m) (Unix t1)) as [|Hu]; [done|]. intros [= <- <-].
  apply (pi_mirror _ _ Hi1) in Em as (es & -> & Hok & Hes). exists es. split; [done|]. split; [done|].
  eapply Forall_impl; [exact Hes|]. intros it [(Hs & u & HO & Hle)|(Ha & e & He & Hc & Hle)].
  - left. split; [congruence|]. exists u. split; [done | lia].
  - right. rewrite S2 in Ha. rewrite S3, Hr in Hc. split; [done|]. exists e.
    split_and!; [by apply checked_authentic | done | lia].
Qed.

Lemma checked_parses r addr e : entry_checked r addr e -> exists b, ParseBundle (pe_bundle e) = Ok b.
Proof.
  intros (t & w & w' & Hw & H). destruct r as [a|]; cbn [read_peer] in H.
  - destruct (checked_authentic a addr e) as (_ & b & _ & _ & Hb & _); [by exists t, w, w'|]. by exists b.
  - apply bindM_ok in H as (vs & w1 & Hv & _). unfold Unverified, eachNode in Hv. cbn [length Nat.eqb negb] in Hv.
    apply bindM_ok in Hv as (ns & w2 & Hr & _). cbn [read_nodes] in Hr.
    apply bindM_ok in Hr as (v & w3 & Hr & _). apply mwrap_ok in Hr. unfold read_unverified in Hr.
    apply bindM_ok in Hr as (b & w4 & [Hb _]%lift_ok & _). by exists b.
Qed.

(** A peer that fails withholds nothing but its own descriptor: with a bundle
    of its own in service and valid, different addresses, the node always has a
    mirror, which holds its own bundle and exactly the bundles of the peers it
    holds that have not run out, and which lasts until the first of them runs out.
    And a peer that gives no answer, or one that does not verify, costs no entry:
    what the node held of it before and of the others stays. *)
Theorem mirror_complete c b u now :
  pc_inv Own c -> NoDup (pc_self c :: pc_addrs c) -> forallb ValidAddr (pc_self c :: pc_addrs c) = true ->
  is_ok (ParseBundle b) = true ->
  (exists es m, pc_mirror (publish (Some (b, u)) now c) = Some m /\ mi_body m = mirror_json es /\ mirror_ok es /\
     (forall it, it ∈ es <-> it = {| me_Addr := pc_self c; me_Bundle := b |} \/
        me_Addr it ∈ pc_addrs c /\ exists e, live_entry c (me_Addr it) (Unix now) = Some e /\ me_Bundle it = pe_bundle e) /\
     (mi_until m <= u /\ forall a e, a ∈ pc_addrs c -> live_entry c a (Unix now) = Some e -> mi_until m <= pe_expires e) /\
     (mi_until m = u \/ exists a e, a ∈ pc_addrs c /\ live_entry c a (Unix now) = Some e /\ mi_until m = pe_expires e)) /\
  (forall addr t answer w c' w', refresh_peer addr t answer c w = (c', w') ->
     (pc_entries c' = pc_entries c) \/ exists bundle fresh, answer = Ok bundle /\
        read_peer (pc_read c) addr bundle t w = (Ok fresh, w') /\ pc_entries c' = <[addr := fresh]> (pc_entries c)).
Proof.
  intros Hi Hnd Hv Hb. split.
  - destruct (mirrored c (Unix now) (pc_addrs c) u) as [es u'] eqn:Em.
    pose proof (mirrored_spec _ _ _ _ _ _ Em) as (_ & Hle & Hmin & Hex).
    destruct (MarshalMirror_total ({| me_Addr := pc_self c; me_Bundle := b |} :: es)) as [body Hm].
    + done.
    + cbn [map me_Addr]. eapply sublist_NoDup; [exact Hnd|]. constructor. by eapply mirrored_addrs.
    + cbn in Hv. apply andb_true_iff in Hv as [Hv1 Hv2]. constructor.
      * split; [done|]. cbn. destruct (ParseBundle b) as [x|]; [by exists x | done].
      * apply Forall_forall. intros it Hin. apply (mirrored_elem _ _ _ _ _ _ it Em) in Hin as (Ha & e & He & Hbe).
        split; [by apply (proj1 (forallb_forall _ _) Hv2), list_elem_of_In|]. rewrite Hbe.
        apply live_entry_some in He as [He _]. apply (pi_entry _ _ Hi) in He as [_ He]. by eapply checked_parses.
    + pose proof Hm as (es' & Hp & Hok & Hbody)%MarshalMirror_ok. exists es'. eexists. unfold publish. rewrite Em, Hm.
      split; [done|]. cbn [mi_body mi_until]. split_and!; try done. intros it.
      rewrite Hp, elem_of_cons. by rewrite (mirrored_elem _ _ _ _ _ _ it Em).
  - intros addr t answer w c' w' H. apply refresh_peer_cases in H as [(_ & -> & _)|[(_ & cause & ->)|(_ & bd & f & -> & Hr & ->)]].
    + by left.
    + left. by destruct (note_failure_spec addr cause c) as (f & -> & _).
    + right. by exists bd, f.
Qed.

End Claims.

(** ** The pause between refreshes *)

Lemma wait_from_spec c now addrs w :
  0 <= w <= maxCheckEvery -> w mod Second = 0 ->
  ((exists addr, addr ∈ addrs /\ match live_entry c addr now with Some e => pe_due e <= now | None => True end) /\
     wait_from c now addrs w = pc_retry c) \/
  (exists w', wait_from c now addrs w = Z.max w' (pc_retry c) /\ 0 <= w' <= w /\
     forall addr, addr ∈ addrs -> exists e, live_entry c addr now = Some e /\ now < pe_due e /\ w' <= (pe_due e - now) * Second).
Proof.
  revert w. induction addrs as [|a addrs IH]; intros w Hw Hm; cbn [wait_from].
  - right. exists w. split; [done|]. split; [lia|]. by intros addr ?%elem_of_nil.
  - destruct (live_entry c a now) as [e|] eqn:E.
    2: { left. split; [|done]. exists a. split; [by left | by rewrite E]. }
    destruct (Z.leb_spec (pe_due e) now) as [Hd|Hd].
    { left. split; [|done]. exists a. split; [by left | by rewrite E]. }
    set (left_ := pe_due e - now). assert (Hq : Z.quot w Second = w / Second) by (apply Z.quot_div_nonneg; [lia | done]).
    assert (Hws : w = Second * (w / Second)) by (pose proof (Z.div_mod w Second ltac:(done)); lia).
    rewrite Hq. set (w1 := if left_ <? w / Second then i64 (left_ * Second) else w).
    assert (Hw1 : 0 <= w1 <= w /\ w1 mod Second = 0 /\ w1 <= left_ * Second).
    { unfold w1. destruct (Z.ltb_spec left_ (w / Second)).
      - assert (left_ * Second <= w) by (rewrite Hws; unfold Second in *; lia).
        assert (i64 (left_ * Second) = left_ * Second) as ->.
        { unfold i64. rewrite Z.mod_small; [lia|]. unfold maxCheckEvery, Minute, Second, left_ in *. lia. }
        split_and!; [unfold left_, Second; lia | lia | apply Z.mod_mul; done | lia].
      - split_and!; [lia | lia | done |]. rewrite Hws. unfold Second in *. lia. }
    destruct Hw1 as (Hr & Hmod & Hle). destruct (IH w1) as [((b & Hb & Hx) & ->)|(w' & -> & Hr' & Hall)]; [lia | done | |].
    + left. split; [|done]. exists b. split; [by right | done].
    + right. exists w'. split; [done|]. split; [lia|]. intros addr [->|Hin]%elem_of_cons.
      * exists e. split; [done|]. split; [done|]. lia.
      * by apply Hall.
Qed.

(** A node never asks its peers without a pause and never forgets one: the
    time to the next refresh is at least the retry pause and at most a minute
    (or that pause); it is the retry pause while a peer is missing, has run out or
    is due; and otherwise no peer falls due before it, the retry pause apart. *)
Theorem peer_wait c now :
  0 < pc_retry c ->
  pc_retry c <= wait c now <= Z.max (pc_retry c) maxCheckEvery /\
  ((exists addr, addr ∈ pc_addrs c /\ (live_entry c addr (Unix now) = None \/ asks c addr (Unix now) = true)) ->
     wait c now = pc_retry c) /\
  (wait c now = pc_retry c \/ forall addr, addr ∈ pc_addrs c ->
     exists e, live_entry c addr (Unix now) = Some e /\ Unix now < pe_due e /\ Unix (now + wait c now) <= pe_due e).
Proof.
  intros Hp. unfold wait.
  destruct (wait_from_spec c (Unix now) (pc_addrs c) maxCheckEvery) as [(_ & ->)|(w & -> & Hw & Hall)]; [done | done | |].
  { split; [lia|]. split; [done | by left]. }
  split; [lia|]. split.
  - intros (addr & Ha & H). destruct (Hall addr Ha) as (e & He & Hd & _). exfalso. destruct H as [H|H]; [congruence|].
    unfold asks in H. apply live_entry_some in He as [He _]. rewrite He in H. apply Z.leb_le in H. lia.
  - destruct (Z.leb_spec w (pc_retry c)); [left; lia|]. right. intros addr Ha.
    destruct (Hall addr Ha) as (e & He & Hd & Hle). exists e. split; [done|]. split; [done|].
    rewrite Z.max_l by lia. apply Z.lt_succ_r, Z.div_lt_upper_bound; [done|]. unfold Unix in *.
    pose proof (Z.mod_pos_bound now Second ltac:(done)). pose proof (Z.div_mod now Second ltac:(done)). lia.
Qed.

(** ** Witnesses *)

Module PeersDemo.
Import ToySuite PkiDemo.

Definition empty : peerCache := newPeerCache (str "relay-1:9000") 0 [str "relay-2:9000"; str "relay-3:9000"] (ByAnchor anchor).

Lemma bundle_parses : is_ok (ParseBundle (bundle "a")) = true.
Proof. by vm_compute. Qed.

End PeersDemo.

Import ToySuite.

Lemma mirror_complete_witness :
  exists es m, pc_mirror (publish (Some (PkiDemo.bundle "a", 7)) 0 PeersDemo.empty) = Some m /\ mi_body m = mirror_json es.
Proof.
  destruct (mirror_complete (fun _ _ => True) PeersDemo.empty (PkiDemo.bundle "a") 7 0)
    as [(es & m & Hm & Hb & _) _].
  - apply new_cache_inv.
  - apply (bool_decide_unpack _). by vm_compute.
  - by vm_compute.
  - exact PeersDemo.bundle_parses.
  - exists es, m. split; [exact Hm | exact Hb].
Defined.

Lemma peer_wait_witness : peerRetry <= wait PeersDemo.empty 0 <= Minute.
Proof. apply (peer_wait PeersDemo.empty 0). reflexivity. Defined.
