(* ===== verification/Node.v ===== *)
(** * Node: what a relay process publishes about itself, and the life of its onion keys

    Models [src/cmd/relay/admin.go] and [src/cmd/relay/onion.go], [setPeers] and
    [handleRoster] of [src/cmd/relay/peers.go], and the part of [run] in
    [src/cmd/relay/main.go] that makes the node.  A handler is one step, as it
    holds the node's mutex throughout; every reading of the clock it takes is an
    argument, [ts 0], [ts 1] and so on in the order of the code.  A reading holds
    the wall clock and the running time, both in nanoseconds: Go compares and
    subtracts times by the running time and takes [Unix] from the wall.  Left out:
    HTTP itself, log lines, request counters, and the reserve of locked pages;
    whether a new key's memory could be locked is an argument. *)

From Stdlib Require Import Strings.Byte Strings.String.
From stdpp Require Import relations.
From S2P Require Import Prelude Effects Crypto Text Json Addr Cert Replay Setup Pki Identity Roster Fetch Ring Peers.

(** ** Clock readings *)

Record Moment : Type := { wall : Z; run : Z }.

(** [a.Sub(b)] of two readings. *)
Definition since (a b : Moment) : Z := run a - run b.

Record deadline : Type := { dl_wall : Z; dl_run : Z }.

Definition after (now : Moment) (d : Z) : deadline := {| dl_wall := wall now + d; dl_run := run now + d |}.

(** Whichever clock says so first. *)
Definition passed (d : deadline) (now : Moment) : bool := (dl_wall d <=? wall now) || (dl_run d <=? run now).

Inductive certstate : Type := certNone | certValid | certExpired.

#[export] Instance certstate_eq_decision : EqDecision certstate.
Proof. solve_decision. Defined.

(** ** The onion keys of a node that rotates them *)

Record onionKeys : Type := {
  ks_ring : OnionRing;
  ks_every : Z;
  ks_grace : Z;
  ks_lock : bool;
  ks_rotateAt : deadline;
  ks_retireAt : option deadline;
  ks_closed : bool;
  ks_failures : Z
}.

Definition ks_set_ring (v : OnionRing) (o : onionKeys) : onionKeys :=
  {| ks_ring := v; ks_every := ks_every o; ks_grace := ks_grace o; ks_lock := ks_lock o;
     ks_rotateAt := ks_rotateAt o; ks_retireAt := ks_retireAt o; ks_closed := ks_closed o;
     ks_failures := ks_failures o |}.

Definition ks_set_rotateAt (v : deadline) (o : onionKeys) : onionKeys :=
  {| ks_ring := ks_ring o; ks_every := ks_every o; ks_grace := ks_grace o; ks_lock := ks_lock o;
     ks_rotateAt := v; ks_retireAt := ks_retireAt o; ks_closed := ks_closed o;
     ks_failures := ks_failures o |}.

Definition ks_set_retireAt (v : option deadline) (o : onionKeys) : onionKeys :=
  {| ks_ring := ks_ring o; ks_every := ks_every o; ks_grace := ks_grace o; ks_lock := ks_lock o;
     ks_rotateAt := ks_rotateAt o; ks_retireAt := v; ks_closed := ks_closed o;
     ks_failures := ks_failures o |}.

Definition ks_set_closed (v : bool) (o : onionKeys) : onionKeys :=
  {| ks_ring := ks_ring o; ks_every := ks_every o; ks_grace := ks_grace o; ks_lock := ks_lock o;
     ks_rotateAt := ks_rotateAt o; ks_retireAt := ks_retireAt o; ks_closed := v;
     ks_failures := ks_failures o |}.

Definition ks_set_failures (v : Z) (o : onionKeys) : onionKeys :=
  {| ks_ring := ks_ring o; ks_every := ks_every o; ks_grace := ks_grace o; ks_lock := ks_lock o;
     ks_rotateAt := ks_rotateAt o; ks_retireAt := ks_retireAt o; ks_closed := ks_closed o;
     ks_failures := v |}.

(** ** The node *)

Record node : Type := {
  nd_name : bytes;
  nd_addr : bytes;
  nd_id : option Identity;
  nd_unsigned : option bytes;
  nd_ttl : Z;
  nd_peerRetry : Z;
  nd_peers : option peerCache;
  nd_out : option served;
  nd_notAfter : Z;
  nd_requestAt : option Moment;
  nd_installed : option bytes;
  nd_installedAt : Moment;
  nd_roster : option bytes;
  nd_signedState : option certstate;
  nd_link : bytes;
  nd_onion : option onionKeys
}.

Definition nd_set_id (v : option Identity) (n : node) : node :=
  {| nd_name := nd_name n; nd_addr := nd_addr n; nd_id := v; nd_unsigned := nd_unsigned n;
     nd_ttl := nd_ttl n; nd_peerRetry := nd_peerRetry n; nd_peers := nd_peers n; nd_out := nd_out n;
     nd_notAfter := nd_notAfter n; nd_requestAt := nd_requestAt n; nd_installed := nd_installed n;
     nd_installedAt := nd_installedAt n; nd_roster := nd_roster n; nd_signedState := nd_signedState n;
     nd_link := nd_link n; nd_onion := nd_onion n |}.

Definition nd_set_peers (v : option peerCache) (n : node) : node :=
  {| nd_name := nd_name n; nd_addr := nd_addr n; nd_id := nd_id n; nd_unsigned := nd_unsigned n;
     nd_ttl := nd_ttl n; nd_peerRetry := nd_peerRetry n; nd_peers := v; nd_out := nd_out n;
     nd_notAfter := nd_notAfter n; nd_requestAt := nd_requestAt n; nd_installed := nd_installed n;
     nd_installedAt := nd_installedAt n; nd_roster := nd_roster n; nd_signedState := nd_signedState n;
     nd_link := nd_link n; nd_onion := nd_onion n |}.

Definition nd_set_out (v : option served) (n : node) : node :=
  {| nd_name := nd_name n; nd_addr := nd_addr n; nd_id := nd_id n; nd_unsigned := nd_unsigned n;
     nd_ttl := nd_ttl n; nd_peerRetry := nd_peerRetry n; nd_peers := nd_peers n; nd_out := v;
     nd_notAfter := nd_notAfter n; nd_requestAt := nd_requestAt n; nd_installed := nd_installed n;
     nd_installedAt := nd_installedAt n; nd_roster := nd_roster n; nd_signedState := nd_signedState n;
     nd_link := nd_link n; nd_onion := nd_onion n |}.

Definition nd_set_notAfter (v : Z) (n : node) : node :=
  {| nd_name := nd_name n; nd_addr := nd_addr n; nd_id := nd_id n; nd_unsigned := nd_unsigned n;
     nd_ttl := nd_ttl n; nd_peerRetry := nd_peerRetry n; nd_peers := nd_peers n; nd_out := nd_out n;
     nd_notAfter := v; nd_requestAt := nd_requestAt n; nd_installed := nd_installed n;
     nd_installedAt := nd_installedAt n; nd_roster := nd_roster n; nd_signedState := nd_signedState n;
     nd_link := nd_link n; nd_onion := nd_onion n |}.

Definition nd_set_requestAt (v : option Moment) (n : node) : node :=
  {| nd_name := nd_name n; nd_addr := nd_addr n; nd_id := nd_id n; nd_unsigned := nd_unsigned n;
     nd_ttl := nd_ttl n; nd_peerRetry := nd_peerRetry n; nd_peers := nd_peers n; nd_out := nd_out n;
     nd_notAfter := nd_notAfter n; nd_requestAt := v; nd_installed := nd_installed n;
     nd_installedAt := nd_installedAt n; nd_roster := nd_roster n; nd_signedState := nd_signedState n;
     nd_link := nd_link n; nd_onion := nd_onion n |}.

Definition nd_set_installed (v : option bytes) (n : node) : node :=
  {| nd_name := nd_name n; nd_addr := nd_addr n; nd_id := nd_id n; nd_unsigned := nd_unsigned n;
     nd_ttl := nd_ttl n; nd_peerRetry := nd_peerRetry n; nd_peers := nd_peers n; nd_out := nd_out n;
     nd_notAfter := nd_notAfter n; nd_requestAt := nd_requestAt n; nd_installed := v;
     nd_installedAt := nd_installedAt n; nd_roster := nd_roster n; nd_signedState := nd_signedState n;
     nd_link := nd_link n; nd_onion := nd_onion n |}.

Definition nd_set_installedAt (v : Moment) (n : node) : node :=
  {| nd_name := nd_name n; nd_addr := nd_addr n; nd_id := nd_id n; nd_unsigned := nd_unsigned n;
     nd_ttl := nd_ttl n; nd_peerRetry := nd_peerRetry n; nd_peers := nd_peers n; nd_out := nd_out n;
     nd_notAfter := nd_notAfter n; nd_requestAt := nd_requestAt n; nd_installed := nd_installed n;
     nd_installedAt := v; nd_roster := nd_roster n; nd_signedState := nd_signedState n;
     nd_link := nd_link n; nd_onion := nd_onion n |}.

Definition nd_set_roster (v : option bytes) (n : node) : node :=
  {| nd_name := nd_name n; nd_addr := nd_addr n; nd_id := nd_id n; nd_unsigned := nd_unsigned n;
     nd_ttl := nd_ttl n; nd_peerRetry := nd_peerRetry n; nd_peers := nd_peers n; nd_out := nd_out n;
     nd_notAfter := nd_notAfter n; nd_requestAt := nd_requestAt n; nd_installed := nd_installed n;
     nd_installedAt := nd_installedAt n; nd_roster := v; nd_signedState := nd_signedState n;
     nd_link := nd_link n; nd_onion := nd_onion n |}.

Definition nd_set_signedState (v : option certstate) (n : node) : node :=
  {| nd_name := nd_name n; nd_addr := nd_addr n; nd_id := nd_id n; nd_unsigned := nd_unsigned n;
     nd_ttl := nd_ttl n; nd_peerRetry := nd_peerRetry n; nd_peers := nd_peers n; nd_out := nd_out n;
     nd_notAfter := nd_notAfter n; nd_requestAt := nd_requestAt n; nd_installed := nd_installed n;
     nd_installedAt := nd_installedAt n; nd_roster := nd_roster n; nd_signedState := v;
     nd_link := nd_link n; nd_onion := nd_onion n |}.

Definition nd_set_onion (v : option onionKeys) (n : node) : node :=
  {| nd_name := nd_name n; nd_addr := nd_addr n; nd_id := nd_id n; nd_unsigned := nd_unsigned n;
     nd_ttl := nd_ttl n; nd_peerRetry := nd_peerRetry n; nd_peers := nd_peers n; nd_out := nd_out n;
     nd_notAfter := nd_notAfter n; nd_requestAt := nd_requestAt n; nd_installed := nd_installed n;
     nd_installedAt := nd_installedAt n; nd_roster := nd_roster n; nd_signedState := nd_signedState n;
     nd_link := nd_link n; nd_onion := v |}.

(** ** Answers *)

Inductive reply : Type :=
| NoContent
| Body (b : bytes)
| HttpError (code : Z) (err : error).

Definition StatusBadRequest : Z := 400.
Definition StatusConflict : Z := 409.
Definition StatusRequestEntityTooLarge : Z := 413.
Definition StatusInternalServerError : Z := 500.

Definition maxAdminBody : nat := MaxRoster.

(** [readBody]: the body as it arrives, [None] when reading it fails. *)
Definition readBody (body : option bytes) : result reply bytes :=
  match body with
  | None => Err (HttpError StatusBadRequest (Other "body"))
  | Some b =>
      if (maxAdminBody <? length b)%nat then Err (HttpError StatusRequestEntityTooLarge (Other "http: request body too large"))
      else Ok b
  end.

Definition errNoRequest : error := Other "no open certificate request".
Definition errStaleCert : error := Other "certificate issued before the open request".
Definition errInstalled : error := Other "certificate already installed".
Definition errRosterEarly : error := Other "no certificate installed: the roster follows the certificate".
Definition errRosterLate : error := Other "roster refused: it is accepted within a time of the certificate".
Definition errRosterSet : error := Other "roster already installed: a new one needs a relay restart".
Definition errRosterSelf : error := Other "roster does not list this node under its name and address".
Definition errNoBundle : error := Other "no valid descriptor to check the roster's anchor against".
Definition errOnionUnlocked : error := Other "key memory is not locked".

Module Node.

(** *** What is in service *)

Definition certState (n : node) (t : Moment) : certstate :=
  if nd_notAfter n =? 0 then certNone
  else if nd_notAfter n <=? Unix (wall t) then certExpired
  else certValid.

(** The bundle in service and the second it runs out. *)
Definition current (n : node) (t : Moment) : option (bytes * Z) :=
  match nd_id n with
  | None =>
      match nd_out n with
      | Some s => Some (sv_bundle s, maxInt64)
      | None => option_map (fun b => (b, maxInt64)) (nd_unsigned n)
      end
  | Some _ =>
      match nd_out n with
      | None => None
      | Some s =>
          let until := Z.min (sv_notAfter s) (sv_expires s) in
          if until <=? Unix (wall t) then None else Some (sv_bundle s, until)
      end
  end.

Definition descriptor (n : node) (t : Moment) : option bytes := option_map fst (current n t).

(** [c.publish()] of the node's cache, if it has one: two readings. *)
Definition publish_peers (ts : nat -> Moment) (n : node) : node :=
  match nd_peers n with
  | None => n
  | Some c => nd_set_peers (Some (publish (current n (ts 0%nat)) (wall (ts 1%nat)) c)) n
  end.

(** What [relay.Config.Peers] asks: before a roster there is no peer at all. *)
Definition peerKey (n : node) (addr : bytes) (t : Moment) : option bytes :=
  match nd_peers n with
  | None => None
  | Some c => linkKey c addr (wall t)
  end.

(** The roster size and how many of the other nodes are held. *)
Definition peerState (n : node) (t : Moment) : nat * nat :=
  match nd_peers n with
  | None => (0, 0)%nat
  | Some c => (S (length (pc_addrs c)), Peers.held c (wall t))
  end.

Definition errNoRoster : error := Other "no descriptors: the node has no roster".
Definition errNoPeers : error := Other "no descriptors: without -auth the node lists itself only under -advertise".
Definition errNoOwn : error := Other "no descriptors: the node has no descriptor of its own in service".
Definition errNoDescriptor : error := Other "no valid descriptor".

(** The two handlers of the info port. *)
Definition get_descriptor (n : node) (t : Moment) : reply :=
  match descriptor n t with
  | None => HttpError StatusServiceUnavailable errNoDescriptor
  | Some b => Body b
  end.

Definition get_descriptors (ts : nat -> Moment) (n : node) : reply * node :=
  match nd_peers n with
  | None => (HttpError StatusServiceUnavailable (match nd_id n with Some _ => errNoRoster | None => errNoPeers end), n)
  | Some c =>
      let '(body, c') := descriptors (current n (ts 1%nat)) (wall (ts 0%nat)) (wall (ts 2%nat)) (wall (ts 3%nat)) c in
      (match body with None => HttpError StatusServiceUnavailable errNoOwn | Some b => Body b end, nd_set_peers (Some c') n)
  end.

Definition shift (k : nat) (ts : nat -> Moment) : nat -> Moment := fun i => ts (k + i)%nat.

Section Node.
Context {P : CryptoProvider}.

(** The keys of the moment go into the identity; a nil key is an empty one. *)
Definition set_onion_keys (n : node) (i : Identity) : Identity :=
  match nd_onion n with
  | None => i
  | Some o => let '(epoch, pub) := Current (ks_ring o) in SetKeys (nd_link n) (default [] pub) epoch i
  end.

Definition sign (ts : nat -> Moment) (now : Moment) (n : node) (w : World) : (res unit * node) * World :=
  match nd_id n with
  | None => ((Err (Other "nil identity"), n), w)
  | Some i =>
      let n := nd_set_signedState (Some (certState n (ts 0%nat))) n in
      let '((r, i'), w') := Refresh (wall now) (nd_ttl n) (set_onion_keys n i) w in
      let n := nd_set_id (Some i') n in
      match r with
      | Err e => ((Err e, n), w')
      | Ok _ =>
          match Identity_Bundle i' with
          | None => ((Err (Sentinel pki_ErrNoCert), n), w')
          | Some b =>
              match servedFrom b with
              | Err e => ((Err e, n), w')
              | Ok s => ((Ok tt, publish_peers (shift 1 ts) (nd_set_out (Some s) n)), w')
              end
          end
      end
  end.

(** *** Enrollment *)

Definition handleRequest (now : Moment) (body : option bytes) (n : node) (w : World) : (reply * node) * World :=
  match readBody body with
  | Err r => ((r, n), w)
  | Ok nonce =>
      if negb (length nonce =? NonceSize)%nat then ((HttpError StatusBadRequest (Other "want a nonce"), n), w)
      else if bool_decide (nd_installed n <> None) then ((HttpError StatusConflict errInstalled, n), w)
      else match nd_id n with
           | None => ((HttpError StatusInternalServerError (Other "nil identity"), n), w)
           | Some i =>
               match Identity_Request i nonce w with
               | (Err e, w') => ((HttpError StatusInternalServerError e, n), w')
               | (Ok req, w') => ((Body req, nd_set_requestAt (Some now) n), w')
               end
           end
  end.

(** The cases of the [switch] that refuse a certificate, or [None]. *)
Definition cert_refused (now : Moment) (cert : Cert) (n : node) : option error :=
  match nd_requestAt n with
  | None => Some errNoRequest
  | Some at_ =>
      if InstallWindow <? since now at_ then Some errNoRequest
      else if ct_NotBefore cert <? Unix (wall at_ - Skew) then Some errStaleCert
      else None
  end.

Definition handleCert (ts : nat -> Moment) (body : option bytes) (n : node) (w : World) : (reply * node) * World :=
  match readBody body with
  | Err r => ((r, n), w)
  | Ok raw =>
      match ParseCert raw with
      | Err e => ((HttpError StatusBadRequest e, n), w)
      | Ok cert =>
          let now := ts 0%nat in
          match nd_installed n with
          | Some i =>
              if bool_decide (raw = i) && bool_decide (certState n (ts 1%nat) = certValid)
              then ((NoContent, n), w) else ((HttpError StatusConflict errInstalled, n), w)
          | None =>
              match cert_refused now cert n, nd_id n with
              | Some e, _ => ((HttpError StatusConflict e, n), w)
              | None, None => ((HttpError StatusInternalServerError (Other "nil identity"), n), w)
              | None, Some i =>
                  match Install raw (wall now) i with
                  | (Err e, i') => ((HttpError StatusBadRequest e, nd_set_id (Some i') n), w)
                  | (Ok _, i') =>
                      let n := nd_set_notAfter (ct_NotAfter cert) (nd_set_installedAt now
                                 (nd_set_installed (Some raw) (nd_set_requestAt None (nd_set_id (Some i') n)))) in
                      match sign (shift 2 ts) now n w with
                      | ((Err e, n'), w') => ((HttpError StatusInternalServerError e, n'), w')
                      | ((Ok _, n'), w') => ((NoContent, n'), w')
                      end
                  end
              end
          end
      end
  end.

(** *** The roster *)

Definition setPeers (ts : nat -> Moment) (addrs : list bytes) (read : reader) (n : node) : node :=
  let c := newPeerCache (nd_addr n) (nd_peerRetry n) addrs read in
  nd_set_peers (Some (publish (current n (ts 0%nat)) (wall (ts 1%nat)) c)) n.

(** The other nodes of a roster. *)
Definition peer_addrs (self : bytes) (nodes : list RosterNode) : list bytes :=
  filter (fun a => a <> self) (map rn_Addr nodes).

Definition handleRoster (ts : nat -> Moment) (body : option bytes) (n : node) (w : World) : (reply * node) * World :=
  match readBody body with
  | Err r => ((r, n), w)
  | Ok raw =>
      match ParseRoster raw with
      | Err e => ((HttpError StatusBadRequest e, n), w)
      | Ok roster =>
          let now := ts 0%nat in
          match nd_roster n with
          | Some r =>
              if bool_decide (raw = r) then ((NoContent, n), w) else ((HttpError StatusConflict errRosterSet, n), w)
          | None =>
              if bool_decide (nd_installed n = None) then ((HttpError StatusConflict errRosterEarly, n), w)
              else if InstallWindow <? since now (nd_installedAt n) then ((HttpError StatusConflict errRosterLate, n), w)
              else match descriptor n (ts 1%nat) with
                   | None => ((HttpError StatusConflict errNoBundle, n), w)
                   | Some bundle =>
                       if negb (Has roster (nd_name n) (nd_addr n)) then ((HttpError StatusBadRequest errRosterSelf, n), w)
                       else match Verify (peer_policy (ro_Anchor roster)) (nd_addr n) bundle (wall now) w with
                            | (Err e, w') => ((HttpError StatusBadRequest (ErrHide e), n), w')
                            | (Ok _, w') =>
                                ((NoContent, setPeers (shift 2 ts) (peer_addrs (nd_addr n) (ro_Nodes roster))
                                               (ByAnchor (ro_Anchor roster)) (nd_set_roster (Some raw) n)), w')
                            end
                   end
          end
      end
  end.

(** *** Signing again *)

Definition refreshIfDue (ts : nat -> Moment) (n : node) (w : World) : node * World :=
  let state := certState n (ts 0%nat) in
  if bool_decide (state = certNone) ||
     (bool_decide (state = certExpired) && bool_decide (nd_signedState n = Some certExpired))
  then (n, w)
  else
    let now := ts 1%nat in
    let due := match nd_out n with
               | None => true
               | Some s => Z.quot (Z.quot (nd_ttl n) 2) Second <=? Unix (wall now) - sv_published s
               end in
    if negb due && bool_decide (nd_signedState n = Some state) then (n, w)
    else let '((_, n'), w') := sign (shift 2 ts) now n w in (n', w').

(** *** Onion keys *)

(** [rotate]: the key is drawn, checked and put into the ring, or released. *)
Definition rotate (locked : bool) (o : onionKeys) (w : World) : (res Z * OnionRing) * World :=
  match draw GenerateEphemeral w with
  | (Err e, w') => ((Err e, ks_ring o), w')
  | (Ok (priv, pub), w') =>
      if ks_lock o && negb locked then ((Err errOnionUnlocked, ks_ring o), w')
      else Rotate (Some priv) pub (ks_ring o) w'
  end.

(** The release comes before the rotation. *)
Definition retire_if_due (now : Moment) (o : onionKeys) : onionKeys :=
  match ks_retireAt o with
  | Some d => if passed d now then ks_set_retireAt None (ks_set_ring (Retire (ks_ring o)) o) else o
  | None => o
  end.

Definition publishOnion (ts : nat -> Moment) (now : Moment) (n : node) (w : World) : (res unit * node) * World :=
  match nd_id n, nd_onion n with
  | Some _, _ =>
      if bool_decide (certState n (ts 0%nat) = certValid) then sign (shift 1 ts) now n w else ((Ok tt, n), w)
  | None, None => ((Err (Other "nil onion"), n), w)
  | None, Some o =>
      let '(epoch, pub) := Current (ks_ring o) in
      match UnsignedEpoch (nd_link n) (default [] pub) epoch w with
      | (Err e, w') => ((Err e, n), w')
      | (Ok b, w') =>
          ((Ok tt, publish_peers ts (nd_set_out
             (Some {| sv_bundle := b; sv_notAfter := 0; sv_published := 0; sv_expires := 0 |}) n)), w')
      end
  end.

Definition rotateIfDue (ts : nat -> Moment) (locked : bool) (n : node) (w : World) : node * World :=
  match nd_onion n with
  | None => (n, w)
  | Some o =>
      if ks_closed o then (n, w)
      else
        let now := ts 0%nat in
        let o := retire_if_due now o in
        if negb (passed (ks_rotateAt o) now) || bool_decide (ks_retireAt o <> None) then (nd_set_onion (Some o) n, w)
        else
          match rotate locked o w with
          | ((Err _, g), w') => (nd_set_onion (Some (ks_set_failures (u64 (ks_failures o + 1)) (ks_set_ring g o))) n, w')
          | ((Ok _, g), w') =>
              let o := ks_set_retireAt (Some (after now (ks_grace o)))
                         (ks_set_rotateAt (after now (ks_every o)) (ks_set_ring g o)) in
              let '((_, n'), w'') := publishOnion (shift 1 ts) now (nd_set_onion (Some o) n) w' in (n', w'')
          end
  end.

Definition closeOnion (n : node) : node :=
  match nd_onion n with
  | None => n
  | Some o => nd_set_onion (Some (ks_set_closed true (ks_set_ring (Ring_Close (ks_ring o)) o))) n
  end.

Definition newOnionKeys (ring : OnionRing) (every ttl : Z) (lock : bool) (now : Moment) : onionKeys :=
  {| ks_ring := ring; ks_every := every; ks_grace := ttl + Skew; ks_lock := lock;
     ks_rotateAt := after now every; ks_retireAt := None; ks_closed := false; ks_failures := 0 |}.

(** *** The start of a process *)

Definition checkTTL (ttl : Z) : res unit :=
  if (ttl <? Minute) || (MaxDescriptorLife <? ttl) then Err (Other "-descriptor-ttl: want between 1m and a day")
  else Ok tt.

Definition checkRotateFlags (rotate ttl : Z) : res unit :=
  if rotate =? 0 then Ok tt
  else if rotate <? 0 then Err (Other "-onion-rotate: must not be negative")
  else if rotate <? ttl then Err (Other "-onion-rotate: must not be shorter than -descriptor-ttl")
  else Ok tt.

(** The loop over [-peers]; [seen] holds the addresses so far. *)
Fixpoint distinct_peers (seen : gset bytes) (peers : list bytes) : res unit :=
  match peers with
  | [] => Ok tt
  | a :: rest =>
      if bool_decide (a ∈ seen) then Err (Other "-peers: repeated or equal to -advertise")
      else distinct_peers ({[a]} ∪ seen) rest
  end.

Definition checkPeerFlags (auth : bool) (advertise peerInfoPort : bytes) (peers : list bytes) : res unit :=
  if negb (ValidAddr (str "node:" ++ peerInfoPort)) then Err (Other "-peer-info-port: want a port number")
  else if auth then
    if (0 <? length peers)%nat then Err (Other "-peers is for -auth=false only") else Ok tt
  else if bool_decide (advertise = []) then
    if (0 <? length peers)%nat then Err (Other "-peers needs -advertise") else Ok tt
  else if negb (forallb ValidAddr (advertise :: peers)) then Err (Other "want host:port")
  else distinct_peers {[advertise]} peers.

Record config : Type := {
  cf_name : bytes;
  cf_advertise : bytes;
  cf_auth : bool;
  cf_peers : list bytes;
  cf_ttl : Z;
  cf_onionRotate : Z;
  cf_setupCache : Z;
  cf_lock : bool
}.

(** The onion key of the start: the link key without rotation. *)
Definition start_onion (cfg : config) (staticPub : bytes) (locked : bool) (now : Moment) : M (bytes * option onionKeys) :=
  if cf_onionRotate cfg =? 0 then retM (staticPub, None)
  else
    let! (priv, pub) := draw GenerateEphemeral in
    if cf_lock cfg && negb locked then failM (Other "onion key memory is not locked, refusing to start")
    else
      let! ring := NewOnionRing (Some priv) pub (cf_setupCache cfg) in
      retM (pub, Some (newOnionKeys ring (cf_onionRotate cfg) (cf_ttl cfg) (cf_lock cfg) now)).

(** The node at the start, apart from its identity and its peers. *)
Definition blank (cfg : config) (now : Moment) (link : bytes) (onion : option onionKeys) (unsigned : option bytes) : node :=
  {| nd_name := cf_name cfg; nd_addr := cf_advertise cfg; nd_id := None; nd_unsigned := unsigned; nd_ttl := cf_ttl cfg;
     nd_peerRetry := 0; nd_peers := None; nd_out := None; nd_notAfter := 0; nd_requestAt := None; nd_installed := None;
     nd_installedAt := now; nd_roster := None; nd_signedState := None; nd_link := link; nd_onion := onion |}.

(** The node [run] makes before it listens; [idLocked] is [Identity.Locked]. *)
Definition start (cfg : config) (staticPub : bytes) (locked idLocked : bool) (ts : nat -> Moment) : M node :=
  let! (onionPub, onion) := start_onion cfg staticPub locked (ts 0%nat) in
  let link := match onion with Some _ => staticPub | None => [] end in
  if cf_auth cfg then
    let! i := NewIdentity (cf_name cfg) (cf_advertise cfg) in
    if cf_lock cfg && negb idLocked then failM (Other "identity key memory is not locked, refusing to start")
    else retM (nd_set_id (Some (SetKeys staticPub onionPub 0 i)) (blank cfg (ts 0%nat) link onion None))
  else
    let! b := Unsigned staticPub onionPub in
    let n := blank cfg (ts 0%nat) link onion (Some b) in
    retM (if bool_decide (cf_advertise cfg = []) then n
          else setPeers (shift 1 ts) (cf_peers cfg) WithoutAuth n).

End Node.

End Node.
