(* ===== verification/Process.v ===== *)
(** * Process: a relay process from its flags to its exit

    Models [src/cmd/relay/main.go] and the checks of [src/cmd/relay/admin.go] that belong to
    it: what the flags must satisfy, the configuration handed to the relay, and
    [serveNode], from the first key to the last release.  [serveNode] is a computation
    that keeps what it holds on a stack of deferred releases, as Go does, and a log of
    what it got, gave back and started; Node has the node it makes and Server the
    relay that then serves.  Parsing of flags, HTTP itself, texts of log lines and the
    lines of counters are left out. *)

From Stdlib Require Import Strings.Byte Strings.String.
From S2P Require Import Prelude Effects State Locks Crypto C25519 Toy Gost Suites Text Json Addr Fields Secmem Startup Cert Cell Replay Onion Chain Setup Pki Identity Roster Ring Pace Limits Relay Server Peers Node.

(** ** The configuration *)

(** [limits] has the limit fields only. *)
Record process : Type := {
  ps_node : Node.config;
  ps_listen : bytes;
  ps_info : bytes;
  ps_stats : bytes;
  ps_logEvery : Z;
  ps_echo : bool;
  ps_period : Z;
  ps_queue : Z;
  ps_peerInfoPort : bytes;
  ps_limits : Limits.Config
}.

Section Flags.
Import Node.

(** [IsLoopback]: an IPv4 address inside IPv6 counts as the IPv4 address. *)
Definition IsLoopback (ip : IP) : bool :=
  match ip with
  | IP4 (a :: _) => a =? 127
  | IP4 [] => false
  | IP6 gs _ =>
      match gs with
      | [0; 0; 0; 0; 0; 65535; x; _] => x / 256 =? 127
      | _ => bool_decide (gs = [0; 0; 0; 0; 0; 0; 0; 1])
      end
  end.

Definition checkAuthFlags (stats name advertise : bytes) (ttl : Z) : res unit :=
  match SplitHostPort stats with
  | None => Err (Other "-stats: not an address")
  | Some (host, _) =>
      if negb (match ParseAddr host with Some ip => IsLoopback ip | None => false end)
      then Err (Other "-stats: enrollment is served there, so it must be a loopback IP address")
      else if negb (ValidName name) then Err (Other "-name: want 1 to 32 characters of a-z, 0-9 and -")
      else if negb (ValidAddr advertise) then Err (Other "-advertise: want host:port")
      else checkTTL ttl
  end.

(** The flags that are checked before anything is set up. *)
Definition checkFlags (p : process) : res unit :=
  let cfg := ps_node p in
  let? _ := if cf_auth cfg then checkAuthFlags (ps_stats p) (cf_name cfg) (cf_advertise cfg) (cf_ttl cfg) else checkTTL (cf_ttl cfg) in
  let? _ := checkPeerFlags (cf_auth cfg) (cf_advertise cfg) (ps_peerInfoPort p) (cf_peers cfg) in
  checkRotateFlags (cf_onionRotate cfg) (cf_ttl cfg).

End Flags.

Definition splitList (s : bytes) : list bytes := filter (fun p => p <> []) (map TrimSpace (Split "," s)).

(** The configuration of the relay at a moment: what a peer is changes with the node. *)
Definition relayConfig (p : process) (n : Node.node) (t : Node.Moment) : Limits.Config * RelayConfig * option OnionRing :=
  let l := ps_limits p in
  ({| Limits.cf_QueueCells := ps_queue p;
      Limits.cf_SetupCache := Node.cf_setupCache (ps_node p);
      cf_Period := ps_period p;
      cf_HandshakeTimeout := cf_HandshakeTimeout l;
      cf_SetupTimeout := cf_SetupTimeout l;
      cf_WriteTimeout := cf_WriteTimeout l;
      cf_IdleTimeout := cf_IdleTimeout l;
      cf_CircuitLifetime := cf_CircuitLifetime l;
      cf_MaxHandshakes := cf_MaxHandshakes l;
      cf_MaxHandshakesPerSource := cf_MaxHandshakesPerSource l;
      cf_MaxLinks := cf_MaxLinks l;
      cf_MaxLinksPerSource := cf_MaxLinksPerSource l;
      cf_SourceLinkRate := cf_SourceLinkRate l;
      cf_SourceLinkBurst := cf_SourceLinkBurst l;
      cf_SourceSetupRate := cf_SourceSetupRate l;
      cf_SourceSetupBurst := cf_SourceSetupBurst l |},
   {| rc_Period := ps_period p;
      rc_QueueCells := ps_queue p;
      rc_Peers := if Node.cf_auth (ps_node p) then Some (fun addr => Node.peerKey n addr t) else None;
      rc_Deliver := Some (fun _ payload => if ps_echo p then Some payload else None) |},
   Node.ks_ring <$> Node.nd_onion n).

(** ** serveNode *)

(** What is held until the process ends: the link key, the keys of the onion ring, the
    keys of the identity, the relay, the listeners (for cells, of the info port, of the
    admin port) and the goroutine that looks after the onion keys. *)
Inductive resource : Type := StaticKey | OnionKeys | IdentityKeys | TheRelay | Listener (i : nat) | OnionLoop.

#[export] Instance resource_eq_dec : EqDecision resource.
Proof. solve_decision. Defined.

Inductive job : Type := ServeCells | ServeInfo | ServeAdmin (enrollment : bool) | KeepFresh | KeepOnion | KeepPeers | Counters.

Inductive line : Type := WarnNoRotation | AwaitingEnrollment | Listening.

Inductive event : Type := Got (r : resource) | Gave (r : resource) | Started (j : job) | Logged (l : line).

(** The run so far, and the releases that are deferred, the last first. *)
Record Held : Type := { he_world : World; he_log : list event; he_defers : list resource }.

Definition Proc (A : Type) : Type := Held -> res A * Held.

Definition retP {A} (a : A) : Proc A := fun h => (Ok a, h).

Definition failP {A} (e : error) : Proc A := fun h => (Err e, h).

Definition bindP {A B} (m : Proc A) (k : A -> Proc B) : Proc B := fun h =>
  match m h with
  | (Ok a, h') => k a h'
  | (Err e, h') => (Err e, h')
  end.

Notation "'let&' x ':=' m 'in' k" := (bindP m (fun x => k))
  (at level 10, x pattern, m at level 100, k at level 200) : go_scope.

(** A call of the program; an error gets a name. *)
Definition call {A} (name : string) (m : M A) : Proc A := fun h =>
  let '(r, w) := m (he_world h) in
  (match r with Ok a => Ok a | Err e => Err (ErrWrap (Other name) e) end,
   {| he_world := w; he_log := he_log h; he_defers := he_defers h |}).

Definition log_event (e : event) (h : Held) : Held :=
  {| he_world := he_world h; he_log := he_log h ++ [e]; he_defers := he_defers h |}.

Definition emit (e : event) : Proc unit := fun h => (Ok tt, log_event e h).

(** [defer]: a release at the return. *)
Definition defer (r : resource) : Proc unit := fun h =>
  (Ok tt, {| he_world := he_world h; he_log := he_log h; he_defers := r :: he_defers h |}).

(** Something is there, and its release deferred. *)
Definition hold (r : resource) : Proc unit :=
  let& _ := emit (Got r) in
  defer r.

(** A call after whose failure something is released by hand. *)
Definition or_give {A} (r : resource) (m : Proc A) : Proc A := fun h =>
  match m h with
  | (Err e, h) => (Err e, log_event (Gave r) h)
  | r => r
  end.

(** The deferred calls, at the return. *)
Definition unwind (h : Held) : Held :=
  {| he_world := he_world h; he_log := he_log h ++ map Gave (he_defers h); he_defers := [] |}.

(** What ends the process: a signal, or the accept loop. *)
Inductive cause : Type := Signal | ServeReturned (r : res unit).

Definition untilStopped (c : cause) : Proc unit :=
  match c with
  | Signal => retP tt
  | ServeReturned r => failP (ErrHide (Other "serve stopped"))
  end.

(** What the environment decides: which keys were locked, the clock, the ports. *)
Record Surroundings : Type := {
  su_staticLocked : bool;
  su_onionLocked : bool;
  su_idLocked : bool;
  su_clock : nat -> Node.Moment;
  su_listen : nat -> res unit;
  su_cause : cause
}.

Section Serve.
Context {P : CryptoProvider}.
Import Node.

(** The onion key of a process that rotates; without rotation the link key opens. *)
Definition makeOnion (p : process) (su : Surroundings) (staticPub : bytes) : Proc (bytes * option onionKeys) :=
  let cfg := ps_node p in
  if cf_onionRotate cfg =? 0 then
    let& _ := emit (Logged WarnNoRotation) in
    retP (staticPub, None)
  else
    let& (priv, pub) := call "onion key" (draw GenerateEphemeral) in
    let& _ := emit (Got OnionKeys) in
    if cf_lock cfg && negb (su_onionLocked su) then
      let& _ := emit (Gave OnionKeys) in
      failP (Other "onion key memory is not locked, refusing to start")
    else
      let& ring := or_give OnionKeys (call "onion key" (NewOnionRing (Some priv) pub (cf_setupCache cfg))) in
      let& _ := defer OnionKeys in
      retP (pub, Some (newOnionKeys ring (cf_onionRotate cfg) (cf_ttl cfg) (cf_lock cfg) (su_clock su 0%nat))).

(** The node with its identity, or with an unsigned descriptor and its peers. *)
Definition makeNode (p : process) (su : Surroundings) (staticPub onionPub : bytes) (onion : option onionKeys) : Proc node :=
  let cfg := ps_node p in
  let link := match onion with Some _ => staticPub | None => [] end in
  let now := su_clock su 0%nat in
  if cf_auth cfg then
    let& i := call "identity" (NewIdentity (cf_name cfg) (cf_advertise cfg)) in
    let& _ := hold IdentityKeys in
    if cf_lock cfg && negb (su_idLocked su) then failP (Other "identity key memory is not locked, refusing to start")
    else
      let& _ := emit (Logged AwaitingEnrollment) in
      retP (nd_set_id (Some (SetKeys staticPub onionPub 0 i)) (blank cfg now link onion None))
  else
    let& b := call "descriptor" (Unsigned staticPub onionPub) in
    let n := blank cfg now link onion (Some b) in
    retP (if bool_decide (cf_advertise cfg = []) then n else setPeers (shift 1 (su_clock su)) (cf_peers cfg) WithoutAuth n).

Definition newNode (p : process) (su : Surroundings) (staticPub : bytes) : Proc node :=
  let& (onionPub, onion) := makeOnion p su staticPub in
  makeNode p su staticPub onionPub onion.

(** The three ports, in order. *)
Fixpoint listenAll (su : Surroundings) (is_ : list nat) : Proc unit :=
  match is_ with
  | [] => retP tt
  | i :: is_ =>
      let& _ := call "listen" (lift (su_listen su i)) in
      let& _ := hold (Listener i) in
      listenAll su is_
  end.

(** The goroutines. *)
Definition startJobs (p : process) (n : node) : Proc unit :=
  let& _ := emit (Started ServeCells) in
  let& _ := emit (Started ServeInfo) in
  let& _ := emit (Started (ServeAdmin (match nd_id n with Some _ => true | None => false end))) in
  let& _ := (match nd_id n with Some _ => emit (Started KeepFresh) | None => retP tt end) in
  let& _ := (match nd_onion n with
             | Some _ => let& _ := hold OnionLoop in emit (Started KeepOnion)
             | None => retP tt
             end) in
  let& _ := emit (Started KeepPeers) in
  if 0 <? ps_logEvery p then emit (Started Counters) else retP tt.

(** Everything that can fail before the process serves. *)
Definition prepare (p : process) (su : Surroundings) : Proc (node * Relay) :=
  let cfg := ps_node p in
  let& (staticPriv, staticPub) := call "static key" (draw GenerateEphemeral) in
  let& _ := hold StaticKey in
  if cf_lock cfg && negb (su_staticLocked su) then failP (Other "key memory is not locked, refusing to start")
  else
    let& n := newNode p su staticPub in
    let '(rc, rcfg, ring) := relayConfig p n (su_clock su 0%nat) in
    let& r := call "relay" (NewRelay rc rcfg (Some staticPriv) staticPub ring) in
    let& _ := hold TheRelay in
    let& _ := listenAll su [0; 1; 2]%nat in
    retP (n, r).

(** [serveNode] up to its return: the node and the relay it ran. *)
Definition serve_body (p : process) (su : Surroundings) : Proc (node * Relay) :=
  let& (n, r) := prepare p su in
  let& _ := startJobs p n in
  let& _ := emit (Logged Listening) in
  let& _ := untilStopped (su_cause su) in
  retP (n, r).

Definition serveNode (p : process) (su : Surroundings) (w : World) : res (node * Relay) * Held :=
  let '(r, h) := serve_body p su {| he_world := w; he_log := []; he_defers := [] |} in (r, unwind h).

End Serve.

(** ** main *)

Definition with_lock (lock : bool) (p : process) : process :=
  let c := ps_node p in
  {| ps_node := {| Node.cf_name := Node.cf_name c; Node.cf_advertise := Node.cf_advertise c; Node.cf_auth := Node.cf_auth c;
                   Node.cf_peers := Node.cf_peers c; Node.cf_ttl := Node.cf_ttl c; Node.cf_onionRotate := Node.cf_onionRotate c;
                   Node.cf_setupCache := Node.cf_setupCache c; Node.cf_lock := lock |};
     ps_listen := ps_listen p; ps_info := ps_info p; ps_stats := ps_stats p; ps_logEvery := ps_logEvery p; ps_echo := ps_echo p;
     ps_period := ps_period p; ps_queue := ps_queue p; ps_peerInfoPort := ps_peerInfoPort p; ps_limits := ps_limits p |}.

(** How the process ends: refused at the start, or after [serveNode]; the exit status is
    0 only when that returned no error. *)
Inductive exit : Type := Fatal (e : error) | Ran (e : option error) (h : Held).

Definition status (x : exit) : Z := match x with Ran None _ => 0 | _ => 1 end.

(** [main] after the flags are parsed; [None] when key memory waits for ever. *)
Definition main {G : GostPrimitives} {X : Primitives} (linux : bool) (p : process) (suiteName keymem : bytes) (harden : bool) (budget : res Z)
    (su : Surroundings) (m : Memory) (w : World) : option (exit * Memory) :=
  match checkFlags p with
  | Err e => Some (Fatal e, m)
  | Ok _ =>
      match relayMemory linux keymem harden budget m with
      | None => None
      | Some (Err e, m) => Some (Fatal e, m)
      | Some (Ok policy, m) =>
          match (let? chosen := Suites.Parse suiteName in Suites.New chosen) with
          | Err e => Some (Fatal e, m)
          | Ok provider =>
              let '(r, h) := @serveNode provider (with_lock (pl_Lock policy) p) su w in
              Some (Ran (match r with Ok _ => None | Err e => Some e end) h, m)
          end
      end
  end.

(** ** Nothing is held twice or for ever *)

(** What a log leaves held, last first; [None] when something is released that did not
    come last, or was never got. *)
Fixpoint balance (held : list resource) (log : list event) : option (list resource) :=
  match log with
  | [] => Some held
  | Got r :: log => balance (r :: held) log
  | Gave r :: log => match held with
                     | r' :: held => if decide (r = r') then balance held log else None
                     | [] => None
                     end
  | _ :: log => balance held log
  end.

Lemma balance_app l1 l2 held : balance held (l1 ++ l2) = match balance held l1 with Some h => balance h l2 | None => None end.
Proof.
  revert held. induction l1 as [|e l1 IH]; intros held; [done|]. cbn [app balance]. destruct e as [r|r|j|l]; [apply IH | | apply IH..].
  destruct held as [|r' held]; [done|]. destruct (decide (r = r')); [apply IH | done].
Qed.

Lemma balance_gave held : balance held (map Gave held) = Some [].
Proof. induction held as [|r held IH]; [done|]. cbn. by rewrite decide_True. Qed.

(** The log says what is held. *)
Definition tidy (h : Held) : Prop := balance [] (he_log h) = Some (he_defers h).

Definition Tidy {A} (m : Proc A) : Prop := forall h, tidy h -> tidy (snd (m h)).

Lemma tidy_ret {A} (a : A) : Tidy (retP a).
Proof. by intros h. Qed.

Lemma tidy_fail {A} e : Tidy (@failP A e).
Proof. by intros h. Qed.

Lemma tidy_bind {A B} (m : Proc A) (k : A -> Proc B) : Tidy m -> (forall a, Tidy (k a)) -> Tidy (bindP m k).
Proof. intros Hm Hk h Hh. unfold bindP. pose proof (Hm h Hh) as H. destruct (m h) as [[a|e] h']; [by apply Hk | done]. Qed.

Lemma tidy_call {A} name (m : M A) : Tidy (call name m).
Proof. intros h Hh. unfold call. by destruct (m (he_world h)). Qed.

Lemma tidy_emit e : match e with Got _ | Gave _ => False | _ => True end -> Tidy (emit e).
Proof. intros He h Hh. unfold tidy, emit in *. cbn. rewrite balance_app, Hh. by destruct e. Qed.

Lemma hold_is r h : hold r h = (Ok tt, {| he_world := he_world h; he_log := he_log h ++ [Got r]; he_defers := r :: he_defers h |}).
Proof. reflexivity. Qed.

Lemma tidy_hold r : Tidy (hold r).
Proof. intros h Hh. rewrite hold_is. unfold tidy in *. cbn. by rewrite balance_app, Hh. Qed.

Create HintDb tidy discriminated.

#[export] Hint Resolve tidy_ret tidy_fail tidy_call tidy_hold : tidy.

Ltac tidy :=
  repeat match goal with
  | |- forall _, _ => intros ?
  | |- Tidy (bindP _ _) => apply tidy_bind
  | |- Tidy (emit _) => by apply tidy_emit
  | |- Tidy (let '(_, _) := ?x in _) => destruct x
  | |- Tidy (if ?b then _ else _) => destruct b
  | |- Tidy (match ?x with _ => _ end) => destruct x
  | _ => by auto with tidy
  end.

Lemma tidy_listen su is_ : Tidy (listenAll su is_).
Proof. induction is_ as [|i is_ IH]; cbn [listenAll]; tidy. Qed.

#[export] Hint Resolve tidy_listen : tidy.

Section Tidy.
Context {P : CryptoProvider}.

Lemma tidy_onion p su staticPub : Tidy (makeOnion p su staticPub).
Proof.
  intros h Hh. unfold makeOnion. set (cfg := ps_node p). destruct (_ =? 0); [by apply (tidy_bind (emit _)); [apply tidy_emit | intros; apply tidy_ret|]|].
  unfold bindP, call. destruct (draw GenerateEphemeral (he_world h)) as [[[priv pub]|e] w1]; [|done]. unfold emit, or_give, failP, retP, defer, log_event.
  cbn [he_world he_log he_defers]. destruct (_ && _); [|destruct (NewOnionRing _ _ _ _) as [[ring|e] w2]]; unfold tidy in *; cbn [snd he_log he_defers];
    rewrite ?balance_app, Hh; cbn; by rewrite ?decide_True.
Qed.

#[local] Hint Resolve tidy_onion : tidy.

Lemma tidy_body p su : Tidy (serve_body p su).
Proof. unfold serve_body, prepare, newNode, makeNode, startJobs, untilStopped, relayConfig. tidy. Qed.

End Tidy.

(** ** What a run does when nothing fails *)

Definition quiet (e : event) : Prop := match e with Started _ => False | _ => True end.

(** A stage of the start: when it succeeds it did [ok], with these events and what it
    holds from then on; when it fails it has started nothing. *)
Definition Stage {A} (m : Proc A) (ok : World -> A -> World -> Prop) (log : list event) (held : list resource) : Prop := forall h,
  match m h with
  | (Ok a, h') => ok (he_world h) a (he_world h') /\ he_log h' = he_log h ++ log /\ he_defers h' = held ++ he_defers h
  | (Err e, h') => exists l, he_log h' = he_log h ++ l /\ Forall quiet l
  end.






Lemma stage_fail {A} e log held : Stage (@failP A e) (fun _ _ _ => False) log held.
Proof. intros h. exists []. by rewrite app_nil_r. Qed.

Lemma stage_emit e : Stage (emit e) (fun w _ w' => w' = w) [e] [].
Proof. by intros h. Qed.

Section Runs.
Context {P : CryptoProvider}.
Import Node.

















End Runs.

(** ** Properties *)

Section Properties.
Context {P : CryptoProvider}.
Import Node.


(** C13. [serveNode] has released every key by the time it returns.  Whatever fails and
    whenever, what it got (the link key, the onion keys, the identity keys, the relay, the
    listeners, the goroutine of the onion keys) it gives back exactly once, and always
    the last first: so the relay is closed while its keys are still there, and nothing
    is listening any more when they go. *)
Theorem keys_released p su w : balance [] (he_log (snd (serveNode p su w))) = Some [] /\ he_defers (snd (serveNode p su w)) = [].
Proof.
  unfold serveNode. pose proof (tidy_body p su {| he_world := w; he_log := []; he_defers := [] |} eq_refl) as Ht.
  destruct (serve_body p su _) as [r h]. split; [|done]. unfold tidy in Ht. cbn in Ht |- *. by rewrite balance_app, Ht, balance_gave.
Qed.


End Properties.

(** ** The flags *)




(** Until a roster arrives the relay of an authenticated node extends nowhere. *)
Lemma extends_nowhere p n t addr : Node.cf_auth (ps_node p) = true -> Node.nd_peers n = None ->
  lookup_peer (snd (fst (relayConfig p n t))) addr = None.
Proof. intros Ha Hn. unfold lookup_peer, relayConfig. cbn [fst snd rc_Peers]. rewrite Ha. unfold Node.peerKey. by rewrite Hn. Qed.

(** ** Evaluation and a witness *)

Module ProcessDemo.


Definition loopbacks : list bool := map (fun s => match ParseAddr (str s) with Some ip => IsLoopback ip | None => false end)
  ["127.0.0.1"; "127.8.0.1"; "::1"; "::1%lo"; "::ffff:127.0.0.1"; "128.0.0.1"; "0.0.0.0"; "::"; "::2"; "localhost"]%string.

Example loopbacks_are : loopbacks = [true; true; true; true; true; false; false; false; false; false].
Proof. vm_compute. reflexivity. Qed.

Definition p0 (stats : string) (rotate : Z) : process := {|
  ps_node := {| Node.cf_name := str "relay-1"; Node.cf_advertise := str "relay-1:9000"; Node.cf_auth := true; Node.cf_peers := [];
                Node.cf_ttl := Minute; Node.cf_onionRotate := rotate; Node.cf_setupCache := 4; Node.cf_lock := false |};
  ps_listen := str ":9000"; ps_info := str ":9100"; ps_stats := str stats; ps_logEvery := 0; ps_echo := true; ps_period := 0; ps_queue := 64;
  ps_peerInfoPort := str "9100"; ps_limits := GateDemo.config |}.

Definition su0 (failing : nat) : Surroundings := {|
  su_staticLocked := false; su_onionLocked := false; su_idLocked := false;
  su_clock := fun _ => {| Node.wall := 1700000000000000000; Node.run := 0 |};
  su_listen := fun i => if (i =? failing)%nat then Err (Other "address already in use") else Ok tt;
  su_cause := Signal |}.

Definition world : World := {| entropy := map (fun k => byte_of_Z (Z.of_nat (1 + k))) (seq 0 400); size_cache := ∅; pub_cache := ∅ |}.

Definition run (stats : string) (rotate : Z) (failing : nat) : option (exit * Memory) :=
  @main ToyGost.toy Toy.toy true (p0 stats rotate) (str "c25519") (str "none") false (Err (Other "no limit")) (su0 failing) (StartupDemo.fresh []) world.

Definition seen (r : option (exit * Memory)) : option (Z * list event) :=
  match r with
  | Some (x, _) => Some (status x, match x with Ran _ h => he_log h | Fatal _ => [] end)
  | None => None
  end.

(** A run that serves, one whose admin port is taken, and one that would be reached from
    outside. *)
Example processes_run : map seen [run "127.0.0.1:9101" Hour 3; run "127.0.0.1:9101" Hour 2; run "0.0.0.0:9101" Hour 3] =
  [Some (0, [Got StaticKey; Got OnionKeys; Got IdentityKeys; Logged AwaitingEnrollment; Got TheRelay; Got (Listener 0); Got (Listener 1); Got (Listener 2);
     Started ServeCells; Started ServeInfo; Started (ServeAdmin true); Started KeepFresh; Got OnionLoop; Started KeepOnion; Started KeepPeers; Logged Listening;
     Gave OnionLoop; Gave (Listener 2); Gave (Listener 1); Gave (Listener 0); Gave TheRelay; Gave IdentityKeys; Gave OnionKeys; Gave StaticKey]);
   Some (1, [Got StaticKey; Got OnionKeys; Got IdentityKeys; Logged AwaitingEnrollment; Got TheRelay; Got (Listener 0); Got (Listener 1);
     Gave (Listener 1); Gave (Listener 0); Gave TheRelay; Gave IdentityKeys; Gave OnionKeys; Gave StaticKey]);
   Some (1, [])].
Proof. vm_compute. reflexivity. Qed.




End ProcessDemo.

Import ProcessDemo.

