(* ===== verification/Lifetime.v ===== *)
(** * Lifetime: runs of a node

    The operations of [Node] as the steps of one process, with the clock they
    read and everything the node ever had in service kept beside it, and what
    holds in every run: a descriptor never outlives the onion key it names, what
    is in service is the node's own and valid, one certificate and one roster.

    Between two readings of the clock the wall clock advances at least as far as
    the running time, which stands still while the host sleeps: nobody sets the
    wall clock back.  The code takes whichever clock comes first, so that a clock
    set back costs a refused setup and not a key that lives on. *)

From Stdlib Require Import Strings.Byte Strings.String.
From stdpp Require Import relations.
From S2P Require Import Prelude Effects Crypto Toy Text Json Addr Cert Replay Setup Pki Identity Roster Fetch Ring Peers Node.

(** ** Time *)

Definition later (a b : Moment) : Prop := 0 <= run b - run a <= wall b - wall a.

#[export] Instance later_preorder : PreOrder later.
Proof. split; [intros a; unfold later; lia | intros a b c; unfold later; lia]. Qed.

(** The readings of one step, in order, between the step before and the next. *)
Definition reads (t : Moment) (ts : nat -> Moment) (t' : Moment) : Prop :=
  (forall i, later t (ts i) /\ later (ts i) t') /\ forall i j, (i <= j)%nat -> later (ts i) (ts j).

Lemma reads_shift k t ts t' : reads t ts t' -> reads t (Node.shift k ts) t'.
Proof. unfold Node.shift. intros [H1 H2]. split; [intros i; apply H1 | intros i j Hij; apply H2; lia]. Qed.

Lemma Unix_mono a b : a <= b -> Unix a <= Unix b.
Proof. intros H. unfold Unix. by apply Z.div_le_mono. Qed.

(** A deadline that passed by either clock has passed by the wall clock. *)
Lemma passed_wall r d now : 0 <= d -> later r now -> passed (after r d) now = true -> wall r + d <= wall now.
Proof.
  unfold passed, after, later. cbn. intros Hd H. rewrite orb_true_iff, !Z.leb_le. lia.
Qed.

(** ** Steps *)

Section Runs.
Context `{CL : CryptoLaws}.

(** What a node may serve of itself. *)
Definition own_of (n : node) (b : bytes) (u : Z) : Prop := exists t, Node.current n t = Some (b, u).

Definition open_ring (cell : Cell.Cell) (w : World) (o : onionKeys) : onionKeys :=
  ks_set_ring (snd (fst (Ring_Open cell (ks_ring o) w))) o.

Inductive node_step (t t' : Moment) : node -> node -> Prop :=
| st_request now body n w r n' w' :
    later t now -> later now t' -> Node.handleRequest now body n w = ((r, n'), w') -> node_step t t' n n'
| st_cert ts body n w r n' w' :
    reads t ts t' -> sizes_sound w -> Node.handleCert ts body n w = ((r, n'), w') -> node_step t t' n n'
| st_roster ts body n w r n' w' :
    reads t ts t' -> sizes_sound w -> Node.handleRoster ts body n w = ((r, n'), w') -> node_step t t' n n'
| st_refresh_if_due ts n w n' w' :
    reads t ts t' -> sizes_sound w -> Node.refreshIfDue ts n w = (n', w') -> node_step t t' n n'
| st_rotate ts locked n w n' w' :
    reads t ts t' -> sizes_sound w -> Node.rotateIfDue ts locked n w = (n', w') -> node_step t t' n n'
| st_open cell w n o :
    nd_onion n = Some o -> later t t' -> node_step t t' n (nd_set_onion (Some (open_ring cell w o)) n)
| st_peers n c c' :
    nd_peers n = Some c -> later t t' -> pc_step (own_of n) c c' -> node_step t t' n (nd_set_peers (Some c') n)
| st_close_onion n : later t t' -> node_step t t' n (Node.closeOnion n)
| st_close_id n i : nd_id n = Some i -> later t t' -> node_step t t' n (nd_set_id (Some (Identity_Close i)) n).

(** A process: the last moment, the node, and what it ever had in service. *)
Record Process : Type := { pr_now : Moment; pr_node : node; pr_served : list served }.

Definition in_service (n : node) : list served := match nd_out n with Some s => [s] | None => [] end.

Inductive process_step : Process -> Process -> Prop :=
| process_steps t t' n n' h : node_step t t' n n' ->
    process_step {| pr_now := t; pr_node := n; pr_served := h |}
                 {| pr_now := t'; pr_node := n'; pr_served := in_service n' ++ h |}.

(** A process from its start, with a clock past the epoch of Unix. *)
Definition started (cfg : Node.config) (p : Process) : Prop :=
  exists pub locked idLocked ts w n w', sizes_sound w /\ reads (ts 0%nat) ts (pr_now p) /\ 0 <= wall (ts 0%nat) /\
    Node.start cfg pub locked idLocked ts w = (Ok n, w') /\ pr_node p = n /\ pr_served p = [].

(** *** What signing does *)

(** Everything but the identity, what is in service, the state signed in, and the peers. *)
Definition same_frame (n n' : node) : Prop :=
  nd_name n' = nd_name n /\ nd_addr n' = nd_addr n /\ nd_unsigned n' = nd_unsigned n /\ nd_ttl n' = nd_ttl n /\
  nd_notAfter n' = nd_notAfter n /\ nd_requestAt n' = nd_requestAt n /\ nd_installed n' = nd_installed n /\
  nd_installedAt n' = nd_installedAt n /\ nd_roster n' = nd_roster n /\ nd_link n' = nd_link n /\
  nd_onion n' = nd_onion n.

(** The peers stay, or their mirror is made again with what is in service after. *)
Definition peers_by (n n' : node) : Prop :=
  nd_peers n' = nd_peers n \/
  exists c own tp, nd_peers n = Some c /\ nd_peers n' = Some (publish own tp c) /\ own_ok (own_of n') own.

Lemma publish_peers_by ts n : peers_by n (Node.publish_peers ts n).
Proof.
  unfold Node.publish_peers, peers_by. destruct (nd_peers n) as [c|] eqn:E; [|by left].
  right. exists c, (Node.current n (ts 0%nat)), (wall (ts 1%nat)). split; [done|]. split; [done|].
  intros b u Hb. by exists (ts 0%nat).
Qed.

Lemma publish_peers_frame ts n : same_frame n (Node.publish_peers ts n) /\ nd_id (Node.publish_peers ts n) = nd_id n /\
  nd_out (Node.publish_peers ts n) = nd_out n /\ nd_signedState (Node.publish_peers ts n) = nd_signedState n.
Proof. unfold Node.publish_peers. by destruct (nd_peers n). Qed.

(** The served bundle [s] is the certificate [c] and the descriptor [d]. *)
Definition serves (s : served) (c : Cert) (d : Descriptor) : Prop :=
  sv_bundle s = Bundle_Marshal (bundle_of c d) /\ sv_notAfter s = ct_NotAfter c /\
  sv_published s = de_Published d /\ sv_expires s = de_Expires d /\ cert_wf c = true /\ descriptor_wf d = true.

Lemma serves_inj s c d c' d' : serves s c d -> serves s c' d' -> c = c' /\ d = d'.
Proof.
  intros (E & _ & _ & _ & Hc & Hd) (E' & _ & _ & _ & Hc' & Hd'). rewrite E in E'.
  assert (bundle_of c d = bundle_of c' d') as Hb.
  { pose proof (ParseBundle_Marshal _ (bundle_of_wf c d)) as H1. rewrite E', ParseBundle_Marshal in H1 by apply bundle_of_wf.
    by apply ok_inj in H1. }
  assert (Hcm : Cert_Marshal c = Cert_Marshal c') by exact (f_equal bu_Cert Hb).
  assert (Hdm : Descriptor_Marshal d = Descriptor_Marshal d') by exact (f_equal bu_Descriptor Hb).
  split; apply (ok_inj (E := error)).
  - transitivity (ParseCert (Cert_Marshal c)); [symmetry|].
    + exact (proj2 (ParseCert_spec _ c) (conj Hc eq_refl)).
    + exact (proj2 (ParseCert_spec _ c') (conj Hc' Hcm)).
  - transitivity (ParseDescriptor (Descriptor_Marshal d)); [symmetry|].
    + exact (proj2 (ParseDescriptor_spec _ d) (conj Hd eq_refl)).
    + exact (proj2 (ParseDescriptor_spec _ d') (conj Hd' Hdm)).
Qed.

Lemma servedFrom_bundle c d : cert_wf c = true -> descriptor_wf d = true ->
  servedFrom (Bundle_Marshal (bundle_of c d)) =
    Ok {| sv_bundle := Bundle_Marshal (bundle_of c d); sv_notAfter := ct_NotAfter c;
          sv_published := de_Published d; sv_expires := de_Expires d |}.
Proof.
  intros Hc Hd. unfold servedFrom. rewrite ParseBundle_Marshal by apply bundle_of_wf. cbn [rbind bundle_of bu_Cert bu_Descriptor].
  rewrite (proj2 (ParseCert_spec _ c)) by done. cbn [rbind]. by rewrite (proj2 (ParseDescriptor_spec _ d)).
Qed.

(** [Refresh] over any identity: a step of it, and the bundle when it succeeds. *)
Lemma Refresh_spec now ttl i w r i' w' : Refresh now ttl i w = ((r, i'), w') -> sizes_sound w -> 0 <= now -> id_inv i ->
  id_inv i' /\ id_step i i' /\ id_cert i' = id_cert i /\ id_pub i' = id_pub i /\
  (r = Ok tt -> exists c d, id_bundle i' = Some (Bundle_Marshal (bundle_of c d)) /\ id_cert i = Some c /\
     cert_wf c = true /\ own_descriptor (id_pub i) c d /\ de_OnionPub d = id_onion i /\ de_Epoch d = id_epoch i /\
     de_Published d = Unix now /\ de_Expires d <= Unix (now + ttl)).
Proof.
  intros ER Hw Hnow Hi. pose proof (st_refresh _ _ _ _ _ _ _ Hw Hnow ER) as Hstep.
  split; [by eapply id_step_inv|]. split; [done|]. clear Hstep.
  unfold Refresh in ER. destruct (refreshed now ttl i w) as [[[b|e]|e] w2] eqn:E; injection ER as <- <- _; [|done..].
  apply refreshed_ok in E as (k & c & d & _ & Hc & -> & Hd & _ & Do & De & Dp & Dx & _); [|done..].
  split; [done|]. split; [done|]. intros _. exists c, d. split; [reflexivity|].
  destruct (ii_cert i Hi c Hc) as [Hwf _ _ _ _ _]. split_and!; try done. rewrite Dx. apply Z.le_min_l.
Qed.

Lemma set_onion_keys_same n i :
  id_cert (Node.set_onion_keys n i) = id_cert i /\ id_pub (Node.set_onion_keys n i) = id_pub i.
Proof. unfold Node.set_onion_keys. destruct (nd_onion n) as [o|]; [|done]. by destruct (Current (ks_ring o)). Qed.

(** [s] is what a node with identity [i] signs at [now]. *)
Definition signed_at (now : Moment) (n : node) (i : Identity) (s : served) : Prop :=
  exists c d, serves s c d /\ id_cert i = Some c /\ own_descriptor (id_pub i) c d /\
    de_OnionPub d = id_onion (Node.set_onion_keys n i) /\ de_Epoch d = id_epoch (Node.set_onion_keys n i) /\
    de_Published d = Unix (wall now) /\ de_Expires d <= Unix (wall now + nd_ttl n).

(** A signing by identity [i]: the identity keeps who it is, and what is in service
    stays or is newly signed. *)
Definition signing (now : Moment) (n n' : node) (i : Identity) : Prop :=
  exists i', nd_id n' = Some i' /\ id_inv i' /\ id_step (Node.set_onion_keys n i) i' /\
    id_cert i' = id_cert i /\ id_pub i' = id_pub i /\ peers_by n n' /\
    (nd_out n' = nd_out n \/ exists s, nd_out n' = Some s /\ signed_at now n i s).

Lemma sign_spec ts now n w r n' w' : Node.sign ts now n w = ((r, n'), w') -> sizes_sound w -> 0 <= wall now ->
  (forall i, nd_id n = Some i -> id_inv (Node.set_onion_keys n i)) ->
  same_frame n n' /\ ((nd_id n = None /\ n' = n) \/ exists i, nd_id n = Some i /\ signing now n n' i).
Proof.
  unfold Node.sign. intros H Hw Hnow Hinv. destruct (nd_id n) as [i|] eqn:Ei; [|injection H as <- <- <-; split; [done | by left]].
  specialize (Hinv i eq_refl). destruct (set_onion_keys_same n i) as [Hc0 Hp0].
  change (Node.set_onion_keys (nd_set_signedState _ n) i) with (Node.set_onion_keys n i) in H.
  change (nd_ttl (nd_set_signedState _ n)) with (nd_ttl n) in H.
  destruct (Refresh (wall now) (nd_ttl n) (Node.set_onion_keys n i) w) as [[r1 i'] w1] eqn:ER.
  apply Refresh_spec in ER as (Hinv' & Hstep & Hc & Hp & Hok); [|done..]. rewrite Hp0, Hc0 in Hok.
  assert (Hkeep : forall m, same_frame n m -> nd_id m = Some i' -> peers_by n m ->
    (nd_out m = nd_out n \/ exists s, nd_out m = Some s /\ signed_at now n i s) ->
    same_frame n m /\ (Some i = None /\ m = n \/ exists i1, Some i = Some i1 /\ signing now n m i1)).
  { intros m Hm Hid Hpe Ho. split; [done|]. right. exists i. split; [done|]. exists i'. split_and!; try done; congruence. }
  destruct r1 as [[]|e]; [|injection H as <- <- <-; apply Hkeep; [done | done | by left | by left]].
  destruct (Hok eq_refl) as (c & d & Hb & Hci & Hwf & Hd & Do & De & Dp & Dx).
  unfold Identity_Bundle in H. rewrite Hb, servedFrom_bundle in H by (done || apply Hd).
  injection H as <- <- <-.
  match goal with |- context [Node.publish_peers ?s ?m] =>
    pose proof (publish_peers_by s m) as Hpe;
    destruct (publish_peers_frame s m) as (HF & Hi & Ho & _); set (pp := Node.publish_peers s m) in * end.
  apply Hkeep; [exact HF | by rewrite Hi | exact Hpe |]. right. rewrite Ho. eexists. split; [reflexivity|]. exists c, d.
  split; [|by split_and!]. split_and!; try done. apply Hd.
Qed.

(** *** The onion keys and the descriptors that name them *)

Definition named (k : onionKey) (d : Descriptor) : Prop := ok_pub k = de_OnionPub d /\ ok_epoch k = de_Epoch d.

Record onion_inv (t : Moment) (ttl : Z) (o : onionKeys) : Prop := {
  oi_grace : ks_grace o = ttl + Skew;
  oi_open : rg_closed (ks_ring o) = false -> exists k, rg_current (ks_ring o) = Some k /\ uint32 (ok_epoch k) = true;
  oi_closed : rg_closed (ks_ring o) = true -> rg_current (ks_ring o) = None;
  oi_previous : ks_retireAt o = None -> rg_previous (ks_ring o) = None;
  oi_retire dl : ks_retireAt o = Some dl -> exists r, dl = after r (ks_grace o) /\ later r t
}.

(** Where the key that the descriptor [d] names is, and how long [d] is good. *)
Definition covered (t : Moment) (ttl : Z) (o : onionKeys) (d : Descriptor) : Prop :=
  rg_closed (ks_ring o) = true \/
  (exists k, rg_current (ks_ring o) = Some k /\ named k d /\ de_Expires d <= Unix (wall t + ttl)) \/
  (exists k dl, rg_previous (ks_ring o) = Some k /\ ks_retireAt o = Some dl /\ named k d /\
     de_Expires d <= Unix (dl_wall dl - Skew)) \/
  de_Expires d <= Unix (wall t - Skew).

Lemma onion_inv_time t t' ttl o : later t t' -> onion_inv t ttl o -> onion_inv t' ttl o.
Proof.
  intros Ht [H1 H2 H3 H4 H5]. split; try done. intros dl Hdl. destruct (H5 dl Hdl) as (r & -> & Hr).
  exists r. split; [done|]. by transitivity t.
Qed.

Lemma covered_time t t' ttl o d : later t t' -> covered t ttl o d -> covered t' ttl o d.
Proof.
  intros [H0 H1] [?|[(k & Hk & Hn & He)|[(k & dl & Hk & Hr & Hn & He)|He]]].
  - by left.
  - right. left. exists k. split_and!; try done. etrans; [done|]. apply Unix_mono. lia.
  - right. right. left. by exists k, dl.
  - right. right. right. etrans; [done|]. apply Unix_mono. lia.
Qed.

(** What an onion ring shows of its keys. *)
Definition shown (k : onionKey) : bytes * Z := (ok_pub k, ok_epoch k).

Definition same_keys (g g' : OnionRing) : Prop :=
  rg_closed g' = rg_closed g /\ shown <$> rg_current g' = shown <$> rg_current g /\
  shown <$> rg_previous g' = shown <$> rg_previous g.

Lemma same_keys_refl g : same_keys g g.
Proof. done. Qed.

Lemma Ring_Open_keys cell g w r g' w' : Ring_Open cell g w = ((r, g'), w') -> same_keys g g'.
Proof.
  intros [(e & -> & ->)|(l & s & k & c & ref & -> & _ & _ & Hk & _ & _ & ->)]%Ring_Open_cases; [done|].
  destruct s; cbn in Hk; split_and!; try done; cbn [set_slot rg_current rg_previous]; rewrite Hk; done.
Qed.

Lemma shown_some (x y : option onionKey) k : shown <$> x = shown <$> y -> y = Some k ->
  exists k', x = Some k' /\ ok_pub k' = ok_pub k /\ ok_epoch k' = ok_epoch k.
Proof. intros H ->. destruct x as [k'|]; [|done]. exists k'. by injection H. Qed.

Lemma shown_none (x y : option onionKey) : shown <$> x = shown <$> y -> y = None -> x = None.
Proof. intros H ->. by destruct x. Qed.

Lemma same_keys_inv t ttl o g : same_keys (ks_ring o) g -> onion_inv t ttl o -> onion_inv t ttl (ks_set_ring g o).
Proof.
  intros (E1 & E2 & E3) [H1 H2 H3 H4 H5]. split; cbn [ks_set_ring ks_ring ks_grace ks_retireAt]; try done.
  - rewrite E1. intros (k & Hk & He)%H2. destruct (shown_some _ _ _ E2 Hk) as (k' & -> & _ & E). exists k'. by rewrite E.
  - rewrite E1. intros Hk%H3. by eapply shown_none.
  - intros Hk%H4. by eapply shown_none.
Qed.

Lemma same_keys_covered t ttl o g d : same_keys (ks_ring o) g -> covered t ttl o d -> covered t ttl (ks_set_ring g o) d.
Proof.
  intros (E1 & E2 & E3) [?|[(k & Hk & [Hp He] & Hx)|[(k & dl & Hk & Hr & [Hp He] & Hx)|Hx]]]; unfold covered;
    cbn [ks_set_ring ks_ring ks_retireAt].
  - left. congruence.
  - right. left. destruct (shown_some _ _ _ E2 Hk) as (k' & -> & Ep & Ee). exists k'. by repeat split; try congruence.
  - right. right. left. destruct (shown_some _ _ _ E3 Hk) as (k' & -> & Ep & Ee). exists k', dl. by repeat split; try congruence.
  - right. right. by right.
Qed.

(** Releasing the replaced key, once its deadline has passed. *)
Lemma retire_inv t ttl o : 0 <= ttl -> onion_inv t ttl o ->
  onion_inv t ttl (Node.retire_if_due t o) /\ forall d, covered t ttl o d -> covered t ttl (Node.retire_if_due t o) d.
Proof.
  intros Httl Hi. unfold Node.retire_if_due. destruct (ks_retireAt o) as [dl|] eqn:Er; [|done].
  destruct (passed dl t) eqn:Ep; [|done]. destruct Hi as [H1 H2 H3 H4 H5]. destruct (H5 dl Er) as (r & -> & Hr).
  apply passed_wall in Ep; [|rewrite H1; unfold Skew, Minute, Second; lia | done]. rewrite H1 in Ep.
  assert (HR : rg_closed (Retire (ks_ring o)) = rg_closed (ks_ring o) /\
    rg_current (Retire (ks_ring o)) = rg_current (ks_ring o) /\ rg_previous (Retire (ks_ring o)) = None).
  { unfold Retire. by destruct (rg_previous (ks_ring o)) eqn:E. }
  destruct HR as (E1 & E2 & E3). split.
  - split; cbn [ks_set_retireAt ks_set_ring ks_ring ks_grace ks_retireAt]; rewrite ?E1, ?E2, ?E3; done.
  - intros d [?|[(k & Hk & Hn & He)|[(k & dl & Hk & Hd & Hn & He)|He]]]; unfold covered;
      cbn [ks_set_retireAt ks_set_ring ks_ring ks_retireAt]; rewrite ?E1, ?E2.
    + by left.
    + right. left. by exists k.
    + right. right. right. rewrite Er in Hd. injection Hd as <-. etrans; [exact He|]. apply Unix_mono.
      cbn [after dl_wall]. rewrite H1. lia.
    + right. right. by right.
Qed.

(** Replacing the key in use, while no other is held. *)
Lemma rotate_inv t ttl o priv pub w e g w' : onion_inv t ttl o -> ks_retireAt o = None ->
  Rotate priv pub (ks_ring o) w = ((Ok e, g), w') ->
  let o' := ks_set_retireAt (Some (after t (ks_grace o))) (ks_set_rotateAt (after t (ks_every o)) (ks_set_ring g o)) in
  onion_inv t ttl o' /\ forall d, covered t ttl o d -> covered t ttl o' d.
Proof.
  intros [H1 H2 H3 H4 H5] Hr H o'. pose proof (H4 Hr) as Hp.
  apply Rotate_cases in H as [(x & [=] & _)|(p & cur & -> & Hcl & Hcur & _ & _ & _ & Hg & _)].
  unfold rotate_locked in Hg. rewrite Hcur in Hg. case_bool_decide; [discriminate|]. injection Hg as _ ->.
  split.
  - split; cbn [o' ks_set_retireAt ks_set_rotateAt ks_set_ring ks_ring ks_grace ks_retireAt rg_closed rg_current rg_previous]; try done.
    + intros _. eexists. split; [done|]. cbn [ok_epoch]. unfold uint32, u32. pose proof (Z.mod_pos_bound (ok_epoch cur + 1) (2 ^ 32)).
      apply andb_true_iff. split; [apply Z.leb_le | apply Z.ltb_lt]; lia.
    + congruence.
    + intros dl [= <-]. exists t. by split.
  - intros d [?|[(k & Hk & Hn & He)|[(k & dl & Hk & Hd & _)|He]]]; [congruence | | congruence | right; right; by right].
    right. right. left. rewrite Hcur in Hk. injection Hk as <-. exists cur, (after t (ks_grace o)). split_and!; try done.
    cbn [after dl_wall]. rewrite H1. etrans; [exact He|]. apply Unix_mono. lia.
Qed.

Lemma close_ring_inv t ttl o : onion_inv t ttl o ->
  onion_inv t ttl (ks_set_closed true (ks_set_ring (Ring_Close (ks_ring o)) o)).
Proof. intros [H1 H2 H3 H4 H5]. by split. Qed.

(** ** The invariant of a process *)

(** A bundle the node had in service, with the second it ran out. *)
Definition own_in (h : list served) (b : bytes) (u : Z) : Prop :=
  exists s, s ∈ h /\ b = sv_bundle s /\ u = Z.min (sv_notAfter s) (sv_expires s).

Lemma pc_inv_mono (O1 O2 : bytes -> Z -> Prop) c : (forall b u, O1 b u -> O2 b u) -> pc_inv O1 c -> pc_inv O2 c.
Proof.
  intros HO [H1 H2]. split; [done|]. intros m (es & Hb & Hok & Hes)%H2. exists es. split; [done|]. split; [done|].
  eapply Forall_impl; [exact Hes|]. intros it [(Ha & u & Hu & Hle)|?]; [left; split; [done|]; exists u; auto | by right].
Qed.

Lemma pc_step_mono (O1 O2 : bytes -> Z -> Prop) c c' : (forall b u, O1 b u -> O2 b u) -> pc_step O1 c c' -> pc_step O2 c c'.
Proof.
  intros HO [addr now answer d w d' w' Ha Hw H|own now d Ho]; [by eapply pc_refresh|].
  apply pc_publish. intros b u Hb. by apply HO, Ho.
Qed.

Lemma own_in_app l h b u : own_in h b u -> own_in (l ++ h) b u.
Proof. intros (s & Hs & H). exists s. split; [|done]. apply elem_of_app. by right. Qed.

(** The certificate of the node, or none yet. *)
Definition enrolled (t : Moment) (n : node) (i : Identity) : Prop :=
  match nd_installed n with
  | None => id_cert i = None /\ nd_notAfter n = 0 /\ nd_out n = None
  | Some raw => exists c, id_cert i = Some c /\ raw = Cert_Marshal c /\ nd_notAfter n = ct_NotAfter c /\
      ct_NotBefore c < ct_NotAfter c /\ ct_NotBefore c <= Unix (wall t + Skew) /\
      forall s, nd_out n = Some s ->
        exists d, serves s c d /\ own_descriptor (id_pub i) c d /\ de_Published d <= Unix (wall t)
  end.

(** The peers of the node are those of its roster. *)
Definition rostered (n : node) (h : list served) : Prop :=
  match nd_roster n with
  | None => nd_peers n = None
  | Some raw => exists ro c, ParseRoster raw = Ok ro /\ nd_peers n = Some c /\ pc_inv (own_in h) c /\
      pc_self c = nd_addr n /\ pc_addrs c = Node.peer_addrs (nd_addr n) (ro_Nodes ro) /\
      pc_read c = ByAnchor (ro_Anchor ro)
  end.

Record node_inv (t : Moment) (n : node) (h : list served) : Prop := {
  ni_time : 0 <= wall t;
  ni_ttl : 0 <= nd_ttl n;
  ni_id : exists i, nd_id n = Some i /\ id_inv i /\ id_name i = nd_name n /\ id_addr i = nd_addr n /\ enrolled t n i;
  ni_onion o : nd_onion n = Some o -> onion_inv t (nd_ttl n) o;
  ni_served s : s ∈ h -> exists c d, serves s c d /\ forall o, nd_onion n = Some o -> covered t (nd_ttl n) o d;
  ni_out s : nd_out n = Some s -> s ∈ h;
  ni_peers : rostered n h
}.

Lemma enrolled_time t t' n i : later t t' -> enrolled t n i -> enrolled t' n i.
Proof.
  intros Ht. unfold enrolled. destruct (nd_installed n); [|done]. intros (c & H1 & H2 & H3 & H4 & H5 & H6).
  assert (wall t <= wall t') by (unfold later in Ht; lia).
  exists c. split_and!; try done; [etrans; [exact H5|]; apply Unix_mono; lia|].
  intros s (d & Hs & Hd & Hp)%H6. exists d. split_and!; try done. etrans; [exact Hp|]. by apply Unix_mono.
Qed.

Lemma node_inv_time t t' n h : later t t' -> node_inv t n h -> node_inv t' n h.
Proof.
  intros Ht [H1 H2 H3 H4 H5 H6 H7]. split; try done.
  - unfold later in Ht. lia.
  - destruct H3 as (i & Hi & Hinv & En & Ea & He). exists i. split_and!; try done. by eapply enrolled_time.
  - intros o Ho. eapply onion_inv_time; [done | auto].
  - intros s (c & d & Hs & Hc)%H5. exists c, d. split; [done|]. intros o Ho. eapply covered_time; [done | auto].
Qed.

(** What is in service is already in the history of an invariant state. *)
Lemma rostered_app n l h : rostered n h -> rostered n (l ++ h).
Proof.
  unfold rostered. destruct (nd_roster n); [|done]. intros (ro & c & H1 & H2 & H3 & H4).
  exists ro, c. split_and!; try done; try apply H4. eapply pc_inv_mono; [|exact H3]. intros b u. apply own_in_app.
Qed.

Lemma node_inv_record t n h : node_inv t n h -> node_inv t n (in_service n ++ h).
Proof.
  intros [H1 H2 H3 H4 H5 H6 H7]. split; try done.
  - intros s [Hs|Hs]%elem_of_app; [|by apply H5]. unfold in_service in Hs.
    destruct (nd_out n) as [s'|]; [|by apply elem_of_nil in Hs]. apply list_elem_of_singleton in Hs as ->. by apply H5, H6.
  - intros s Hs. apply elem_of_app. right. by apply H6.
  - by apply rostered_app.
Qed.

Lemma current_own t n h u b tr : node_inv t n h -> Node.current n tr = Some (b, u) -> own_in h b u.
Proof.
  intros Hi. unfold Node.current. destruct (ni_id _ _ _ Hi) as (i & -> & _).
  destruct (nd_out n) as [s|] eqn:Es; [|done]. destruct (_ <=? _); [done|]. intros [= <- <-].
  exists s. split; [|done]. by apply (ni_out _ _ _ Hi).
Qed.

Lemma set_onion_keys_inv t n h i : node_inv t n h -> nd_id n = Some i -> id_inv (Node.set_onion_keys n i).
Proof.
  intros Hi Hid. destruct (ni_id _ _ _ Hi) as (i' & E & Hinv & _). rewrite E in Hid. injection Hid as <-.
  unfold Node.set_onion_keys. destruct (nd_onion n) as [o|] eqn:Eo; [|done].
  pose proof (ni_onion _ _ _ Hi o Eo) as Ho. unfold Current.
  destruct (rg_current (ks_ring o)) as [k|] eqn:Ek; apply (id_step_inv _ _ Hinv), st_keys; [|done].
  destruct (rg_closed (ks_ring o)) eqn:Ecl.
  - by rewrite (oi_closed _ _ _ Ho Ecl) in Ek.
  - destruct (oi_open _ _ _ Ho Ecl) as (k' & Hk' & He). congruence.
Qed.

(** A new descriptor names the key in use. *)
Lemma signed_covered t n h i now s : node_inv now n h -> signed_at now n i s -> later now t ->
  exists c d, serves s c d /\ id_cert i = Some c /\ own_descriptor (id_pub i) c d /\
    de_Published d <= Unix (wall t) /\ forall o, nd_onion n = Some o -> covered t (nd_ttl n) o d.
Proof.
  intros Hi (c & d & Hs & Hc & Hd & Do & De & Dp & Dx) Ht. exists c, d. split_and!; try done.
  { rewrite Dp. apply Unix_mono. destruct Ht. lia. }
  intros o Eo. pose proof (ni_onion _ _ _ Hi o Eo) as Ho.
  destruct (rg_closed (ks_ring o)) eqn:Ecl; [by left|]. destruct (oi_open _ _ _ Ho Ecl) as (k & Hk & _).
  right. left. exists k. unfold Node.set_onion_keys, Current in Do, De. rewrite Eo, Hk in Do, De.
  cbn [default SetKeys id_with_keys id_onion id_epoch] in Do, De. split_and!; [done | by split |].
  etrans; [exact Dx|]. apply Unix_mono. destruct Ht. lia.
Qed.

Lemma peers_by_rostered n n' h : same_frame n n' -> peers_by n n' -> rostered n h ->
  (forall b u, own_of n' b u -> own_in h b u) -> rostered n' h.
Proof.
  intros (_ & Ea & _ & _ & _ & _ & _ & _ & Er & _) Hp Hr Hown. unfold rostered in *. rewrite Er, Ea.
  destruct (nd_roster n) as [raw|].
  - destruct Hr as (ro & c & H1 & H2 & H3 & H4 & H5 & H6). destruct Hp as [->|(c' & own & tp & Hc & -> & Ho)]; [by exists ro, c|].
    rewrite H2 in Hc. injection Hc as <-. exists ro, (publish own tp c). pose proof (publish_fixed own tp c) as (E1 & E2 & E3 & _).
    rewrite E1, E2, E3. split_and!; try done. apply publish_inv; [|done]. intros b u Hb. by apply Hown, Ho.
  - destruct Hp as [->|(c' & _ & _ & Hc & _)]; [done | congruence].
Qed.

Lemma in_service_elem n s h : nd_out n = Some s -> s ∈ in_service n ++ h.
Proof. intros H. unfold in_service. rewrite H. by left. Qed.

Lemma own_in_service n h b u : (exists i, nd_id n = Some i) -> own_of n b u -> own_in (in_service n ++ h) b u.
Proof.
  intros (i & Hi) (t & H). unfold Node.current in H. rewrite Hi in H. destruct (nd_out n) as [s|] eqn:Es; [|done].
  destruct (_ <=? _); [done|]. injection H as <- <-. exists s. split; [by apply in_service_elem | done].
Qed.

(** A signing keeps the invariant. *)
Lemma inv_signing now t n n' h i : node_inv now n h -> nd_id n = Some i -> same_frame n n' -> signing now n n' i ->
  later now t -> node_inv t n' (in_service n' ++ h).
Proof.
  intros Hi Eid HF (i' & Eid' & Hinv' & Hst & Ec & Ep & Hpe & Hout) Ht.
  pose proof HF as (Fn & Fa & _ & Fttl & Fna & _ & Finst & _ & Fr & _ & Fo).
  destruct (ni_id _ _ _ Hi) as (j & E & _ & En & Ea & Henr). rewrite Eid in E. injection E as <-.
  apply id_step_same in Hst as (Sn & Sa & _). 
  assert (Hs0 : id_name (Node.set_onion_keys n i) = id_name i /\ id_addr (Node.set_onion_keys n i) = id_addr i).
  { unfold Node.set_onion_keys. destruct (nd_onion n) as [o|]; [|done]. by destruct (Current (ks_ring o)). }
  destruct Hs0 as [Sn0 Sa0].
  assert (Hserved : forall s, nd_out n' = Some s -> exists c d, serves s c d /\ id_cert i = Some c /\
    own_descriptor (id_pub i) c d /\ de_Published d <= Unix (wall t) /\
    forall o, nd_onion n = Some o -> covered t (nd_ttl n) o d).
  { intros s Hs. destruct Hout as [Ho|(s' & Ho & Hsig)].
    - rewrite Ho in Hs. unfold enrolled in Henr. destruct (nd_installed n); [|destruct Henr as (_ & _ & Hn); congruence].
      destruct Henr as (c & Hc & _ & _ & _ & _ & Hd). destruct (Hd s Hs) as (d & Hsd & Hod & Hpub).
      destruct (ni_served _ _ _ Hi s (ni_out _ _ _ Hi s Hs)) as (c' & d' & Hs' & Hcov).
      destruct (serves_inj _ _ _ _ _ Hsd Hs') as [<- <-]. exists c, d. split_and!; try done.
      + etrans; [exact Hpub|]. apply Unix_mono. destruct Ht. lia.
      + intros o Hoo. eapply covered_time; [exact Ht | auto].
    - rewrite Ho in Hs. injection Hs as ->. by apply (signed_covered t n h i now). }
  split.
  - pose proof (ni_time _ _ _ Hi). destruct Ht. lia.
  - rewrite Fttl. by apply (ni_ttl _ _ _ Hi).
  - exists i'. rewrite Fn, Fa. split_and!; try done; try congruence. apply (enrolled_time _ _ _ _ Ht) in Henr.
    unfold enrolled in *. rewrite Finst, Fna. destruct (nd_installed n) as [raw|].
    + destruct Henr as (c & Hc & Hraw & Hna & Hnb & Hnb' & _). exists c. rewrite Ec, Ep. split_and!; try done.
      intros s (c' & d & Hs & Hc' & Hod & Hpub & _)%Hserved. exists d. by replace c with c' by congruence.
    + destruct Henr as (Hc & Hna & Ho). rewrite Ec. split_and!; try done.
      destruct (nd_out n') as [s|]; [|done]. destruct (Hserved s eq_refl) as (c & d & _ & Hc' & _). congruence.
  - intros o. rewrite Fo, Fttl. intros Ho. eapply onion_inv_time; [exact Ht | by apply (ni_onion _ _ _ Hi)].
  - rewrite Fo, Fttl. intros s [Hs|Hs]%elem_of_app.
    + unfold in_service in Hs. destruct (nd_out n') as [s'|] eqn:Eo; [|by apply elem_of_nil in Hs].
      apply list_elem_of_singleton in Hs as ->. destruct (Hserved s' eq_refl) as (c & d & H1 & _ & _ & _ & H2). by exists c, d.
    + destruct (ni_served _ _ _ Hi s Hs) as (c & d & H1 & H2). exists c, d. split; [done|].
      intros o Ho. eapply covered_time; [exact Ht | auto].
  - intros s Hs. by apply in_service_elem.
  - apply (peers_by_rostered n); [done | done | by apply rostered_app, (ni_peers _ _ _ Hi) |].
    intros b u. apply own_in_service. by exists i'.
Qed.

(** Taking the one certificate, before it is signed under. *)
Lemma inv_install now n h i i' raw cert (at_ : option Moment) :
  node_inv now n h -> nd_id n = Some i -> nd_installed n = None -> ParseCert raw = Ok cert ->
  Install raw (wall now) i = (Ok tt, i') ->
  node_inv now (nd_set_notAfter (ct_NotAfter cert) (nd_set_installedAt now
    (nd_set_installed (Some raw) (nd_set_requestAt at_ (nd_set_id (Some i') n))))) h.
Proof.
  intros Hi Eid Einst Hp HI. destruct (ni_id _ _ _ Hi) as (j & E & Hinv & En & Ea & Henr).
  rewrite Eid in E. injection E as <-. unfold enrolled in Henr. rewrite Einst in Henr. destruct Henr as (_ & _ & Ho).
  pose proof (Install_inv _ _ _ _ _ Hinv HI) as Hinv'. pose proof (id_step_same _ _ (st_install _ _ _ _ _ HI)) as (Sn & Sa & _).
  apply Install_ok in HI as (c & Hc & _ & _ & _ & _ & (Hw1 & Hw2 & _) & _ & ->). rewrite Hp in Hc. apply ok_inj in Hc as <-.
  apply ParseCert_spec in Hp as [_ Hraw]. destruct Hi as [H1 H2 H3 H4 H5 H6 H7].
  split; cbn [nd_set_notAfter nd_set_installedAt nd_set_installed nd_set_requestAt nd_set_id nd_ttl nd_id nd_onion nd_out]; try done.
  eexists. split; [reflexivity|]. split_and!; try done. exists cert. split_and!; try done.
  intros s Hs. cbn in Hs. congruence.
Qed.

Lemma inv_setPeers t n h raw ro ts : node_inv t n h -> nd_roster n = None -> ParseRoster raw = Ok ro ->
  node_inv t (Node.setPeers ts (Node.peer_addrs (nd_addr n) (ro_Nodes ro)) (ByAnchor (ro_Anchor ro))
                (nd_set_roster (Some raw) n)) h.
Proof.
  intros Hi Er Hp. pose proof (current_own t n h) as Hcur. destruct (Hi) as [H1 H2 H3 H4 H5 H6 H7]. unfold Node.setPeers.
  split; try done. unfold rostered. cbn [nd_set_peers nd_set_roster nd_roster nd_peers nd_addr].
  set (c := newPeerCache (nd_addr n) (nd_peerRetry n) (Node.peer_addrs (nd_addr n) (ro_Nodes ro)) (ByAnchor (ro_Anchor ro))).
  set (own := Node.current (nd_set_roster (Some raw) n) (ts 0%nat)).
  exists ro, (publish own (wall (ts 1%nat)) c). split; [done|]. split; [reflexivity|].
  pose proof (publish_fixed own (wall (ts 1%nat)) c) as (-> & -> & -> & _).
  split; [|done]. apply publish_inv; [|apply new_cache_inv]. intros b u Hb.
  apply (Hcur u b (ts 0%nat) Hi). exact Hb.
Qed.

(** *** Every operation keeps it *)

(** The identity changes and nothing else does. *)
Lemma inv_id t n h i i' : node_inv t n h -> nd_id n = Some i -> id_step i i' -> id_cert i' = id_cert i ->
  node_inv t (nd_set_id (Some i') n) h.
Proof.
  intros Hi Eid Hst Ec. destruct (ni_id _ _ _ Hi) as (j & E & Hinv & En & Ea & Henr). rewrite Eid in E. injection E as <-.
  pose proof (id_step_same _ _ Hst) as (Sn & Sa & Sp & _). pose proof (id_step_inv _ _ Hinv Hst) as Hinv'.
  destruct Hi as [H1 H2 H3 H4 H5 H6 H7]. split; try done. exists i'. cbn [nd_set_id nd_id nd_name nd_addr].
  split_and!; try done; try congruence. unfold enrolled in *. cbn [nd_set_id nd_installed nd_notAfter nd_out].
  by rewrite Ec, Sp.
Qed.

(** The onion keys change and nothing else does. *)
Lemma inv_onion t n h o' : node_inv t n h -> onion_inv t (nd_ttl n) o' ->
  (forall s c d, s ∈ h -> serves s c d -> covered t (nd_ttl n) o' d) -> node_inv t (nd_set_onion (Some o') n) h.
Proof.
  intros Hi Ho Hc. destruct Hi as [H1 H2 H3 H4 H5 H6 H7]. split; try done.
  - intros o [= <-]. done.
  - intros s Hs. destruct (H5 s Hs) as (c & d & Hsd & _). exists c, d. split; [done|]. intros o [= <-]. by eapply Hc.
Qed.

Lemma inv_covered t n h o s c d : node_inv t n h -> nd_onion n = Some o -> s ∈ h -> serves s c d -> covered t (nd_ttl n) o d.
Proof.
  intros Hi Ho Hs Hd. destruct (ni_served _ _ _ Hi s Hs) as (c' & d' & Hd' & Hc).
  destruct (serves_inj _ _ _ _ _ Hd Hd') as [_ ->]. auto.
Qed.

(** [sign] of an invariant node. *)
Lemma inv_sign ts now t n w r n' w' h : Node.sign ts now n w = ((r, n'), w') -> sizes_sound w ->
  node_inv now n h -> later now t -> node_inv t n' (in_service n' ++ h).
Proof.
  intros H Hw Hi Ht. apply sign_spec in H as (HF & [(E & _)|(i & E & Hs)]); [| |done|apply (ni_time _ _ _ Hi)|].
  - destruct (ni_id _ _ _ Hi) as (i & E' & _). congruence.
  - by eapply inv_signing.
  - intros i E. by eapply set_onion_keys_inv.
Qed.

Lemma handleRequest_inv now body n w r n' w' h : Node.handleRequest now body n w = ((r, n'), w') ->
  node_inv now n h -> node_inv now n' (in_service n' ++ h).
Proof.
  intros H Hi. assert (Hq : node_inv now n' h); [|by apply node_inv_record].
  unfold Node.handleRequest in H. destruct (Node.readBody body) as [nonce|]; [|by injection H as <- <- <-].
  repeat (destruct (negb _) || destruct (bool_decide _); [by injection H as <- <- <-|]).
  destruct (nd_id n) as [i|] eqn:E; [|by injection H as <- <- <-].
  destruct (Identity_Request i nonce w) as [[req|e] w1]; injection H as <- <- <-; [|done].
  destruct Hi as [H1 H2 H3 H4 H5 H6 H7]. by split.
Qed.

Lemma handleCert_inv ts body n w r n' w' h t : Node.handleCert ts body n w = ((r, n'), w') -> sizes_sound w ->
  node_inv (ts 0%nat) n h -> later (ts 0%nat) t -> node_inv t n' (in_service n' ++ h).
Proof.
  intros H Hw Hi Ht. assert (Hq : forall m, m = n -> node_inv t m (in_service m ++ h)).
  { intros m ->. apply node_inv_record. by eapply node_inv_time. }
  unfold Node.handleCert in H. destruct (readBody body) as [raw|]; [|injection H as <- <- <-; by apply Hq].
  destruct (ParseCert raw) as [cert|] eqn:Ep; [|injection H as <- <- <-; by apply Hq].
  destruct (nd_installed n) as [inst|] eqn:Ei; [destruct (_ && _); injection H as <- <- <-; by apply Hq|].
  destruct (Node.cert_refused _ cert n); [injection H as <- <- <-; by apply Hq|].
  destruct (nd_id n) as [i|] eqn:Eid; [|injection H as <- <- <-; by apply Hq].
  destruct (Install raw (wall (ts 0%nat)) i) as [[[]|e] i'] eqn:EI.
  - pose proof (inv_install _ _ _ _ _ _ _ None Hi Eid Ei Ep EI) as Hi1.
    match type of Hi1 with node_inv _ ?m _ => set (n1 := m) in * end.
    destruct (Node.sign (Node.shift 2 ts) (ts 0%nat) n1 w) as [[[[]|e] n2] w2] eqn:Es; injection H as <- <- <-;
      by eapply inv_sign.
  - injection H as <- <- <-. apply Install_err in EI as ->. apply Hq. by destruct n; cbn in *; subst.
Qed.

Lemma handleRoster_inv ts body n w r n' w' h t : Node.handleRoster ts body n w = ((r, n'), w') ->
  node_inv (ts 0%nat) n h -> later (ts 0%nat) t -> node_inv t n' (in_service n' ++ h).
Proof.
  intros H Hi Ht. apply node_inv_record, (node_inv_time _ _ _ _ Ht).
  unfold Node.handleRoster in H. destruct (readBody body) as [raw|]; [|by injection H as <- <- <-].
  destruct (ParseRoster raw) as [ro|] eqn:Ep; [|by injection H as <- <- <-].
  destruct (nd_roster n) as [r0|] eqn:Er; [destruct (bool_decide _); by injection H as <- <- <-|].
  destruct (bool_decide _); [by injection H as <- <- <-|]. destruct (_ <? _); [by injection H as <- <- <-|].
  destruct (Node.descriptor n _); [|by injection H as <- <- <-]. destruct (negb _); [by injection H as <- <- <-|].
  destruct (Verify _ _ _ _ w) as [[v|e] w1]; injection H as <- <- <-; [|done]. by apply inv_setPeers.
Qed.

Lemma refreshIfDue_inv ts n w n' w' h t t' : Node.refreshIfDue ts n w = (n', w') -> sizes_sound w ->
  node_inv t n h -> reads t ts t' -> node_inv t' n' (in_service n' ++ h).
Proof.
  intros H Hw Hi [Hr Hr']. pose proof (Hr 0%nat) as [Ha Hb]. pose proof (Hr 1%nat) as [Hc Hd].
  assert (Hq : node_inv t' n (in_service n ++ h)).
  { apply node_inv_record. apply (node_inv_time t); [|done]. by transitivity (ts 0%nat). }
  unfold Node.refreshIfDue in H. destruct (_ || _); [by injection H as <- <-|].
  destruct (_ && _); [by injection H as <- <-|].
  destruct (Node.sign (Node.shift 2 ts) (ts 1%nat) n w) as [[r n2] w2] eqn:Es. injection H as <- <-.
  eapply inv_sign; [done | done | by eapply node_inv_time | done].
Qed.

Lemma publishOnion_inv ts now n w r n' w' h t : Node.publishOnion ts now n w = ((r, n'), w') -> sizes_sound w ->
  node_inv now n h -> later now t -> node_inv t n' (in_service n' ++ h).
Proof.
  intros H Hw Hi Ht. destruct (ni_id _ _ _ Hi) as (i & Ei & _). unfold Node.publishOnion in H. rewrite Ei in H.
  destruct (bool_decide _); [by eapply inv_sign|]. injection H as <- <- <-.
  apply node_inv_record. by eapply node_inv_time.
Qed.

Lemma Rotate_err priv pub g w e g' w' : Rotate priv pub g w = ((Err e, g'), w') -> g' = g.
Proof. by intros [(x & _ & ->)|(p & cur & _ & _ & _ & _ & _ & _ & _ & [=])]%Rotate_cases. Qed.

Lemma NewContext_sound (w w' : World) : size_cache w' = size_cache w -> sizes_sound w -> sizes_sound w'.
Proof. unfold sizes_sound. by intros ->. Qed.

Lemma checkKeyPair_world priv pub m w r w' : checkKeyPair priv pub m w = (r, w') -> size_cache w' = size_cache w.
Proof.
  unfold checkKeyPair, bindM, draw. destruct (GenerateEphemeral (entropy w)) as [[[ep eP]|e] e1]; [|by intros [= _ <-]].
  unfold lift. destruct (NewContext _ _); [|by intros [= _ <-]]. destruct (refuse_key m (Agree ep pub a)); [|by intros [= _ <-]].
  destruct (refuse_key m (Agree priv eP a)); [|by intros [= _ <-]]. destruct (negb _); by intros [= _ <-].
Qed.

Lemma rotate_world locked o w r g w' : Node.rotate locked o w = ((r, g), w') -> size_cache w' = size_cache w.
Proof.
  unfold Node.rotate, draw. destruct (GenerateEphemeral (entropy w)) as [[[priv pub]|e] e1]; [|by intros [= _ _ <-]].
  destruct (_ && _); [by intros [= _ _ <-]|]. unfold Rotate. destruct (negb _); [by intros [= _ _ <-]|].
  destruct (checkKeyPair priv pub relay_ErrOnionKey (with_entropy e1 w)) as [[u|e] w2] eqn:E; apply checkKeyPair_world in E.
  - destruct (rg_closed (ks_ring o)); intros H; apply (f_equal snd) in H; cbn in H; by subst w2.
  - intros [= _ _ <-]. done.
Qed.

Lemma rotate_ok locked o w e g w' : Node.rotate locked o w = ((Ok e, g), w') ->
  exists priv pub w1, Rotate (Some priv) pub (ks_ring o) w1 = ((Ok e, g), w').
Proof.
  unfold Node.rotate. destruct (draw GenerateEphemeral w) as [[[priv pub]|x] w1]; [|done].
  destruct (_ && _); [done|]. eauto.
Qed.

Lemma rotate_err locked o w e g w' : Node.rotate locked o w = ((Err e, g), w') -> g = ks_ring o.
Proof.
  unfold Node.rotate. destruct (draw GenerateEphemeral w) as [[[priv pub]|x] w1]; [|congruence].
  destruct (_ && _); [congruence|]. apply Rotate_err.
Qed.

Lemma rotateIfDue_inv ts locked n w n' w' h t t' : Node.rotateIfDue ts locked n w = (n', w') -> sizes_sound w ->
  node_inv t n h -> reads t ts t' -> node_inv t' n' (in_service n' ++ h).
Proof.
  intros H Hw Hi [Hr _]. pose proof (Hr 0%nat) as [Ha Hb].
  assert (Hi0 : node_inv (ts 0%nat) n h) by by eapply node_inv_time.
  assert (Hq : forall m, node_inv (ts 0%nat) m h -> node_inv t' m (in_service m ++ h)).
  { intros m Hm. apply node_inv_record. by eapply node_inv_time. }
  unfold Node.rotateIfDue in H. destruct (nd_onion n) as [o|] eqn:Eo; [|injection H as <- <-; by apply Hq].
  destruct (ks_closed o); [injection H as <- <-; by apply Hq|].
  destruct (retire_inv _ _ _ (ni_ttl _ _ _ Hi0) (ni_onion _ _ _ Hi0 o Eo)) as [Ho1 Hc1].
  set (o1 := Node.retire_if_due (ts 0%nat) o) in *.
  assert (Hcov : forall s c d, s ∈ h -> serves s c d -> covered (ts 0%nat) (nd_ttl n) o1 d).
  { intros s c d Hs Hd. apply Hc1. by eapply inv_covered. }
  destruct (_ || _) eqn:Eg; [injection H as <- <-; by apply Hq, inv_onion|].
  apply orb_false_iff in Eg as [_ Eg%bool_decide_eq_false].
  destruct (Node.rotate locked o1 w) as [[[e|e] g] w1] eqn:Er.
  - pose proof (rotate_world _ _ _ _ _ _ Er) as Hw1. apply rotate_ok in Er as (priv & pub & w0 & Er).
    assert (Hn : ks_retireAt o1 = None) by (destruct (ks_retireAt o1); [by destruct Eg | done]).
    destruct (rotate_inv _ _ _ _ _ _ _ _ _ Ho1 Hn Er) as [Ho2 Hc2].
    match type of Ho2 with onion_inv _ _ ?o2 => set (ok2 := o2) in * end.
    destruct (Node.publishOnion (Node.shift 1 ts) (ts 0%nat) (nd_set_onion (Some ok2) n) w1) as [[r n2] w2] eqn:Ep.
    injection H as <- <-. eapply publishOnion_inv; [exact Ep | by eapply NewContext_sound | | exact Hb].
    apply inv_onion; [done | done |]. intros s c d Hs Hd. apply Hc2. by eapply Hcov.
  - apply rotate_err in Er as ->. injection H as <- <-. apply Hq.
    apply inv_onion; [done | by destruct Ho1 |]. intros s c d Hs Hd. apply (Hcov s c d Hs Hd).
Qed.

Lemma node_step_inv t t' n n' h : node_step t t' n n' -> node_inv t n h -> node_inv t' n' (in_service n' ++ h).
Proof.
  intros H Hi. destruct H as [now body n w r n' w' H1 H2 H|ts body n w r n' w' [Hr _] Hw H|ts body n w r n' w' [Hr _] Hw H
    |ts n w n' w' Hr Hw H|ts locked n w n' w' Hr Hw H|cell w n o Ho Ht|n c c' Hc Ht Hs|n Ht|n i Ei Ht].
  - pose proof (handleRequest_inv _ _ _ _ _ _ _ h H (node_inv_time _ _ _ _ H1 Hi)) as Hi'. by eapply node_inv_time.
  - destruct (Hr 0%nat) as [Ha Hb]. eapply handleCert_inv; [done | done | by eapply node_inv_time | done].
  - destruct (Hr 0%nat) as [Ha Hb]. eapply handleRoster_inv; [done | by eapply node_inv_time | done].
  - by eapply refreshIfDue_inv.
  - by eapply rotateIfDue_inv.
  - apply (node_inv_time _ _ _ _ Ht) in Hi. apply node_inv_record. unfold open_ring.
    destruct (Ring_Open cell (ks_ring o) w) as [[r g] w'] eqn:E. apply Ring_Open_keys in E. cbn [fst snd].
    apply inv_onion; [done | by apply same_keys_inv, (ni_onion _ _ _ Hi) |].
    intros s x d Hs Hd. apply same_keys_covered; [done|]. by eapply inv_covered.
  - apply (node_inv_time _ _ _ _ Ht) in Hi. apply node_inv_record.
    pose proof (own_in_service n h) as Hown. destruct (Hi) as [H1 H2 H3 H4 H5 H6 H7]. split; try done.
    unfold rostered in *. cbn [nd_set_peers nd_roster nd_peers nd_addr].
    destruct (nd_roster n); [|congruence]. destruct H7 as (ro & c0 & Hp & Hc0 & Hinv & E1 & E2 & E3).
    rewrite Hc in Hc0. injection Hc0 as <-. exists ro, c'.
    pose proof (pc_step_fixed _ _ _ Hs) as (F1 & F2 & F3 & _). rewrite F1, F2, F3. split_and!; try done.
    eapply pc_step_inv; [exact Hinv|]. eapply pc_step_mono; [|exact Hs]. intros b u (tr & Hb).
    by eapply current_own.
  - apply (node_inv_time _ _ _ _ Ht) in Hi. apply node_inv_record. unfold Node.closeOnion.
    destruct (nd_onion n) as [o|] eqn:Eo; [|done]. apply inv_onion; [done | by apply close_ring_inv, (ni_onion _ _ _ Hi) |].
    intros s c d _ _. by left.
  - apply (node_inv_time _ _ _ _ Ht) in Hi. apply node_inv_record. eapply inv_id; [done | done | apply st_close | done].
Qed.

(** ** From the start *)

Lemma start_onion_ok cfg pub locked now w r onion w' : Node.start_onion cfg pub locked now w = (Ok (r, onion), w') ->
  match onion with
  | None => Node.cf_onionRotate cfg = 0 /\ r = pub
  | Some o => exists priv w1 g, NewOnionRing (Some priv) r (Node.cf_setupCache cfg) w1 = (Ok g, w') /\
      o = Node.newOnionKeys g (Node.cf_onionRotate cfg) (Node.cf_ttl cfg) (Node.cf_lock cfg) now
  end.
Proof.
  unfold Node.start_onion. destruct (Z.eqb_spec (Node.cf_onionRotate cfg) 0) as [E|E].
  - intros [[= -> ->] _]%retM_ok. done.
  - intros ((priv & opub) & w1 & _ & H)%bindM_ok. destruct (_ && _); [discriminate|].
    apply bindM_ok in H as (g & w2 & Hg & [[= -> ->] ->]%retM_ok). by exists priv, w1, g.
Qed.

Lemma newOnionKeys_inv g every ttl lock now p pub n : g = staticRing p pub n ->
  onion_inv now ttl (Node.newOnionKeys g every ttl lock now).
Proof. intros ->. split; cbn; try done. intros _. by eexists. Qed.

Lemma checkTTL_ok ttl : Node.checkTTL ttl = Ok tt -> Minute <= ttl <= MaxDescriptorLife.
Proof.
  unfold Node.checkTTL. destruct (_ || _) eqn:E; [discriminate|]. apply orb_false_iff in E as [E1%Z.ltb_ge E2%Z.ltb_ge]. done.
Qed.

Lemma NewIdentity_blank name addr w i w' : NewIdentity name addr w = (Ok i, w') -> id_cert i = None.
Proof.
  unfold NewIdentity. destruct (negb _ || negb _); [discriminate|].
  by intros ((k & pub) & w1 & _ & [-> _]%retM_ok)%bindM_ok.
Qed.

Lemma start_inv cfg pub locked idLocked ts w n w' : Node.start cfg pub locked idLocked ts w = (Ok n, w') ->
  Node.cf_auth cfg = true -> Node.checkTTL (Node.cf_ttl cfg) = Ok tt -> 0 <= wall (ts 0%nat) ->
  node_inv (ts 0%nat) n [].
Proof.
  intros H Ha Httl%checkTTL_ok Ht. unfold Node.start in H. rewrite Ha in H.
  apply bindM_ok in H as ((r & onion) & w1 & Ho & H). apply start_onion_ok in Ho.
  apply bindM_ok in H as (i & w2 & Hi & H). pose proof (NewIdentity_blank _ _ _ _ _ Hi) as Hc.
  apply NewIdentity_ok in Hi as (Hinv & En & Ea & _).
  destruct (_ && _); [discriminate|]. apply retM_ok in H as [-> _].
  split; cbn [nd_set_id Node.blank nd_ttl nd_onion nd_out]; try done.
  - unfold Minute, Second in Httl. lia.
  - exists (SetKeys pub r 0 i). split; [done|]. split; [by apply (id_step_inv _ _ Hinv), st_keys|]. by split_and!.
  - intros o ->. destruct Ho as (priv & w3 & g & Hg & ->). apply NewOnionRing_ok in Hg as (p & _ & _ & _ & Hg).
    by eapply newOnionKeys_inv.
  - intros s Hs. by apply elem_of_nil in Hs.
Qed.

(** A process under authentication, from its start. *)
Definition reachable (cfg : Node.config) (p : Process) : Prop :=
  exists p0, started cfg p0 /\ rtc process_step p0 p /\ Node.cf_auth cfg = true /\
    Node.checkTTL (Node.cf_ttl cfg) = Ok tt.

Lemma process_step_inv p p' : process_step p p' -> node_inv (pr_now p) (pr_node p) (pr_served p) ->
  node_inv (pr_now p') (pr_node p') (pr_served p').
Proof. intros [t t' n n' h H]. cbn. by apply node_step_inv. Qed.

Lemma process_steps_inv p p' : rtc process_step p p' -> node_inv (pr_now p) (pr_node p) (pr_served p) ->
  node_inv (pr_now p') (pr_node p') (pr_served p').
Proof. induction 1 as [|x y z Hs _ IH]; [done|]. intros Hi. apply IH. by eapply process_step_inv. Qed.

Lemma reachable_inv cfg p : reachable cfg p -> node_inv (pr_now p) (pr_node p) (pr_served p).
Proof.
  intros (p0 & (pub & locked & idLocked & ts & w & n & w' & _ & [Hr _] & Ht & Hs & En & Eh) & Hrun & Ha & Httl).
  eapply process_steps_inv; [exact Hrun|]. rewrite En, Eh. eapply node_inv_time; [apply (Hr 0%nat)|].
  by eapply start_inv.
Qed.

Lemma sign_frame ts now n w r n' w' : Node.sign ts now n w = ((r, n'), w') -> same_frame n n'.
Proof.
  unfold Node.sign. destruct (nd_id n) as [i|]; [|by intros [= _ <- _]].
  destruct (Refresh _ _ _ w) as [[r1 i'] w1]. destruct r1 as [[]|e]; [|by intros [= _ <- _]].
  destruct (Identity_Bundle i') as [b|]; [|by intros [= _ <- _]]. destruct (servedFrom b) as [sv|]; [|by intros [= _ <- _]].
  intros [= _ <- _]. match goal with |- context [Node.publish_peers ?a ?m] => destruct (publish_peers_frame a m) as (HF & _) end.
  exact HF.
Qed.

Lemma publishOnion_frame ts now n w r n' w' : Node.publishOnion ts now n w = ((r, n'), w') -> same_frame n n'.
Proof.
  unfold Node.publishOnion. destruct (nd_id n) as [i|].
  - destruct (bool_decide _); [apply sign_frame | by intros [= _ <- _]].
  - destruct (nd_onion n) as [o|] eqn:Eo; [|by intros [= _ <- _]]. destruct (Current (ks_ring o)) as [e pub].
    destruct (UnsignedEpoch _ _ e w) as [[b|x] w1]; [|by intros [= _ <- _]].
    intros [= _ <- _]. match goal with |- context [Node.publish_peers ?a ?m] => destruct (publish_peers_frame a m) as (HF & _) end.
    exact HF.
Qed.

Lemma Retire_spec g : rg_current (Retire g) = rg_current g /\ rg_previous (Retire g) = None /\
  rg_released (Retire g) = rg_released g ++ slot_privs (rg_previous g).
Proof. unfold Retire. destruct (rg_previous g) eqn:E; [done|]. by rewrite E, app_nil_r. Qed.

Lemma rotate_ring locked o w e g w' : Node.rotate locked o w = ((Ok e, g), w') ->
  rg_previous g = rg_current (ks_ring o) /\ rg_released g = rg_released (ks_ring o) ++ slot_privs (rg_previous (ks_ring o)).
Proof.
  intros (priv & pub & w1 & [(x & [=] & _)|(p & cur & _ & _ & Hcur & _ & _ & _ & Hg & _)]%Rotate_cases)%rotate_ok.
  unfold rotate_locked in Hg. rewrite Hcur in Hg. case_bool_decide; [discriminate|]. injection Hg as _ ->. by rewrite Hcur.
Qed.

(** What one look at the clock does to the ring. *)
Lemma rotateIfDue_ring ts locked n w n' w' o : Node.rotateIfDue ts locked n w = (n', w') ->
  nd_onion n = Some o -> ks_closed o = false ->
  exists o', nd_onion n' = Some o' /\
    let turned := rg_current (ks_ring o') = rg_current (ks_ring o) \/
      passed (ks_rotateAt o) (ts 0%nat) = true /\ rg_previous (ks_ring o') = rg_current (ks_ring o) /\
      ks_retireAt o' = Some (after (ts 0%nat) (ks_grace o)) in
    match ks_retireAt o with
    | Some dl =>
        if passed dl (ts 0%nat)
        then (forall k, k ∈ slot_privs (rg_previous (ks_ring o)) -> k ∈ rg_released (ks_ring o')) /\ turned
        else ks_ring o' = ks_ring o /\ o' = o
    | None => turned
    end.
Proof.
  intros H Ho Hcl. unfold Node.rotateIfDue in H. rewrite Ho, Hcl in H.
  set (now := ts 0%nat) in *. set (o1 := Node.retire_if_due now o) in H.
  assert (H1 : ks_rotateAt o1 = ks_rotateAt o /\ ks_grace o1 = ks_grace o /\ rg_current (ks_ring o1) = rg_current (ks_ring o) /\
    match ks_retireAt o with
    | Some dl => if passed dl now then ks_retireAt o1 = None /\
                   rg_released (ks_ring o1) = rg_released (ks_ring o) ++ slot_privs (rg_previous (ks_ring o)) else o1 = o
    | None => o1 = o
    end).
  { unfold o1, Node.retire_if_due. destruct (ks_retireAt o) as [dl|]; [|done]. destruct (passed dl now); [|done].
    destruct (Retire_spec (ks_ring o)) as (E1 & E2 & E3). by rewrite <- E3, <- E1. }
  destruct H1 as (Ea & Eg & Ec & E1). rewrite Ea in H.
  destruct (negb (passed (ks_rotateAt o) now) || bool_decide (ks_retireAt o1 <> None)) eqn:Egd.
  - injection H as <- _. exists o1. split; [done|]. cbv zeta. destruct (ks_retireAt o) as [dl|]; [|by left].
    destruct (passed dl now); [|by rewrite E1]. destruct E1 as [_ ->]. split; [|by left].
    intros k Hk. apply elem_of_app. by right.
  - apply orb_false_iff in Egd as [Hp%negb_false_iff Hn%bool_decide_eq_false].
    assert (Hpend : forall dl, ks_retireAt o = Some dl -> passed dl now = true /\
      rg_released (ks_ring o1) = rg_released (ks_ring o) ++ slot_privs (rg_previous (ks_ring o))).
    { intros dl Hdl. rewrite Hdl in E1. destruct (passed dl now); [by destruct E1|]. subst o1. rewrite E1 in Hn.
      destruct Hn. by rewrite Hdl. }
    destruct (Node.rotate locked o1 w) as [[[e|e] g] w1] eqn:Er.
    + apply rotate_ring in Er as [Epr Erl]. rewrite Ec in Epr.
      destruct (Node.publishOnion _ now _ w1) as [[r n2] w2] eqn:Ep. injection H as <- _. apply publishOnion_frame in Ep.
      eexists. split; [apply Ep|]. cbv zeta.
      cbn [ks_set_retireAt ks_set_rotateAt ks_set_ring ks_ring ks_retireAt]. rewrite Eg.
      assert (Ht : passed (ks_rotateAt o) now = true /\ rg_previous g = rg_current (ks_ring o) /\
        Some (after now (ks_grace o)) = Some (after now (ks_grace o))) by done.
      destruct (ks_retireAt o) as [dl|]; [|by right]. destruct (Hpend dl eq_refl) as [-> Hrel]. split; [|by right].
      intros k Hk. rewrite Erl, Hrel. rewrite !elem_of_app. auto.
    + apply rotate_err in Er as ->. injection H as <- _. eexists. split; [done|]. cbv zeta.
      cbn [ks_set_failures ks_set_ring ks_ring ks_retireAt].
      destruct (ks_retireAt o) as [dl|]; [|by left]. destruct (Hpend dl eq_refl) as [-> Hrel]. split; [|by left].
      intros k Hk. rewrite Hrel. apply elem_of_app. by right.
Qed.

(** C15. A descriptor never outlives the onion key it names.  In every run of a
    node that rotates its onion keys, until it shuts down: take any bundle the
    node ever had in service, and any client that still accepts its descriptor,
    by a clock that runs behind the node's by no more than the allowed skew; the
    ring holds the key the descriptor names, in the place of the key in use or of
    the one before it, so a circuit set up under the descriptor can be opened. *)
Theorem descriptor_within_key cfg p o s now :
  reachable cfg p -> nd_onion (pr_node p) = Some o -> rg_closed (ks_ring o) = false -> s ∈ pr_served p ->
  wall (pr_now p) - Skew <= now ->
  exists c d, sv_bundle s = Bundle_Marshal (bundle_of c d) /\ sv_expires s = de_Expires d /\
    (Unix now < de_Expires d ->
     exists sl k, slot_key sl (ks_ring o) = Some k /\ ok_pub k = de_OnionPub d /\ ok_epoch k = de_Epoch d).
Proof.
  intros Hr%reachable_inv Ho Hcl Hs Hnow. destruct (ni_served _ _ _ Hr s Hs) as (c & d & Hd & Hc).
  exists c, d. split; [apply Hd|]. split; [apply Hd|]. intros Hx. pose proof (Unix_mono _ _ Hnow).
  destruct (Hc o Ho) as [?|[(k & Hk & [Hp He] & _)|[(k & dl & Hk & _ & [Hp He] & _)|Hx']]]; [congruence | | | lia].
  - by exists CurrentSlot, k.
  - by exists PreviousSlot, k.
Qed.

(** A replaced key lives no longer than its grace.  In every run, a node that
    holds two onion keys has set a moment to release the older one, the lifetime
    of a descriptor and the allowed skew after it was replaced; the first look at
    the clock at or after that moment, by either clock, releases it.  And a key is
    replaced only when its period is over and no other is held, so none is ever
    released before its grace is over. *)
Theorem replaced_key_released cfg p o :
  reachable cfg p -> nd_onion (pr_node p) = Some o ->
  (forall k, rg_previous (ks_ring o) = Some k ->
     exists r, ks_retireAt o = Some (after r (nd_ttl (pr_node p) + Skew)) /\ later r (pr_now p)) /\
  (forall ts locked w n' w', ks_closed o = false -> Node.rotateIfDue ts locked (pr_node p) w = (n', w') ->
     exists o', nd_onion n' = Some o' /\
     (forall k dl, rg_previous (ks_ring o) = Some k -> ks_retireAt o = Some dl ->
        if passed dl (ts 0%nat) then ok_priv k ∈ rg_released (ks_ring o')
        else ks_ring o' = ks_ring o) /\
     (rg_current (ks_ring o') = rg_current (ks_ring o) \/
      passed (ks_rotateAt o) (ts 0%nat) = true /\ rg_previous (ks_ring o') = rg_current (ks_ring o) /\
      ks_retireAt o' = Some (after (ts 0%nat) (nd_ttl (pr_node p) + Skew)))).
Proof.
  intros Hr%reachable_inv Ho. pose proof (ni_onion _ _ _ Hr o Ho) as [H1 H2 H3 H4 H5]. split.
  - intros k Hk. destruct (ks_retireAt o) as [dl|] eqn:Er; [|by rewrite (H4 eq_refl) in Hk].
    destruct (H5 dl eq_refl) as (r & -> & Hl). exists r. by rewrite H1.
  - intros ts locked w n' w' Hcl H. apply rotateIfDue_ring with (o := o) in H as (o' & Ho' & H); [|done..].
    exists o'. split; [done|]. rewrite <- H1. cbv zeta in H. destruct (ks_retireAt o) as [dl|] eqn:Er.
    + destruct (passed dl (ts 0%nat)) eqn:Ep.
      * destruct H as [Hrel Hturn]. split; [|exact Hturn]. intros k dl' Hk [= <-]. rewrite Ep. apply Hrel. rewrite Hk. by left.
      * destruct H as [-> ->]. split; [intros k dl' _ [= <-]; by rewrite Ep | by left].
    + split; [|exact H]. intros k dl' Hk. by rewrite (H4 eq_refl) in Hk.
Qed.

End Runs.

(** ** One process, over the primitives of [Toy]

    It enrolls, rotates its onion key once after two hours, and releases the old
    key when the grace is over. *)

Module NodeDemo.
Import ToySuite EnrollDemo.

Definition cfg : Node.config :=
  {| Node.cf_name := name; Node.cf_advertise := addr; Node.cf_auth := true; Node.cf_peers := [];
     Node.cf_ttl := Hour; Node.cf_onionRotate := 2 * Hour; Node.cf_setupCache := 4; Node.cf_lock := false |}.

Definition wide (n : nat) : World :=
  {| entropy := map (fun k => byte_of_Z (Z.of_nat (n + k))) (seq 0 128);
     size_cache := {[ SuiteC25519 := known_sizes ]}; pub_cache := ∅ |}.

Lemma wide_sound n : sizes_sound (wide n).
Proof. intros v H. change (Some known_sizes = Some v) in H. congruence. Qed.

Definition at_ (d : Z) : Moment := {| wall := start + d; run := d |}.
Definition still (d : Z) : nat -> Moment := fun _ => at_ d.

Lemma still_between c d e : c <= d <= e -> reads (at_ c) (still d) (at_ e).
Proof.
  intros H. split; [intros i; split; unfold later, still, at_; cbn [wall run]; lia|].
  intros i j _. unfold still. reflexivity.
Qed.

Lemma still_reads d e : d <= e -> reads (at_ d) (still e) (at_ e).
Proof. intros H. apply still_between. lia. Qed.

Ltac made := vm_compute; reflexivity.

Lemma start_runs : is_ok (fst (Node.start cfg (key "l") false false (still 0) (wide 1))) = true.
Proof. made. Qed.
Definition n0 : node := Eval vm_compute in get_ok (fst (Node.start cfg (key "l") false false (still 0) (wide 1))) start_runs.
Definition w0 : World := Eval vm_compute in snd (Node.start cfg (key "l") false false (still 0) (wide 1)).
Lemma start_made : Node.start cfg (key "l") false false (still 0) (wide 1) = (Ok n0, w0).
Proof. made. Qed.

Definition asked : reply * node := Eval vm_compute in fst (Node.handleRequest (at_ 0) (Some nonce) n0 (wide 2)).
Definition n1 : node := Eval vm_compute in snd asked.
Definition request_raw : bytes := Eval vm_compute in match fst asked with Body b => b | _ => [] end.
Lemma asked_made : exists w, Node.handleRequest (at_ 0) (Some nonce) n0 (wide 2) = ((Body request_raw, n1), w).
Proof. eexists. made. Qed.

Lemma parses : is_ok (ParseRequest request_raw) = true.
Proof. made. Qed.
Definition rq : Request := Eval vm_compute in get_ok (ParseRequest request_raw) parses.

Lemma issues : is_ok (fst (Issue ca rq start until (wide 3))) = true.
Proof. made. Qed.
Definition certificate : Cert := Eval vm_compute in get_ok (fst (Issue ca rq start until (wide 3))) issues.
Definition cert_raw : bytes := Eval vm_compute in Cert_Marshal certificate.

Definition n2 : node := Eval vm_compute in snd (fst (Node.handleCert (still 0) (Some cert_raw) n1 (wide 4))).
Lemma taken : exists w, Node.handleCert (still 0) (Some cert_raw) n1 (wide 4) = ((NoContent, n2), w).
Proof. eexists. made. Qed.

Definition again : Z := Eval vm_compute in Hour + 30 * Minute.
Definition nr : node := Eval vm_compute in fst (Node.refreshIfDue (still again) n2 (wide 6)).
Lemma resigned : exists w, Node.refreshIfDue (still again) n2 (wide 6) = (nr, w).
Proof. eexists. made. Qed.

Definition turn : Z := Eval vm_compute in 2 * Hour.
Definition n3 : node := Eval vm_compute in fst (Node.rotateIfDue (still turn) false nr (wide 5)).
Lemma rotated : exists w, Node.rotateIfDue (still turn) false nr (wide 5) = (n3, w).
Proof. eexists. made. Qed.

Definition first_served : Peers.served := Eval vm_compute in
  match nd_out nr with Some s => s | None => {| sv_bundle := []; sv_notAfter := 0; sv_published := 0; sv_expires := 0 |} end.
Lemma first_out : nd_out nr = Some first_served.
Proof. reflexivity. Qed.

Definition keys3 : onionKeys := Eval vm_compute in
  match nd_onion n3 with Some o => o | None => Node.newOnionKeys (staticRing [] [] 0) 0 0 false (at_ 0) end.
Lemma onion3 : nd_onion n3 = Some keys3.
Proof. reflexivity. Qed.

Lemma two_keys : exists k, rg_previous (ks_ring keys3) = Some k.
Proof. eexists. reflexivity. Qed.

Definition p3 : Process :=
  {| pr_now := at_ turn; pr_node := n3; pr_served := in_service n3 ++ in_service nr ++ in_service n2 ++ in_service n1 ++ [] |}.

Definition p2 : Process := {| pr_now := at_ 0; pr_node := n2; pr_served := in_service n2 ++ in_service n1 ++ [] |}.

Lemma begins : started cfg {| pr_now := at_ 0; pr_node := n0; pr_served := [] |}.
Proof.
  exists (key "l"), false, false, (still 0), (wide 1), n0, w0.
  split; [apply wide_sound|]. split; [apply still_reads; lia|]. split; [apply Z.leb_le; made|].
  split; [exact start_made|]. done.
Qed.

Lemma enrolls : reachable cfg p2.
Proof.
  eexists. split; [exact begins|]. split; [|split; [reflexivity | made]].
  eapply rtc_l; [apply process_steps with (t' := at_ 0) (n' := n1)|eapply rtc_l; [apply process_steps with (t' := at_ 0) (n' := n2)|]].
  - destruct asked_made as (w & H). eapply st_request; [| | exact H]; reflexivity.
  - destruct taken as (w & H). eapply st_cert; [apply still_reads; lia | apply wide_sound | exact H].
  - apply rtc_refl.
Qed.

Lemma runs : reachable cfg p3.
Proof.
  destruct enrolls as (p0 & Hs & Hr & Hrest). exists p0. split; [exact Hs|]. split; [|exact Hrest].
  eapply rtc_r; [eapply rtc_r; [exact Hr|]|]; [apply process_steps with (t' := at_ again) | apply process_steps with (t := at_ again)].
  { destruct resigned as (w & H). eapply st_refresh_if_due; [apply (still_between 0 again again); unfold again; lia | apply wide_sound | exact H]. }
  destruct rotated as (w & H).
  eapply st_rotate; [apply (still_between again turn turn); unfold again, turn; lia | apply wide_sound | exact H].
Qed.

End NodeDemo.

Import ToySuite.

(** The descriptor made half an hour before the rotation is good for half an hour after. *)
Lemma descriptor_within_key_witness :
  exists d sl k, Unix (wall (NodeDemo.at_ NodeDemo.turn) - Skew) < de_Expires d /\
    slot_key sl (ks_ring NodeDemo.keys3) = Some k /\ ok_pub k = de_OnionPub d.
Proof.
  assert (Hs : NodeDemo.first_served ∈ pr_served NodeDemo.p3).
  { apply elem_of_app. right. apply in_service_elem. exact NodeDemo.first_out. }
  destruct (descriptor_within_key NodeDemo.cfg NodeDemo.p3 NodeDemo.keys3 NodeDemo.first_served
    (wall (NodeDemo.at_ NodeDemo.turn) - Skew) NodeDemo.runs NodeDemo.onion3 eq_refl Hs (Z.le_refl _))
    as (c & d & _ & Hx & H).
  assert (Hlt : Unix (wall (NodeDemo.at_ NodeDemo.turn) - Skew) < sv_expires NodeDemo.first_served)
    by (apply Z.ltb_lt; vm_compute; reflexivity).
  rewrite Hx in Hlt. destruct (H Hlt) as (sl & k & Hk & Hp & _).
  exists d, sl, k. split; [exact Hlt | split; [exact Hk | exact Hp]].
Defined.

Lemma replaced_key_released_witness :
  exists k r, rg_previous (ks_ring NodeDemo.keys3) = Some k /\ ks_retireAt NodeDemo.keys3 = Some (after r (Hour + Skew)).
Proof.
  destruct NodeDemo.two_keys as (k & Hk). exists k.
  destruct (proj1 (replaced_key_released NodeDemo.cfg NodeDemo.p3 NodeDemo.keys3 NodeDemo.runs NodeDemo.onion3) k Hk)
    as (r & Hr & _). by exists r.
Defined.
