(* ===== verification/Service.v ===== *)
(** * Service: what a node hands out, and whom it believes

    Theorems over the runs of [Lifetime]: what the info port serves passes for a
    client, one certificate and one roster per process, and the neighbours a node
    extends to are those its roster's anchor vouches for. *)

From Stdlib Require Import Strings.Byte Strings.String.
From stdpp Require Import relations.
From S2P Require Import Prelude Effects Crypto Toy Text Json Addr Cert Replay Setup Pki Identity Roster Fetch Ring Peers Node Lifetime.

Section Service.
Context `{CL : CryptoLaws}.

(** *** What is in service *)

Lemma current_served t n h tr b u : node_inv t n h -> Node.current n tr = Some (b, u) ->
  exists s, nd_out n = Some s /\ b = sv_bundle s /\ u = Z.min (sv_notAfter s) (sv_expires s) /\ Unix (wall tr) < u.
Proof.
  intros Hi. unfold Node.current. destruct (ni_id _ _ _ Hi) as (i & -> & _).
  destruct (nd_out n) as [s|]; [|done]. destruct (Z.leb_spec (Z.min (sv_notAfter s) (sv_expires s)) (Unix (wall tr))); [done|].
  intros [= <- <-]. by exists s.
Qed.

(** A bundle in service at a moment is the certificate installed and a descriptor
    made for it, both unexpired. *)
Lemma served_own cfg p t b :
  reachable cfg p -> later (pr_now p) t -> Node.get_descriptor (pr_node p) t = Body b ->
  exists i c d, nd_id (pr_node p) = Some i /\ nd_installed (pr_node p) = Some (Cert_Marshal c) /\
    b = Bundle_Marshal (bundle_of c d) /\ own_descriptor (id_pub i) c d /\
    ct_Name c = nd_name (pr_node p) /\ ct_Addr c = nd_addr (pr_node p) /\
    Unix (wall t) < de_Expires d <= ct_NotAfter c /\
    cert_wf c = true /\ descriptor_wf d = true /\ ct_Suite c = Suite /\ ct_Identity c = id_pub i /\
    ct_NotBefore c < ct_NotAfter c /\ ct_NotBefore c <= Unix (wall t + Skew) /\ de_Published d <= Unix (wall t).
Proof.
  intros Hr%reachable_inv Ht H. unfold Node.get_descriptor, Node.descriptor in H.
  destruct (Node.current (pr_node p) t) as [[b' u]|] eqn:Hc; [|done]. injection H as ->.
  apply (node_inv_time _ _ _ _ Ht) in Hr.
  apply (current_served _ _ _ _ _ _ Hr) in Hc as (s & Hs & -> & -> & Hlt).
  destruct (ni_id _ _ _ Hr) as (i & Hid & Hinv & En & Ea & Henr). unfold enrolled in Henr.
  destruct (nd_installed (pr_node p)) as [raw|] eqn:Einst; [|destruct Henr as (_ & _ & Hn); congruence].
  destruct Henr as (c & Hcert & -> & _ & Hb1 & Hb2 & Hd). destruct (Hd s Hs) as (d & (Hb & Hna & _ & Hx & Hwc & Hwd) & Hod & Hpub).
  destruct (ii_cert i Hinv c Hcert) as [Hwf _ Hsuite Hident Hname Haddr].
  pose proof (od_times _ _ _ Hod) as Htimes. rewrite Hna, Hx in Hlt.
  exists i, c, d. split_and!; try done; try congruence; try lia.
Qed.

(** Such a bundle passes under the anchor of the CA that signed the certificate. *)
Lemma own_passes pub c d a t w : own_descriptor pub c d -> cert_wf c = true -> descriptor_wf d = true ->
  ct_Suite c = Suite -> ct_Identity c = pub -> ct_NotBefore c < ct_NotAfter c -> ct_NotBefore c <= Unix (t + Skew) ->
  Unix t < de_Expires d <= ct_NotAfter c -> de_Published d <= Unix t ->
  sizes_cached w -> an_Suite a = Suite -> ct_CAID c = Anchor_ID a ->
  Crypto.Verify (an_Pub a) (message (SCert c)) (ct_Sig c) = true ->
  Verify (peer_policy a) (ct_Addr c) (Bundle_Marshal (bundle_of c d)) t w = (Ok (verified c d), w).
Proof.
  intros Hod Hwf Hwd Hsuite Hident Hbn Hnb Hx Hpub Hw Hsa Hca Hv. pose proof (od_times _ _ _ Hod) as Htimes.
  apply Verify_accepts; try done; change (Z.max (po_Skew (peer_policy a)) 0) with Skew.
  - split_and!; try done. unfold cert_in_window. lia.
  - pose proof (Unix_mono t (t + Skew)) as Hm. assert (0 <= Skew) by (unfold Skew, Minute, Second; lia).
    split; [done|]. split; [apply Hod|]. split; [apply Hod|]. split; [rewrite Hident; apply Hod|].
    pose proof (od_life _ _ _ Hod). unfold desc_in_window. change (maxLife (peer_policy a)) with MaxDescriptorLife. lia.
  - apply Hod.
Qed.

(** C17. What a node serves of itself passes for its clients.  In every run: a
    bundle that the info port answers with, at any later moment, is the
    certificate the process installed and a descriptor signed with its identity
    key, both unexpired at that moment; and if the certificate carries the
    signature of a CA, [Verify] accepts the bundle at that moment under that CA's
    anchor and the standard skew, for the node's address. *)
Theorem served_passes cfg p t b :
  reachable cfg p -> later (pr_now p) t -> Node.get_descriptor (pr_node p) t = Body b ->
  exists i c d, nd_id (pr_node p) = Some i /\ nd_installed (pr_node p) = Some (Cert_Marshal c) /\
    b = Bundle_Marshal (bundle_of c d) /\ own_descriptor (id_pub i) c d /\
    ct_Name c = nd_name (pr_node p) /\ ct_Addr c = nd_addr (pr_node p) /\
    Unix (wall t) < de_Expires d <= ct_NotAfter c /\
    forall a w, sizes_cached w -> an_Suite a = Suite -> ct_CAID c = Anchor_ID a ->
      Crypto.Verify (an_Pub a) (message (SCert c)) (ct_Sig c) = true ->
      Verify (peer_policy a) (nd_addr (pr_node p)) b (wall t) w = (Ok (verified c d), w).
Proof.
  intros Hr Ht H. destruct (served_own _ _ _ _ Hr Ht H) as (i & c & d & Hid & Hi & Hb & Hod & Hn & Ha & Hx & Hwf & Hwd & Hs & Hk & Hbn & Hnb & Hpub).
  exists i, c, d. split_and!; try done; try lia. intros a w. rewrite Hb, <- Ha. by eapply own_passes.
Qed.

(** *** Whom the node believes *)

Lemma peer_addrs_elem self nodes a : a ∈ Node.peer_addrs self nodes <-> a <> self /\ exists rn, rn ∈ nodes /\ rn_Addr rn = a.
Proof.
  unfold Node.peer_addrs. rewrite list_elem_of_filter, list_elem_of_fmap. split; intros [H1 (rn & H2 & H3)]; (split; [done|]); by exists rn.
Qed.

(** A link key is given for a node of the roster, and is that of its own bundle. *)
Lemma key_of_roster cfg p addr t k :
  reachable cfg p -> Node.peerKey (pr_node p) addr t = Some k ->
  exists raw ro rn e, nd_roster (pr_node p) = Some raw /\ ParseRoster raw = Ok ro /\ rn ∈ ro_Nodes ro /\
    rn_Addr rn = addr /\ addr <> nd_addr (pr_node p) /\ authentic (ro_Anchor ro) addr e /\
    k = pe_linkPub e /\ Unix (wall t) < pe_expires e.
Proof.
  intros Hr%reachable_inv. pose proof (ni_peers _ _ _ Hr) as Hp. unfold rostered in Hp.
  unfold Node.peerKey. destruct (nd_peers (pr_node p)) as [c|] eqn:Ec; [|done]. intros Hk.
  destruct (nd_roster (pr_node p)) as [raw|]; [|done]. destruct Hp as (ro & c' & Hro & [= <-] & Hinv & _ & Ea & Erd).
  destruct (inv_linkKey _ _ _ _ _ _ Hinv Erd Hk) as (Hin & e & He & -> & Hlt).
  rewrite Ea in Hin. apply peer_addrs_elem in Hin as (Hne & rn & Hrn & Hra). exists raw, ro, rn, e. by split_and!.
Qed.

(** C16. A node extends circuits, and hands on descriptors, only within its roster
    and only on the word of the roster's anchor.  In every run: no link key is
    given for any address before a roster; the key given for an address is that of
    a bundle which passed [Verify] under the roster's anchor for that address, one
    of the roster's other nodes, and which has not run out; and the mirror it
    answers with is one of entries, each the node's own bundle or one such bundle,
    of which none has run out at the moment of the answer. *)
Theorem within_roster cfg p :
  reachable cfg p ->
  (forall addr t k, Node.peerKey (pr_node p) addr t = Some k ->
     exists raw ro rn e, nd_roster (pr_node p) = Some raw /\ ParseRoster raw = Ok ro /\ rn ∈ ro_Nodes ro /\
       rn_Addr rn = addr /\ addr <> nd_addr (pr_node p) /\ authentic (ro_Anchor ro) addr e /\
       k = pe_linkPub e /\ Unix (wall t) < pe_expires e) /\
  (forall ts body n', Node.get_descriptors ts (pr_node p) = (Body body, n') ->
     exists raw ro es, nd_roster (pr_node p) = Some raw /\ ParseRoster raw = Ok ro /\ body = mirror_json es /\ mirror_ok es /\
       Forall (fun it =>
         (me_Addr it = nd_addr (pr_node p) /\ exists s, s ∈ pr_served p /\ me_Bundle it = sv_bundle s /\
            Unix (wall (ts 3%nat)) < Z.min (sv_notAfter s) (sv_expires s)) \/
         (exists rn e, rn ∈ ro_Nodes ro /\ me_Addr it = rn_Addr rn /\ authentic (ro_Anchor ro) (me_Addr it) e /\
            me_Bundle it = pe_bundle e /\ Unix (wall (ts 3%nat)) < pe_expires e)) es).
Proof.
  intros Hr. split; [intros addr t k; by eapply key_of_roster|]. apply reachable_inv in Hr.
  pose proof (ni_peers _ _ _ Hr) as Hp. unfold rostered in Hp.
  intros ts body n'. unfold Node.get_descriptors. destruct (nd_peers (pr_node p)) as [c|] eqn:Ec; [|done].
    destruct (nd_roster (pr_node p)) as [raw|]; [|done]. destruct Hp as (ro & c' & Hro & [= <-] & Hinv & Es & Ea & Erd).
    destruct (descriptors _ _ _ _ c) as [[b|] c1] eqn:Hd; [|done]. intros [= -> _].
    apply (inv_descriptors (own_in (pr_served p)) c (ro_Anchor ro)) in Hd as (es & -> & Hok & Hes); [|done|done|].
    2: { intros b u Hb. by eapply current_own. }
    exists raw, ro, es. split_and!; try done. eapply Forall_impl; [exact Hes|].
    intros it [(Hs & u & (s & Hs1 & Hs2 & ->) & Hlt)|(Ha & e & He & Hb & Hlt)].
    + left. split; [congruence|]. by exists s.
    + right. rewrite Ea in Ha. apply peer_addrs_elem in Ha as (_ & rn & Hrn & Hra). exists rn, e. by split_and!.
Qed.

(** *** One certificate, one roster *)

Lemma handleCert_once ts body n w r n' w' raw : Node.handleCert ts body n w = ((r, n'), w') ->
  nd_installed n = Some raw -> n' = n /\ (r = NoContent <-> readBody body = Ok raw /\ is_ok (ParseCert raw) = true /\
    Node.certState n (ts 1%nat) = certValid).
Proof.
  unfold Node.handleCert. intros H Hi. rewrite Hi in H. destruct (readBody body) as [b|rr] eqn:Eb.
  - destruct (ParseCert b) as [c|e] eqn:Ep.
    + destruct (bool_decide_reflect (b = raw)) as [->|Hne]; cbn [andb] in H.
      * destruct (bool_decide_reflect (Node.certState n (ts 1%nat) = certValid)) as [Hv|Hv]; injection H as <- <- _.
        -- split; [done|]. by rewrite Ep.
        -- split; [done|]. split; [done | by intros (_ & _ & ?)].
      * injection H as <- <- _. split; [done|]. split; [done | by intros ([= ?] & _)].
    + injection H as <- <- _. split; [done|]. split; [done|]. intros ([= ->] & Hok & _). by rewrite Ep in Hok.
  - injection H as <- <- _. split; [done|]. split; [|by intros [? _]].
    intros ->. unfold readBody in Eb. destruct body as [b|]; [destruct (_ <? _)%nat|]; done.
Qed.

(** What a step may do to the certificate and the roster of a process. *)
Definition keeps (n n' : node) : Prop := nd_installed n' = nd_installed n /\ nd_roster n' = nd_roster n.

Lemma frame_keeps n n' : same_frame n n' -> keeps n n'.
Proof. unfold same_frame, keeps. tauto. Qed.

Lemma handleRequest_keeps now body n w r n' w' : Node.handleRequest now body n w = ((r, n'), w') -> keeps n n'.
Proof.
  unfold Node.handleRequest. destruct (readBody body); [|by intros [= _ <- _]].
  repeat (destruct (negb _) || destruct (bool_decide _); [by intros [= _ <- _]|]).
  destruct (nd_id n) as [i|]; [|by intros [= _ <- _]]. destruct (Identity_Request i a w) as [[q|e] w1]; by intros [= _ <- _].
Qed.

(** A certificate is taken within the window of an open request, for this node. *)
Lemma handleCert_takes ts body n w r n' w' : Node.handleCert ts body n w = ((r, n'), w') -> nd_installed n = None ->
  nd_roster n' = nd_roster n /\ (nd_installed n' = None \/
    exists raw c at_ i, nd_installed n' = Some raw /\ readBody body = Ok raw /\ ParseCert raw = Ok c /\
      nd_requestAt n = Some at_ /\ since (ts 0%nat) at_ <= InstallWindow /\ Unix (wall at_ - Skew) <= ct_NotBefore c /\
      nd_id n = Some i /\ ct_Identity c = id_pub i /\ ct_Name c = id_name i /\ ct_Addr c = id_addr i).
Proof.
  intros H Hi. unfold Node.handleCert in H. rewrite Hi in H.
  destruct (readBody body) as [raw|]; [|injection H as <- <- _; auto].
  destruct (ParseCert raw) as [c|] eqn:Ep; [|injection H as <- <- _; auto].
  unfold Node.cert_refused in H. destruct (nd_requestAt n) as [at_|]; [|injection H as <- <- _; auto].
  destruct (Z.ltb_spec InstallWindow (since (ts 0%nat) at_)); [injection H as <- <- _; auto|].
  destruct (Z.ltb_spec (ct_NotBefore c) (Unix (wall at_ - Skew))); [injection H as <- <- _; auto|].
  destruct (nd_id n) as [i|]; [|injection H as <- <- _; auto].
  destruct (Install raw (wall (ts 0%nat)) i) as [[[]|e] i'] eqn:EI; [|injection H as <- <- _; auto].
  match type of H with context [Node.sign _ _ ?m _] => set (n1 := m) in * end.
  destruct (Node.sign (Node.shift 2 ts) (ts 0%nat) n1 w) as [[rr n2] w2] eqn:Es.
  assert (n' = n2) as -> by (destruct rr as [[]|e]; congruence). apply sign_frame in Es.
  apply frame_keeps in Es as [E1 E2]. split; [exact E2|]. right.
  apply Install_ok in EI as (c' & Hc & _ & Hid & Hn & Ha & _). rewrite Ep in Hc. apply ok_inj in Hc as <-.
  exists raw, c, at_, i. by split_and!.
Qed.

(** A roster is taken within the window of the certificate, once the node's own
    bundle passed under its anchor. *)
Lemma handleRoster_takes ts body n w r n' w' : Node.handleRoster ts body n w = ((r, n'), w') ->
  nd_installed n' = nd_installed n /\ (forall raw, nd_roster n = Some raw -> n' = n) /\
  (nd_roster n = None -> nd_roster n' = None \/
    exists raw ro b v, nd_roster n' = Some raw /\ readBody body = Ok raw /\ ParseRoster raw = Ok ro /\
      nd_installed n <> None /\ since (ts 0%nat) (nd_installedAt n) <= InstallWindow /\
      Has ro (nd_name n) (nd_addr n) = true /\ Node.descriptor n (ts 1%nat) = Some b /\
      Verify (peer_policy (ro_Anchor ro)) (nd_addr n) b (wall (ts 0%nat)) w = (Ok v, w')).
Proof.
  unfold Node.handleRoster. destruct (readBody body) as [raw|]; [|intros [= _ <- _]; auto].
  destruct (ParseRoster raw) as [ro|] eqn:Ep; [|intros [= _ <- _]; auto].
  destruct (nd_roster n) as [r0|] eqn:Er; [destruct (bool_decide _); by intros [= _ <- _]|].
  destruct (bool_decide_reflect (nd_installed n = None)) as [Hi|Hi]; [intros [= _ <- _]; auto|].
  destruct (Z.ltb_spec InstallWindow (since (ts 0%nat) (nd_installedAt n))); [intros [= _ <- _]; auto|].
  destruct (Node.descriptor n (ts 1%nat)) as [b|] eqn:Ed; [|intros [= _ <- _]; auto].
  destruct (Has ro (nd_name n) (nd_addr n)) eqn:Eh; [|intros [= _ <- _]; auto]. cbn [negb].
  destruct (Verify _ _ b _ w) as [[v|e] w1] eqn:Ev; intros [= _ <- <-]; [|auto].
  split; [done|]. split; [done|]. intros _. right. exists raw, ro, b, v. by split_and!.
Qed.

Lemma node_step_keeps t t' n n' : node_step t t' n n' ->
  (forall raw, nd_installed n = Some raw -> nd_installed n' = Some raw) /\
  (forall raw, nd_roster n = Some raw -> nd_roster n' = Some raw) /\
  (nd_roster n' = None \/ nd_roster n' = nd_roster n \/ nd_installed n <> None).
Proof.
  assert (Hk : forall m m', keeps m m' -> (forall raw, nd_installed m = Some raw -> nd_installed m' = Some raw) /\
    (forall raw, nd_roster m = Some raw -> nd_roster m' = Some raw) /\
    (nd_roster m' = None \/ nd_roster m' = nd_roster m \/ nd_installed m <> None)).
  { intros m m' [-> ->]. auto. }
  intros H. destruct H as [now body n w r n' w' _ _ H|ts body n w r n' w' _ _ H|ts body n w r n' w' _ _ H
    |ts n w n' w' _ _ H|ts locked n w n' w' _ _ H|cell w n o Ho _|n c c' Hc _ Hs|n _|n i Ei _]; try by apply Hk.
  - by apply Hk; eapply handleRequest_keeps.
  - destruct (nd_installed n) as [raw|] eqn:Ei.
    + apply (handleCert_once _ _ _ _ _ _ _ _ H) in Ei as H1. destruct H1 as [-> _]. split; [congruence|]. auto.
    + apply handleCert_takes in H as [Hr _]; [|done]. rewrite Hr. split; [done|]. auto.
  - apply handleRoster_takes in H as (Hi & Hr & Hn). rewrite Hi. split; [done|].
    destruct (nd_roster n) as [raw|] eqn:Er; [rewrite (Hr raw eq_refl); rewrite Er; auto|].
    split; [done|]. destruct (Hn eq_refl) as [->|(raw & ro & b & v & _ & _ & _ & Hne & _)]; auto.
  - apply Hk. unfold Node.refreshIfDue in H. destruct (_ || _); [by injection H as <- _|].
    destruct (_ && _); [by injection H as <- _|].
    destruct (Node.sign (Node.shift 2 ts) (ts 1%nat) n w) as [[r n2] w2] eqn:Es. injection H as <- _.
    by eapply frame_keeps, sign_frame.
  - apply Hk. unfold Node.rotateIfDue in H. destruct (nd_onion n) as [o|]; [|by injection H as <- _].
    destruct (ks_closed o); [by injection H as <- _|]. destruct (_ || _); [by injection H as <- _|].
    destruct (Node.rotate locked _ w) as [[[e|e] g] w1]; [|by injection H as <- _].
    match type of H with context [Node.publishOnion ?a ?b ?m ?x] =>
      destruct (Node.publishOnion a b m x) as [[r n2] w2] eqn:Es end. injection H as <- _.
    apply publishOnion_frame, frame_keeps in Es as [E1 E2]. by split.
  - apply Hk. unfold Node.closeOnion. by destruct (nd_onion n).
Qed.

Lemma process_steps_keep p p' : rtc process_step p p' ->
  (forall raw, nd_installed (pr_node p) = Some raw -> nd_installed (pr_node p') = Some raw) /\
  (forall raw, nd_roster (pr_node p) = Some raw -> nd_roster (pr_node p') = Some raw).
Proof.
  intros H. induction H as [|x y z [t t' n n' h Hs] _ [IH1 IH2]]; [done|].
  apply node_step_keeps in Hs as (Ha & Hb & _). cbn [pr_node] in *. auto.
Qed.

Lemma start_roster cfg pub locked idLocked ts w n w' : Node.start cfg pub locked idLocked ts w = (Ok n, w') ->
  Node.cf_auth cfg = true -> nd_roster n = None.
Proof.
  intros H Ha. unfold Node.start in H. rewrite Ha in H. apply bindM_ok in H as ((r & onion) & w1 & _ & H).
  apply bindM_ok in H as (i & w2 & _ & H). destruct (_ && _); [discriminate|]. by apply retM_ok in H as [-> _].
Qed.

(** No roster before a certificate. *)
Lemma reachable_roster cfg p : reachable cfg p -> nd_roster (pr_node p) <> None -> nd_installed (pr_node p) <> None.
Proof.
  intros (p0 & (pub & locked & idLocked & ts & w & n & w' & _ & _ & _ & Hs & En & _) & Hrun & Ha & _).
  assert (H0 : nd_roster (pr_node p0) <> None -> nd_installed (pr_node p0) <> None).
  { rewrite En. by rewrite (start_roster _ _ _ _ _ _ _ _ Hs Ha). }
  clear -Hrun H0. induction Hrun as [|x y z [t t' m m' h Hs] _ IH]; [done|]. apply IH. cbn [pr_node] in *.
  apply node_step_keeps in Hs as (H1 & H2 & H3). intros Hr. destruct (nd_installed m) as [raw|] eqn:E.
  - by rewrite (H1 raw eq_refl).
  - destruct H3 as [?|[E'|?]]; [done | | done]. rewrite E' in Hr. by destruct H0.
Qed.

(** A process takes one certificate and one roster, and each only from who may
    give it.  In every run: a certificate or a roster once taken is never replaced
    nor lost, and there is no roster before a certificate.  A certificate is taken
    only in answer to a request of this process, within the install window of it
    by the running clock and not older than the request (the skew apart), with the
    node's own name, address and identity key; sending it again succeeds exactly
    while it is valid, and any other is refused.  A roster is taken only within
    the same window of the certificate, if it lists the node and if the bundle the
    node serves passes [Verify] under the anchor of the roster itself. *)
Theorem one_certificate cfg p :
  reachable cfg p ->
  (forall p', rtc process_step p p' ->
     (forall raw, nd_installed (pr_node p) = Some raw -> nd_installed (pr_node p') = Some raw) /\
     (forall raw, nd_roster (pr_node p) = Some raw -> nd_roster (pr_node p') = Some raw)) /\
  (nd_roster (pr_node p) <> None -> nd_installed (pr_node p) <> None) /\
  (forall ts body w r n' w', Node.handleCert ts body (pr_node p) w = ((r, n'), w') ->
     match nd_installed (pr_node p) with
     | Some raw => n' = pr_node p /\ (r = NoContent <->
         readBody body = Ok raw /\ Node.certState (pr_node p) (ts 1%nat) = certValid)
     | None => nd_installed n' = None \/
         exists raw c at_, nd_installed n' = Some raw /\ readBody body = Ok raw /\ ParseCert raw = Ok c /\
           nd_requestAt (pr_node p) = Some at_ /\ since (ts 0%nat) at_ <= InstallWindow /\
           Unix (wall at_ - Skew) <= ct_NotBefore c /\ ct_Name c = nd_name (pr_node p) /\
           ct_Addr c = nd_addr (pr_node p) /\
           exists i, nd_id (pr_node p) = Some i /\ ct_Identity c = id_pub i
     end) /\
  (forall ts body w r n' w' raw, Node.handleRoster ts body (pr_node p) w = ((r, n'), w') ->
     nd_roster (pr_node p) = None -> nd_roster n' = Some raw ->
     exists ro b v, readBody body = Ok raw /\ ParseRoster raw = Ok ro /\ nd_installed (pr_node p) <> None /\
       since (ts 0%nat) (nd_installedAt (pr_node p)) <= InstallWindow /\
       Has ro (nd_name (pr_node p)) (nd_addr (pr_node p)) = true /\
       Node.descriptor (pr_node p) (ts 1%nat) = Some b /\
       Verify (peer_policy (ro_Anchor ro)) (nd_addr (pr_node p)) b (wall (ts 0%nat)) w = (Ok v, w')).
Proof.
  intros Hr. pose proof (reachable_inv _ _ Hr) as Hi. split_and!.
  - apply process_steps_keep.
  - by apply (reachable_roster cfg).
  - intros ts body w r n' w' H. destruct (ni_id _ _ _ Hi) as (i & Hid & Hinv & En & Ea & Henr).
    destruct (nd_installed (pr_node p)) as [raw|] eqn:Ei.
    + destruct (handleCert_once _ _ _ _ _ _ _ _ H Ei) as [-> Hiff]. split; [done|]. rewrite Hiff.
      unfold enrolled in Henr. rewrite Ei in Henr. destruct Henr as (c & Hc & -> & _).
      destruct (ii_cert i Hinv c Hc) as [Hwf _ _ _ _ _]. rewrite (proj2 (ParseCert_spec _ c)) by done. naive_solver.
    + destruct (handleCert_takes _ _ _ _ _ _ _ H Ei) as [_ [?|(raw & c & at_ & j & H1 & H2 & H3 & H4 & H5 & H6 & H7 & H8 & H9 & H10)]];
        [by left|]. rewrite Hid in H7. injection H7 as <-. right. exists raw, c, at_. rewrite <- En, <- Ea.
      split_and!; try done. by exists i.
  - intros ts body w r n' w' raw H Hn Hs. apply handleRoster_takes in H as (_ & _ & H).
    destruct (H Hn) as [?|(raw' & ro & b & v & H1 & Hrest)]; [congruence|]. rewrite Hs in H1. injection H1 as <-.
    by exists ro, b, v.
Qed.

End Service.

(** ** Witnesses *)

Module ServiceDemo.
Import ToySuite EnrollDemo NodeDemo.

(** Ten minutes after the certificate was taken. *)
Definition tick : Moment := at_ (10 * Minute).

Definition answer : bytes := Eval vm_compute in match Node.get_descriptor n2 tick with Body b => b | _ => [] end.
Lemma answers : Node.get_descriptor n2 tick = Body answer.
Proof. made. Qed.

Lemma tick_later : later (pr_now p2) tick.
Proof. split; [apply Z.leb_le | apply Z.leb_le]; made. Qed.

(** Another node under the same CA, and its bundle. *)
Definition other_name : bytes := str "relay-2".
Definition other_addr : bytes := str "relay-2:9000".

Definition other_bundle : bytes := Eval vm_compute in
  match NewIdentity other_name other_addr (wide 7) with
  | (Ok i, _) =>
      match Identity_Request i nonce (wide 8) with
      | (Ok raw, _) =>
          match ParseRequest raw with
          | Ok r =>
              match Issue ca r start until (wide 9) with
              | (Ok c, _) =>
                  let i := snd (Install (Cert_Marshal c) start i) in
                  match Refresh start Hour (SetKeys (key "m") (key "p") 0 i) (wide 10) with
                  | ((_, i), _) => default [] (Identity_Bundle i)
                  end
              | _ => []
              end
          | _ => []
          end
      | _ => []
      end
  | _ => []
  end.

(** The roster of the two. *)
Definition roster_raw : bytes := Eval vm_compute in Roster_Marshal
  {| ro_Anchor := CA_Anchor ca;
     ro_Nodes := [{| rn_Name := name; rn_Addr := addr |}; {| rn_Name := other_name; rn_Addr := other_addr |}] |}.

Definition n4 : node := Eval vm_compute in snd (fst (Node.handleRoster (still 0) (Some roster_raw) n2 (wide 4))).
Lemma roster_taken : exists w, Node.handleRoster (still 0) (Some roster_raw) n2 (wide 4) = ((NoContent, n4), w).
Proof. eexists. made. Qed.

Definition c4 : peerCache := Eval vm_compute in
  match nd_peers n4 with Some c => c | None => newPeerCache [] 0 [] WithoutAuth end.
Lemma peers4 : nd_peers n4 = Some c4.
Proof. reflexivity. Qed.

Definition c5 : peerCache := Eval vm_compute in fst (refresh_peer other_addr start (Ok other_bundle) c4 (wide 4)).
Lemma asked_peer : exists w, refresh_peer other_addr start (Ok other_bundle) c4 (wide 4) = (c5, w).
Proof. eexists. made. Qed.

Lemma listed : other_addr ∈ pc_addrs c4.
Proof. by left. Qed.

Definition n5 : node := nd_set_peers (Some c5) n4.

Lemma key_given : Node.peerKey n5 other_addr tick = Some (key "m").
Proof. made. Qed.

Definition p5 : Process :=
  {| pr_now := at_ 0; pr_node := n5; pr_served := in_service n5 ++ in_service n4 ++ pr_served p2 |}.

Lemma runs5 : reachable cfg p5.
Proof.
  destruct enrolls as (p0 & Hs & Hr & Hrest). exists p0. split; [exact Hs|]. split; [|exact Hrest].
  eapply rtc_r; [eapply rtc_r; [exact Hr|]|]; [apply process_steps with (t' := at_ 0) | apply process_steps with (t := at_ 0)].
  - destruct roster_taken as (w & H). eapply st_roster; [apply still_reads; lia | apply wide_sound | exact H].
  - destruct asked_peer as (w & H). apply (st_peers (at_ 0) (at_ 0) n4 c4 c5 peers4); [reflexivity|].
    eapply pc_refresh; [exact listed | apply wide_sound | exact H].
Qed.

End ServiceDemo.

Import ToySuite.

Lemma served_passes_witness :
  exists c d, nd_installed NodeDemo.n2 = Some (Cert_Marshal c) /\
    Unix (wall ServiceDemo.tick) < de_Expires d <= ct_NotAfter c.
Proof.
  destruct (served_passes NodeDemo.cfg NodeDemo.p2 ServiceDemo.tick ServiceDemo.answer NodeDemo.enrolls
    ServiceDemo.tick_later ServiceDemo.answers) as (i & c & d & _ & Hc & _ & _ & _ & _ & Hx & _).
  exists c, d. split; [exact Hc | exact Hx].
Defined.

Lemma within_roster_witness :
  exists ro e, authentic (ro_Anchor ro) ServiceDemo.other_addr e /\ EnrollDemo.key "m" = pe_linkPub e.
Proof.
  destruct (proj1 (within_roster NodeDemo.cfg ServiceDemo.p5 ServiceDemo.runs5) ServiceDemo.other_addr ServiceDemo.tick
    (EnrollDemo.key "m") ServiceDemo.key_given) as (raw & ro & rn & e & _ & _ & _ & _ & _ & Ha & Hk & _).
  exists ro, e. split; [exact Ha | exact Hk].
Defined.

Lemma one_certificate_witness :
  nd_installed (pr_node ServiceDemo.p5) <> None.
Proof.
  apply (proj1 (proj2 (one_certificate NodeDemo.cfg ServiceDemo.p5 ServiceDemo.runs5))).
  vm_compute. discriminate.
Defined.
