(* ===== verification/Enroll.v ===== *)
(** * Enroll: the operator's side of an enrollment

    Models [src/cmd/jimichi/enroll.go] and [runKeygenCA] of
    [src/cmd/jimichi/main.go].  One run certifies every relay of a roster under a
    CA that lives for that run, checks what the relays then serve the way a client
    does, and gives every relay the roster.  The network is an argument: a function
    from a request and its own state to the outcome of one exchange.  Everything
    the run sends and is answered is kept in a trace, and the lines it logs are
    values.  The two readings of the clock are arguments; the deadline of the run
    is the number of times a failed connection is tried again, and whether a
    failure came with the deadline over.  Left out: flags, the HTTP client, and
    the texts of the log lines. *)

From Stdlib Require Import Strings.Byte Strings.String.
From stdpp Require Import relations.
From S2P Require Import Prelude Effects Locks State Crypto C25519 Toy Gost Suites Text Json Addr Fields Secmem Startup Cert Replay Setup Pki Identity Roster Fetch Ring Peers Node Lifetime Service.

(** ** The roster as it is given *)

Record rosterEntry : Type := { nt_name : bytes; nt_addr : bytes; nt_admin : bytes; nt_info : bytes; nt_identity : bytes }.

Definition errNodeFlag : error := Other "want name=host:port,admin=host:port,info=host:port,identity=hash".
Definition errNodePart : error := Other "unknown or repeated part".

(** The loop of [parseNode] over the parts behind the first. *)
Fixpoint node_parts (parts : list bytes) (e : rosterEntry) : res rosterEntry :=
  match parts with
  | [] => Ok e
  | kv :: parts =>
      match Cut "=" kv with
      | None => Err errNodePart
      | Some (k, v) =>
          if bool_decide (k = str "admin") && bool_decide (nt_admin e = []) then
            node_parts parts {| nt_name := nt_name e; nt_addr := nt_addr e; nt_admin := v; nt_info := nt_info e; nt_identity := nt_identity e |}
          else if bool_decide (k = str "info") && bool_decide (nt_info e = []) then
            node_parts parts {| nt_name := nt_name e; nt_addr := nt_addr e; nt_admin := nt_admin e; nt_info := v; nt_identity := nt_identity e |}
          else if bool_decide (k = str "identity") && bool_decide (nt_identity e = []) then
            node_parts parts {| nt_name := nt_name e; nt_addr := nt_addr e; nt_admin := nt_admin e; nt_info := nt_info e; nt_identity := v |}
          else Err errNodePart
      end
  end.

Definition hash_char (c : byte) : bool := in_range "0" "9" c || in_range "a" "f" c.

Definition validKeyHash (s : bytes) : bool := (length s =? 2 * HashSize)%nat && forallb hash_char s.

Definition has_port (s : bytes) : bool := bool_decide (SplitHostPort s <> None) && negb (bool_decide (s = [])).

Definition parseNode (s : bytes) : res rosterEntry :=
  let parts := Split "," s in
  match Cut "=" (default [] (head parts)) with
  | None => Err errNodeFlag
  | Some (name, addr) =>
      let? e := node_parts (tail parts) {| nt_name := name; nt_addr := addr; nt_admin := []; nt_info := []; nt_identity := [] |} in
      if negb (ValidName (nt_name e)) then Err (Other "name is not 1 to 32 characters of a-z, 0-9 and -")
      else if negb (ValidAddr (nt_addr e)) then Err (Other "address is not a host:port a certificate can carry")
      else if negb (has_port (nt_admin e)) then Err (Other "admin wants host:port")
      else if negb (has_port (nt_info e)) then Err (Other "info wants host:port")
      else if negb (validKeyHash (nt_identity e)) then Err (Other "identity wants the hex digits of identity_hash")
      else Ok e
  end.

(** What an entry occupies; two entries may share none of it. *)
Definition labels (n : rosterEntry) : list bytes :=
  [str "name " ++ nt_name n; str "address " ++ nt_addr n; str "endpoint " ++ nt_admin n; str "endpoint " ++ nt_info n;
   str "identity " ++ nt_identity n].

Fixpoint unseen (seen : gset bytes) (l : list bytes) : res unit :=
  match l with
  | [] => Ok tt
  | v :: l => if bool_decide (v ∈ seen) then Err (Other "repeated in the roster") else unseen ({[v]} ∪ seen) l
  end.

Definition checkRoster (nodes : list rosterEntry) : res unit :=
  if (length nodes =? 0)%nat then Err (Other "no -node given")
  else unseen ∅ (List.concat (map labels nodes)).

(** The checks of [runEnroll] behind the roster's. *)
Definition checkEnroll (nodes : list rosterEntry) (certTTL timeout : Z) : res unit :=
  let? _ := checkRoster nodes in
  if certTTL <? Minute then Err (Other "-cert-ttl: want at least 1m")
  else if (timeout <=? 0) || (InstallWindow <? timeout) then Err (Other "-timeout: want more than 0 and at most the install window")
  else Ok tt.

(** ** Exchanges *)

Inductive method : Type := POST | PUT | GET.

Record request : Type := { q_method : method; q_host : bytes; q_path : string; q_body : bytes }.

(** A request that could not be made, one without an answer (and whether the
    deadline was over then), and an answer with its body, [None] if it broke off. *)
Inductive outcome : Type :=
| NotSent (e : error)
| NoAnswer (e : error) (late : bool)
| Answer (code : Z) (body : option bytes).

(** A [statusError] is told from every other error. *)
Inductive callError : Type :=
| StatusFailed (code : Z) (text : bytes)
| CallFailed (e : error).

Definition maxAnswer : nat := 16 * 1024.
Definition retryPause : Z := 200 * 1000 * 1000.
Definition StatusNoContent : Z := 204.

Fixpoint contains (sub l : bytes) : bool :=
  is_prefix sub l || match l with [] => false | _ :: t => contains sub t end.

Definition alreadyInstalled (e : callError) : bool :=
  match e with
  | StatusFailed code text => (code =? StatusConflict) && contains (str "already installed") text
  | CallFailed _ => false
  end.

Definition ambiguous (e : callError) : bool :=
  match e with
  | StatusFailed code _ => StatusInternalServerError <=? code
  | CallFailed _ => true
  end.

(** What [call] makes of the last exchange. *)
Definition verdict (want : Z) (o : outcome) : result callError bytes :=
  match o with
  | NotSent e | NoAnswer e _ => Err (CallFailed e)
  | Answer code None => Err (CallFailed (Sentinel io_ErrUnexpectedEOF))
  | Answer code (Some out) =>
      if (maxAnswer <? length out)%nat then Err (CallFailed (Other "answer over the limit"))
      else if negb (code =? want) then Err (StatusFailed code (TrimSpace out))
      else Ok out
  end.

(** A line of the log. *)
Inductive line : Type :=
| AlreadyHolds (name : bytes)
| Discarded (certificates : bool) (hold mayHold : list bytes)
| Enrolled (v : Verified)
| RosterInstalled (n : nat).

Section Enrollment.
Context {P : CryptoProvider} {E : Type}.
Context (Do : request -> E -> World -> (outcome * E) * World).

(** The network, what went over it, the log, and the variables of [run] that its
    deferred function reads. *)
Record Run : Type := {
  rn_net : E;
  rn_trace : list (request * outcome);
  rn_log : list line;
  rn_installed : list bytes;
  rn_mayHold : list bytes;
  rn_rostered : list bytes;
  rn_mayRoster : list bytes
}.

Definition sent (q : request) (o : outcome) (e : E) (s : Run) : Run :=
  {| rn_net := e; rn_trace := rn_trace s ++ [(q, o)]; rn_log := rn_log s; rn_installed := rn_installed s;
     rn_mayHold := rn_mayHold s; rn_rostered := rn_rostered s; rn_mayRoster := rn_mayRoster s |}.
Definition add_line (l : line) (s : Run) : Run :=
  {| rn_net := rn_net s; rn_trace := rn_trace s; rn_log := rn_log s ++ [l]; rn_installed := rn_installed s;
     rn_mayHold := rn_mayHold s; rn_rostered := rn_rostered s; rn_mayRoster := rn_mayRoster s |}.
Definition add_installed (n : bytes) (s : Run) : Run :=
  {| rn_net := rn_net s; rn_trace := rn_trace s; rn_log := rn_log s; rn_installed := rn_installed s ++ [n];
     rn_mayHold := rn_mayHold s; rn_rostered := rn_rostered s; rn_mayRoster := rn_mayRoster s |}.
Definition add_mayHold (n : bytes) (s : Run) : Run :=
  {| rn_net := rn_net s; rn_trace := rn_trace s; rn_log := rn_log s; rn_installed := rn_installed s;
     rn_mayHold := rn_mayHold s ++ [n]; rn_rostered := rn_rostered s; rn_mayRoster := rn_mayRoster s |}.
Definition add_rostered (n : bytes) (s : Run) : Run :=
  {| rn_net := rn_net s; rn_trace := rn_trace s; rn_log := rn_log s; rn_installed := rn_installed s;
     rn_mayHold := rn_mayHold s; rn_rostered := rn_rostered s ++ [n]; rn_mayRoster := rn_mayRoster s |}.
Definition add_mayRoster (n : bytes) (s : Run) : Run :=
  {| rn_net := rn_net s; rn_trace := rn_trace s; rn_log := rn_log s; rn_installed := rn_installed s;
     rn_mayHold := rn_mayHold s; rn_rostered := rn_rostered s; rn_mayRoster := rn_mayRoster s ++ [n] |}.

(** A failed connection is tried again until the deadline, an answer never. *)
Fixpoint call (retries : nat) (q : request) (want : Z) (s : Run) (w : World) : (res (result callError bytes) * Run) * World :=
  let '((o, e), w) := Do q (rn_net s) w in
  let s := sent q o e s in
  match o, retries with
  | NoAnswer _ false, S retries => call retries q want s w
  | _, _ => ((Ok (verdict want o), s), w)
  end.

Context (retries : nat) (nodes : list rosterEntry).

Definition csr (n : rosterEntry) (nonce : bytes) : request :=
  {| q_method := POST; q_host := nt_admin n; q_path := "/csr"; q_body := nonce |}.
Definition put_cert (n : rosterEntry) (raw : bytes) : request :=
  {| q_method := PUT; q_host := nt_admin n; q_path := "/cert"; q_body := raw |}.
Definition get_desc (n : rosterEntry) : request :=
  {| q_method := GET; q_host := nt_info n; q_path := "/descriptor"; q_body := [] |}.
Definition put_roster (n : rosterEntry) (raw : bytes) : request :=
  {| q_method := PUT; q_host := nt_admin n; q_path := "/roster"; q_body := raw |}.

Definition failed (text : string) (e : callError) : error :=
  ErrWrap (Other text) (match e with StatusFailed _ _ => Other "status" | CallFailed e => e end).

Definition errIdentityPin : error := Other "request signed by another key than the one the relay logged at start".

(** The check of one request. *)
Definition check_request (n : rosterEntry) (nonce raw : bytes) : res Request :=
  let? r := ParseRequest raw in
  let? _ := Request_Check r nonce (nt_name n) (nt_addr n) in
  if negb (bool_decide (KeyHash (rq_Identity r) = nt_identity n)) then Err errIdentityPin else Ok r.

(** The loop of [run] over the requests. *)
Fixpoint requests (ns : list rosterEntry) : ST Run (list Request) :=
  match ns with
  | [] => retS []
  | n :: ns =>
      let* nonce := worldS (rand_read Cert.NonceSize) in
      let* raw := call retries (csr n nonce) StatusOK in
      match raw with
      | Err e =>
          let* _ := modS (if alreadyInstalled e then add_line (AlreadyHolds (nt_name n)) else id) in
          failS (failed "certificate request" e)
      | Ok raw =>
          let* r := resS (check_request n nonce raw) in
          let* rs := requests ns in
          retS (r :: rs)
      end
  end.

Fixpoint repeats (seen : list bytes) (rs : list Request) : bool :=
  match rs with
  | [] => false
  | r :: rs => bool_decide (rq_Identity r ∈ seen) || repeats (seen ++ [rq_Identity r]) rs
  end.

(** [roster]: the same bytes for every relay. *)
Definition roster (a : Anchor) : bytes :=
  Roster_Marshal {| ro_Anchor := a; ro_Nodes := map (fun n => {| rn_Name := nt_name n; rn_Addr := nt_addr n |}) nodes |}.

(** An anchor of the size of the one to come. *)
Definition sizing_anchor (rs : list Request) : Anchor :=
  {| an_Suite := Suite; an_Pub := replicate (length (match rs with r :: _ => rq_Identity r | [] => [] end)) x00 |}.

Fixpoint issue_all (ca : CA) (rs : list Request) (nb na : Z) : M (list Cert) :=
  match rs with
  | [] => retM []
  | r :: rs =>
      let! c := Issue ca r nb na in
      let! cs := issue_all ca rs nb na in
      retM (c :: cs)
  end.

(** The loop over the certificates. *)
Fixpoint install_all (ns : list rosterEntry) (certs : list Cert) : ST Run unit :=
  match ns, certs with
  | n :: ns, c :: certs =>
      let* a := call retries (put_cert n (Cert_Marshal c)) StatusNoContent in
      match a with
      | Ok _ =>
          let* _ := modS (add_installed (nt_name n)) in
          install_all ns certs
      | Err e =>
          let* _ := modS (if alreadyInstalled e then add_line (AlreadyHolds (nt_name n))
                          else if ambiguous e then add_mayHold (nt_name n) else id) in
          failS (failed "installing the certificate" e)
      end
  | _, _ => retS tt
  end.

Fixpoint descriptors (ns : list rosterEntry) : ST Run (list bytes) :=
  match ns with
  | [] => retS []
  | n :: ns =>
      let* a := call retries (get_desc n) StatusOK in
      match a with
      | Ok b =>
          let* bs := descriptors ns in
          retS (b :: bs)
      | Err e => failS (failed "descriptor" e)
      end
  end.

Fixpoint roster_all (raw : bytes) (ns : list rosterEntry) : ST Run unit :=
  match ns with
  | [] => retS tt
  | n :: ns =>
      let* a := call retries (put_roster n raw) StatusNoContent in
      match a with
      | Ok _ =>
          let* _ := modS (add_rostered (nt_name n)) in
          roster_all raw ns
      | Err e =>
          let* _ := modS (if ambiguous e then add_mayRoster (nt_name n) else id) in
          failS (failed "installing the roster" e)
      end
  end.

Definition reportDiscarded (certificates : bool) (hold mayHold : list bytes) (s : Run) : Run :=
  if (length hold + length mayHold =? 0)%nat then s else add_line (Discarded certificates hold mayHold) s.

(** The deferred function: it runs when what follows fails. *)
Definition reported {A} (m : ST Run A) : ST Run A := fun s w =>
  match m s w with
  | ((Err e, s), w) =>
      ((Err e, reportDiscarded false (rn_rostered s) (rn_mayRoster s)
                 (reportDiscarded true (rn_installed s) (rn_mayHold s) s)), w)
  | ok => ok
  end.

(** From the first certificate that goes out to the last roster. *)
Definition install_and_check (anchor : Anchor) (certs : list Cert) (now2 : Z) : ST Run unit :=
  let* _ := install_all nodes certs in
  let* bundles := descriptors nodes in
  let* verified := worldS (VerifyChain (peer_policy anchor) (map nt_addr nodes) bundles now2) in
  let* _ := modS (fun s => foldl (fun s v => add_line (Enrolled v) s) s verified) in
  let* _ := roster_all (roster anchor) nodes in
  modS (add_line (RosterInstalled (length nodes))).

Definition run (certTTL now1 now2 : Z) : ST Run Anchor :=
  let* rs := requests nodes in
  if repeats [] rs then failS (ErrWrap (Other "nodes") (Sentinel pki_ErrDuplicate))
  else if (MaxRoster <? length (roster (sizing_anchor rs)))%nat then failS (Other "roster too large for a relay")
  else
    let* ca := worldS NewCA in
    let* certs := worldS (mwrap "issuing" (issue_all ca rs now1 (now1 + certTTL))) in
    let anchor := CA_Anchor ca in
    let* _ := reported (install_and_check anchor certs now2) in
    retS anchor.

End Enrollment.

(** *** The commands *)

Section Command.
Context {G : Gost.GostPrimitives} {X : C25519.Primitives}.

(** The provider of a suite that is named. *)
Definition pick (suiteName : bytes) : res CryptoProvider :=
  let? chosen := Suites.Parse suiteName in Suites.New chosen.

(** The anchor of a key that is thrown away. *)
Definition runKeygenCA (suiteName : bytes) : M bytes :=
  let! p := lift (pick suiteName) in
  let! ca := @NewCA p in
  retM (Anchor_String (CA_Anchor ca)).

(** Nothing is asked of a relay, and no key made, before the flags have passed and
    the memory of the process is what they say. *)
Context {E : Type} (Do : request -> E -> World -> (outcome * E) * World).

Definition runEnroll (linux : bool) (suiteName keymem : bytes) (harden : bool) (nodes : list rosterEntry) (certTTL timeout : Z)
    (retries : nat) (now1 now2 : Z) (m : Memory) (s : @Run E) (w : World) : option (res bytes * @Run E * World * Memory) :=
  match (let? _ := checkEnroll nodes certTTL timeout in pick suiteName) with
  | Err e => Some (Err e, s, w, m)
  | Ok p =>
      match protectKeyMemory linux keymem harden m with
      | None => None
      | Some (Err e, m) => Some (Err e, s, w, m)
      | Some (Ok _, m) =>
          let '((r, s), w) := @run p E Do retries nodes certTTL now1 now2 s w in
          Some (let? anchor := r in Ok (Anchor_String anchor), s, w, m)
      end
  end.


(** An anchor that is printed is that of a run under the suite that was named, and the
    CA key was made in memory as the flags have it. *)
Lemma runEnroll_ok linux suiteName keymem harden nodes certTTL timeout retries now1 now2 m s w text s' w' m' :
  mem_ok linux m -> Z.of_nat (length (buffers m)) + 1 < 2 ^ 64 ->
  runEnroll linux suiteName keymem harden nodes certTTL timeout retries now1 now2 m s w = Some (Ok text, s', w', m') ->
  exists p a policy, checkEnroll nodes certTTL timeout = Ok tt /\ pick suiteName = Ok p /\
    @run p E Do retries nodes certTTL now1 now2 s w = ((Ok a, s'), w') /\ text = Anchor_String a /\
    ParsePolicy keymem = Ok policy /\ Secmem.policy m' = policy /\ (pl_Lock policy = true -> linux = true).
Proof.
  intros Hm Hc. unfold runEnroll. destruct (checkEnroll _ _ _) as [[]|e]; cbn [rbind]; [|done]. destruct (pick suiteName) as [p|e]; [|done].
  unfold protectKeyMemory. destruct (key_memory linux keymem harden m Hm Hc) as (r & m1 & -> & _ & Hr). destruct r as [pol|e]; [|done].
  destruct (Hr pol eq_refl) as (Hparse & Hpol & Hlock & _). destruct (run _ _ _ _ _ _ s w) as [[[a|e] s1] w1] eqn:Er; [|done].
  intros [= <- <- <- <-]. exists p, a, pol. by split_and!.
Qed.

End Command.

(** ** The roster flags *)

Lemma unseen_ok seen l : unseen seen l = Ok tt <-> NoDup l /\ Forall (fun v => v ∉ seen) l.
Proof.
  induction l as [|v l IH] in seen |- *; cbn.
  - split; [intros _; split; constructor | done].
  - case_bool_decide as Hv; [split; [done|]; intros [_ [Hn _]%Forall_cons]; done|].
    rewrite IH, NoDup_cons, Forall_cons. split.
    + intros [Hnd Hf]. split_and!; [|done|done|].
      * intros Hin. by apply (proj1 (Forall_forall _ _) Hf v Hin), elem_of_union_l, elem_of_singleton.
      * eapply Forall_impl; [exact Hf|]. set_solver.
    + intros [[Hin Hnd] [_ Hf]]. split; [done|]. apply Forall_forall. intros x Hx.
      pose proof (proj1 (Forall_forall _ _) Hf x Hx). intros [->%elem_of_singleton|?]%elem_of_union; done.
Qed.

(** The label of an entry tells its kind and its value. *)
Lemma label_inj a b x y : a ∈ ["name "; "address "; "endpoint "; "identity "]%string -> b ∈ ["name "; "address "; "endpoint "; "identity "]%string ->
  str a ++ x = str b ++ y -> a = b /\ x = y.
Proof.
  intros Ha Hb. repeat (apply elem_of_cons in Ha as [->|Ha]); try (by apply elem_of_nil in Ha);
    repeat (apply elem_of_cons in Hb as [->|Hb]); try (by apply elem_of_nil in Hb); cbn; intros H; try discriminate H; split; congruence.
Qed.

(** What an accepted entry is. *)
Definition entry_ok (e : rosterEntry) : Prop :=
  ValidName (nt_name e) = true /\ ValidAddr (nt_addr e) = true /\ has_port (nt_admin e) = true /\
  has_port (nt_info e) = true /\ validKeyHash (nt_identity e) = true.

(** The spelling of an entry. *)
Definition node_flag (e : rosterEntry) : bytes :=
  joined "," [nt_name e ++ "="%byte :: nt_addr e; str "admin" ++ "="%byte :: nt_admin e; str "info" ++ "="%byte :: nt_info e;
              str "identity" ++ "="%byte :: nt_identity e].

Lemma parseNode_ok s e : parseNode s = Ok e -> entry_ok e.
Proof.
  unfold parseNode. destruct (Cut "=" _) as [[name addr]|]; [|discriminate]. intros H. inv_res. subst.
  rewrite !negb_false_iff in *. by split_and!.
Qed.

Lemma no_byte (c : byte) l (f : byte -> bool) : forallb f l = true -> f c = false -> c ∉ l.
Proof. intros H Hc Hin. rewrite forallb_forall in H. specialize (H c (proj1 (list_elem_of_In _ _) Hin)). congruence. Qed.

Lemma parseNode_flag e : entry_ok e -> (","%byte ∉ nt_admin e) -> (","%byte ∉ nt_info e) -> parseNode (node_flag e) = Ok e.
Proof.
  intros (Hn & Ha & Had & Hi & Hh) Hc1 Hc2.
  assert (forallb addr_char (nt_addr e) = true) as Hac by (by apply valid_addr_safe).
  assert (forallb name_char (nt_name e) = true) as Hnc.
  { unfold ValidName in Hn. by destruct (_ || _). }
  assert (forallb hash_char (nt_identity e) = true) as Hhc by (by apply andb_true_iff in Hh as [_ Hh]).
  assert (forall (p : string) l, (","%byte ∉ str p) -> (","%byte ∉ l) -> ","%byte ∉ str p ++ "="%byte :: l) as Hpre.
  { intros p l H1 H2. rewrite elem_of_app, elem_of_cons. by intros [?|[?|?]]. }
  unfold parseNode, node_flag. rewrite Split_joined.
  2: done.
  2: { repeat constructor.
       - rewrite elem_of_app, elem_of_cons. intros [H|[H|H]]; [by eapply (no_byte _ _ name_char) in H | done | by eapply (no_byte _ _ addr_char) in H].
       - apply Hpre; [by apply (bool_decide_unpack _) | done].
       - apply Hpre; [by apply (bool_decide_unpack _) | done].
       - apply Hpre; [by apply (bool_decide_unpack _)|]. by eapply (no_byte _ _ hash_char). }
  cbn [head default tail]. rewrite (proj2 (Cut_spec "=" _ (nt_name e) (nt_addr e))).
  2: { split; [|done]. by eapply (no_byte _ _ name_char). }
  assert (forall (k : string) v, ("="%byte ∉ str k) -> Cut "=" (str k ++ "="%byte :: v) = Some (str k, v)) as Hcut
    by (intros k v Hk; by apply Cut_spec).
  cbn [node_parts].
  rewrite (Hcut "admin"%string (nt_admin e)), (Hcut "info"%string (nt_info e)), (Hcut "identity"%string (nt_identity e)) by (by apply (bool_decide_unpack _)).
  assert (forall a b : string, bool_decide (str a = str b) = bool_decide (a = b)) as Hstr.
  { intros a b. apply bool_decide_ext. split; [|by intros ->]. unfold str. intros E.
    by rewrite <- (string_of_list_byte_of_string a), E, string_of_list_byte_of_string. }
  rewrite !Hstr.
  repeat match goal with |- context [bool_decide (@eq string ?a ?b)] =>
    let v := eval vm_compute in (bool_decide (a = b)) in change (bool_decide (@eq string a b)) with v end.
  rewrite !(bool_decide_true (@nil byte = [])) by done. cbn [andb nt_admin nt_info nt_identity nt_name nt_addr].
  cbn [rbind nt_admin nt_info nt_identity nt_name nt_addr]. rewrite Hn, Ha, Had, Hi, Hh. by destruct e.
Qed.

(** No two entries share a label. *)
Definition distinct_entries (nodes : list rosterEntry) : Prop :=
  NoDup (map nt_name nodes) /\ NoDup (map nt_addr nodes) /\ NoDup (List.concat (map (fun n => [nt_admin n; nt_info n]) nodes)) /\
  NoDup (map nt_identity nodes).

Lemma NoDup_app_iff {A} (l k : list A) : NoDup (l ++ k) <-> NoDup l /\ NoDup k /\ (forall x, x ∈ l -> x ∉ k).
Proof. rewrite NoDup_app. naive_solver. Qed.

(** The labels of the entries, kind by kind. *)
Lemma labels_perm nodes : List.concat (map labels nodes) ≡ₚ
  map (fun n => str "name " ++ nt_name n) nodes ++ map (fun n => str "address " ++ nt_addr n) nodes ++
  map (app (str "endpoint ")) (List.concat (map (fun n => [nt_admin n; nt_info n]) nodes)) ++
  map (fun n => str "identity " ++ nt_identity n) nodes.
Proof.
  induction nodes as [|n nodes IH]; [done|]. cbn [map List.concat labels app]. rewrite IH. clear IH.
  set (a := map (fun n => str "name " ++ nt_name n) nodes). set (b := map (fun n => str "address " ++ nt_addr n) nodes).
  set (c := map (app (str "endpoint ")) (List.concat (map (fun n => [nt_admin n; nt_info n]) nodes))).
  set (d := map (fun n => str "identity " ++ nt_identity n) nodes). solve_Permutation.
Qed.

Lemma NoDup_labelled {A} (k : string) (f : A -> bytes) l : NoDup (map (fun x => str k ++ f x) l) <-> NoDup (map f l).
Proof.
  rewrite <- (map_map f (app (str k))). apply NoDup_fmap. intros x y. apply app_inv_head.
Qed.

(** A value under one label is never one under another. *)
Lemma labels_apart {A B} (a b : string) (f : A -> bytes) (g : B -> bytes) l k :
  a ∈ ["name "; "address "; "endpoint "; "identity "]%string -> b ∈ ["name "; "address "; "endpoint "; "identity "]%string -> a <> b ->
  forall x, x ∈ map (fun n => str a ++ f n) l -> x ∉ map (fun n => str b ++ g n) k.
Proof.
  intros Ha Hb Hne x (n & -> & _)%list_elem_of_fmap (m & E & _)%list_elem_of_fmap.
  by destruct (label_inj a b _ _ Ha Hb E).
Qed.

Lemma checkRoster_ok nodes : checkRoster nodes = Ok tt <-> nodes <> [] /\ distinct_entries nodes.
Proof.
  unfold checkRoster, distinct_entries. destruct (Nat.eqb_spec (length nodes) 0) as [Hn|Hn].
  { split; [done|]. intros [H _]. by destruct nodes. }
  rewrite unseen_ok, labels_perm, !NoDup_app_iff, (NoDup_labelled "name "), (NoDup_labelled "address "), (NoDup_labelled "identity "),
    (NoDup_labelled "endpoint " (fun x => x) (List.concat _)), map_id.
  split.
  - intros [(H1 & (H2 & (H3 & H4 & _) & _) & _) _]. split_and!; try done. by intros ->.
  - intros (_ & H1 & H2 & H3 & H4). split; [|apply Forall_forall; intros x _; apply not_elem_of_empty]. split_and!; try done; intros x Hx; rewrite ?not_elem_of_app; split_and?;
      first [eapply (labels_apart "name "); [set_solver..|exact Hx] | eapply (labels_apart "address "); [set_solver..|exact Hx]
            | eapply (labels_apart "endpoint " _ (fun x => x)); [set_solver..|exact Hx]].
Qed.

(** A roster given by flags is what it says.  An entry that [parseNode] takes has
    a valid name and address, two endpoints with a port and a hash of the right
    form; every such entry without a comma in its endpoints is read back from its
    spelling as itself; and [checkRoster] takes exactly the rosters that are not
    empty and in which no two entries share a name, an address or an identity and
    no endpoint occurs twice, be it in one entry. *)
Theorem roster_flags s nodes :
  (forall e, parseNode s = Ok e -> entry_ok e) /\
  (forall e, entry_ok e -> (","%byte ∉ nt_admin e) -> (","%byte ∉ nt_info e) -> parseNode (node_flag e) = Ok e) /\
  (checkRoster nodes = Ok tt <-> nodes <> [] /\ distinct_entries nodes).
Proof. split_and!; [intros e; apply parseNode_ok | apply parseNode_flag | apply checkRoster_ok]. Qed.

(** ** What goes over the network *)

Section Exchanges.
Context `{CL : CryptoLaws} {E : Type}.
Context (Do : request -> E -> World -> (outcome * E) * World).

(** Exchanges move the network on. *)
Definition net_step (e e' : E) : Prop := exists q w o w', Do q e w = ((o, e'), w').

(** One call: its exchanges, the last of which decides. *)
Record exchanged (q : request) (o : outcome) (s s' : @Run E) : Prop := {
  ex_trace : exists fails, rn_trace s' = rn_trace s ++ map (fun e => (q, NoAnswer e false)) fails ++ [(q, o)];
  ex_net : exists e w w', rtc net_step (rn_net s) e /\ Do q e w = ((o, rn_net s'), w');
  ex_log : rn_log s' = rn_log s;
  ex_installed : rn_installed s' = rn_installed s /\ rn_mayHold s' = rn_mayHold s;
  ex_rostered : rn_rostered s' = rn_rostered s /\ rn_mayRoster s' = rn_mayRoster s
}.

Lemma call_spec n q want s w r s' w' : call Do n q want s w = ((r, s'), w') ->
  exists o, r = Ok (verdict want o) /\ exchanged q o s s'.
Proof.
  revert s w. induction n as [|n IH]; intros s w; cbn; destruct (Do q (rn_net s) w) as [[o e] w1] eqn:Hd.
  - assert (((Ok (verdict want o), sent q o e s), w1) = ((r, s'), w') -> exists o, r = Ok (verdict want o) /\ exchanged q o s s') as H.
    { intros [= <- <- <-]. exists o. split; [done|]. split; try done; [by exists []|]. exists (rn_net s), w, w1. by split. }
    by destruct o as [e0|e0 []|code b].
  - assert (((Ok (verdict want o), sent q o e s), w1) = ((r, s'), w') -> exists o, r = Ok (verdict want o) /\ exchanged q o s s') as H.
    { intros [= <- <- <-]. exists o. split; [done|]. split; try done; [by exists []|]. exists (rn_net s), w, w1. by split. }
    destruct o as [e0|e0 []|code b]; try exact H.
    intros (o & -> & [(fails & Ht) (e1 & w2 & w3 & Hn & He) Hl Hi Hr])%IH. exists o. split; [done|]. split; try done.
    + exists (e0 :: fails). rewrite Ht. cbn. by rewrite <- app_assoc.
    + exists e1, w2, w3. split; [|done]. eapply rtc_l; [|exact Hn]. by exists q, w, (NoAnswer e0 false), w1.
Qed.

Lemma verdict_ok want o b : verdict want o = Ok b -> o = Answer want (Some b).
Proof.
  unfold verdict. destruct o as [e|e l|code [out|]]; try done. destruct (maxAnswer <? length out)%nat; [done|]. destruct (Z.eqb_spec code want) as [->|]; [|done].
  by intros [= ->].
Qed.

(** The exchanges of a phase: one kind of request, to relays of a list. *)
Definition of_kind (m : method) (path : string) (x : request * outcome) : Prop := q_method (fst x) = m /\ q_path (fst x) = path.

Lemma exchanged_kind q o s s' : exchanged q o s s' -> exists t, rn_trace s' = rn_trace s ++ t /\ last t = Some (q, o) /\
  Forall (fun x => fst x = q) t.
Proof.
  intros [(fails & Ht) _ _ _ _]. eexists. split; [exact Ht|]. split; [apply last_snoc|].
  apply Forall_app. split; [|by repeat constructor]. apply Forall_map, Forall_forall. by intros e _.
Qed.

Lemma exchanged_net q o s s' : exchanged q o s s' -> rtc net_step (rn_net s) (rn_net s').
Proof. intros [_ (e & w & w' & Hn & He) _ _ _]. eapply rtc_r; [exact Hn|]. by exists q, w, o, w'. Qed.

(** A part of the run that only makes requests of one kind. *)
Record phase (m : method) (path : string) (t : list (request * outcome)) (s s' : @Run E) : Prop := {
  ph_trace : rn_trace s' = rn_trace s ++ t;
  ph_kind : Forall (of_kind m path) t;
  ph_net : rtc net_step (rn_net s) (rn_net s')
}.

Lemma phase_none m path (s s' : @Run E) : rn_trace s' = rn_trace s -> rn_net s' = rn_net s -> phase m path [] s s'.
Proof. intros Ht Hn. split; [by rewrite Ht, app_nil_r | constructor | by rewrite Hn]. Qed.

Lemma phase_call q o s s' : exchanged q o s s' -> exists t, phase (q_method q) (q_path q) t s s' /\ (q, o) ∈ t /\ Forall (fun x => fst x = q) t.
Proof.
  intros H. destruct (exchanged_kind _ _ _ _ H) as (t & Ht & Hin%last_Some_elem_of & Hq). exists t. split; [|done]. split; [done | | by eapply exchanged_net].
  eapply Forall_impl; [exact Hq|]. by intros [q' o'] <-.
Qed.

Lemma phase_trans m path t1 t2 s1 s2 s3 : phase m path t1 s1 s2 -> phase m path t2 s2 s3 -> phase m path (t1 ++ t2) s1 s3.
Proof.
  intros [A1 A2 A3] [B1 B2 B3]. split; [by rewrite B1, A1, app_assoc | by apply Forall_app | by etrans].
Qed.

(** What the deferred report reads stays. *)
Definition same_books (s s' : @Run E) : Prop :=
  rn_installed s' = rn_installed s /\ rn_mayHold s' = rn_mayHold s /\ rn_rostered s' = rn_rostered s /\ rn_mayRoster s' = rn_mayRoster s.

Lemma exchanged_books q o s s' : exchanged q o s s' -> same_books s s'.
Proof. intros [_ _ _ [A B] [C D]]. by split_and!. Qed.

Context (retries : nat).

(** What was asked and checked of each relay. *)
Definition requested (t : list (request * outcome)) (n : rosterEntry) (r : Request) : Prop :=
  exists nonce raw, length nonce = Cert.NonceSize /\ (csr n nonce, Answer StatusOK (Some raw)) ∈ t /\ check_request n nonce raw = Ok r.

Lemma requested_more t t' n r : requested t n r -> t ⊆ t' -> requested t' n r.
Proof. intros (nonce & raw & Hl & Hin & Hc) Ht. exists nonce, raw. split_and!; [done | by apply Ht | done]. Qed.

Lemma requests_spec ns s w r s' w' : requests Do retries ns s w = ((r, s'), w') ->
  exists t, phase POST "/csr" t s s' /\ same_books s s' /\
    forall rs, r = Ok rs -> Forall2 (requested t) ns rs.
Proof.
  revert s w r s' w'. induction ns as [|n ns IH]; intros s w r s' w'; cbn [requests].
  { intros [= <- <- <-]. exists []. split_and!; [by apply phase_none | done |]. intros rs [= <-]. constructor. }
  unfold bindS at 1. unfold worldS. destruct (rand_read Cert.NonceSize w) as [[nonce|e] w1] eqn:En.
  2: { intros [= <- <- <-]. exists []. split_and!; [by apply phase_none | done | done]. }
  apply rand_read_ok in En. unfold bindS at 1. destruct (call Do retries (csr n nonce) StatusOK s w1) as [[a s1] w2] eqn:Ec.
  apply call_spec in Ec as (o & -> & Hex). destruct (phase_call _ _ _ _ Hex) as (t1 & Hp1 & Hin & _).
  pose proof (exchanged_books _ _ _ _ Hex) as Hb1. destruct (verdict StatusOK o) as [raw|e] eqn:Ev.
  2: { unfold bindS, modS, failS. intros [= <- <- <-]. exists t1. split_and!; [| |done].
       - destruct (alreadyInstalled e); [|done]. destruct Hp1 as [A B C]. by split.
       - by destruct (alreadyInstalled e). }
  apply verdict_ok in Ev as ->. unfold bindS at 1. unfold resS. destruct (check_request n nonce raw) as [r0|e] eqn:Ek.
  2: { intros [= <- <- <-]. exists t1. by split_and!. }
  unfold bindS at 1. destruct (requests Do retries ns s1 w2) as [[rs s2] w3] eqn:Er.
  destruct (IH _ _ _ _ _ Er) as (t2 & Hp2 & Hb2 & Hrs).
  assert (same_books s s2) as Hb by (destruct Hb1 as (A1 & A2 & A3 & A4), Hb2 as (B1 & B2 & B3 & B4); split_and!; congruence).
  destruct rs as [rs|e]; intros [= <- <- <-]; exists (t1 ++ t2); (split_and!; [by eapply phase_trans | done |]); [|done].
  intros rs' [= <-]. constructor.
  - exists nonce, raw. split_and!; [done | apply elem_of_app; by left | done].
  - eapply Forall2_impl; [by apply Hrs|]. intros x y H. eapply requested_more; [exact H | set_solver].
Qed.

(** *** Loops that end with the first answer they do not want *)

(** All of a run but the network and what went over it. *)
Definition books (s : @Run E) : list line * (list bytes * list bytes) * (list bytes * list bytes) :=
  (rn_log s, (rn_installed s, rn_mayHold s), (rn_rostered s, rn_mayRoster s)).

Section Walk.
Context {A : Type} (mk : A -> request) (want : Z) (text : string) (ok : A -> @Run E -> @Run E) (bad : A -> callError -> @Run E -> @Run E).
Context (ok_net : forall a s, rn_net (ok a s) = rn_net s /\ rn_trace (ok a s) = rn_trace s).
Context (bad_net : forall a e s, rn_net (bad a e s) = rn_net s /\ rn_trace (bad a e s) = rn_trace s).

Fixpoint walk (l : list A) : ST (@Run E) unit :=
  match l with
  | [] => retS tt
  | a :: l =>
      let* r := call Do retries (mk a) want in
      match r with
      | Ok _ =>
          let* _ := modS (ok a) in
          walk l
      | Err e =>
          let* _ := modS (bad a e) in
          failS (failed text e)
      end
  end.

(** How far the loop came: [k] elements got what was wanted, and the one behind
    them, if there is one, ended it.  [add] and [stop] are what the loop did to the
    rest of the run. *)
Context {B : Type} (view : @Run E -> B) (add : B -> A -> B) (stop : B -> A -> callError -> B).
Context (ok_view : forall a s, view (ok a s) = add (view s) a).
Context (bad_view : forall a e s, view (bad a e s) = stop (view s) a e).
Context (view_books : forall s s', books s' = books s -> view s' = view s).

Definition walked (l : list A) (t : list (request * outcome)) (k : nat) (r : res unit) (s s' : @Run E) : Prop :=
  rn_trace s' = rn_trace s ++ t /\ rtc net_step (rn_net s) (rn_net s') /\ (k <= length l)%nat /\
  Forall (fun x => exists i a, (i <= k)%nat /\ l !! i = Some a /\ fst x = mk a) t /\
  (forall i a, l !! i = Some a -> (i < k)%nat -> exists b, (mk a, Answer want (Some b)) ∈ t) /\
  match r with
  | Ok _ => k = length l /\ view s' = foldl add (view s) (take k l)
  | Err _ => exists a o e, l !! k = Some a /\ last t = Some (mk a, o) /\ verdict want o = Err e /\
      view s' = stop (foldl add (view s) (take k l)) a e
  end.

Lemma walk_spec l s w r s' w' : walk l s w = ((r, s'), w') -> exists t k, walked l t k r s s'.
Proof.
  revert s w. induction l as [|a l IH]; intros s w; cbn [walk].
  { intros [= <- <- <-]. exists [], 0%nat. split_and!; [by rewrite app_nil_r | done | done | constructor | by intros i a _ ?%Nat.nlt_0_r | done | done]. }
  unfold bindS at 1. destruct (call Do retries (mk a) want s w) as [[x s1] w1] eqn:Ec. apply call_spec in Ec as (o & -> & Hex).
  pose proof (exchanged_kind _ _ _ _ Hex) as (t1 & Ht1 & Hlast & Hq). pose proof (exchanged_net _ _ _ _ Hex) as Hn.
  pose proof (last_Some_elem_of _ _ Hlast) as Hin.
  assert (view s1 = view s) as Hv by (apply view_books; destruct Hex as [_ _ H1 [H2 H3] [H4 H5]]; unfold books; congruence).
  destruct (verdict want o) as [b|e] eqn:Ev.
  - apply verdict_ok in Ev as ->. unfold bindS, modS. intros H. destruct (IH _ _ H) as (t & k & H1 & H2 & H3 & H4 & H5 & H6).
    destruct (ok_net a s1) as [N1 N2]. rewrite N1, ?N2 in *. exists (t1 ++ t), (S k). split_and!.
    + by rewrite H1, Ht1, app_assoc.
    + by etrans.
    + cbn. lia.
    + apply Forall_app. split.
      * eapply Forall_impl; [exact Hq|]. intros y Hy. exists 0%nat, a. split_and!; [lia | done | done].
      * eapply Forall_impl; [exact H4|]. intros y (i & a' & Hi & Ha & Hy). exists (S i), a'. split_and!; [lia | done | done].
    + intros [|i] a' Ha Hi; cbn in Ha.
      * injection Ha as <-. exists b. apply elem_of_app. by left.
      * destruct (H5 i a' Ha) as [b' Hb']; [lia|]. exists b'. apply elem_of_app. by right.
    + cbn [take foldl]. rewrite ok_view, Hv in H6. destruct r as [[]|e]; [by destruct H6 as [-> H6]|].
      destruct H6 as (a' & o & e' & Ha & Hi & Hve & Hs). exists a', o, e'. split_and!; [done | by rewrite last_app, Hi | done | done].
  - unfold bindS, modS, failS. intros [= <- <- <-]. destruct (bad_net a e s1) as [N1 N2]. exists t1, 0%nat.
    unfold walked. rewrite N1, N2. split_and!; [done | done | cbn; lia | | by intros i a' _ ?%Nat.nlt_0_r |].
    + eapply Forall_impl; [exact Hq|]. intros y Hy. by exists 0%nat, a.
    + exists a, o, e. split_and!; [done | done | done |]. by rewrite bad_view, Hv.
Qed.

End Walk.

(** *** The loops of a run *)

(** What the deferred report reads. *)
Definition noted (s : @Run E) : (list bytes * list bytes) * (list bytes * list bytes) :=
  ((rn_installed s, rn_mayHold s), (rn_rostered s, rn_mayRoster s)).

Definition bad_cert (x : rosterEntry * Cert) (e : callError) : @Run E -> @Run E :=
  if alreadyInstalled e then add_line (AlreadyHolds (nt_name (fst x))) else if ambiguous e then add_mayHold (nt_name (fst x)) else id.

Definition bad_roster (n : rosterEntry) (e : callError) : @Run E -> @Run E := if ambiguous e then add_mayRoster (nt_name n) else id.

Definition put_one (x : rosterEntry * Cert) : request := put_cert (fst x) (Cert_Marshal (snd x)).

Lemma install_all_walk ns certs s w : install_all Do retries ns certs s w =
  walk put_one StatusNoContent "installing the certificate" (fun x => add_installed (nt_name (fst x))) bad_cert (zip ns certs) s w.
Proof.
  revert certs s w. induction ns as [|n ns IH]; intros [|c certs] s w; try done. cbn [install_all walk zip zip_with].
  unfold bindS. unfold put_one at 1. cbn [fst snd].
  destruct (call _ _ (put_cert n (Cert_Marshal c)) _ s w) as [[[[b|e]|e] s1] w1]; [|done|done]. unfold modS. apply IH.
Qed.

Lemma roster_all_walk raw ns s w : roster_all Do retries raw ns s w =
  walk (fun n => put_roster n raw) StatusNoContent "installing the roster" (fun n => add_rostered (nt_name n)) bad_roster ns s w.
Proof.
  revert s w. induction ns as [|n ns IH]; intros s w; [done|]. cbn [roster_all walk]. unfold bindS.
  destruct (call _ _ (put_roster n raw) _ s w) as [[[[b|e]|e] s1] w1]; [|done|done]. unfold modS. apply IH.
Qed.

Definition add_name {A} (name : A -> bytes) (first : bool) (b : (list bytes * list bytes) * (list bytes * list bytes)) (a : A) :=
  let '((i, m), (r, y)) := b in
  if first then ((i ++ [name a], m), (r, y)) else ((i, m), (r ++ [name a], y)).

Definition add_doubt {A} (name : A -> bytes) (first : bool) (doubt : callError -> bool)
    (b : (list bytes * list bytes) * (list bytes * list bytes)) (a : A) (e : callError) :=
  let '((i, m), (r, y)) := b in
  if doubt e then if first then ((i, m ++ [name a]), (r, y)) else ((i, m), (r, y ++ [name a])) else b.

(** Whether an error leaves open that the relay holds the certificate. *)
Definition in_doubt (e : callError) : bool := negb (alreadyInstalled e) && ambiguous e.

Lemma fold_names {A} (name : A -> bytes) l b : foldl (add_name name true) b l =
  ((fst (fst b) ++ map name l, snd (fst b)), snd b).
Proof.
  revert b. induction l as [|a l IH]; intros [[i m] [r y]]; cbn; [by rewrite app_nil_r|]. rewrite IH. cbn. by rewrite <- app_assoc.
Qed.

Lemma fold_rosters {A} (name : A -> bytes) l b : foldl (add_name name false) b l =
  (fst b, (fst (snd b) ++ map name l, snd (snd b))).
Proof.
  revert b. induction l as [|a l IH]; intros [[i m] [r y]]; cbn; [by rewrite app_nil_r|]. rewrite IH. cbn. by rewrite <- app_assoc.
Qed.

Lemma install_spec ns certs s w r s' w' : install_all Do retries ns certs s w = ((r, s'), w') ->
  exists t k, walked put_one StatusNoContent noted (add_name (fun x => nt_name (fst x)) true)
    (add_doubt (fun x => nt_name (fst x)) true in_doubt) (zip ns certs) t k r s s'.
Proof.
  rewrite install_all_walk. apply walk_spec; try done.
  - intros [n c] e s0. unfold bad_cert. destruct (alreadyInstalled e), (ambiguous e); done.
  - intros [n c] e s0. unfold bad_cert, add_doubt, in_doubt, noted. destruct (alreadyInstalled e), (ambiguous e); done.
  - intros s1 s2 [= _ H1 H2 H3 H4]. unfold noted. congruence.
Qed.

Lemma rosters_spec raw ns s w r s' w' : roster_all Do retries raw ns s w = ((r, s'), w') ->
  exists t k, walked (fun n => put_roster n raw) StatusNoContent noted (add_name nt_name false)
    (add_doubt nt_name false ambiguous) ns t k r s s'.
Proof.
  rewrite roster_all_walk. apply walk_spec; try done.
  - intros n e s0. unfold bad_roster. destruct (ambiguous e); done.
  - intros n e s0. unfold bad_roster, add_doubt, noted. destruct (ambiguous e); done.
  - intros s1 s2 [= _ H1 H2 H3 H4]. unfold noted. congruence.
Qed.

Lemma descriptors_spec ns s w r s' w' : descriptors Do retries ns s w = ((r, s'), w') ->
  exists t, phase GET "/descriptor" t s s' /\ noted s' = noted s /\
    forall bs, r = Ok bs -> Forall2 (fun n b => (get_desc n, Answer StatusOK (Some b)) ∈ t) ns bs.
Proof.
  revert s w r s' w'. induction ns as [|n ns IH]; intros s w r s' w'; cbn [descriptors].
  { intros [= <- <- <-]. exists []. split_and!; [by apply phase_none | done |]. intros rs [= <-]. constructor. }
  unfold bindS at 1. destruct (call Do retries (get_desc n) StatusOK s w) as [[a s1] w1] eqn:Ec.
  apply call_spec in Ec as (o & -> & Hex). destruct (phase_call _ _ _ _ Hex) as (t1 & Hp1 & Hin & _).
  assert (noted s1 = noted s) as Hb1 by (destruct Hex as [_ _ _ [H2 H3] [H4 H5]]; unfold noted; congruence).
  destruct (verdict StatusOK o) as [b|e] eqn:Ev; [|intros [= <- <- <-]; exists t1; by split_and!].
  apply verdict_ok in Ev as ->. unfold bindS. destruct (descriptors Do retries ns s1 w1) as [[bs s2] w2] eqn:Er.
  destruct (IH _ _ _ _ _ Er) as (t2 & Hp2 & Hb2 & Hbs).
  destruct bs as [bs|e]; intros [= <- <- <-]; exists (t1 ++ t2); (split_and!; [by eapply phase_trans | congruence |]); [|done].
  intros bs' [= <-]. constructor; [apply elem_of_app; by left|]. eapply Forall2_impl; [by apply Hbs|].
  intros x y H. apply elem_of_app. by right.
Qed.

(** *** The run *)

Lemma repeats_NoDup seen rs : repeats seen rs = false <-> NoDup (map rq_Identity rs) /\ Forall (fun r => rq_Identity r ∉ seen) rs.
Proof.
  induction rs as [|r rs IH] in seen |- *; cbn; [split; [intros _; split; constructor | done]|].
  rewrite orb_false_iff, bool_decide_eq_false, IH, NoDup_cons, Forall_cons. split.
  - intros (Hr & Hn & Hf). split_and!; [|done|done|].
    + intros (r' & Er & Hin)%list_elem_of_fmap. apply (proj1 (Forall_forall _ _) Hf r' Hin). rewrite <- Er. set_solver.
    + eapply Forall_impl; [exact Hf|]. set_solver.
  - intros ((Hr & Hn) & Hs & Hf). split_and!; [done | done |]. apply Forall_forall. intros r' Hin.
    pose proof (proj1 (Forall_forall _ _) Hf r' Hin). intros [?|?%list_elem_of_singleton]%elem_of_app; [done|].
    apply Hr, list_elem_of_fmap. by exists r'.
Qed.

(** The certificate [c] of the CA behind [a] for the entry [n]. *)
Record certifies (a : Anchor) (nb na : Z) (n : rosterEntry) (c : Cert) : Prop := {
  cf_wf : cert_wf c = true;
  cf_suite : ct_Suite c = Suite;
  cf_ca : ct_CAID c = Anchor_ID a;
  cf_sig : Crypto.Verify (an_Pub a) (message (SCert c)) (ct_Sig c) = true;
  cf_name : ct_Name c = nt_name n;
  cf_addr : ct_Addr c = nt_addr n;
  cf_identity : KeyHash (ct_Identity c) = nt_identity n;
  cf_from : ct_NotBefore c = Unix nb;
  cf_until : ct_NotAfter c = Unix na
}.

Lemma check_request_ok n nonce raw r : check_request n nonce raw = Ok r ->
  ParseRequest raw = Ok r /\ Request_Check r nonce (nt_name n) (nt_addr n) = Ok tt /\
  rq_Name r = nt_name n /\ rq_Addr r = nt_addr n /\ KeyHash (rq_Identity r) = nt_identity n.
Proof.
  unfold check_request. intros H. apply rbind_ok in H as (r' & Hp & H). apply rbind_ok in H as ([] & Hc & H).
  destruct (bool_decide_reflect (KeyHash (rq_Identity r') = nt_identity n)) as [Hk|]; [|done]. injection H as <-.
  split_and!; try done; unfold Request_Check in Hc; destruct (negb _); try done; destruct (negb _); try done;
    destruct (_ || _) eqn:Eo; try done; apply orb_false_iff in Eo as [E1%negb_false_iff%bool_decide_eq_true E2%negb_false_iff%bool_decide_eq_true]; done.
Qed.

Lemma issue_all_ok w0 ca w1 rs nb na t ns w certs w' : NewCA w0 = (Ok ca, w1) -> - 2 ^ 63 <= Unix nb -> Unix na < 2 ^ 63 ->
  Forall2 (requested t) ns rs -> issue_all ca rs nb na w = (Ok certs, w') ->
  Forall2 (certifies (CA_Anchor ca) nb na) ns certs.
Proof.
  intros Hca Hnb Hna H. revert w certs w'. induction H as [|n r ns rs (nonce & raw & _ & _ & Hr) Hrs IH]; intros w certs w'; cbn.
  { intros [-> _]%retM_ok. constructor. }
  intros H. apply bindM_ok in H as (c & w2 & Hc & H). apply bindM_ok in H as (cs & w3 & Hcs & [-> _]%retM_ok).
  constructor; [|by eapply IH]. apply check_request_ok in Hr as (_ & _ & Hn & Ha & Hk).
  destruct (Issue_ok _ _ _ _ _ _ _ _ _ Hca Hc Hnb Hna) as (H1 & H2 & H3 & H4 & _ & H5 & H6 & H7 & H8 & H9 & _).
  split; try done; congruence.
Qed.

Lemma issue_all_length ca rs nb na w cs w' : issue_all ca rs nb na w = (Ok cs, w') -> length cs = length rs.
Proof.
  revert w cs w'. induction rs as [|r rs IH]; intros w cs w'; cbn; [by intros [-> _]%retM_ok|].
  intros H. apply bindM_ok in H as (c & w2 & _ & H). apply bindM_ok in H as (cs' & w3 & Hcs & [-> _]%retM_ok). cbn. f_equal. by eapply IH.
Qed.

Lemma reported_ok {A} (m : ST (@Run E) A) s w a s' w' : reported m s w = ((Ok a, s'), w') -> m s w = ((Ok a, s'), w').
Proof. unfold reported. destruct (m s w) as [[[x|e] s1] w1]; [done | intros [=]]. Qed.

Lemma reported_err {A} (m : ST (@Run E) A) s w e s' w' : reported m s w = ((Err e, s'), w') -> exists s1,
  m s w = ((Err e, s1), w') /\
  s' = reportDiscarded false (rn_rostered s1) (rn_mayRoster s1) (reportDiscarded true (rn_installed s1) (rn_mayHold s1) s1).
Proof. unfold reported. destruct (m s w) as [[[x|e'] s1] w1]; [intros [=]|]. intros [= -> <- <-]. by exists s1. Qed.

Context (nodes : list rosterEntry).

Lemma enrolled_lines (vs : list Verified) (s : @Run E) :
  let s' := foldl (fun s v => add_line (Enrolled v) s) s vs in
  rn_trace s' = rn_trace s /\ rn_net s' = rn_net s /\ noted s' = noted s.
Proof. revert s. induction vs as [|v vs IH]; intros s; cbn; [done|]. by destruct (IH (add_line (Enrolled v) s)) as (-> & -> & ->). Qed.

(** The parts of a run that returns an anchor. *)
Lemma enroll_run_ok certTTL now1 now2 s w a s' w' : run Do retries nodes certTTL now1 now2 s w = ((Ok a, s'), w') ->
  exists rs s1 ca w1 w2 certs w3 s4 w4,
    (exists tc, phase POST "/csr" tc s s1 /\ same_books s s1 /\ Forall2 (requested tc) nodes rs) /\ NoDup (map rq_Identity rs) /\
    NewCA w1 = (Ok ca, w2) /\ issue_all ca rs now1 (now1 + certTTL) w2 = (Ok certs, w3) /\ a = CA_Anchor ca /\
    install_and_check Do retries nodes a certs now2 s1 w3 = ((Ok tt, s4), w4) /\ s' = s4.
Proof.
  unfold run. intros H. apply bindS_ok in H as (rs & s1 & w1 & Hreq & H).
  apply requests_spec in Hreq as (tc & Hp & Hb & Hrs). specialize (Hrs rs eq_refl).
  destruct (repeats [] rs) eqn:Hrep; [done|]. apply repeats_NoDup in Hrep as [Hrep _].
  destruct (MaxRoster <? length (roster nodes (sizing_anchor rs)))%nat; [done|].
  apply bindS_ok in H as (ca & s2 & w2 & [Hca ->]%worldS_ok & H). apply bindS_ok in H as (certs & s3 & w3 & [Hcerts%mwrap_ok ->]%worldS_ok & H).
  apply bindS_ok in H as ([] & s4 & w4 & Hic%reported_ok & (-> & -> & ->)%retS_ok).
  exists rs, s1, ca, w1, w2, certs, w3, s4, w4. split_and!; try done. by exists tc.
Qed.

Lemma check_ok a certs now2 s w s' w' : length certs = length nodes ->
  install_and_check Do retries nodes a certs now2 s w = ((Ok tt, s'), w') ->
  exists ti td tr bundles vs wv wv', rn_trace s' = rn_trace s ++ ti ++ td ++ tr /\
    Forall (of_kind PUT "/cert") ti /\ Forall (of_kind GET "/descriptor") td /\ Forall (of_kind PUT "/roster") tr /\
    (forall i n c, nodes !! i = Some n -> certs !! i = Some c ->
       exists b, (put_cert n (Cert_Marshal c), Answer StatusNoContent (Some b)) ∈ ti) /\
    Forall2 (fun n b => (get_desc n, Answer StatusOK (Some b)) ∈ td) nodes bundles /\
    VerifyChain (peer_policy a) (map nt_addr nodes) bundles now2 wv = (Ok vs, wv') /\
    (forall n, n ∈ nodes -> exists b, (put_roster n (roster nodes a), Answer StatusNoContent (Some b)) ∈ tr).
Proof.
  intros Hlen Hic. unfold install_and_check in Hic.
  apply bindS_ok in Hic as ([] & s5 & w5 & (ti & ki & Ti & Ni & _ & Ki & Gi & -> & _)%install_spec & Hic).
  apply bindS_ok in Hic as (bundles & s6 & w6 & (td & [Td Kd Nd] & _ & Hbs)%descriptors_spec & Hic). specialize (Hbs bundles eq_refl).
  apply bindS_ok in Hic as (vs & s7 & w7 & [Hvs ->]%worldS_ok & Hic).
  apply bindS_ok in Hic as ([] & s8 & w8 & [-> ->]%modS_ok & Hic).
  apply bindS_ok in Hic as ([] & s9 & w9 & (tr & kr & Tr & Nr & _ & Kr & Gr & -> & _)%rosters_spec & [-> ->]%modS_ok).
  destruct (enrolled_lines vs s6) as (Te & _ & _).
  assert (length (zip nodes certs) = length nodes) as Hzip by (rewrite length_zip_with; lia).
  exists ti, td, tr, bundles, vs, w6, w7. split_and!; try done.
  - cbn. by rewrite Tr, Te, Td, Ti, <- !app_assoc.
  - eapply Forall_impl; [exact Ki|]. by intros x (i & y & _ & _ & Hx); unfold of_kind; rewrite Hx.
  - eapply Forall_impl; [exact Kr|]. by intros x (i & y & _ & _ & Hx); unfold of_kind; rewrite Hx.
  - intros i n c Hn Hc. apply (Gi i (n, c)); [by apply lookup_zip_with_Some; exists n, c|].
    rewrite Hzip. by eapply lookup_lt_Some.
  - intros n [i Hi]%list_elem_of_lookup_1. apply (Gr i n Hi). by eapply lookup_lt_Some.
Qed.

(** C22. The anchor is printed only for a network that stands.  When a run returns an
    anchor, every relay answered a fresh nonce with a request that passes the
    check for the name and the address of its entry and carries the identity whose
    hash the operator gave, no two of one identity; to every relay went a
    certificate of the CA of that anchor for just this entry, and was accepted; the
    descriptors the relays then served passed [VerifyChain] under the anchor, as a
    client checks them; and every relay accepted the same roster, of that anchor
    and these entries.  All requests came before the first certificate, all
    certificates before the descriptors, and those before the first roster. *)
Theorem enroll_means certTTL now1 now2 s w a s' w' :
  - 2 ^ 63 <= Unix now1 -> Unix (now1 + certTTL) < 2 ^ 63 ->
  run Do retries nodes certTTL now1 now2 s w = ((Ok a, s'), w') ->
  exists tc ti td tr rs certs bundles vs wv wv',
    rn_trace s' = rn_trace s ++ tc ++ ti ++ td ++ tr /\
    Forall (of_kind POST "/csr") tc /\ Forall (of_kind PUT "/cert") ti /\
    Forall (of_kind GET "/descriptor") td /\ Forall (of_kind PUT "/roster") tr /\
    Forall2 (requested tc) nodes rs /\ NoDup (map rq_Identity rs) /\
    an_Suite a = Suite /\ Forall2 (certifies a now1 (now1 + certTTL)) nodes certs /\
    (forall i n c, nodes !! i = Some n -> certs !! i = Some c ->
       exists b, (put_cert n (Cert_Marshal c), Answer StatusNoContent (Some b)) ∈ ti) /\
    Forall2 (fun n b => (get_desc n, Answer StatusOK (Some b)) ∈ td) nodes bundles /\
    VerifyChain (peer_policy a) (map nt_addr nodes) bundles now2 wv = (Ok vs, wv') /\
    (forall n, n ∈ nodes -> exists b, (put_roster n (roster nodes a), Answer StatusNoContent (Some b)) ∈ tr).
Proof.
  intros Hnb Hna H. apply enroll_run_ok in H as (rs & s1 & ca & w1 & w2 & certs & w3 & s4 & w4 & Hreq & Hrep & Hca & Hcerts & -> & Hic & ->).
  destruct Hreq as (tc & [Tc Kc Nc] & _ & Hrs).
  pose proof (issue_all_ok _ _ _ _ _ _ _ _ _ _ _ Hca Hnb Hna Hrs Hcerts) as Hcf.
  pose proof (CA_pair _ _ _ Hca) as (Hsuite & _).
  assert (length certs = length nodes) as Hlen by (symmetry; by eapply Forall2_length).
  apply check_ok in Hic as (ti & td & tr & bundles & vs & wv & wv' & Ht & K1 & K2 & K3 & G1 & Hbs & Hvs & G2); [|done].
  exists tc, ti, td, tr, rs, certs, bundles, vs, wv, wv'. split_and!; try done. by rewrite Ht, Tc, <- app_assoc.
Qed.

(** What a report says of a loop that sends each entry a body of its own: [hold] are
    those of the first entries, who all took what they were sent; nothing was sent
    behind the next; and that one, if its last answer was not the wanted one, is in
    [may] exactly if the answer leaves it open. *)
Definition told (mk : rosterEntry -> bytes -> request) (doubt : callError -> bool) (bodies : list bytes)
    (t : list (request * outcome)) (hold may : list bytes) : Prop :=
  exists k, (k <= length nodes)%nat /\ hold = map nt_name (take k nodes) /\
    (forall i n raw, nodes !! i = Some n -> bodies !! i = Some raw -> (i < k)%nat ->
       exists b, (mk n raw, Answer StatusNoContent (Some b)) ∈ t) /\
    Forall (fun x => exists i n raw, (i <= k)%nat /\ nodes !! i = Some n /\ bodies !! i = Some raw /\ fst x = mk n raw) t /\
    (may = [] /\ (k = length nodes \/ t = []) \/
     exists n raw o e, nodes !! k = Some n /\ bodies !! k = Some raw /\ last t = Some (mk n raw, o) /\
       verdict StatusNoContent o = Err e /\ may = if doubt e then [nt_name n] else []).

Lemma told_nothing mk doubt bodies : told mk doubt bodies [] [] [].
Proof. exists 0%nat. split_and!; [lia | done | by intros i n raw _ _ ?%Nat.nlt_0_r | constructor |]. left. auto. Qed.

Lemma told_kind mk doubt bodies t hold may m path : (forall n raw, q_method (mk n raw) = m /\ q_path (mk n raw) = path) ->
  told mk doubt bodies t hold may -> Forall (of_kind m path) t.
Proof.
  intros Hmk (k & _ & _ & _ & K & _). eapply Forall_impl; [exact K|]. intros x (i & n & raw & _ & _ & _ & Hx). unfold of_kind. rewrite Hx. apply Hmk.
Qed.

Lemma told_certs certs t k r s s' y : length certs = length nodes -> noted s = (([], []), y) ->
  walked put_one StatusNoContent noted (add_name (fun x => nt_name (fst x)) true)
    (add_doubt (fun x => nt_name (fst x)) true in_doubt) (zip nodes certs) t k r s s' ->
  told put_cert in_doubt (map Cert_Marshal certs) t (rn_installed s') (rn_mayHold s') /\ snd (noted s') = y.
Proof.
  intros Hlen Hs (Ht & _ & Hk & Kt & Gt & Hr). rewrite length_zip_with, Hlen, Nat.min_id in Hk.
  assert (forall i n c, zip nodes certs !! i = Some (n, c) -> nodes !! i = Some n /\ map Cert_Marshal certs !! i = Some (Cert_Marshal c)) as Hzip.
  { intros i n c (x & z & Hxz & Hx & Hz)%lookup_zip_with_Some. injection Hxz as -> ->. split; [done|]. by rewrite list_lookup_fmap, Hz. }
  assert (forall j, map (fun x : rosterEntry * Cert => nt_name (fst x)) (take j (zip nodes certs)) = map nt_name (take j nodes)) as Hnames.
  { intros j. rewrite <- (map_map fst nt_name), <- !firstn_map. f_equal. f_equal. change (zip nodes certs).*1 with (map fst (zip nodes certs)) in *.
    apply fst_zip. lia. }
  assert ((forall i n raw, nodes !! i = Some n -> map Cert_Marshal certs !! i = Some raw -> (i < k)%nat ->
      exists b, (put_cert n raw, Answer StatusNoContent (Some b)) ∈ t) /\
    Forall (fun x => exists i n raw, (i <= k)%nat /\ nodes !! i = Some n /\ map Cert_Marshal certs !! i = Some raw /\ fst x = put_cert n raw) t) as [H1 H2].
  { split.
    - intros i n raw Hn Hraw Hi. rewrite list_lookup_fmap in Hraw. destruct (certs !! i) as [c|] eqn:Hc; [|done]. injection Hraw as <-.
      apply (Gt i (n, c)); [apply lookup_zip_with_Some; by exists n, c | done].
    - eapply Forall_impl; [exact Kt|]. intros x (i & [n c] & Hi & [Hz1 Hz2]%Hzip & Hx). by exists i, n, (Cert_Marshal c). }
  destruct r as [[]|e].
  - destruct Hr as [-> Hv]. rewrite fold_names, Hs, Hnames in Hv. cbn in Hv. injection Hv as Hi Hm Hy. split; [|exact Hy].
    exists (length nodes). rewrite length_zip_with, Hlen, Nat.min_id in *. split_and!; try done. left. auto.
  - destruct Hr as ([n c] & o & e' & Hz & Hl & Hve & Hv). rewrite fold_names, Hs, Hnames in Hv. cbn in Hv.
    assert (noted s' = ((map nt_name (take k nodes), if in_doubt e' then [nt_name n] else []), y)) as Hr
      by (rewrite Hv; destruct y; by destruct (in_doubt e')).
    clear Hv. unfold noted in Hr. injection Hr as Hi Hm Hy. split; [|exact Hy].
    exists k. split_and!; [done..|]. right. apply Hzip in Hz as [Hz1 Hz2]. by exists n, (Cert_Marshal c), o, e'.
Qed.

Lemma told_rosters raw t k r s s' x : noted s = (x, ([], [])) ->
  walked (fun n => put_roster n raw) StatusNoContent noted (add_name nt_name false) (add_doubt nt_name false ambiguous) nodes t k r s s' ->
  told put_roster ambiguous (map (fun _ => raw) nodes) t (rn_rostered s') (rn_mayRoster s') /\ fst (noted s') = x.
Proof.
  intros Hs (Ht & _ & Hk & Kt & Gt & Hr).
  assert (forall i n, nodes !! i = Some n -> map (fun _ => raw) nodes !! i = Some raw) as Hsame by (intros i n Hn; by rewrite list_lookup_fmap, Hn).
  assert ((forall i n raw', nodes !! i = Some n -> map (fun _ => raw) nodes !! i = Some raw' -> (i < k)%nat ->
      exists b, (put_roster n raw', Answer StatusNoContent (Some b)) ∈ t) /\
    Forall (fun x => exists i n raw', (i <= k)%nat /\ nodes !! i = Some n /\ map (fun _ => raw) nodes !! i = Some raw' /\ fst x = put_roster n raw') t)
    as [H1 H2].
  { split; [intros i n raw' Hn Hraw Hi; rewrite (Hsame i n Hn) in Hraw; injection Hraw as <-; by apply (Gt i n Hn)|].
    eapply Forall_impl; [exact Kt|]. intros y (i & n & Hi & Hn & Hy). exists i, n, raw. split_and!; try done. by eapply Hsame. }
  destruct r as [[]|e].
  - destruct Hr as [-> Hv]. rewrite fold_rosters, Hs in Hv. injection Hv as Hx Hro Hmr. split; [|exact Hx].
    exists (length nodes). split_and!; try done. left. auto.
  - destruct Hr as (n & o & e' & Hn & Hl & Hve & Hv). rewrite fold_rosters, Hs in Hv.
    assert (noted s' = (x, (map nt_name (take k nodes), if ambiguous e' then [nt_name n] else []))) as Hr
      by (rewrite Hv; destruct x; cbn; by destruct (ambiguous e')).
    clear Hv. unfold noted in Hr. injection Hr as Hx Hro Hmr. split; [|exact Hx].
    exists k. split_and!; [done..|]. right. exists n, raw, o, e'. split_and!; try done. by eapply Hsame.
Qed.

(** The lines of a report are there unless it has nothing to name. *)
Lemma discarded_lines hold may rhold rmay (s : @Run E) :
  let s' := reportDiscarded false rhold rmay (reportDiscarded true hold may s) in
  rn_trace s' = rn_trace s /\ (hold ++ may <> [] -> Discarded true hold may ∈ rn_log s') /\
  (rhold ++ rmay <> [] -> Discarded false rhold rmay ∈ rn_log s').
Proof.
  assert (forall l k : list bytes, l ++ k <> [] -> (length l + length k =? 0)%nat = false) as Hne.
  { intros l k H. apply Nat.eqb_neq. rewrite <- length_app. by destruct (l ++ k). }
  unfold reportDiscarded. cbn. split_and!.
  - by destruct (_ =? 0)%nat, (_ =? 0)%nat.
  - intros ->%Hne. destruct (_ =? 0)%nat; cbn; set_solver.
  - intros ->%Hne. cbn. set_solver.
Qed.

Lemma bindS_err {A B} (m : ST (@Run E) A) (f : A -> ST (@Run E) B) s w e s' w' : bindS m f s w = ((Err e, s'), w') ->
  m s w = ((Err e, s'), w') \/ exists a s1 w1, m s w = ((Ok a, s1), w1) /\ f a s1 w1 = ((Err e, s'), w').
Proof. unfold bindS. destruct (m s w) as [[[a|e'] s1] w1]; [intros H; right; by exists a, s1, w1|]. intros [= -> -> ->]. by left. Qed.

Lemma worldS_err {A} (m : M A) (s : @Run E) w e s' w' : worldS m s w = ((Err e, s'), w') -> s' = s.
Proof. unfold worldS. destruct (m w) as [r w1]. by intros [= _ -> _]. Qed.

Definition fresh_books (s : @Run E) : Prop := noted s = (([], []), ([], [])).

(** An entry that says it has a certificate already is named in a line. *)
Lemma install_already certs s w e s' w' : install_all Do retries nodes certs s w = ((Err e, s'), w') ->
  exists t q o e', rn_trace s' = rn_trace s ++ t /\ last t = Some (q, o) /\ verdict StatusNoContent o = Err e' /\
    (alreadyInstalled e' = true -> exists n, n ∈ nodes /\ nt_admin n = q_host q /\ AlreadyHolds (nt_name n) ∈ rn_log s').
Proof.
  rewrite install_all_walk. intros H.
  apply (walk_spec put_one StatusNoContent "installing the certificate" (fun x => add_installed (nt_name (fst x))) bad_cert) with
    (view := rn_log) (add := fun b _ => b)
    (stop := fun b x e => if alreadyInstalled e then b ++ [AlreadyHolds (nt_name (fst x))] else b) in H; try done.
  - destruct H as (t & k & Ht & _ & _ & _ & _ & ([n c] & o & e' & Hz & Hl & Hv & Hlog)).
    exists t, (put_one (n, c)), o, e'. split_and!; try done. intros Ha. exists n. rewrite Ha in Hlog. split_and!; [|done|rewrite Hlog; set_solver].
    apply lookup_zip_with_Some in Hz as (x & z & Hxz & Hx & _). injection Hxz as -> _. by eapply list_elem_of_lookup_2.
  - intros [n c] e0 s0. unfold bad_cert. destruct (alreadyInstalled e0), (ambiguous e0); done.
  - intros [n c] e0 s0. unfold bad_cert. destruct (alreadyInstalled e0), (ambiguous e0); done.
  - intros s1 s2 Hb. unfold books in Hb. congruence.
Qed.

(** The part of a failed run behind the issuing. *)
Lemma check_fails a certs now2 s w e s' w' : length certs = length nodes -> fresh_books s ->
  install_and_check Do retries nodes a certs now2 s w = ((Err e, s'), w') ->
  exists ti td tr, rn_trace s' = rn_trace s ++ ti ++ td ++ tr /\
    Forall (of_kind PUT "/cert") ti /\ Forall (of_kind GET "/descriptor") td /\ Forall (of_kind PUT "/roster") tr /\
    told put_cert in_doubt (map Cert_Marshal certs) ti (rn_installed s') (rn_mayHold s') /\
    told put_roster ambiguous (map (fun _ => roster nodes a) nodes) tr (rn_rostered s') (rn_mayRoster s') /\
    (rn_installed s' = map nt_name nodes \/ forall q o e', last ti = Some (q, o) -> verdict StatusNoContent o = Err e' -> alreadyInstalled e' = true ->
       exists n, n ∈ nodes /\ nt_admin n = q_host q /\ AlreadyHolds (nt_name n) ∈ rn_log s') /\
    (tr <> [] -> rn_installed s' = map nt_name nodes /\ exists bundles vs wv wv',
       Forall2 (fun n b => (get_desc n, Answer StatusOK (Some b)) ∈ td) nodes bundles /\
       VerifyChain (peer_policy a) (map nt_addr nodes) bundles now2 wv = (Ok vs, wv')).
Proof.
  intros Hlen Hs H. apply bindS_err in H as [H|([] & s1 & w1 & H1 & H)].
  { pose proof (install_already _ _ _ _ _ _ H) as (t & q0 & o0 & e0 & Ht0 & Hl0 & Hv0 & Hn0).
    apply install_spec in H as (ti & k & Hw). pose proof (proj1 Hw) as Ht. eapply told_certs in Hw as [Hc Hr]; [|done..].
    injection Hr as Hr1 Hr2. exists ti, [], []. rewrite !app_nil_r, Hr1, Hr2. split_and!; try done; [|apply told_nothing|].
    - by eapply (told_kind put_cert).
    - right. rewrite Ht in Ht0. apply app_inv_head in Ht0 as ->. intros q o e' Hl Hv Ha. rewrite Hl0 in Hl. injection Hl as -> ->.
      rewrite Hv0 in Hv. injection Hv as ->. by apply Hn0. }
  apply install_spec in H1 as (ti & k & Hw). pose proof (proj1 Hw) as Ti.
  assert (rn_installed s1 = map nt_name nodes) as Hall.
  { destruct Hw as (_ & _ & _ & _ & _ & -> & Hv). unfold fresh_books in Hs. rewrite fold_names, Hs in Hv. injection Hv as Hv _ _ _.
    rewrite Hv, take_ge by done. rewrite <- (map_map fst nt_name). f_equal. apply fst_zip. lia. }
  eapply told_certs in Hw as [Hc Hr1]; [|done..]. pose proof (told_kind put_cert _ _ _ _ _ _ _ (fun _ _ => conj eq_refl eq_refl) Hc) as Ki.
  apply bindS_err in H as [H|(bundles & s2 & w2 & H2 & H)].
  { apply descriptors_spec in H as (td & [Td Kd Nd] & Hb & _). unfold noted in Hb. injection Hb as B1 B2 B3 B4. injection Hr1 as Hr1 Hr2.
    exists ti, td, []. rewrite B1, B2, B3, B4, Hr1, Hr2, Td, Ti, app_nil_r, <- app_assoc. split_and!; try done; [apply told_nothing | left; congruence]. }
  apply descriptors_spec in H2 as (td & [Td Kd Nd] & Hb & Hbs). specialize (Hbs bundles eq_refl).
  unfold noted in Hb. injection Hb as B1 B2 B3 B4. injection Hr1 as Hr1 Hr2.
  apply bindS_err in H as [H%worldS_err|(vs & s3 & w3 & [Hv ->]%worldS_ok & H)].
  { subst s'. exists ti, td, []. rewrite B1, B2, B3, B4, Hr1, Hr2, Td, Ti, app_nil_r, <- app_assoc. split_and!; try done; [apply told_nothing | left; congruence]. }
  apply bindS_err in H as [H|([] & s4 & w4 & [-> ->]%modS_ok & H)]; [done|].
  destruct (enrolled_lines vs s2) as (Te & _ & Be). apply bindS_err in H as [H|(u & s5 & w5 & H5 & H)]; [|done].
  apply rosters_spec in H as (tr & k' & Hw). pose proof (proj1 Hw) as Tr. eapply told_rosters in Hw as [Hro Hr3].
  2: { rewrite Be. unfold noted. by rewrite B3, B4, Hr1, Hr2. }
  injection Hr3 as Hi Hm. exists ti, td, tr. rewrite Hi, Hm, B1, B2. split_and!; try done.
  - by rewrite Tr, Te, Td, Ti, <- !app_assoc.
  - by eapply (told_kind put_roster).
  - by left.
  - intros _. split; [done|]. by exists bundles, vs, w2, w3.
Qed.

Lemma noted_report b hold may (s : @Run E) : noted (reportDiscarded b hold may s) = noted s.
Proof. unfold reportDiscarded. by destruct (_ =? 0)%nat. Qed.

(** What the deferred function adds. *)
Definition report_all (s : @Run E) : @Run E :=
  reportDiscarded false (rn_rostered s) (rn_mayRoster s) (reportDiscarded true (rn_installed s) (rn_mayHold s) s).

(** A failed run fails before the first certificate goes out, or behind it. *)
Lemma run_fails certTTL now1 now2 s w e s' w' : run Do retries nodes certTTL now1 now2 s w = ((Err e, s'), w') ->
  (exists tc, phase POST "/csr" tc s s' /\ same_books s s') \/
  exists rs s1 ca w1 w2 certs w3 s4 w4,
    (exists tc, phase POST "/csr" tc s s1 /\ same_books s s1 /\ Forall2 (requested tc) nodes rs) /\ NoDup (map rq_Identity rs) /\
    (length (roster nodes (sizing_anchor rs)) <= MaxRoster)%nat /\
    NewCA w1 = (Ok ca, w2) /\ issue_all ca rs now1 (now1 + certTTL) w2 = (Ok certs, w3) /\
    install_and_check Do retries nodes (CA_Anchor ca) certs now2 s1 w3 = ((Err e, s4), w4) /\ s' = report_all s4.
Proof.
  unfold run. intros H. apply bindS_err in H as [H|(rs & s1 & w1 & H1 & H)].
  { apply requests_spec in H as (tc & Hp & Hb & _). left. by exists tc. }
  apply requests_spec in H1 as (tc & Hp & Hb & Hrs). specialize (Hrs rs eq_refl).
  assert (s' = s1 -> exists tc, phase POST "/csr" tc s s' /\ same_books s s') as Hearly by (intros ->; by exists tc).
  destruct (repeats [] rs) eqn:Hrep; [injection H as _ <- _; left; by apply Hearly|]. apply repeats_NoDup in Hrep as [Hrep _].
  destruct (Nat.ltb_spec MaxRoster (length (roster nodes (sizing_anchor rs)))) as [|Hsize]; [injection H as _ <- _; left; by apply Hearly|].
  apply bindS_err in H as [H%worldS_err|(ca & s2 & w2 & [Hca ->]%worldS_ok & H)]; [left; by apply Hearly|].
  apply bindS_err in H as [H%worldS_err|(certs & s3 & w3 & [Hcs%mwrap_ok ->]%worldS_ok & H)]; [left; by apply Hearly|].
  apply bindS_err in H as [(s4 & H & ->)%reported_err|(u & s4 & w4 & _ & H)]; [|done].
  right. exists rs, s1, ca, w1, w2, certs, w3, s4, w'. split_and!; try done. by exists tc.
Qed.

(** C23. A run that fails names the relays it leaves with something of a CA whose
    anchor nobody gets.  No certificate is sent before every relay has answered a
    fresh nonce with a request that passed, no two of one identity, and none is
    sent when the roster would be too large; no roster is sent before every relay
    has taken its certificate and what they all serve has passed [VerifyChain].
    Every entry is sent its own certificate, and the entries that took it are the first ones, and are named; no
    later one than the next was sent anything; and that one is named as one that
    may hold it exactly if it did not say that it already has one and its last
    answer leaves the matter open: no whole answer, or a status from 500 on.  So it
    is with the rosters.  A line of the log tells each, unless there is none to
    name. *)
Theorem enroll_reports certTTL now1 now2 s w e s' w' :
  - 2 ^ 63 <= Unix now1 -> Unix (now1 + certTTL) < 2 ^ 63 -> fresh_books s -> run Do retries nodes certTTL now1 now2 s w = ((Err e, s'), w') ->
  exists tc ti td tr a certs, rn_trace s' = rn_trace s ++ tc ++ ti ++ td ++ tr /\
    Forall (of_kind POST "/csr") tc /\ Forall (of_kind PUT "/cert") ti /\
    Forall (of_kind GET "/descriptor") td /\ Forall (of_kind PUT "/roster") tr /\
    (ti <> [] -> (exists rs, Forall2 (requested tc) nodes rs /\ NoDup (map rq_Identity rs) /\
       (length (roster nodes (sizing_anchor rs)) <= MaxRoster)%nat) /\
       Forall2 (certifies a now1 (now1 + certTTL)) nodes certs) /\
    (tr <> [] -> rn_installed s' = map nt_name nodes /\ exists bundles vs wv wv',
       Forall2 (fun n b => (get_desc n, Answer StatusOK (Some b)) ∈ td) nodes bundles /\
       VerifyChain (peer_policy a) (map nt_addr nodes) bundles now2 wv = (Ok vs, wv')) /\
    told put_cert in_doubt (map Cert_Marshal certs) ti (rn_installed s') (rn_mayHold s') /\
    told put_roster ambiguous (map (fun _ => roster nodes a) nodes) tr (rn_rostered s') (rn_mayRoster s') /\
    (rn_installed s' ++ rn_mayHold s' <> [] -> Discarded true (rn_installed s') (rn_mayHold s') ∈ rn_log s') /\
    (rn_rostered s' ++ rn_mayRoster s' <> [] -> Discarded false (rn_rostered s') (rn_mayRoster s') ∈ rn_log s').
Proof.
  intros Hnb Hna Hs H. pattern s'. match goal with |- ?G s' => set (Goal_ := G) end.
  assert (forall tc s1, phase POST "/csr" tc s s1 -> same_books s s1 -> Goal_ s1) as Hearly.
  { intros tc s1 [Tc Kc _] (B1 & B2 & B3 & B4). unfold fresh_books, noted in Hs. injection Hs as F1 F2 F3 F4.
    exists tc, [], [], [], (sizing_anchor []), []. rewrite B1, B2, B3, B4, F1, F2, F3, F4, !app_nil_r. split_and!; try done; apply told_nothing. }
  apply run_fails in H as [(tc & Hp & Hb)|(rs & s1 & ca & w1 & w2 & certs & w3 & s4 & w4 & (tc & Hp & Hb & Hrs) & Hrep & Hsize & Hca & Hcs & H & ->)];
    [by eapply Hearly|].
  assert (length certs = length nodes) as Hlen by (apply issue_all_length in Hcs; apply Forall2_length in Hrs; lia).
  apply check_fails in H as (ti & td & tr & Ht & K1 & K2 & K3 & T1 & T2 & _ & Hv); [|done|].
  2: { destruct Hb as (B1 & B2 & B3 & B4). unfold fresh_books, noted in *. congruence. }
  destruct (discarded_lines (rn_installed s4) (rn_mayHold s4) (rn_rostered s4) (rn_mayRoster s4) s4) as (Et & D1 & D2).
  assert (noted (report_all s4) = noted s4) as Hr by (unfold report_all; by rewrite !noted_report).
  unfold noted in Hr. injection Hr as R1 R2 R3 R4. destruct Hp as [Tc Kc Nc].
  exists tc, ti, td, tr, (CA_Anchor ca), certs. rewrite R1, R2, R3, R4. split_and!; try done.
  - unfold report_all. by rewrite Et, Ht, Tc, <- app_assoc.
  - intros _. split; [by exists rs | by eapply issue_all_ok].
Qed.

End Exchanges.

(** ** A network that delivers at once

    Every request reaches its relay; no time passes.  What comes back is the reply,
    or nothing for the requests the network drops the answer of. *)

Definition error_text (e : error) : bytes := match e with Other s => str s | _ => [] end.

Definition reply_out (r : reply) : outcome :=
  match r with
  | NoContent => Answer StatusNoContent (Some [])
  | Body b => Answer StatusOK (Some b)
  | HttpError code e => Answer code (Some (error_text e))
  end.

Definition lost : outcome := NoAnswer (Other "connection refused") true.

Section Direct.
Context {P : CryptoProvider}.
Context (worlds : nat -> World) (admin_of : bytes -> bytes) (drops : request -> bool).

Definition handler : Type := (nat -> Moment) -> option bytes -> node -> World -> (reply * node) * World.

(** How many requests there were, and the relay behind each admin endpoint. *)
Definition Net : Type := nat * (bytes -> option Process).

Definition routed (m : method) (path : string) : option handler :=
  match m with
  | POST => if String.eqb path "/csr" then Some (fun ts => Node.handleRequest (ts 0%nat)) else None
  | PUT => if String.eqb path "/cert" then Some Node.handleCert
           else if String.eqb path "/roster" then Some Node.handleRoster else None
  | GET => None
  end.

Definition back (q : request) (o : outcome) : outcome := if drops q then lost else o.

Definition direct (q : request) (e : Net) (w : World) : (outcome * Net) * World :=
  let '(k, rs) := e in
  let same o := ((o, (S k, rs)), w) in
  match q_method q with
  | GET => match rs (admin_of (q_host q)) with
           | Some p => same (back q (reply_out (Node.get_descriptor (pr_node p) (pr_now p))))
           | None => same lost
           end
  | m => match routed m (q_path q), rs (q_host q) with
         | Some hd, Some p =>
             let '((r, n), _) := hd (fun _ => pr_now p) (Some (q_body q)) (pr_node p) (worlds k) in
             let p := {| pr_now := pr_now p; pr_node := n; pr_served := in_service n ++ pr_served p |} in
             ((back q (reply_out r), (S k, fun h => if bool_decide (h = q_host q) then Some p else rs h)), w)
         | _, _ => same lost
         end
  end.

End Direct.

(** ** Witnesses *)

Module EnrollRuns.

Definition keeps_all (q : request) : bool := false.
Definition drops_roster (q : request) : bool := String.eqb (q_path q) "/roster".

Import ToySuite EnrollDemo NodeDemo.

Definition entry : rosterEntry := Eval vm_compute in
  {| nt_name := name; nt_addr := addr; nt_admin := str "localhost:9200"; nt_info := str "localhost:9100";
     nt_identity := match nd_id n0 with Some i => KeyHash (id_pub i) | None => [] end |}.

Definition p0 : Process := {| pr_now := at_ 0; pr_node := n0; pr_served := [] |}.
Definition net0 : Net := (0%nat, fun h => if bool_decide (h = nt_admin entry) then Some p0 else None).
Definition books0 : @Run Net :=
  {| rn_net := net0; rn_trace := []; rn_log := []; rn_installed := []; rn_mayHold := []; rn_rostered := []; rn_mayRoster := [] |}.

(** One relay, from a fresh start, over a network that drops what [drops] says. *)
Definition net_do drops := direct (fun k => wide (10 * k)) (fun _ => nt_admin entry) drops.
Definition operator : World := wide 40.
Abbreviation outcome_of drops := (run (net_do drops) 3 [entry] (30 * Hour) start start books0 operator).

Lemma all_ok : is_ok (fst (fst (outcome_of keeps_all))) = true.
Proof. made. Qed.
Lemma roster_lost : is_ok (fst (fst (outcome_of drops_roster))) = false.
Proof. made. Qed.

(** The report of the second names the relay twice. *)
Lemma lost_report :
  filter (fun l => match l with Discarded _ _ _ => true | _ => false end = true) (rn_log (snd (fst (outcome_of drops_roster)))) =
  [Discarded true [name] []; Discarded false [] [name]].
Proof. made. Qed.

Lemma books_fresh : fresh_books books0.
Proof. reflexivity. Qed.

Lemma times_fit : - 2 ^ 63 <= Unix start /\ Unix (start + 30 * Hour) < 2 ^ 63.
Proof. split; [apply Z.leb_le | apply Z.ltb_lt]; made. Qed.

End EnrollRuns.

Import ToySuite.

Lemma enroll_means_witness :
  exists a s w bundles vs wv wv', EnrollRuns.outcome_of EnrollRuns.keeps_all = ((Ok a, s), w) /\
    VerifyChain (peer_policy a) [EnrollDemo.addr] bundles EnrollDemo.start wv = (Ok vs, wv').
Proof.
  pose proof EnrollRuns.all_ok as Hok. destruct (EnrollRuns.outcome_of EnrollRuns.keeps_all) as [[[a|e] s] w] eqn:E; [|discriminate Hok].
  destruct (enroll_means _ 3 [EnrollRuns.entry] _ _ _ _ _ _ _ _ (proj1 EnrollRuns.times_fit) (proj2 EnrollRuns.times_fit) E)
    as (_ & _ & _ & _ & _ & _ & bundles & vs & wv & wv' & _ & _ & _ & _ & _ & _ & _ & _ & _ & _ & _ & Hv & _).
  exists a, s, w, bundles, vs, wv, wv'. split; [reflexivity | exact Hv].
Defined.

Lemma enroll_reports_witness :
  exists e s w, EnrollRuns.outcome_of EnrollRuns.drops_roster = ((Err e, s), w) /\
    (rn_installed s ++ rn_mayHold s <> [] -> Discarded true (rn_installed s) (rn_mayHold s) ∈ rn_log s).
Proof.
  pose proof EnrollRuns.roster_lost as Hno. destruct (EnrollRuns.outcome_of EnrollRuns.drops_roster) as [[[a|e] s] w] eqn:E; [discriminate Hno|].
  destruct (enroll_reports _ 3 [EnrollRuns.entry] _ _ _ _ _ _ _ _ (proj1 EnrollRuns.times_fit) (proj2 EnrollRuns.times_fit) EnrollRuns.books_fresh E)
    as (tc & ti & td & tr & a & certs & _ & _ & _ & _ & _ & _ & _ & _ & _ & Hd & _).
  exists e, s, w. split; [reflexivity | exact Hd].
Defined.
