(* ===== verification/Network.v ===== *)
(** * Network: an enrollment and the relays it reaches

    Composes the operator's side ([Enroll]) with the processes at the other end
    ([Lifetime], [Service]).  The network between them is an interface: a request
    to the admin listener of a relay reaches the handler of its process, or is
    lost, and an answer that arrives is the handler's; nothing else puts a
    certificate or a roster there, since the listener is on the loopback of the
    relay's host.  A network that delivers at once is an instance. *)

From Stdlib Require Import Strings.Byte Strings.String.
From stdpp Require Import relations.
From S2P Require Import Prelude Effects Locks State Crypto Toy Text Json Addr Fields Cert Replay Setup Pki Identity Roster Fetch Ring Peers Node Lifetime Service Enroll.

(** ** What the handlers do with a body *)

Section Handlers.
Context `{CL : CryptoLaws}.

Lemma readBody_ok body raw : readBody body = Ok raw -> body = Some raw.
Proof. unfold readBody. destruct body as [b|]; [|done]. destruct (_ <? _)%nat; [done|]. by intros [= ->]. Qed.

Lemma readBody_err body r : readBody body = Err r -> exists code e, r = HttpError code e /\ 400 <= code.
Proof.
  unfold readBody. destruct body as [b|]; [destruct (_ <? _)%nat; [|done]|]; intros [= <-]; eexists _, _; (split; [reflexivity | by apply (bool_decide_unpack _)]).
Qed.

(** A body that reads as a certificate, or as a roster. *)
Definition cert_body (b : bytes) : Prop := readBody (Some b) = Ok b /\ exists c, ParseCert b = Ok c.
Definition roster_body (b : bytes) : Prop := readBody (Some b) = Ok b /\ exists ro, ParseRoster b = Ok ro.

Section Once.
Context (h : handler) (held : node -> option bytes) (takes : bytes -> Prop) (again : Z -> error -> Prop).

(** What a reply to a body says of the place the body goes to: success, that the
    body is there; any other reply, that nothing came there, or that the reply is
    one from 500 on; and what is there already is refused with [again] only. *)
Definition reply_means (b : bytes) (n : node) (r : reply) (n' : node) : Prop :=
  (r = NoContent /\ takes b /\ held n' = Some b) \/
  exists code e, r = HttpError code e /\ 400 <= code /\
    (held n' = held n \/ 500 <= code /\ takes b /\ held n' = Some b) /\
    (held n = Some b -> takes b -> again code e).

(** A handler that puts something in its place once. *)
Definition puts_once : Prop := forall ts b n w r n' w', h ts (Some b) n w = ((r, n'), w') -> reply_means b n r n'.

Lemma refuses b n n' code e : held n' = held n -> 400 <= code -> (held n = Some b -> takes b -> again code e) ->
  reply_means b n (HttpError code e) n'.
Proof. intros H1 H2 H3. right. exists code, e. auto. Qed.

End Once.

(** A refusal with a status of the source. *)
Ltac refuses := apply refuses; [try reflexivity | by apply (bool_decide_unpack _) | try by intros ->].

Lemma handleCert_puts : puts_once Node.handleCert nd_installed cert_body (fun code e => code = StatusConflict /\ e = errInstalled).
Proof.
  intros ts b n w r n' w' H. unfold Node.handleCert in H. destruct (readBody (Some b)) as [raw|rr] eqn:Eb.
  2: { injection H as <- <- _. destruct (readBody_err _ _ Eb) as (code & e & -> & Hc). apply refuses; try done. intros _ [Hr _]. congruence. }
  assert (raw = b) as -> by (apply readBody_ok in Eb; congruence).
  destruct (ParseCert b) as [cert|e] eqn:Ep.
  2: { injection H as <- <- _. refuses. intros _ [_ [c Hc]]. congruence. }
  assert (cert_body b) as Hb by (split; [done | by exists cert]).
  destruct (nd_installed n) as [i|] eqn:Ei.
  { destruct (bool_decide_reflect (b = i)) as [<-|]; [|injection H as <- <- _; by refuses].
    cbn [andb] in H. destruct (bool_decide _); injection H as <- <- _; [by left | by refuses]. }
  destruct (Node.cert_refused (ts 0%nat) cert n) as [e|]; [injection H as <- <- _; refuses; by rewrite Ei|].
  destruct (nd_id n) as [i|]; [|injection H as <- <- _; refuses; by rewrite Ei].
  destruct (Install b (wall (ts 0%nat)) i) as [[[]|e] i']; [|injection H as <- <- _; refuses; by rewrite Ei].
  match type of H with context [Node.sign _ _ ?m _] => set (n1 := m) in * end.
  destruct (Node.sign (Node.shift 2 ts) (ts 0%nat) n1 w) as [[rr n2] w2] eqn:Es.
  apply sign_frame, frame_keeps in Es as [Hi _]. change (nd_installed n1) with (Some b) in Hi.
  destruct rr as [[]|e]; injection H as <- <- _; [by left|]. right. exists StatusInternalServerError, e.
  split_and!; [done | by apply (bool_decide_unpack _) | right; split_and!; [by apply (bool_decide_unpack _) | done | done] | by rewrite Ei].
Qed.

Lemma handleRoster_puts : puts_once Node.handleRoster nd_roster roster_body (fun _ _ => False).
Proof.
  intros ts b n w r n' w' H. unfold Node.handleRoster in H. destruct (readBody (Some b)) as [raw|rr] eqn:Eb.
  2: { injection H as <- <- _. destruct (readBody_err _ _ Eb) as (code & e & -> & Hc). apply refuses; try done. intros _ [Hr _]. congruence. }
  assert (raw = b) as -> by (apply readBody_ok in Eb; congruence).
  destruct (ParseRoster b) as [ro|e] eqn:Ep.
  2: { injection H as <- <- _. refuses. intros _ [_ [c Hc]]. congruence. }
  assert (roster_body b) as Hb by (split; [done | by exists ro]).
  destruct (nd_roster n) as [r0|] eqn:Er.
  { case_bool_decide as Hr; injection H as <- <- _; [left; by subst|]. refuses. congruence. }
  destruct (bool_decide (nd_installed n = None)); [injection H as <- <- _; refuses; by rewrite Er|].
  destruct (_ <? _); [injection H as <- <- _; refuses; by rewrite Er|].
  destruct (Node.descriptor n (ts 1%nat)) as [bd|]; [|injection H as <- <- _; refuses; by rewrite Er].
  destruct (negb _); [injection H as <- <- _; refuses; by rewrite Er|].
  destruct (Verify _ _ bd _ w) as [[v|e] w1]; injection H as <- <- _; [by left | refuses; by rewrite Er].
Qed.

End Handlers.

(** ** The network *)

Section Network.
Context `{CL : CryptoLaws} {E : Type}.

(** Steps of a process that take no certificate and no roster. *)
Definition quiet (p p' : Process) : Prop :=
  rtc process_step p p' /\ nd_installed (pr_node p') = nd_installed (pr_node p) /\ nd_roster (pr_node p') = nd_roster (pr_node p).

(** A body reaches a handler of the process, among quiet steps. *)
Definition visit (hd : handler) (body : bytes) (p : Process) (r : reply) (p' : Process) : Prop :=
  exists p1 ts t' w n w', quiet p p1 /\ reads (pr_now p1) ts t' /\ sizes_sound w /\
    hd ts (Some body) (pr_node p1) w = ((r, n), w') /\
    quiet {| pr_now := t'; pr_node := n; pr_served := in_service n ++ pr_served p1 |} p'.

(** No whole answer came. *)
Definition unanswered (o : outcome) : Prop := match o with Answer _ (Some _) => False | _ => True end.

(** What comes back of a reply: nothing whole, or the reply.  [http.Error] sends the
    text of the error, and that of [errInstalled] says so. *)
Definition shows (r : reply) (o : outcome) : Prop :=
  match o with
  | Answer code (Some b) =>
      match r with
      | NoContent => code = StatusNoContent /\ b = []
      | Body b' => code = StatusOK /\ b = b'
      | HttpError c e => code = c /\ (e = errInstalled -> contains (str "already installed") (TrimSpace b) = true)
      end
  | _ => True
  end.

Inductive admin_route : string -> handler -> Prop :=
| route_cert : admin_route "/cert" Node.handleCert
| route_roster : admin_route "/roster" Node.handleRoster.

(** The relays behind the admin endpoints, and what one exchange does to each. *)
Class Relays (Do : request -> E -> World -> (outcome * E) * World) : Type := {
  relay : E -> bytes -> option Process;
  relay_exchange q e w o e' w' h p : Do q e w = ((o, e'), w') -> relay e h = Some p ->
    exists p', relay e' h = Some p' /\
      (quiet p p' /\ (forall hd, q_host q = h -> q_method q = PUT -> admin_route (q_path q) hd -> unanswered o) \/
       exists hd r, q_host q = h /\ q_method q = PUT /\ admin_route (q_path q) hd /\ visit hd (q_body q) p r p' /\ shows r o)
}.

Context (Do : request -> E -> World -> (outcome * E) * World).

(** The exchanges of a trace, one after the other. *)
Inductive via : list (request * outcome) -> E -> E -> Prop :=
| via_nil e : via [] e e
| via_cons q o t e e1 e2 w w' : Do q e w = ((o, e1), w') -> via t e1 e2 -> via ((q, o) :: t) e e2.

Lemma via_app t1 t2 e e' : via (t1 ++ t2) e e' <-> exists e1, via t1 e e1 /\ via t2 e1 e'.
Proof.
  split.
  - revert e. induction t1 as [|[q o] t1 IH]; intros e; cbn; [intros H; exists e; split; [constructor | done]|].
    inversion 1 as [|? ? ? ? e1 ? w w' Hd Hv]; subst. destruct (IH _ Hv) as (e2 & H1 & H2). exists e2. split; [by econstructor | done].
  - intros (e1 & H1 & H2). induction H1; [done|]. cbn. econstructor; eauto.
Qed.

(** *** A run is its trace *)

(** A computation moves the network by the exchanges it records. *)
Definition goes {A} (m : ST (@Run E) A) : Prop := forall s w r s' w', m s w = ((r, s'), w') ->
  exists t, rn_trace s' = rn_trace s ++ t /\ via t (rn_net s) (rn_net s').

Lemma goes_still {A} (m : ST (@Run E) A) : (forall s w r s' w', m s w = ((r, s'), w') -> rn_trace s' = rn_trace s /\ rn_net s' = rn_net s) -> goes m.
Proof. intros H s w r s' w' [Ht Hn]%H. exists []. rewrite Ht, Hn, app_nil_r. split; [done | constructor]. Qed.

Lemma goes_ret {A} (a : A) : goes (retS a).
Proof. apply goes_still. by intros s w r s' w' [= _ <- _]. Qed.
Lemma goes_fail {A} e : goes (failS (A := A) e).
Proof. apply goes_still. by intros s w r s' w' [= _ <- _]. Qed.
Lemma goes_res {A} (r : res A) : goes (resS r).
Proof. apply goes_still. by intros s w r' s' w' [= _ <- _]. Qed.
Lemma goes_world {A} (m : M A) : goes (worldS m).
Proof. apply goes_still. intros s w r s' w'. unfold worldS. destruct (m w). by intros [= _ <- _]. Qed.
Lemma goes_mod f : (forall s : @Run E, rn_trace (f s) = rn_trace s /\ rn_net (f s) = rn_net s) -> goes (modS f).
Proof. intros H. apply goes_still. intros s w r s' w' [= _ <- _]. apply H. Qed.

Lemma goes_bind {A B} (m : ST (@Run E) A) (f : A -> ST (@Run E) B) : goes m -> (forall a, goes (f a)) -> goes (bindS m f).
Proof.
  intros Hm Hf s w r s' w'. unfold bindS. destruct (m s w) as [[[a|e] s1] w1] eqn:Em; apply Hm in Em as (t1 & T1 & V1).
  - intros (t2 & T2 & V2)%Hf. exists (t1 ++ t2). rewrite T2, T1, app_assoc. split; [done|]. apply via_app. eauto.
  - intros [= _ <- _]. by exists t1.
Qed.

Lemma goes_call retries q want : goes (call Do retries q want).
Proof.
  induction retries as [|k IH]; intros s w r s' w'; cbn; destruct (Do q (rn_net s) w) as [[o e] w1] eqn:Hd.
  - intros H. exists [(q, o)]. assert (s' = sent q o e s) as -> by (destruct o as [|? []|]; congruence).
    split; [done|]. econstructor; [exact Hd | constructor].
  - assert (via [(q, o)] (rn_net s) (rn_net (sent q o e s))) as Hv by (econstructor; [exact Hd | constructor]).
    intros H. assert (s' = sent q o e s \/ call Do k q want (sent q o e s) w1 = ((r, s'), w')) as [->|H1]
      by (destruct o as [|? []|]; first [by right | left; congruence]); [by exists [(q, o)]|].
    apply IH in H1 as (t & Ht & Hv'). exists ((q, o) :: t). rewrite Ht. cbn. rewrite <- app_assoc. split; [done|].
    apply (via_app [(q, o)]). eauto.
Qed.

Create HintDb goes.
Hint Resolve goes_ret goes_fail goes_res goes_world goes_call : goes.
Ltac going := repeat first [apply goes_bind; [|intros ?] | solve [eauto with goes] | apply goes_mod; intros ?; by repeat case_match].

Context (retries : nat) (nodes : list rosterEntry).

Lemma goes_requests ns : goes (requests Do retries ns).
Proof.
  induction ns as [|n ns IH]; cbn; [apply goes_ret|]. going. destruct a0 as [raw|e]; going.
Qed.

Lemma goes_install ns certs : goes (install_all Do retries ns certs).
Proof.
  revert certs. induction ns as [|n ns IH]; intros certs; cbn; [apply goes_ret|]. destruct certs as [|c certs]; [apply goes_ret|].
  going. destruct a as [b|e]; going.
Qed.

Lemma goes_descriptors ns : goes (descriptors Do retries ns).
Proof. induction ns as [|n ns IH]; cbn; [apply goes_ret|]. going. destruct a as [b|e]; going. Qed.

Lemma goes_rosters raw ns : goes (roster_all Do retries raw ns).
Proof. induction ns as [|n ns IH]; cbn; [apply goes_ret|]. going. destruct a as [b|e]; going. Qed.

Lemma goes_reported {A} (m : ST (@Run E) A) : goes m -> goes (reported m).
Proof.
  intros Hm s w r s' w'. unfold reported. destruct (m s w) as [[[a|e] s1] w1] eqn:Em; apply Hm in Em as (t & Ht & Hv); intros [= _ <- _]; exists t; [done|].
  unfold reportDiscarded. by destruct (_ =? 0)%nat, (_ =? 0)%nat.
Qed.

Lemma goes_run certTTL now1 now2 : goes (run Do retries nodes certTTL now1 now2).
Proof.
  unfold run. apply goes_bind; [apply goes_requests|]. intros rs. destruct (repeats [] rs); [apply goes_fail|].
  destruct (_ <? _)%nat; [apply goes_fail|]. going. apply goes_reported. unfold install_and_check.
  apply goes_bind; [apply goes_install | intros _]. apply goes_bind; [apply goes_descriptors | intros bs].
  apply goes_bind; [apply goes_world | intros vs]. apply goes_bind; [|intros _; apply goes_bind; [apply goes_rosters | intros _]].
  - apply goes_mod. intros s. by destruct (enrolled_lines vs s) as (? & ? & _).
  - by apply goes_mod.
Qed.

(** *** What an exchange does to one relay *)

Context `{R : !Relays Do}.

Lemma handler_step path hd ts t' body n r n' w w' t h : admin_route path hd -> reads t ts t' -> sizes_sound w ->
  hd ts body n w = ((r, n'), w') ->
  process_step {| pr_now := t; pr_node := n; pr_served := h |} {| pr_now := t'; pr_node := n'; pr_served := in_service n' ++ h |}.
Proof. intros Hr Ht Hw H. apply process_steps. destruct Hr; [by eapply st_cert | by eapply st_roster]. Qed.

Lemma visit_steps path hd body p r p' : admin_route path hd -> visit hd body p r p' -> rtc process_step p p'.
Proof.
  intros Hr (p1 & ts & t' & w & n & w' & (H1 & _) & Ht & Hw & Hh & (H2 & _)).
  etrans; [exact H1|]. eapply rtc_l; [|exact H2]. destruct p1. by eapply handler_step.
Qed.

Lemma relay_steps q e w o e' w' h p : Do q e w = ((o, e'), w') -> relay e h = Some p ->
  exists p', relay e' h = Some p' /\ rtc process_step p p'.
Proof.
  intros Hd Hp. destruct (relay_exchange _ _ _ _ _ _ _ _ Hd Hp) as (p' & Hp' & H). exists p'. split; [done|].
  destruct H as [[[H _] _]|(hd & r & _ & _ & Hr & Hv & _)]; [done | by eapply visit_steps].
Qed.

Lemma relay_via t e e' h p : via t e e' -> relay e h = Some p -> exists p', relay e' h = Some p' /\ rtc process_step p p'.
Proof.
  intros H. revert p. induction H as [|q o t e e1 e2 w w' Hd _ IH]; intros p Hp; [by exists p|].
  destruct (relay_steps _ _ _ _ _ _ _ _ Hd Hp) as (p1 & Hp1 & H1). destruct (IH _ Hp1) as (p2 & Hp2 & H2). exists p2. split; [done | by etrans].
Qed.

(** *** One thing put once *)

Section Put.
Context (path : string) (hd : handler) (held : node -> option bytes) (takes : bytes -> Prop) (again : Z -> error -> Prop).
Context (puts : puts_once hd held takes again) (route : admin_route path hd).
Context (quiet_held : forall p p', quiet p p' -> held (pr_node p') = held (pr_node p)).
Context (other_held : forall path' hd' ts b n w r n' w', admin_route path' hd' -> path' <> path ->
  hd' ts b n w = ((r, n'), w') -> held n' = held n).
Context (kept : forall p p' raw, rtc process_step p p' -> held (pr_node p) = Some raw -> held (pr_node p') = Some raw).
Context (h : bytes).

(** The requests that put it at the relay. *)
Definition mine (q : request) : Prop := q_host q = h /\ q_method q = PUT /\ q_path q = path.

Lemma route_fun path' hd1 hd2 : admin_route path' hd1 -> admin_route path' hd2 -> hd1 = hd2.
Proof. intros H1 H2. inversion H1; subst; inversion H2; congruence. Qed.

Lemma visit_means b p r p' : visit hd b p r p' -> reply_means held takes again b (pr_node p) r (pr_node p').
Proof.
  intros (p1 & ts & t' & w & n & w' & Q1%quiet_held & _ & _ & Hh & Q2%quiet_held). apply puts in Hh.
  cbn [pr_node] in *. unfold reply_means in *. by rewrite Q2, <- Q1.
Qed.

Lemma exchange_held q e w o e' w' p : Do q e w = ((o, e'), w') -> relay e h = Some p ->
  exists p', relay e' h = Some p' /\
    (held (pr_node p') = held (pr_node p) /\ (mine q -> unanswered o) \/
     mine q /\ exists r, reply_means held takes again (q_body q) (pr_node p) r (pr_node p') /\ shows r o).
Proof.
  intros Hd Hp. destruct (relay_exchange _ _ _ _ _ _ _ _ Hd Hp) as (p' & Hp' & H). exists p'. split; [done|].
  destruct H as [[Hq Hu]|(hd' & r & Hh & Hm & Hr & Hv & Hs)].
  { left. split; [by apply quiet_held|]. intros (? & ? & Hpath). eapply Hu; try done. by rewrite Hpath. }
  destruct (decide (q_path q = path)) as [Hpath|Hne].
  - right. split; [done|]. rewrite Hpath in Hr. rewrite <- (route_fun _ _ _ route Hr) in Hv. exists r. split; [by apply visit_means | done].
  - left. split; [|by intros (_ & _ & ?)]. destruct Hv as (p1 & ts & t' & w1 & n & w1' & Q1%quiet_held & _ & _ & Hh' & Q2%quiet_held).
    apply (other_held _ _ _ _ _ _ _ _ _ Hr Hne) in Hh'. cbn [pr_node] in *. congruence.
Qed.

(** Before anything is put, and behind it. *)
Definition may_hold (b : bytes) (t : list (request * outcome)) (p : Process) : Prop :=
  held (pr_node p) = None \/ held (pr_node p) = Some b /\ takes b /\ exists q o, (q, o) ∈ t /\ mine q.

Lemma exchange_may b t q e w o e' w' p : Do q e w = ((o, e'), w') -> relay e h = Some p -> (mine q -> q_body q = b) ->
  may_hold b t p -> exists p', relay e' h = Some p' /\ may_hold b (t ++ [(q, o)]) p'.
Proof.
  intros Hd Hp Hb Hm. destruct (exchange_held _ _ _ _ _ _ _ Hd Hp) as (p' & Hp' & H). exists p'. split; [done|].
  assert (may_hold b (t ++ [(q, o)]) p) as Hm' by (destruct Hm as [|(? & ? & q0 & o0 & Hin & ?)]; [by left | right; split_and!; try done; exists q0, o0; set_solver]).
  assert (mine q -> takes b -> held (pr_node p') = Some b -> may_hold b (t ++ [(q, o)]) p') as Hnew
    by (intros; right; split_and!; try done; exists q, o; set_solver).
  destruct H as [[He _]|[Hq (r & [(_ & Ht & He)|(code & er & _ & _ & [He|(_ & Ht & He)] & _)] & _)]].
  - unfold may_hold in *. by rewrite He.
  - rewrite (Hb Hq) in *. auto.
  - unfold may_hold in *. by rewrite He.
  - rewrite (Hb Hq) in *. auto.
Qed.

Lemma via_may b t0 t e e' p : via t e e' -> relay e h = Some p -> (forall q o, (q, o) ∈ t -> mine q -> q_body q = b) ->
  may_hold b t0 p -> exists p', relay e' h = Some p' /\ may_hold b (t0 ++ t) p'.
Proof.
  intros H. revert t0 p. induction H as [|q o t e e1 e2 w w' Hd _ IH]; intros t0 p Hp Hb Hm; [exists p; by rewrite app_nil_r|].
  destruct (exchange_may b t0 _ _ _ _ _ _ _ Hd Hp) as (p1 & Hp1 & Hm1); [intros; eapply Hb; [by left | done] | done|].
  destruct (IH (t0 ++ [(q, o)]) p1 Hp1) as (p2 & Hp2 & Hm2); [intros q' o' Hin; apply (Hb q' o'); by right | done|].
  exists p2. split; [done|]. by rewrite <- app_assoc in Hm2.
Qed.

(** What the relay took it keeps. *)
Lemma via_taken t e e' p q out : via t e e' -> relay e h = Some p -> (q, Answer StatusNoContent (Some out)) ∈ t -> mine q ->
  exists p', relay e' h = Some p' /\ rtc process_step p p' /\ held (pr_node p') = Some (q_body q).
Proof.
  intros H. revert p. induction H as [|q1 o1 t e e1 e2 w w' Hd Hv IH]; intros p Hp Hin Hq; [by apply elem_of_nil in Hin|].
  destruct (relay_steps _ _ _ _ _ _ _ _ Hd Hp) as (p1 & Hp1 & H1).
  apply elem_of_cons in Hin as [[= <- <-]|Hin].
  - destruct (exchange_held _ _ _ _ _ _ _ Hd Hp) as (p1' & Hp1' & H). rewrite Hp1 in Hp1'. injection Hp1' as <-.
    destruct (relay_via _ _ _ _ _ Hv Hp1) as (p2 & Hp2 & H2). exists p2. split_and!; [done | by etrans |].
    eapply kept; [exact H2|]. destruct H as [[_ Hu]|[_ (r & [(_ & _ & He)|(code & er & -> & Hc & _)] & Hs)]]; [by destruct (Hu Hq) | done |].
    destruct Hs as [<- _]. unfold StatusNoContent in Hc. lia.
  - destruct (IH _ Hp1 Hin Hq) as (p2 & Hp2 & H2 & He). exists p2. split_and!; [done | by etrans | done].
Qed.

(** A last answer that leaves nothing open: the relay holds nothing, or says it did. *)
Lemma via_refused b t q o e e' p er : via (t ++ [(q, o)]) e e' -> relay e h = Some p -> held (pr_node p) = None ->
  (forall q o, (q, o) ∈ t -> mine q -> q_body q = b) -> mine q -> q_body q = b ->
  verdict StatusNoContent o = Err er -> ambiguous er = false ->
  exists p', relay e' h = Some p' /\ (held (pr_node p') = None \/ exists code err, again code err /\ shows (HttpError code err) o).
Proof.
  intros (e1 & H1 & H2)%via_app Hp Hn Hb Hq Hqb Hv Ha. inversion H2 as [|? ? ? ? e2 ? w w' Hd H3]; subst. inversion H3; subst.
  destruct (via_may (q_body q) [] _ _ _ _ H1 Hp) as (p1 & Hp1 & Hm); [done | by left|].
  destruct (exchange_held _ _ _ _ _ _ _ Hd Hp1) as (p' & Hp' & H). exists p'. split; [done|].
  assert (exists code out, o = Answer code (Some out) /\ code < 500 /\ code <> StatusNoContent) as (code & out & -> & Hlt & Hne).
  { unfold verdict in Hv. destruct o as [er'|er' l|code [out|]]; try by injection Hv as <-.
    destruct (_ <? _)%nat; [by injection Hv as <-|]. destruct (Z.eqb_spec code StatusNoContent) as [|Hne]; [done|].
    injection Hv as <-. exists code, out. split_and!; try done. by apply Z.leb_gt in Ha. }
  destruct H as [[_ Hu]|[_ (r & [(-> & _ & _)|(code' & err & -> & Hc & Hd' & Hag)] & Hs)]]; [by destruct (Hu Hq) | by destruct Hs |].
  destruct (proj1 Hs) as []. destruct Hd' as [He|[Hge _]]; [|lia].
  destruct Hm as [Hm|(Hm & Ht & _)]; [left; congruence | right; eauto].
Qed.

(** Other requests leave it as it is. *)
Lemma via_others t e e' p : via t e e' -> relay e h = Some p -> (forall q o, (q, o) ∈ t -> ~ mine q) ->
  exists p', relay e' h = Some p' /\ held (pr_node p') = held (pr_node p).
Proof.
  intros H. revert p. induction H as [|q o t e e1 e2 w w' Hd _ IH]; intros p Hp Hno; [by exists p|].
  destruct (exchange_held _ _ _ _ _ _ _ Hd Hp) as (p1 & Hp1 & H1).
  destruct (IH _ Hp1) as (p2 & Hp2 & H2); [intros q' o' Hin; apply (Hno q' o'); by right|].
  exists p2. split; [done|]. destruct H1 as [[He _]|[Hq _]]; [congruence|]. exfalso. eapply Hno; [by left | done].
Qed.

(** A relay that something is left at is named by the report of the loop that put it. *)
Context (mk : rosterEntry -> bytes -> request).
Context (mk_put : forall n raw, q_host (mk n raw) = nt_admin n /\ q_method (mk n raw) = PUT /\ q_path (mk n raw) = path /\ q_body (mk n raw) = raw).

Lemma left_named doubt bodies t0 t t1 hold may e e' p n : told nodes mk doubt bodies t hold may ->
  via (t0 ++ t ++ t1) e e' -> NoDup (map nt_admin nodes) -> (forall q o, (q, o) ∈ t0 ++ t1 -> ~ mine q) ->
  n ∈ nodes -> h = nt_admin n -> relay e h = Some p -> held (pr_node p) = None ->
  exists p', relay e' h = Some p' /\ (held (pr_node p') = None \/ nt_name n ∈ hold ++ may \/
    exists q o er, last t = Some (q, o) /\ q_host q = h /\ verdict StatusNoContent o = Err er /\ doubt er = false /\
      (ambiguous er = true \/ exists code err, again code err /\ shows (HttpError code err) o)).
Proof.
  intros (k & Hk & -> & _ & Hall & Hend) Hv Hnd Hno [i Hi]%list_elem_of_lookup_1 Hh Hp Hn.
  apply via_app in Hv as (e1 & V1 & (e2 & V2 & V3)%via_app).
  destruct (via_others _ _ _ _ V1 Hp) as (p1 & Hp1 & E1); [intros q o Hin; apply (Hno q o); set_solver|]. rewrite Hn in E1.
  assert (forall q o, (q, o) ∈ t -> mine q -> (i <= k)%nat /\ bodies !! i = Some (q_body q)) as Hmine.
  { intros q o Hin (Hq & _). destruct (proj1 (Forall_forall _ _) Hall _ Hin) as (j & m & raw & Hj & Hm & Hraw & Hx). cbn in Hx. subst q.
    destruct (mk_put m raw) as (M1 & _ & _ & ->). assert (j = i) as ->; [|done].
    eapply NoDup_lookup; [exact Hnd | by rewrite list_lookup_fmap, Hm | rewrite list_lookup_fmap, Hi; cbn; congruence]. }
  assert (forall p2, relay e2 h = Some p2 -> held (pr_node p2) = None \/ nt_name n ∈ map nt_name (take k nodes) ++ may \/
      (exists q o er, last t = Some (q, o) /\ q_host q = h /\ verdict StatusNoContent o = Err er /\ doubt er = false /\
        (ambiguous er = true \/ exists code err, again code err /\ shows (HttpError code err) o)) -> exists p', relay e' h = Some p' /\
      (held (pr_node p') = None \/ nt_name n ∈ map nt_name (take k nodes) ++ may \/
       exists q o er, last t = Some (q, o) /\ q_host q = h /\ verdict StatusNoContent o = Err er /\ doubt er = false /\
        (ambiguous er = true \/ exists code err, again code err /\ shows (HttpError code err) o))) as Hrest.
  { intros p2 Hp2 H2. destruct (via_others _ _ _ _ V3 Hp2) as (p3 & Hp3 & E3); [intros q o Hin; apply (Hno q o); set_solver|].
    exists p3. by rewrite E3. }
  destruct (via_may (default [] (bodies !! i)) [] _ _ _ _ V2 Hp1) as (p2 & Hp2 & Hm); [|by left|].
  { intros q o Hin Hq. destruct (Hmine q o Hin Hq) as [_ ->]. done. }
  apply (Hrest p2 Hp2). destruct Hm as [Hm|(_ & _ & q0 & o0 & Hin0 & Hq0)]; [by left|]. destruct (Hmine _ _ Hin0 Hq0) as [Hik Hb].
  destruct (decide (i = k)) as [->|Hne].
  2: { right. left. apply elem_of_app. left. apply list_elem_of_fmap. exists n. split; [done|].
       apply list_elem_of_lookup. exists i. rewrite lookup_take_lt by lia. done. }
  destruct Hend as [[_ [-> | ->]]|(m & raw & o & er & Hm & Hraw & Hl & Hve & ->)].
  - apply lookup_lt_Some in Hi. lia.
  - by apply elem_of_nil in Hin0.
  - rewrite Hi in Hm. injection Hm as <-. destruct (mk_put n raw) as (M1 & M2 & M3 & M4).
    destruct (doubt er) eqn:Hd; [right; left; apply elem_of_app; right; by left|].
    assert (forall x y, x \/ y -> x \/ nt_name n ∈ map nt_name (take k nodes) ++ [] \/ y) as Hskip by tauto. apply Hskip.
    destruct (ambiguous er) eqn:Ha; [right; exists (mk n raw), o, er; split_and!; try done; [congruence | by left]|].
    apply last_Some in Hl as (t' & ->). rewrite Hraw in *. cbn [default] in *.
    destruct (via_refused raw t' (mk n raw) o e1 e2 p1 er V2 Hp1 E1) as (p3 & Hp3 & H3); try done.
    { intros q' o' Hin' Hq'. destruct (Hmine q' o') as [_ H]; [set_solver | done |]. congruence. }
    { split_and!; congruence. }
    rewrite Hp2 in Hp3. injection Hp3 as <-. destruct H3 as [H3|H3]; [by left|]. right. exists (mk n raw), o, er.
    rewrite last_snoc. split_and!; try done; [congruence | by right].
Qed.

End Put.

(** *** Certificates and rosters *)

Lemma handleCert_roster ts body n w r n' w' : Node.handleCert ts body n w = ((r, n'), w') -> nd_roster n' = nd_roster n.
Proof.
  intros H. destruct (nd_installed n) as [raw|] eqn:Ei.
  - by apply (handleCert_once _ _ _ _ _ _ _ _ H) in Ei as [-> _].
  - by apply handleCert_takes in H as [? _].
Qed.

Lemma quiet_installed p p' : quiet p p' -> nd_installed (pr_node p') = nd_installed (pr_node p).
Proof. by intros (_ & ? & _). Qed.
Lemma quiet_roster p p' : quiet p p' -> nd_roster (pr_node p') = nd_roster (pr_node p).
Proof. by intros (_ & _ & ?). Qed.

Lemma cert_alone path hd ts b n w r n' w' : admin_route path hd -> path <> "/cert"%string -> hd ts b n w = ((r, n'), w') -> nd_installed n' = nd_installed n.
Proof. intros [] Hne H; [done|]. by apply handleRoster_takes in H as [? _]. Qed.
Lemma roster_alone path hd ts b n w r n' w' : admin_route path hd -> path <> "/roster"%string -> hd ts b n w = ((r, n'), w') -> nd_roster n' = nd_roster n.
Proof. intros [] Hne H; [|done]. by apply handleCert_roster in H. Qed.

Lemma installed_kept p p' raw : rtc process_step p p' -> nd_installed (pr_node p) = Some raw -> nd_installed (pr_node p') = Some raw.
Proof. intros H. apply (process_steps_keep _ _ H). Qed.
Lemma roster_kept p p' raw : rtc process_step p p' -> nd_roster (pr_node p) = Some raw -> nd_roster (pr_node p') = Some raw.
Proof. intros H. apply (process_steps_keep _ _ H). Qed.

Definition cert_taken := via_taken "/cert" Node.handleCert nd_installed cert_body (fun code e => code = StatusConflict /\ e = errInstalled)
  handleCert_puts route_cert quiet_installed cert_alone installed_kept.
Definition roster_taken := via_taken "/roster" Node.handleRoster nd_roster roster_body (fun _ _ => False)
  handleRoster_puts route_roster quiet_roster roster_alone roster_kept.

Lemma reachable_steps cfg p p' : reachable cfg p -> rtc process_step p p' -> reachable cfg p'.
Proof. intros (p0 & H1 & H2 & H3) H. exists p0. split; [done|]. split; [by etrans | done]. Qed.

(** What a process installed is a certificate for it. *)
Lemma installed_own cfg p c : reachable cfg p -> nd_installed (pr_node p) = Some (Cert_Marshal c) -> cert_wf c = true ->
  ct_Name c = nd_name (pr_node p) /\ ct_Addr c = nd_addr (pr_node p).
Proof.
  intros Hr%reachable_inv Hi Hw. destruct (ni_id _ _ _ Hr) as (i & _ & Hinv & En & Ea & Henr). unfold enrolled in Henr. rewrite Hi in Henr.
  destruct Henr as (c' & Hc & Hraw & _). destruct (ii_cert i Hinv c' Hc) as [Hw' _ _ _ Hn Ha].
  assert (c = c') as ->; [|split; congruence]. pose proof (proj2 (ParseCert_spec _ c) (conj Hw eq_refl)) as H1.
  rewrite (proj2 (ParseCert_spec _ c') (conj Hw' Hraw)) in H1. congruence.
Qed.

Lemma CA_Anchor_wf w ca w' : NewCA w = (Ok ca, w') -> anchor_wf (CA_Anchor ca) = true.
Proof.
  intros (Hs & _ & k & _ & Hp)%CA_pair. apply signing_pub_size in Hp. unfold anchor_wf, CA_Anchor. apply andb_true_iff. split.
  - rewrite Hs. apply suite_known.
  - cbn [an_Pub]. unfold sized. apply andb_true_iff. split; apply Nat.leb_le; unfold maxKey; lia.
Qed.

(** C24. An enrollment that prints its anchor leaves a network that lasts.  Behind any
    network that delivers or loses what it is given, and whatever else the relays
    do meanwhile and afterwards: when a run returns an anchor, the process behind
    the admin endpoint of each entry holds, from then on, a certificate of that
    anchor for just this entry and the roster of these entries; whatever its info
    port answers with later is that certificate and an unexpired descriptor, and
    passes [Verify] under the anchor, for the address of the entry, at that very
    moment; and the link keys it extends circuits with are those of other entries
    of this enrollment, each on the word of the anchor. *)
Theorem enrolled_network certTTL now1 now2 s w a s' w' n cfg p :
  - 2 ^ 63 <= Unix now1 -> Unix (now1 + certTTL) < 2 ^ 63 -> Forall Enroll.entry_ok nodes ->
  run Do retries nodes certTTL now1 now2 s w = ((Ok a, s'), w') ->
  n ∈ nodes -> relay (rn_net s) (nt_admin n) = Some p -> reachable cfg p ->
  exists p' c, relay (rn_net s') (nt_admin n) = Some p' /\ rtc process_step p p' /\ certifies a now1 (now1 + certTTL) n c /\
    forall p'', rtc process_step p' p'' ->
      nd_installed (pr_node p'') = Some (Cert_Marshal c) /\ nd_roster (pr_node p'') = Some (roster nodes a) /\
      (forall t b, later (pr_now p'') t -> Node.get_descriptor (pr_node p'') t = Body b ->
         exists d, b = Bundle_Marshal (bundle_of c d) /\ Unix (wall t) < de_Expires d <= ct_NotAfter c /\
           forall wv, sizes_cached wv -> Verify (peer_policy a) (nt_addr n) b (wall t) wv = (Ok (verified c d), wv)) /\
      (forall addr t k, Node.peerKey (pr_node p'') addr t = Some k ->
         exists m e, m ∈ nodes /\ nt_addr m = addr /\ addr <> nt_addr n /\ authentic a addr e /\ k = pe_linkPub e /\
           Unix (wall t) < pe_expires e).
Proof.
  intros Hnb Hna Hok Hrun Hn Hp Hreach. destruct (goes_run certTTL now1 now2 _ _ _ _ _ Hrun) as (t & Ht & Hv).
  apply enroll_run_ok in Hrun as (rs & s1 & ca & w1 & w2 & certs & w3 & s4 & w4 & (tc & [Tc _ _] & _ & Hrs) & _ & Hca & Hcerts & -> & Hic & ->).
  pose proof (issue_all_ok _ _ _ _ _ _ _ _ _ _ _ Hca Hnb Hna Hrs Hcerts) as Hcf.
  apply check_ok in Hic as (ti & td & tr & bundles & vs & wv & wv' & Ht4 & _ & _ & _ & G1 & _ & _ & G2); [|by symmetry; eapply Forall2_length].
  rewrite Ht4, Tc, <- app_assoc in Ht. apply app_inv_head in Ht as <-.
  apply list_elem_of_lookup_1 in Hn as Hi. destruct Hi as [i Hi]. destruct (Forall2_lookup_l _ _ _ _ _ Hcf Hi) as (c & Hc & Hcert).
  destruct (G1 i n c Hi Hc) as [b1 Hin1]. destruct (G2 n Hn) as [b2 Hin2].
  destruct (cert_taken _ _ _ _ _ _ _ Hv Hp ltac:(rewrite !elem_of_app; right; left; exact Hin1) ltac:(done)) as (p' & Hp' & Hsteps & Hinst).
  destruct (roster_taken _ _ _ _ _ _ _ Hv Hp ltac:(rewrite !elem_of_app; right; right; right; exact Hin2) ltac:(done)) as (p2 & Hp2 & _ & Hros).
  rewrite Hp' in Hp2. injection Hp2 as <-. cbn [put_cert put_roster q_body] in *.
  exists p', c. split_and!; try done. intros p'' Hlater. pose proof (installed_kept _ _ _ Hlater Hinst) as Hi2.
  pose proof (roster_kept _ _ _ Hlater Hros) as Hr2.
  assert (reachable cfg p'') as Hreach2 by (eapply reachable_steps; [exact Hreach | by etrans]).
  destruct (installed_own _ _ _ Hreach2 Hi2 (cf_wf _ _ _ _ _ Hcert)) as [Hname Haddr]. rewrite (cf_addr _ _ _ _ _ Hcert) in Haddr.
  split_and!; try done.
  - intros t b Hlt Hb. destruct (served_own _ _ _ _ Hreach2 Hlt Hb) as (j & c' & d & _ & Hj & -> & Hod & _ & _ & Hx & Hwf & Hwd & Hs & Hk & Hbn & Hnb' & Hpub).
    rewrite Hi2 in Hj. assert (c = c') as <-.
    { pose proof (proj2 (ParseCert_spec _ c) (conj (cf_wf _ _ _ _ _ Hcert) eq_refl)) as H1.
      rewrite (proj2 (ParseCert_spec _ c')) in H1 by (split; [done | congruence]). congruence. }
    exists d. split; [done|]. split; [exact Hx|]. intros wv1 Hwv. rewrite <- (cf_addr _ _ _ _ _ Hcert).
    apply CA_pair in Hca as (Hsuite & _). eapply own_passes; try done; apply Hcert.
  - intros addr t k Hk. destruct (key_of_roster _ _ _ _ _ Hreach2 Hk) as (raw & ro & rn & e & Hraw & Hro & Hrn & Hra & Hne & Hauth & Hke & Hexp).
    rewrite Hr2 in Hraw. injection Hraw as <-. apply ParseRoster_Marshal in Hro as ->; cbn [ro_Anchor ro_Nodes] in *.
    + apply list_elem_of_fmap in Hrn as (m & -> & Hm). exists m, e. rewrite Haddr. by split_and!.
    + by eapply CA_Anchor_wf.
    + destruct nodes; [by apply elem_of_nil in Hn | done].
    + apply forallb_forall. intros x (m & <- & Hm)%in_map_iff. apply list_elem_of_In in Hm.
      destruct (proj1 (Forall_forall _ _) Hok m Hm) as (H1 & H2 & _). unfold node_wf. cbn. by rewrite H1, H2.
Qed.

Definition cert_named := left_named "/cert" Node.handleCert nd_installed cert_body (fun code e => code = StatusConflict /\ e = errInstalled)
  handleCert_puts route_cert quiet_installed cert_alone installed_kept.
Definition cert_others := via_others "/cert" Node.handleCert nd_installed cert_body (fun code e => code = StatusConflict /\ e = errInstalled)
  handleCert_puts route_cert quiet_installed cert_alone.
Definition roster_named := left_named "/roster" Node.handleRoster nd_roster roster_body (fun _ _ => False)
  handleRoster_puts route_roster quiet_roster roster_alone roster_kept.
Definition roster_others := via_others "/roster" Node.handleRoster nd_roster roster_body (fun _ _ => False)
  handleRoster_puts route_roster quiet_roster roster_alone.

Lemma same_entry m n : NoDup (map nt_admin nodes) -> m ∈ nodes -> n ∈ nodes -> nt_admin m = nt_admin n -> m = n.
Proof.
  intros Hnd [i Hi]%list_elem_of_lookup_1 [j Hj]%list_elem_of_lookup_1 He.
  assert (i = j) as ->; [|congruence]. eapply NoDup_lookup; [exact Hnd | by rewrite list_lookup_fmap, Hi | rewrite list_lookup_fmap, Hj; cbn; congruence].
Qed.

Lemma not_mine path path' h m t : Forall (of_kind m path') t -> path' <> path -> forall q o, (q, o) ∈ t -> ~ mine path h q.
Proof. intros H Hne q o Hin (_ & _ & Hq). destruct (proj1 (Forall_forall _ _) H _ Hin) as [_ K]. cbn in K. congruence. Qed.

(** The answer of a relay that has a certificate already is told from the others. *)
Lemma already_shown o er : verdict StatusNoContent o = Err er -> shows (HttpError StatusConflict errInstalled) o -> ambiguous er = false ->
  alreadyInstalled er = true.
Proof.
  unfold verdict, shows. destruct o as [e|e l|code [out|]]; try by intros [= <-].
  destruct (_ <? _)%nat; [by intros [= <-]|]. destruct (negb (code =? StatusNoContent)); [|done]. intros [= <-] [-> Hc] _.
  cbn. by apply Hc.
Qed.

(** A run that fails does not leave a relay behind in silence.  Behind any network
    that delivers or loses what it is given, and when no relay of the roster had a
    certificate or a roster before: if the run fails, then each relay that has a
    certificate in the end is named in the log, as one that holds or may hold a
    certificate of the discarded CA, or as one that already has one; and each relay
    that has a roster in the end is named as one that holds or may hold it. *)
Theorem discarded_named certTTL now1 now2 s w e s' w' n p :
  NoDup (map nt_admin nodes) -> fresh_books s -> run Do retries nodes certTTL now1 now2 s w = ((Err e, s'), w') ->
  n ∈ nodes -> relay (rn_net s) (nt_admin n) = Some p -> nd_installed (pr_node p) = None -> nd_roster (pr_node p) = None ->
  exists p', relay (rn_net s') (nt_admin n) = Some p' /\ rtc process_step p p' /\
    (nd_installed (pr_node p') <> None -> AlreadyHolds (nt_name n) ∈ rn_log s' \/
       exists hold may, Discarded true hold may ∈ rn_log s' /\ nt_name n ∈ hold ++ may) /\
    (nd_roster (pr_node p') <> None -> exists hold may, Discarded false hold may ∈ rn_log s' /\ nt_name n ∈ hold ++ may).
Proof.
  intros Hnd Hs Hrun Hn Hp Hi Hr. destruct (goes_run certTTL now1 now2 _ _ _ _ _ Hrun) as (t & Ht & Hv).
  destruct (relay_via _ _ _ _ _ Hv Hp) as (p' & Hp' & Hsteps). exists p'. split; [done|]. split; [done|].
  apply run_fails in Hrun as [(tc & [Tc Kc _] & _)|(rs & s1 & ca & w1 & w2 & certs & w3 & s4 & w4 & (tc & [Tc Kc _] & Hb & Hrs) & _ & _ & _ & Hcs & H & ->)].
  { rewrite Tc in Ht. apply app_inv_head in Ht as <-.
    destruct (cert_others _ _ _ _ _ Hv Hp) as (p1 & Hp1 & E1); [by eapply not_mine|].
    destruct (roster_others _ _ _ _ _ Hv Hp) as (p2 & Hp2 & E2); [by eapply not_mine|].
    rewrite Hp' in Hp1, Hp2. injection Hp1 as <-. injection Hp2 as <-. rewrite E1, E2. done. }
  assert (length certs = length nodes) as Hlen by (apply issue_all_length in Hcs; apply Forall2_length in Hrs; lia).
  apply check_fails in H as (ti & td & tr & Ht4 & K1 & K2 & K3 & T1 & T2 & Hal & _); [|done|].
  2: { destruct Hb as (B1 & B2 & B3 & B4). unfold fresh_books, noted in *. congruence. }
  destruct (discarded_lines (rn_installed s4) (rn_mayHold s4) (rn_rostered s4) (rn_mayRoster s4) s4) as (Et & D1 & D2).
  fold (report_all s4) in Et, D1, D2. rewrite Et, Ht4, Tc, <- app_assoc in Ht. apply app_inv_head in Ht as <-.
  assert (incl_log : forall l, l ∈ rn_log s4 -> l ∈ rn_log (report_all s4)).
  { intros l Hl. unfold report_all, reportDiscarded. destruct (_ =? 0)%nat, (_ =? 0)%nat; cbn; set_solver. }
  split.
  - edestruct (cert_named (nt_admin n) put_cert) as (p1 & Hp1 & H1); [done | exact T1 | exact Hv | exact Hnd | | exact Hn | reflexivity | exact Hp | exact Hi |].
    { intros q o [Hin|[Hin|Hin]%elem_of_app]%elem_of_app; [eapply (not_mine _ _ _ _ _ Kc)|eapply (not_mine _ _ _ _ _ K2)|eapply (not_mine _ _ _ _ _ K3)]; done. }
    rewrite Hp' in Hp1. injection Hp1 as <-. intros Hne. destruct H1 as [?|[Hin|(q & o & er & Hl & Hq & Hve & Hd & Hag)]]; [done | |].
    + right. eexists _, _. split; [apply D1|exact Hin]. intros E0. rewrite E0 in Hin. by apply elem_of_nil in Hin.
    + destruct Hal as [Hall|Hal].
      * right. exists (rn_installed s4), (rn_mayHold s4). assert (nt_name n ∈ rn_installed s4 ++ rn_mayHold s4) as Hin.
        { apply elem_of_app. left. rewrite Hall. apply list_elem_of_fmap. by exists n. }
        split; [apply D1; intros E0; rewrite E0 in Hin; by apply elem_of_nil in Hin | done].
      * left. assert (alreadyInstalled er = true) as Hae.
        { unfold in_doubt in Hd. destruct (alreadyInstalled er) eqn:Ea; [done|]. cbn in Hd. destruct Hag as [?|(code & err & [-> ->] & Hsh)]; [congruence|].
          rewrite <- Ea. by eapply already_shown. }
        destruct (Hal _ _ _ Hl Hve Hae) as (m & Hm & Hma & Hlog). rewrite (same_entry m n Hnd Hm Hn) in Hlog by congruence. auto.
  - replace (tc ++ ti ++ td ++ tr) with ((tc ++ ti ++ td) ++ tr ++ []) in Hv by (by rewrite app_nil_r, <- !app_assoc).
    edestruct (roster_named (nt_admin n) put_roster) as (p1 & Hp1 & H1); [done | exact T2 | exact Hv | exact Hnd | | exact Hn | reflexivity | exact Hp | exact Hr |].
    { intros q o. rewrite app_nil_r, !elem_of_app. intros [Hin|[Hin|Hin]]; [eapply (not_mine _ _ _ _ _ Kc)|eapply (not_mine _ _ _ _ _ K1)|eapply (not_mine _ _ _ _ _ K2)]; done. }
    rewrite Hp' in Hp1. injection Hp1 as <-. intros Hne. destruct H1 as [?|[Hin|(q & o & er & Hl & Hq & Hve & Hd & Hag)]]; [done | |].
    + eexists _, _. split; [apply D2|exact Hin]. intros E0. rewrite E0 in Hin. by apply elem_of_nil in Hin.
    + destruct Hag as [?|(code & err & [] & _)]. congruence.
Qed.

End Network.

(** ** The network that delivers at once *)

Section Direct.
Context `{CL : CryptoLaws}.
Context (worlds : nat -> World) (worlds_sound : forall k, sizes_sound (worlds k)) (admin_of : bytes -> bytes) (drops : request -> bool).
Abbreviation direct := (direct worlds admin_of drops).

Lemma shows_out q r : shows r (back drops q (reply_out r)).
Proof. unfold back. destruct (drops q); [done|]. destruct r as [|b|code e]; cbn; [done | done |]. split; [done|]. intros ->. reflexivity. Qed.

Lemma quiet_refl p : quiet p p.
Proof. by split_and!. Qed.

Lemma reads_same t : reads t (fun _ => t) t.
Proof. unfold reads, later. split; intros; lia. Qed.

Lemma visit_now hd body p r n w' k : hd (fun _ => pr_now p) (Some body) (pr_node p) (worlds k) = ((r, n), w') ->
  visit hd body p r {| pr_now := pr_now p; pr_node := n; pr_served := in_service n ++ pr_served p |}.
Proof.
  intros H. exists p, (fun _ => pr_now p), (pr_now p), (worlds k), n, w'.
  split_and!; done.
Qed.

Lemma request_quiet p body r n w k : Node.handleRequest (pr_now p) body (pr_node p) (worlds k) = ((r, n), w) ->
  quiet p {| pr_now := pr_now p; pr_node := n; pr_served := in_service n ++ pr_served p |}.
Proof.
  intros H. split; [|by apply handleRequest_keeps in H as [? ?]].
  destruct p as [t m h]. apply rtc_once, process_steps. by eapply st_request.
Qed.

Lemma direct_exchange q e w o e' w' h p : direct q e w = ((o, e'), w') -> snd e h = Some p ->
  exists p', snd e' h = Some p' /\
    (quiet p p' /\ (forall hd, q_host q = h -> q_method q = PUT -> admin_route (q_path q) hd -> unanswered o) \/
     exists hd r, q_host q = h /\ q_method q = PUT /\ admin_route (q_path q) hd /\ visit hd (q_body q) p r p' /\ shows r o).
Proof.
  destruct e as [k rs]. unfold direct. cbn [snd]. intros H Hp.
  assert (forall o', ((o', (S k, rs)), w) = ((o, e'), w') -> (q_method q <> PUT \/ unanswered o') -> exists p', snd e' h = Some p' /\
    (quiet p p' /\ (forall hd, q_host q = h -> q_method q = PUT -> admin_route (q_path q) hd -> unanswered o) \/
     exists hd r, q_host q = h /\ q_method q = PUT /\ admin_route (q_path q) hd /\ visit hd (q_body q) p r p' /\ shows r o)) as Hsame.
  { intros o' [= <- <- _] Ho. exists p. split; [done|]. left. split; [apply quiet_refl|]. intros hd _ ?. by destruct Ho as [?|?]. }
  destruct (q_method q) eqn:Em.
  - destruct (routed POST (q_path q)) as [hd|] eqn:Er; [|eapply Hsame; [exact H | by right]].
    destruct (rs (q_host q)) as [p0|] eqn:Ep0; [|eapply Hsame; [exact H | by right]]. cbn in Er. destruct (String.eqb _ _); [|done]. injection Er as <-.
    destruct (Node.handleRequest _ _ _ _) as [[r n] w1] eqn:Eh. injection H as <- <- <-. cbn [snd].
    destruct (bool_decide_reflect (h = q_host q)) as [->|]; [|exists p; split; [done|]; left; by split; [apply quiet_refl|]].
    rewrite Ep0 in Hp. injection Hp as ->. eexists. split; [reflexivity|]. left. by split; [eapply request_quiet|].
  - destruct (routed PUT (q_path q)) as [hd|] eqn:Er; [|eapply Hsame; [exact H | by right]].
    destruct (rs (q_host q)) as [p0|] eqn:Ep0; [|eapply Hsame; [exact H | by right]].
    assert (admin_route (q_path q) hd) as Hroute.
    { cbn in Er. destruct (String.eqb_spec (q_path q) "/cert") as [->|]; [injection Er as <-; constructor|].
      destruct (String.eqb_spec (q_path q) "/roster") as [->|]; [injection Er as <-; constructor | done]. }
    destruct (hd _ _ _ _) as [[r n] w1] eqn:Eh. injection H as <- <- <-. cbn [snd].
    destruct (bool_decide_reflect (h = q_host q)) as [->|Hne]; [|exists p; split; [done|]; left; split; [apply quiet_refl | by intros ? <-]].
    rewrite Ep0 in Hp. injection Hp as ->. eexists. split; [reflexivity|]. right. exists hd, r. split_and!; try done.
    + by eapply visit_now.
    + apply shows_out.
  - destruct (rs (admin_of (q_host q))); eapply Hsame; try exact H; by left.
Qed.

#[export] Instance direct_relays : Relays direct := {| relay e h := snd e h; relay_exchange := direct_exchange |}.

End Direct.

(** ** Witnesses *)

Module NetworkRuns.
Import ToySuite EnrollDemo NodeDemo EnrollRuns.

Lemma netrun_sound k : sizes_sound (wide (10 * k)).
Proof. apply wide_sound. Qed.

#[export] Instance demo_relays drops : Relays (net_do drops) := direct_relays (fun k => wide (10 * k)) netrun_sound _ drops.

Lemma entry_fit : Forall Enroll.entry_ok [entry].
Proof. constructor; [|constructor]. unfold Enroll.entry_ok. split_and!; made. Qed.

Lemma entry_there drops : relay (Relays := demo_relays drops) (rn_net books0) (nt_admin entry) = Some p0.
Proof. made. Qed.

Lemma begun : reachable cfg p0.
Proof. exists p0. split; [exact begins|]. split; [apply rtc_refl | split; [reflexivity | made]]. Qed.

(** The relay took the roster whose answer was lost. *)
Lemma left_behind : match snd (rn_net (snd (fst (outcome_of drops_roster)))) (nt_admin entry) with
  | Some p => bool_decide (nd_roster (pr_node p) = None)
  | None => true
  end = false.
Proof. made. Qed.

Lemma one_endpoint : NoDup (map nt_admin [entry]).
Proof. apply NoDup_singleton. Qed.

End NetworkRuns.

Import ToySuite.

Lemma enrolled_network_witness :
  exists a s w p c, EnrollRuns.outcome_of EnrollRuns.keeps_all = ((Ok a, s), w) /\
    certifies a EnrollDemo.start (EnrollDemo.start + 30 * Hour) EnrollRuns.entry c /\
    nd_installed (pr_node p) = Some (Cert_Marshal c) /\ nd_roster (pr_node p) = Some (roster [EnrollRuns.entry] a).
Proof.
  pose proof EnrollRuns.all_ok as Hok. destruct (EnrollRuns.outcome_of EnrollRuns.keeps_all) as [[[a|e] s] w] eqn:E; [|discriminate Hok].
  destruct (enrolled_network _ 3 [EnrollRuns.entry] (R := NetworkRuns.demo_relays _) _ _ _ _ _ _ _ _ EnrollRuns.entry NodeDemo.cfg EnrollRuns.p0
    (proj1 EnrollRuns.times_fit) (proj2 EnrollRuns.times_fit) NetworkRuns.entry_fit E (list_elem_of_here _ _)
    (NetworkRuns.entry_there _) NetworkRuns.begun) as (p & c & _ & _ & Hc & Hlast).
  destruct (Hlast p (rtc_refl _ _)) as (Hi & Hr & _). exists a, s, w, p, c. split; [reflexivity | split; [exact Hc | split; [exact Hi | exact Hr]]].
Defined.

Lemma discarded_named_witness :
  exists e s w p, EnrollRuns.outcome_of EnrollRuns.drops_roster = ((Err e, s), w) /\
    (nd_roster (pr_node p) <> None -> exists hold may, Discarded false hold may ∈ rn_log s /\ EnrollDemo.name ∈ hold ++ may).
Proof.
  pose proof EnrollRuns.roster_lost as Hno. destruct (EnrollRuns.outcome_of EnrollRuns.drops_roster) as [[[a|e] s] w] eqn:E; [discriminate Hno|].
  destruct (discarded_named _ 3 [EnrollRuns.entry] (R := NetworkRuns.demo_relays _) _ _ _ _ _ _ _ _ EnrollRuns.entry EnrollRuns.p0
    NetworkRuns.one_endpoint EnrollRuns.books_fresh E (list_elem_of_here _ _) (NetworkRuns.entry_there _) eq_refl eq_refl)
    as (p & _ & _ & _ & Hr).
  exists e, s, w, p. split; [reflexivity | exact Hr].
Defined.
