(* ===== verification/Command.v ===== *)
(** * Command: how the client command takes its chain

    Models [src/cmd/client/main.go]: the checks on the flags before any request, the
    selection of the chain from the mirror of the drawn entry, how a failure is
    reported, and the loop of round trips.  The random source is the bytes it will
    give, the network a function from a URL to the answers its requests get, and
    what the command logs are values.  Whether an error of the transport is a timeout
    is for the standard library to say and an argument here.  Left out: the flag
    package, the HTTP client, the texts of the lines and the pauses. *)

From Stdlib Require Import Strings.Byte Strings.String.
From S2P Require Import Prelude Effects Locks State Crypto Toy Text Json Addr Fields Secmem Cert Setup Pki Identity Roster Fetch Link Choose Client.

(** ** The flags *)

Definition splitList (s : bytes) : list bytes := filter (fun p => p <> []) (map TrimSpace (Split "," s)).

Fixpoint check_listed (seen : gset bytes) (addrs : list bytes) : res unit :=
  match addrs with
  | [] => Ok tt
  | a :: addrs =>
      if negb (ValidAddr a) then Err (Other "-nodes: want host:port in printable ASCII")
      else if bool_decide (a ∈ seen) then Err (Other "-nodes: listed twice")
      else check_listed ({[a]} ∪ seen) addrs
  end.

(** What came of a request to the entry. *)
Inductive failure : Type :=
| NoBundle
| FetchFailed (e : fetchError)
| PlainFailed (e : error).

(** An [entryError], one that names the node it is about, and any other. *)
Inductive chainError : Type :=
| EntryFailed (f : failure)
| NodeFailed (addr : bytes) (f : failure)
| TooFew (absent listed allowed : Z)
| ChainFailed (e : error).

(** The lines of [chain]. *)
Inductive logline : Type :=
| NodeLine (name fingerprint : bytes) (certUntil : Z) (descUntil : option Z)
| VerifiedLine (verified listed : nat).

Record selection : Type := {
  sl_addrs : list bytes;
  sl_hops : Z;
  sl_fixed : bool;
  sl_missing : Z;
  sl_infoPort : bytes;
  sl_auth : bool;
  sl_trust : Policy;
  sl_attempts : nat
}.

(** What the random source still gives, what was logged and whom the client asked. *)
Record Shell : Type := { sh_rnd : bytes; sh_log : list logline; sh_asked : list bytes }.

Section Command.
Context {P : CryptoProvider}.

Definition checkNodes (addrs : list bytes) (hops : Z) (infoPort : bytes) : M unit :=
  if (length addrs =? 0)%nat then failM (Other "no nodes given")
  else
    let! limit := MaxLayers in
    if hops <? 1 then failM (Other "-hops: want at least 1")
    else if Z.of_nat limit <? hops then failM (Other "-hops: more than a setup cell carries")
    else if Z.of_nat (length addrs) <? hops then failM (Other "-nodes: fewer than -hops")
    else if negb (ValidPort infoPort) then failM (Other "-info-port: want a port number")
    else lift (check_listed ∅ addrs).

Definition zero_policy : Policy := {| po_Anchor := {| an_Suite := 0; an_Pub := [] |}; po_Skew := 0; po_MaxLife := 0 |}.

Definition trustPolicy (auth : bool) (ca : bytes) (s : Z) (skew : Z) : res Policy :=
  if negb auth then Ok zero_policy
  else if bool_decide (ca = []) then Err (Other "-auth needs -ca")
  else match ParseAnchor ca with
       | Err e => Err (ErrWrap (Other "-ca") e)
       | Ok anchor =>
           if negb (an_Suite anchor =? s) then Err (ErrWrap (Other "-ca") (Sentinel pki_ErrSuite))
           else if skew <? 0 then Err (Other "-skew: must not be negative")
           else Ok {| po_Anchor := anchor; po_Skew := skew; po_MaxLife := 0 |}
       end.

Definition fetchAttempts : nat := 30.

(** The part of [main] that settles the selection, before any request. *)
Definition settle (nodes : bytes) (hops : Z) (fixed : bool) (missing : Z) (infoPort : bytes) (auth : bool) (ca : bytes) (skew : Z)
    : M selection :=
  let addrs := splitList nodes in
  let! _ := checkNodes addrs hops infoPort in
  let! trust := lift (trustPolicy auth ca Suite skew) in
  if missing <? 0 then failM (Other "-missing: must not be negative")
  else retM {| sl_addrs := addrs; sl_hops := hops; sl_fixed := fixed; sl_missing := missing; sl_infoPort := infoPort;
               sl_auth := auth; sl_trust := trust; sl_attempts := fetchAttempts |}.

(** The configuration of the circuit; [mode] other than [fixed] sends at once. *)
Definition config_of (chain : list Node) (mode : bytes) (rate cover jitter : Z) : Config :=
  let fixed := bool_decide (mode = str "fixed") in
  {| cf_Chain := chain; cf_Mode := if fixed then ConstantRate else Immediate; cf_Rate := if fixed then rate else 0;
     cf_CoverRate := cover; cf_Jitter := jitter |}.

(** ** Errors of the network, as they are told *)

Context (timed_out : error -> bool).

Definition known_text (s : sentinel) : option string :=
  match s with
  | pki_ErrFormat => Some "pki: malformed encoding"%string
  | pki_ErrVersion => Some "pki: unknown format version"%string
  | pki_ErrDuplicate => Some "pki: node repeated in the chain"%string
  | link_ErrHandshake => Some "link: handshake failed"%string
  | client_ErrNodeKey => Some "client: node key missing or of the wrong size"%string
  | wire_ErrPayloadSize => Some "wire: payload too large"%string
  | _ => None
  end.

(** In the order of the source; the two of them that are no values of [error] here
    are told apart by [failure]. *)
Definition knownFailures : list sentinel :=
  [pki_ErrFormat; pki_ErrVersion; pki_ErrDuplicate; link_ErrHandshake; client_ErrNodeKey; wire_ErrPayloadSize].

Definition first_known (e : error) : option string :=
  match List.find (errors_is e) knownFailures with Some s => known_text s | None => None end.

Definition class_of (e : error) : bytes :=
  match first_known e with
  | Some text => str text
  | None => if errors_is e os_ErrDeadlineExceeded || timed_out e then str "timed out" else str "connection failed"
  end.

Definition status_text (code : Z) (unpublished : string) : bytes :=
  if (code =? StatusServiceUnavailable) && negb (bool_decide (unpublished = ""%string)) then str unpublished
  else str "request answered status " ++ itoa code.

Definition failureClass (f : failure) : bytes :=
  match f with
  | NoBundle => str "the entry holds no bundle for it"
  | FetchFailed (StatusError code unpublished) => status_text code unpublished
  | FetchFailed TooLarge => str "answer over the size limit"
  | FetchFailed (FetchOther e) | PlainFailed e => class_of e
  end.

(** [cause]: with a fixed chain the error itself. *)
Definition cause (fixed : bool) (f : failure) : failure + bytes := if fixed then inl f else inr (failureClass f).

(** ** The chain *)

Definition CM (A : Type) : Type := Shell -> World -> (result chainError A * Shell) * World.

Definition retC {A} (a : A) : CM A := fun sh w => ((Ok a, sh), w).
Definition failC {A} (e : chainError) : CM A := fun sh w => ((Err e, sh), w).
Definition bindC {A B} (m : CM A) (k : A -> CM B) : CM B := fun sh w =>
  match m sh w with
  | ((Ok a, sh), w) => k a sh w
  | ((Err e, sh), w) => ((Err e, sh), w)
  end.

(** A draw, a computation over the world, a line of the log. *)
Definition drawC {A} (m : ST bytes A) : CM A := fun sh w =>
  match m (sh_rnd sh) w with
  | ((Ok a, rnd), w) => ((Ok a, {| sh_rnd := rnd; sh_log := sh_log sh; sh_asked := sh_asked sh |}), w)
  | ((Err e, rnd), w) => ((Err (ChainFailed e), {| sh_rnd := rnd; sh_log := sh_log sh; sh_asked := sh_asked sh |}), w)
  end.
Definition worldC {A} (m : M A) : CM A := fun sh w =>
  match m w with (Ok a, w) => ((Ok a, sh), w) | (Err e, w) => ((Err (ChainFailed e), sh), w) end.
Definition logC (l : list logline) : CM unit := fun sh w =>
  ((Ok tt, {| sh_rnd := sh_rnd sh; sh_log := sh_log sh ++ l; sh_asked := sh_asked sh |}), w).
Definition resC {A} (r : result chainError A) : CM A := fun sh w => ((r, sh), w).

End Command.

Notation "'let^' x ':=' m 'in' k" := (bindC m (fun x => k))
  (at level 10, x pattern, m at level 100, k at level 200) : go_scope.

Section Chain.
Context {P : CryptoProvider}.
Context (web : bytes -> list Fetch.Answer) (s : selection).

(** The bundles of the listed nodes as the entry serves them, [None] for one it leaves
    out; the requests all go to one URL. *)
Definition nodeBundles (entry : nat) : CM (list (option bytes)) := fun sh w =>
  match URL (sl_addrs s !!! entry) (sl_infoPort s) "/descriptors" with
  | Err e => ((Err (EntryFailed (PlainFailed e)), sh), w)
  | Ok url =>
      let sh := {| sh_rnd := sh_rnd sh; sh_log := sh_log sh; sh_asked := sh_asked sh ++ [url] |} in
      match fst (Fetch_Mirror (sl_attempts s) (web url)) with
      | Err (Some e) => ((Err (EntryFailed (FetchFailed e)), sh), w)
      | Err None => ((Ok (map (fun _ => None) (sl_addrs s)), sh), w)
      | Ok entries =>
          let held := foldl (fun m e => <[me_Addr e := me_Bundle e]> m) (∅ : gmap bytes bytes) entries in
          ((Ok (map (fun a => held !! a) (sl_addrs s)), sh), w)
      end
  end.

Definition named {A} (m : CM A) : CM A := fun sh w =>
  match m sh w with
  | ((Err (EntryFailed f), sh), w) =>
      ((Err (if sl_fixed s then NodeFailed (sl_addrs s !!! 0%nat) f else EntryFailed f), sh), w)
  | other => other
  end.

(** Where each listed node stands among those present, or -1. *)
Fixpoint places (k : Z) (bundles : list (option bytes)) : list Z :=
  match bundles with
  | [] => []
  | None :: bundles => -1 :: places k bundles
  | Some _ :: bundles => k :: places (k + 1) bundles
  end.

Fixpoint present (addrs : list bytes) (bundles : list (option bytes)) : list (bytes * bytes) :=
  match addrs, bundles with
  | a :: addrs, Some b :: bundles => (a, b) :: present addrs bundles
  | _ :: addrs, None :: bundles => present addrs bundles
  | _, _ => []
  end.

(** The first of the first [n] nodes that is not there. *)
Fixpoint first_missing (n : nat) (at_ : list Z) (addrs : list bytes) : option bytes :=
  match n, at_, addrs with
  | S n, p :: at_, a :: addrs => if p <? 0 then Some a else first_missing n at_ addrs
  | _, _, _ => None
  end.

Definition enough (at_ : list Z) (entry : Z) : result chainError unit :=
  if sl_fixed s then
    match first_missing (Z.to_nat (sl_hops s)) at_ (sl_addrs s) with
    | Some a => Err (NodeFailed a NoBundle)
    | None => Ok tt
    end
  else
    match JudgeMirror (map (fun p => 0 <=? p) at_) entry (sl_hops s) (sl_missing s) with
    | (MirrorTaken, _, _) => Ok tt
    | (MirrorLacksEntry, _, _) => Err (EntryFailed NoBundle)
    | (MirrorLacksTooMany, absent, allowed) => Err (TooFew absent (Z.of_nat (length (sl_addrs s))) allowed)
    end.

Definition resolve (addrs bundles : list bytes) (now : Z) : M (list Verified) :=
  if sl_auth s then VerifyChain (sl_trust s) addrs bundles now else Unverified addrs bundles.

(** The entry's own descriptor is the freshest in its mirror, so the times of the
    descriptors are logged only for a fixed chain. *)
Definition node_lines (nodes : list Verified) : list logline :=
  if sl_auth s then
    map (fun v => NodeLine (ve_Name v) (Fingerprint (ve_Identity v)) (ve_CertUntil v)
                    (if sl_fixed s then Some (ve_DescUntil v) else None)) nodes
    ++ [VerifiedLine (length nodes) (length (sl_addrs s))]
  else [].

Definition no_node : Verified :=
  {| ve_Addr := []; ve_Name := []; ve_Identity := []; ve_LinkPub := []; ve_OnionPub := []; ve_Epoch := 0; ve_CertUntil := 0; ve_DescUntil := 0 |}.

Definition chainOf (nodes : list Verified) (path : list Z) : list Node :=
  map (fun i => let v := nth (Z.to_nat i) nodes no_node in
                {| nd_Addr := ve_Addr v; nd_StaticPub := ve_OnionPub v; nd_LinkPub := ve_LinkPub v |}) path.

Definition chain (now : Z) : CM (list Node) :=
  let^ entry := (if sl_fixed s then retC 0 else drawC (ChooseEntry (Z.of_nat (length (sl_addrs s))))) in
  let^ bundles := named (nodeBundles (Z.to_nat entry)) in
  let at_ := places 0 bundles in
  let there := present (sl_addrs s) bundles in
  let^ _ := resC (enough at_ entry) in
  let^ nodes := worldC (resolve (map fst there) (map snd there) now) in
  let^ _ := logC (node_lines nodes) in
  let^ path := (if sl_fixed s then retC (take (Z.to_nat (sl_hops s)) at_)
                else drawC (ChooseRest (nth (Z.to_nat entry) at_ 0) (Z.of_nat (length nodes)) (sl_hops s))) in
  retC (chainOf nodes path).

End Chain.

(** ** The round trips *)

(** What one message meets: how the send went, what came within five seconds, and
    the class of refusal that [Refused] gives afterwards, if any. *)
Inductive reply : Type := Replied (n : nat) | RepliesClosed | NoReply.

Record round : Type := { rd_send : option failure; rd_reply : reply; rd_refused : option error }.

Inductive exchangeLine : Type := RoundTrip (n : nat) | NoReplyLine.

(** The last line. *)
Inductive ended : Type :=
| AllSent
| SendFailed (told : failure + bytes)
| CircuitClosed
| CircuitRefused (e : error).

Definition exitRefused : Z := 3.

Definition ending (refused : option error) : Z * ended :=
  match refused with Some e => (exitRefused, CircuitRefused e) | None => (1, CircuitClosed) end.

(** The rounds are given one after the other; [None] while the loop still runs. *)
Fixpoint exchange_from (tell : failure -> failure + bytes) (i count : Z) (rounds : list round) : list exchangeLine * option (Z * ended) :=
  if negb ((count =? 0) || (i <? count)) then ([], Some (0, AllSent))
  else match rounds with
       | [] => ([], None)
       | r :: rounds =>
           match rd_send r with
           | Some f =>
               match rd_refused r with
               | Some e => ([], Some (ending (Some e)))
               | None => ([], Some (1, SendFailed (tell f)))
               end
           | None =>
               match rd_reply r with
               | RepliesClosed => ([], Some (ending (rd_refused r)))
               | Replied n => let '(l, x) := exchange_from tell (i + 1) count rounds in (RoundTrip n :: l, x)
               | NoReply => let '(l, x) := exchange_from tell (i + 1) count rounds in (NoReplyLine :: l, x)
               end
           end
       end.

Definition exchange (tell : failure -> failure + bytes) (count : Z) (rounds : list round) : list exchangeLine * option (Z * ended) :=
  exchange_from tell 0 count rounds.

(** ** Lists of nodes *)

Lemma splitList_clean s : Forall (fun a => a <> []) (splitList s).
Proof. unfold splitList. apply Forall_forall. by intros a [? _]%list_elem_of_filter. Qed.

Lemma check_listed_ok seen addrs : check_listed seen addrs = Ok tt <->
  Forall (fun a => ValidAddr a = true /\ (a ∉ seen)) addrs /\ NoDup addrs.
Proof.
  induction addrs as [|a addrs IH] in seen |- *; cbn.
  { split; [intros _; split; constructor | done]. }
  rewrite Forall_cons, NoDup_cons. destruct (ValidAddr a); cbn [negb].
  2: { split; [done | by intros [[[? _] _] _]]. }
  case_bool_decide as Hs; [split; [done | by intros [[[_ ?] _] _]]|]. rewrite IH. split.
  - intros [Hf Hn]. split_and!; try done.
    + eapply Forall_impl; [exact Hf|]. intros b [Hb Hb']. split; [done|]. set_solver.
    + intros Ha. apply (proj1 (Forall_forall _ _) Hf) in Ha as [_ Ha]. set_solver.
  - intros [[_ Hf] [Ha Hn]]. split; [|done]. apply Forall_forall. intros b Hb.
    destruct (proj1 (Forall_forall _ _) Hf b Hb). split; [done|]. intros [->%elem_of_singleton|?]%elem_of_union; done.
Qed.

(** Where the present ones stand. *)
Lemma places_spec k addrs bundles i p : length addrs = length bundles -> places k bundles !! i = Some p ->
  (p = -1 /\ bundles !! i = Some None) \/
  exists j a b, p = k + Z.of_nat j /\ addrs !! i = Some a /\ bundles !! i = Some (Some b) /\ present addrs bundles !! j = Some (a, b).
Proof.
  revert k addrs i. induction bundles as [|[b|] bundles IH]; intros k [|a addrs] [|i] Hl; cbn; try done; injection Hl as Hl.
  - intros [= <-]. right. exists 0%nat, a, b. split_and!; [lia | done..].
  - intros H. destruct (IH _ addrs _ Hl H) as [?|(j & a' & b' & -> & Ha & Hb & Hj)]; [by left|].
    right. exists (S j), a', b'. split_and!; [lia | done..].
  - intros [= <-]. by left.
  - intros H. by apply (IH _ addrs) in H.
Qed.

Lemma length_places k bundles : length (places k bundles) = length bundles.
Proof. revert k. induction bundles as [|[b|] bundles IH]; intros k; cbn; by rewrite ?IH. Qed.

Lemma present_sublist addrs bundles : map fst (present addrs bundles) `sublist_of` addrs.
Proof.
  revert bundles. induction addrs as [|a addrs IH]; intros [|[b|] bundles]; cbn; try apply sublist_nil_l.
  - by constructor.
  - by constructor.
Qed.

Lemma present_elem addrs bundles a b : (a, b) ∈ present addrs bundles -> exists i, addrs !! i = Some a /\ bundles !! i = Some (Some b).
Proof.
  revert bundles. induction addrs as [|a' addrs IH]; intros [|[b'|] bundles]; cbn; try by intros ?%elem_of_nil.
  - intros [[= -> ->]|(i & H1 & H2)%IH]%elem_of_cons; [by exists 0%nat | by exists (S i)].
  - intros (i & H1 & H2)%IH. by exists (S i).
Qed.

Lemma first_missing_none n at_ addrs : length at_ = length addrs -> first_missing n at_ addrs = None -> Forall (fun p => 0 <= p) (take n at_).
Proof.
  revert at_ addrs. induction n as [|n IH]; intros [|p at_] [|a addrs] Hl; cbn; try done.
  injection Hl as Hl. destruct (Z.ltb_spec p 0); [done|]. constructor; [done | by eapply IH].
Qed.

(** What the mirror holds of an address. *)
Definition held_of (entries : list MirrorEntry) : gmap bytes bytes := foldl (fun m e => <[me_Addr e := me_Bundle e]> m) ∅ entries.

Lemma held_entry entries a b : held_of entries !! a = Some b -> exists it, it ∈ entries /\ me_Addr it = a /\ me_Bundle it = b.
Proof.
  unfold held_of. assert (forall m : gmap bytes bytes, foldl (fun m e => <[me_Addr e := me_Bundle e]> m) m entries !! a = Some b ->
    m !! a = Some b \/ exists it, it ∈ entries /\ me_Addr it = a /\ me_Bundle it = b) as H.
  { induction entries as [|e entries IH]; intros m; cbn; [by left|]. intros [H|(it & Hi & H1 & H2)]%IH.
    - destruct (decide (me_Addr e = a)) as [<-|Hne].
      + rewrite lookup_insert_eq in H. injection H as <-. right. exists e. split; [by left | done].
      + rewrite lookup_insert_ne in H by done. by left.
    - right. exists it. split; [by right | done]. }
  intros [E|?]%H; [by rewrite lookup_empty in E | done].
Qed.

Section Chosen.
Context `{CL : CryptoLaws}.

Lemma checkNodes_ok addrs hops port w w' : sizes_sound w -> checkNodes addrs hops port w = (Ok tt, w') ->
  sizes_cached w' /\ 1 <= hops <= Z.of_nat (length addrs) /\ ValidPort port = true /\
  Forall (fun a => ValidAddr a = true) addrs /\ NoDup addrs.
Proof.
  intros Hs. unfold checkNodes. destruct (length addrs =? 0)%nat; [done|]. intros H.
  apply bindM_ok in H as (limit & w1 & Hl & H). unfold MaxLayers in Hl. apply bindM_ok in Hl as (sz & w2 & Hz & [_ ->]%retM_ok).
  apply sizesOf_ok in Hz as [_ Hz]; [|done].
  destruct (Z.ltb_spec hops 1); [done|]. destruct (Z.ltb_spec (Z.of_nat limit) hops); [done|].
  destruct (Z.ltb_spec (Z.of_nat (length addrs)) hops); [done|]. destruct (ValidPort port); [|done]. cbn [negb] in H.
  apply lift_ok in H as [[Hf Hn]%check_listed_ok ->]. split_and!; try done.
  eapply Forall_impl; [exact Hf|]. by intros a [? _].
Qed.

Lemma read_nodes_world read addrs bundles w : (forall a b, snd (read a b w) = w) -> snd (read_nodes read addrs bundles w) = w.
Proof.
  intros Hr. revert bundles. induction addrs as [|a addrs IH]; intros [|b bundles]; cbn; try done.
  unfold mwrap, bindM. specialize (Hr a b) as H. destruct (read a b w) as [[v|e] w1]; cbn in H; subst w1; cbn; [|done].
  specialize (IH bundles). destruct (read_nodes read addrs bundles w) as [[vs|e] w1]; cbn in IH; by subst w1.
Qed.

Lemma VerifyChain_world pol addrs bundles now w : sizes_cached w -> snd (VerifyChain pol addrs bundles now w) = w.
Proof.
  intros Hc. unfold VerifyChain, eachNode. destruct (negb _); [done|]. unfold bindM.
  pose proof (read_nodes_world (fun a b => Verify pol a b now) addrs bundles w) as H.
  destruct (read_nodes _ addrs bundles w) as [[vs|e] w1]; cbn in H; (rewrite H by (intros; by apply Verify_world)); [|done].
  by destruct (repeated vs).
Qed.

Lemma bindC_ok {A B} (m : CM A) (k : A -> CM B) sh w b sh' w' : bindC m k sh w = ((Ok b, sh'), w') ->
  exists a sh1 w1, m sh w = ((Ok a, sh1), w1) /\ k a sh1 w1 = ((Ok b, sh'), w').
Proof. unfold bindC. destruct (m sh w) as [[[a|e] sh1] w1]; [|done]. intros H. by exists a, sh1, w1. Qed.

Lemma named_ok {A} s (m : CM A) sh w a sh' w' : named s m sh w = ((Ok a, sh'), w') -> m sh w = ((Ok a, sh'), w').
Proof. unfold named. by destruct (m sh w) as [[[x|[f|x f|x y z|e]] sh1] w1]. Qed.

Lemma drawC_ok {A} (m : ST bytes A) sh w a sh' w' : drawC m sh w = ((Ok a, sh'), w') -> exists rnd,
  m (sh_rnd sh) w = ((Ok a, rnd), w') /\ sh_log sh' = sh_log sh /\ sh_asked sh' = sh_asked sh.
Proof. unfold drawC. destruct (m (sh_rnd sh) w) as [[[x|e] rnd] w1]; [|done]. intros [= -> <- ->]. by exists rnd. Qed.

Context (web : bytes -> list Fetch.Answer) (s : selection).

(** The bundles of the listed nodes as they stand in the mirror. *)
Definition bundles_of (entries : list MirrorEntry) : list (option bytes) := map (fun a => held_of entries !! a) (sl_addrs s).

Lemma nodeBundles_ok entry sh w bundles sh' w' : nodeBundles web s entry sh w = ((Ok bundles, sh'), w') -> w' = w /\
  exists url entries, URL (sl_addrs s !!! entry) (sl_infoPort s) "/descriptors" = Ok url /\
    sh_log sh' = sh_log sh /\ sh_asked sh' = sh_asked sh ++ [url] /\ bundles = bundles_of entries /\
    (fst (Fetch_Mirror (sl_attempts s) (web url)) = Ok entries \/ entries = []).
Proof.
  unfold nodeBundles. destruct (URL _ _ _) as [url|e]; [|done].
  destruct (fst (Fetch_Mirror (sl_attempts s) (web url))) as [entries|[e|]] eqn:Ef; [| done |]; intros [= <- <- <-]; (split; [done|]).
  - exists url, entries. split_and!; try done. by left.
  - exists url, []. split_and!; try done. by right.
Qed.

Lemma rest_loop_world todo i others path r w p r' w' : rest_loop todo i others path r w = ((Ok p, r'), w') -> w' = w.
Proof.
  revert i others path r w. induction todo as [|n IH]; intros i others path r w; cbn [rest_loop]; [by intros (_ & _ & ?)%retS_ok|].
  intros (j & r1 & w1 & [-> _]%below_loop_ok & H)%bindS_ok. by eapply IH.
Qed.

(** The parts of a selection that comes to a chain. *)
Lemma chain_ok now sh w nodes sh' w' : sizes_cached w -> sl_auth s = true -> Z.of_nat (length (sl_addrs s)) < 2 ^ 63 ->
  chain web s now sh w = ((Ok nodes, sh'), w') -> w' = w /\
  exists entry url entries vs path,
    (sl_fixed s = true /\ entry = 0 \/ sl_fixed s = false /\ 0 <= entry < Z.of_nat (length (sl_addrs s))) /\
    URL (sl_addrs s !!! Z.to_nat entry) (sl_infoPort s) "/descriptors" = Ok url /\ sh_asked sh' = sh_asked sh ++ [url] /\
    (fst (Fetch_Mirror (sl_attempts s) (web url)) = Ok entries \/ entries = []) /\
    enough s (places 0 (bundles_of entries)) entry = Ok tt /\
    let there := present (sl_addrs s) (bundles_of entries) in
    VerifyChain (sl_trust s) (map fst there) (map snd there) now w = (Ok vs, w) /\
    sh_log sh' = sh_log sh ++ node_lines s vs /\
    (if sl_fixed s then path = take (Z.to_nat (sl_hops s)) (places 0 (bundles_of entries))
     else exists r r', ChooseRest (nth (Z.to_nat entry) (places 0 (bundles_of entries)) 0) (Z.of_nat (length vs)) (sl_hops s) r w = ((Ok path, r'), w)) /\
    nodes = chainOf vs path.
Proof.
  intros Hc Ha Hn H. unfold chain in H. apply bindC_ok in H as (entry & sh1 & w1 & He & H).
  assert (w1 = w /\ sh_log sh1 = sh_log sh /\ sh_asked sh1 = sh_asked sh /\
    (sl_fixed s = true /\ entry = 0 \/ sl_fixed s = false /\ 0 <= entry < Z.of_nat (length (sl_addrs s)))) as (-> & Hl1 & Ha1 & Hentry).
  { destruct (sl_fixed s); [injection He as <- <- <-; split_and!; auto|]. destruct (drawC_ok _ _ _ _ _ _ He) as (rnd & Hd & Hlog & Hask).
    unfold ChooseEntry in Hd. destruct (Z.ltb_spec (Z.of_nat (length (sl_addrs s))) 1); [done|].
    destruct (below_takes (Z.of_nat (length (sl_addrs s))) ltac:(lia) (sh_rnd sh) w) as (r & s' & Hb & _ & _ & _ & Hr).
    rewrite Hb in Hd. injection Hd as -> _ <-. split_and!; try done. right. split; [done|]. by apply Hr. }
  apply bindC_ok in H as (bundles & sh2 & w2 & Hb & H).
  apply named_ok, nodeBundles_ok in Hb as (-> & url & entries & Hurl & Hl2 & Ha2 & -> & Hf).
  apply bindC_ok in H as (u & sh3 & w3 & Hen & H). unfold resC in Hen. injection Hen as Hen <- <-. destruct u.
  apply bindC_ok in H as (vs & sh4 & w4 & Hv & H). unfold worldC, resolve in Hv. rewrite Ha in Hv.
  set (there := present (sl_addrs s) (bundles_of entries)) in *.
  pose proof (VerifyChain_world (sl_trust s) (map fst there) (map snd there) now w Hc) as Hw.
  destruct (VerifyChain _ _ _ now w) as [[vs'|e] w5] eqn:Ev; [|done]. cbn in Hw. subst w5. injection Hv as -> <- <-.
  apply bindC_ok in H as (u & sh5 & w5 & Hlog & H). unfold logC in Hlog. injection Hlog as _ <- <-.
  apply bindC_ok in H as (path & sh6 & w6 & Hp & H). injection H as <- <- <-.
  assert (w6 = w /\ sh_log sh6 = sh_log sh2 ++ node_lines s vs /\ sh_asked sh6 = sh_asked sh2 /\
    (if sl_fixed s then path = take (Z.to_nat (sl_hops s)) (places 0 (bundles_of entries))
     else exists r r', ChooseRest (nth (Z.to_nat entry) (places 0 (bundles_of entries)) 0) (Z.of_nat (length vs)) (sl_hops s) r w = ((Ok path, r'), w)))
    as (-> & Hl6 & Ha6 & Hpath).
  { destruct (sl_fixed s); [injection Hp as <- <- <-; split_and!; auto|]. apply drawC_ok in Hp as (rnd & Hp & Hlog & Hask).
    assert (w6 = w) as ->.
    { unfold ChooseRest in Hp. destruct (_ || _); [done|]. by eapply rest_loop_world. }
    split_and!; try done. eauto. }
  split; [done|]. exists entry, url, entries, vs, path. cbv zeta. split_and!; try done; try congruence; by destruct (sl_fixed s).
Qed.

(** *** What the chain is made of *)

Lemma takeAddr_plain a : Forall (fun c => c <> x00) a -> takeAddr a = a.
Proof.
  induction 1 as [|c a Hc Ha IH]; [done|]. cbn [takeAddr]. rewrite IH. destruct a; [|done]. cbn beta in Hc. by rewrite (bool_decide_false _ Hc).
Qed.

Lemma valid_addr_ok a : ValidAddr a = true -> addr_ok a.
Proof.
  intros (h & p & _ & _ & _ & [Hl _] & Hpr)%valid_addr_split. split; [intros ->; cbn in Hl; lia|]. apply takeAddr_plain, Forall_forall.
  intros c Hc ->. rewrite forallb_forall in Hpr. by specialize (Hpr _ (proj1 (list_elem_of_In _ _) Hc)).
Qed.

(** A node of the chain, and what vouches for it. *)
Record vouched (now : Z) (w : World) (entries : list MirrorEntry) (n : Node) : Prop := {
  vo_listed : nd_Addr n ∈ sl_addrs s;
  vo_addr : addr_ok (nd_Addr n);
  vo_keys : length (nd_StaticPub n) = pub_size /\ length (linkKey n) = pub_size;
  vo_bundle : exists it v, it ∈ entries /\ me_Addr it = nd_Addr n /\
    Verify (sl_trust s) (nd_Addr n) (me_Bundle it) now w = (Ok v, w) /\
    nd_StaticPub n = ve_OnionPub v /\ nd_LinkPub n = ve_LinkPub v
}.

(** A verified node of the list, taken into the chain. *)
Definition node_of_verified (v : Verified) : Node :=
  {| nd_Addr := ve_Addr v; nd_StaticPub := ve_OnionPub v; nd_LinkPub := ve_LinkPub v |}.

Lemma verified_vouched now w entries vs v : sizes_cached w -> Forall (fun a => ValidAddr a = true) (sl_addrs s) ->
  (let there := present (sl_addrs s) (bundles_of entries) in
   Forall3 (fun a b v => Verify (sl_trust s) a b now w = (Ok v, w)) (map fst there) (map snd there) vs) ->
  v ∈ vs -> vouched now w entries (node_of_verified v).
Proof.
  intros Hc Hval Hall [j Hj]%list_elem_of_lookup_1. cbv zeta in Hall.
  destruct (Forall3_lookup_r _ _ _ _ _ _ Hall Hj) as (a & b & Ha & Hb & Hv).
  rewrite list_lookup_fmap in Ha, Hb. destruct (present _ _ !! j) as [[a' b']|] eqn:Ep; [|done]. injection Ha as ->. injection Hb as ->.
  apply list_elem_of_lookup_2, present_elem in Ep as (i & Hi & Hbi). unfold bundles_of in Hbi. rewrite list_lookup_fmap, Hi in Hbi.
  injection Hbi as (it & Hit & Hia & <-)%held_entry. pose proof (Verify_identity _ _ _ _ _ _ _ Hv) as [_ Hadr].
  assert (sizes_sound w) as Hs by (intros x Hx; unfold sizes_cached in Hc; congruence).
  destruct (Verify_ok _ _ _ _ _ _ _ Hs Hv) as (_ & bu & c & d & _ & _ & _ & _ & _ & _ & _ & [Hsl Hso] & Ev).
  assert (ValidAddr a = true) as Hva by (by apply (Forall_lookup_1 _ _ i a Hval)).
  split; cbn [node_of_verified nd_Addr nd_StaticPub nd_LinkPub]; rewrite ?Hadr.
  - by eapply list_elem_of_lookup_2.
  - by apply valid_addr_ok.
  - unfold linkKey. cbn [nd_LinkPub nd_StaticPub]. subst v. cbn [verified ve_OnionPub ve_LinkPub]. split; [done|]. by destruct (_ =? _)%nat.
  - exists it, v. by split_and!.
Qed.

(** The verified node of a present one. *)
Lemma verified_at now w (there : list (bytes * bytes)) vs j a b :
  Forall3 (fun a b v => Verify (sl_trust s) a b now w = (Ok v, w)) (map fst there) (map snd there) vs ->
  there !! j = Some (a, b) -> exists v, vs !! j = Some v /\ ve_Addr v = a /\ Verify (sl_trust s) a b now w = (Ok v, w).
Proof.
  intros Hall Hj. assert (map fst there !! j = Some a) as Ha by (by rewrite list_lookup_fmap, Hj).
  destruct (Forall3_lookup_l _ _ _ _ _ _ Hall Ha) as (b' & v & Hb & Hv & Hver). rewrite list_lookup_fmap, Hj in Hb. injection Hb as <-.
  exists v. split_and!; try done. by apply Verify_identity in Hver as [_ ?].
Qed.

Lemma nth_lookup' {A} (l : list A) i x d : l !! i = Some x -> nth i l d = x.
Proof. revert i. induction l as [|y l IH]; intros [|i]; cbn; try done; [by intros [= ->] | apply IH]. Qed.

(** The addresses of a path among the verified nodes. *)
Lemma path_addrs now w there vs path hops : sizes_cached w ->
  Forall3 (fun a b v => Verify (sl_trust s) a b now w = (Ok v, w)) (map fst there) (map snd there) vs ->
  distinct_nodes vs -> is_path (Z.of_nat (length vs)) hops path ->
  Z.of_nat (length (chainOf vs path)) = hops /\ NoDup (map nd_Addr (chainOf vs path)) /\
  Forall (fun n => exists v, v ∈ vs /\ n = node_of_verified v) (chainOf vs path).
Proof.
  intros Hc Hall (Hd & _) (Hnd & Hr & Hl). unfold chainOf. rewrite length_map. split; [done|].
  assert (forall i, i ∈ path -> exists v, vs !! Z.to_nat i = Some v /\ nth (Z.to_nat i) vs no_node = v) as Hin.
  { intros i Hi. destruct (proj1 (Forall_forall _ _) Hr i Hi) as [H0 H1]. destruct (lookup_lt_is_Some_2 vs (Z.to_nat i)) as [v Hv]; [lia|].
    exists v. split; [done | by apply nth_lookup']. }
  clear Hl. split.
  - rewrite map_map. cbn [nd_Addr]. apply (NoDup_fmap_2_strong (fun i => ve_Addr (nth (Z.to_nat i) vs no_node)) path); [|done].
    intros i j Hi Hj E. destruct (Hin i Hi) as (v & Hv & Ev), (Hin j Hj) as (v' & Hv' & Ev'). rewrite Ev, Ev' in E.
    assert (Z.to_nat i = Z.to_nat j) as Hij.
    { eapply NoDup_lookup; [exact Hd | by rewrite list_lookup_fmap, Hv | rewrite list_lookup_fmap, Hv'; cbn; by rewrite E]. }
    destruct (proj1 (Forall_forall _ _) Hr i Hi), (proj1 (Forall_forall _ _) Hr j Hj). lia.
  - apply Forall_map, Forall_forall. intros i Hi. destruct (Hin i Hi) as (v & Hv & Ev). exists v. split; [by eapply list_elem_of_lookup_2|].
    cbn. by rewrite Ev.
Qed.

Lemma absent_none k bundles : 0 <= k ->
  count_absent (map (fun p => 0 <=? p) (places k bundles)) = Z.of_nat (length (filter (fun b => b = None) bundles)).
Proof.
  rewrite count_absent_spec, length_map, length_places. revert k. induction bundles as [|[b|] bundles IH]; intros k Hk; [done|..];
    cbn [places map List.filter id length].
  - rewrite (proj2 (Z.leb_le 0 k)) by done. cbn [id]. rewrite filter_cons_False by done. cbn [length]. rewrite <- (IH (k + 1)) by lia. lia.
  - rewrite filter_cons_True by done. cbn [length]. specialize (IH k Hk). change (0 <=? -1) with false. cbv iota. lia.
Qed.

Lemma bundles_at entries i a : sl_addrs s !! i = Some a -> bundles_of entries !! i = Some (held_of entries !! a).
Proof. intros Hi. unfold bundles_of. by rewrite list_lookup_fmap, Hi. Qed.

(** A selection that is taken has the entry among the present nodes. *)
Lemma enough_entry bundles entry : length bundles = length (sl_addrs s) -> 1 <= sl_hops s <= Z.of_nat (length (sl_addrs s)) ->
  Z.of_nat (length (sl_addrs s)) < 2 ^ 63 -> (sl_fixed s = true -> entry = 0) ->
  enough s (places 0 bundles) entry = Ok tt ->
  (exists j, 0 <= entry /\ places 0 bundles !! Z.to_nat entry = Some (Z.of_nat j)) /\
  (sl_fixed s = true -> Forall (fun p => 0 <= p) (take (Z.to_nat (sl_hops s)) (places 0 bundles))) /\
  (sl_fixed s = false -> Z.of_nat (length (filter (fun b => b = None) bundles)) <= sl_missing s).
Proof.
  intros Hl Hh Hn He. unfold enough. destruct (sl_fixed s).
  - rewrite (He eq_refl). destruct (first_missing _ _ _) eqn:Em; [done|]. intros _.
    apply first_missing_none in Em; [|by rewrite length_places]. split; [|done].
    destruct bundles as [|b bundles]; [cbn in Hl; rewrite <- Hl in Hh; lia|].
    destruct (Z.to_nat (sl_hops s)) eqn:Eh; [lia|]. destruct b; cbn in Em |- *; apply Forall_cons in Em as [? _]; [by exists 0%nat | lia].
  - pose proof (mirror_judged (map (fun p => 0 <=? p) (places 0 bundles)) entry (sl_hops s) (sl_missing s)) as Hj.
    rewrite length_map, length_places, Hl in Hj. specialize (Hj Hh Hn).
    pose proof (absent_none 0 bundles ltac:(lia)) as Ha. revert Hj.
    destruct (JudgeMirror _ _ _ _) as [[[] absent] allowed] eqn:Ej; try done. intros (_ & Hal & (Ht & _) & _) _.
    destruct (Ht eq_refl) as ((H0 & Hs) & Hle). split; [|split; [done|]].
    + rewrite list_lookup_fmap in Hs. destruct (places 0 bundles !! Z.to_nat entry) as [p|] eqn:Ep; [|done]. injection Hs as Hs%Z.leb_le.
      exists (Z.to_nat p). split; [done|]. by rewrite Z2Nat.id.
    + intros _. unfold JudgeMirror in Ej. assert (absent = count_absent (map (fun p => 0 <=? p) (places 0 bundles))) as ->
        by (destruct (_ || _); [congruence|]; destruct (_ <? _); congruence). lia.
Qed.

Lemma length_absent entries l : length (filter (fun b => b = None) (map (fun a => held_of entries !! a) l)) =
  length (filter (fun a => held_of entries !! a = None) l).
Proof.
  induction l as [|a l IH]; [done|]. cbn [map]. rewrite !filter_cons.
  destruct (decide (held_of entries !! a = None)); cbn [length]; by rewrite IH.
Qed.

(** A fixed chain is the first nodes of the list. *)
Lemma fixed_path now w entries vs : let there := present (sl_addrs s) (bundles_of entries) in
  Forall3 (fun a b v => Verify (sl_trust s) a b now w = (Ok v, w)) (map fst there) (map snd there) vs ->
  Forall (fun p => 0 <= p) (take (Z.to_nat (sl_hops s)) (places 0 (bundles_of entries))) ->
  let path := take (Z.to_nat (sl_hops s)) (places 0 (bundles_of entries)) in
  map nd_Addr (chainOf vs path) = take (Z.to_nat (sl_hops s)) (sl_addrs s) /\
  Forall (fun n => exists v, v ∈ vs /\ n = node_of_verified v) (chainOf vs path).
Proof.
  intros there Hall Hpos path. assert (length (bundles_of entries) = length (sl_addrs s)) as Hlb by (unfold bundles_of; by rewrite length_map).
  assert (forall i p, path !! i = Some p -> exists a v, take (Z.to_nat (sl_hops s)) (sl_addrs s) !! i = Some a /\
    vs !! Z.to_nat p = Some v /\ ve_Addr v = a) as Hat.
  { intros i p Hp. pose proof (Forall_lookup_1 _ _ _ _ Hpos Hp) as Hp0. unfold path in Hp.
    apply lookup_take_Some in Hp as [Hp Hi].
    destruct (places_spec _ (sl_addrs s) _ _ _ (eq_sym Hlb) Hp) as [[? _]|(j & a & b & -> & Ha & _ & Hj)]; [cbn in Hp0; lia|].
    destruct (verified_at _ _ _ _ _ _ _ Hall Hj) as (v & Hv & Hva & _). exists a, v. rewrite lookup_take_lt by done.
    split_and!; try done. by rewrite Z.add_0_l, Nat2Z.id. }
  split.
  - apply list_eq. intros i. rewrite list_lookup_fmap. unfold chainOf. rewrite list_lookup_fmap. destruct (path !! i) as [p|] eqn:Ep; cbn.
    + destruct (Hat i p Ep) as (a & v & -> & Hv & <-). by rewrite (nth_lookup' _ _ _ _ Hv).
    + symmetry. apply lookup_ge_None. apply lookup_ge_None in Ep. unfold path in Ep. rewrite length_take, length_places, Hlb in Ep. by rewrite length_take.
  - apply Forall_map, Forall_forall. intros p [i Hi]%list_elem_of_lookup_1. destruct (Hat i p Hi) as (a & v & _ & Hv & _).
    exists v. split; [by eapply list_elem_of_lookup_2|]. unfold node_of_verified. by rewrite (nth_lookup' _ _ _ no_node Hv).
Qed.

(** The chain of a path: its length, no node twice, the entry first. *)
Lemma chain_nodes now w entries vs path entry j ea v0 : sizes_cached w -> 1 <= sl_hops s <= Z.of_nat (length (sl_addrs s)) ->
  Z.of_nat (length (sl_addrs s)) < 2 ^ 63 -> NoDup (sl_addrs s) ->
  let there := present (sl_addrs s) (bundles_of entries) in
  Forall3 (fun a b v => Verify (sl_trust s) a b now w = (Ok v, w)) (map fst there) (map snd there) vs -> distinct_nodes vs ->
  (sl_fixed s = true -> entry = 0 /\ Forall (fun p => 0 <= p) (take (Z.to_nat (sl_hops s)) (places 0 (bundles_of entries)))) ->
  sl_addrs s !! Z.to_nat entry = Some ea -> places 0 (bundles_of entries) !! Z.to_nat entry = Some (Z.of_nat j) -> vs !! j = Some v0 -> ve_Addr v0 = ea ->
  (if sl_fixed s then path = take (Z.to_nat (sl_hops s)) (places 0 (bundles_of entries))
   else exists r r', ChooseRest (nth (Z.to_nat entry) (places 0 (bundles_of entries)) 0) (Z.of_nat (length vs)) (sl_hops s) r w = ((Ok path, r'), w)) ->
  Z.of_nat (length (chainOf vs path)) = sl_hops s /\ NoDup (map nd_Addr (chainOf vs path)) /\
  nd_Addr <$> head (chainOf vs path) = Some ea /\ Forall (fun n => exists v, v ∈ vs /\ n = node_of_verified v) (chainOf vs path) /\
  (sl_fixed s = true -> map nd_Addr (chainOf vs path) = take (Z.to_nat (sl_hops s)) (sl_addrs s)).
Proof.
  intros Hc Hh Hn Hnd there Hall Hdist Hfix Hea Hj0 Hv0 Hva0 Hpath.
  destruct (sl_fixed s) eqn:Efix.
  - assert (map nd_Addr (chainOf vs path) = take (Z.to_nat (sl_hops s)) (sl_addrs s) /\
      Forall (fun n => exists v, v ∈ vs /\ n = node_of_verified v) (chainOf vs path)) as [Hmap Hall4].
    { rewrite Hpath. apply (fixed_path now w entries); [exact Hall | by apply Hfix]. }
    rewrite <- (length_map nd_Addr), Hmap, length_take. split; [lia|]. split; [eapply sublist_NoDup; [exact Hnd | apply sublist_take]|].
    destruct (Hfix eq_refl) as [-> _]. split_and!; try done.
    assert (forall l : list Node, nd_Addr <$> head l = head (map nd_Addr l)) as -> by (by intros [|n l]). rewrite Hmap.
    destruct (sl_addrs s) as [|a0 addrs0]; [done|]. injection Hea as ->. destruct (Z.to_nat (sl_hops s)) eqn:Ez; [lia | done].
  - destruct Hpath as (r & r' & Hp). rewrite (nth_lookup' _ _ _ 0 Hj0) in Hp.
    assert (1 <= sl_hops s <= Z.of_nat (length vs)) as Hhv.
    { unfold ChooseRest in Hp. destruct (Z.ltb_spec (sl_hops s) 1); [done|]. destruct (Z.ltb_spec (Z.of_nat (length vs)) (sl_hops s)); [done | lia]. }
    assert (length vs <= length (sl_addrs s))%nat as Hlv.
    { pose proof (Forall3_length_lr _ _ _ _ Hall) as Hl3. rewrite length_map in Hl3. pose proof (sublist_length _ _ (present_sublist (sl_addrs s) (bundles_of entries))) as Hsub.
      rewrite length_map in Hsub. fold there in Hsub. lia. }
    destruct (ChooseRest_ends (Z.of_nat j) (Z.of_nat (length vs)) (sl_hops s) Hhv ltac:(lia)) with (s := r) (w := w) as (rr & s1 & Hr & _ & _ & _ & Hok);
      [apply lookup_lt_Some in Hv0; lia|].
    rewrite Hp in Hr. injection Hr as <- _. destruct (Hok path eq_refl) as [Hip Hhead].
    destruct (path_addrs now w there vs path (sl_hops s) Hc Hall Hdist Hip) as (L1 & L2 & L3). split_and!; try done.
    destruct path as [|i path]; [done|]. injection Hhead as ->. cbn. by rewrite Nat2Z.id, (nth_lookup' _ _ _ no_node Hv0), Hva0.
Qed.

(** C28. A chain is taken only on the word of the anchor.  After the checks on the flags,
    a selection that comes to a chain has asked one node, its entry, for one
    resource; every listed node that the entry's mirror holds passed [Verify] under
    the client's anchor, for its own address, at this moment; the chain has the
    length asked for and no node twice, starts at the entry, and each of its nodes is a listed one
    that can be dialled, with the keys of its verified bundle, of the right size.  A
    drawn chain is taken only if the mirror lacks no more of the listed nodes than
    was allowed; a fixed one is the first nodes of the list, in order. *)
Theorem chain_sound now sh w0 w nodes sh' w' :
  sizes_sound w0 -> checkNodes (sl_addrs s) (sl_hops s) (sl_infoPort s) w0 = (Ok tt, w) ->
  sl_auth s = true -> Z.of_nat (length (sl_addrs s)) < 2 ^ 63 ->
  chain web s now sh w = ((Ok nodes, sh'), w') ->
  exists ea url entries,
    ea ∈ sl_addrs s /\ URL ea (sl_infoPort s) "/descriptors" = Ok url /\ sh_asked sh' = sh_asked sh ++ [url] /\
    fst (Fetch_Mirror (sl_attempts s) (web url)) = Ok entries /\
    (forall a b, a ∈ sl_addrs s -> held_of entries !! a = Some b -> exists v, Verify (sl_trust s) a b now w = (Ok v, w)) /\
    Z.of_nat (length nodes) = sl_hops s /\ NoDup (map nd_Addr nodes) /\ nd_Addr <$> head nodes = Some ea /\
    Forall (vouched now w entries) nodes /\
    (sl_fixed s = false -> Z.of_nat (length (filter (fun a => held_of entries !! a = None) (sl_addrs s))) <= sl_missing s) /\
    (sl_fixed s = true -> map nd_Addr nodes = take (Z.to_nat (sl_hops s)) (sl_addrs s)).
Proof.
  intros Hs Hcheck Hauth Hn H. destruct (checkNodes_ok _ _ _ _ _ Hs Hcheck) as (Hc & Hh & _ & Hval & Hnd).
  apply chain_ok in H as (-> & entry & url & entries & vs & path & Hentry & Hurl & Hask & Hfetch & Hen & Hv & _ & Hpath & ->); [|done..].
  apply chain_distinct in Hv as [Hall Hdist]; [|done].
  set (there := present (sl_addrs s) (bundles_of entries)) in *.
  assert (length (bundles_of entries) = length (sl_addrs s)) as Hlb by (unfold bundles_of; by rewrite length_map).
  destruct (enough_entry (bundles_of entries) entry Hlb Hh Hn ltac:(intros Hf; destruct Hentry as [[_ ?]|[? _]]; congruence) Hen) as ((j0 & H0 & Hj0) & Hfix & Hmiss).
  destruct (places_spec _ (sl_addrs s) _ _ _ (eq_sym Hlb) Hj0) as [[? _]|(j & ea & b & Ej & Hea & Hb & Hj)]; [lia|].
  assert (j = j0) as -> by lia. clear Ej. destruct (verified_at _ _ _ _ _ _ _ Hall Hj) as (v0 & Hv0 & Hva0 & _).
  rewrite (bundles_at _ _ _ Hea) in Hb. injection Hb as Hb.
  rewrite (list_lookup_total_correct _ _ _ Hea) in Hurl.
  exists ea, url, entries. split; [by eapply list_elem_of_lookup_2|]. split; [done|]. split; [done|]. split.
  { destruct Hfetch as [?| ->]; [done|]. cbn in Hb. by rewrite lookup_empty in Hb. }
  split.
  { intros a b' [i Hi]%list_elem_of_lookup_1 Hab.
    destruct (lookup_lt_is_Some_2 (places 0 (bundles_of entries)) i) as [p Hp]; [rewrite length_places, Hlb; by eapply lookup_lt_Some|].
    destruct (places_spec _ (sl_addrs s) _ _ _ (eq_sym Hlb) Hp) as [[_ Hno]|(k & a' & b2 & _ & Ha' & Hb2 & Hk)];
      [rewrite (bundles_at _ _ _ Hi) in Hno; congruence|].
    rewrite Hi in Ha'. injection Ha' as <-. rewrite (bundles_at _ _ _ Hi) in Hb2. assert (b2 = b') as -> by congruence.
    destruct (verified_at _ _ _ _ _ _ _ Hall Hk) as (v & _ & _ & ?). by exists v. }
  destruct (chain_nodes now w entries vs path entry j0 ea v0) as (R1 & R2 & R3 & R4 & R5); [done.. | | done | done | done | done | done |].
  { intros Hf. split; [destruct Hentry as [[_ ?]|[? _]]; congruence | by apply Hfix]. }
  split_and!; try done.
  - eapply Forall_impl; [exact R4|]. intros n (v & Hvs & ->). by eapply verified_vouched.
  - intros Hf. specialize (Hmiss Hf). etrans; [|exact Hmiss]. unfold bundles_of. apply Nat2Z.inj_le.
    by rewrite length_absent.
Qed.

(** *** What a run tells of its draw *)








(** *** What the mirrors of two entries have in common *)

(** What a line tells of a node, and what comes of a bundle for an address. *)
Definition told (v : Verified) : bytes * bytes * Z := (ve_Name v, ve_Identity v, ve_CertUntil v).
















End Chosen.

(** *** How the round trips end *)

Definition round_line (r : round) : exchangeLine := match rd_reply r with Replied n => RoundTrip n | _ => NoReplyLine end.

(** A round that the loop goes on behind. *)
Definition goes_on (r : round) : Prop := rd_send r = None /\ rd_reply r <> RepliesClosed.

(** How the loop stands from [i] on, behind the rounds [good] and before [rest]. *)
Definition ends_with (tell : failure -> failure + bytes) (i count : Z) (good rest : list round) (x : option (Z * ended)) : Prop :=
  match x with
  | None => rest = [] /\ (count = 0 \/ i + Z.of_nat (length good) < count)
  | Some (code, AllSent) => code = 0 /\ count <> 0 /\ Z.of_nat (length good) = Z.max 0 (count - i)
  | Some (code, SendFailed t) => code = 1 /\ exists r f rest', rest = r :: rest' /\ rd_send r = Some f /\ t = tell f /\ rd_refused r = None
  | Some (code, CircuitClosed) => code = 1 /\ exists r rest', rest = r :: rest' /\ rd_send r = None /\ rd_reply r = RepliesClosed /\ rd_refused r = None
  | Some (code, CircuitRefused e) => code = exitRefused /\ exists r rest', rest = r :: rest' /\ rd_refused r = Some e /\
      (rd_send r <> None \/ rd_reply r = RepliesClosed)
  end.

Lemma exchange_shift tell i count r good rest x : count = 0 \/ i < count -> ends_with tell (i + 1) count good rest x ->
  ends_with tell i count (r :: good) rest x.
Proof.
  intros Hi. unfold ends_with. destruct x as [[code []]|]; cbn [length]; try done; [intros (-> & Hc & Hl) | intros [-> Hl]]; split_and!; try done; lia.
Qed.

Lemma exchange_from_spec tell i count rounds : 0 <= i -> let '(lines, x) := exchange_from tell i count rounds in
  exists good rest, rounds = good ++ rest /\ Forall goes_on good /\ lines = map round_line good /\
    (count <> 0 -> Z.of_nat (length good) <= Z.max 0 (count - i)) /\
    ends_with tell i count good rest x.
Proof.
  revert i. induction rounds as [|r rounds IH]; intros i Hi; cbn [exchange_from]; destruct (negb _) eqn:E.
  - apply negb_true_iff, orb_false_iff in E as [E1%Z.eqb_neq E2%Z.ltb_ge].
    exists [], []. cbn. split_and!; try done; lia.
  - apply negb_false_iff, orb_true_iff in E. rewrite Z.eqb_eq, Z.ltb_lt in E.
    exists [], []. cbn. split_and!; try done; lia.
  - apply negb_true_iff, orb_false_iff in E as [E1%Z.eqb_neq E2%Z.ltb_ge].
    exists [], (r :: rounds). cbn. split_and!; try done; lia.
  - apply negb_false_iff, orb_true_iff in E. rewrite Z.eqb_eq, Z.ltb_lt in E.
    destruct (rd_send r) as [f|] eqn:Es; [|destruct (rd_reply r) as [n| |] eqn:Ep].
    + destruct (rd_refused r) as [e|] eqn:Er; exists [], (r :: rounds); cbn.
      * split_and!; try done; [lia|]. exists r, rounds. split_and!; try done. left. congruence.
      * split_and!; try done; [lia|]. by exists r, f, rounds.
    + specialize (IH (i + 1) ltac:(lia)). destruct (exchange_from tell (i + 1) count rounds) as [l x].
      destruct IH as (good & rest & -> & Hg & -> & Hle & Hx). exists (r :: good), rest. cbn [map length app].
      assert (round_line r = RoundTrip n) as -> by (unfold round_line; by rewrite Ep).
      split_and!; [done | constructor; [split; congruence | done] | done | lia |]. by apply exchange_shift.
    + unfold ending. destruct (rd_refused r) as [e|] eqn:Er; exists [], (r :: rounds); cbn.
      * split_and!; try done; [lia|]. exists r, rounds. split_and!; try done. by right.
      * split_and!; try done; [lia|]. by exists r, rounds.
    + specialize (IH (i + 1) ltac:(lia)). destruct (exchange_from tell (i + 1) count rounds) as [l x].
      destruct IH as (good & rest & -> & Hg & -> & Hle & Hx). exists (r :: good), rest. cbn [map length app].
      assert (round_line r = NoReplyLine) as -> by (unfold round_line; by rewrite Ep).
      split_and!; [done | constructor; [split; congruence | done] | done | lia |]. by apply exchange_shift.
Qed.

(** How the command ends.  The loop goes on behind each message that was sent and
    was answered or waited for in vain, and logs a line for each; it ends with
    status 0 behind exactly the number asked for, never for an endless run; with
    status 3 exactly when the circuit had refused a reply, and the class of that
    refusal is the last line; with status 1 when a send failed or the replies
    were closed without a refusal. *)
Theorem exchange_ends tell count rounds : let '(lines, x) := exchange tell count rounds in
  exists good rest, rounds = good ++ rest /\ Forall goes_on good /\ lines = map round_line good /\
    match x with
    | None => rest = [] /\ (count = 0 \/ Z.of_nat (length good) < count)
    | Some (code, AllSent) => code = 0 /\ count <> 0 /\ Z.of_nat (length good) = Z.max 0 count
    | Some (code, SendFailed t) => code = 1 /\ exists r f rest', rest = r :: rest' /\ rd_send r = Some f /\ t = tell f /\ rd_refused r = None
    | Some (code, CircuitClosed) => code = 1 /\ exists r rest', rest = r :: rest' /\ rd_send r = None /\ rd_reply r = RepliesClosed /\ rd_refused r = None
    | Some (code, CircuitRefused e) => code = exitRefused /\ exists r rest', rest = r :: rest' /\ rd_refused r = Some e /\
        (rd_send r <> None \/ rd_reply r = RepliesClosed)
    end.
Proof.
  pose proof (exchange_from_spec tell 0 count rounds ltac:(lia)) as H. unfold exchange. destruct (exchange_from tell 0 count rounds) as [l x].
  destruct H as (good & rest & H1 & H2 & H3 & _ & H4). exists good, rest. unfold ends_with in H4. rewrite Z.sub_0_r in H4. by split_and!.
Qed.

(** ** Tests and witnesses *)

Module CommandRuns.
Import ToySuite PkiDemo.

Definition nodes : list byte := ["a"; "b"; "c"]%byte.

(** A node signs its own descriptor again before the others have fetched it. *)
Definition fresher (n : byte) : Descriptor :=
  let d := {| de_Suite := SuiteC25519; de_Epoch := 1; de_Published := start + 60; de_Expires := start + 3660;
              de_CertHash := Hash (Cert_Marshal (cert n)); de_LinkPub := seed n; de_OnionPub := seed n; de_Sig := [] |} in
  descriptor_with_sig (sign n (message (SDescriptor d))) d.

Definition fresh_bundle (n : byte) : bytes :=
  Bundle_Marshal {| bu_V := Version; bu_Suite := Suite_String SuiteC25519; bu_Cert := Cert_Marshal (cert n);
                    bu_Descriptor := Descriptor_Marshal (fresher n) |}.

Definition mirror_of (e : byte) : bytes :=
  match MarshalMirror (map (fun n => {| me_Addr := addr_of n; me_Bundle := if bool_decide (n = e) then fresh_bundle n else bundle n |}) nodes) with
  | Ok m => m
  | Err _ => []
  end.

Definition url_of (n : byte) : bytes := str "http://" ++ [n] ++ str ".relay:9100/descriptors".

Definition mirrors : list (bytes * bytes) := Eval vm_compute in map (fun n => (url_of n, mirror_of n)) nodes.

(** The first connection fails, the second is answered, by each node with its own mirror. *)
Definition web (url : bytes) : list Fetch.Answer :=
  [Failed (Other "refused"); Answered 200 (snd <$> List.find (fun m => bool_decide (fst m = url)) mirrors)].

Definition sel (fixed : bool) : selection :=
  {| sl_addrs := map addr_of nodes; sl_hops := 2; sl_fixed := fixed; sl_missing := 1; sl_infoPort := str "9100";
     sl_auth := true; sl_trust := policy; sl_attempts := fetchAttempts |}.

Definition shell (draws : list Z) : Shell := {| sh_rnd := stream draws; sh_log := []; sh_asked := [] |}.

Lemma checked fixed : checkNodes (sl_addrs (sel fixed)) (sl_hops (sel fixed)) (sl_infoPort (sel fixed)) world = (Ok tt, world).
Proof. vm_compute. reflexivity. Qed.

Definition path_of (x : (result chainError (list Node) * Shell) * World) : option (list bytes) :=
  match fst (fst x) with Ok nodes => Some (map nd_Addr nodes) | Err _ => None end.

(** Two draws of different paths log the same lines; a stuck source is refused. *)
Example drawn_alike :
  let a := chain web (sel false) noon (shell [4; 3]) world in
  let b := chain web (sel false) noon (shell [5; 2]) world in
  path_of a = Some (map addr_of ["b"; "c"]%byte) /\
  path_of b = Some (map addr_of ["c"; "a"]%byte) /\
  sh_log (snd (fst a)) = sh_log (snd (fst b)) /\ length (sh_log (snd (fst a))) = 4%nat /\
  sh_asked (snd (fst a)) = [str "http://b.relay:9100/descriptors"].
Proof. vm_compute. auto. Qed.

Example fixed_first :
  path_of (chain web (sel true) noon (shell []) world) = Some (map addr_of ["a"; "b"]%byte).
Proof. vm_compute. reflexivity. Qed.

Example lists : splitList (str " a:1, b:2 ,,") = [str "a:1"; str "b:2"].
Proof. vm_compute. reflexivity. Qed.

Lemma comes : is_ok (fst (fst (chain web (sel false) noon (shell [4; 3]) world))) = true.
Proof. vm_compute. reflexivity. Qed.




Abbreviation answer_of := (fun n => fst (Fetch_Mirror fetchAttempts (web (url_of n)))).



(** The mirrors differ, and so would lines with the times of the descriptors. *)
Example mirrors_differ : NoDup (map snd mirrors) /\
  map (fun e => match Fetch_Mirror fetchAttempts (web (url_of e)) with
                | (Ok es, _) => map (fun it => match fst (Verify policy (me_Addr it) (me_Bundle it) noon world) with Ok v => ve_DescUntil v - start | Err _ => 0 end) es
                | _ => [] end) nodes = [[3660; 3650; 3650]; [3650; 3660; 3650]; [3650; 3650; 3660]].
Proof. split; [apply (bool_decide_unpack _); vm_compute; exact I | vm_compute; reflexivity]. Qed.

Lemma short : Z.of_nat (length (sl_addrs (sel false))) < 2 ^ 63.
Proof. reflexivity. Qed.

End CommandRuns.

Import ToySuite.

Lemma chain_sound_witness :
  exists nodes sh w url, chain CommandRuns.web (CommandRuns.sel false) PkiDemo.noon (CommandRuns.shell [4; 3]) PkiDemo.world = ((Ok nodes, sh), w) /\
    sh_asked sh = [url] /\ length nodes = 2%nat /\ NoDup (map nd_Addr nodes).
Proof.
  pose proof CommandRuns.comes as Hok.
  destruct (chain CommandRuns.web (CommandRuns.sel false) PkiDemo.noon (CommandRuns.shell [4; 3]) PkiDemo.world) as [[[nodes|e] sh] w] eqn:E; [|discriminate Hok].
  destruct (chain_sound CommandRuns.web (CommandRuns.sel false) _ _ _ _ _ _ _ PkiDemo.world_sound (CommandRuns.checked false) eq_refl CommandRuns.short E)
    as (ea & url & entries & _ & _ & Hask & _ & _ & Hlen & Hnd & _).
  exists nodes, sh, w, url. split; [reflexivity|]. split; [exact Hask|]. split; [|exact Hnd].
  apply Nat2Z.inj. exact Hlen.
Defined.

