(* ===== verification/Paths.v ===== *)
(** * Paths: paths sampled the way a client draws its chain

    Models [src/lab/seed.go], [src/lab/paths.go] and the configuration of
    [src/cmd/lab/paths.go]: the seeds of the sampled streams, the paths a client
    draws with full mirrors and with mirrors that lack nodes, and which of them the
    nodes set up.  The generator of package math/rand is an argument: the bytes it
    gives for a seed.  A number of samples below zero, which nothing calls for, counts
    as none ([SamplePaths] in Go then fails to make its slice); whole numbers are those
    of the code as long as the number of nodes fits 63 bits. *)

From Stdlib Require Import Strings.Byte Strings.String.
From S2P Require Import Prelude Effects State Choose.

(** ** Seeds *)

Definition streamPaths : Z := 3.

Definition splitmix64 (x : Z) : Z :=
  let x := u64 (x + 0x9e3779b97f4a7c15) in
  let x := u64 (Z.lxor x (Z.shiftr x 30) * 0xbf58476d1ce4e5b9) in
  let x := u64 (Z.lxor x (Z.shiftr x 27) * 0x94d049bb133111eb) in
  Z.lxor x (Z.shiftr x 31).

(** The parts mixed into a word. *)
Definition mixed (seed : Z) (parts : list Z) : Z := foldl (fun x p => splitmix64 (Z.lxor x (splitmix64 p))) (u64 seed) parts.

Definition Derive (seed : Z) (parts : list Z) : Z := Z.shiftr (splitmix64 (mixed seed parts)) 1.

(** ** Sampled paths *)

Section Sample.
Context (Rand : Z -> bytes).

(** A computation on the source as often as there are samples. *)
Fixpoint sampled {A} (n : nat) (m : ST bytes A) : ST bytes (list A) :=
  match n with
  | O => retS []
  | S n =>
      let* a := m in
      let* l := sampled n m in
      retS (a :: l)
  end.

(** A run on a stream of its own. *)
Definition on_stream {A} (seed : Z) (m : ST bytes A) : M A := fun w =>
  let '((r, _), w) := m (Rand (Derive seed [streamPaths])) w in (r, w).

Definition SamplePaths (nodes hops samples seed : Z) : M (list (list Z)) :=
  on_stream seed (sampled (Z.to_nat samples) (Choose nodes hops)).

(** The nodes that an entry serves and where it stands among them; 0 if it does not
    serve itself. *)
Fixpoint serves (entry node : Z) (mirror : list bool) (held : list Z) (place : Z) : list Z * Z :=
  match mirror with
  | [] => (held, place)
  | served :: mirror =>
      if negb served then serves entry (node + 1) mirror held place
      else serves entry (node + 1) mirror (held ++ [node]) (if node =? entry then Z.of_nat (length held) else place)
  end.

Record Entry : Type := { en_held : list Z; en_place : Z; en_taken : bool }.

Definition entry_of (entry hops missing : Z) (mirror : list bool) : Entry :=
  let '(held, place) := serves entry 0 mirror [] 0 in
  let '(verdict, _, _) := JudgeMirror mirror entry hops missing in
  {| en_held := held; en_place := place; en_taken := bool_decide (verdict = MirrorTaken) |}.

Fixpoint entries_from (nodes entry hops missing : Z) (mirrors : list (list bool)) : res (list Entry) :=
  match mirrors with
  | [] => Ok []
  | mirror :: mirrors =>
      if negb (Z.of_nat (length mirror) =? nodes) then Err (Other "lab: the mirror of a node covers another number of nodes")
      else
        let? es := entries_from nodes (entry + 1) hops missing mirrors in
        Ok (entry_of entry hops missing mirror :: es)
  end.

(** One attempt, [None] when the mirror is refused. *)
Definition attempt (nodes hops : Z) (entries : list Entry) : ST bytes (option (list Z)) :=
  let* entry := ChooseEntry nodes in
  match entries !! Z.to_nat entry with
  | Some e =>
      if negb (en_taken e) then retS None
      else
        let* path := ChooseRest (en_place e) (Z.of_nat (length (en_held e))) hops in
        retS (Some (map (fun i => nth (Z.to_nat i) (en_held e) 0) path))
  | None => failS (Other "index out of range")
  end.

Fixpoint given {A} (l : list (option A)) : list A :=
  match l with
  | [] => []
  | Some a :: l => a :: given l
  | None :: l => given l
  end.

Definition count_none {A} (l : list (option A)) : Z := Z.of_nat (length l) - Z.of_nat (length (given l)).

Definition SampleMirrorPaths (mirrors : list (list bool)) (hops missing samples seed : Z) : M (list (list Z) * Z) :=
  let nodes := Z.of_nat (length mirrors) in
  if (hops <? 1) || (nodes <? hops) then failM (Sentinel client_ErrChoice)
  else if (missing <? 0) || (samples <? 0) then failM (Other "lab: must not be negative")
  else
    let! entries := lift (entries_from nodes 0 hops missing mirrors) in
    let! attempts := on_stream seed (sampled (Z.to_nat samples) (attempt nodes hops entries)) in
    retM (given attempts, count_none attempts).

End Sample.

(** ** Which of them come up *)

(** Whether every node extends to the next, [before] the first if there is one; a node
    that is none of the network is an error wherever it stands. *)
Fixpoint extended_from (extends : list (list bool)) (before : option Z) (path : list Z) : res bool :=
  match path with
  | [] => Ok true
  | node :: path =>
      if (node <? 0) || (Z.of_nat (length extends) <=? node) then Err (Other "lab: a node on a path among others")
      else
        let? rest := extended_from extends (Some node) path in
        Ok (match before with
            | Some x => (extends !!! Z.to_nat x) !!! Z.to_nat node && rest
            | None => rest
            end)
  end.

Fixpoint survive (extends : list (list bool)) (paths : list (list Z)) : res (list (list Z) * Z) :=
  match paths with
  | [] => Ok ([], 0)
  | path :: paths =>
      let? extended := extended_from extends None path in
      let? (up, failed) := survive extends paths in
      Ok (if extended : bool then (path :: up, failed) else (up, failed + 1))
  end.

Definition SurvivingPaths (paths : list (list Z)) (extends : list (list bool)) : res (list (list Z) * Z) :=
  if negb (forallb (fun row => (length row =? length extends)%nat) extends) then Err (Other "lab: a node extends to one of another number of nodes")
  else survive extends paths.

(** ** The network of an experiment *)

Record pathsConfig : Type := {
  pc_nodes : Z; pc_hops : Z; pc_rogue : Z; pc_missing : Z; pc_leftOut : Z; pc_withheld : Z; pc_samples : Z; pc_seed : Z
}.

Definition mirrorsOf (c : pathsConfig) : list (list bool) :=
  map (fun entry => map (fun node => if entry <? pc_rogue c then node <? pc_nodes c - pc_leftOut c else pc_withheld c <=? node)
                      (seqZ 0 (pc_nodes c))) (seqZ 0 (pc_nodes c)).

Definition extendsOf (c : pathsConfig) : list (list bool) :=
  imap (fun node row => if Z.of_nat node <? pc_rogue c then map (fun _ => true) row else row) (mirrorsOf c).

(** The checks of [samplePaths]. *)
Definition checkPaths (c : pathsConfig) : res unit :=
  if pc_samples c <? 1 then Err (Other "-samples: want at least 1")
  else if (pc_rogue c <? 0) || (pc_nodes c <? pc_rogue c) then Err (Other "-rogue: want between 0 and -nodes")
  else if pc_missing c <? 0 then Err (Other "-missing: must not be negative")
  else if (pc_leftOut c <? 0) || (pc_nodes c - pc_rogue c <? pc_leftOut c) then Err (Other "-leftout: want between 0 and the honest nodes")
  else if (pc_withheld c <? 0) || (pc_rogue c <? pc_withheld c) then Err (Other "-withhold: want between 0 and -rogue")
  else Ok tt.

(** ** The mixing of seeds *)

(** [x ^ (x >> k)] and what undoes it where [3 * k] bits are all there are. *)
Definition xorshift (k x : Z) : Z := Z.lxor x (Z.shiftr x k).
Definition unxorshift (k y : Z) : Z := Z.lxor (Z.lxor y (Z.shiftr y k)) (Z.shiftr y (2 * k)).

Definition unmix64 (y : Z) : Z :=
  let x := u64 (unxorshift 31 y * 0x319642b2d24d8ec3) in
  let x := u64 (unxorshift 27 x * 0x96de1b173f119089) in
  u64 (unxorshift 30 x - 0x9e3779b97f4a7c15).

Definition word (x : Z) : Prop := 0 <= x < 2 ^ 64.

Lemma u64_word x : word (u64 x).
Proof. apply Z.mod_pos_bound. lia. Qed.

Lemma word_u64 x : word x -> u64 x = x.
Proof. apply Z.mod_small. Qed.

Lemma word_high x i : word x -> 64 <= i -> Z.testbit x i = false.
Proof. intros Hx Hi. rewrite <- (word_u64 x Hx). by apply Z.mod_pow2_bits_high. Qed.

Lemma word_lxor x y : word x -> word y -> word (Z.lxor x y).
Proof.
  intros Hx Hy. assert (Z.lxor x y = u64 (Z.lxor x y)) as ->; [|apply u64_word].
  apply Z.bits_inj'. intros i Hi. destruct (Z.lt_ge_cases i 64).
  - unfold u64. by rewrite Z.mod_pow2_bits_low by lia.
  - unfold u64. rewrite Z.mod_pow2_bits_high by lia. by rewrite Z.lxor_spec, !word_high.
Qed.

Lemma word_shiftr x k : 0 <= k -> word x -> word (Z.shiftr x k).
Proof.
  intros Hk [H0 H1]. rewrite Z.shiftr_div_pow2 by done. pose proof (Z.pow_pos_nonneg 2 k ltac:(lia) Hk).
  split; [by apply Z.div_pos|]. apply Z.le_lt_trans with x; [|done]. apply Z.div_le_upper_bound; nia.
Qed.

Lemma xorshift_word k x : 0 <= k -> word x -> word (xorshift k x).
Proof. intros. by apply word_lxor, word_shiftr. Qed.

Lemma unxorshift_word k x : 0 <= k -> word x -> word (unxorshift k x).
Proof. intros. apply word_lxor; [by apply xorshift_word | apply word_shiftr; [lia | done]]. Qed.

Lemma xorshift_inverse k x : 22 <= k -> word x -> unxorshift k (xorshift k x) = x /\ xorshift k (unxorshift k x) = x.
Proof.
  intros Hk Hx. unfold unxorshift, xorshift. split; apply Z.bits_inj'; intros i Hi; rewrite !Z.lxor_spec, !Z.shiftr_spec, !Z.lxor_spec by lia;
    rewrite !Z.shiftr_spec by lia; replace (i + 2 * k + k) with (i + 3 * k) by lia;
    replace (i + k + k) with (i + 2 * k) by lia; replace (i + k + 2 * k) with (i + 3 * k) by lia;
    rewrite (word_high x (i + 3 * k)) by (done || lia);
    by destruct (Z.testbit x i), (Z.testbit x (i + k)), (Z.testbit x (i + 2 * k)).
Qed.

(** Multiplying by an odd constant is undone by its inverse. *)
Lemma mul_inverse a b x : word x -> u64 (a * b) = 1 -> u64 (u64 (x * a) * b) = x.
Proof.
  intros Hx Hab. unfold u64 in *. rewrite Z.mul_mod_idemp_l by lia. rewrite <- Z.mul_assoc, <- Z.mul_mod_idemp_r, Hab, Z.mul_1_r by lia.
  by apply word_u64.
Qed.

Lemma add_inverse a x : word x -> u64 (u64 (x + a) - a) = x /\ u64 (u64 (x - a) + a) = x.
Proof.
  intros Hx. unfold u64. rewrite Zminus_mod_idemp_l, Zplus_mod_idemp_l, Z.add_simpl_r, Z.sub_simpl_r. split; by apply word_u64.
Qed.

Lemma splitmix64_steps x : splitmix64 x =
  xorshift 31 (u64 (xorshift 27 (u64 (xorshift 30 (u64 (x + 0x9e3779b97f4a7c15)) * 0xbf58476d1ce4e5b9)) * 0x94d049bb133111eb)).
Proof. done. Qed.

Ltac words := first [reflexivity | by repeat first [assumption | apply u64_word | apply xorshift_word | apply unxorshift_word | lia]].

(** No two seeds give one stream by the mixing itself: [splitmix64] is a permutation
    of the 64-bit words, with [unmix64] its inverse. *)
Theorem splitmix64_bijective x : word x ->
  word (splitmix64 x) /\ word (unmix64 x) /\ unmix64 (splitmix64 x) = x /\ splitmix64 (unmix64 x) = x.
Proof.
  intros Hx. split; [rewrite splitmix64_steps; words|]. split; [apply u64_word|]. split.
  - rewrite splitmix64_steps. unfold unmix64. rewrite (proj1 (xorshift_inverse 31 _ ltac:(lia) (u64_word _))).
    rewrite mul_inverse by words.
    rewrite (proj1 (xorshift_inverse 27 _ ltac:(lia) (u64_word _))).
    rewrite mul_inverse by words.
    rewrite (proj1 (xorshift_inverse 30 _ ltac:(lia) (u64_word _))). by apply add_inverse.
  - rewrite splitmix64_steps. unfold unmix64. rewrite (proj2 (add_inverse _ _ (unxorshift_word 30 _ ltac:(lia) (u64_word _)))).
    rewrite (proj2 (xorshift_inverse 30 _ ltac:(lia) (u64_word _))).
    rewrite mul_inverse by words.
    rewrite (proj2 (xorshift_inverse 27 _ ltac:(lia) (u64_word _))).
    rewrite mul_inverse by words. by apply xorshift_inverse.
Qed.

Lemma splitmix64_inj x y : word x -> word y -> splitmix64 x = splitmix64 y -> x = y.
Proof.
  intros Hx Hy H. destruct (splitmix64_bijective x Hx) as (_ & _ & <- & _). rewrite H. by destruct (splitmix64_bijective y Hy) as (_ & _ & ? & _).
Qed.

Lemma lxor_cancel x y z : Z.lxor x y = Z.lxor x z -> y = z.
Proof.
  intros H. assert (Z.lxor x (Z.lxor x y) = Z.lxor x (Z.lxor x z)) as Hxx by (by rewrite H).
  by rewrite <- !Z.lxor_assoc, Z.lxor_nilpotent, !Z.lxor_0_l in Hxx.
Qed.

(** The streams of a run do not share values: different parts at one place give
    different words, whatever the parts behind, and so do different seeds; the shift
    of the result folds at most two of them. *)
Theorem mixed_apart seed seed' p q parts : word seed -> word seed' -> word p -> word q -> Forall word parts ->
  (mixed seed (p :: parts) = mixed seed (q :: parts) -> p = q) /\ (mixed seed parts = mixed seed' parts -> seed = seed') /\
  word (mixed seed parts).
Proof.
  intros Hs Hs' Hp Hq. unfold mixed. rewrite (word_u64 seed), (word_u64 seed') by done.
  assert (forall x y, word x -> word y -> word (splitmix64 (Z.lxor x (splitmix64 y)))) as Hw
    by (intros; by apply splitmix64_bijective, word_lxor, splitmix64_bijective).
  assert (forall ps x y, Forall word ps -> word x -> word y -> let f := fun x p => splitmix64 (Z.lxor x (splitmix64 p)) in
    (foldl f x ps = foldl f y ps -> x = y) /\ word (foldl f x ps)) as Hf.
  { induction ps as [|r rs IH]; [done|]. intros x y [Hr Hrs]%Forall_cons Hx Hy. cbn [foldl].
    destruct (IH _ _ Hrs (Hw x r Hx Hr) (Hw y r Hy Hr)) as [IH1 IH2]. split; [|done]. intros H%IH1%splitmix64_inj;
      [|by apply word_lxor, splitmix64_bijective..]. rewrite !(Z.lxor_comm _ (splitmix64 r)) in H. by apply lxor_cancel in H. }
  intros Hparts. split; [|by apply Hf]. cbn [foldl]. intros H. apply Hf in H; [|done | by apply Hw..].
  apply splitmix64_inj in H; [|by apply word_lxor, splitmix64_bijective..]. apply lxor_cancel in H. by apply splitmix64_inj.
Qed.

(** ** Mirrors that hold every node *)

Lemma serves_full entry n : forall node held place, serves entry node (replicate n true) held place =
  (held ++ seqZ node (Z.of_nat n), if (node <=? entry) && (entry <? node + Z.of_nat n) then Z.of_nat (length held) + (entry - node) else place).
Proof.
  induction n as [|n IH]; intros node held place; cbn [replicate serves negb].
  - rewrite Z.add_0_r. destruct (Z.leb_spec node entry), (Z.ltb_spec entry node); try lia; cbn [andb]; by rewrite app_nil_r.
  - rewrite IH, (seqZ_cons node) by lia. rewrite <- app_assoc, length_app. cbn [app length]. rewrite Nat2Z.inj_succ, Z.pred_succ.
    replace (node + 1) with (Z.succ node) by lia. f_equal.
    destruct (Z.leb_spec node entry), (Z.leb_spec (Z.succ node) entry), (Z.ltb_spec entry (Z.succ node + Z.of_nat n)),
      (Z.ltb_spec entry (node + Z.succ (Z.of_nat n))), (Z.eqb_spec node entry); cbn [andb]; lia.
Qed.

Lemma count_absent_full n : count_absent (replicate n true) = 0.
Proof. rewrite count_absent_spec, length_replicate. assert (List.filter id (replicate n true) = replicate n true) as -> by (by induction n; cbn; f_equal). rewrite length_replicate. lia. Qed.

(** The entry of a full mirror. *)
Lemma entry_of_full entry hops missing n : 0 <= entry < Z.of_nat n -> 1 <= hops <= Z.of_nat n -> Z.of_nat n < 2 ^ 63 -> 0 <= missing ->
  entry_of entry hops missing (replicate n true) = {| en_held := seqZ 0 (Z.of_nat n); en_place := entry; en_taken := true |}.
Proof.
  intros He Hh Hn Hm. unfold entry_of. rewrite serves_full. cbn [app length]. unfold JudgeMirror. rewrite length_replicate, count_absent_full.
  rewrite lookup_total_replicate_2 by lia. unfold MaxAbsent, i64. rewrite (Z.mod_small _ (2 ^ 64)) by lia.
  destruct (Z.leb_spec 0 entry), (Z.ltb_spec entry (0 + Z.of_nat n)); try lia. cbn [andb].
  destruct (Z.ltb_spec entry 0), (Z.leb_spec (Z.of_nat n) entry); try lia. cbn [orb negb].
  destruct (Z.ltb_spec (Z.min missing (Z.of_nat n - hops + 2 ^ 63 - 2 ^ 63)) 0); [lia|]. cbn. f_equal. lia.
Qed.

Lemma entries_from_ok nodes hops missing mirrors : forall k es, entries_from nodes k hops missing mirrors = Ok es <->
  Forall (fun m => Z.of_nat (length m) = nodes) mirrors /\ es = imap (fun i => entry_of (k + Z.of_nat i) hops missing) mirrors.
Proof.
  induction mirrors as [|m mirrors IH]; intros k es; cbn [entries_from imap].
  - split; [by intros [= <-] | by intros [_ ->]].
  - rewrite Forall_cons. destruct (Z.eqb_spec (Z.of_nat (length m)) nodes); cbn [negb]; [|split; [done | by intros [[? _] _]]].
    assert (imap ((fun i => entry_of (k + Z.of_nat i) hops missing) ∘ S) mirrors = imap (fun i => entry_of (k + 1 + Z.of_nat i) hops missing) mirrors) as E.
    { apply imap_ext. intros i x _. cbn. f_equal. lia. }
    rewrite Z.add_0_r, E. split.
    + intros (es' & [Hf ->]%IH & [= <-])%rbind_ok. by split.
    + intros [[_ Hf] ->]. by rewrite (proj2 (IH (k + 1) _) (conj Hf eq_refl)).
Qed.

(** One computation on the source as another with its result changed. *)
Lemma sampled_map {A B} (f : A -> B) (m : ST bytes A) (m' : ST bytes B) n :
  (forall s w, m' s w = match m s w with ((Ok a, s'), w') => ((Ok (f a), s'), w') | ((Err e, s'), w') => ((Err e, s'), w') end) ->
  forall s w, sampled n m' s w = match sampled n m s w with ((Ok l, s'), w') => ((Ok (map f l), s'), w') | ((Err e, s'), w') => ((Err e, s'), w') end.
Proof.
  intros Hm. induction n as [|n IH]; intros s w; [done|]. cbn [sampled]. unfold bindS. rewrite Hm.
  destruct (m s w) as [[[a|e] s1] w1]; [|done]. rewrite IH. by destruct (sampled n m s1 w1) as [[[l|e] s2] w2].
Qed.

(** The nodes of a path drawn among all, by their places among all. *)
Lemma same_nodes n hops p : is_path n hops p -> map (fun i => nth (Z.to_nat i) (seqZ 0 n) 0) p = p.
Proof.
  intros (_ & Hr & _). induction Hr as [|x p Hx _ IH]; [done|]. cbn [map]. rewrite IH. f_equal.
  assert (seqZ 0 n !! Z.to_nat x = Some x) as E by (rewrite lookup_seqZ; lia).
  by apply nth_lookup_Some.
Qed.

Lemma attempt_full n hops missing : 1 <= hops <= Z.of_nat n -> Z.of_nat n < 2 ^ 63 -> 0 <= missing ->
  forall s w, attempt (Z.of_nat n) hops (imap (fun i => entry_of (Z.of_nat i) hops missing) (replicate n (replicate n true))) s w =
    match Choose (Z.of_nat n) hops s w with ((Ok p, s'), w') => ((Ok (Some p), s'), w') | ((Err e, s'), w') => ((Err e, s'), w') end.
Proof.
  intros Hh Hn Hm s w. unfold Choose, attempt. rewrite (proj2 (Z.ltb_ge hops 1)), (proj2 (Z.ltb_ge (Z.of_nat n) hops)) by lia. cbn [orb].
  unfold ChooseEntry. rewrite (proj2 (Z.ltb_ge (Z.of_nat n) 1)) by lia. unfold bindS at 1 3.
  destruct (below_takes (Z.of_nat n) ltac:(lia) s w) as (r & s1 & Hb & _ & _ & _ & Hok). rewrite Hb.
  destruct r as [entry|e]; [|done]. specialize (Hok entry eq_refl).
  rewrite list_lookup_imap, lookup_replicate_2 by lia. cbn [fmap option_fmap option_map]. rewrite Z2Nat.id by lia.
  rewrite entry_of_full by lia. cbn [en_taken en_held en_place negb]. rewrite length_seqZ, Nat2Z.id. unfold bindS.
  destruct (ChooseRest_ends entry (Z.of_nat n) hops Hh Hn Hok s1 w) as (rr & s2 & Hr & _ & _ & _ & Hpath). rewrite Hr.
  destruct rr as [p|e]; [|done]. destruct (Hpath p eq_refl) as [Hp _]. unfold retS. by rewrite (same_nodes _ _ _ Hp).
Qed.

Lemma given_all {A} (l : list A) : given (map Some l) = l /\ count_none (map Some l) = 0.
Proof.
  assert (given (map Some l) = l) as E by (induction l; cbn; [done | by f_equal]). split; [done|].
  unfold count_none. rewrite E, length_map. lia.
Qed.

(** With full mirrors the sampled paths are the client's own choice: for every seed
    and every number of samples, [SampleMirrorPaths] reads the same values off the
    stream as [SamplePaths], refuses nothing, gives the same paths in the same order,
    and fails where it fails with the same error, however many nodes a mirror would
    have been allowed to lack. *)
Theorem full_mirrors_same Rand n hops missing samples seed w : 1 <= hops <= Z.of_nat n -> Z.of_nat n < 2 ^ 63 -> 0 <= missing -> 0 <= samples ->
  SampleMirrorPaths Rand (replicate n (replicate n true)) hops missing samples seed w =
  match SamplePaths Rand (Z.of_nat n) hops samples seed w with
  | (Ok paths, w') => (Ok (paths, 0), w')
  | (Err e, w') => (Err e, w')
  end.
Proof.
  intros Hh Hn Hm Hs. unfold SampleMirrorPaths, SamplePaths. rewrite length_replicate.
  rewrite (proj2 (Z.ltb_ge hops 1)), (proj2 (Z.ltb_ge (Z.of_nat n) hops)), (proj2 (Z.ltb_ge missing 0)), (proj2 (Z.ltb_ge samples 0)) by lia.
  cbn [orb]. set (es := imap (fun i => entry_of (0 + Z.of_nat i) hops missing) (replicate n (replicate n true))).
  assert (entries_from (Z.of_nat n) 0 hops missing (replicate n (replicate n true)) = Ok es) as ->.
  { apply entries_from_ok. split; [|done]. apply Forall_replicate. by rewrite length_replicate. }
  unfold bindM, lift, on_stream. rewrite (sampled_map Some (Choose (Z.of_nat n) hops) _ _ (attempt_full n hops missing Hh Hn Hm)).
  destruct (sampled _ (Choose _ _) _ w) as [[[paths|e] s1] w1]; [|done]. cbn. destruct (given_all paths) as [-> ->]. done.
Qed.

(** ** Mirrors that lack nodes *)

(** What [serves] gathers: the served nodes in the listed order, and the place of the entry. *)
Lemma serves_ok entry mirror : forall node held place, 0 <= node -> NoDup held -> Forall (fun x => x < node) held ->
  let '(h, p) := serves entry node mirror held place in
  (exists more, h = held ++ more) /\ NoDup h /\
  (forall x, x ∈ h <-> x ∈ held \/ (node <= x /\ mirror !! Z.to_nat (x - node) = Some true)) /\
  (if decide (node <= entry /\ mirror !! Z.to_nat (entry - node) = Some true)
   then 0 <= p /\ h !! Z.to_nat p = Some entry else p = place).
Proof.
  induction mirror as [|b mirror IH]; intros node held place Hn Hnd Hlt; cbn [serves].
  { split; [exists []; by rewrite app_nil_r|]. split; [done|]. split; [intros x; rewrite lookup_nil; naive_solver|].
    rewrite decide_False; [done|]. by intros [_ ?]. }
  assert (forall x, node <= x /\ (b :: mirror) !! Z.to_nat (x - node) = Some true <->
    x = node /\ b = true \/ node + 1 <= x /\ mirror !! Z.to_nat (x - (node + 1)) = Some true) as Hsplit.
  { intros x. destruct (Z.eq_dec x node) as [->|Hne].
    - rewrite Z.sub_diag. cbn. split; [intros [_ [= ->]]; by left | intros [[_ ->]|[? _]]; [done | lia]].
    - destruct (Z.le_gt_cases (node + 1) x) as [Hle|Hgt]; [|split; [intros [? _]; lia | intros [[? _]|[? _]]; lia]].
      replace (Z.to_nat (x - node)) with (S (Z.to_nat (x - (node + 1)))) by lia. cbn.
      split; [intros [_ ?]; by right | intros [[? _]|[_ ?]]; [done | split; [lia | done]]]. }
  destruct b; cbn [negb].
  - specialize (IH (node + 1) (held ++ [node]) (if node =? entry then Z.of_nat (length held) else place) ltac:(lia)).
    destruct (serves entry (node + 1) mirror _ _) as [h p]. destruct IH as ((more & ->) & H1 & H2 & H3).
    + apply NoDup_app. split_and!; [done | | apply NoDup_singleton]. intros x Hx ->%list_elem_of_singleton.
      pose proof (proj1 (Forall_forall _ _) Hlt node Hx). cbn in *. lia.
    + apply Forall_app. split; [eapply Forall_impl; [exact Hlt|]; cbn; lia | constructor; [lia | constructor]].
    + split; [exists (node :: more); by rewrite <- app_assoc|]. split; [done|]. split.
      { intros x. rewrite H2, Hsplit, elem_of_app, list_elem_of_singleton. naive_solver. }
      rewrite (decide_ext _ _ _ _ (Hsplit entry)). case_decide as Hd; [by rewrite decide_True by (by right)|].
      destruct (Z.eqb_spec node entry) as [->|Hne]; [|rewrite decide_False; [done|]; intros [[? _]|?]; [congruence | done]].
      rewrite decide_True by (by left). subst p. split; [lia|]. rewrite Nat2Z.id, <- app_assoc, lookup_app_r, Nat.sub_diag by lia. done.
  - specialize (IH (node + 1) held place ltac:(lia) Hnd). destruct (serves entry (node + 1) mirror held place) as [h p].
    destruct IH as (H0 & H1 & H2 & H3); [eapply Forall_impl; [exact Hlt|]; cbn; lia|]. split; [done|]. split; [done|]. split.
    + intros x. rewrite H2, Hsplit. naive_solver.
    + rewrite (decide_ext _ _ _ _ (Hsplit entry)). case_decide as Hd; [by rewrite decide_True by (by right)|].
      rewrite decide_False; [done|]. by intros [[_ ?]|?].
Qed.

Lemma entry_of_ok entry hops missing mirror : 0 <= entry -> let e := entry_of entry hops missing mirror in
  NoDup (en_held e) /\ (forall x, x ∈ en_held e <-> 0 <= x /\ mirror !! Z.to_nat x = Some true) /\
  (en_taken e = true <-> fst (fst (JudgeMirror mirror entry hops missing)) = MirrorTaken) /\
  (en_taken e = true -> 0 <= en_place e /\ en_held e !! Z.to_nat (en_place e) = Some entry).
Proof.
  intros He. unfold entry_of. pose proof (serves_ok entry mirror 0 [] 0 ltac:(lia) ltac:(constructor) ltac:(constructor)) as H.
  destruct (serves entry 0 mirror [] 0) as [h p]. destruct H as (_ & H1 & H2 & H3).
  assert (fst (fst (JudgeMirror mirror entry hops missing)) = MirrorTaken -> mirror !! Z.to_nat entry = Some true) as Hserved.
  { unfold JudgeMirror. destruct (Z.ltb_spec entry 0), (Z.leb_spec (Z.of_nat (length mirror)) entry); cbn [orb]; [done..|].
    destruct (lookup_lt_is_Some_2 mirror (Z.to_nat entry)) as [b Hb]; [lia|]. rewrite (list_lookup_total_correct _ _ _ Hb), Hb. by destruct b. }
  destruct (JudgeMirror mirror entry hops missing) as [[v absent] allowed]. cbn in Hserved |- *.
  split; [done|]. split; [intros x; rewrite H2, Z.sub_0_r; set_solver|]. split; [by rewrite bool_decide_eq_true|].
  intros Hv%bool_decide_eq_true. rewrite Z.sub_0_r, decide_True in H3; [done|]. split; [done | by apply Hserved].
Qed.

(** A path that was drawn: of nodes its entry serves, by a mirror that is taken. *)
Definition drawn_from (mirrors : list (list bool)) (hops missing : Z) (p : list Z) : Prop :=
  exists entry mirror, mirrors !! Z.to_nat entry = Some mirror /\ 0 <= entry /\ head p = Some entry /\
    fst (fst (JudgeMirror mirror entry hops missing)) = MirrorTaken /\
    NoDup p /\ Z.of_nat (length p) = hops /\ Forall (fun x => 0 <= x /\ mirror !! Z.to_nat x = Some true) p.

(** The nodes behind a path of places. *)
Lemma placed_path held hops path place entry : NoDup held -> is_path (Z.of_nat (length held)) hops path -> head path = Some place ->
  held !! Z.to_nat place = Some entry ->
  let p := map (fun i => nth (Z.to_nat i) held 0) path in
  NoDup p /\ Z.of_nat (length p) = hops /\ Forall (fun x => x ∈ held) p /\ head p = Some entry.
Proof.
  intros Hnd (Hd & Hr & Hl) Hhead He p. subst p. rewrite length_map.
  assert (forall i, i ∈ path -> held !! Z.to_nat i = Some (nth (Z.to_nat i) held 0)) as Hat.
  { intros i Hi. pose proof (proj1 (Forall_forall _ _) Hr i Hi) as Hb. cbn in Hb.
    destruct (lookup_lt_is_Some_2 held (Z.to_nat i)) as [x Hx]; [lia|]. by rewrite (nth_lookup_Some _ _ 0 _ Hx). }
  split_and!; [|done | |].
  - apply (NoDup_fmap_2_strong (fun i => nth (Z.to_nat i) held 0) path); [|done]. intros i j Hi Hj E.
    assert (Z.to_nat i = Z.to_nat j) by (eapply NoDup_lookup; [exact Hnd | by apply Hat | rewrite E; by apply Hat]).
    pose proof (proj1 (Forall_forall _ _) Hr i Hi). pose proof (proj1 (Forall_forall _ _) Hr j Hj). cbn in *. lia.
  - apply Forall_map, Forall_forall. intros i Hi. eapply list_elem_of_lookup_2. by apply Hat.
  - destruct path; [done|]. injection Hhead as ->. cbn. by rewrite (nth_lookup_Some _ _ 0 _ He).
Qed.

Lemma below_length {A} (l : list A) x a : l !! Z.to_nat x = Some a -> x < 0 + Z.of_nat (length l).
Proof. intros H%lookup_lt_Some. lia. Qed.

Lemma attempt_ok mirrors hops missing s w r s' w' : 1 <= hops <= Z.of_nat (length mirrors) -> Z.of_nat (length mirrors) < 2 ^ 63 ->
  Forall (fun m => length m = length mirrors) mirrors ->
  attempt (Z.of_nat (length mirrors)) hops (imap (fun i => entry_of (0 + Z.of_nat i) hops missing) mirrors) s w = ((Ok r, s'), w') ->
  w' = w /\ (forall p, r = Some p -> drawn_from mirrors hops missing p).
Proof.
  intros Hh Hn Hall H. unfold attempt, ChooseEntry in H. rewrite (proj2 (Z.ltb_ge _ 1)) in H by lia. apply bindS_ok in H as (entry & s1 & w1 & Hb & H).
  destruct (below_takes (Z.of_nat (length mirrors)) ltac:(lia) s w) as (x & s2 & Hb' & _ & _ & _ & Hok). rewrite Hb' in Hb.
  injection Hb as -> <- <-. specialize (Hok entry eq_refl). rewrite list_lookup_imap in H.
  destruct (mirrors !! Z.to_nat entry) as [mirror|] eqn:Hm; [|done]. cbn [fmap option_fmap option_map] in H. rewrite Z.add_0_l, Z2Nat.id in H by lia.
  destruct (entry_of_ok entry hops missing mirror) as (H1 & H2 & H3 & H4); [lia|]. cbv zeta in *. set (e := entry_of entry hops missing mirror) in *.
  destruct (en_taken e) eqn:Ht; cbn [negb] in H; [|injection H as <- _ <-; by split]. specialize (H4 eq_refl) as [Hp0 Hp].
  apply bindS_ok in H as (path & s3 & w3 & Hr & H). apply retS_ok in H as (-> & _ & ->).
  pose proof (lookup_lt_Some _ _ _ Hp) as Hlt.
  assert (hops <= Z.of_nat (length (en_held e))) as Hlen.
  { unfold ChooseRest in Hr. destruct (Z.ltb_spec hops 1), (Z.ltb_spec (Z.of_nat (length (en_held e))) hops); cbn [orb] in Hr; (done || lia). }
  assert (length (en_held e) <= length mirrors)%nat as Hle.
  { pose proof (Forall_lookup_1 _ _ _ _ Hall Hm) as Hl. cbn in Hl.
    assert (en_held e ⊆+ seqZ 0 (Z.of_nat (length mirror))) as Hs.
    { apply NoDup_submseteq; [done|]. intros y [Hy0 Hy]%H2. apply elem_of_seqZ. apply below_length in Hy. lia. }
    apply submseteq_length in Hs.
    rewrite length_seqZ in Hs. lia. }
  destruct (ChooseRest_ends (en_place e) (Z.of_nat (length (en_held e))) hops ltac:(lia) ltac:(lia) ltac:(lia) s2 w) as (rr & s4 & Hr' & _ & _ & _ & Hpath).
  rewrite Hr in Hr'. injection Hr' as <- _ ->. destruct (Hpath path eq_refl) as [Hip Hhead]. split; [done|]. intros p [= <-].
  destruct (placed_path (en_held e) hops path (en_place e) entry H1 Hip Hhead Hp) as (P1 & P2 & P3 & P4).
  exists entry, mirror. split_and!; [done | lia | done | by apply H3 | done | done |].
  eapply Forall_impl; [exact P3|]. intros y Hy. by apply H2.
Qed.

Lemma sampled_ok {A} (m : ST bytes A) (ok : A -> Prop) n :
  (forall s w a s' w', m s w = ((Ok a, s'), w') -> w' = w /\ ok a) ->
  forall s w l s' w', sampled n m s w = ((Ok l, s'), w') -> w' = w /\ length l = n /\ Forall ok l.
Proof.
  intros Hm. induction n as [|n IH]; intros s w l s' w' H; cbn [sampled] in H; [by apply retS_ok in H as (-> & _ & ->)|].
  apply bindS_ok in H as (a & s1 & w1 & [-> Ha]%Hm & H). apply bindS_ok in H as (l1 & s2 & w2 & (-> & Hl & Hf)%IH & H).
  apply retS_ok in H as (-> & _ & ->). split; [done|]. split; [cbn; by rewrite Hl | by constructor].
Qed.

Lemma given_ok {A} (ok : A -> Prop) l : Forall (fun o => forall a, o = Some a -> ok a) l ->
  Forall ok (given l) /\ count_none l = Z.of_nat (length (filter (fun o => o = None) l)).
Proof.
  unfold count_none. induction 1 as [|[a|] l Ha _ [IH1 IH2]]; [done|..]; cbn [given]; rewrite filter_cons; cbn.
  - rewrite decide_False by done. split; [constructor; [by apply Ha | done] | cbn; lia].
  - rewrite decide_True by done. split; [done | cbn; lia].
Qed.

(** What a sample with mirrors that lack nodes consists of.  Every attempt gives a
    path or is refused, and the two are counted in full; each path starts at an entry
    whose mirror the client's own rule takes, and has the length asked for, no node
    twice, and only nodes that this entry serves, itself among them. *)
Lemma sampled_exact Rand mirrors hops missing samples seed w paths refused w' : Z.of_nat (length mirrors) < 2 ^ 63 ->
  SampleMirrorPaths Rand mirrors hops missing samples seed w = (Ok (paths, refused), w') ->
  w' = w /\ 0 <= refused /\ Z.of_nat (length paths) + refused = samples /\ Forall (drawn_from mirrors hops missing) paths.
Proof.
  intros Hn. unfold SampleMirrorPaths. destruct (Z.ltb_spec hops 1), (Z.ltb_spec (Z.of_nat (length mirrors)) hops); cbn [orb]; try done.
  destruct (Z.ltb_spec missing 0), (Z.ltb_spec samples 0); cbn [orb]; try done. intros Hrun.
  apply bindM_ok in Hrun as (es & w1 & [[Hall ->]%entries_from_ok ->]%lift_ok & Hrun). apply bindM_ok in Hrun as (attempts & w2 & Hs & [[= -> ->] ->]%retM_ok).
  unfold on_stream in Hs. destruct (sampled _ _ _ w) as [[[l|e] s1] w3] eqn:E; [|done]. injection Hs as <- <-.
  apply (sampled_ok _ (fun o => forall p, o = Some p -> drawn_from mirrors hops missing p)) in E as (-> & Hl & Hf).
  - apply given_ok in Hf as [Hf Hc]. split; [done|]. split; [rewrite Hc; lia|]. split; [|done]. unfold count_none. lia.
  - intros s w0 a s' w'' Ha. eapply attempt_ok in Ha; [exact Ha | lia | done |]. eapply Forall_impl; [exact Hall|]. cbn. lia.
Qed.

(** *** Chains that come up *)

(** Every node of the path extends to the next. *)
Definition comes_up (extends : list (list bool)) (p : list Z) : bool :=
  forallb (fun '(x, y) => (extends !!! Z.to_nat x) !!! Z.to_nat y) (zip p (tail p)).

Definition nodes_of (extends : list (list bool)) (p : list Z) : Prop := Forall (fun x => 0 <= x < Z.of_nat (length extends)) p.


Lemma extended_ok extends p : forall before b, extended_from extends before p = Ok b <->
  nodes_of extends p /\ b = comes_up extends (option_list before ++ p).
Proof.
  unfold nodes_of. induction p as [|x p IH]; intros before b; cbn [extended_from].
  - split; [intros [= <-]; split; [constructor | by destruct before] | intros [_ ->]; by destruct before].
  - rewrite Forall_cons. destruct (Z.ltb_spec x 0), (Z.leb_spec (Z.of_nat (length extends)) x); cbn [orb]; try (split; [done | intros [[? _] _]; lia]).
    split.
    + intros (r & [Hf ->]%IH & [= <-])%rbind_ok. split; [by split|]. by destruct before.
    + intros [[_ Hf] ->]. rewrite (proj2 (IH (Some x) _) (conj Hf eq_refl)). cbn [rbind]. by destruct before.
Qed.

(** [SurvivingPaths] splits the paths into those on which every node extends to the
    next, in their order, and the number of the others; it fails exactly when the
    table of who extends to whom is not square or a path names a node outside it. *)
Lemma survivors_exact paths extends up failed : SurvivingPaths paths extends = Ok (up, failed) <->
  Forall (fun row => length row = length extends) extends /\ Forall (nodes_of extends) paths /\
  up = List.filter (comes_up extends) paths /\ Z.of_nat (length up) + failed = Z.of_nat (length paths).
Proof.
  unfold SurvivingPaths. destruct (forallb _ extends) eqn:Hsq; cbn [negb].
  2: { split; [done|]. intros [Hf _]. exfalso. apply not_true_iff_false in Hsq. apply Hsq, forallb_forall.
       intros row Hrow%list_elem_of_In. apply Nat.eqb_eq. by apply (proj1 (Forall_forall _ _) Hf). }
  assert (Forall (fun row => length row = length extends) extends) as Hrows.
  { apply Forall_forall. intros row Hrow. rewrite forallb_forall in Hsq. apply Nat.eqb_eq, Hsq. by apply list_elem_of_In. }
  clear Hsq. revert up failed. induction paths as [|p paths IH]; intros up failed; cbn [survive].
  - split; [by intros [= <- <-] | intros (_ & _ & -> & H); cbn in H; by replace failed with 0 by lia].
  - rewrite Forall_cons. cbn [List.filter length]. split.
    + intros (b & [Hp ->]%extended_ok & ((u & f) & Hs & H)%rbind_ok)%rbind_ok. apply IH in Hs as (_ & Hf & -> & Hl). cbn [option_list app] in *.
      change (option_list None ++ p) with p in H. destruct (comes_up extends p); injection H as <- <-; split_and!; try done; cbn [length]; lia.
    + intros (_ & [Hp Hf] & -> & Hl). rewrite (proj2 (extended_ok extends p None _) (conj Hp eq_refl)). cbn [rbind option_list app].
      set (u := List.filter (comes_up extends) paths) in *.
      rewrite (proj2 (IH u (Z.of_nat (length paths) - Z.of_nat (length u)))) by (split_and!; (done || lia)). cbn [rbind].
      change (option_list None ++ p) with p. destruct (comes_up extends p); cbn [length] in Hl; do 2 f_equal; lia.
Qed.

(** ** Evaluation *)

Module PathsDemo.

Definition world : World := {| entropy := []; size_cache := ∅; pub_cache := ∅ |}.

(** A generator of small values. *)
Definition Rand (seed : Z) : bytes := List.concat (map (fun i => be 8 (u64 (seed + i * i * 7))) (seqZ 0 60)).

Definition cfg : pathsConfig :=
  {| pc_nodes := 5; pc_hops := 3; pc_rogue := 2; pc_missing := 1; pc_leftOut := 1; pc_withheld := 1; pc_samples := 6; pc_seed := 42 |}.

Example tables : mirrorsOf cfg = [[true; true; true; true; false]; [true; true; true; true; false]; [false; true; true; true; true];
                                  [false; true; true; true; true]; [false; true; true; true; true]] /\
  map (forallb id) (extendsOf cfg) = [true; true; false; false; false] /\ checkPaths cfg = Ok tt.
Proof. vm_compute. auto. Qed.

Definition chosen : res (list (list Z) * Z) * World := Eval vm_compute in SampleMirrorPaths Rand (mirrorsOf cfg) 3 1 6 42 world.

Lemma drawn_so : SampleMirrorPaths Rand (mirrorsOf cfg) 3 1 6 42 world = chosen.
Proof. vm_compute. reflexivity. Qed.

Example survivors : match fst chosen with Ok (paths, refused) => (length paths, refused, SurvivingPaths paths (extendsOf cfg)) | Err _ => (O, 0, Err (Other "")) end
  = (6%nat, 0, Ok ([[4; 2; 3]; [3; 2; 1]; [3; 2; 4]; [4; 2; 1]; [1; 2; 3]], 1)).
Proof. vm_compute. reflexivity. Qed.

End PathsDemo.

Lemma full_mirrors_same_witness : 1 <= 3 <= Z.of_nat 5 /\ exists paths,
  SampleMirrorPaths PathsDemo.Rand (replicate 5 (replicate 5 true)) 3 1 6 42 PathsDemo.world = (Ok (paths, 0), PathsDemo.world) /\ length paths = 6%nat.
Proof.
  split; [lia|]. rewrite (full_mirrors_same PathsDemo.Rand 5 3 1 6 42 PathsDemo.world) by (first [lia | reflexivity]).
  eexists. split; [vm_compute; reflexivity | reflexivity].
Defined.
