(* ===== verification/Counting.v ===== *)
(** * Counting: shares of finite sets, over exact rationals

    What the theorems about shares of chains rest on: sums of rationals over a list,
    how many elements of a list are of a kind, the ways to draw some elements of a
    list one after the other without putting them back, and how many of those there
    are.  Nothing here is of the program. *)

From Stdlib Require Import QArith.QArith_base QArith.Qreduction QArith.Qcanon setoid_ring.Field.
From S2P Require Import Prelude.

#[local] Open Scope Z_scope.
#[local] Open Scope Qc_scope.

(** A whole number as a rational. *)
Definition qc (z : Z) : Qc := Q2Qc (inject_Z z).

Lemma qc_add x y : qc (x + y) = qc x + qc y.
Proof. unfold qc. apply Qc_is_canon. cbn. rewrite !Qred_correct. by rewrite inject_Z_plus. Qed.

Lemma qc_mul x y : qc (x * y) = qc x * qc y.
Proof. unfold qc. apply Qc_is_canon. cbn. rewrite !Qred_correct. by rewrite inject_Z_mult. Qed.

Lemma qc_opp x : qc (- x) = - qc x.
Proof. unfold qc. apply Qc_is_canon. cbn. rewrite !Qred_correct. by rewrite inject_Z_opp. Qed.

Lemma qc_sub x y : qc (x - y) = qc x - qc y.
Proof. rewrite <- Z.add_opp_r. by rewrite qc_add, qc_opp. Qed.

Lemma qc_inj x y : qc x = qc y -> x = y.
Proof. intros H%(f_equal this). cbn in H. unfold inject_Z in H. rewrite !Qred_identity in H by (cbn; apply Z.gcd_1_r). congruence. Qed.

Lemma qc_ne x : (x <> 0)%Z -> qc x <> 0.
Proof. intros Hx H. by apply (qc_inj x 0) in H. Qed.

Ltac qnorm := repeat first [rewrite qc_add | rewrite qc_sub | rewrite qc_mul]; change (qc 1) with 1; change (qc 0) with 0.
Ltac qring := qnorm; ring.

(** Sums over a list. *)
Fixpoint qsum {A} (f : A -> Qc) (l : list A) : Qc := match l with [] => 0 | a :: l => f a + qsum f l end.

Lemma qsum_app {A} (f : A -> Qc) l k : qsum f (l ++ k) = qsum f l + qsum f k.
Proof. induction l as [|a l IH]; cbn; [by rewrite Qcplus_0_l | by rewrite IH, Qcplus_assoc]. Qed.

Lemma qsum_ext {A} (f g : A -> Qc) l : (forall a, a ∈ l -> f a = g a) -> qsum f l = qsum g l.
Proof. intros H. induction l as [|a l IH]; [done|]. cbn. rewrite (H a) by set_solver. rewrite IH; [done|]. intros. apply H. set_solver. Qed.

Lemma qsum_map {A B} (g : A -> B) (f : B -> Qc) l : qsum f (map g l) = qsum (fun a => f (g a)) l.
Proof. induction l as [|a l IH]; [done|]. cbn. by rewrite IH. Qed.

Lemma qsum_scale {A} (f : A -> Qc) c l : qsum (fun a => f a * c) l = qsum f l * c.
Proof. induction l as [|a l IH]; cbn; [ring | rewrite IH; ring]. Qed.

(** How many elements of a list are of a kind. *)
Definition count {A} (f : A -> bool) (l : list A) : Z := Z.of_nat (length (List.filter f l)).

Lemma count_cons {A} (f : A -> bool) a l : count f (a :: l) = ((if f a then 1 else 0) + count f l)%Z.
Proof. unfold count. cbn. destruct (f a); cbn [length]; lia. Qed.

Lemma count_app {A} (f : A -> bool) l k : count f (l ++ k) = (count f l + count f k)%Z.
Proof. unfold count. rewrite List.filter_app, length_app. lia. Qed.

Lemma count_map {A B} (g : A -> B) (f : B -> bool) l : count f (map g l) = count (fun a => f (g a)) l.
Proof. induction l as [|a l IH]; [done|]. cbn [map]. by rewrite !count_cons, IH. Qed.

Lemma count_ext {A} (f g : A -> bool) l : (forall a, a ∈ l -> f a = g a) -> count f l = count g l.
Proof. intros H. induction l as [|a l IH]; [done|]. rewrite !count_cons, (H a) by set_solver. rewrite IH; [done|]. intros. apply H. set_solver. Qed.

Lemma count_perm {A} (f : A -> bool) l k : l ≡ₚ k -> count f l = count f k.
Proof. induction 1; rewrite ?count_cons; lia. Qed.

Lemma count_none_of {A} (f : A -> bool) l : (forall a, a ∈ l -> f a = false) -> count f l = 0%Z.
Proof. intros H. induction l as [|a l IH]; [done|]. rewrite count_cons, (H a) by set_solver. rewrite IH; [done|]. intros. apply H. set_solver. Qed.

Lemma count_all {A} (l : list A) : count (fun _ => true) l = Z.of_nat (length l).
Proof. induction l as [|a l IH]; [done|]. rewrite count_cons, IH. cbn [length]. lia. Qed.

Lemma count_split {A} (f : A -> bool) l : Z.of_nat (length l) = (count f l + count (fun x => negb (f x)) l)%Z.
Proof. induction l as [|x l IH]; [done|]. rewrite !count_cons. destruct (f x); cbn [negb length]; lia. Qed.

(** ** All ordered selections *)

(** Each element of a list, with the others. *)
Fixpoint picks {A} (l : list A) : list (A * list A) :=
  match l with
  | [] => []
  | x :: l => (x, l) :: map (fun '(y, r) => (y, x :: r)) (picks l)
  end.

(** The ways to draw [d] elements one after the other. *)
Fixpoint selections {A} (d : nat) (pool : list A) : list (list A) :=
  match d with
  | O => [[]]
  | S d => flat_map (fun '(x, r) => map (cons x) (selections d r)) (picks pool)
  end.

Lemma picks_perm {A} (l : list A) y r : (y, r) ∈ picks l -> l ≡ₚ y :: r.
Proof.
  revert r. induction l as [|x l IH]; intros r; cbn [picks]; [by intros ?%elem_of_nil|].
  intros [[= -> ->]|([y' r'] & [= -> ->] & H)%list_elem_of_fmap]%elem_of_cons; [done|].
  rewrite (IH _ H). apply Permutation_swap.
Qed.

Lemma picks_fst {A} (l : list A) : map fst (picks l) = l.
Proof. induction l as [|x l IH]; [done|]. cbn. rewrite map_map. f_equal. rewrite <- IH at 2. apply map_ext. by intros [y r]. Qed.

Lemma picks_length {A} (l : list A) y r : (y, r) ∈ picks l -> length l = S (length r).
Proof. intros H%picks_perm. by rewrite H. Qed.

(** As a number: [m * (m - 1) * ...], [d] factors. *)
Fixpoint falling (d : nat) (m : Z) : Z := match d with O => 1 | S d => (m * falling d (m - 1))%Z end.

Lemma count_flat_map {A B} (P : B -> bool) (f : A -> list B) l : qc (count P (flat_map f l)) = qsum (fun a => qc (count P (f a))) l.
Proof. induction l as [|a l IH]; [done|]. cbn [flat_map]. by rewrite count_app, qc_add, IH. Qed.

(** Counting selections by their first element. *)
Lemma count_selections {A} (P : list A -> bool) d (pool : list A) :
  qc (count P (selections (S d) pool)) = qsum (fun '(x, r) => qc (count (fun p => P (x :: p)) (selections d r))) (picks pool).
Proof. cbn [selections]. rewrite count_flat_map. apply qsum_ext. intros [x r] _. by rewrite count_map. Qed.

(** If what the others give depends on the first element alone. *)
Lemma count_selections_by {A} (P : list A -> bool) (g : A -> Qc) d (pool : list A) :
  (forall x r, (x, r) ∈ picks pool -> qc (count (fun p => P (x :: p)) (selections d r)) = g x) ->
  qc (count P (selections (S d) pool)) = qsum g pool.
Proof.
  intros H. rewrite count_selections. rewrite <- (picks_fst pool) at 2. rewrite qsum_map. apply qsum_ext. intros [x r] Hx. by apply H.
Qed.

Lemma length_selections {A} d : forall (pool : list A), Z.of_nat (length (selections d pool)) = falling d (Z.of_nat (length pool)).
Proof.
  induction d as [|d IH]; intros pool; [done|]. rewrite <- count_all. apply qc_inj.
  rewrite (count_selections_by _ (fun _ => qc (falling d (Z.of_nat (length pool) - 1)))).
  - cbn [falling]. rewrite qc_mul. generalize (qc (falling d (Z.of_nat (length pool) - 1))). intros c. clear IH. induction pool as [|x pool IH]; cbn [qsum length].
    + change (Z.of_nat 0) with 0%Z. change (qc 0) with 0. ring.
    + rewrite IH, Nat2Z.inj_succ, <- Z.add_1_r. qring.
  - intros x r Hx. rewrite count_all, IH. apply picks_length in Hx. f_equal. f_equal. lia.
Qed.

Lemma falling_pos d : forall m, (Z.of_nat d <= m -> 0 < falling d m)%Z.
Proof. induction d as [|d IH]; intros m Hm; cbn [falling]; [lia|]. specialize (IH (m - 1)%Z). nia. Qed.

Lemma falling_ne d m : (Z.of_nat d <= m)%Z -> qc (falling d m) <> 0.
Proof. intros H. apply qc_ne. pose proof (falling_pos d m H). lia. Qed.

Lemma qsum_const {A} (c : Qc) (l : list A) : qsum (fun _ => c) l = qc (Z.of_nat (length l)) * c.
Proof.
  induction l as [|x l IH]; cbn [qsum length]; [change (qc (Z.of_nat 0)) with 0; ring|].
  rewrite IH, Nat2Z.inj_succ, <- Z.add_1_r. qring.
Qed.

Lemma count_nil {A} (f : A -> bool) : qc (count f []) = 0.
Proof. done. Qed.

(** A sum over elements of two kinds. *)
Lemma qsum_if {A} (f : A -> bool) (a b : Qc) l : qsum (fun x => if f x then a else b) l = qc (count f l) * a + qc (count (fun x => negb (f x)) l) * b.
Proof.
  induction l as [|x l IH]; [rewrite !count_nil; cbn [qsum]; ring|].
  cbn [qsum]. rewrite IH, !count_cons. destruct (f x); cbn [negb]; qring.
Qed.

Definition bit (b : bool) : Qc := if b then 1 else 0.

Lemma count_bit {A} (b : bool) (l : list A) : qc (count (fun _ => b) l) = bit b * qc (Z.of_nat (length l)).
Proof. destruct b; cbn [bit]; [rewrite count_all; ring | rewrite count_none_of by done; change (qc 0) with 0; ring]. Qed.

Lemma count_negb {A} (f : A -> bool) l : qc (count (fun x => negb (f x)) l) = qc (Z.of_nat (length l)) - qc (count f l).
Proof. rewrite (count_split f l). qring. Qed.

Lemma count_last (f : Z -> bool) d : forall pool, (d < length pool)%nat ->
  qc (count (fun p => f (List.last p 0%Z)) (selections (S d) pool)) = qc (count f pool) * qc (falling d (Z.of_nat (length pool) - 1)).
Proof.
  induction d as [|d IH]; intros pool Hd.
  { rewrite (count_selections_by _ (fun x => if f x then 1 else 0)); [rewrite qsum_if; cbn [falling]; qring|].
    intros x r _. cbn [selections]. rewrite count_cons, qc_add, count_nil. cbn [List.last]. by destruct (f x). }
  set (m := Z.of_nat (length pool)). set (c := qc (falling d (m - 2))).
  rewrite (count_selections_by _ (fun x => if f x then (qc (count f pool) - 1) * c else qc (count f pool) * c)).
  - rewrite qsum_if. cbn [falling]. replace (m - 1 - 1)%Z with (m - 2)%Z by lia. rewrite qc_mul. change (qc (falling d (m - 2))) with c. clearbody c. unfold m. rewrite (count_split f pool). qring.
  - intros x r Hx. pose proof (picks_length _ _ _ Hx) as Hl. pose proof (count_perm f _ _ (picks_perm _ _ _ Hx)) as Hc. rewrite count_cons in Hc.
    rewrite (count_ext _ (fun p => f (List.last p 0%Z))).
    + rewrite IH by lia. replace (Z.of_nat (length r) - 1)%Z with (m - 2)%Z by lia. fold c. rewrite Hc. destruct (f x); qring.
    + intros p Hp. cbn [selections] in Hp. apply list_elem_of_In, in_flat_map in Hp as ([y r'] & _ & (q & <- & _)%in_map_iff). done.
Qed.

(** ** Selections are the lists without repeats *)

Lemma picks_in {A} (x : A) l : x ∈ l -> exists r, (x, r) ∈ picks l.
Proof. rewrite <- (picks_fst l) at 1. intros ([y r] & -> & H)%list_elem_of_fmap. by exists r. Qed.

Lemma in_selections {A} d : forall (pool p : list A), NoDup pool -> p ∈ selections d pool <-> NoDup p /\ length p = d /\ Forall (fun x => x ∈ pool) p.
Proof.
  induction d as [|d IH]; intros pool p Hn; cbn [selections].
  { rewrite list_elem_of_singleton. split; [intros ->; split_and!; (done || constructor) | by intros (_ & ->%nil_length_inv & _)]. }
  rewrite list_elem_of_In, in_flat_map. split.
  - intros ([x r] & Hx%list_elem_of_In & (q & <- & Hq%list_elem_of_In)%in_map_iff). apply picks_perm in Hx. rewrite Hx in Hn. apply NoDup_cons in Hn as [Hxr Hr].
    apply IH in Hq as (Hq & Hl & Hf); [|done]. split; [apply NoDup_cons; split; [|done]; intros Hin; apply Hxr; exact (proj1 (Forall_forall _ _) Hf x Hin)|].
    split; [cbn; by rewrite Hl|]. constructor; [rewrite Hx; set_solver|]. eapply Forall_impl; [exact Hf|]. intros y Hy. rewrite Hx. set_solver.
  - intros (Hp & Hl & Hf). destruct p as [|x q]; [done|]. apply NoDup_cons in Hp as [Hxq Hq]. apply Forall_cons in Hf as [Hx Hf].
    destruct (picks_in x pool Hx) as [r Hr]. exists (x, r). split; [by apply list_elem_of_In|]. apply in_map_iff. exists q. split; [done|].
    apply picks_perm in Hr. rewrite Hr in Hn. apply NoDup_cons in Hn as [Hxr Hnr]. apply list_elem_of_In, IH; [done|]. split; [done|]. split; [by injection Hl|].
    apply Forall_forall. intros y Hy. pose proof (proj1 (Forall_forall _ _) Hf y Hy) as Hin. cbn in Hin. rewrite Hr in Hin. set_solver.
Qed.

Lemma NoDup_flat_map {A B} (f : A -> list B) l : NoDup l -> (forall a, a ∈ l -> NoDup (f a)) -> (forall a b y, a ∈ l -> b ∈ l -> y ∈ f a -> y ∈ f b -> a = b) -> NoDup (flat_map f l).
Proof.
  intros Hl Hf Hd. induction Hl as [|a l Ha Hl IH]; [constructor|]. cbn [flat_map]. apply NoDup_app. split_and!.
  - apply Hf. set_solver.
  - intros y Hy Hin%list_elem_of_In. apply in_flat_map in Hin as (b & Hb%list_elem_of_In & Hyb%list_elem_of_In).
    assert (a = b) as -> by (eapply Hd; [set_solver | set_solver | exact Hy | exact Hyb]). done.
  - apply IH; [intros; apply Hf; set_solver | intros; eapply Hd; [set_solver | set_solver | done | done]].
Qed.

Lemma NoDup_selections {A} d : forall pool : list A, NoDup pool -> NoDup (selections d pool).
Proof.
  induction d as [|d IH]; intros pool Hn; cbn [selections]; [apply NoDup_singleton|]. apply NoDup_flat_map.
  - apply NoDup_fmap_1 with (f := fst). change (NoDup (map fst (picks pool))). by rewrite picks_fst.
  - intros [x r] Hx%picks_perm. rewrite Hx in Hn. apply NoDup_cons in Hn as [_ Hr]. apply (NoDup_fmap_2 (cons x)), IH, Hr.
  - intros [x r] [y r'] z Hx Hy (q & -> & _)%list_elem_of_fmap (q' & [= <- _] & _)%list_elem_of_fmap.
    clear IH. assert (NoDup (map fst (picks pool))) as Hf by (by rewrite picks_fst). revert Hx Hy Hf. generalize (picks pool). intros ps Hx Hy Hf.
    apply list_elem_of_lookup in Hx as [i Hi], Hy as [j Hj].
    assert (i = j) as -> by (eapply NoDup_lookup; [exact Hf | by rewrite (list_lookup_fmap fst), Hi | by rewrite (list_lookup_fmap fst), Hj]).
    rewrite Hi in Hj. by injection Hj as ->.
Qed.

(** A list that holds what [ok] admits, once each. *)
Definition lists {A} (ok : A -> Prop) (l : list A) : Prop := NoDup l /\ forall a, a ∈ l <-> ok a.

Lemma lists_perm {A} (ok : A -> Prop) l k : lists ok l -> lists ok k -> l ≡ₚ k.
Proof. intros [Hl Hi] [Hk Hj]. apply NoDup_Permutation; [done..|]. intros a. by rewrite Hi, Hj. Qed.
