(* ===== verification/Compromise.v ===== *)
(** * Compromise: the shares of chains that an adversary holds

    Models [src/lab/metrics/compromise.go]: the shares counted in a sample and the
    values they tend to.  The formulas are written once, over the operations of
    [Num]; the code is their instance at 64-bit floating point, and the theorems are
    about the instance at exact rationals, where nothing is rounded.  A rogue entry's
    chains are summed with a table of what is already known; [known] is a map. *)

From Stdlib Require Import QArith.QArith_base QArith.Qreduction QArith.Qcanon setoid_ring.Field Floats.SpecFloat.
From S2P Require Import Prelude Effects Limits State Choose Counting.

#[local] Open Scope Z_scope.

(** ** Numbers *)

Class Num (F : Type) : Type := {
  n_of : Z -> F;
  n_add : F -> F -> F;
  n_sub : F -> F -> F;
  n_mul : F -> F -> F;
  n_div : F -> F -> F;
  n_max : F -> F -> F;
  n_nan : F
}.

Declare Scope num_scope.
Delimit Scope num_scope with num.
Infix "+" := n_add : num_scope.
Infix "-" := n_sub : num_scope.
Infix "*" := n_mul : num_scope.
Infix "/" := n_div : num_scope.

(** The built-in [max]. *)
Definition f64_max (x y : f64) : f64 :=
  match SFcompare x y with
  | None => S754_nan
  | Some Gt => x
  | Some Lt => y
  | Some Eq => match x with S754_zero false => x | _ => y end
  end.

#[export] Instance f64_num : Num f64 :=
  {| n_of := f64_of_Z; n_add := f64_add; n_sub := f64_sub; n_mul := f64_mul; n_div := f64_div; n_max := f64_max; n_nan := S754_nan |}.

#[export] Instance Qc_num : Num Qc :=
  {| n_of := qc; n_add := Qcplus; n_sub := Qcminus; n_mul := Qcmult; n_div := Qcdiv;
     n_max := fun x y => match (x ?= y)%Qc with Lt => y | _ => x end; n_nan := 0%Qc |}.

(** ** The formulas *)

(** The nodes not yet drawn, by kind, and whether the last one drawn is honest. *)
Record undrawn : Type := { ud_honest : Z; ud_withholding : Z; ud_others : Z; ud_afterHonest : bool }.

#[export] Instance undrawn_eq_decision : EqDecision undrawn.
Proof. solve_decision. Defined.

#[export] Instance undrawn_countable : Countable undrawn :=
  inj_countable' (fun u => (ud_honest u, ud_withholding u, ud_others u, ud_afterHonest u))
    (fun '(h, w, o, a) => {| ud_honest := h; ud_withholding := w; ud_others := o; ud_afterHonest := a |}) (fun u => match u with Build_undrawn _ _ _ _ => eq_refl end).

Record entryChains {F : Type} : Type := { ec_comeUp : F; ec_failed : F; ec_rogueExit : F }.
Arguments entryChains : clear implicits.

(** [known] *)
Abbreviation Known F := (gmap undrawn (entryChains F)).

Section Formulas.
Context {F : Type} {N : Num F}.
#[local] Open Scope num_scope.

Definition CompromiseFraction (paths : list (list Z)) (rogue : Z -> bool) : F * F :=
  if (length paths =? 0)%nat then (n_nan, n_nan)
  else
    let both := fun p => match p with [] => false | x :: _ => rogue x && rogue (List.last p 0%Z) end in
    let n := n_of (Z.of_nat (length paths)) in
    (n_of (Z.of_nat (length (List.filter both paths))) / n, n_of (Z.of_nat (length (List.filter (existsb rogue) paths))) / n).

(** [clean *= f(i)] for [i] below [n]. *)
Definition product (n : Z) (f : Z -> F) : F := foldl (fun clean i => clean * f i) (n_of 1) (seqZ 0 n).

Definition CompromiseProbability (nodes hops rogue : Z) : F * F :=
  if ((hops <? 1) || (nodes <? hops) || (rogue <? 0) || (nodes <? rogue))%Z then (n_nan, n_nan)
  else
    let n := n_of nodes in
    let k := n_of rogue in
    let ends := if (1 <? hops)%Z then k * n_max (k - n_of 1) (n_of 0) / (n * (n - n_of 1)) else k / n in
    let clean := product hops (fun i => (n - k - n_of i) / (n - n_of i)) in
    (ends, n_of 1 - clean).

Definition no_chains : entryChains F := {| ec_comeUp := n_of 0; ec_failed := n_of 0; ec_rogueExit := n_of 0 |}.

Definition drawn_all (afterHonest : bool) : entryChains F :=
  {| ec_comeUp := n_of 1; ec_failed := n_of 0; ec_rogueExit := if afterHonest then n_of 0 else n_of 1 |}.

(** What [add] does to the sum. *)
Definition add_share (share : F) (chains sum : entryChains F) : entryChains F :=
  {| ec_comeUp := ec_comeUp sum + share * ec_comeUp chains; ec_failed := ec_failed sum + share * ec_failed chains;
     ec_rogueExit := ec_rogueExit sum + share * ec_rogueExit chains |}.

Definition add_failed (share : F) (sum : entryChains F) : entryChains F :=
  {| ec_comeUp := ec_comeUp sum; ec_failed := ec_failed sum + share; ec_rogueExit := ec_rogueExit sum |}.

Definition pool_of (u : undrawn) : Z := ud_honest u + ud_withholding u + ud_others u.

(** One node fewer of a kind. *)
Definition less_honest (u : undrawn) : undrawn :=
  {| ud_honest := ud_honest u - 1; ud_withholding := ud_withholding u; ud_others := ud_others u; ud_afterHonest := true |}.
Definition less_withholding (u : undrawn) : undrawn :=
  {| ud_honest := ud_honest u; ud_withholding := ud_withholding u - 1; ud_others := ud_others u; ud_afterHonest := false |}.
Definition less_others (u : undrawn) : undrawn :=
  {| ud_honest := ud_honest u; ud_withholding := ud_withholding u; ud_others := ud_others u - 1; ud_afterHonest := false |}.

(** [add], with what follows from a state given by [next_from]. *)
Definition add_kind (next_from : undrawn -> Known F -> entryChains F * Known F) (pool : F) (count : Z) (next : undrawn)
    (acc : entryChains F * Known F) : entryChains F * Known F :=
  if (count =? 0)%Z then acc
  else let '(chains, known) := next_from next (snd acc) in (add_share (n_of count / pool) chains (fst acc), known).

(** [from], with the table it reads and fills. *)
Fixpoint from (draws : nat) (at_ : undrawn) (known : Known F) : entryChains F * Known F :=
  match draws with
  | O => (drawn_all (ud_afterHonest at_), known)
  | S draws =>
      match known !! at_ with
      | Some sum => (sum, known)
      | None =>
          let pool := n_of (pool_of at_) in
          let acc := add_kind (from draws) pool (ud_honest at_) (less_honest at_) (no_chains, known) in
          let acc := if ud_afterHonest at_ then (add_failed (n_of (ud_withholding at_) / pool) (fst acc), snd acc)
                     else add_kind (from draws) pool (ud_withholding at_) (less_withholding at_) acc in
          let '(sum, known) := add_kind (from draws) pool (ud_others at_) (less_others at_) acc in
          (sum, <[at_ := sum]> known)
      end
  end.

Definition rogueEntryChains (honest withholding others draws : Z) : entryChains F :=
  fst (from (Z.to_nat draws) {| ud_honest := honest; ud_withholding := withholding; ud_others := others; ud_afterHonest := false |} ∅).

(** The sums of [MirrorCompromiseProbability]. *)
Record mirrorSums : Type := { ms_accepted : Z; ms_up : F; ms_down : F; ms_bothEnds : F; ms_anyNode : F }.

Definition no_sums : mirrorSums := {| ms_accepted := 0; ms_up := n_of 0; ms_down := n_of 0; ms_bothEnds := n_of 0; ms_anyNode := n_of 0 |}.

Definition honest_entries (nodes hops honest withheld : Z) (s : mirrorSums) : mirrorSums :=
  let clean := product (hops - 1)%Z (fun i => n_of (honest - 1 - i)%Z / n_of (nodes - withheld - 1 - i)%Z) in
  {| ms_accepted := (ms_accepted s + honest)%Z; ms_up := ms_up s + n_of honest; ms_down := ms_down s; ms_bothEnds := ms_bothEnds s;
     ms_anyNode := ms_anyNode s + n_of honest * (n_of 1 - clean) |}.

Definition rogue_kind (hops honest rogue leftOut : Z) (s : mirrorSums) (kind : Z * Z) : mirrorSums :=
  let '(entries, withholding) := kind in
  if (entries =? 0)%Z then s
  else
    let chains := rogueEntryChains (honest - leftOut) withholding (rogue - 1 - withholding) (hops - 1) in
    {| ms_accepted := ms_accepted s; ms_up := ms_up s + n_of entries * ec_comeUp chains;
       ms_down := ms_down s + n_of entries * ec_failed chains;
       ms_bothEnds := ms_bothEnds s + n_of entries * ec_rogueExit chains;
       ms_anyNode := ms_anyNode s + n_of entries * ec_comeUp chains |}.

Definition rogue_entries (hops honest rogue leftOut withheld : Z) (s : mirrorSums) : mirrorSums :=
  foldl (rogue_kind hops honest rogue leftOut)
    {| ms_accepted := (ms_accepted s + rogue)%Z; ms_up := ms_up s; ms_down := ms_down s; ms_bothEnds := ms_bothEnds s; ms_anyNode := ms_anyNode s |}
    [(withheld, (withheld - 1)%Z); ((rogue - withheld)%Z, withheld)].

Definition MirrorCompromiseProbability (nodes hops rogue missing leftOut withheld : Z) : F * F * F * F :=
  let honest := (nodes - rogue)%Z in
  if ((hops <? 1) || (nodes <? hops) || (missing <? 0) || (leftOut <? 0) || (honest <? leftOut) || (withheld <? 0) || (rogue <? withheld))%Z
  then (n_nan, n_nan, n_nan, n_nan)
  else
    let allowed := Z.min missing (nodes - hops) in
    let s := if ((0 <? honest) && (withheld <=? allowed))%Z then honest_entries nodes hops honest withheld no_sums else no_sums in
    let s := if (leftOut <=? allowed)%Z then rogue_entries hops honest rogue leftOut withheld s else s in
    let n := n_of nodes in
    (ms_bothEnds s / ms_up s, ms_anyNode s / ms_up s, n_of 1 - n_of (ms_accepted s) / n, ms_down s / n).

End Formulas.

(** The standard error of a share, in the floating point of the code. *)
Definition BinomialStdErr (p : f64) (n : Z) : f64 :=
  if n <? 1 then S754_nan else SFsqrt 53 1024 (f64_div (f64_mul p (f64_sub (f64_of_Z 1) p)) (f64_of_Z n)).

(** ** The table *)

Section Table.
Context {F : Type} {N : Num F}.
#[local] Open Scope num_scope.

(** One kind of node in the next position. *)
Definition add_direct (next_from : undrawn -> entryChains F) (pool : F) (count : Z) (next : undrawn) (sum : entryChains F) : entryChains F :=
  if (count =? 0)%Z then sum else add_share (n_of count / pool) (next_from next) sum.

(** What [from] computes, worked out again each time. *)
Fixpoint direct (draws : nat) (u : undrawn) : entryChains F :=
  match draws with
  | O => drawn_all (ud_afterHonest u)
  | S draws =>
      let pool := n_of (pool_of u) in
      let sum := add_direct (direct draws) pool (ud_honest u) (less_honest u) no_chains in
      let sum := if ud_afterHonest u then add_failed (n_of (ud_withholding u) / pool) sum
                 else add_direct (direct draws) pool (ud_withholding u) (less_withholding u) sum in
      add_direct (direct draws) pool (ud_others u) (less_others u) sum
  end.

(** A table in which every state holds what follows from it; how many draws are left
    is what the pool has over [rest]. *)
Definition coherent (rest : Z) (known : Known F) : Prop :=
  forall u sum, known !! u = Some sum -> sum = direct (Z.to_nat (pool_of u - rest)) u.

(** [f] gives what the plain recursion gives, and leaves the table in order. *)
Definition follows (rest : Z) (d : nat) (f : undrawn -> Known F -> entryChains F * Known F) : Prop :=
  forall u known, (pool_of u - rest)%Z = Z.of_nat d -> coherent rest known ->
    fst (f u known) = direct d u /\ coherent rest (snd (f u known)).

Lemma add_kind_direct rest d f pool count next acc : follows rest d f -> (pool_of next - rest)%Z = Z.of_nat d -> coherent rest (snd acc) ->
  fst (add_kind f pool count next acc) = add_direct (direct d) pool count next (fst acc) /\ coherent rest (snd (add_kind f pool count next acc)).
Proof.
  intros Hf Hn Hk. unfold add_kind, add_direct. destruct (count =? 0)%Z; [done|]. destruct (Hf next (snd acc) Hn Hk) as [H1 H2].
  destruct (f next (snd acc)) as [chains known]. cbn in *. by subst chains.
Qed.

Lemma from_direct rest draws : follows rest draws (from draws).
Proof.
  induction draws as [|d IH]; intros u known Hp Hk; [done|]. cbn [from direct]. destruct (known !! u) as [sum|] eqn:E.
  { apply Hk in E. rewrite Hp, Nat2Z.id in E. by subst sum. }
  assert (pool_of (less_honest u) - rest = Z.of_nat d /\ pool_of (less_withholding u) - rest = Z.of_nat d /\ pool_of (less_others u) - rest = Z.of_nat d)%Z
    as (P1 & P2 & P3) by (unfold pool_of in *; cbn; lia).
  destruct (add_kind_direct rest d (from d) (n_of (pool_of u)) (ud_honest u) (less_honest u) (no_chains, known) IH P1 Hk) as [A1 C1].
  cbn [fst snd] in A1. destruct (add_kind _ _ (ud_honest u) _ _) as [s1 k1]. cbn [fst snd] in *. subst s1.
  set (sum1 := add_direct _ _ (ud_honest u) _ _). set (acc := if ud_afterHonest u then _ else add_kind _ _ _ _ _).
  assert (fst acc = (if ud_afterHonest u then add_failed (n_of (ud_withholding u) / n_of (pool_of u)) sum1
                     else add_direct (direct d) (n_of (pool_of u)) (ud_withholding u) (less_withholding u) sum1) /\ coherent rest (snd acc)) as [A2 C2]
    by (unfold acc; destruct (ud_afterHonest u); [by split | by apply add_kind_direct]).
  destruct (add_kind_direct rest d (from d) (n_of (pool_of u)) (ud_others u) (less_others u) acc IH P3 C2) as [A3 C3]. rewrite A2 in A3.
  destruct (add_kind _ _ (ud_others u) _ _) as [s3 k3]. cbn [fst snd] in A3, C3 |- *. split; [exact A3|].
  intros v sum. destruct (decide (u = v)) as [<-|Hne]; [rewrite lookup_insert_eq; intros [= <-] | rewrite lookup_insert_ne by done; apply C3].
  rewrite Hp, Nat2Z.id. cbn [direct]. exact A3.
Qed.

(** The table changes nothing: in any arithmetic, 64-bit floating point with its
    roundings included, the sums over the chains of a rogue entry are those of the
    plain recursion, in which every state is worked out afresh; a state is enough of a
    key, although it does not name the draws that are left. *)
Theorem table_same honest withholding others draws : 0 <= draws ->
  rogueEntryChains honest withholding others draws =
  direct (Z.to_nat draws) {| ud_honest := honest; ud_withholding := withholding; ud_others := others; ud_afterHonest := false |}.
Proof.
  intros Hd. unfold rogueEntryChains. set (u := {| ud_honest := honest |}).
  apply (from_direct (pool_of u - draws)); [lia|]. intros v sum. by rewrite lookup_empty.
Qed.

End Table.

#[local] Open Scope Qc_scope.

(** ** Selections by kind *)

Section Kinds.
Context (honest withholding : Z -> bool) (apart : forall x, honest x = true -> withholding x = false).

Definition other (x : Z) : bool := negb (honest x) && negb (withholding x).

(** No withholding node directly after an honest one. *)
Fixpoint up_from (after : bool) (p : list Z) : bool :=
  match p with [] => true | x :: p => negb (after && withholding x) && up_from (honest x) p end.

(** The last node is rogue. *)
Fixpoint rogue_end (after : bool) (p : list Z) : bool :=
  match p with [] => negb after | x :: p => rogue_end (honest x) p end.

Definition kinds (after : bool) (pool : list Z) : undrawn :=
  {| ud_honest := count honest pool; ud_withholding := count withholding pool; ud_others := count other pool; ud_afterHonest := after |}.

Lemma kinds_length after pool : pool_of (kinds after pool) = Z.of_nat (length pool).
Proof.
  unfold pool_of, kinds; cbn. induction pool as [|x pool IH]; [done|]. rewrite !count_cons. unfold other at 1. cbn [length].
  pose proof (apart x). destruct (honest x), (withholding x); cbn; try (discriminate H; done); lia.
Qed.

Lemma kinds_pick after pool x r : (x, r) ∈ picks pool ->
  kinds (honest x) r = if honest x then less_honest (kinds after pool) else if withholding x then less_withholding (kinds after pool) else less_others (kinds after pool).
Proof.
  intros Hp%picks_perm. unfold less_honest, less_withholding, less_others, kinds; cbn. rewrite !(count_perm _ _ _ Hp), !count_cons. unfold other at 2 4 6.
  pose proof (apart x). destruct (honest x), (withholding x); cbn; try (discriminate H; done); f_equal; lia.
Qed.

Lemma qsum_kinds (a b c : Qc) pool : qsum (fun x => if honest x then a else if withholding x then b else c) pool =
  qc (count honest pool) * a + qc (count withholding pool) * b + qc (count other pool) * c.
Proof.
  induction pool as [|x pool IH]; [rewrite !count_nil; cbn [qsum]; ring|].
  cbn [qsum]. rewrite IH, !count_cons. unfold other at 2. pose proof (apart x).
  destruct (honest x), (withholding x); cbn [negb andb]; try (discriminate H; done); qring.
Qed.

(** The share of selections of a kind that is told from the front: [empty] tells it of
    no node, [dead] of those in which a withholding node follows an honest one. *)
Fixpoint share (empty : bool -> Qc) (dead : Qc) (d : nat) (u : undrawn) : Qc :=
  match d with
  | O => empty (ud_afterHonest u)
  | S d =>
      (qc (ud_honest u) * share empty dead d (less_honest u) +
       qc (ud_withholding u) * (if ud_afterHonest u then dead else share empty dead d (less_withholding u)) +
       qc (ud_others u) * share empty dead d (less_others u)) / qc (pool_of u)
  end.

Lemma count_share (Q : bool -> list Z -> bool) (dead : bool) :
  (forall after x p, Q after (x :: p) = if honest x then Q true p else if after && withholding x then dead else Q false p) ->
  forall d after pool, (d <= length pool)%nat ->
    qc (count (Q after) (selections d pool)) = share (fun after => bit (Q after [])) (bit dead) d (kinds after pool) * qc (falling d (Z.of_nat (length pool))).
Proof.
  intros HQ. induction d as [|d IH]; intros after pool Hd.
  { cbn [selections share falling kinds ud_afterHonest]. rewrite count_cons, qc_add, count_nil. destruct (Q after []); cbn [bit]; qring. }
  set (u := kinds after pool). set (fl := qc (falling d (Z.of_nat (length pool) - 1))).
  rewrite (count_selections_by _ (fun x => if honest x then share (fun after => bit (Q after [])) (bit dead) d (less_honest u) * fl
    else if withholding x then (if after then bit dead else share (fun after => bit (Q after [])) (bit dead) d (less_withholding u)) * fl
    else share (fun after => bit (Q after [])) (bit dead) d (less_others u) * fl)).
  - rewrite qsum_kinds. cbn [share falling]. rewrite (kinds_length after pool : pool_of u = _). cbn [ud_honest ud_withholding ud_others ud_afterHonest u kinds].
    rewrite qc_mul. fold fl. field. apply qc_ne. lia.
  - intros x r Hx. pose proof (picks_length _ _ _ Hx) as Hl. pose proof (kinds_pick after pool x r Hx) as Hk. fold u in Hk.
    assert (Z.of_nat (length r) = (Z.of_nat (length pool) - 1)%Z) as Hr by lia.
    assert (forall a, qc (count (Q a) (selections d r)) = share (fun after => bit (Q after [])) (bit dead) d (kinds a r) * fl) as HI
      by (intros a; unfold fl; rewrite <- Hr; apply IH; lia).
    rewrite (count_ext _ (fun p => if honest x then Q true p else if after && withholding x then dead else Q false p)) by (intros; apply HQ).
    destruct (honest x); [by rewrite HI, Hk|]. destruct (withholding x); [|by rewrite andb_false_r, HI, Hk].
    destruct after; cbn [andb]; [|by rewrite HI, Hk]. rewrite count_bit, length_selections, Hr. done.
Qed.

(** The sums of the code are shares of selections. *)
Lemma add_direct_share f pool n next s : qc 0 / pool = 0 ->
  add_direct (F := Qc) f pool n next s = add_share (qc n / pool) (f next) s.
Proof.
  intros H0. unfold add_direct. destruct (Z.eqb_spec n 0) as [->|_]; [|done]. rewrite H0. destruct s as [a b c]. unfold add_share. cbn.
  f_equal; ring.
Qed.

Lemma direct_share d : forall u,
  direct (F := Qc) d u = {| ec_comeUp := share (fun _ => 1) 0 d u; ec_failed := share (fun _ => 0) 1 d u; ec_rogueExit := share (fun after => bit (negb after)) 0 d u |}.
Proof.
  induction d as [|d IH]; intros u; [cbn; by destruct (ud_afterHonest u)|]. cbn [direct share].
  assert (qc 0 / qc (pool_of u) = 0) as H0 by (unfold Qcdiv; change (qc 0) with 0; ring).
  change (n_of (pool_of u)) with (qc (pool_of u)). rewrite !(add_direct_share _ _ _ _ _ H0), !IH. unfold add_share, add_failed, no_chains.
  destruct (ud_afterHonest u); cbn [ec_comeUp ec_failed ec_rogueExit n_of n_add n_mul n_div Qc_num]; unfold Qcdiv; change (qc 0) with 0; f_equal; ring.
Qed.

End Kinds.

(** ** Selections without a rogue node, and with one at the end *)

Lemma foldl_mul (f : Z -> Qc) l : forall c, foldl (fun x i => x * f i) c l = c * foldl (fun x i => x * f i) 1 l.
Proof. induction l as [|i l IH]; intros c; cbn [foldl]; [ring|]. rewrite (IH (c * f i)), (IH (1 * f i)). ring. Qed.

Lemma foldl_shift (f : Z -> Qc) l : forall c, foldl (fun x i => x * f i) c (Z.add 1 <$> l) = foldl (fun x i => x * f (i + 1)%Z) c l.
Proof. induction l as [|i l IH]; intros c; [done|]. cbn [fmap list_fmap foldl]. by rewrite IH, (Z.add_comm 1 i). Qed.

Lemma product_S n (f : Z -> Qc) : (0 <= n)%Z -> product (n + 1) f = f 0%Z * product n (fun i => f (i + 1)%Z).
Proof.
  intros Hn. unfold product. rewrite (seqZ_cons 0), Z.add_1_r, Z.pred_succ by lia. change (Z.succ 0) with (1 + 0)%Z. rewrite <- fmap_add_seqZ.
  cbn [foldl n_mul n_of Qc_num]. change (qc 1) with 1. rewrite foldl_mul, foldl_shift. ring.
Qed.

Lemma product_ext n (f g : Z -> Qc) : (forall i, (0 <= i < n)%Z -> f i = g i) -> product n f = product n g.
Proof.
  intros H. unfold product. assert (forall i, i ∈ seqZ 0 n -> f i = g i) as Hs by (intros i Hi%elem_of_seqZ; apply H; lia).
  generalize (n_of (F := Qc) 1). induction (seqZ 0 n) as [|i l IH]; intros c; [done|]. cbn [foldl]. rewrite Hs by set_solver. apply IH. intros j Hj. apply Hs. set_solver.
Qed.

Lemma count_clean (f : Z -> bool) d : forall pool, (d <= length pool)%nat ->
  qc (count (forallb f) (selections d pool)) =
  product (Z.of_nat d) (fun i => qc (count f pool - i) / qc (Z.of_nat (length pool) - i)) * qc (falling d (Z.of_nat (length pool))).
Proof.
  induction d as [|d IH]; intros pool Hd.
  { cbn [selections falling]. rewrite count_cons, qc_add, count_nil. change (product _ _) with 1. cbn [forallb]. qring. }
  set (m := Z.of_nat (length pool)). set (c := product (Z.of_nat d) (fun i => qc (count f pool - (i + 1)) / qc (m - (i + 1))) * qc (falling d (m - 1))).
  rewrite (count_selections_by _ (fun x => if f x then c else 0)).
  - rewrite qsum_if. rewrite Nat2Z.inj_succ, <- Z.add_1_r, product_S by lia. cbn [falling]. rewrite !Z.sub_0_r, qc_mul. unfold c. field. apply qc_ne. lia.
  - intros x r Hx. pose proof (picks_length _ _ _ Hx) as Hl. pose proof (count_perm f _ _ (picks_perm _ _ _ Hx)) as Hc. rewrite count_cons in Hc.
    cbn [forallb]. destruct (f x); cbn [andb]; [|by rewrite count_none_of].
    rewrite IH by lia. unfold c. replace (Z.of_nat (length r)) with (m - 1)%Z by lia. f_equal. apply product_ext. intros i _. f_equal; f_equal; lia.
Qed.

Lemma selections_paths n hops : (0 <= hops)%Z -> lists (is_path n hops) (selections (Z.to_nat hops) (seqZ 0 n)).
Proof.
  intros Hh. split; [apply NoDup_selections, NoDup_seqZ|]. intros p. rewrite in_selections by apply NoDup_seqZ. unfold is_path.
  assert (Forall (fun x => x ∈ seqZ 0 n) p <-> Forall (fun i => 0 <= i < n)%Z p) as -> by (apply Forall_iff; intros x; rewrite elem_of_seqZ; lia).
  split; intros (? & ? & ?); split_and!; (done || lia).
Qed.

(** ** What a share tends to *)

(** Both ends of a path, and any node of it. *)
Definition both_ends (rogue : Z -> bool) (p : list Z) : bool := match p with [] => false | x :: _ => rogue x && rogue (List.last p 0%Z) end.

Lemma fraction_counts paths rogue : paths <> [] -> CompromiseFraction (F := Qc) paths rogue =
  (qc (count (both_ends rogue) paths) / qc (Z.of_nat (length paths)), qc (count (existsb rogue) paths) / qc (Z.of_nat (length paths))).
Proof. intros H. unfold CompromiseFraction. destruct (Nat.eqb_spec (length paths) 0) as [->%nil_length_inv|_]; done. Qed.

Lemma count_ends rogue d pool : (S d <= length pool)%nat ->
  qc (count (both_ends rogue) (selections (S d) pool)) =
  qc (count rogue pool) * match d with O => 1 | S d => (qc (count rogue pool) - 1) * qc (falling d (Z.of_nat (length pool) - 2)) end.
Proof.
  intros Hd. set (c := match d with O => 1 | S d => (qc (count rogue pool) - 1) * qc (falling d (Z.of_nat (length pool) - 2)) end).
  rewrite (count_selections_by _ (fun x => if rogue x then c else 0)); [rewrite qsum_if; ring|].
  intros x r Hx. pose proof (picks_length _ _ _ Hx) as Hl. pose proof (count_perm rogue _ _ (picks_perm _ _ _ Hx)) as Hc. rewrite count_cons in Hc.
  cbn [both_ends]. destruct (rogue x) eqn:Ex; cbn [andb]; [|by rewrite count_none_of].
  destruct d as [|d]; [cbn [selections]; rewrite count_cons, qc_add, count_nil; cbn [List.last]; rewrite Ex; unfold c; qring|].
  rewrite (count_ext _ (fun p => rogue (List.last p 0%Z))).
  - rewrite count_last by lia. unfold c. replace (Z.of_nat (length r) - 1)%Z with (Z.of_nat (length pool) - 2)%Z by lia. rewrite Hc. qring.
  - intros p Hp. cbn [selections] in Hp. apply list_elem_of_In, in_flat_map in Hp as ([y r'] & _ & (q & <- & _)%in_map_iff). done.
Qed.

Lemma max_zero z : (0 <= z)%Z -> n_max (qc z) (qc 0) = qc z.
Proof.
  intros Hz. cbn. destruct (qc z ?= qc 0)%Qc eqn:E; [done | | done]. exfalso. apply Qclt_alt in E. apply (Qclt_not_le _ _ E).
  unfold Qcle, qc. cbn [this Q2Qc]. rewrite !Qred_correct. unfold Qle. cbn [Qnum Qden inject_Z]. lia.
Qed.

(** C37. What the measured shares tend to, exactly.  Over exact rationals,
    [CompromiseProbability] is [CompromiseFraction] of all the paths there are: of any
    list that holds each path of [hops] distinct nodes out of [nodes] once, with any
    [k] of the nodes rogue. *)
Theorem compromise_exhaustive nodes hops k rogue paths : (1 <= hops <= nodes)%Z -> count rogue (seqZ 0 nodes) = k -> lists (is_path nodes hops) paths ->
  CompromiseProbability (F := Qc) nodes hops k = CompromiseFraction paths rogue.
Proof.
  intros Hh Hk Hp. pose proof (lists_perm _ _ _ Hp (selections_paths nodes hops ltac:(lia))) as E.
  remember (Z.to_nat hops) as d eqn:Hd. destruct d as [|d]; [lia|]. set (pool := seqZ 0 nodes) in *.
  assert (length pool = Z.to_nat nodes) as Hm by apply length_seqZ.
  assert (Z.of_nat (length paths) = falling (S d) nodes) as Hl by (rewrite E, length_selections; f_equal; lia).
  assert (falling (S d) nodes <> 0)%Z as Hne by (pose proof (falling_pos (S d) nodes ltac:(lia)); lia).
  rewrite fraction_counts by (intros ->; by rewrite <- Hl in Hne). rewrite Hl, !(count_perm _ _ _ E).
  assert (0 <= k <= nodes)%Z as Hk0 by (rewrite <- Hk; unfold count; pose proof (List.filter_length_le rogue pool); lia).
  unfold CompromiseProbability.
  destruct (Z.ltb_spec hops 1), (Z.ltb_spec nodes hops), (Z.ltb_spec k 0), (Z.ltb_spec nodes k); try lia. cbn [orb]. f_equal.
  - rewrite count_ends by lia. rewrite Hk, Hm, Z2Nat.id by lia. destruct d as [|d].
    + replace (1 <? hops)%Z with false by lia. cbn [falling n_div n_of Qc_num]. rewrite Z.mul_1_r. field. apply qc_ne. lia.
    + replace (1 <? hops)%Z with true by lia. cbn [falling]. replace (nodes - 1 - 1)%Z with (nodes - 2)%Z by lia. rewrite !qc_mul.
      assert (qc (falling d (nodes - 2)) <> 0) by (apply falling_ne; lia). assert (qc nodes <> 0) by (apply qc_ne; lia).
      assert (qc (nodes - 1) <> 0) as Hn1 by (apply qc_ne; lia). rewrite qc_sub in Hn1 |- *. change (qc 1) with 1 in *.
      destruct (Z.eq_dec k 0%Z) as [->|]; [cbn [n_of n_mul n_div n_sub Qc_num]; change (qc 0) with 0; unfold Qcdiv; ring|].
      cbn [n_of n_mul n_div n_sub Qc_num]. rewrite <- (qc_sub k 1%Z), max_zero, qc_sub by lia. change (qc 1) with 1. by field.
  - rewrite (count_ext _ (fun p => negb (forallb (fun x => negb (rogue x)) p))) by (intros p _; induction p as [|x p IH]; cbn; [done | rewrite IH; by destruct (rogue x)]).
    rewrite count_negb, length_selections, count_clean by lia. rewrite Hm, Z2Nat.id by lia.
    rewrite (product_ext hops _ (fun i => qc (count (fun x => negb (rogue x)) pool - i) / qc (nodes - i))).
    + replace (Z.of_nat (S d)) with hops by lia. cbn [n_of n_sub Qc_num]. set (pr := product _ _). change (qc 1) with 1. field. by apply qc_ne.
    + intros i _. cbn [n_of n_sub Qc_num]. rewrite !qc_sub, count_negb, Hk, Hm, Z2Nat.id by lia. done.
Qed.

(** ** Evaluation *)

Module CompromiseDemo.

(** A decimal of the tests, as the quotient of whole numbers. *)
Definition near (x : f64) (a b : Z) : bool := f64_ltb (SFabs (f64_sub x (f64_div (f64_of_Z a) (f64_of_Z b)))) (f64_div (f64_of_Z 1) (f64_of_Z 1000000000000)).

Definition near2 (x : f64 * f64) (a b c d : Z) : bool := near (fst x) a b && near (snd x) c d.

Example floats : near2 (CompromiseProbability 5 3 2) 1 10 9 10 = true /\ near2 (CompromiseProbability 10 3 3) 1 15 17 24 = true /\
  CompromiseProbability 5 3 0 = (S754_zero false, S754_zero false) /\ CompromiseProbability (F := f64) 5 6 2 = (S754_nan, S754_nan) /\
  near2 (CompromiseFraction [[0; 1; 2]; [2; 3; 4]; [0; 3; 1]; [3; 4; 2]; [4; 0; 3]]%Z (fun x => (x <? 2)%Z)) 1 5 3 5 = true.
Proof. vm_compute. auto 10. Qed.

Example exact : map this [fst (CompromiseProbability (F := Qc) 10 3 3); snd (CompromiseProbability (F := Qc) 10 3 3)] = [1 # 15; 17 # 24]%Q.
Proof. vm_compute. reflexivity. Qed.

Example mirror_floats : let '(ends, touched, refused, failed) := MirrorCompromiseProbability 5 3 2 1 1 1 in
  near2 (ends, touched) 1 14 11 14 && near2 (refused, failed) 0 1 1 15 = true.
Proof. vm_compute. reflexivity. Qed.

(** The standard error of a share of one half among 100. *)
Example spread : near (BinomialStdErr (f64_div (f64_of_Z 1) (f64_of_Z 2)) 100) 1 20 = true /\ BinomialStdErr (f64_of_Z 1) 0 = S754_nan.
Proof. vm_compute. auto. Qed.

End CompromiseDemo.

Lemma table_same_witness : (0 <= 3)%Z /\ rogueEntryChains (F := f64) 2 1 2 3 =
  direct 3 {| ud_honest := 2; ud_withholding := 1; ud_others := 2; ud_afterHonest := false |}.
Proof. split; [lia | apply (table_same 2 1 2 3); lia]. Defined.

Lemma compromise_exhaustive_witness : (1 <= 2 <= 4)%Z /\ lists (is_path 4 2) (selections 2 (seqZ 0 4)) /\
  CompromiseProbability (F := Qc) 4 2 2 = CompromiseFraction (selections 2 (seqZ 0 4)) (fun x => (x <? 2)%Z).
Proof.
  split; [lia|]. split; [exact (selections_paths 4 2 ltac:(lia))|].
  apply compromise_exhaustive; [lia | reflexivity | exact (selections_paths 4 2 ltac:(lia))].
Defined.
