(* ===== verification/Exposure.v ===== *)
(** * Exposure: the shares with rogue mirrors, against all the chains there are

    [samplePaths] of [src/cmd/lab/paths.go] puts a sample of Paths next to the formulas
    of Compromise; it is modelled whole, in the 64-bit floating point of the code.
    [MirrorCompromiseProbability] of Compromise is set against the network it is
    about: the tables of who serves and who extends to whom of [mirrorsOf] and
    [extendsOf], the client's own rule for a mirror, and every chain an entry can give,
    taken one by one.  Arithmetic is exact here. *)

From Stdlib Require Import Strings.Byte Strings.String QArith.QArith_base QArith.Qcanon setoid_ring.Field.
From S2P Require Import Prelude Effects Limits State Choose Paths Counting Compromise.

#[local] Open Scope Z_scope.
#[local] Open Scope Qc_scope.

(** ** The sample and what it is set against *)

Record pathsResult : Type := {
  pr_config : pathsConfig; pr_Chains : Z;
  pr_Refused : f64; pr_RefusedExpected : f64; pr_RefusedStdErr : f64;
  pr_Failed : f64; pr_FailedExpected : f64; pr_FailedStdErr : f64;
  pr_Ends : f64; pr_EndsExpected : f64; pr_EndsStdErr : f64;
  pr_Touched : f64; pr_TouchedExpected : f64; pr_TouchedStdErr : f64;
  pr_EndsUniform : f64; pr_TouchedUniform : f64
}.

(** The result of a sample: the chains that came up, and how many attempts were refused
    and failed. *)
Definition result_of (c : pathsConfig) (paths : list (list Z)) (refused failed : Z) : pathsResult :=
  let samples := f64_of_Z (pc_samples c) in
  let chains := Z.of_nat (length paths) in
  let '(ends, touched) := CompromiseFraction paths (fun node => (0 <=? node) && (node <? pc_rogue c))%Z in
  let '(endsExpected, touchedExpected, refusedExpected, failedExpected) :=
    MirrorCompromiseProbability (pc_nodes c) (pc_hops c) (pc_rogue c) (pc_missing c) (pc_leftOut c) (pc_withheld c) in
  let '(endsUniform, touchedUniform) := CompromiseProbability (pc_nodes c) (pc_hops c) (pc_rogue c) in
  {| pr_config := c; pr_Chains := chains;
     pr_Refused := f64_div (f64_of_Z refused) samples; pr_RefusedExpected := refusedExpected;
     pr_RefusedStdErr := BinomialStdErr refusedExpected (pc_samples c);
     pr_Failed := f64_div (f64_of_Z failed) samples; pr_FailedExpected := failedExpected; pr_FailedStdErr := BinomialStdErr failedExpected (pc_samples c);
     pr_Ends := ends; pr_EndsExpected := endsExpected; pr_EndsStdErr := BinomialStdErr endsExpected chains;
     pr_Touched := touched; pr_TouchedExpected := touchedExpected; pr_TouchedStdErr := BinomialStdErr touchedExpected chains;
     pr_EndsUniform := endsUniform; pr_TouchedUniform := touchedUniform |}.

Definition samplePaths (Rand : Z -> bytes) (c : pathsConfig) : M pathsResult :=
  let! _ := lift (checkPaths c) in
  let! (chosen, refused) := SampleMirrorPaths Rand (mirrorsOf c) (pc_hops c) (pc_missing c) (pc_samples c) (pc_seed c) in
  let! (paths, failed) := lift (SurvivingPaths chosen (extendsOf c)) in
  if (length paths =? 0)%nat then failM (Other "none of the attempts gave a chain that came up")
  else retM (result_of c paths refused failed).

(** ** All the chains of a network *)

(** A chain that an entry with this mirror gives. *)
Definition entry_chain (mirror : list bool) (entry hops : Z) (p : list Z) : Prop :=
  head p = Some entry /\ NoDup p /\ Z.of_nat (length p) = hops /\ Forall (fun x => (0 <= x)%Z /\ mirror !! Z.to_nat x = Some true) p.

(** The entries whose mirror the client takes. *)
Definition taken_entries (c : pathsConfig) : list Z :=
  List.filter (fun e => bool_decide (fst (fst (JudgeMirror (mirrorsOf c !!! Z.to_nat e) e (pc_hops c) (pc_missing c))) = MirrorTaken)) (seqZ 0 (pc_nodes c)).

(** The sum, over the entries that are taken, of the share of chains of a kind. *)
Definition over (c : pathsConfig) (chains : Z -> list (list Z)) (kind : list Z -> bool) : Qc :=
  qsum (fun e => qc (count kind (chains e)) / qc (Z.of_nat (length (chains e)))) (taken_entries c).

(** What [samplePaths] takes for a network. *)
Definition configured (c : pathsConfig) : Prop :=
  (1 <= pc_hops c <= pc_nodes c)%Z /\ (pc_nodes c < 2 ^ 63)%Z /\ (0 <= pc_rogue c <= pc_nodes c)%Z /\ (0 <= pc_missing c)%Z /\
  (0 <= pc_leftOut c <= pc_nodes c - pc_rogue c)%Z /\ (0 <= pc_withheld c <= pc_rogue c)%Z.

(** *** The chains of one entry *)

(** A list without one of its elements. *)
Definition without (e : Z) (l : list Z) : list Z := List.filter (fun x => negb (x =? e)%Z) l.

Lemma without_perm e l : NoDup l -> e ∈ l -> l ≡ₚ e :: without e l.
Proof.
  intros Hn He. induction Hn as [|x l Hx Hn IH]; [by apply elem_of_nil in He|]. unfold without. cbn [List.filter].
  destruct (Z.eqb_spec x e) as [->|Hne]; cbn [negb].
  - constructor. clear IH Hn He. induction l as [|y l IH]; [done|]. cbn [List.filter]. destruct (Z.eqb_spec y e) as [->|_]; [set_solver|].
    cbn [negb]. constructor. apply IH. set_solver.
  - rewrite Permutation_swap. constructor. apply IH. set_solver.
Qed.

Lemma chains_of_entry mirror entry hops held : (1 <= hops)%Z -> NoDup held -> entry ∈ held ->
  (forall x, x ∈ held <-> (0 <= x)%Z /\ mirror !! Z.to_nat x = Some true) ->
  lists (entry_chain mirror entry hops) (map (cons entry) (selections (Z.to_nat (hops - 1)) (without entry held))).
Proof.
  intros Hh Hn He Hs. pose proof (without_perm entry held Hn He) as E. pose proof Hn as Hn'. rewrite E in Hn'. apply NoDup_cons in Hn' as [Hout Hr].
  split; [by apply (NoDup_fmap_2 (cons entry)), NoDup_selections|]. intros p. rewrite list_elem_of_fmap. split.
  - intros (q & -> & (Hq & Hl & Hf)%in_selections); [|done]. unfold entry_chain. split; [done|]. split.
    { apply NoDup_cons. split; [|done]. intros Hin. apply Hout. exact (proj1 (Forall_forall _ _) Hf entry Hin). }
    split; [cbn [length]; lia|]. constructor; [by apply Hs|]. eapply Forall_impl; [exact Hf|]. intros x Hx. apply Hs. rewrite E. set_solver.
  - intros (Hhead & Hnd & Hl & Hf). destruct p as [|x q]; [done|]. injection Hhead as ->. exists q. split; [done|].
    apply NoDup_cons in Hnd as [Hx Hq]. apply Forall_cons in Hf as [_ Hf]. apply in_selections; [done|]. split; [done|]. split; [cbn [length] in Hl; lia|].
    apply Forall_forall. intros y Hy. pose proof (proj1 (Forall_forall _ _) Hf y Hy) as Hin. apply Hs in Hin. rewrite E in Hin. set_solver.
Qed.

(** *** Counting in an interval *)

Lemma count_below w n : (0 <= w <= n)%Z -> count (fun x => (x <? w)%Z) (seqZ 0 n) = w.
Proof.
  intros H. replace n with (w + (n - w))%Z by lia. rewrite seqZ_app, count_app by lia. rewrite (count_none_of _ (seqZ (0 + w) _)).
  - rewrite (count_ext _ (fun _ => true)); [rewrite count_all, length_seqZ; lia|]. intros x Hx%elem_of_seqZ. apply Z.ltb_lt. lia.
  - intros x Hx%elem_of_seqZ. apply Z.ltb_ge. lia.
Qed.

Lemma count_without f e l : NoDup l -> e ∈ l -> count f (without e l) = (count f l - if f e then 1 else 0)%Z.
Proof. intros Hn He. rewrite (count_perm f _ _ (without_perm e l Hn He)), count_cons. destruct (f e); lia. Qed.

Lemma length_without e l : NoDup l -> e ∈ l -> Z.of_nat (length (without e l)) = (Z.of_nat (length l) - 1)%Z.
Proof. intros Hn He. rewrite (without_perm e l Hn He) at 2. cbn [length]. lia. Qed.

(** ** The tables of a configuration *)

Section Config.
Context (c : pathsConfig) (Hc : configured c).
Abbreviation n := (pc_nodes c).
Abbreviation rogue := (pc_rogue c).

(** The nodes an entry serves. *)
Definition held_by (e : Z) : list Z := if (e <? rogue)%Z then seqZ 0 (n - pc_leftOut c) else seqZ (pc_withheld c) (n - pc_withheld c).

Definition row (e : Z) : list bool := map (fun node => if (e <? rogue)%Z then (node <? n - pc_leftOut c)%Z else (pc_withheld c <=? node)%Z) (seqZ 0 n).

Lemma mirror_row e : (0 <= e < n)%Z -> mirrorsOf c !! Z.to_nat e = Some (row e).
Proof.
  intros He. unfold mirrorsOf. rewrite list_lookup_fmap. assert (seqZ 0 n !! Z.to_nat e = Some e) as -> by (rewrite lookup_seqZ; lia). done.
Qed.

Lemma row_at e x : (0 <= x < n)%Z -> row e !! Z.to_nat x = Some (if (e <? rogue)%Z then (x <? n - pc_leftOut c)%Z else (pc_withheld c <=? x)%Z).
Proof.
  intros Hx. unfold row. rewrite list_lookup_fmap. assert (seqZ 0 n !! Z.to_nat x = Some x) as -> by (rewrite lookup_seqZ; lia). done.
Qed.

Lemma row_length e : length (row e) = Z.to_nat n.
Proof. unfold row. by rewrite length_map, length_seqZ. Qed.

Lemma held_row e x : x ∈ held_by e <-> (0 <= x)%Z /\ row e !! Z.to_nat x = Some true.
Proof.
  destruct Hc as (H1 & H2 & H3 & H4 & H5 & H6). destruct (Z.le_gt_cases 0 x) as [Hx0|]; [|split; [|lia]].
  2: { unfold held_by. destruct (e <? rogue)%Z; rewrite elem_of_seqZ; lia. }
  destruct (Z.lt_ge_cases x n) as [Hx|Hx].
  - rewrite row_at by lia. unfold held_by. destruct (e <? rogue)%Z; rewrite elem_of_seqZ.
    + destruct (Z.ltb_spec x (n - pc_leftOut c)); split; intros; try split; (lia || done || naive_solver lia).
    + destruct (Z.leb_spec (pc_withheld c) x); split; intros; try split; (lia || done || naive_solver lia).
  - rewrite lookup_ge_None_2 by (rewrite row_length; lia). unfold held_by. destruct (e <? rogue)%Z; rewrite elem_of_seqZ; (split; [lia | naive_solver]).
Qed.

Lemma held_self e : (0 <= e < n)%Z -> e ∈ held_by e.
Proof. destruct Hc as (H1 & H2 & H3 & H4 & H5 & H6). intros He. unfold held_by. destruct (Z.ltb_spec e rogue); apply elem_of_seqZ; lia. Qed.

Lemma held_NoDup e : NoDup (held_by e).
Proof. unfold held_by. destruct (e <? rogue)%Z; apply NoDup_seqZ. Qed.

Lemma held_length e : Z.of_nat (length (held_by e)) = (n - if (e <? rogue)%Z then pc_leftOut c else pc_withheld c)%Z.
Proof. destruct Hc as (H1 & H2 & H3 & H4 & H5 & H6). unfold held_by. destruct (e <? rogue)%Z; rewrite length_seqZ; lia. Qed.

(** How many nodes a mirror may lack. *)
Definition allowed : Z := Z.min (pc_missing c) (n - pc_hops c).

Definition lacks (e : Z) : Z := if (e <? rogue)%Z then pc_leftOut c else pc_withheld c.

Lemma row_absent e : count_absent (row e) = lacks e.
Proof.
  destruct Hc as (H1 & H2 & H3 & H4 & H5 & H6). rewrite count_absent_spec, row_length. unfold lacks.
  change (Z.of_nat (length (List.filter id (row e)))) with (count id (row e)). unfold row. rewrite count_map. unfold id. destruct (e <? rogue)%Z.
  - rewrite count_below by lia. lia.
  - pose proof (count_split (fun x => (x <? pc_withheld c)%Z) (seqZ 0 n)) as Hs. rewrite count_below, length_seqZ in Hs by lia.
    rewrite (count_ext _ (fun x => negb (x <? pc_withheld c)%Z)) by (intros x _; destruct (Z.leb_spec (pc_withheld c) x), (Z.ltb_spec x (pc_withheld c)); (done || lia)). lia.
Qed.

Lemma taken_iff e : (0 <= e < n)%Z ->
  bool_decide (fst (fst (JudgeMirror (mirrorsOf c !!! Z.to_nat e) e (pc_hops c) (pc_missing c))) = MirrorTaken) = (lacks e <=? allowed)%Z.
Proof.
  destruct Hc as (H1 & H2 & H3 & H4 & H5 & H6). intros He. rewrite (list_lookup_total_correct _ _ _ (mirror_row e He)).
  pose proof (mirror_judged (row e) e (pc_hops c) (pc_missing c)) as Hj. rewrite row_length, Z2Nat.id in Hj by lia. specialize (Hj ltac:(lia) ltac:(lia)).
  destruct (JudgeMirror (row e) e _ _) as [[v absent] al] eqn:E. cbn [fst]. destruct Hj as (_ & Ha & Hv & _).
  assert (absent = lacks e) as ->. { rewrite <- row_absent. unfold JudgeMirror in E. destruct (_ || _); [|destruct (_ <? _)%Z]; by injection E. }
  fold allowed in Ha. subst al. apply eq_true_iff_eq. rewrite bool_decide_eq_true, Hv, Z.leb_le. split; [by intros [_ ?]|]. intros ?. split; [|done].
  apply held_row, held_self, He.
Qed.

(** A sum over the entries that are taken, where entries of a kind all give the same. *)
Lemma qsum_entries (g : Z -> Qc) (a b h : Qc) :
  (forall e, (0 <= e < pc_withheld c)%Z -> (pc_leftOut c <= allowed)%Z -> g e = a) ->
  (forall e, (pc_withheld c <= e < rogue)%Z -> (pc_leftOut c <= allowed)%Z -> g e = b) ->
  (forall e, (rogue <= e < n)%Z -> (pc_withheld c <= allowed)%Z -> g e = h) ->
  qsum g (taken_entries c) = (if (pc_leftOut c <=? allowed)%Z then qc (pc_withheld c) * a + qc (rogue - pc_withheld c) * b else 0) +
                             (if (pc_withheld c <=? allowed)%Z then qc (n - rogue) * h else 0).
Proof.
  destruct Hc as (H1 & H2 & H3 & H4 & H5 & H6). intros Ha Hb Hh. unfold taken_entries.
  set (t := fun e => bool_decide _). assert (forall e, (0 <= e < n)%Z -> t e = (lacks e <=? allowed)%Z) as Ht by apply taken_iff. clearbody t.
  assert (forall l, qsum g (List.filter t l) = qsum (fun e => if t e then g e else 0) l) as ->
    by (induction l as [|e l IH]; [done|]; cbn [List.filter qsum]; destruct (t e); cbn [qsum]; rewrite IH; [done | ring]).
  set (w := pc_withheld c) in *.
  assert (seqZ 0 n = seqZ 0 w ++ seqZ w (rogue - w) ++ seqZ rogue (n - rogue)) as ->.
  { replace n with (w + ((rogue - w) + (n - rogue)))%Z by lia. rewrite !seqZ_app by lia. f_equal. f_equal; f_equal; lia. }
  rewrite !qsum_app.
  assert (forall from len v (b0 : bool), (0 <= len)%Z -> (forall e, e ∈ seqZ from len -> (if t e then g e else 0) = if b0 then v else 0) ->
    qsum (fun e => if t e then g e else 0) (seqZ from len) = if b0 then qc len * v else 0) as Hseg.
  { intros from len v b0 Hl He. rewrite (qsum_ext _ (fun _ => if b0 then v else 0)) by done. rewrite qsum_const, length_seqZ, Z2Nat.id by lia. destruct b0; ring. }
  rewrite (Hseg 0%Z w a (pc_leftOut c <=? allowed)%Z), (Hseg w (rogue - w)%Z b (pc_leftOut c <=? allowed)%Z), (Hseg rogue (n - rogue)%Z h (w <=? allowed)%Z);
    [destruct (pc_leftOut c <=? allowed)%Z; ring | lia | | lia | | lia |]; intros e He%elem_of_seqZ; rewrite Ht by lia; unfold lacks.
  - rewrite (proj2 (Z.ltb_ge e rogue)) by lia. fold w. destruct (Z.leb_spec w allowed); [|done]. apply Hh; lia.
  - rewrite (proj2 (Z.ltb_lt e rogue)) by lia. destruct (Z.leb_spec (pc_leftOut c) allowed); [|done]. apply Hb; lia.
  - rewrite (proj2 (Z.ltb_lt e rogue)) by lia. destruct (Z.leb_spec (pc_leftOut c) allowed); [|done]. apply Ha; lia.
Qed.

(** *** Which chains come up *)

Definition honest (x : Z) : bool := (rogue <=? x)%Z.
Definition withholding (x : Z) : bool := (x <? pc_withheld c)%Z.
Definition is_rogue (x : Z) : bool := (x <? rogue)%Z.

Lemma kinds_apart x : honest x = true -> withholding x = false.
Proof. destruct Hc as (H1 & H2 & H3 & H4 & H5 & H6). unfold honest, withholding. rewrite Z.leb_le, Z.ltb_ge. lia. Qed.

Lemma honest_rogue x : honest x = negb (is_rogue x).
Proof. unfold honest, is_rogue. destruct (Z.leb_spec rogue x), (Z.ltb_spec x rogue); (done || lia). Qed.

Lemma extends_at x y : (0 <= x < n)%Z -> (0 <= y < n)%Z -> (extendsOf c !!! Z.to_nat x) !!! Z.to_nat y = negb (honest x && withholding y).
Proof.
  destruct Hc as (H1 & H2 & H3 & H4 & H5 & H6). intros Hx Hy. unfold extendsOf.
  assert (imap (fun node row => if (Z.of_nat node <? rogue)%Z then map (fun _ => true) row else row) (mirrorsOf c) !! Z.to_nat x =
    Some (if (x <? rogue)%Z then map (fun _ => true) (row x) else row x)) as E.
  { rewrite list_lookup_imap, (mirror_row x Hx). cbn. by rewrite Z2Nat.id by lia. }
  rewrite (list_lookup_total_correct _ _ _ E). rewrite honest_rogue. unfold is_rogue, withholding.
  pose proof (row_at x y Hy) as Hr. destruct (Z.ltb_spec x rogue); cbn [negb andb].
  - apply list_lookup_total_correct. by rewrite list_lookup_fmap, Hr.
  - rewrite (list_lookup_total_correct _ _ _ Hr). destruct (Z.leb_spec (pc_withheld c) y), (Z.ltb_spec y (pc_withheld c)); (done || lia).
Qed.

Lemma comes_up_from p : forall x, Forall (fun y => 0 <= y < n)%Z (x :: p) -> comes_up (extendsOf c) (x :: p) = up_from honest withholding (honest x) p.
Proof.
  induction p as [|y p IH]; intros x Hf; [done|]. apply Forall_cons in Hf as [Hx Hf]. pose proof Hf as [Hy _]%Forall_cons.
  unfold comes_up. cbn [tail zip zip_with forallb up_from]. rewrite extends_at by done. f_equal. by apply IH.
Qed.

Lemma rogue_end_last p : forall x, rogue_end honest (honest x) p = is_rogue (List.last (x :: p) 0%Z).
Proof. induction p as [|y p IH]; intros x; [cbn; by rewrite honest_rogue, negb_involutive|]. cbn [rogue_end]. rewrite IH. done. Qed.

(** *** The shares of one entry *)

(** The nodes left to draw for an entry, and how many are drawn. *)
Definition rest_of (e : Z) : list Z := without e (held_by e).
Definition draws : nat := Z.to_nat (pc_hops c - 1).

Lemma rest_length e : (0 <= e < n)%Z -> Z.of_nat (length (rest_of e)) = (n - lacks e - 1)%Z.
Proof. intros He. unfold rest_of. rewrite length_without, held_length by first [apply held_NoDup | by apply held_self]. done. Qed.

Lemma rest_enough e : (0 <= e < n)%Z -> (lacks e <= allowed)%Z -> (draws <= length (rest_of e))%nat.
Proof. destruct Hc as (H1 & H2 & H3 & H4 & H5 & H6). intros He Ha. pose proof (rest_length e He). unfold draws, allowed in *. lia. Qed.

Lemma rest_kinds e : (0 <= e < rogue)%Z -> kinds honest withholding false (rest_of e) =
  let w := (pc_withheld c - if (e <? pc_withheld c)%Z then 1 else 0)%Z in
  {| ud_honest := n - rogue - pc_leftOut c; ud_withholding := w; ud_others := rogue - 1 - w; ud_afterHonest := false |}.
Proof.
  destruct Hc as (H1 & H2 & H3 & H4 & H5 & H6). intros He. pose proof (kinds_length honest withholding kinds_apart false (rest_of e)) as Hl.
  rewrite rest_length in Hl by lia. unfold lacks in Hl. rewrite (proj2 (Z.ltb_lt e rogue)) in Hl by lia. unfold pool_of, kinds in *. cbn [ud_honest ud_withholding ud_others] in Hl.
  assert (count withholding (rest_of e) = pc_withheld c - if (e <? pc_withheld c)%Z then 1 else 0)%Z as Hw.
  { unfold rest_of. rewrite count_without by first [apply held_NoDup | apply held_self; lia]. unfold withholding, held_by.
    rewrite (proj2 (Z.ltb_lt e rogue)) by lia. rewrite count_below by lia. done. }
  assert (count honest (rest_of e) = n - rogue - pc_leftOut c)%Z as Hh.
  { unfold rest_of. rewrite count_without by first [apply held_NoDup | apply held_self; lia]. unfold held_by.
    rewrite (proj2 (Z.ltb_lt e rogue)) by lia. pose proof (count_split is_rogue (seqZ 0 (n - pc_leftOut c))) as Hs.
    unfold is_rogue at 1 in Hs. rewrite count_below, length_seqZ in Hs by lia.
    rewrite (count_ext honest (fun x => negb (is_rogue x))) by (intros x _; apply honest_rogue).
    unfold honest. rewrite (proj2 (Z.leb_gt rogue e)) by lia. lia. }
  rewrite Hw, Hh in *. cbn zeta. f_equal. lia.
Qed.

Lemma rest_NoDup e : (0 <= e < n)%Z -> NoDup (rest_of e).
Proof.
  intros He. pose proof (held_NoDup e) as Hn. rewrite (without_perm e _ Hn (held_self e He)) in Hn. by apply NoDup_cons in Hn as [_ ?].
Qed.

Lemma rest_in_range e q : (0 <= e < n)%Z -> q ∈ selections draws (rest_of e) -> Forall (fun y => 0 <= y < n)%Z (e :: q).
Proof.
  destruct Hc as (H1 & H2 & H3 & H4 & H5 & H6). intros He (_ & _ & Hf)%in_selections; [|by apply rest_NoDup].
  constructor; [done|]. eapply Forall_impl; [exact Hf|]. intros y Hy. cbn in Hy. unfold rest_of, without in Hy.
  apply list_elem_of_In, filter_In in Hy as [Hy%list_elem_of_In _]. unfold held_by in Hy. destruct (e <? rogue)%Z; apply elem_of_seqZ in Hy; lia.
Qed.

Context (chains : Z -> list (list Z)) (Hall : forall e, (0 <= e < n)%Z -> lists (entry_chain (mirrorsOf c !!! Z.to_nat e) e (pc_hops c)) (chains e)).

(** A share of the chains of an entry as one of selections. *)
Lemma entry_share e kind (Q : list Z -> bool) : (0 <= e < n)%Z -> (lacks e <= allowed)%Z ->
  (forall q, q ∈ selections draws (rest_of e) -> kind (e :: q) = Q q) ->
  qc (count kind (chains e)) / qc (Z.of_nat (length (chains e))) = qc (count Q (selections draws (rest_of e))) / qc (falling draws (Z.of_nat (length (rest_of e)))).
Proof.
  destruct Hc as (H1 & H2 & H3 & H4 & H5 & H6). intros He Ha HQ. pose proof (Hall e He) as Hl. rewrite (list_lookup_total_correct _ _ _ (mirror_row e He)) in Hl.
  pose proof (chains_of_entry (row e) e (pc_hops c) (held_by e) ltac:(lia) (held_NoDup e) (held_self e He) (held_row e)) as Hk.
  pose proof (lists_perm _ _ _ Hl Hk) as E. fold draws in E. change (without e (held_by e)) with (rest_of e) in E.
  rewrite (count_perm _ _ _ E), E, length_map, length_selections, count_map. f_equal. f_equal. by apply count_ext.
Qed.

(** What a rogue entry's chains come to is what the code sums. *)
Lemma rogue_shares e : (0 <= e < rogue)%Z -> (lacks e <= allowed)%Z ->
  let w := (pc_withheld c - if (e <? pc_withheld c)%Z then 1 else 0)%Z in
  let sums := rogueEntryChains (F := Qc) (n - rogue - pc_leftOut c) w (rogue - 1 - w) (pc_hops c - 1) in
  let share kind := qc (count kind (chains e)) / qc (Z.of_nat (length (chains e))) in
  share (comes_up (extendsOf c)) = ec_comeUp sums /\
  share (fun p => negb (comes_up (extendsOf c) p)) = ec_failed sums /\
  share (fun p => comes_up (extendsOf c) p && both_ends is_rogue p) = ec_rogueExit sums /\
  share (fun p => comes_up (extendsOf c) p && existsb is_rogue p) = ec_comeUp sums.
Proof.
  pose proof Hc as (H1 & H2 & H3 & H4 & H5 & H6). intros He Ha. cbv zeta. unfold rogueEntryChains.
  set (u := {| ud_honest := _ |}). destruct (from_direct (pool_of u - (pc_hops c - 1)) draws u ∅) as [Hd _]; [unfold draws; lia | intros v s; by rewrite lookup_empty|].
  fold draws. rewrite Hd, direct_share. cbn [ec_comeUp ec_failed ec_rogueExit]. clear Hd.
  assert (u = kinds honest withholding false (rest_of e)) as -> by (symmetry; by apply rest_kinds).
  assert (0 <= e < n)%Z as He' by lia. pose proof (rest_enough e He' Ha) as Hle.
  assert (is_rogue e = true) as Hr by (apply Z.ltb_lt; lia). assert (honest e = false) as Hh by (by rewrite honest_rogue, Hr).
  assert (forall q, q ∈ selections draws (rest_of e) -> comes_up (extendsOf c) (e :: q) = up_from honest withholding false q) as Hup
    by (intros q Hq; rewrite comes_up_from by (by apply rest_in_range); by rewrite Hh).
  assert (qc (falling draws (Z.of_nat (length (rest_of e)))) <> 0) as Hne by (apply falling_ne; lia).
  assert (forall (Q : bool -> list Z -> bool) dead kind, (forall q, q ∈ selections draws (rest_of e) -> kind (e :: q) = Q false q) ->
    (forall after x p, Q after (x :: p) = if honest x then Q true p else if after && withholding x then dead else Q false p) ->
    qc (count kind (chains e)) / qc (Z.of_nat (length (chains e))) =
    share (fun after => bit (Q after [])) (bit dead) draws (kinds honest withholding false (rest_of e))) as Hshare.
  { intros Q dead kind Hkind HQ. rewrite (entry_share e kind (Q false)) by done. rewrite (count_share honest withholding kinds_apart Q dead HQ) by done. by field. }
  assert (forall after x p, up_from honest withholding after (x :: p) = if honest x then up_from honest withholding true p
    else if after && withholding x then false else up_from honest withholding false p) as Hstep.
  { intros after x p. cbn [up_from]. pose proof (kinds_apart x). destruct (honest x), (withholding x), after; cbn; try (by specialize (H eq_refl)); done. }
  split_and!.
  - by apply (Hshare (up_from honest withholding) false).
  - apply (Hshare (fun after p => negb (up_from honest withholding after p)) true); [intros q Hq; by rewrite Hup|].
    intros after x p. rewrite Hstep. by destruct (honest x), (after && withholding x).
  - rewrite (Hshare (fun after p => up_from honest withholding after p && rogue_end honest after p) false).
    + f_equal.
    + intros q Hq. rewrite Hup by done. cbn [both_ends]. rewrite Hr, <- rogue_end_last, Hh. done.
    + intros after x p. rewrite Hstep. cbn [rogue_end]. by destruct (honest x), (after && withholding x).
  - apply (Hshare (up_from honest withholding) false); [|done]. intros q Hq. rewrite Hup by done. cbn [existsb]. rewrite Hr. by rewrite andb_true_r.
Qed.

(** The chances of an honest entry: it gives no chain that fails. *)
Lemma honest_shares e : (rogue <= e < n)%Z -> (lacks e <= allowed)%Z ->
  let clean := product (F := Qc) (pc_hops c - 1) (fun i => qc (n - rogue - 1 - i) / qc (n - pc_withheld c - 1 - i)) in
  let share kind := qc (count kind (chains e)) / qc (Z.of_nat (length (chains e))) in
  share (comes_up (extendsOf c)) = 1 /\
  share (fun p => negb (comes_up (extendsOf c) p)) = 0 /\
  share (fun p => comes_up (extendsOf c) p && both_ends is_rogue p) = 0 /\
  share (fun p => comes_up (extendsOf c) p && existsb is_rogue p) = 1 - clean.
Proof.
  pose proof Hc as (H1 & H2 & H3 & H4 & H5 & H6). intros He Ha. cbv zeta. assert (0 <= e < n)%Z as He' by lia.
  assert (is_rogue e = false) as Hr by (apply Z.ltb_ge; lia). assert (lacks e = pc_withheld c) as Hw by (unfold lacks; by rewrite (proj2 (Z.ltb_ge e rogue)) by lia).
  pose proof (rest_enough e He' Ha) as Hle. pose proof (rest_length e He') as Hlen. rewrite Hw in Hlen.
  assert (qc (falling draws (Z.of_nat (length (rest_of e)))) <> 0) as Hne by (apply falling_ne; lia).
  assert (forall q, q ∈ selections draws (rest_of e) -> comes_up (extendsOf c) (e :: q) = true) as Hup.
  { intros q Hq. rewrite comes_up_from by (by apply rest_in_range). apply in_selections in Hq as (_ & _ & Hf); [|by apply rest_NoDup].
    generalize (honest e) as after. induction Hf as [|x q Hx _ IH]; intros after; [done|]. cbn [up_from]. rewrite IH, andb_true_r.
    assert (withholding x = false) as ->; [|by rewrite andb_false_r]. apply list_elem_of_In, filter_In in Hx as [Hx%list_elem_of_In _]. unfold held_by in Hx.
    rewrite (proj2 (Z.ltb_ge e rogue)) in Hx by lia. apply elem_of_seqZ in Hx. apply Z.ltb_ge. lia. }
  assert (forall b, qc (count (fun _ => b) (selections draws (rest_of e))) / qc (falling draws (Z.of_nat (length (rest_of e)))) = bit b) as Hb
    by (intros b; rewrite count_bit, length_selections; by field).
  split_and!.
  - rewrite (entry_share e _ (fun _ => true)) by done. apply Hb.
  - rewrite (entry_share e _ (fun _ => false)) by (try done; intros q Hq; by rewrite Hup). apply Hb.
  - rewrite (entry_share e _ (fun _ => false)) by (try done; intros q Hq; cbn [both_ends]; by rewrite Hr, andb_false_r). apply Hb.
  - rewrite (entry_share e _ (fun q => negb (forallb honest q))); [|done..|].
    + rewrite count_negb, length_selections, count_clean by done. rewrite Hlen.
      assert (count honest (rest_of e) = n - rogue - 1)%Z as ->.
      { unfold rest_of. rewrite count_without by first [apply held_NoDup | by apply held_self]. rewrite (honest_rogue e), Hr. cbn [negb].
        unfold held_by. rewrite (proj2 (Z.ltb_ge e rogue)) by lia.
        replace (n - pc_withheld c)%Z with ((rogue - pc_withheld c) + (n - rogue))%Z by lia. rewrite seqZ_app, count_app by lia.
        rewrite (count_none_of _ (seqZ (pc_withheld c) _)) by (intros x Hx%elem_of_seqZ; apply Z.leb_gt; lia).
        rewrite (count_ext _ (fun _ => true)) by (intros x Hx%elem_of_seqZ; apply Z.leb_le; lia). rewrite count_all, length_seqZ. lia. }
      replace (Z.of_nat draws) with (pc_hops c - 1)%Z by (unfold draws; lia). rewrite Hlen in Hne. field. exact Hne.
    + intros q Hq. rewrite Hup by done. cbn [existsb andb]. rewrite Hr. cbn [orb]. clear Hq. induction q as [|x q IH]; [done|]. cbn [existsb forallb].
      rewrite IH, (honest_rogue x). by destruct (is_rogue x).
Qed.

(** *** The sums of the code *)

(** The two kinds of rogue entries. *)
Definition of_withholding : entryChains Qc := rogueEntryChains (n - rogue - pc_leftOut c) (pc_withheld c - 1) (rogue - 1 - (pc_withheld c - 1)) (pc_hops c - 1).
Definition of_others : entryChains Qc := rogueEntryChains (n - rogue - pc_leftOut c) (pc_withheld c) (rogue - 1 - pc_withheld c) (pc_hops c - 1).

Definition clean : Qc := product (pc_hops c - 1) (fun i => qc (n - rogue - 1 - i) / qc (n - pc_withheld c - 1 - i)).

(** What the entries that are taken come to, from what each kind gives. *)
Definition weighted (a b h : Qc) : Qc :=
  (if (pc_leftOut c <=? allowed)%Z then qc (pc_withheld c) * a + qc (rogue - pc_withheld c) * b else 0) +
  (if (pc_withheld c <=? allowed)%Z then qc (n - rogue) * h else 0).

Lemma over_kinds kind (f : entryChains Qc -> Qc) h :
  (forall e, (0 <= e < rogue)%Z -> (lacks e <= allowed)%Z ->
    let w := (pc_withheld c - if (e <? pc_withheld c)%Z then 1 else 0)%Z in
    qc (count kind (chains e)) / qc (Z.of_nat (length (chains e))) =
    f (rogueEntryChains (n - rogue - pc_leftOut c) w (rogue - 1 - w) (pc_hops c - 1))) ->
  (forall e, (rogue <= e < n)%Z -> (lacks e <= allowed)%Z -> qc (count kind (chains e)) / qc (Z.of_nat (length (chains e))) = h) ->
  over c chains kind = weighted (f of_withholding) (f of_others) h.
Proof.
  pose proof Hc as (H1 & H2 & H3 & H4 & H5 & H6). intros Hr Hh. unfold over. apply qsum_entries; intros e He Ha.
  - rewrite Hr; [|lia | unfold lacks; by rewrite (proj2 (Z.ltb_lt e rogue)) by lia]. by rewrite (proj2 (Z.ltb_lt e (pc_withheld c))) by lia.
  - rewrite Hr; [|lia | unfold lacks; by rewrite (proj2 (Z.ltb_lt e rogue)) by lia]. rewrite (proj2 (Z.ltb_ge e (pc_withheld c))) by lia. by rewrite Z.sub_0_r.
  - apply Hh; [done|]. unfold lacks. by rewrite (proj2 (Z.ltb_ge e rogue)) by lia.
Qed.

Lemma rogue_kind_all hops honest rogue leftOut (s : mirrorSums) entries w :
  let sums := rogueEntryChains (F := Qc) (honest - leftOut) w (rogue - 1 - w) (hops - 1) in
  rogue_kind hops honest rogue leftOut s (entries, w) =
  {| ms_accepted := ms_accepted s; ms_up := ms_up s + qc entries * ec_comeUp sums; ms_down := ms_down s + qc entries * ec_failed sums;
     ms_bothEnds := ms_bothEnds s + qc entries * ec_rogueExit sums; ms_anyNode := ms_anyNode s + qc entries * ec_comeUp sums |}.
Proof.
  cbv zeta. unfold rogue_kind. destruct (Z.eqb_spec entries 0) as [->|_]; [|done]. change (qc 0) with 0. destruct s as [a b d e f]. cbn. f_equal; ring.
Qed.

Lemma honest_entries_exact : (if (0 <? n - rogue)%Z && (pc_withheld c <=? allowed)%Z then honest_entries n (pc_hops c) (n - rogue) (pc_withheld c) no_sums else no_sums) =
  let h := if (pc_withheld c <=? allowed)%Z then (n - rogue)%Z else 0%Z in
  {| ms_accepted := h; ms_up := qc h; ms_down := 0; ms_bothEnds := 0; ms_anyNode := qc h * (1 - clean) |}.
Proof.
  cbv zeta. destruct (pc_withheld c <=? allowed)%Z; [|rewrite andb_false_r; unfold no_sums; f_equal; change (n_of 0) with 0; change (qc 0) with 0; ring].
  destruct Hc as (H1 & H2 & H3 & H4 & H5 & H6). destruct (Z.ltb_spec 0 (n - rogue)); cbn [andb].
  - unfold honest_entries, no_sums. change (product _ _) with clean. cbn. change (qc 0) with 0. change (qc 1) with 1. f_equal; ring.
  - replace (n - rogue)%Z with 0%Z by lia. unfold no_sums. f_equal. cbn [n_of Qc_num]. change (qc 0) with 0. ring.
Qed.

Lemma rogue_entries_exact (h : Z) (x : Qc) :
  let s := {| ms_accepted := h; ms_up := qc h; ms_down := 0; ms_bothEnds := 0; ms_anyNode := x |} in
  (if (pc_leftOut c <=? allowed)%Z then rogue_entries (pc_hops c) (n - rogue) rogue (pc_leftOut c) (pc_withheld c) s else s) =
  let both f := if (pc_leftOut c <=? allowed)%Z then qc (pc_withheld c) * f of_withholding + qc (rogue - pc_withheld c) * f of_others else 0 in
  {| ms_accepted := (if (pc_leftOut c <=? allowed)%Z then rogue else 0) + h; ms_up := both ec_comeUp + qc h; ms_down := both ec_failed;
     ms_bothEnds := both ec_rogueExit; ms_anyNode := both ec_comeUp + x |}.
Proof.
  cbv zeta. destruct (pc_leftOut c <=? allowed)%Z; [|f_equal; ring].
  unfold rogue_entries. cbn [foldl]. rewrite !rogue_kind_all. fold of_withholding of_others. cbn [ms_accepted ms_up ms_down ms_bothEnds ms_anyNode].
  f_equal; [lia | ring..].
Qed.

Lemma MirrorCompromiseProbability_exact :
  let up := weighted (ec_comeUp of_withholding) (ec_comeUp of_others) 1 in
  MirrorCompromiseProbability (F := Qc) n (pc_hops c) rogue (pc_missing c) (pc_leftOut c) (pc_withheld c) =
  (weighted (ec_rogueExit of_withholding) (ec_rogueExit of_others) 0 / up,
   weighted (ec_comeUp of_withholding) (ec_comeUp of_others) (1 - clean) / up,
   1 - weighted 1 1 1 / qc n,
   weighted (ec_failed of_withholding) (ec_failed of_others) 0 / qc n).
Proof.
  pose proof Hc as (H1 & H2 & H3 & H4 & H5 & H6). cbv zeta. unfold MirrorCompromiseProbability.
  destruct (Z.ltb_spec (pc_hops c) 1), (Z.ltb_spec n (pc_hops c)), (Z.ltb_spec (pc_missing c) 0), (Z.ltb_spec (pc_leftOut c) 0),
    (Z.ltb_spec (n - rogue) (pc_leftOut c)), (Z.ltb_spec (pc_withheld c) 0), (Z.ltb_spec rogue (pc_withheld c)); try lia. cbn [orb]. fold allowed.
  rewrite honest_entries_exact. cbv zeta. rewrite rogue_entries_exact. cbv zeta. cbn [ms_accepted ms_up ms_down ms_bothEnds ms_anyNode].
  unfold weighted. set (lo := (pc_leftOut c <=? allowed)%Z). set (wh := (pc_withheld c <=? allowed)%Z).
  assert (forall A B C D A' B' C' D' : Qc, A = A' -> B = B' -> C = C' -> D = D' -> (A, B, C, D) = (A', B', C', D')) as Heq by congruence.
  cbn [n_div n_sub n_of Qc_num]. change (qc 1) with 1. apply Heq.
  - f_equal; [|f_equal]; destruct wh; change (qc 0) with 0; ring.
  - f_equal; [|f_equal]; destruct wh; change (qc 0) with 0; ring.
  - f_equal. f_equal. f_equal. rewrite qc_add. destruct lo, wh; qring.
  - f_equal. destruct wh; ring.
Qed.

End Config.

(** C36. The shares with rogue mirrors, exactly.  For every network [samplePaths] takes,
    [MirrorCompromiseProbability] over exact rationals is what all its chains come to:
    the entries whose mirror the client's own rule takes weigh the same, each chain an
    entry can give weighs the same among that entry's, and of those that every node on
    the way extends, the shares are the ones with both ends and with any node rogue;
    with them come the share of entries refused and the share of chains that fail on
    the way. *)
Theorem mirror_exhaustive c chains : configured c ->
  (forall e, (0 <= e < pc_nodes c)%Z -> lists (entry_chain (mirrorsOf c !!! Z.to_nat e) e (pc_hops c)) (chains e)) ->
  let rogue x := (x <? pc_rogue c)%Z in
  let up := comes_up (extendsOf c) in
  MirrorCompromiseProbability (F := Qc) (pc_nodes c) (pc_hops c) (pc_rogue c) (pc_missing c) (pc_leftOut c) (pc_withheld c) =
  (over c chains (fun p => up p && both_ends rogue p) / over c chains up, over c chains (fun p => up p && existsb rogue p) / over c chains up,
   1 - qc (Z.of_nat (length (taken_entries c))) / qc (pc_nodes c), over c chains (fun p => negb (up p)) / qc (pc_nodes c)).
Proof.
  intros Hc Hall. cbv zeta. change (fun x => (x <? pc_rogue c)%Z) with (is_rogue c). rewrite (MirrorCompromiseProbability_exact c Hc). cbv zeta.
  pose proof (fun e He Ha => rogue_shares c Hc chains Hall e He Ha) as Hr. pose proof (fun e He Ha => honest_shares c Hc chains Hall e He Ha) as Hh.
rewrite (over_kinds c Hc chains (comes_up (extendsOf c)) ec_comeUp 1);
    [|intros e He Ha; exact (proj1 (Hr e He Ha)) | intros e He Ha; exact (proj1 (Hh e He Ha))].
  rewrite (over_kinds c Hc chains (fun p => negb (comes_up (extendsOf c) p)) ec_failed 0);
    [|intros e He Ha; exact (proj1 (proj2 (Hr e He Ha))) | intros e He Ha; exact (proj1 (proj2 (Hh e He Ha)))].
  rewrite (over_kinds c Hc chains (fun p => comes_up (extendsOf c) p && both_ends (is_rogue c) p) ec_rogueExit 0);
    [|intros e He Ha; exact (proj1 (proj2 (proj2 (Hr e He Ha)))) | intros e He Ha; exact (proj1 (proj2 (proj2 (Hh e He Ha))))].
  rewrite (over_kinds c Hc chains (fun p => comes_up (extendsOf c) p && existsb (is_rogue c) p) ec_comeUp (1 - clean c));
    [|intros e He Ha; exact (proj2 (proj2 (proj2 (Hr e He Ha)))) | intros e He Ha; exact (proj2 (proj2 (proj2 (Hh e He Ha))))].
  replace (weighted c 1 1 1) with (qc (Z.of_nat (length (taken_entries c)))); [done|].
  unfold weighted. rewrite <- (qsum_entries c Hc (fun _ => 1) 1 1 1) by done. rewrite qsum_const. ring.
Qed.

(** ** The sample is of that population *)

Lemma mirrors_length c : length (mirrorsOf c) = Z.to_nat (pc_nodes c).
Proof. unfold mirrorsOf. by rewrite length_map, length_seqZ. Qed.

Lemma checkPaths_ok c : checkPaths c = Ok tt -> (1 <= pc_samples c)%Z /\ (0 <= pc_rogue c <= pc_nodes c)%Z /\ (0 <= pc_missing c)%Z /\
  (0 <= pc_leftOut c <= pc_nodes c - pc_rogue c)%Z /\ (0 <= pc_withheld c <= pc_rogue c)%Z.
Proof.
  unfold checkPaths. destruct (Z.ltb_spec (pc_samples c) 1); [done|].
  destruct (Z.ltb_spec (pc_rogue c) 0), (Z.ltb_spec (pc_nodes c) (pc_rogue c)); cbn [orb]; try done. destruct (Z.ltb_spec (pc_missing c) 0); [done|].
  destruct (Z.ltb_spec (pc_leftOut c) 0), (Z.ltb_spec (pc_nodes c - pc_rogue c) (pc_leftOut c)); cbn [orb]; try done.
  destruct (Z.ltb_spec (pc_withheld c) 0), (Z.ltb_spec (pc_rogue c) (pc_withheld c)); cbn [orb]; first [done | intros _; lia].
Qed.

(** A drawn chain is one of the chains of an entry that is taken. *)
Lemma drawn_entry c p : configured c -> drawn_from (mirrorsOf c) (pc_hops c) (pc_missing c) p ->
  exists e, e ∈ taken_entries c /\ entry_chain (mirrorsOf c !!! Z.to_nat e) e (pc_hops c) p.
Proof.
  intros Hc (e & mirror & Hm & He & Hhead & Hv & Hnd & Hl & Hf). exists e. rewrite (list_lookup_total_correct _ _ _ Hm). split; [|done].
  pose proof (lookup_lt_Some _ _ _ Hm) as Hlt. rewrite mirrors_length in Hlt. unfold taken_entries. apply list_elem_of_In, filter_In. split.
  - apply list_elem_of_In, elem_of_seqZ. lia.
  - apply bool_decide_eq_true. by rewrite (list_lookup_total_correct _ _ _ Hm).
Qed.

(** A report is about one population.  Every attempt of a sample is refused, fails
    on the way or gives a chain; each chain behind the measured shares is one of those
    whose exact shares [MirrorCompromiseProbability] gives for the same network, a
    chain of an entry the client takes that every node extends; the shares are of at
    least one chain, and the values printed next to them are of this configuration. *)
Theorem report_of_population Rand c w r w' : (pc_nodes c < 2 ^ 63)%Z -> samplePaths Rand c w = (Ok r, w') ->
  w' = w /\ configured c /\ exists paths refused failed,
    r = result_of c paths refused failed /\ paths <> [] /\ (0 <= refused)%Z /\ (0 <= failed)%Z /\
    (Z.of_nat (length paths) + refused + failed = pc_samples c)%Z /\
    Forall (fun p => comes_up (extendsOf c) p = true /\ exists e, e ∈ taken_entries c /\ entry_chain (mirrorsOf c !!! Z.to_nat e) e (pc_hops c) p) paths.
Proof.
  intros Hn. unfold samplePaths. intros H. apply bindM_ok in H as ([] & w1 & [Hck%checkPaths_ok ->]%lift_ok & H).
  apply bindM_ok in H as ([chosen refused] & w2 & Hs & H). pose proof (mirrors_length c) as Hm.
  assert (1 <= pc_hops c <= pc_nodes c)%Z as Hh.
  { unfold SampleMirrorPaths in Hs. rewrite Hm in Hs. destruct (Z.ltb_spec (pc_hops c) 1), (Z.ltb_spec (Z.of_nat (Z.to_nat (pc_nodes c))) (pc_hops c)); cbn [orb] in Hs; try done. lia. }
  assert (configured c) as Hc by (unfold configured; intuition lia).
  apply sampled_exact in Hs as (-> & H0 & Hl & Hf); [|lia].
  apply bindM_ok in H as ([paths failed] & w3 & [Hu ->]%lift_ok & H). apply survivors_exact in Hu as (_ & _ & -> & Hlen).
  set (up := List.filter _ _) in *. destruct (Nat.eqb_spec (length up) 0) as [|Hne]; [done|]. apply retM_ok in H as [[= ->] ->].
  split; [done|]. split; [done|]. exists up, refused, failed. split_and!; [done | intros E; by rewrite E in Hne | done | | lia |].
  - pose proof (List.filter_length_le (comes_up (extendsOf c)) chosen). fold up in H. lia.
  - apply Forall_forall. intros p [Hp%list_elem_of_In Hup]%list_elem_of_In%filter_In. split; [done|]. apply drawn_entry; [done|].
    exact (proj1 (Forall_forall _ _) Hf p Hp).
Qed.

(** ** Evaluation *)

Module ExposureDemo.

(** Two of five nodes rogue; each leaves a node out, one withholds its descriptor. *)
Definition cfg : pathsConfig :=
  {| pc_nodes := 5; pc_hops := 3; pc_rogue := 2; pc_missing := 1; pc_leftOut := 1; pc_withheld := 1; pc_samples := 1; pc_seed := 0 |}.

Definition chains (e : Z) : list (list Z) := map (cons e) (selections 2 (rest_of cfg e)).

Definition shares : Qc * Qc * Qc * Qc := MirrorCompromiseProbability 5 3 2 1 1 1.

(** Both ends, any node, refused and failed. *)
Example shares_are : map this [fst (fst (fst shares)); snd (fst (fst shares)); snd (fst shares); snd shares] = [1 # 14; 11 # 14; 0; 1 # 15]%Q /\
  map (fun e => length (chains e)) (seqZ 0 5) = [6; 6; 6; 6; 6]%nat.
Proof. vm_compute. auto. Qed.

Lemma chains_all e : (0 <= e < 5)%Z -> lists (entry_chain (mirrorsOf cfg !!! Z.to_nat e) e 3) (chains e).
Proof.
  intros He. assert (configured cfg) as Hc by (vm_compute; intuition discriminate).
  rewrite (list_lookup_total_correct _ _ _ (mirror_row cfg e He)).
  exact (chains_of_entry (row cfg e) e 3 (held_by cfg e) ltac:(lia) (held_NoDup cfg e) (held_self cfg Hc e He) (held_row cfg Hc e)).
Qed.

(** A sample of six chains. *)
Definition report : res pathsResult * World := Eval vm_compute in samplePaths PathsDemo.Rand PathsDemo.cfg PathsDemo.world.

Lemma report_so : samplePaths PathsDemo.Rand PathsDemo.cfg PathsDemo.world = report.
Proof. vm_compute. reflexivity. Qed.

(** Five chains came up, none was refused, one failed. *)
Example report_shares : match fst report with
  | Ok r => (pr_Chains r, CompromiseDemo.near (pr_Refused r) 0 1, CompromiseDemo.near (pr_Failed r) 1 6, CompromiseDemo.near (pr_EndsExpected r) 1 14)
  | Err _ => (0%Z, false, false, false)
  end = (5%Z, true, true, true).
Proof. vm_compute. reflexivity. Qed.

End ExposureDemo.

Lemma mirror_exhaustive_witness : configured ExposureDemo.cfg /\ exists up,
  fst (fst (fst ExposureDemo.shares)) = over ExposureDemo.cfg ExposureDemo.chains (fun p => comes_up (extendsOf ExposureDemo.cfg) p && both_ends (fun x => (x <? 2)%Z) p) / up.
Proof.
  assert (configured ExposureDemo.cfg) as Hc by (vm_compute; intuition discriminate). split; [exact Hc|].
  exists (over ExposureDemo.cfg ExposureDemo.chains (comes_up (extendsOf ExposureDemo.cfg))).
  pose proof (mirror_exhaustive ExposureDemo.cfg ExposureDemo.chains Hc ExposureDemo.chains_all) as H. cbv zeta in H.
  change (ExposureDemo.shares) with (MirrorCompromiseProbability (F := Qc) (pc_nodes ExposureDemo.cfg) (pc_hops ExposureDemo.cfg) (pc_rogue ExposureDemo.cfg)
    (pc_missing ExposureDemo.cfg) (pc_leftOut ExposureDemo.cfg) (pc_withheld ExposureDemo.cfg)).
  rewrite H. reflexivity.
Defined.

Lemma report_of_population_witness : exists r, samplePaths PathsDemo.Rand PathsDemo.cfg PathsDemo.world = (Ok r, PathsDemo.world) /\
  configured PathsDemo.cfg /\ pr_Chains r = 5%Z.
Proof.
  destruct ExposureDemo.report as [[r|e] w] eqn:E; [|discriminate E]. pose proof ExposureDemo.report_so as H. rewrite E in H.
  destruct (report_of_population PathsDemo.Rand PathsDemo.cfg PathsDemo.world r w (eq_refl : (5 < 2 ^ 63)%Z) H) as (-> & Hc & _).
  exists r. split; [exact H|]. split; [exact Hc|]. injection E as <-. reflexivity.
Defined.
