(* ===== verification/Ranking.v ===== *)
(** * Ranking: how well an observer links flows

    Models [src/lab/metrics/correlation.go] and [src/lab/metrics/cost.go]: the series
    an observer builds from the times of cells, their correlation, the ranking of pairs
    of an entry and an exit by it, and what is read off a ranking.  As in Compromise the
    formulas are written over [Num], with the code their instance at 64-bit floating
    point; scores are compared through [Ordered], so that the theorems hold for any
    values that are in order.  [sort.Slice] leaves open how it orders equal scores:
    here they stay as they were, and the theorems show that it does not matter.
    The error function, its inverse and the power function of package math, and the
    generator of package math/rand, are arguments.  Floats are computed without the fused
    multiply-add that Go allows.  No value here is a NaN: [ScorePairs] puts
    [undefinedScore] in the place of one, and a NaN that reached [roc] some other
    way would keep its loop from going on, where [roc_from] moves past it. *)

From Stdlib Require Import Strings.Byte Strings.String QArith.QArith_base QArith.Qcanon setoid_ring.Field Sorting.Sorted Floats.SpecFloat.
From S2P Require Import Prelude Effects Limits State Counting Compromise.

#[local] Open Scope Z_scope.

(** ** Comparisons *)

Class Ordered (V : Type) : Type := { v_ltb : V -> V -> bool; v_leb : V -> V -> bool; v_eqb : V -> V -> bool }.

#[export] Instance f64_ordered : Ordered f64 := {| v_ltb := SFltb; v_leb := SFleb; v_eqb := SFeqb |}.

#[export] Instance Z_ordered : Ordered Z := {| v_ltb := Z.ltb; v_leb := Z.leb; v_eqb := Z.eqb |}.

#[export] Instance Qc_ordered : Ordered Qc :=
  {| v_ltb := fun x y => match (x ?= y)%Qc with Lt => true | _ => false end;
     v_leb := fun x y => match (x ?= y)%Qc with Gt => false | _ => true end;
     v_eqb := fun x y => match (x ?= y)%Qc with Eq => true | _ => false end |}.

(** Sorting by [less]. *)
Fixpoint insert_by {A} (less : A -> A -> bool) (x : A) (l : list A) : list A :=
  match l with
  | [] => [x]
  | y :: l => if less y x then y :: insert_by less x l else x :: y :: l
  end.

Definition sort_by {A} (less : A -> A -> bool) (l : list A) : list A := foldr (insert_by less) [] l.

(** The longest beginning of which every element passes, and what is behind it. *)
Fixpoint span {A} (f : A -> bool) (l : list A) : list A * list A :=
  match l with
  | [] => ([], [])
  | x :: l => if f x then let '(same, rest) := span f l in (x :: same, rest) else ([], x :: l)
  end.

(** ** Series and their correlation *)

Definition binWidth (bin : Z) : Z := if bin <=? 0 then 100 * Millisecond else bin.

Section Series.
Context {F : Type} {N : Num F} {O : Ordered F}.
#[local] Open Scope num_scope.

(** Cells per bin over [0, window). *)
Definition Bin (events : list Z) (window bin : Z) : list F :=
  let bin := binWidth bin in
  let out := replicate (Z.to_nat (Z.quot (window + bin - 1)%Z bin)) (n_of 0) in
  foldl (fun out e => if (0 <=? e) && (e <? window) then alter (fun x => x + n_of 1) (Z.to_nat (Z.quot e bin)) out else out) out events.

Definition total (l : list F) : F := foldl n_add (n_of 0) l.

(** The sums of [Pearson]: of the products of the deviations, and of the squares of each. *)
Definition deviations (a b : list F) : F * F * F :=
  let n := n_of (Z.of_nat (Nat.min (length a) (length b))) in
  let pairs := zip a b in
  let ma := total (map fst pairs) / n in
  let mb := total (map snd pairs) / n in
  foldl (fun '(num, da, db) '(x, y) =>
           let x := x - ma in
           let y := y - mb in
           (num + x * y, da + x * x, db + y * y)) (n_of 0, n_of 0, n_of 0) pairs.

Definition Pearson_with (sqrt : F -> F) (a b : list F) : F :=
  if (Nat.min (length a) (length b) =? 0)%nat then n_nan
  else
    let '(num, da, db) := deviations a b in
    if v_eqb da (n_of 0) || v_eqb db (n_of 0) then n_nan else num / sqrt (da * db).

End Series.

Definition f64_sqrt : f64 -> f64 := SFsqrt 53 1024.

Definition f64_isnan (x : f64) : bool := match x with S754_nan => true | _ => false end.

Definition Pearson (a b : list f64) : f64 := Pearson_with f64_sqrt a b.

(** [math.Round], [math.Floor] and [math.Ceil] of what has a fraction; the whole part of
    [2 ^ e * m] is given to [whole] with the divisor [2 ^ -e]. *)
Definition f64_to_whole (whole : bool -> Z -> Z -> Z) (x : f64) : f64 :=
  match x with
  | S754_finite s m e =>
      if 0 <=? e then x
      else
        let q := whole s (Z.pos m) (2 ^ (- e)) in
        if q =? 0 then S754_zero s else binary_normalize 53 1024 (if s then - q else q) 0 s
  | _ => x
  end.

(** Half away from zero. *)
Definition math_Round : f64 -> f64 := f64_to_whole (fun _ m d => (m + d / 2) / d).
Definition math_Floor : f64 -> f64 := f64_to_whole (fun s m d => if s : bool then (m + d - 1) / d else m / d).
Definition math_Ceil : f64 -> f64 := f64_to_whole (fun s m d => if s : bool then m / d else (m + d - 1) / d).

(** [math.Max] and [math.Min], which look for an infinity before NaN. *)
Definition math_Max (x y : f64) : f64 :=
  match x, y with
  | S754_infinity false, _ | _, S754_infinity false => S754_infinity false
  | _, _ => f64_max x y
  end.

Definition math_Min (x y : f64) : f64 :=
  match x, y with
  | S754_infinity true, _ | _, S754_infinity true => S754_infinity true
  | _, _ => f64_min x y
  end.

(** ** Scores *)

Record Score {V : Type} : Type := { sc_Entry : Z; sc_Exit : Z; sc_Value : V; sc_True : bool }.
Arguments Score : clear implicits.

(** [undefined] *)
Definition undefinedScore : f64 := f64_of_Z (-2).

Definition scoreValue (v : f64) : f64 :=
  let v := if f64_isnan v then undefinedScore else v in
  f64_div (math_Round (f64_mul v (f64_of_Z 1000000000))) (f64_of_Z 1000000000).

(** A key that the map does not hold reads as 0. *)
Definition ScorePairs (entry exit : list (list f64)) (truth : gmap Z Z) : list (Score f64) :=
  List.concat (imap (fun i a => imap (fun j b =>
    {| sc_Entry := Z.of_nat i; sc_Exit := Z.of_nat j; sc_Value := scoreValue (Pearson a b);
       sc_True := default 0 (truth !! Z.of_nat i) =? Z.of_nat j |}) exit) entry).

Definition UndefinedPairs (scores : list (Score f64)) : Z :=
  Z.of_nat (length (List.filter (fun s => SFeqb (sc_Value s) undefinedScore) scores)).

Section Rank.
Context {V : Type} {OV : Ordered V} {F : Type} {N : Num F}.
#[local] Open Scope num_scope.

Definition by_value (s t : Score V) : bool := v_ltb (sc_Value s) (sc_Value t).
Definition same_value (s t : Score V) : bool := v_eqb (sc_Value t) (sc_Value s).

(** The ranks of a sorted list that starts at place [i]: those of a tie share their mean. *)
Fixpoint ranks_from (fuel : nat) (i : Z) (sorted : list (Score V)) : list F :=
  match fuel, sorted with
  | S fuel, s :: rest =>
      let '(same, rest) := span (same_value s) rest in
      let j := (i + Z.of_nat (length same))%Z in
      let avg := n_of (i + j)%Z / n_of 2 + n_of 1 in
      replicate (S (length same)) avg ++ ranks_from fuel (j + 1) rest
  | _, _ => []
  end.

(** [positives], [negatives] and [rankSum]. *)
Record aucSums : Type := { au_positives : F; au_negatives : F; au_rankSum : F }.

Definition auc_step (u : aucSums) (sr : Score V * F) : aucSums :=
  if sc_True (fst sr)
  then {| au_positives := au_positives u + n_of 1; au_negatives := au_negatives u; au_rankSum := au_rankSum u + snd sr |}
  else {| au_positives := au_positives u; au_negatives := au_negatives u + n_of 1; au_rankSum := au_rankSum u |}.

Definition auc_sums (sorted : list (Score V)) : aucSums :=
  foldl auc_step {| au_positives := n_of 0; au_negatives := n_of 0; au_rankSum := n_of 0 |} (zip sorted (ranks_from (length sorted) 0 sorted)).

Context {O : Ordered F}.

(** [AUC] once the scores are sorted. *)
Definition auc_sorted (sorted : list (Score V)) : F :=
  let u := auc_sums sorted in
  let p := au_positives u in
  let n := au_negatives u in
  if v_eqb p (n_of 0) || v_eqb n (n_of 0) then n_nan
  else (au_rankSum u - p * (p + n_of 1) / n_of 2) / (p * n).

Definition AUC (scores : list (Score V)) : F := auc_sorted (sort_by by_value scores).

(** *** The curve *)

Record rocPoint : Type := { ro_fpr : F; ro_tpr : F }.

(** How many of a list are true and how many are not. *)
Definition tally (l : list (Score V)) : F * F :=
  foldl (fun '(p, n) s => if sc_True s then (p + n_of 1, n) else (p, n + n_of 1)) (n_of 0, n_of 0) l.

Fixpoint roc_from (fuel : nat) (positives negatives tp fp : F) (sorted : list (Score V)) : list rocPoint :=
  match fuel, sorted with
  | S fuel, s :: rest =>
      let '(same, rest) := span (same_value s) rest in
      let '(tp, fp) := foldl (fun '(p, n) s => if sc_True s then (p + n_of 1, n) else (p, n + n_of 1)) (tp, fp) (s :: same) in
      {| ro_fpr := fp / negatives; ro_tpr := tp / positives |} :: roc_from fuel positives negatives tp fp rest
  | _, _ => []
  end.

Definition roc_sorted (sorted : list (Score V)) : list rocPoint :=
  let '(positives, negatives) := tally sorted in
  if v_eqb positives (n_of 0) || v_eqb negatives (n_of 0) then []
  else {| ro_fpr := n_of 0; ro_tpr := n_of 0 |} :: roc_from (length sorted) positives negatives (n_of 0) (n_of 0) sorted.

Definition roc (scores : list (Score V)) : list rocPoint := roc_sorted (sort_by (fun s t => by_value t s) scores).

Definition tpr_step (mathMax : F -> F -> F) (target : F) (best : F) (ab : rocPoint * rocPoint) : F :=
  let '(a, b) := ab in
  if v_leb (ro_fpr b) target then mathMax best (ro_tpr b)
  else if v_leb (ro_fpr a) target then
    let frac := (target - ro_fpr a) / (ro_fpr b - ro_fpr a) in
    mathMax best (ro_tpr a + frac * (ro_tpr b - ro_tpr a))
  else best.

Definition TPRAtFPR_with (mathMax : F -> F -> F) (scores : list (Score V)) (target : F) : F :=
  match roc scores with
  | [] => n_nan
  | points => foldl (tpr_step mathMax target) (n_of 0) (zip points (tail points))
  end.

(** *** The best guess for each flow *)

(** An index of a slice. *)
Definition at_index {A} (l : list A) (i : Z) : res A :=
  match (if i <? 0 then None else l !! Z.to_nat i) with
  | Some a => Ok a
  | None => Err (Other "index out of range")
  end.

Definition best_step (best : list V) (s : Score V) : res (list V) :=
  let? b := at_index best (sc_Entry s) in
  Ok (if v_ltb b (sc_Value s) then <[Z.to_nat (sc_Entry s) := sc_Value s]> best else best).

Fixpoint rfold {A B} (f : A -> B -> res A) (a : A) (l : list B) : res A :=
  match l with
  | [] => Ok a
  | b :: l => let? a := f a b in rfold f a l
  end.

(** [tied] and [hit] of a flow. *)
Definition tie_step (best : list V) (ties : list (Z * bool)) (s : Score V) : list (Z * bool) :=
  match best !! Z.to_nat (sc_Entry s) with
  | Some v => if v_eqb (sc_Value s) v then alter (fun '(tied, hit) => ((tied + 1)%Z, hit || sc_True s)) (Z.to_nat (sc_Entry s)) ties else ties
  | None => ties
  end.

(** [least] is what every value is above, minus infinity in the code. *)
Definition TopOneAccuracy (least : V) (scores : list (Score V)) (flows : Z) : res F :=
  let? best := rfold best_step (replicate (Z.to_nat flows) least) scores in
  let ties := foldl (tie_step best) (replicate (Z.to_nat flows) (0%Z, false)) scores in
  let sum := foldl (fun sum '(tied, hit) => if hit : bool then sum + n_of 1 / n_of tied else sum) (n_of 0) ties in
  Ok (sum / n_of flows).

Definition group_step (groups : list (list (Score V))) (s : Score V) : res (list (list (Score V))) :=
  let? g := at_index groups (sc_Entry s) in
  Ok (<[Z.to_nat (sc_Entry s) := g ++ [s]]> groups).

Definition byEntry (scores : list (Score V)) (flows : Z) : res (list (list (Score V))) :=
  rfold group_step (replicate (Z.to_nat flows) []) scores.

End Rank.
Arguments rocPoint : clear implicits.
Arguments aucSums : clear implicits.

Definition TPRAtFPR (scores : list (Score f64)) (target : f64) : f64 := TPRAtFPR_with math_Max scores target.

(** ** The interval of an AUC *)

Record Interval : Type := { iv_Point : f64; iv_Low : f64; iv_High : f64 }.

(** A decimal of the source, [a / b]. *)
Definition decimal (a b : Z) : f64 := f64_div (f64_of_Z a) (f64_of_Z b).

Definition quantile (sorted : list f64) (p : f64) : res f64 :=
  let last := Z.of_nat (length sorted) - 1 in
  if SFleb p (f64_of_Z 0) then at_index sorted 0
  else if SFleb (f64_of_Z 1) p then at_index sorted last
  else
    let pos := f64_mul p (f64_of_Z last) in
    let lo := f64_to_i64 (math_Floor pos) in
    let hi := f64_to_i64 (math_Ceil pos) in
    let? x := at_index sorted lo in
    let? y := at_index sorted hi in
    Ok (f64_add x (f64_mul (f64_sub pos (f64_of_Z lo)) (f64_sub y x))).

Section Bootstrap.
Context (Erf Erfinv : f64 -> f64) (Pow : f64 -> f64 -> f64) (Intn : Z -> Z -> nat -> Z).

Definition math_Sqrt2 : f64 := f64_sqrt (f64_of_Z 2).

Definition normCDF (x : f64) : f64 := f64_mul (decimal 1 2) (f64_add (f64_of_Z 1) (Erf (f64_div x math_Sqrt2))).

Definition normQuantile (p : f64) : f64 := f64_mul math_Sqrt2 (Erfinv (f64_sub (f64_mul (f64_of_Z 2) p) (f64_of_Z 1))).

(** The groups at the given places, one after the other. *)
Fixpoint pooled (groups : list (list (Score f64))) (places : list Z) : res (list (Score f64)) :=
  match places with
  | [] => Ok []
  | i :: places =>
      let? g := at_index groups i in
      let? pool := pooled groups places in
      Ok (g ++ pool)
  end.

(** The AUC of each pool, those that are undefined left out. *)
Fixpoint aucs (groups : list (list (Score f64))) (pools : list (list Z)) : res (list f64) :=
  match pools with
  | [] => Ok []
  | places :: pools =>
      let? pool := pooled groups places in
      let? rest := aucs groups pools in
      let v := AUC pool in
      Ok (if f64_isnan v then rest else v :: rest)
  end.

(** The flows that resample [r] draws. *)
Definition resample (seed flows : Z) (r : nat) : list Z :=
  map (fun i => Intn seed flows (r * Z.to_nat flows + i)) (seq 0 (Z.to_nat flows)).

(** All the flows but one. *)
Definition leaveOut (flows leave : Z) : list Z := List.filter (fun i => negb (i =? leave)) (seqZ 0 flows).

Definition acceleration (jack : list f64) : f64 :=
  if (length jack <=? 1)%nat then f64_of_Z 0
  else
    let mean := f64_div (total jack) (f64_of_Z (Z.of_nat (length jack))) in
    let '(num, den) := foldl (fun '(num, den) v =>
      let d := f64_sub mean v in (f64_add num (f64_mul (f64_mul d d) d), f64_add den (f64_mul d d))) (f64_of_Z 0, f64_of_Z 0) jack in
    if SFltb (f64_of_Z 0) den then f64_div num (f64_mul (f64_of_Z 6) (Pow den (decimal 3 2))) else f64_of_Z 0.

Definition adjust (z0 accel alpha : f64) : f64 :=
  let z := f64_add z0 (normQuantile alpha) in
  normCDF (f64_add z0 (f64_div z (f64_sub (f64_of_Z 1) (f64_mul accel z)))).

(** [z0], from how many of the samples are below the point and how many are at it. *)
Definition bias (point : f64) (samples : list f64) : f64 :=
  let b := f64_of_Z (Z.of_nat (length samples)) in
  let below := f64_of_Z (Z.of_nat (length (List.filter (fun v => SFltb v point) samples))) in
  let equal := f64_of_Z (Z.of_nat (length (List.filter (fun v => negb (SFltb v point) && SFeqb v point) samples))) in
  let p0 := f64_div (f64_add below (f64_mul (decimal 1 2) equal)) b in
  let half := f64_div (decimal 1 2) b in
  normQuantile (math_Min (math_Max p0 half) (f64_sub (f64_of_Z 1) half)).

Definition BootstrapAUC (scores : list (Score f64)) (flows resamples seed : Z) : res Interval :=
  let point := AUC scores in
  let out := {| iv_Point := point; iv_Low := S754_nan; iv_High := S754_nan |} in
  if (resamples <=? 0) || (flows <=? 1) || f64_isnan point then Ok out
  else
    let? groups := byEntry scores flows in
    let? drawn := aucs groups (map (resample seed flows) (seq 0 (Z.to_nat resamples))) in
    match sort_by SFltb drawn with
    | [] => Ok out
    | low :: _ as samples =>
        if SFeqb low (List.last samples low) then Ok {| iv_Point := point; iv_Low := low; iv_High := low |}
        else
          let? jack := aucs groups (map (leaveOut flows) (seqZ 0 flows)) in
          let z0 := bias point drawn in
          let accel := acceleration jack in
          let? low := quantile samples (adjust z0 accel (decimal 25 1000)) in
          let? high := quantile samples (adjust z0 accel (decimal 975 1000)) in
          Ok {| iv_Point := point; iv_Low := low; iv_High := high |}
    end.

End Bootstrap.

(** ** What the cells cost *)

Definition CellsWithin (traces : list (list Z)) (window : Z) : Z :=
  foldl (fun n t => foldl (fun n e => if e <? window then n + 1 else n) n t) 0 traces.

Definition Multiplier (cells messages : Z) : f64 :=
  if messages <=? 0 then S754_nan else f64_div (f64_of_Z cells) (f64_of_Z messages).

Section Median.
Context {F : Type} {N : Num F} {O : Ordered F}.

Definition Median (values : list F) : F :=
  let sorted := sort_by v_ltb values in
  let mid := (length values / 2)%nat in
  match sorted with
  | [] => n_nan
  | x :: _ => if (length values mod 2 =? 1)%nat then nth mid sorted x else n_div (n_add (nth (mid - 1) sorted x) (nth mid sorted x)) (n_of 2)
  end.

End Median.

(** [None] when there is nothing to take a percentile of. *)
Definition Percentile (samples : list Z) (q : f64) : option Z :=
  if (length samples =? 0)%nat || negb (SFleb (f64_of_Z 0) q && SFleb q (f64_of_Z 1)) then None
  else
    let sorted := sort_by Z.ltb samples in
    let pos := f64_mul q (f64_of_Z (Z.of_nat (length sorted) - 1)) in
    let lo := f64_to_i64 pos in
    let x := nth (Z.to_nat lo) sorted 0 in
    if Z.of_nat (length sorted) <=? lo + 1 then Some x
    else
      let y := nth (Z.to_nat (lo + 1)) sorted 0 in
      let frac := f64_sub pos (f64_of_Z lo) in
      Some (x + f64_to_i64 (math_Round (f64_mul frac (f64_of_Z (y - x))))).

(** ** Orders *)

(** Values that are in order compare as whole numbers do. *)
Class OrderKey (V : Type) `{Ordered V} : Type := {
  key : V -> Z;
  in_order : V -> bool;
  ltb_key x y : in_order x = true -> in_order y = true -> v_ltb x y = (key x <? key y);
  eqb_key x y : in_order x = true -> in_order y = true -> v_eqb x y = (key x =? key y)
}.

(** What a 64-bit float can hold, NaN apart. *)
Definition f64_in_order (x : f64) : bool :=
  match x with
  | S754_nan => false
  | S754_finite _ m e => (Z.pos m <? 2 ^ 53) && (-1074 <=? e) && (e <=? 971)
  | _ => true
  end.

Definition f64_key (x : f64) : Z :=
  match x with
  | S754_nan | S754_zero _ => 0
  | S754_infinity s => if s then - 2 ^ 70 else 2 ^ 70
  | S754_finite s m e => let k := (e + 1075) * 2 ^ 53 + Z.pos m in if s then - k else k
  end.

Lemma f64_compare_key x y : f64_in_order x = true -> f64_in_order y = true -> SFcompare x y = Some (f64_key x ?= f64_key y).
Proof.
  destruct x as [sx|[]| |[] mx ex], y as [sy|[]| |[] my ey]; cbn [f64_in_order]; try done; rewrite ?andb_true_iff, ?Z.ltb_lt, ?Z.leb_le; intros Hx Hy;
    cbn [SFcompare f64_key]; f_equal; symmetry; try (apply Z.compare_lt_iff; lia); try (apply Z.compare_gt_iff; lia); try reflexivity.
  - destruct (Z.compare_spec ex ey) as [->|Hlt|Hgt]; [|apply Z.compare_gt_iff; lia | apply Z.compare_lt_iff; lia].
    change (CompOpp (Pos.compare_cont Eq mx my)) with (CompOpp (Z.pos mx ?= Z.pos my)). rewrite <- Z.compare_antisym.
    destruct (Z.compare_spec (Z.pos my) (Z.pos mx)); [apply Z.compare_eq_iff; lia | apply Z.compare_lt_iff; lia | apply Z.compare_gt_iff; lia].
  - destruct (Z.compare_spec ex ey) as [->|Hlt|Hgt]; [|apply Z.compare_lt_iff; lia | apply Z.compare_gt_iff; lia].
    change (Pos.compare_cont Eq mx my) with (Z.pos mx ?= Z.pos my).
    destruct (Z.compare_spec (Z.pos mx) (Z.pos my)); [apply Z.compare_eq_iff; lia | apply Z.compare_lt_iff; lia | apply Z.compare_gt_iff; lia].
Qed.

#[export] Instance f64_order_key : OrderKey f64.
Proof.
  refine {| key := f64_key; in_order := f64_in_order |}; intros x y Hx Hy; cbn; unfold SFltb, SFeqb; rewrite (f64_compare_key x y Hx Hy).
  - by unfold Z.ltb.
  - destruct (Z.compare_spec (f64_key x) (f64_key y)), (Z.eqb_spec (f64_key x) (f64_key y)); (done || lia).
Defined.

#[export] Instance Z_order_key : OrderKey Z.
Proof. by refine {| key := fun x => x; in_order := fun _ => true |}. Defined.

(** ** Sorted lists and their ties *)

Lemma insert_by_perm {A} (less : A -> A -> bool) x l : insert_by less x l ≡ₚ x :: l.
Proof. induction l as [|y l IH]; [done|]. cbn [insert_by]. destruct (less y x); [|done]. rewrite IH. apply Permutation_swap. Qed.

Lemma sort_by_perm {A} (less : A -> A -> bool) l : sort_by less l ≡ₚ l.
Proof. induction l as [|x l IH]; [done|]. cbn. by rewrite insert_by_perm, IH. Qed.

(** Sorting by a number. *)
Lemma insert_by_sorted {A} (less : A -> A -> bool) (k : A -> Z) x l : (forall y, y ∈ l -> less y x = (k y <? k x)) ->
  StronglySorted (fun x y => k x <= k y) l -> StronglySorted (fun x y => k x <= k y) (insert_by less x l).
Proof.
  intros Hl Hs. induction Hs as [|y l Hs IH Hy]; [repeat constructor|]. cbn [insert_by]. rewrite Hl by set_solver. destruct (Z.ltb_spec (k y) (k x)).
  - constructor; [apply IH; intros; apply Hl; set_solver|]. rewrite insert_by_perm. constructor; [lia | done].
  - constructor; [by constructor|]. constructor; [lia|]. eapply Forall_impl; [exact Hy|]. cbn. lia.
Qed.

Lemma sort_by_sorted {A} (less : A -> A -> bool) (k : A -> Z) l : (forall x y, x ∈ l -> y ∈ l -> less x y = (k x <? k y)) ->
  StronglySorted (fun x y => k x <= k y) (sort_by less l).
Proof.
  induction l as [|x l IH]; intros Hl; [constructor|]. cbn [sort_by foldr]. fold (sort_by less l).
  apply insert_by_sorted; [|apply IH; intros; apply Hl; set_solver]. intros y Hy. rewrite sort_by_perm in Hy. apply Hl; set_solver.
Qed.

Lemma span_app {A} (f : A -> bool) l : forall a b, span f l = (a, b) ->
  l = a ++ b /\ Forall (fun x => f x = true) a /\ match b with [] => True | x :: _ => f x = false end.
Proof.
  induction l as [|x l IH]; intros a b; cbn [span]; [by intros [= <- <-]|]. destruct (f x) eqn:E; [|by intros [= <- <-]].
  destruct (span f l) as [a' b']. intros [= <- <-]. destruct (IH _ _ eq_refl) as (-> & Ha & Hb). split; [done|]. split; [by constructor | done].
Qed.

Lemma sorted_impl {A} (R S : A -> A -> Prop) l : (forall x y, R x y -> S x y) -> StronglySorted R l -> StronglySorted S l.
Proof. intros HRS. induction 1 as [|x l _ IH Hx]; [constructor|]. constructor; [done|]. eapply Forall_impl; [exact Hx | apply HRS]. Qed.

#[export] Instance le_flip_antisymm : AntiSymm (=) (fun x y => y <= x)%Z.
Proof. intros x y. lia. Qed.

Section Ties.
Context {V : Type} `{OrderKey V}.

Definition sk (s : Score V) : Z := key (sc_Value s).
Definition ordered (l : list (Score V)) : Prop := Forall (fun s => in_order (sc_Value s) = true) l.

(** A list in groups of one value, each below the next. *)
Definition ascending (l : list (Score V)) : Prop := ordered l /\ StronglySorted (fun s t => sk s <= sk t) l.
Definition descending (l : list (Score V)) : Prop := ordered l /\ StronglySorted (fun s t => sk t <= sk s) l.

Lemma by_value_key s t : in_order (sc_Value s) = true -> in_order (sc_Value t) = true -> by_value s t = (sk s <? sk t).
Proof. apply ltb_key. Qed.

Lemma same_value_key s t : in_order (sc_Value s) = true -> in_order (sc_Value t) = true -> same_value s t = (sk t =? sk s).
Proof. intros Hs Ht. by apply eqb_key. Qed.

Lemma ordered_at l x : ordered l -> x ∈ l -> in_order (sc_Value x) = true.
Proof. intros Hl. exact (proj1 (Forall_forall _ _) Hl x). Qed.

(** The group at the front. *)
Lemma front_group (R : Z -> Z -> Prop) `{!AntiSymm (=) R} s rest same rest' : ordered (s :: rest) -> StronglySorted (fun s t => R (sk s) (sk t)) (s :: rest) ->
  span (same_value s) rest = (same, rest') ->
  rest = same ++ rest' /\ Forall (fun t => sk t = sk s) (s :: same) /\ Forall (fun t => R (sk s) (sk t) /\ sk t <> sk s) rest' /\
  ordered rest' /\ StronglySorted (fun s t => R (sk s) (sk t)) rest'.
Proof.
  intros Ho Hs (-> & Ha & Hb)%span_app. split; [done|]. apply Forall_cons in Ho as [Hos Ho]. apply Forall_app in Ho as [Hoa Hob].
  apply StronglySorted_inv in Hs as [Hs Hall]. apply Forall_app in Hall as [_ Hall].
  split; [constructor; [done|]; apply Forall_forall; intros t Ht|].
  { pose proof (proj1 (Forall_forall _ _) Ha t Ht) as E. cbn in E. rewrite same_value_key in E by (try done; exact (proj1 (Forall_forall _ _) Hoa t Ht)). by apply Z.eqb_eq. }
  assert (StronglySorted (fun s t => R (sk s) (sk t)) rest') as Hr by (clear -Hs; induction same as [|x same IH]; [done|]; apply IH; by apply StronglySorted_inv in Hs as [? _]).
  split; [|done]. destruct rest' as [|x rest']; [done|]. apply Forall_cons in Hob as [Hx _]. apply Forall_cons in Hall as [Hsx Hall].
  rewrite same_value_key in Hb by done. apply Z.eqb_neq in Hb. constructor; [done|]. apply StronglySorted_inv in Hr as [_ Hxr].
  apply Forall_forall. intros t Ht. pose proof (proj1 (Forall_forall _ _) Hxr t Ht) as E1. pose proof (proj1 (Forall_forall _ _) Hall t Ht) as E2. cbn in E1, E2.
  split; [done|]. intros E. rewrite E in E1. apply Hb. by apply (anti_symm R).
Qed.

Lemma sorted_ascending scores : ordered scores -> ascending (sort_by by_value scores).
Proof.
  intros Ho. split; [unfold ordered; by rewrite sort_by_perm|]. apply sort_by_sorted. intros x y Hx Hy. apply by_value_key; by eapply ordered_at.
Qed.

Lemma sorted_descending scores : ordered scores -> descending (sort_by (fun s t => by_value t s) scores).
Proof.
  intros Ho. split; [unfold ordered; by rewrite sort_by_perm|].
  pose proof (sort_by_sorted (fun s t => by_value t s) (fun s => - sk s) scores) as Hs. eapply sorted_impl; [|apply Hs].
  - cbn. lia.
  - intros x y Hx Hy. rewrite by_value_key by (by eapply ordered_at). destruct (Z.ltb_spec (sk y) (sk x)), (Z.ltb_spec (- sk x) (- sk y)); (done || lia).
Qed.

End Ties.

#[local] Open Scope Qc_scope.

(** ** Bins *)

Lemma alter_fold {A E : Type} (f : A -> A) (at_ : E -> option nat) (k : nat) (events : list E) : forall out : list A,
  foldl (fun out e => match at_ e with Some i => alter f i out | None => out end) out events !! k =
  Nat.iter (length (List.filter (fun e => bool_decide (at_ e = Some k)) events)) f <$> out !! k.
Proof.
  induction events as [|e events IH]; intros out; cbn [foldl List.filter]; [by destruct (out !! k)|].
  rewrite IH. destruct (at_ e) as [i|]; [|by rewrite bool_decide_false].
  destruct (decide (i = k)) as [->|Hne]; [rewrite bool_decide_true, list_lookup_alter_eq by done | rewrite bool_decide_false, list_lookup_alter_ne by congruence; done].
  destruct (out !! k); [|done]. cbn [fmap option_fmap option_map length]. f_equal. by rewrite Nat.iter_succ_r.
Qed.

(** The bin of an event, if it is inside the window. *)
Definition bin_of (window bin e : Z) : option Z := if (0 <=? e)%Z && (e <? window)%Z then Some (e / bin)%Z else None.

Lemma iter_add n (x : Qc) : Nat.iter n (fun x => n_add x (n_of 1)) x = x + qc (Z.of_nat n).
Proof. induction n as [|n IH]; [cbn [Nat.iter nat_rect]; change (qc (Z.of_nat 0)) with 0; ring|]. rewrite Nat2Z.inj_succ, <- Z.add_1_r, Nat.iter_succ, IH. cbn [n_add n_of Qc_num]. qring. Qed.

(** The bins cover the window, and each holds the number of cells in it: bin [k] those at
    or after [k * bin] and before [(k + 1) * bin], the last one cut off by the window. *)
Lemma bins_exact events window bin : (0 <= window)%Z ->
  let width := binWidth bin in
  let bins := ((window + width - 1) / width)%Z in
  Bin (F := Qc) events window bin = map (fun k => qc (count (fun e => bool_decide (bin_of window width e = Some k)) events)) (seqZ 0 bins) /\
  (forall e k, bin_of window width e = Some k -> (0 <= k < bins)%Z).
Proof.
  intros Hw. cbv zeta. assert (0 < binWidth bin)%Z as Hb by (unfold binWidth, Millisecond; destruct (Z.leb_spec bin 0); lia).
  set (width := binWidth bin) in *. pose proof (Z.div_mod (window + width - 1) width ltac:(lia)) as Hdm. pose proof (Z.mod_pos_bound (window + width - 1) width Hb) as Hmb.
  assert (forall e k, bin_of window width e = Some k -> (0 <= k < (window + width - 1) / width)%Z) as Hin.
  { unfold bin_of. intros e k. destruct (Z.leb_spec 0 e), (Z.ltb_spec e window); cbn [andb]; [|done..]. intros [= <-].
    split; [by apply Z.div_pos|]. apply Z.div_lt_upper_bound; [done|]. nia. }
  split; [|exact Hin]. unfold Bin. fold width. rewrite Z.quot_div_nonneg by lia. set (bins := ((window + width - 1) / width)%Z) in *. clearbody bins. clear Hdm Hmb.
  apply list_eq. intros k. set (at_ := fun e => Z.to_nat <$> bin_of window width e).
  assert (forall out : list Qc, foldl (fun out e => if ((0 <=? e) && (e <? window))%Z then alter (fun x => n_add x (n_of 1)) (Z.to_nat (Z.quot e width)) out else out) out events =
    foldl (fun out e => match at_ e with Some i => alter (fun x => n_add x (n_of 1)) i out | None => out end) out events) as ->.
  { clear -Hb. induction events as [|e events IH]; intros out; [done|]. cbn [foldl]. rewrite <- IH. f_equal. unfold at_, bin_of.
    destruct (Z.leb_spec 0 e), (Z.ltb_spec e window); cbn [andb fmap option_fmap option_map]; [|done..]. by rewrite Z.quot_div_nonneg by lia. }
  rewrite alter_fold. rewrite list_lookup_fmap. destruct (Nat.lt_ge_cases k (Z.to_nat bins)) as [Hk|Hk].
  - rewrite lookup_replicate_2 by done. assert (seqZ 0 bins !! k = Some (Z.of_nat k)) as -> by (rewrite lookup_seqZ; lia).
    cbn [fmap option_fmap option_map]. f_equal. rewrite iter_add. cbn [n_of Qc_num]. change (qc 0) with 0. rewrite Qcplus_0_l. f_equal.
    apply count_ext. intros e _. apply bool_decide_ext. unfold at_. destruct (bin_of window width e) as [j|] eqn:E; [|done]. apply Hin in E. cbn.
    split; [intros [= Hj]; f_equal; lia | by intros [= ->]; rewrite Nat2Z.id].
  - rewrite (lookup_ge_None_2 (replicate _ _)) by (rewrite length_replicate; lia). rewrite (lookup_ge_None_2 (seqZ _ _)) by (rewrite length_seqZ; lia). done.
Qed.

(** ** Evaluation *)

Module RankingDemo.

Definition near (x : f64) (a b : Z) : bool := SFltb (SFabs (f64_sub x (decimal a b))) (decimal 1 1000000000).

(** Scores in tenths, the true ones first. *)
Definition scored (pos neg : list Z) : list (Score f64) :=
  map (fun v => {| sc_Entry := 0; sc_Exit := 0; sc_Value := decimal v 100; sc_True := true |}) pos ++
  map (fun v => {| sc_Entry := 0; sc_Exit := 0; sc_Value := decimal v 100; sc_True := false |}) neg.

(** A matrix of scores; a flow's own exit is the one of its number. *)
Definition matrix (m : list (list Z)) : list (Score f64) :=
  List.concat (imap (fun i row => imap (fun j v =>
    {| sc_Entry := Z.of_nat i; sc_Exit := Z.of_nat j; sc_Value := decimal v 100; sc_True := bool_decide (i = j) |}) row) m).

Definition least : f64 := S754_infinity true.

Example areas : near (AUC (scored [90; 40] [50; 10])%Z) 3 4 = true /\ near (AUC (scored [70] [70; 20])%Z) 3 4 = true /\
  near (AUC (scored [50; 50] [50; 50])%Z) 1 2 = true /\ f64_isnan (AUC (F := f64) (scored [30]%Z [])) = true /\
  this (AUC (F := Qc) (scored [90; 40] [50; 10])%Z) = (3 # 4)%Q.
Proof. vm_compute. auto 10. Qed.

Example rates : near (TPRAtFPR (scored [95; 90; 60; 30] [92; 80; 50; 40; 35; 20; 15; 10; 5; 1])%Z (decimal 1 10)) 1 2 = true /\
  near (TPRAtFPR (scored [95; 90; 60; 30] [92; 80; 50; 40; 35; 20; 15; 10; 5; 1])%Z (decimal 0 1)) 1 4 = true /\
  near (TPRAtFPR (scored [90; 50] [50; 10])%Z (decimal 1 4)) 3 4 = true.
Proof. vm_compute. auto. Qed.

Example guesses : match TopOneAccuracy least (matrix [[80; 80; 10]; [20; 90; 30]; [60; 10; 40]])%Z 3 with Ok x => near x 1 2 | Err _ => false end = true /\
  TopOneAccuracy (F := f64) least (matrix [[80]; [20]])%Z 1 = Err (Other "index out of range").
Proof. vm_compute. auto. Qed.

Definition series (l : list Z) : list f64 := map f64_of_Z l.

Example correlations : near (Pearson (series [1; 2; 3; 4; 5]%Z) (series [10; 12; 14; 16; 18]%Z)) 1 1 = true /\
  near (Pearson (series [1; 2; 3; 4; 5]%Z) (series [5; 4; 3; 2; 1]%Z)) (-1) 1 = true /\
  f64_isnan (Pearson (series [1; 2; 3]%Z) (series [4; 4; 4]%Z)) = true /\
  UndefinedPairs (ScorePairs [series [1; 2; 3]%Z; series [5; 5; 5]%Z] [series [1; 2; 4]%Z; series [7; 7; 7]%Z] {[ 0%Z := 0%Z; 1%Z := 1%Z ]}) = 3%Z.
Proof. vm_compute. auto 10. Qed.

(** Ten bins of 100 ms over a second. *)
Example binned : map this (Bin [0; 50000000; 100000000; 950000000; 999999999; 1000000000; 1050000000]%Z 1000000000 100000000) =
  [2 # 1; 1 # 1; 0; 0; 0; 0; 0; 0; 0; 2 # 1]%Q.
Proof. vm_compute. reflexivity. Qed.

(** Perfect separation gives the whole interval at one, whatever is drawn. *)
Example interval : match BootstrapAUC (fun x => x) (fun x => x) (fun x _ => x) (fun _ n k => (Z.of_nat k mod n)%Z) (matrix [[100; 0]; [0; 100]])%Z 2 5 1 with
  | Ok i => near (iv_Point i) 1 1 && near (iv_Low i) 1 1 && near (iv_High i) 1 1
  | Err _ => false
  end = true.
Proof. vm_compute. reflexivity. Qed.

Example costs : CellsWithin [[0; 5000000; 9999000; 10000000]; [3000000; 12000000]; []]%Z 10000000 = 4%Z /\ near (Multiplier 3 4) 3 4 = true /\
  near (Median (map (fun v => decimal v 100) [90; 50; 70; 60]%Z)) 65 100 = true /\
  map (fun q => Percentile [4000000; 1000000; 3000000; 2000000]%Z (decimal q 100)) [50; 95; 99; 0; 100; 101]%Z =
  [Some 2500000; Some 3850000; Some 3970000; Some 1000000; Some 4000000; None]%Z.
Proof. vm_compute. auto. Qed.

Definition mixed : list (Score f64) := scored [90; 40; 50] [50; 10].

Lemma mixed_ordered : ordered mixed.
Proof. unfold mixed, scored, ordered. cbn [map app]. by repeat constructor. Qed.

End RankingDemo.
