(* ===== verification/Separation.v ===== *)
(** * Separation: what the numbers read off a ranking mean

    The area under the curve, the curve itself and the accuracy of the best guess of
    Ranking against what they stand for, over exact rationals and for every way ties may
    be sorted; the 64-bit result does not depend on that order either. *)

From Stdlib Require Import QArith.QArith_base QArith.Qcanon setoid_ring.Field Sorting.Sorted.
From S2P Require Import Prelude Effects Limits State Counting Compromise Ranking.

#[local] Open Scope Z_scope.

(** ** Pairs of a true and a false score *)

#[local] Open Scope Qc_scope.

Section Pairs.
Context {V : Type} `{OrderKey V}.

Definition trues (l : list (Score V)) : Z := count sc_True l.
Definition falses (l : list (Score V)) : Z := count (fun s => negb (sc_True s)) l.

(** What a pair counts: one when the true score is above the other, half for a tie. *)
Definition wins (s t : Score V) : Qc :=
  if v_ltb (sc_Value t) (sc_Value s) then 1 else if v_eqb (sc_Value t) (sc_Value s) then qc 1 / qc 2 else 0.

(** The pairs of a true score of [l] and a false one of [k]. *)
Definition cross (l k : list (Score V)) : Qc :=
  qsum (fun s => if sc_True s then qsum (fun t => if sc_True t then 0 else wins s t) k else 0) l.

(** The share of pairs that are the right way round. *)
Definition pair_share (l : list (Score V)) : Qc := cross l l / (qc (trues l) * qc (falses l)).

Lemma cross_app_l l l' k : cross (l ++ l') k = cross l k + cross l' k.
Proof. apply qsum_app. Qed.

Lemma cross_app_r l k k' : cross l (k ++ k') = cross l k + cross l k'.
Proof.
  unfold cross. induction l as [|s l IH]; cbn [qsum]; [ring|]. rewrite IH. destruct (sc_True s); [|ring]. rewrite qsum_app. ring.
Qed.

Lemma cross_const l k c : (forall s t, s ∈ l -> t ∈ k -> wins s t = c) -> cross l k = qc (trues l) * qc (falses k) * c.
Proof.
  intros Hc. unfold cross. rewrite (qsum_ext _ (fun s => if sc_True s then qc (falses k) * c else 0)).
  - rewrite qsum_if. fold (trues l). ring.
  - intros s Hs. destruct (sc_True s); [|done]. rewrite (qsum_ext _ (fun t => if sc_True t then 0 else c)).
    + rewrite qsum_if. fold (falses k). ring.
    + intros t Ht. destruct (sc_True t); [done | by apply Hc].
Qed.

Lemma cross_perm l l' k k' : l ≡ₚ l' -> k ≡ₚ k' -> cross l k = cross l' k'.
Proof.
  assert (forall A (f : A -> Qc) l l', l ≡ₚ l' -> qsum f l = qsum f l') as Hp by (induction 1; cbn [qsum]; [done | by f_equal | ring | congruence]).
  intros Hl Hk. unfold cross. rewrite (Hp _ _ _ _ Hl). apply qsum_ext. intros s _. destruct (sc_True s); [by apply Hp | done].
Qed.

Lemma count_all_split (l : list (Score V)) : Z.of_nat (length l) = (trues l + falses l)%Z.
Proof. apply count_split. Qed.

Lemma wins_key s t : in_order (sc_Value s) = true -> in_order (sc_Value t) = true ->
  wins s t = match (sk t ?= sk s)%Z with Lt => 1 | Eq => qc 1 / qc 2 | Gt => 0 end.
Proof.
  intros Hs Ht. unfold wins. rewrite ltb_key, eqb_key by done. fold (sk s) (sk t). unfold Z.ltb.
  destruct (Z.compare_spec (sk t) (sk s)) as [->|Hlt|Hgt]; [by rewrite Z.eqb_refl | done |]. by rewrite (proj2 (Z.eqb_neq _ _)) by lia.
Qed.

(** *** A group of one value *)

(** What a tie and what is on one side of it count. *)
Lemma cross_group (v : Z) g rest (up : bool) : ordered (g ++ rest) -> Forall (fun s => sk s = v) g ->
  Forall (fun s => if up then v < sk s else sk s < v)%Z rest ->
  cross (g ++ rest) (g ++ rest) = qc (trues g) * qc (falses g) * (qc 1 / qc 2) +
    (if up then qc (trues rest) * qc (falses g) else qc (trues g) * qc (falses rest)) + cross rest rest.
Proof.
  intros Ho Hg Hr. rewrite cross_app_l, !cross_app_r.
  assert (forall s, s ∈ g -> in_order (sc_Value s) = true /\ sk s = v) as Hgs.
  { intros s Hs. split; [eapply ordered_at; [exact Ho | set_solver] | exact (proj1 (Forall_forall _ _) Hg s Hs)]. }
  assert (forall s, s ∈ rest -> in_order (sc_Value s) = true /\ if up then (v < sk s)%Z else (sk s < v)%Z) as Hrs.
  { intros s Hs. split; [eapply ordered_at; [exact Ho | set_solver] | exact (proj1 (Forall_forall _ _) Hr s Hs)]. }
  rewrite (cross_const g g (qc 1 / qc 2)).
  2: { intros s t [Hs Es]%Hgs [Ht Et]%Hgs. rewrite wins_key, Es, Et, Z.compare_refl by done. done. }
  rewrite (cross_const g rest (if up then 0 else 1)).
  2: { intros s t [Hs Es]%Hgs [Ht Et]%Hrs. rewrite wins_key, Es by done. destruct up; [by rewrite (proj2 (Z.compare_gt_iff _ _)) by lia | by rewrite (proj2 (Z.compare_lt_iff _ _)) by lia]. }
  rewrite (cross_const rest g (if up then 1 else 0)).
  2: { intros s t [Hs Es]%Hrs [Ht Et]%Hgs. rewrite wins_key, Et by done. destruct up; [by rewrite (proj2 (Z.compare_lt_iff _ _)) by lia | by rewrite (proj2 (Z.compare_gt_iff _ _)) by lia]. }
  destruct up; ring.
Qed.

Lemma auc_group (g : list (Score V)) avg : forall u : aucSums Qc,
  foldl auc_step u (zip g (replicate (length g) avg)) =
  {| au_positives := au_positives u + qc (trues g); au_negatives := au_negatives u + qc (falses g); au_rankSum := au_rankSum u + qc (trues g) * avg |}.
Proof.
  induction g as [|s g IH]; intros u; cbn [length replicate zip zip_with foldl].
  - destruct u. unfold trues, falses. rewrite !count_nil. f_equal; cbn; ring.
  - rewrite IH. unfold auc_step, trues, falses. rewrite !count_cons. cbn [fst snd]. destruct (sc_True s); cbn [negb au_positives au_negatives au_rankSum n_add n_of Qc_num];
      f_equal; qring.
Qed.

Lemma qc_two : qc 2 = 1 + 1.
Proof. by apply Qc_is_canon. Qed.

Lemma auc_nil p n r : {| au_positives := qc p; au_negatives := qc n; au_rankSum := r + qc (p * (p + 1)) / qc 2 |} =
  {| au_positives := qc (p + trues []); au_negatives := qc (n + falses []);
     au_rankSum := r + qc (trues []) * qc n + cross [] [] + qc ((p + trues []) * (p + trues [] + 1)) / qc 2 |}.
Proof. change (trues []) with 0%Z. change (falses []) with 0%Z. change (cross [] []) with 0. rewrite !Z.add_0_r. f_equal. change (qc 0) with 0. ring. Qed.

(** The sums over a list in ascending order, behind [p] true and [n] false scores. *)
Lemma auc_ascending fuel : forall (l : list (Score V)) p n r, (length l <= fuel)%nat -> ascending l ->
  foldl auc_step {| au_positives := qc p; au_negatives := qc n; au_rankSum := r + qc (p * (p + 1)) / qc 2 |} (zip l (ranks_from fuel (p + n) l)) =
  let p' := (p + trues l)%Z in
  {| au_positives := qc p'; au_negatives := qc (n + falses l); au_rankSum := r + qc (trues l) * qc n + cross l l + qc (p' * (p' + 1)) / qc 2 |}.
Proof.
  assert (qc 2 <> 0) as H2 by (by apply qc_ne).
  induction fuel as [|fuel IH]; intros l p n r Hf Ha.
  { destruct l; [|cbn in Hf; lia]. apply auc_nil. }
  destruct l as [|s rest].
  { apply auc_nil. }
  cbn [ranks_from]. destruct (span (same_value s) rest) as [same rest'] eqn:E. destruct Ha as [Ho Hs].
  destruct (front_group Z.le s rest same rest' Ho Hs E) as (-> & Hg & Hr & Ho' & Hs').
  set (avg := n_add (n_div _ _) _). change (s :: same ++ rest') with ((s :: same) ++ rest') in *. set (g := s :: same) in *.
  rewrite zip_with_app by (by rewrite length_replicate). rewrite foldl_app. change (S (length same)) with (length g). rewrite auc_group.
  cbn [au_positives au_negatives au_rankSum].
  assert (cross (g ++ rest') (g ++ rest') = qc (trues g) * qc (falses g) * (qc 1 / qc 2) + qc (trues rest') * qc (falses g) + cross rest' rest') as ->.
  { apply (cross_group (sk s) g rest' true); [done | done|]. eapply Forall_impl; [exact Hr|]. cbn. intros t [? ?]. lia. }
  assert (trues (g ++ rest') = trues g + trues rest')%Z as -> by apply count_app.
  assert (falses (g ++ rest') = falses g + falses rest')%Z as -> by apply count_app.
  pose proof (count_all_split g) as Hlen. assert (Z.of_nat (length g) = Z.of_nat (length same) + 1)%Z as Hg1 by (unfold g; cbn [length]; lia).
  replace (p + n + Z.of_nat (length same) + 1)%Z with ((p + trues g) + (n + falses g))%Z by lia.
  rewrite <- !qc_add.
  replace (r + qc (p * (p + 1)) / qc 2 + qc (trues g) * avg) with
    ((r + qc (trues g) * qc n + qc (trues g) * qc (falses g) * (qc 1 / qc 2)) + qc ((p + trues g) * (p + trues g + 1)) / qc 2).
  - rewrite IH; [|unfold g in Hf; cbn [length app] in Hf; rewrite length_app in Hf; lia | by split]. cbv zeta.
    rewrite !Z.add_assoc. f_equal. rewrite (qc_add n (falses g)), (qc_add (trues g) (trues rest')). ring.
  - unfold avg. cbn [n_add n_div n_of Qc_num]. replace (Z.of_nat (length same)) with (trues g + falses g - 1)%Z by lia. qnorm. rewrite qc_two in *. by field.
Qed.

Lemma qc_eqb x y : v_eqb (qc x) (qc y) = (x =? y)%Z.
Proof.
  cbn. destruct (Z.eqb_spec x y) as [->|Hne]; [by rewrite (proj1 (Qceq_alt _ _) eq_refl)|].
  destruct (qc x ?= qc y) eqn:E; [|done..]. apply Qceq_alt, qc_inj in E. done.
Qed.

(** The share of pairs from the ranks. *)
Lemma auc_ascending_share scores l : (0 < trues scores)%Z -> (0 < falses scores)%Z -> l ≡ₚ scores -> ascending l ->
  auc_sorted (F := Qc) l = pair_share scores.
Proof.
  intros Ht Hf Hp Ha. assert (trues l = trues scores /\ falses l = falses scores) as [E1 E2] by (split; by apply count_perm).
  unfold auc_sorted, auc_sums. pose proof (auc_ascending (length l) l 0 0 0 ltac:(lia) Ha) as Hs.
  replace {| au_positives := qc 0; au_negatives := qc 0; au_rankSum := 0 + qc (0 * (0 + 1)) / qc 2 |} with
    {| au_positives := n_of 0; au_negatives := n_of 0; au_rankSum := n_of 0 |} in Hs by (f_equal; by apply Qc_is_canon).
  change (0 + 0)%Z with 0%Z in Hs. rewrite Hs. cbv zeta. cbn [au_positives au_negatives au_rankSum n_of n_add n_sub n_mul n_div Qc_num].
  rewrite !Z.add_0_l, E1, E2, !qc_eqb. rewrite !(proj2 (Z.eqb_neq _ _)) by lia. cbn [orb]. unfold pair_share.
  rewrite (cross_perm _ _ _ _ Hp Hp). rewrite qc_mul, qc_add. change (qc 0) with 0. field. split_and!; apply qc_ne; lia.
Qed.

(** *** The order of ties *)

Lemma group_perm {F} `{Num F} (g g' : list (Score V)) (avg : F) : g ≡ₚ g' -> forall u,
  foldl auc_step u (zip g (replicate (length g) avg)) = foldl auc_step u (zip g' (replicate (length g') avg)).
Proof.
  induction 1 as [|s g g' _ IH|s t g|g g' g'' _ IH1 _ IH2]; intros u; cbn [length replicate zip zip_with foldl]; [done | apply IH | | by rewrite IH1].
  f_equal. unfold auc_step; cbn [fst snd]. by destruct (sc_True s), (sc_True t).
Qed.

Lemma filter_all (P : Score V -> Prop) `{forall s, Decision (P s)} l : Forall P l -> filter P l = l.
Proof. induction 1 as [|s l Hs _ IH]; [done|]. by rewrite filter_cons_True, IH. Qed.

Lemma filter_none (P : Score V -> Prop) `{forall s, Decision (P s)} l : Forall (fun s => ~ P s) l -> filter P l = [].
Proof. induction 1 as [|s l Hs _ IH]; [done|]. by rewrite filter_cons_False. Qed.

Lemma front_perm (v : Z) g r g' r' : g ++ r ≡ₚ g' ++ r' -> Forall (fun s => sk s = v) g -> Forall (fun s => sk s = v) g' ->
  Forall (fun s => sk s <> v) r -> Forall (fun s => sk s <> v) r' -> g ≡ₚ g' /\ r ≡ₚ r'.
Proof.
  assert (forall g r : list (Score V), Forall (fun s => sk s = v) g -> Forall (fun s => sk s <> v) r ->
    filter (fun s => sk s = v) (g ++ r) = g /\ filter (fun s => sk s <> v) (g ++ r) = r) as Hf.
  { intros l k Hl Hk. rewrite !filter_app. rewrite (filter_all (fun s => sk s = v) l), (filter_none (fun s => sk s = v) k) by done.
    rewrite (filter_none (fun s => sk s <> v) l), (filter_all (fun s => sk s <> v) k) by first [done | eapply Forall_impl; [exact Hl|]; intros s Es Hn; by apply Hn].
    by rewrite app_nil_r. }
  intros Hp Hg Hg' Hr Hr'. destruct (Hf g r Hg Hr) as [E1 E2], (Hf g' r' Hg' Hr') as [E3 E4].
  pose proof (filter_Permutation (fun s => sk s = v) _ _ Hp) as Q1. pose proof (filter_Permutation (fun s => sk s <> v) _ _ Hp) as Q2.
  rewrite E1, E3 in Q1. by rewrite E2, E4 in Q2.
Qed.

(** Two ascending arrangements give the same sums, in any arithmetic. *)
Lemma sums_arrangement {F} `{Num F} fuel : forall i u (l l' : list (Score V)), l ≡ₚ l' -> ascending l -> ascending l' ->
  foldl auc_step u (zip l (ranks_from (F := F) fuel i l)) = foldl auc_step u (zip l' (ranks_from fuel i l')).
Proof.
  induction fuel as [|fuel IH]; intros i u l l' Hp Ha Ha'; [by destruct l, l'|].
  destruct l as [|s rest]; [apply Permutation_nil_l in Hp as ->; done|]. destruct l' as [|s' rest0]; [by apply Permutation_nil_r in Hp|].
  destruct Ha as [Ho Hs], Ha' as [Ho' Hs'].
  assert (sk s = sk s') as Ek.
  { assert (s ∈ s' :: rest0) as Hin by (rewrite <- Hp; set_solver). assert (s' ∈ s :: rest) as Hin' by (rewrite Hp; set_solver).
    apply StronglySorted_inv in Hs as [_ Hs], Hs' as [_ Hs']. apply elem_of_cons in Hin as [->|Hin]; [done|]. apply elem_of_cons in Hin' as [->|Hin']; [done|].
    pose proof (proj1 (Forall_forall _ _) Hs s' Hin'). pose proof (proj1 (Forall_forall _ _) Hs' s Hin). cbn in *. lia. }
  cbn [ranks_from]. destruct (span (same_value s) rest) as [same r] eqn:E, (span (same_value s') rest0) as [same' r'] eqn:E'.
  destruct (front_group Z.le s rest same r Ho Hs E) as (-> & Hg & Hr & Hor & Hsr). destruct (front_group Z.le s' rest0 same' r' Ho' Hs' E') as (-> & Hg' & Hr' & Hor' & Hsr').
  change (s :: same ++ r) with ((s :: same) ++ r) in *. change (s' :: same' ++ r') with ((s' :: same') ++ r') in *.
  destruct (front_perm (sk s) (s :: same) r (s' :: same') r' Hp) as [Hpg Hpr]; [done | by rewrite Ek | eapply Forall_impl; [exact Hr|]; by intros t [_ ?] |
    rewrite Ek; eapply Forall_impl; [exact Hr'|]; by intros t [_ ?]|].
  assert (length same = length same') as El by (apply Permutation_length in Hpg; cbn in Hpg; lia). rewrite <- El.
  rewrite !zip_with_app by (rewrite length_replicate; cbn; lia). rewrite !foldl_app.
  change (S (length same)) with (length (s :: same)) at 1. replace (S (length same)) with (length (s' :: same')) by (cbn; lia).
  rewrite (group_perm _ _ _ Hpg). by apply IH.
Qed.

(** C38. The area under the curve is what it stands for, and does not hang on how ties
    are sorted.  Take scores that are all in order (any 64-bit floats but NaN), and
    whatever ascending arrangement of them [sort.Slice] leaves: in any arithmetic, the
    rounding of 64-bit floats included, the result is the same to the last bit; and
    over exact rationals, with some scores true and some false, the ranks give exactly
    the share of pairs of a true and a false score in which the true one is above, a tie
    for half a pair. *)
Theorem auc_pairs scores sorted : ordered scores -> sorted ≡ₚ scores -> StronglySorted (fun s t => sk s <= sk t)%Z sorted ->
  (forall F (N : Num F) (O : Ordered F), auc_sorted sorted = AUC scores) /\
  ((0 < trues scores)%Z -> (0 < falses scores)%Z -> AUC (F := Qc) scores = pair_share scores).
Proof.
  intros Ho Hp Hs. pose proof (sorted_ascending scores Ho) as Ha. pose proof (sort_by_perm by_value scores) as Hps. split.
  - intros F N O. unfold AUC, auc_sorted, auc_sums. assert (sorted ≡ₚ sort_by by_value scores) as E by (by rewrite Hps).
    rewrite (Permutation_length E). rewrite (sums_arrangement _ 0%Z _ _ _ E); [done | split; [unfold ordered; by rewrite Hp | done] | done].
  - intros Ht Hf. by apply auc_ascending_share.
Qed.

(** *** The curve *)

(** The area under the segments from [a] on. *)
Fixpoint area_from (a : rocPoint Qc) (points : list (rocPoint Qc)) : Qc :=
  match points with
  | [] => 0
  | b :: points => (ro_fpr b - ro_fpr a) * (ro_tpr a + ro_tpr b) / qc 2 + area_from b points
  end.

Definition area (points : list (rocPoint Qc)) : Qc := match points with [] => 0 | a :: points => area_from a points end.

Lemma tally_group (g : list (Score V)) : forall p n : Qc,
  foldl (fun '(p, n) s => if sc_True s then (n_add p (n_of 1), n) else (p, n_add n (n_of 1))) (p, n) g = (p + qc (trues g), n + qc (falses g)).
Proof.
  induction g as [|s g IH]; intros p n; cbn [foldl].
  - unfold trues, falses. rewrite !count_nil. f_equal; ring.
  - unfold trues, falses. rewrite !count_cons. destruct (sc_True s); cbn [negb]; rewrite IH; cbn [n_add n_of Qc_num]; unfold trues, falses; f_equal; qring.
Qed.

Lemma roc_descending (P N : Qc) : P <> 0 -> N <> 0 -> forall fuel l tp fp, (length l <= fuel)%nat -> descending l ->
  area_from {| ro_fpr := fp / N; ro_tpr := tp / P |} (roc_from fuel P N tp fp l) = (tp * qc (falses l) + cross l l) / (P * N).
Proof.
  intros HP HN. induction fuel as [|fuel IH]; intros l tp fp Hf Hd.
  { destruct l; [|cbn in Hf; lia]. cbn [roc_from area_from]. unfold falses. rewrite count_nil. change (cross [] []) with 0. by field. }
  destruct l as [|s rest]; [cbn [roc_from area_from]; unfold falses; rewrite count_nil; change (cross [] []) with 0; by field|].
  cbn [roc_from]. destruct (span (same_value s) rest) as [same rest'] eqn:E. destruct Hd as [Ho Hs].
  destruct (front_group (fun x y => y <= x)%Z s rest same rest' Ho Hs E) as (-> & Hg & Hr & Ho' & Hs').
  change (s :: same ++ rest') with ((s :: same) ++ rest') in *. set (g := s :: same) in *. rewrite tally_group.
  cbn [area_from ro_fpr ro_tpr n_div Qc_num]. rewrite IH; [|unfold g in Hf; cbn [length app] in Hf; rewrite length_app in Hf; lia | by split].
  rewrite (cross_group (sk s) g rest' false); [|done | done | eapply Forall_impl; [exact Hr|]; cbn; intros t [? ?]; lia].
  unfold falses at 3. rewrite count_app, qc_add. fold (falses g) (falses rest'). assert (1 + 1 <> 0) by (rewrite <- qc_two; by apply qc_ne). rewrite !qc_two. change (qc 1) with 1.
  by field.
Qed.

(** Two ways to one number.  For scores in order, some true and some false, and any
    descending arrangement the sort leaves, the straight segments of [roc] enclose
    exactly the area that [AUC] works out from ranks, so a point of the curve and the
    reported area are of one ranking. *)
Theorem roc_area scores sorted : ordered scores -> (0 < trues scores)%Z -> (0 < falses scores)%Z ->
  sorted ≡ₚ scores -> StronglySorted (fun s t => sk t <= sk s)%Z sorted ->
  area (roc_sorted (F := Qc) sorted) = AUC (F := Qc) scores /\ area (roc (F := Qc) scores) = AUC (F := Qc) scores.
Proof.
  intros Ho Ht Hf Hp Hs. unfold AUC. rewrite (auc_ascending_share scores) by first [done | apply sort_by_perm | by apply sorted_ascending].
  assert (forall l, l ≡ₚ scores -> descending l -> area (roc_sorted (F := Qc) l) = pair_share scores) as Hany.
  { intros l Hl Hd. assert (trues l = trues scores /\ falses l = falses scores) as [E1 E2] by (split; by apply count_perm).
    unfold roc_sorted, tally. rewrite (tally_group l (n_of 0) (n_of 0)). cbn [n_of Qc_num]. change (qc 0) with 0. rewrite !Qcplus_0_l, E1, E2.
    change 0 with (qc 0) at 1 2. change (n_of 0) with (qc 0). rewrite !qc_eqb, !(proj2 (Z.eqb_neq _ _)) by lia. cbn [orb area]. change (qc 0) with 0.
    assert (qc (trues scores) <> 0) as H1 by (apply qc_ne; lia). assert (qc (falses scores) <> 0) as H2 by (apply qc_ne; lia).
    replace {| ro_fpr := 0; ro_tpr := 0 |} with {| ro_fpr := 0 / qc (falses scores); ro_tpr := 0 / qc (trues scores) |} by (f_equal; by field).
    rewrite roc_descending by done. rewrite (cross_perm _ _ _ _ Hl Hl). unfold pair_share. by field. }
  split; apply Hany; [done | split; [unfold ordered; by rewrite Hp | done] | apply sort_by_perm | by apply sorted_descending].
Qed.

End Pairs.

(** ** The best guess of each flow *)

Section TopOne.
Context {V : Type} `{OrderKey V}.

(** The scores of a flow that no other score of it is above. *)
Definition top_of (l : list (Score V)) (i : Z) : list (Score V) :=
  List.filter (fun s => (sc_Entry s =? i)%Z && forallb (fun t => negb (sc_Entry t =? i)%Z || (sk t <=? sk s)%Z) l) l.

(** [b] is the highest value of a flow so far, or [least] when it has none. *)
Definition best_of (least : V) (l : list (Score V)) (i : Z) (b : V) : Prop :=
  in_order b = true /\ (key least <= key b)%Z /\ (forall s, s ∈ l -> sc_Entry s = i -> sk s <= key b)%Z /\
  (b = least \/ exists s, s ∈ l /\ sc_Entry s = i /\ sk s = key b).

Lemma best_fold least flows : in_order least = true -> forall l done_ best, ordered l -> Forall (fun s => 0 <= sc_Entry s < flows)%Z l ->
  Z.of_nat (length best) = flows -> (forall i b, (0 <= i)%Z -> best !! Z.to_nat i = Some b -> best_of least done_ i b) ->
  exists best', rfold best_step best l = Ok best' /\ Z.of_nat (length best') = flows /\
    (forall i b, (0 <= i)%Z -> best' !! Z.to_nat i = Some b -> best_of least (done_ ++ l) i b).
Proof.
  intros Hl. induction l as [|s l IH]; intros done_ best Ho He Hlen Hb; [exists best; by rewrite app_nil_r|].
  apply Forall_cons in Ho as [Hs Ho], He as [Hes He]. cbn [rfold]. unfold best_step at 1, at_index. rewrite (proj2 (Z.ltb_ge _ _)) by lia.
  destruct (lookup_lt_is_Some_2 best (Z.to_nat (sc_Entry s))) as [b Eb]; [lia|]. rewrite Eb. cbn [rbind].
  pose proof (Hb _ _ (proj1 Hes) Eb) as (Hb1 & Hb2 & Hb3 & Hb4). rewrite ltb_key by done. fold (sk s).
  set (best1 := if (key b <? sk s)%Z then _ else best).
  assert (done_ ++ s :: l = (done_ ++ [s]) ++ l) as -> by (by rewrite <- app_assoc). apply IH; [done | done | unfold best1; destruct (_ <? _)%Z; by rewrite ?length_insert|].
  intros i b' Hi Hbi. destruct (Z.eq_dec i (sc_Entry s)) as [->|Hne].
  - assert (b' = if (key b <? sk s)%Z then sc_Value s else b) as ->
      by (unfold best1 in Hbi; destruct (_ <? _)%Z; [rewrite list_lookup_insert_eq in Hbi by lia | rewrite Eb in Hbi]; congruence).
    unfold best_of. destruct (Z.ltb_spec (key b) (sk s)) as [Hlt|Hge]; fold (sk s).
    + split; [done|]. split; [unfold sk in *; lia|]. split; [|right; exists s; split_and!; [set_solver | done | done]].
      intros t [Ht| ->%list_elem_of_singleton]%elem_of_app Et; [|unfold sk in *; lia]. pose proof (Hb3 t Ht Et). unfold sk in *. lia.
    + split; [done|]. split; [done|]. split; [intros t [Ht| ->%list_elem_of_singleton]%elem_of_app Et; [by apply Hb3 | done]|].
      destruct Hb4 as [->|(t & Ht & Et & Ek)]; [by left | right; exists t; split_and!; [set_solver | done | done]].
  - assert (best !! Z.to_nat i = Some b') as Hbi'.
    { unfold best1 in Hbi. destruct (_ <? _)%Z; [|done]. rewrite list_lookup_insert_ne in Hbi by lia. done. }
    destruct (Hb i b' Hi Hbi') as (Hc1 & Hc2 & Hc3 & Hc4). split; [done|]. split; [done|]. split.
    + intros t [Ht| ->%list_elem_of_singleton]%elem_of_app Et; [by apply Hc3 | congruence].
    + destruct Hc4 as [->|(t & Ht & Et & Ek)]; [by left | right; exists t; split_and!; [set_solver | done | done]].
Qed.

(** The scores tied at the best of a flow are its top ones. *)
Lemma best_top least l i b : (forall s, s ∈ l -> key least <= sk s)%Z -> best_of least l i b ->
  List.filter (fun s => (sc_Entry s =? i)%Z && (sk s =? key b)%Z) l = top_of l i.
Proof.
  intros Hleast (_ & Hb2 & Hb3 & Hb4). unfold top_of. apply List.filter_ext_in. intros s Hs%list_elem_of_In.
  destruct (Z.eqb_spec (sc_Entry s) i) as [Es|]; [|done]. cbn [andb]. pose proof (Hb3 s Hs Es) as Hle. apply eq_true_iff_eq. rewrite Z.eqb_eq, forallb_forall. split.
  - intros Ek t Ht%list_elem_of_In. destruct (Z.eqb_spec (sc_Entry t) i) as [Et|]; [|done]. cbn. apply Z.leb_le. pose proof (Hb3 t Ht Et). lia.
  - intros Hall. destruct Hb4 as [->|(t & Ht & Et & Ek)]; [pose proof (Hleast s Hs); lia|].
    specialize (Hall t (proj1 (list_elem_of_In _ _) Ht)). rewrite (proj2 (Z.eqb_eq _ _) Et) in Hall. cbn in Hall. apply Z.leb_le in Hall. lia.
Qed.

Lemma tie_fold best l : ordered l -> (forall k b, best !! k = Some b -> in_order b = true) -> Forall (fun s => 0 <= sc_Entry s)%Z l ->
  forall ties i b, (0 <= i)%Z -> best !! Z.to_nat i = Some b ->
  foldl (tie_step best) ties l !! Z.to_nat i =
  (fun '(tied, hit) => let top := List.filter (fun s => (sc_Entry s =? i)%Z && (sk s =? key b)%Z) l in
     ((tied + Z.of_nat (length top))%Z, hit || existsb sc_True top)) <$> ties !! Z.to_nat i.
Proof.
  intros Ho Hbest He. induction l as [|s l IH]; intros ties i b Hi Hb; cbn [foldl List.filter].
  { destruct (ties !! Z.to_nat i) as [[tied hit]|]; cbn; [|done]. by rewrite Z.add_0_r, orb_false_r. }
  apply Forall_cons in Ho as [Hs Ho], He as [Hes He]. rewrite (IH Ho He _ i b Hi Hb). unfold tie_step at 1.
  destruct (Z.eqb_spec (sc_Entry s) i) as [->|Hne]; cbn [andb].
  - rewrite Hb, eqb_key by (done || by eapply Hbest). fold (sk s). destruct (Z.eqb_spec (sk s) (key b)); [|done]. rewrite list_lookup_alter_eq.
    destruct (ties !! Z.to_nat i) as [[tied hit]|]; cbn [fmap option_fmap option_map]; [|done]. cbn [length existsb]. do 2 f_equal; [lia | by rewrite orb_assoc].
  - destruct (best !! Z.to_nat (sc_Entry s)) as [b0|]; [|done]. destruct (v_eqb _ b0); [|done]. by rewrite list_lookup_alter_ne by lia.
Qed.

Lemma tie_length best l : forall ties, length (foldl (tie_step best) ties l) = length ties.
Proof.
  induction l as [|s l IH]; intros ties; [done|]. cbn [foldl]. rewrite IH. unfold tie_step. destruct (best !! _); [|done]. destruct (v_eqb _ _); [|done]. apply length_alter.
Qed.

(** The accuracy of the best guess.  For scores in order whose entries are among the
    flows, [TopOneAccuracy] over exact rationals is the mean over the flows of the
    chance that a uniform choice among the flow's highest scores hits: one over their
    number when its true score is one of them, nothing otherwise. *)
Theorem top_one_exact least scores flows : in_order least = true -> ordered scores -> (0 <= flows)%Z ->
  Forall (fun s => 0 <= sc_Entry s < flows /\ key least <= sk s)%Z scores ->
  TopOneAccuracy (F := Qc) least scores flows =
  Ok (qsum (fun i => let top := top_of scores i in if existsb sc_True top then 1 / qc (Z.of_nat (length top)) else 0) (seqZ 0 flows) / qc flows).
Proof.
  intros Hl Ho Hfl Hf. assert (Forall (fun s => 0 <= sc_Entry s < flows)%Z scores) as He by (eapply Forall_impl; [exact Hf|]; by intros s [? _]).
  destruct (best_fold least flows Hl scores [] (replicate (Z.to_nat flows) least) Ho He) as (best & Hb & Hlen & Hbest).
  { rewrite length_replicate. lia. }
  { intros i b _ [-> _]%lookup_replicate_1. split; [done|]. split; [lia|]. split; [intros s Hs; by apply elem_of_nil in Hs | by left]. }
  unfold TopOneAccuracy. rewrite Hb. cbn [rbind]. do 2 f_equal.
  set (ties := foldl (tie_step best) _ scores).
  assert (ties = map (fun i => let top := top_of scores i in (Z.of_nat (length top), existsb sc_True top)) (seqZ 0 flows)) as ->.
  { apply list_eq. intros k. rewrite list_lookup_fmap. destruct (Nat.lt_ge_cases k (Z.to_nat flows)) as [Hk|Hk].
    - assert (seqZ 0 flows !! k = Some (Z.of_nat k)) as -> by (rewrite lookup_seqZ; lia).
      destruct (lookup_lt_is_Some_2 best k) as [b Eb]; [lia|]. rewrite <- (Nat2Z.id k) in Eb.
      pose proof (tie_fold best scores Ho) as Ht. specialize (Ht ltac:(intros j b' Hj; rewrite <- (Nat2Z.id j) in Hj; by apply (Hbest _ _ (Nat2Z.is_nonneg j)) in Hj as [? _])).
      specialize (Ht ltac:(eapply Forall_impl; [exact He|]; cbn; lia) (replicate (Z.to_nat flows) (0%Z, false)) (Z.of_nat k) b (Nat2Z.is_nonneg k) Eb).
      rewrite Nat2Z.id in Ht at 1. unfold ties. rewrite Ht, Nat2Z.id, lookup_replicate_2 by done. cbn [fmap option_fmap option_map].
      rewrite (best_top least scores (Z.of_nat k) b); [done | | by apply (Hbest _ _ (Nat2Z.is_nonneg k) Eb)].
      intros s Hs. by destruct (proj1 (Forall_forall _ _) Hf s Hs).
    - rewrite (lookup_ge_None_2 (seqZ _ _)) by (rewrite length_seqZ; lia). apply lookup_ge_None_2. unfold ties. rewrite tie_length, length_replicate. lia. }
  clear. cbn [n_of n_add n_div Qc_num]. change (qc 1) with 1. change (qc 0) with 0.
  match goal with |- _ = qsum ?f _ => set (g := f) end. rewrite <- (Qcplus_0_l (qsum _ _)). generalize 0 as c.
  induction (seqZ 0 flows) as [|i l IH]; intros c; cbn [map foldl qsum]; [by rewrite Qcplus_0_r|]. rewrite IH. unfold g at 2. cbv zeta.
  destruct (existsb sc_True (top_of scores i)); [by rewrite Qcplus_assoc | by rewrite Qcplus_0_l].
Qed.

End TopOne.

(** ** Witnesses *)

Lemma auc_pairs_witness : ordered RankingDemo.mixed /\ AUC (F := Qc) RankingDemo.mixed = pair_share RankingDemo.mixed /\
  this (pair_share RankingDemo.mixed) = (3 # 4)%Q.
Proof.
  pose proof RankingDemo.mixed_ordered as Ho. split; [exact Ho|]. split; [|vm_compute; reflexivity].
  apply (auc_pairs RankingDemo.mixed (sort_by by_value RankingDemo.mixed) Ho (sort_by_perm _ _) (proj2 (sorted_ascending _ Ho))); reflexivity.
Defined.

Lemma roc_area_witness : ordered RankingDemo.mixed /\ area (roc (F := Qc) RankingDemo.mixed) = AUC (F := Qc) RankingDemo.mixed.
Proof.
  pose proof RankingDemo.mixed_ordered as Ho. split; [exact Ho|].
  exact (proj2 (roc_area RankingDemo.mixed _ Ho eq_refl eq_refl (sort_by_perm _ _) (proj2 (sorted_descending _ Ho)))).
Defined.

Lemma top_one_exact_witness : exists x, TopOneAccuracy (F := Qc) RankingDemo.least RankingDemo.mixed 1 = Ok x /\ this x = 1%Q.
Proof.
  eexists. split.
  - apply (top_one_exact RankingDemo.least RankingDemo.mixed 1); [reflexivity | exact RankingDemo.mixed_ordered | lia|].
    unfold RankingDemo.mixed, RankingDemo.scored. cbn [map app]. repeat (constructor; [split; [vm_compute; split; congruence | vm_compute; congruence]|]). constructor.
  - vm_compute. reflexivity.
Defined.
