(* ===== verification/Digest.v ===== *)
(** * Digest: the hash of the c25519 suite, concretely

    SHA-256 of FIPS 180-4, HMAC of RFC 2104 and HKDF of RFC 5869.  Everywhere else they
    are arguments of the suite; here they are written out, so that the vectors of
    [src/crypto/providertest] can be computed and compared.  The constants are worked out
    from their definition: the first bits of the fractions of square and cube roots of
    the first primes. *)

From Stdlib Require Import Strings.Byte Strings.String.
From S2P Require Import Prelude Effects Crypto C25519 Toy.

Module Digest.

(** ** Words of 32 bits *)

Definition w32 (x : Z) : Z := Z.land x 0xffffffff.
Definition rotr (n x : Z) : Z := Z.lor (Z.shiftr x n) (w32 (Z.shiftl x (32 - n))).
Definition xor3 (a b c : Z) : Z := Z.lxor (Z.lxor a b) c.

Definition Ch (x y z : Z) : Z := Z.lxor (Z.land x y) (Z.ldiff z x).
Definition Maj (x y z : Z) : Z := xor3 (Z.land x y) (Z.land x z) (Z.land y z).
Definition Sigma0 (x : Z) : Z := xor3 (rotr 2 x) (rotr 13 x) (rotr 22 x).
Definition Sigma1 (x : Z) : Z := xor3 (rotr 6 x) (rotr 11 x) (rotr 25 x).
Definition sigma0 (x : Z) : Z := xor3 (rotr 7 x) (rotr 18 x) (Z.shiftr x 3).
Definition sigma1 (x : Z) : Z := xor3 (rotr 17 x) (rotr 19 x) (Z.shiftr x 10).

(** ** Constants *)

Definition prime (n : Z) : bool := forallb (fun d => negb (n mod d =? 0)) (seqZ 2 (n - 2)).
Definition primes : list Z := List.filter prime (seqZ 2 310).

(** The cube root of [n], rounded down, from bit [k] on. *)
Fixpoint cbrt_from (k : nat) (n r : Z) : Z :=
  let r' := r + 2 ^ Z.of_nat k in
  let r := if r' * r' * r' <=? n then r' else r in
  match k with O => r | S k => cbrt_from k n r end.

Definition K : list Z := Eval vm_compute in map (fun p => w32 (cbrt_from 34 (p * 2 ^ 96) 0)) primes.
Definition H0 : list Z := Eval vm_compute in map (fun p => w32 (Z.sqrt (p * 2 ^ 64))) (take 8 primes).

(** ** SHA-256 *)

(** The message schedule: the last 16 words, the newest first. *)
Definition next_word (w : list Z) : Z :=
  w32 (sigma1 (nth 1 w 0) + nth 6 w 0 + sigma0 (nth 14 w 0) + nth 15 w 0).

Fixpoint schedule (n : nat) (w : list Z) : list Z :=
  match n with
  | O => []
  | S n => let x := next_word w in x :: schedule n (x :: take 15 w)
  end.

Definition round (s : list Z) (kw : Z * Z) : list Z :=
  match s with
  | [a; b; c; d; e; f; g; h] =>
      let t1 := w32 (h + Sigma1 e + Ch e f g + fst kw + snd kw) in
      let t2 := w32 (Sigma0 a + Maj a b c) in
      [w32 (t1 + t2); a; b; c; w32 (d + t1); e; f; g]
  | _ => s
  end.

Fixpoint chunks {A} (fuel n : nat) (l : list A) : list (list A) :=
  match fuel, l with
  | S fuel, _ :: _ => take n l :: chunks fuel n (drop n l)
  | _, _ => []
  end.

Definition compress (s : list Z) (block : bytes) : list Z :=
  let w := map unbe (chunks 16 4 block) in
  zip_with (fun a b => w32 (a + b)) s (foldl round s (zip K (w ++ schedule 48 (reverse w)))).

Definition pad (m : bytes) : bytes :=
  let n := Z.of_nat (length m) in
  m ++ [x80] ++ replicate (Z.to_nat ((55 - n) mod 64)) x00 ++ be 8 (8 * n).

Definition sha256 (m : bytes) : bytes :=
  let p := pad m in
  List.concat (map (be 4) (foldl compress H0 (chunks (length p) 64 p))).

(** ** HMAC and HKDF *)

Definition xor_with (c : Z) (l : bytes) : bytes := map (fun b => byte_of_Z (Z.lxor (Z_of_byte b) c)) l.

Definition hmac (key m : bytes) : bytes :=
  let key := if (64 <? length key)%nat then sha256 key else key in
  let block := key ++ replicate (64 - length key) x00 in
  sha256 (xor_with 0x5c block ++ sha256 (xor_with 0x36 block ++ m)).

Definition hkdf_extract (secret salt : bytes) : bytes := hmac salt secret.

(** The blocks T(i), T(i+1), ... behind [prev]. *)
Fixpoint hkdf_blocks (n : nat) (i : Z) (prk prev info : bytes) : bytes :=
  match n with
  | O => []
  | S n => let t := hmac prk (prev ++ info ++ [byte_of_Z i]) in t ++ hkdf_blocks n (i + 1) prk t info
  end.

Definition hkdf_expand (prk info : bytes) (size : nat) : bytes := take size (hkdf_blocks ((size + 31) / 32) 1 prk [] info).

Example abc : sha256 (str "abc") = be 32 0xba7816bf8f01cfea414140de5dae2223b00361a396177a9cb410ff61f20015ad.
Proof. vm_compute. reflexivity. Qed.

End Digest.
