(* ===== verification/Conformance.v ===== *)
(** * Conformance: the suite of tests every provider must pass

    Models [src/crypto/providertest]: the tests of [providertest.go] and [kdf.go] as
    functions of a provider, and of the bytes the system generator gives where a test
    draws.  A test that calls [t.Fatal] ends in an error with its text.  The model
    of a provider takes sizes as [nat], so the negative size of one row is 0 here, and a
    nil buffer is the empty one.  The goroutines of [testAEADConcurrent] share the AEAD
    alone, which keeps nothing between calls here: their calls are made in order. *)

From Stdlib Require Import Strings.Byte Strings.String.
From S2P Require Import Prelude Effects Crypto C25519 Toy Gost Suites Text.

(** ** Running a test *)

Abbreviation Test := (Draw unit).

Definition okD {A} (a : A) : Draw A := fun e => (Ok a, e).

(** [t.Fatal] *)
Definition fatal {A} (text : string) : Draw A := fun e => (Err (Other text), e).

Definition bindD {A B} (m : Draw A) (k : A -> Draw B) : Draw B := fun e =>
  match m e with
  | (Ok a, e') => k a e'
  | (Err x, e') => (Err x, e')
  end.

Notation "'let%' x ':=' m 'in' k" := (bindD m (fun x => k))
  (at level 10, x pattern, m at level 100, k at level 200) : go_scope.

(** What must not fail, and what must hold. *)
Definition must {A} (text : string) (r : res A) : Draw A := match r with Ok a => okD a | Err _ => fatal text end.
Definition mustD {A} (text : string) (m : Draw A) : Draw A := fun e => match m e with (Ok a, e') => (Ok a, e') | (Err _, e') => (Err (Other text), e') end.
Definition expect (b : bool) (text : string) : Test := if b then okD tt else fatal text.

Definition same (a b : bytes) : bool := bool_decide (a = b).

Fixpoint each {A} (f : A -> Test) (l : list A) : Test :=
  match l with
  | [] => okD tt
  | a :: l => let% _ := f a in each f l
  end.

(** ** Data of the tests *)

(** Every purpose the system derives under, with the size it takes. *)
Definition purposes : list (bytes * nat) :=
  [(str "setup", 32%nat); (str "cell", 32%nat); (str "setup/replay", 16%nat); (str "counter/fwd", 8%nat);
   (str "counter/bwd", 8%nat); (str "link/i2r", 32%nat); (str "link/r2i", 32%nat)].

Definition seqBytes (first : Z) (n : nat) : bytes := map (fun i => byte_of_Z (first + Z.of_nat i)) (seq 0 n).

Fixpoint unhex (s : bytes) : bytes :=
  match s with
  | a :: b :: s => match hex_value a, hex_value b with
                   | Some x, Some y => byte_of_Z (16 * x + y) :: unhex s
                   | _, _ => []
                   end
  | _ => []
  end.

Definition allZero (b : bytes) : bool := forallb (fun x => bool_decide (x = x00)) b.

(** [bytes.Contains] *)
Fixpoint contains (l sub : bytes) : bool :=
  bool_decide (take (length sub) l = sub) || match l with [] => false | _ :: l => contains l sub end.

Definition xorAt (i : nat) (mask : Z) (b : bytes) : bytes := alter (fun x => byte_of_Z (Z.lxor (Z_of_byte x) mask)) i b.

(** One bit of one part changed. *)
Definition flipBit (parts : list bytes) (i bit : nat) : list bytes := alter (xorAt (bit / 8) (2 ^ Z.of_nat (bit mod 8))) i parts.

Definition zeroContext : Context := {| ctx_suite := 0; ctx_sum := replicate ContextSize x00; ctx_set := false |}.

Definition linkID : bytes := be 8 200.

Record goldenDerive : Type := { gd_ctx : nat; gd_purpose : bytes; gd_size : nat; gd_want : bytes }.

Record goldenAgree : Type := { ga_privA : bytes; ga_pubA : bytes; ga_privB : bytes; ga_pubB : bytes; ga_th : bytes; ga_secret : bytes; ga_setupKey : bytes }.

Record goldenSuite : Type := { gs_pubSize : nat; gs_th : list bytes; gs_derive : list goldenDerive; gs_mix : bytes; gs_agree : goldenAgree }.

Definition derive_row (ctx : nat) (purpose : string) (size : nat) (want : string) : goldenDerive :=
  {| gd_ctx := ctx; gd_purpose := str purpose; gd_size := size; gd_want := str want |}.

Definition goldenC25519 : goldenSuite := {|
  gs_pubSize := 32;
  gs_th := [str "bf5988647af2c8b161b8992b8015c2bea0aed5837cc53e37b60450f5fc43aeb7";
            str "70b1a866bbce04b1e398435c381fe1cb1e9160a8d7e54a86efe2763c51353fd1";
            str "412a81d7b53b40da47fab9eade99cd91d6b4c56b40d2a2d7e0c5d85a88fb9381"];
  gs_derive := [
    derive_row 0 "setup" 32 "bbdb94e3db59eb24395f61014dd755ca9c42c4fad7744b70f74818fbb063cf72";
    derive_row 0 "cell" 32 "53c25931ed7343bc6b7863ee8b0dcb2092bdf345c173f9af84e1ed9673c28c2d";
    derive_row 0 "setup/replay" 16 "39131933108b87d63360f0a508b0c163";
    derive_row 0 "counter/fwd" 8 "bdeca6ae015c8e00";
    derive_row 0 "counter/bwd" 8 "29b99d95ce52c6cc";
    derive_row 1 "link/i2r" 32 "cb4c6f2fd373b45125177550d5a0346ee485d6ff0b40e0c416085bfadb4e2f56";
    derive_row 1 "link/r2i" 32 "13a0e7369e8b5a94789d6c026d4141ee94df3a5d0876554018a12c5fcff171bd";
    derive_row 2 "link/i2r" 32 "ead3c39eaf9538eff5d8eaf7cba03de331ab76aa8eaa1c5f49c5acf15c93878f";
    derive_row 2 "link/r2i" 32 "d7bd715509b70ea6aebed17bc9c4aa6dfa71912d4016be09c344eed12649b4f2"];
  gs_mix := str "5c607126ffc60f41031bb890ad1690aac86a11950e034fff1c13a461eefc7986";
  gs_agree := {|
    ga_privA := str "77076d0a7318a57d3c16c17251b26645df4c2f87ebc0992ab177fba51db92c2a";
    ga_pubA := str "8520f0098930a754748b7ddcb43ef75a0dbf3a0d26381af4eba4a98eaa9b4e6a";
    ga_privB := str "5dab087e624a8a4b79e17f8b83800ee66f3bb1292618b6fd1c2f8b27ff88e0eb";
    ga_pubB := str "de9edb7d7b7dc1b4d35b61c2ece435373f8343c85b78674dadfc7e146f882b4f";
    ga_th := str "2b69213d29f83bb7d5462cf15a8d6fe210293961f064da936e3e659477d96eb3";
    ga_secret := str "870bde20fe244bf87732677687c31b9c89a245b9fe102471babcfc7123dddd15";
    ga_setupKey := str "0a0d88469644b07cd9797e2eef6c2efcde74cc78964d74940ff7e77656772e02" |} |}.

Definition goldenGOST : goldenSuite := {|
  gs_pubSize := 64;
  gs_th := [str "89a0d93bcff53a1914892c6fdf5b8cad7a726f6678cb09c01d91aa532a2b5f1c";
            str "27f9517518d0f810964dc8caa1f85fd088216ec3a1b4140482a27ea8f1339ce0";
            str "9d44cf104c23a21dc4d25daf8383d800307304309eea1ee7b651d2c00da3afe2"];
  gs_derive := [
    derive_row 0 "setup" 32 "e79642ec159e3952d9f73857e904c805e34c77aeafbc861966c174c7243e3925";
    derive_row 0 "cell" 32 "8610ecb34c90a4a7107f4572268da52bea9e39504426c7ca963f3449ae11cd66";
    derive_row 0 "setup/replay" 16 "f55b60a5c251ada92ee3c75356bedc4e";
    derive_row 0 "counter/fwd" 8 "2f610511654c3e3a";
    derive_row 0 "counter/bwd" 8 "bf3555cb42b9c5ed";
    derive_row 1 "link/i2r" 32 "bd1e75680c071be9a5f8e676bf26bfb86c2015252544d040c9c2624e32cee6b9";
    derive_row 1 "link/r2i" 32 "ff23986d951a4ea71f3478c82497295e84ef82386a230b2e0fbdda3dba1caf9b";
    derive_row 2 "link/i2r" 32 "580774a14697a2bf809b813ec8913c722f61689f6744041f88732c1c8fa68eba";
    derive_row 2 "link/r2i" 32 "156bb92d584bca80759e34b4cc815e94e97f6414c484d35509be9960e5e7efd7"];
  gs_mix := str "76407e65b18e593b841a48d07c4dbe53f7d4efe3a1826bbf0720ac1d41c3a829";
  gs_agree := {|
    ga_privA := str "0102030405060708090a0b0c0d0e0f101112131415161718191a1b1c1d1e1f20";
    ga_pubA := str "000ad8811b8280e56a2c9b37b7170a3de04039df9151482097e3cc0669ecb7a0" ++
               str "623f29508cc68b124c3d15a4e2a26e3e71dc391fb2c62d558071878e6814f9a3";
    ga_privB := str "1112131415161718191a1b1c1d1e1f202122232425262728292a2b2c2d2e2f30";
    ga_pubB := str "b6749ce1d202dd4550a1ad7a8797e16e47cfdb0a0b446465e447f56abb4dae1b" ++
               str "43cad001b96e51d4f10df16549327c9eea30e0a74adf0ce5a01c5934ec52edc6";
    ga_th := str "28381a1c9c8e25317741bfb03e9d4748c573c6d2750e97df93da1a936c513ce7";
    ga_secret := str "5c5fec204c5e66ce9b4286dca04128aded5d48a3e42be031edda68e3e8ee8ae0";
    ga_setupKey := str "7e9d78151bab2b2fd46d348e3a08aeba7a9aacfc406b301fb05b1220d833babb" |} |}.

Definition golden (suite : Z) : option goldenSuite :=
  if suite =? SuiteC25519 then Some goldenC25519 else if suite =? SuiteGOST then Some goldenGOST else None.

(** The keys under which a signature can be made without a private key. *)
Definition smallOrderKeys (suite : Z) : list bytes :=
  if suite =? SuiteC25519 then
    [str "0100000000000000000000000000000000000000000000000000000000000000";
     str "ecffffffffffffffffffffffffffffffffffffffffffffffffffffffffffff7f";
     str "0000000000000000000000000000000000000000000000000000000000000080";
     str "26e8958fc2b227b045c3f489f2ef98f0d5dfac05d3c63339b13802886d53fc05"]
  else if suite =? SuiteGOST then
    [str "aa4aa1e7dc7530a67ec42a195cfe448758d978d4444b978e15ff95f573fe0001" ++
     str "0000000000000000000000000000000000000000000000000000000000000000";
     str "77592f8c11c5e7acc09d6af3d1805dbc5393c3955d5ab43875003505c6807f7f" ++
     str "cd0e8ea4344fb70642d93fda75821835fbb94ac1180f1daa5f019f0f52827e7e";
     str "77592f8c11c5e7acc09d6af3d1805dbc5393c3955d5ab43875003505c6807f7f" ++
     str "caee715bcbb048f9bd26c0258a7de7ca0446b53ee7f0e255a0fe60f0ad7d8181"]
  else [].

Definition forgedUnderNeutral (size : nat) : bytes := <[0%nat := x01]> (replicate size x00).

(** ** Helpers of the tests *)

(** The same provider under the name of the other suite. *)
Definition otherSuite (P : CryptoProvider) : CryptoProvider := {|
  Suite := if @Suite P =? SuiteGOST then SuiteC25519 else SuiteGOST;
  KeySize := @KeySize P;
  GenerateEphemeral := @GenerateEphemeral P;
  Agree := @Agree P;
  MixKey := @MixKey P;
  DeriveKey := @DeriveKey P;
  NewAEAD := @NewAEAD P;
  GenerateSigning := @GenerateSigning P;
  Sign := @Sign P;
  Verify := @Verify P;
  Hash := @Hash P
|}.

Definition mustContext (P : CryptoProvider) (exchange : bytes) (parts : list bytes) : Draw Context :=
  must "NewContext" (@NewContext P exchange parts).

Definition session (n : string) : list bytes := [str n].

Section Kit.
Context {P : CryptoProvider}.

Definition testContext (n : string) : Draw Context := mustContext P (str "test") (session n).

Definition foreignContext : Draw Context := mustContext (otherSuite P) (str "test") (session "session-1").

Definition mustDerive (secret purpose : bytes) (ctx : Context) (size : nat) : Draw bytes := must "DeriveKey" (DeriveKey secret purpose ctx size).

Definition mustMix (chain secret : bytes) (ctx : Context) : Draw bytes := must "MixKey" (MixKey chain secret ctx).

Definition mustEphemeral : Draw (bytes * bytes) :=
  let% (priv, pub) := mustD "GenerateEphemeral" GenerateEphemeral in
  let% _ := expect (negb (length pub =? 0)%nat) "GenerateEphemeral returned an empty public key" in
  okD (priv, pub).

Definition mustSharedSecret : Draw bytes :=
  let% (aPriv, _) := mustEphemeral in
  let% (_, bPub) := mustEphemeral in
  let% ctx := testContext "session-1" in
  must "Agree" (Agree aPriv bPub ctx).

Definition mustKey : Draw bytes :=
  let% secret := mustSharedSecret in
  let% ctx := testContext "session-1" in
  must "DeriveKey" (DeriveKey secret (str "aead") ctx KeySize).

Definition randomBytes (n : nat) : Draw bytes := mustD "read random" (read_full n).

(** A nonce as wire builds it: random, with the top bit clear. *)
Definition wireNonce (size : nat) : Draw bytes :=
  let% n := randomBytes size in
  okD (alter (fun b => byte_of_Z (Z.land (Z_of_byte b) 127)) 0%nat n).

(** A call that must fail with one error and no other. *)
Definition refuses {A} (text : string) (r : res A) (want : sentinel) : Test :=
  expect (match r with Ok _ => false | Err e => errors_is e want end) text.

(** ** Agreement *)

Definition testAgreeMatches : Test :=
  let% (aPriv, aPub) := mustEphemeral in
  let% (bPriv, bPub) := mustEphemeral in
  let% ctx := mustContext P (str "test") [aPub; bPub] in
  let% aSecret := must "Agree(a)" (Agree aPriv bPub ctx) in
  let% bSecret := must "Agree(b)" (Agree bPriv aPub ctx) in
  let% _ := expect (same aSecret bSecret) "both sides must agree on the same secret" in
  expect ((length aSecret =? KeySize)%nat && negb (allZero aSecret)) "shared secret of the wrong size, or all zeroes".

Definition testAgreeContext : Test :=
  let% (aPriv, _) := mustEphemeral in
  let% (_, bPub) := mustEphemeral in
  let% one := testContext "session-1" in
  let% first := must "Agree" (Agree aPriv bPub one) in
  let% two := testContext "session-2" in
  let% second := must "Agree" (Agree aPriv bPub two) in
  expect (negb (same first second)) "different contexts must produce different secrets".

Definition testAgreeBadInput : Test :=
  let% (priv, pub) := mustEphemeral in
  let% ctx := testContext "session-1" in
  let% foreign := foreignContext in
  let short := seqBytes 1 3 in
  each (fun '(name, priv, pub, ctx, want) => refuses name (Agree priv pub ctx) want) [
    ("nil private key"%string, [], pub, ctx, crypto_ErrBadKeySize);
    ("short private key"%string, short, pub, ctx, crypto_ErrBadKeySize);
    ("short public key"%string, priv, [x01; x02; x03], ctx, crypto_ErrBadPublicKey);
    ("long public key"%string, priv, pub ++ [x00], ctx, crypto_ErrBadPublicKey);
    ("all-zero public key"%string, priv, replicate (length pub) x00, ctx, crypto_ErrBadPublicKey);
    ("zero context"%string, priv, pub, zeroContext, crypto_ErrBadContext);
    ("context of another suite"%string, priv, pub, foreign, crypto_ErrBadContext);
    ("zero context and a bad public key"%string, priv, [x01; x02; x03], zeroContext, crypto_ErrBadContext)].

(** ** Derivation *)

Definition testDeriveKey : Test :=
  let secret := seqBytes 0x40 KeySize in
  let% ctx := testContext "session-1" in
  let% forward := mustDerive secret (str "forward") ctx KeySize in
  let% backward := mustDerive secret (str "backward") ctx KeySize in
  let% _ := expect (length forward =? KeySize)%nat "derived key size" in
  let% _ := expect (negb (same forward backward)) "different purposes must produce different keys" in
  let% again := mustDerive secret (str "forward") ctx KeySize in
  let% _ := expect (same forward again) "DeriveKey must be deterministic" in
  let% other := testContext "session-2" in
  let% under := mustDerive secret (str "forward") other KeySize in
  let% _ := expect (negb (same forward under)) "different contexts must produce different keys" in
  let% _ := each (fun size =>
    let% short := mustDerive secret (str "forward") ctx size in
    expect ((length short =? size)%nat && same short (take size forward)) "not the prefix of the full key") (seq 1 KeySize) in
  let% replay := mustDerive secret (str "replay") ctx 16 in
  expect (negb (same replay (take 16 forward))) "different purposes must produce different outputs at a short size too".

Definition testDeriveKeyBadInput : Test :=
  let secret := seqBytes 0x40 KeySize in
  let% ctx := testContext "session-1" in
  let short := seqBytes 0x40 (KeySize - 1) in
  let long := seqBytes 0x40 (KeySize + 1) in
  let% foreign := foreignContext in
  each (fun '(name, secret, purpose, ctx, size, want) => refuses name (DeriveKey secret purpose ctx size) want) [
    ("size 0"%string, secret, str "cell", ctx, 0%nat, crypto_ErrBadKeySize);
    ("negative size"%string, secret, str "cell", ctx, Z.to_nat (-1), crypto_ErrBadKeySize);
    ("size above KeySize"%string, secret, str "cell", ctx, (KeySize + 1)%nat, crypto_ErrBadKeySize);
    ("nil secret"%string, [], str "cell", ctx, KeySize, crypto_ErrBadKeySize);
    ("short secret"%string, short, str "cell", ctx, KeySize, crypto_ErrBadKeySize);
    ("long secret"%string, long, str "cell", ctx, KeySize, crypto_ErrBadKeySize);
    ("zero context"%string, secret, str "cell", zeroContext, KeySize, crypto_ErrBadContext);
    ("context of another suite"%string, secret, str "cell", foreign, KeySize, crypto_ErrBadContext);
    ("purpose of Agree"%string, secret, str "agree", ctx, KeySize, crypto_ErrBadLabel);
    ("purpose of MixKey"%string, secret, str "mix", ctx, KeySize, crypto_ErrBadLabel);
    ("transcript prefix"%string, secret, str "transcript/test", ctx, KeySize, crypto_ErrBadLabel);
    ("empty purpose"%string, secret, [], ctx, KeySize, crypto_ErrBadLabel);
    ("upper case"%string, secret, str "Cell", ctx, KeySize, crypto_ErrBadLabel);
    ("zero byte"%string, secret, str "cell" ++ [x00], ctx, KeySize, crypto_ErrBadLabel);
    ("empty segment"%string, secret, str "link//i2r", ctx, KeySize, crypto_ErrBadLabel);
    ("33 bytes"%string, secret, replicate 33 "a"%byte, ctx, KeySize, crypto_ErrBadLabel)].

Definition testMixKey : Test :=
  let chain := seqBytes 0x40 KeySize in
  let secret := seqBytes 0x60 KeySize in
  let% ctx := testContext "session-1" in
  let% mixed := mustMix chain secret ctx in
  let% _ := expect (length mixed =? KeySize)%nat "mixed key of the wrong size" in
  let% again := mustMix chain secret ctx in
  let% _ := expect (same mixed again) "MixKey must be deterministic" in
  let% swapped := mustMix secret chain ctx in
  let% _ := expect (negb (same mixed swapped)) "MixKey must depend on the order of its secrets" in
  let% two := testContext "session-2" in
  let% under := mustMix chain secret two in
  let% _ := expect (negb (same mixed under)) "MixKey must depend on the context" in
  let% _ := expect (negb (same mixed chain || same mixed secret)) "MixKey returned one of its inputs" in
  let otherChain := seqBytes 0x41 KeySize in
  let otherSecret := seqBytes 0x61 KeySize in
  let% a := mustMix otherChain secret ctx in
  let% _ := expect (negb (same mixed a)) "MixKey ignores the chain key" in
  let% b := mustMix chain otherSecret ctx in
  expect (negb (same mixed b)) "MixKey ignores the mixed secret".

Definition testMixKeyBadInput : Test :=
  let key := seqBytes 0x40 KeySize in
  let short := seqBytes 0x40 (KeySize - 1) in
  let long := seqBytes 0x40 (2 * KeySize) in
  let% ctx := testContext "session-1" in
  let% foreign := foreignContext in
  each (fun '(name, chain, secret, ctx, want) => refuses name (MixKey chain secret ctx) want) [
    ("nil chain"%string, [], key, ctx, crypto_ErrBadKeySize);
    ("nil secret"%string, key, [], ctx, crypto_ErrBadKeySize);
    ("short chain"%string, short, key, ctx, crypto_ErrBadKeySize);
    ("short secret"%string, key, short, ctx, crypto_ErrBadKeySize);
    ("two keys glued as a chain"%string, long, key, ctx, crypto_ErrBadKeySize);
    ("two keys glued as a secret"%string, key, long, ctx, crypto_ErrBadKeySize);
    ("zero context"%string, key, key, zeroContext, crypto_ErrBadContext);
    ("context of another suite"%string, key, key, foreign, crypto_ErrBadContext)].

(** ** Transcripts *)

(** Everything derived under a context. *)
Definition outputs (priv pub chain secret : bytes) (ctx : Context) : Draw (list bytes) :=
  let% mixed := mustMix chain secret ctx in
  let% agreed := must "Agree" (Agree priv pub ctx) in
  let% derived := foldr (fun '(name, size) rest =>
    let% k := mustDerive chain name ctx size in
    let% ks := rest in
    okD (k :: ks)) (okD []) purposes in
  okD (ctx_sum ctx :: mixed :: agreed :: derived).

Definition differs (outs : Context -> Draw (list bytes)) (want : list bytes) (name : string) (exchange : bytes) (parts : list bytes) : Test :=
  let% ctx := mustContext P exchange parts in
  let% got := outs ctx in
  expect (forallb (fun '(g, w) => negb (same g w)) (zip got want)) name.

(** The five parts of a setup transcript. *)
Definition baseParts (size : nat) : list bytes := [[x02]; [x00]; linkID; seqBytes 0x80 size; seqBytes 0 size].

(** The parts with one thing changed. *)
Definition changedParts (size : nat) : list (string * bytes * list bytes) :=
  let base := baseParts size in
  let setup := str "setup" in
  let p3 := nth 3 base [] in
  let p4 := nth 4 base [] in
  [("another exchange"%string, str "link", base);
   ("a part appended"%string, setup, base ++ [[x00]]);
   ("the last part dropped"%string, setup, take 4 base);
   ("two keys swapped"%string, setup, take 3 base ++ [p4; p3]);
   ("a boundary moved"%string, setup, take 3 base ++ [take (size - 1) p3; drop (size - 1) p3 ++ p4]);
   ("two parts merged"%string, setup, take 3 base ++ [p3 ++ p4]);
   ("a part split"%string, setup, take 4 base ++ [take 1 p4; drop 1 p4])] ++
  List.concat (imap (fun i part => map (fun bit => ("a bit of a part"%string, setup, flipBit base i bit)) [0%nat; (8 * length part - 1)%nat]) base).

Definition testTranscriptSeparates : Test :=
  let% (priv, _) := mustEphemeral in
  let% (_, pub) := mustEphemeral in
  let chain := seqBytes 0x40 KeySize in
  let secret := seqBytes 0x60 KeySize in
  let outs := outputs priv pub chain secret in
  let size := length pub in
  let base := baseParts size in
  let% ctx := mustContext P (str "setup") base in
  let% want := outs ctx in
  let% _ := each (fun '(name, exchange, parts) => differs outs want name exchange parts) (changedParts size) in
  let% ctx := mustContext P (str "setup") base in
  let% cell := mustDerive chain (str "cell") ctx KeySize in
  each (fun '(i, bit) =>
    let% ctx := mustContext P (str "setup") (flipBit base i bit) in
    let% derived := (if same (ctx_sum ctx) (nth 0 want []) then okD cell else mustDerive chain (str "cell") ctx KeySize) in
    expect (negb (same derived cell)) "a bit does not reach the derived key")
    (List.concat (imap (fun i part => map (fun bit => (i, bit)) (seq 0 (8 * length part))) base)).

(** ** Golden vectors *)

Definition goldenFor : Draw goldenSuite :=
  match golden Suite with Some g => okD g | None => fatal "no golden vectors listed for the suite" end.

Definition goldenContexts : Draw (list Context) :=
  let% g := goldenFor in
  let n := gs_pubSize g in
  let% g1 := mustContext P (str "setup") [[x02]; [x00]; linkID; seqBytes 0x80 n; seqBytes 0 n] in
  let% g2 := mustContext P (str "link") [[x02]; [x01]; seqBytes 0 n; seqBytes 0x40 n; seqBytes 0x80 n] in
  let% g3 := mustContext P (str "link") [[x02]; [x00]; seqBytes 0 n; seqBytes 0x40 n] in
  okD [g1; g2; g3].

Definition testGoldenTranscript : Test :=
  let% g := goldenFor in
  let% (_, pub) := mustEphemeral in
  let% _ := expect (length pub =? gs_pubSize g)%nat "the vectors assume another public key size" in
  let% ctxs := goldenContexts in
  each (fun '(ctx, th) => expect (same (hex_encode (ctx_sum ctx)) th) "th") (zip ctxs (gs_th g)).

Definition testGoldenDeriveKey : Test :=
  let% g := goldenFor in
  let% ctxs := goldenContexts in
  let k := seqBytes 0x40 32 in
  each (fun d =>
    let% got := mustDerive k (gd_purpose d) (nth (gd_ctx d) ctxs zeroContext) (gd_size d) in
    expect (same (hex_encode got) (gd_want d)) "DeriveKey") (gs_derive g).

Definition testGoldenMixKey : Test :=
  let% g := goldenFor in
  let% ctxs := goldenContexts in
  let% got := mustMix (seqBytes 0x40 32) (seqBytes 0x60 32) (nth 1 ctxs zeroContext) in
  expect (same (hex_encode got) (gs_mix g)) "MixKey".

Definition testGoldenAgree : Test :=
  let% g := goldenFor in
  let a := gs_agree g in
  let pubA := unhex (ga_pubA a) in
  let pubB := unhex (ga_pubB a) in
  let% ctx := mustContext P (str "setup") [[x02]; [x00]; linkID; pubB; pubA] in
  let% _ := expect (same (hex_encode (ctx_sum ctx)) (ga_th a)) "th" in
  each (fun '(name, priv, pub) =>
    let% secret := must name (Agree (unhex priv) pub ctx) in
    let% _ := expect (same (hex_encode secret) (ga_secret a)) name in
    let% got := mustDerive secret (str "setup") ctx 32 in
    expect (same (hex_encode got) (ga_setupKey a)) name)
    [("Agree(a, B)"%string, ga_privA a, pubB); ("Agree(b, A)"%string, ga_privB a, pubA)].

(** ** Sealing *)

Definition testAEADRoundTrip : Test :=
  let% key := mustKey in
  let% a := must "NewAEAD" (NewAEAD key) in
  let% nonce := wireNonce (NonceSize a) in
  let plaintext := str "cell payload of fixed size" in
  let ad := str "hop-1" in
  let ciphertext := Seal a nonce plaintext ad in
  let% _ := expect (length ciphertext =? length plaintext + Overhead a)%nat "ciphertext length" in
  let% _ := expect (negb (contains ciphertext plaintext)) "ciphertext contains the plaintext" in
  let% out := must "Open" (Open a nonce ciphertext ad) in
  expect (same out plaintext) "round trip".

Definition testAEADTamper : Test :=
  let% key := mustKey in
  let% a := must "NewAEAD" (NewAEAD key) in
  let% nonce := wireNonce (NonceSize a) in
  let ad := str "hop-1" in
  let ciphertext := Seal a nonce (str "payload") ad in
  let% _ := expect (negb (is_ok (Open a nonce (xorAt 0 0xff ciphertext) ad))) "Open must reject a modified ciphertext" in
  let% _ := expect (negb (is_ok (Open a nonce ciphertext (str "hop-2")))) "Open must reject wrong associated data" in
  let% otherNonce := wireNonce (NonceSize a) in
  let% _ := expect (negb (is_ok (Open a otherNonce ciphertext ad))) "Open must reject a wrong nonce" in
  let topBit := alter (fun b => byte_of_Z (Z.lor (Z_of_byte b) 0x80)) 0%nat nonce in
  expect (negb (is_ok (Open a topBit ciphertext ad))) "Open must reject a nonce with the top bit set".

Definition cells : nat := 32.

(** One cell: nonce, associated data, plaintext, and what sealing it alone gives. *)
Definition sealedCell (a : AEAD) (i : nat) : Draw (bytes * bytes * bytes * bytes) :=
  let% nonce := wireNonce (NonceSize a) in
  let% plain := randomBytes (494 - Overhead a) in
  let ad := [byte_of_Z (Z.of_nat i)] in
  okD (nonce, ad, plain, Seal a nonce plain ad).

Definition sealAgain (a : AEAD) (c : bytes * bytes * bytes * bytes) : Test :=
  let '(nonce, ad, plain, sealed) := c in
  let% _ := expect (same (Seal a nonce plain ad) sealed) "concurrent Seal differs from the sequential result" in
  expect (match Open a nonce sealed ad with Ok out => same out plain | Err _ => false end) "concurrent Open failed on a genuine cell".

Fixpoint collect {A} (l : list (Draw A)) : Draw (list A) :=
  match l with
  | [] => okD []
  | m :: l =>
      let% a := m in
      let% rest := collect l in
      okD (a :: rest)
  end.

Definition testAEADConcurrent : Test :=
  let% key := mustKey in
  let% a := must "NewAEAD" (NewAEAD key) in
  let% sealed := collect (map (sealedCell a) (seq 0 cells)) in
  each (fun w => each (fun r => match sealed !! ((w * 7 + r) mod cells)%nat with Some c => sealAgain a c | None => fatal "index out of range" end)
                   (seq 0 20)) (seq 0 8).

(** ** Signatures and hash *)

Definition testSignatures : Test :=
  let% (priv, pub) := mustD "GenerateSigning" GenerateSigning in
  let msg := str "node identity statement" in
  let% sig := mustD "Sign" (Sign priv msg) in
  let% _ := expect (Verify pub msg sig) "Verify must accept a valid signature" in
  let% _ := expect (negb (Verify pub (str "other message") sig)) "Verify must reject another message" in
  let% _ := expect (negb (Verify pub msg (xorAt 0 0xff sig))) "Verify must reject a modified signature" in
  let% (otherPriv, otherPub) := mustD "GenerateSigning" GenerateSigning in
  let% otherSig := mustD "Sign" (Sign otherPriv msg) in
  let% _ := expect (negb (Verify pub msg otherSig || Verify otherPub msg sig)) "Verify must reject a signature made by another key" in
  let% _ := each (fun bad => expect (negb (Verify bad msg sig)) "Verify must reject a public key of another size")
              [[]; take (length pub - 1) pub; pub ++ [x00]] in
  let% _ := each (fun bad => expect (negb (Verify pub msg bad)) "Verify must reject a signature of another size")
              [[]; take (length sig - 1) sig; sig ++ [x00]] in
  let keys := smallOrderKeys Suite in
  let% _ := expect (negb (length keys =? 0)%nat) "no small-order keys listed for suite" in
  each (fun h => each (fun s => expect (negb (Verify (unhex h) msg s)) "Verify must reject the small-order key")
                   [sig; replicate (length sig) x00; forgedUnderNeutral (length sig)]) keys.

(** [Hash] takes its parts as one stream. *)
Definition testHash : Test :=
  let first := Hash (str "abc") in
  let second := Hash (str "a" ++ str "bc") in
  let% _ := expect (same first second) "Hash must treat split input as one stream" in
  let% _ := expect (negb (length first =? 0)%nat) "Hash returned nothing" in
  expect (negb (same first (Hash (str "abd")))) "Hash collision on trivial input".

(** The tests in the order they run; one that fails does not keep the others from
    running. *)
Definition tests : list (string * Test) := [
  ("AgreeMatches"%string, testAgreeMatches); ("AgreeContextSeparates"%string, testAgreeContext);
  ("AgreeRejectsBadInput"%string, testAgreeBadInput); ("DeriveKeyPurposeSeparates"%string, testDeriveKey);
  ("DeriveKeyRejectsBadInput"%string, testDeriveKeyBadInput); ("MixKey"%string, testMixKey);
  ("MixKeyRejectsBadInput"%string, testMixKeyBadInput); ("TranscriptSeparates"%string, testTranscriptSeparates);
  ("GoldenTranscript"%string, testGoldenTranscript); ("GoldenDeriveKey"%string, testGoldenDeriveKey);
  ("GoldenMixKey"%string, testGoldenMixKey); ("GoldenAgree"%string, testGoldenAgree);
  ("AEADRoundTrip"%string, testAEADRoundTrip); ("AEADDetectsTampering"%string, testAEADTamper);
  ("AEADIsSafeForConcurrentUse"%string, testAEADConcurrent); ("Signatures"%string, testSignatures);
  ("HashIsStable"%string, testHash)].

Fixpoint run_tests (l : list (string * Test)) (e : bytes) : list (string * res unit) :=
  match l with
  | [] => []
  | (name, test) :: l => let '(r, e) := test e in (name, r) :: run_tests l e
  end.

Definition Run (e : bytes) : list (string * res unit) := run_tests tests e.

End Kit.

(** ** What a test can report *)

(** The test ends well with [Q], or fails with one of these texts. *)
Definition reports {A} (texts : list string) (m : Draw A) (Q : A -> Prop) : Prop :=
  forall e, match m e with
            | (Ok a, _) => Q a
            | (Err x, _) => exists t, x = Other t /\ t ∈ texts
            end.

Lemma reports_bind {A B} texts (m : Draw A) (k : A -> Draw B) Q R : reports texts m Q -> (forall a, Q a -> reports texts (k a) R) ->
  reports texts (bindD m k) R.
Proof. intros Hm Hk e. unfold bindD. specialize (Hm e). destruct (m e) as [[a|x] e']; [by apply Hk | done]. Qed.

Lemma reports_ok {A} texts (a : A) (Q : A -> Prop) : Q a -> reports texts (okD a) Q.
Proof. by intros H e. Qed.

Lemma reports_must {A} texts text (r : res A) (Q : A -> Prop) : text ∈ texts \/ is_ok r = true -> (forall a, r = Ok a -> Q a) -> reports texts (must text r) Q.
Proof. intros Ht HQ e. destruct r as [a|x]; cbn; [by apply HQ|]. exists text. by destruct Ht. Qed.

Lemma reports_mustD {A} texts text (m : Draw A) (Q : A -> Prop) : text ∈ texts -> (forall e a e', m e = (Ok a, e') -> Q a) -> reports texts (mustD text m) Q.
Proof. intros Ht HQ e. unfold mustD. destruct (m e) as [[a|x] e'] eqn:E; [by eapply HQ | by exists text]. Qed.

Lemma reports_expect texts text b (Q : unit -> Prop) : text ∈ texts \/ b = true -> (b = true -> Q tt) -> reports texts (expect b text) Q.
Proof. intros Ht HQ e. destruct b; cbn; [by apply HQ|]. exists text. by destruct Ht. Qed.

Lemma reports_each {A} texts (f : A -> Test) l : (forall a, a ∈ l -> reports texts (f a) (fun _ => True)) -> reports texts (each f l) (fun _ => True).
Proof.
  induction l as [|a l IH]; intros Hf; cbn [each]; [by apply reports_ok|]. eapply reports_bind; [apply Hf; set_solver|].
  intros _ _. apply IH. intros b Hb. apply Hf. set_solver.
Qed.

Lemma reports_weaken {A} texts (m : Draw A) (Q R : A -> Prop) : reports texts m Q -> (forall a, Q a -> R a) -> reports texts m R.
Proof. intros Hm HQ e. specialize (Hm e). destruct (m e) as [[a|x] e']; [by apply HQ | done]. Qed.

Lemma refuses_ok {A} text (r : res A) want e : match r with Ok _ => false | Err x => errors_is x want end = true -> refuses text r want e = (Ok tt, e).
Proof. intros H. unfold refuses. by rewrite H. Qed.

Lemma each_ok {A} (f : A -> Test) l e : Forall (fun a => f a e = (Ok tt, e)) l -> each f l e = (Ok tt, e).
Proof. induction 1 as [|a l Ha _ IH]; [done|]. cbn [each]. unfold bindD. by rewrite Ha. Qed.

(** *** Lawful providers *)

Section Lawful.
Context `{L : CryptoLaws}.

(** A context of a fixed exchange is always made. *)
Lemma context_made exchange parts : (exists t, TranscriptBytes Suite exchange parts = Ok t) ->
  exists c, NewContext exchange parts = Ok c /\ ctx_suite c = Suite /\ Context_Valid c = true.
Proof.
  intros (t & Ht). unfold NewContext. rewrite Ht. cbn [rbind]. rewrite hash_size, Nat.eqb_refl. cbn [negb]. eexists. split; [done|].
  split; [done|]. unfold Context_Valid. cbn. apply suite_known.
Qed.

Lemma session_transcript s n : knownSuite s = true -> n = "session-1"%string \/ n = "session-2"%string -> exists t, TranscriptBytes s (str "test") (session n) = Ok t.
Proof. intros Hs [-> | ->]; unfold TranscriptBytes; rewrite Hs; eexists; vm_compute; reflexivity. Qed.

Lemma reports_context texts n Q : n = "session-1"%string \/ n = "session-2"%string -> (forall c, ctx_suite c = Suite -> Context_Valid c = true -> Q c) ->
  reports texts (testContext n) Q.
Proof.
  intros Hn HQ. destruct (context_made (str "test") (session n) (session_transcript _ _ suite_known Hn)) as (c & Hc & H1 & H2).
  unfold testContext, mustContext. rewrite Hc. by apply reports_ok, HQ.
Qed.

Lemma reports_ephemeral texts : "GenerateEphemeral"%string ∈ texts -> reports texts mustEphemeral (fun '(priv, pub) => KeyPair priv pub).
Proof.
  intros Ht. unfold mustEphemeral. eapply (reports_bind _ _ _ (fun '(priv, pub) => KeyPair priv pub)).
  - apply reports_mustD; [done|]. intros e [priv pub] e' H. by exists e, e'.
  - intros [priv pub] Hk. eapply (reports_bind _ _ _ (fun _ => True)); [|intros _ _; by apply reports_ok].
    apply reports_expect; [|done]. right. rewrite (generate_pub_size _ _ Hk). pose proof pub_size_range. by destruct pub_size; [lia|].
Qed.

Definition keyFailures : list string := ["GenerateEphemeral"%string; "Agree"%string; "DeriveKey"%string].

Lemma reports_key texts : keyFailures ⊆ texts -> reports texts mustKey (fun key => length key = KeySize).
Proof.
  intros Ht. unfold mustKey. eapply (reports_bind _ _ _ (fun _ => True)).
  - unfold mustSharedSecret. eapply reports_bind; [apply reports_ephemeral, Ht; set_solver|]. intros [aPriv aPub] _.
    eapply reports_bind; [apply reports_ephemeral, Ht; set_solver|]. intros [bPriv bPub] _.
    eapply (reports_bind _ _ _ (fun _ => True)); [apply reports_context; [by left | done]|]. intros ctx _. apply reports_must; [left; apply Ht; set_solver | done].
  - intros secret _. eapply (reports_bind _ _ _ (fun _ => True)); [apply reports_context; [by left | done]|]. intros ctx _.
    apply reports_must; [left; apply Ht; set_solver|]. intros key. apply derive_size.
Qed.

(** A fresh AEAD. *)
Lemma reports_aead {B} texts (k : AEAD -> Draw B) R : keyFailures ⊆ texts ->
  (forall key a, NewAEAD key = Ok a -> reports texts (k a) R) -> reports texts (let% key := mustKey in let% a := must "NewAEAD" (NewAEAD key) in k a) R.
Proof.
  intros Ht Hk. eapply reports_bind; [by apply reports_key|]. intros key Hl. destruct (new_aead key Hl) as (a & Ha). rewrite Ha. cbn [must].
  eapply (reports_bind _ _ _ (fun b => b = a)); [by apply reports_ok | intros b ->; by eapply Hk].
Qed.

Lemma land_127 b : Z_of_byte (byte_of_Z (Z.land (Z_of_byte b) 127)) < 128.
Proof.
  rewrite Z_of_byte_of_Z. change 127 with (Z.ones 7). rewrite Z.land_ones by lia. pose proof (Z.mod_pos_bound (Z_of_byte b) (2 ^ 7) ltac:(lia)).
  rewrite Z.mod_small by lia. lia.
Qed.

Lemma reports_nonce texts size : "read random"%string ∈ texts -> reports texts (wireNonce size) (fun n => length n = size /\ nonce_admissible n).
Proof.
  intros Ht. unfold wireNonce, randomBytes. eapply (reports_bind _ _ _ (fun n => length n = size)).
  - apply reports_mustD; [done|]. intros e n e' [H _]%read_full_ok. done.
  - intros n Hn. apply reports_ok. rewrite length_alter. split; [done|]. intros Hl. destruct n as [|b n]; [by rewrite length_alter in Hl|].
    cbn. eexists _, _. split; [done | apply land_127].
Qed.

Definition signatureFailures : list string :=
  ["GenerateSigning"; "Sign"; "Verify must reject another message"; "Verify must reject a modified signature";
   "Verify must reject a signature made by another key"; "Verify must reject a public key of another size";
   "Verify must reject a signature of another size"; "no small-order keys listed for suite"; "Verify must reject the small-order key"]%string.

Lemma agree_reports :
  reports ["GenerateEphemeral"; "Agree(a)"; "Agree(b)"; "NewContext"; "shared secret of the wrong size, or all zeroes"]%string testAgreeMatches (fun _ => True).
Proof.
  unfold testAgreeMatches. eapply reports_bind; [apply reports_ephemeral; set_solver|]. intros [aPriv aPub] Ha.
  eapply reports_bind; [apply reports_ephemeral; set_solver|]. intros [bPriv bPub] Hb.
  eapply (reports_bind _ _ _ (fun _ => True)); [apply reports_must; [left; set_solver | done]|]. intros ctx _.
  eapply reports_bind; [apply reports_must; [left; set_solver | intros a Ea; exact Ea]|]. intros aSecret Ea.
  eapply reports_bind; [apply reports_must; [left; set_solver | intros b Eb; exact Eb]|]. intros bSecret Eb.
  eapply (reports_bind _ _ _ (fun _ => True)); [|intros _ _; apply reports_expect; [left; set_solver | done]].
  apply reports_expect; [|done]. right. apply bool_decide_eq_true. rewrite (agree_comm _ _ _ _ ctx Ha Hb) in Ea. congruence.
Qed.

Lemma round_trip_reports :
  reports (keyFailures ++ ["read random"%string; "ciphertext contains the plaintext"%string]) testAEADRoundTrip (fun _ => True).
Proof.
  apply reports_aead; [set_solver|]. intros key a Ha. destruct (aead_sizes key a Ha) as [Hn Ho].
  eapply reports_bind; [apply reports_nonce; set_solver|]. intros nonce [Hl Hadm]. rewrite Hn in Hl.
  eapply (reports_bind _ _ _ (fun _ => True)); [apply reports_expect; [right; rewrite (seal_length _ _ _ _ _ Ha), Ho; apply Nat.eqb_refl | done]|]. intros _ _.
  eapply (reports_bind _ _ _ (fun _ => True)); [apply reports_expect; [left; set_solver | done]|]. intros _ _.
  rewrite (open_seal _ _ _ _ _ Ha Hl Hadm). cbn [must]. eapply reports_bind; [by apply (reports_ok _ _ (fun out => out = str "cell payload of fixed size"))|].
  intros out ->. apply reports_expect; [right; by apply bool_decide_eq_true | done].
Qed.

Lemma concurrent_reports :
  reports (keyFailures ++ ["read random"%string]) testAEADConcurrent (fun _ => True).
Proof.
  apply reports_aead; [set_solver|]. intros key a Ha. destruct (aead_sizes key a Ha) as [Hn Ho].
  set (good := fun '(nonce, ad, plain, sealed) => length nonce = nonce_size /\ nonce_admissible nonce /\ sealed = Seal a nonce plain ad : Prop).
  eapply (reports_bind _ _ _ (fun l => length l = cells /\ Forall good l)).
  + assert (forall is_, reports (keyFailures ++ ["read random"%string]) (collect (map (sealedCell a) is_)) (fun l => length l = length is_ /\ Forall good l)) as Hc; [|apply Hc].
    induction is_ as [|i is_ IH]; [by apply reports_ok|]. cbn [map collect]. eapply (reports_bind _ _ _ good).
    * unfold sealedCell. eapply reports_bind; [apply reports_nonce; set_solver|]. intros nonce [Hl Hadm]. rewrite Hn in Hl.
      eapply (reports_bind _ _ _ (fun _ => True)); [by apply reports_mustD; [set_solver|]|]. intros plain _. by apply reports_ok.
    * intros c Hg. eapply reports_bind; [apply IH|]. intros l [Hl Hf]. apply reports_ok. split; [cbn; by rewrite Hl | by constructor].
  + intros l [Hl Hf]. apply reports_each. intros w _. apply reports_each. intros r _.
    destruct (lookup_lt_is_Some_2 l ((w * 7 + r) mod cells)%nat) as [[[[nonce ad] plain] sealed] Ec]; [rewrite Hl; by apply Nat.mod_upper_bound|]. rewrite Ec.
    destruct (Forall_lookup_1 _ _ _ _ Hf Ec) as (Hln & Hadm & ->). unfold sealAgain.
    eapply (reports_bind _ _ _ (fun _ => True)); [apply reports_expect; [right; by apply bool_decide_eq_true | done]|]. intros _ _.
    rewrite (open_seal _ _ _ _ _ Ha Hln Hadm). apply reports_expect; [right; by apply bool_decide_eq_true | done].
Qed.

Lemma hash_reports :
  reports ["Hash collision on trivial input"]%string testHash (fun _ => True).
Proof.
  unfold testHash. eapply (reports_bind _ _ _ (fun _ => True)); [apply reports_expect; [right; by apply bool_decide_eq_true | done]|]. intros _ _.
  eapply (reports_bind _ _ _ (fun _ => True)); [apply reports_expect; [right; by rewrite hash_size | done]|]. intros _ _. apply reports_expect; [left; set_solver | done].
Qed.

Lemma signature_reports :
  reports signatureFailures testSignatures (fun _ => True).
Proof.
  assert (forall (m : Draw bytes) t Q, t ∈ signatureFailures -> (forall e s e', m e = (Ok s, e') -> Q s) -> reports signatureFailures (mustD t m) Q) as Hm
    by (intros; by apply reports_mustD).
  unfold testSignatures. eapply (reports_bind _ _ _ (fun '(priv, pub) => SigningPair priv pub)); [apply reports_mustD; [set_solver|]; intros e [priv pub] e' H; by exists e, e'|].
  intros [priv pub] Hp. eapply (reports_bind _ _ _ (fun sig => exists e e', Sign priv (str "node identity statement") e = (Ok sig, e')));
    [apply reports_mustD; [set_solver|]; intros e sig e' H; by exists e, e'|]. intros sig (e & e' & Hs). rewrite (sign_verify _ _ _ _ _ _ Hp Hs). cbn [expect].
  assert (forall (k : unit -> Test), reports signatureFailures (k tt) (fun _ => True) -> reports signatureFailures (bindD (okD tt) k) (fun _ => True)) as Hok by done.
  apply Hok. clear Hok.
  repeat first [ apply reports_expect; [left; set_solver | done]
               | apply reports_each; intros ? _
               | eapply (reports_bind _ _ _ (fun _ => True)); [| intros [] _]
               | eapply (reports_bind _ _ _ (fun _ => True)); [| intros ? _]
               | by apply reports_mustD; [set_solver|] ].
Qed.

(** What the suite cannot hold against a provider that keeps the laws: the two sides
    always agree, a sealed cell has the length announced and opens to what was sealed,
    also when sealing and opening are interleaved, a genuine signature is accepted and
    the hash takes its input as a stream.  Whatever the system generator gives, these
    tests can fail only when it runs dry or a call is refused before, or for what no law
    excludes: an all-zero secret, a plaintext that shows through, a forgery, a
    collision. *)
Theorem lawful_reports :
  reports ["GenerateEphemeral"; "Agree(a)"; "Agree(b)"; "NewContext"; "shared secret of the wrong size, or all zeroes"]%string testAgreeMatches (fun _ => True) /\
  reports (keyFailures ++ ["read random"%string; "ciphertext contains the plaintext"%string]) testAEADRoundTrip (fun _ => True) /\
  reports (keyFailures ++ ["read random"%string]) testAEADConcurrent (fun _ => True) /\
  reports ["Hash collision on trivial input"]%string testHash (fun _ => True) /\
  reports signatureFailures testSignatures (fun _ => True).
Proof. exact (conj agree_reports (conj round_trip_reports (conj concurrent_reports (conj hash_reports signature_reports)))). Qed.

End Lawful.

(** ** Refused inputs *)

Section Refused.
Context {P : CryptoProvider} {L : @CryptoLaws P} (n : nat) (peer_ok : bytes -> bytes -> bool) (Hdoc : Suites.documented P n peer_ok).

Lemma row_refused {A} (r : res A) want : Suites.refusal r = Some want -> match r with Ok _ => false | Err x => errors_is x want end = true.
Proof. destruct r as [a|x]; [done|]. cbn [Suites.refusal]. intros H%find_some. by destruct H. Qed.

Lemma length_seqBytes f k : length (seqBytes f k) = k.
Proof. unfold seqBytes. by rewrite length_map, length_seq. Qed.

(** What is checked first decides. *)
Lemma first_bad ok s rest : ok = false -> Suites.first_failure ((ok, s) :: rest) = Some s.
Proof. by intros ->. Qed.

Lemma first_good ok s rest : ok = true -> Suites.first_failure ((ok, s) :: rest) = Suites.first_failure rest.
Proof. by intros ->. Qed.

(** Contexts a provider owns, and those it does not. *)
Definition owned (c : Context) : bool := Context_Valid c && (ctx_suite c =? Suite).

Lemma owned_own c : ctx_suite c = Suite -> Context_Valid c = true -> owned c = true.
Proof. intros H1 H2. unfold owned. by rewrite H2, H1, Z.eqb_refl. Qed.

Lemma made_context e : exists c, testContext "session-1" e = (Ok c, e) /\ owned c = true.
Proof.
  destruct (context_made (str "test") (session "session-1") (session_transcript _ _ suite_known (or_introl eq_refl))) as (c & Hc & H1 & H2).
  exists c. split; [unfold testContext, mustContext; by rewrite Hc | by apply owned_own].
Qed.

Lemma made_foreign e : exists c, foreignContext e = (Ok c, e) /\ owned c = false.
Proof.
  set (s := if Suite =? SuiteGOST then SuiteC25519 else SuiteGOST).
  assert (knownSuite s = true /\ s <> Suite) as [Hs Hne].
  { unfold s. destruct (known_cases _ suite_known) as [-> | ->]; by vm_compute. }
  destruct (session_transcript s "session-1" Hs (or_introl eq_refl)) as (t & Ht). unfold foreignContext, mustContext, NewContext. cbn [Suite otherSuite Hash]. fold s.
  rewrite Ht. cbn [rbind]. rewrite hash_size, Nat.eqb_refl. cbn [negb must]. eexists. split; [done|]. unfold owned. cbn [ctx_suite]. apply Z.eqb_neq in Hne. rewrite Hne. apply andb_false_r.
Qed.

Lemma zero_not_owned : owned zeroContext = false.
Proof. done. Qed.

Lemma agree_row text priv pub c want e : Suites.first_failure
    [(bool_decide (length priv = n), crypto_ErrBadKeySize); (owned c, crypto_ErrBadContext); (peer_ok priv pub, crypto_ErrBadPublicKey)] = Some want ->
  refuses text (Agree priv pub c) want e = (Ok tt, e).
Proof. intros H. apply refuses_ok, row_refused. by rewrite (proj1 Hdoc). Qed.

Lemma mix_row text chain secret c want e : Suites.first_failure
    [(bool_decide (length chain = KeySize), crypto_ErrBadKeySize); (bool_decide (length secret = KeySize), crypto_ErrBadKeySize); (owned c, crypto_ErrBadContext)] = Some want ->
  refuses text (MixKey chain secret c) want e = (Ok tt, e).
Proof. intros H. apply refuses_ok, row_refused. by rewrite (proj1 (proj2 Hdoc)). Qed.

Lemma derive_check text secret purpose c size want e : Suites.first_failure
    [(bool_decide (length secret = KeySize), crypto_ErrBadKeySize); (bool_decide (0 < size <= KeySize)%nat, crypto_ErrBadKeySize); (owned c, crypto_ErrBadContext);
     (Suites.purpose_ok purpose, crypto_ErrBadLabel)] = Some want ->
  refuses text (DeriveKey secret purpose c size) want e = (Ok tt, e).
Proof. intros H. apply refuses_ok, row_refused. by rewrite (proj1 (proj2 (proj2 Hdoc))). Qed.

Ltac decides := rewrite ?length_seqBytes; repeat first
  [ rewrite first_good by first [done | apply bool_decide_eq_true; first [done | lia] | assumption]
  | rewrite first_bad by first [done | apply bool_decide_eq_false; cbn; lia | assumption
      | match goal with Hr : forall priv pub, length pub <> _ -> peer_ok priv pub = false |- _ => apply Hr end; rewrite ?length_app; cbn; lia] ]; reflexivity.

Lemma mix_refuses e : fst (testMixKeyBadInput e) = Ok tt.
Proof.
  unfold testMixKeyBadInput, bindD. destruct (made_context e) as (c & -> & Hc). destruct (made_foreign e) as (f & -> & Hf). rewrite each_ok; [done|].
  pose proof zero_not_owned as Hz. pose proof key_size_pos. repeat apply Forall_cons_2; [.. | apply Forall_nil_2]; apply mix_row; decides.
Qed.

Lemma derive_refuses e : fst (testDeriveKeyBadInput e) = Ok tt.
Proof.
  unfold testDeriveKeyBadInput, bindD. destruct (made_context e) as (c & -> & Hc). destruct (made_foreign e) as (f & -> & Hf). rewrite each_ok; [done|].
  pose proof zero_not_owned as Hz. pose proof key_size_pos. repeat apply Forall_cons_2; [.. | apply Forall_nil_2]; apply derive_check; decides.
Qed.

(** Agreement keys, and the peers that can be computed on. *)
Context (Hn : (4 <= n)%nat) (Hpub : pub_size <> 3%nat) (Hpriv : forall priv pub, KeyPair priv pub -> length priv = n)
  (Hpeer : forall priv pub, peer_ok priv pub = true -> length pub = pub_size)
  (Hzero : forall priv, peer_ok priv (replicate pub_size x00) = false).

Lemma peer_refused priv pub : length pub <> pub_size -> peer_ok priv pub = false.
Proof. intros Hl. destruct (peer_ok priv pub) eqn:E; [|done]. by apply Hpeer in E. Qed.

Lemma agree_refuses e : fst (testAgreeBadInput e) = Ok tt \/ is_ok (fst (GenerateEphemeral e)) = false.
Proof.
  unfold testAgreeBadInput, bindD. unfold mustEphemeral at 1, mustD, bindD. destruct (GenerateEphemeral e) as [[[priv pub]|x] e1] eqn:Eg; [|by right]. left.
  pose proof peer_refused as Hrefuse. assert (KeyPair priv pub) as Hk by (by exists e, e1). pose proof (generate_pub_size _ _ Hk) as Hl. pose proof (Hpriv _ _ Hk) as Hp. pose proof pub_size_range.
  rewrite (proj2 (Nat.eqb_neq _ _)) by lia. cbn [negb expect okD]. destruct (made_context e1) as (c & -> & Hc). destruct (made_foreign e1) as (f & -> & Hf).
  rewrite each_ok; [done|]. pose proof zero_not_owned as Hz. repeat apply Forall_cons_2; [.. | apply Forall_nil_2]; apply agree_row; try rewrite Hl; decides.
Qed.

End Refused.

(** Both suites refuse every input of the tables.  Whatever the system generator
    gives, no row of [testAgreeBadInput], [testDeriveKeyBadInput] and
    [testMixKeyBadInput] fails under a provider picked by name: each wrong size, each
    context that is zero or of the other suite, each reserved or malformed purpose and
    each bad public key is answered with its own error, also where two are wrong. *)
Theorem bad_inputs_refused {G : GostPrimitives} {GL : GostLaws} {X : Primitives} {XL : PrimitiveLaws} s P e :
  Suites.New s = Ok P ->
  is_ok (Gost.publicKey (replicate 64 x00)) = false -> (forall k, X25519 k (replicate 32 x00) = None) ->
  (fst (@testAgreeBadInput P e) = Ok tt \/ is_ok (fst (@GenerateEphemeral P e)) = false) /\
  fst (@testDeriveKeyBadInput P e) = Ok tt /\ fst (@testMixKeyBadInput P e) = Ok tt.
Proof.
  intros HP HG HX. apply Suites.New_ok in HP as [[-> ->]|[-> ->]].
  - pose proof curve_size as Hc. pose proof Suites.gost_documented as Hd.
    split_and!; [eapply (agree_refuses (L := Gost.laws)); [exact Hd | rewrite Hc; lia | done | | |] | eapply (derive_refuses (L := Gost.laws)); exact Hd | eapply (mix_refuses (L := Gost.laws)); exact Hd].
    + intros priv pub Hk%Gost.key_pair. by destruct Hk.
    + intros priv pub Hp. unfold Suites.gost_peer in Hp. destruct (Gost.publicKey pub) as [q|] eqn:E; [|done]. unfold Gost.publicKey in E.
      destruct (Nat.eqb_spec (length pub) (2 * PointSize)) as [->|]; [cbn; lia | done].
    + intros priv. exact HG.
  - pose proof Suites.c25519_documented as Hd.
    split_and!; [eapply (agree_refuses (L := C25519.laws)); [exact Hd | lia | done | | |] | eapply (derive_refuses (L := C25519.laws)); exact Hd | eapply (mix_refuses (L := C25519.laws)); exact Hd].
    + intros priv pub Hk%C25519.key_pair_spec. by destruct Hk.
    + intros priv pub Hp. unfold Suites.c25519_peer in Hp. apply andb_true_iff in Hp as [Hp%bool_decide_eq_true _]. done.
    + intros priv. unfold Suites.c25519_peer. cbn [pub_size C25519.laws]. by rewrite HX, andb_false_r.
Qed.

(** ** Evaluation *)

Module ConformanceDemo.

(** Agreement by an odd factor modulo 2^256: zero is refused, as X25519 refuses it. *)
Definition odd_x (a p : bytes) : option bytes :=
  if bool_decide (length a = 32%nat /\ length p = 32%nat /\ unbe p <> 0) then Some (be 32 ((2 * unbe a + 1) * unbe p)) else None.

Definition odd : Primitives := {|
  X25519 := odd_x;
  Basepoint := Toy.toy_base;
  hkdf_Extract := @hkdf_Extract Toy.toy;
  hkdf_Expand := @hkdf_Expand Toy.toy;
  xchacha_Seal := @xchacha_Seal Toy.toy;
  xchacha_Open := @xchacha_Open Toy.toy;
  sha256 := @sha256 Toy.toy;
  sha512 := @sha512 Toy.toy;
  Scalar := @Scalar Toy.toy;
  Point := @Point Toy.toy;
  SetBytesWithClamping := @SetBytesWithClamping Toy.toy;
  SetUniformBytes := @SetUniformBytes Toy.toy;
  MultiplyAdd := @MultiplyAdd Toy.toy;
  Scalar_Bytes := @Scalar_Bytes Toy.toy;
  ScalarBaseMult := @ScalarBaseMult Toy.toy;
  Point_Add := @Point_Add Toy.toy;
  Point_Mult := @Point_Mult Toy.toy;
  Point_Bytes := @Point_Bytes Toy.toy;
  Point_SetBytes := @Point_SetBytes Toy.toy;
  small_order := @small_order Toy.toy;
  ed25519_Verify := @ed25519_Verify Toy.toy
|}.

Lemma odd_some a p s : odd_x a p = Some s -> length a = 32%nat /\ length p = 32%nat /\ s = be 32 ((2 * unbe a + 1) * unbe p).
Proof. unfold odd_x. case_bool_decide as H; [|done]. intros [= <-]. tauto. Qed.

(** An odd factor keeps what is not zero. *)
Lemma odd_factor a b : (2 * a + 1) * ((2 * b + 1) * 9) mod 2 ^ 256 <> 0 /\ (2 * a + 1) * 9 mod 2 ^ 256 <> 0.
Proof.
  assert (forall x, Z.odd x = true -> x mod 2 ^ 256 <> 0) as Hodd.
  { intros x Hx Hm. apply Z.mod_divide in Hm as [q ->]; [|done]. by rewrite Z.odd_mul, andb_false_r in Hx. }
  split; apply Hodd; rewrite !Z.odd_mul, !Z.odd_add, !Z.odd_mul; done.
Qed.

Lemma odd_comm a b pa pb : length a = 32%nat -> length b = 32%nat -> odd_x a Toy.toy_base = Some pa -> odd_x b Toy.toy_base = Some pb -> odd_x a pb = odd_x b pa.
Proof.
  intros Ha Hb (_ & _ & ->)%odd_some (_ & _ & ->)%odd_some. change (unbe Toy.toy_base) with 9. unfold odd_x. rewrite !length_be, !unbe_be.
  change (8 * Z.of_nat 32) with 256. destruct (odd_factor (unbe a) (unbe b)) as [_ H1], (odd_factor (unbe b) (unbe a)) as [_ H2].
  rewrite !bool_decide_true by done. f_equal. apply unbe_inj; [by rewrite !length_be|]. rewrite !unbe_be. change (8 * Z.of_nat 32) with 256.
  rewrite !Z.mul_mod_idemp_r by done. f_equal. lia.
Qed.

Definition odd_laws : @PrimitiveLaws odd.
Proof.
  destruct Toy.toy_laws. constructor; cbn [odd X25519 Basepoint hkdf_Extract hkdf_Expand xchacha_Seal xchacha_Open sha256 sha512 Scalar Point SetBytesWithClamping
    SetUniformBytes MultiplyAdd Scalar_Bytes ScalarBaseMult Point_Add Point_Mult Point_Bytes Point_SetBytes small_order ed25519_Verify]; try assumption.
  - intros a p s (_ & _ & ->)%odd_some. apply length_be.
  - exact odd_comm.
Qed.

Lemma odd_zero k : @X25519 odd k (replicate 32 x00) = None.
Proof. cbn. unfold odd_x. rewrite bool_decide_false; [done|]. by intros (_ & _ & H). Qed.

End ConformanceDemo.

(** The suite over these stand-ins: what they lack shows. *)
Module ConformanceRun.

Definition ent : bytes := List.concat (map (fun i => be 8 (i * 62710561 * 104729 + 77)) (seqZ 1 40)).

Definition some_tests : list (string * Test) :=
  List.filter (fun '(name, _) => existsb (String.eqb name)
    ["AgreeMatches"; "AgreeRejectsBadInput"; "DeriveKeyRejectsBadInput"; "MixKeyRejectsBadInput"; "GoldenMixKey"; "AEADRoundTrip"; "Signatures"]%string)
    (@tests (@C25519.provider ConformanceDemo.odd)).

Example stand_ins : run_tests some_tests ent =
  [("AgreeMatches", Ok tt); ("AgreeRejectsBadInput", Ok tt); ("DeriveKeyRejectsBadInput", Ok tt); ("MixKeyRejectsBadInput", Ok tt);
   ("GoldenMixKey", Err (Other "MixKey")); ("AEADRoundTrip", Err (Other "ciphertext contains the plaintext")); ("Signatures", Ok tt)]%string.
Proof. vm_compute. reflexivity. Qed.

End ConformanceRun.

Lemma lawful_reports_witness : fst (@testAgreeMatches (@C25519.provider ConformanceDemo.odd) ConformanceRun.ent) = Ok tt /\
  reports ["Hash collision on trivial input"%string] (@testHash (@C25519.provider ConformanceDemo.odd)) (fun _ => True).
Proof.
  split; [vm_compute; reflexivity|].
  exact (proj1 (proj2 (proj2 (proj2 (@lawful_reports (@C25519.provider ConformanceDemo.odd) (@C25519.laws ConformanceDemo.odd ConformanceDemo.odd_laws)))))).
Defined.

Import ToyGost.

Lemma bad_inputs_refused_witness : @Suites.New _ ConformanceDemo.odd SuiteC25519 = Ok (@C25519.provider ConformanceDemo.odd) /\
  fst (@testDeriveKeyBadInput (@C25519.provider ConformanceDemo.odd) ConformanceRun.ent) = Ok tt.
Proof.
  split; [reflexivity|].
  exact (proj1 (proj2 (@bad_inputs_refused _ _ ConformanceDemo.odd ConformanceDemo.odd_laws SuiteC25519 _ ConformanceRun.ent eq_refl eq_refl ConformanceDemo.odd_zero))).
Defined.
