(* ===== verification/Golden.v ===== *)
(** * Golden: the golden vectors of the c25519 suite, computed

    The vectors of [src/crypto/providertest/kdf.go] pin the key schedule to bytes.  Here
    the tests that compare them are run on the model of the c25519 suite with the hash
    of Digest: whoever implements the primitives, if the hash and HKDF are those of
    their standards and X25519 gives what RFC 7748 publishes for its two keys, the labels,
    transcripts, contexts and derivations of the model give the vectors. *)

From Stdlib Require Import Strings.Byte Strings.String.
From S2P Require Import Prelude Effects Crypto C25519 Toy Gost Suites Text Digest Conformance.

(** ** Tests that compare the same things *)

Lemma bindD_ext {A B} (m m' : Draw A) (k k' : A -> Draw B) e : m e = m' e -> (forall a e, k a e = k' a e) -> bindD m k e = bindD m' k' e.
Proof. intros Hm Hk. unfold bindD. rewrite Hm. by destruct (m' e) as [[a|x] e']. Qed.

Lemma each_ext {A} (f f' : A -> Test) l : (forall a e, f a e = f' a e) -> forall e, each f l e = each f' l e.
Proof. intros Hf. induction l as [|a l IH]; intros e; [done|]. cbn [each]. by apply bindD_ext. Qed.

(** ** The standards *)

Definition keyA : bytes := Eval vm_compute in unhex (ga_privA (gs_agree goldenC25519)).
Definition keyB : bytes := Eval vm_compute in unhex (ga_privB (gs_agree goldenC25519)).
Definition pointA : bytes := Eval vm_compute in unhex (ga_pubA (gs_agree goldenC25519)).
Definition pointB : bytes := Eval vm_compute in unhex (ga_pubB (gs_agree goldenC25519)).

(** The shared secret of RFC 7748, 6.1. *)
Definition sharedAB : bytes := be 32 0x4a5d9d5ba4ce2de1728e3bf480350f25e07e21c947d19e3376f09b3c1e161742.

(** What the primitives of the suite must be for the vectors to come out. *)
Record standard (X : Primitives) : Prop := {
  st_sha256 m : @sha256 X m = Digest.sha256 m;
  st_extract s t : @hkdf_Extract X s t = Digest.hkdf_extract s t;
  st_expand k i n : (n <= 32)%nat -> @hkdf_Expand X k i n = Digest.hkdf_expand k i n;
  st_size a p s : @X25519 X a p = Some s -> length s = 32%nat;
  st_AB : @X25519 X keyA pointB = Some sharedAB;
  st_BA : @X25519 X keyB pointA = Some sharedAB
}.

(** The primitives of [Toy] with the hash, HKDF and that one agreement. *)
Definition vectors : Primitives := {|
  X25519 a p := if bool_decide ((a = keyA /\ p = pointB) \/ (a = keyB /\ p = pointA)) then Some sharedAB else Toy.toy_x a p;
  Basepoint := Toy.toy_base;
  hkdf_Extract := Digest.hkdf_extract;
  hkdf_Expand := Digest.hkdf_expand;
  xchacha_Seal := @xchacha_Seal Toy.toy;
  xchacha_Open := @xchacha_Open Toy.toy;
  sha256 := Digest.sha256;
  sha512 := @sha512 Toy.toy;
  Scalar := @Scalar Toy.toy;
  Point := @Point Toy.toy;
  SetBytesWithClamping := @SetBytesWithClamping Toy.toy;
  SetUniformBytes := @SetUniformBytes Toy.toy;
  MultiplyAdd := @MultiplyAdd Toy.toy;
  Scalar_Bytes := @Scalar_Bytes Toy.toy;
  ScalarBaseMult := @ScalarBaseMult Toy.toy;
  Point_Add := @Point_Add Toy.toy;
  Point_Mult := @Point_Mult Toy.toy;
  Point_Bytes := @Point_Bytes Toy.toy;
  Point_SetBytes := @Point_SetBytes Toy.toy;
  small_order := @small_order Toy.toy;
  ed25519_Verify := @ed25519_Verify Toy.toy
|}.

Lemma vectors_standard : standard vectors.
Proof.
  split; try done.
  intros a p s H. cbn [X25519 vectors] in H. case_bool_decide; [by injection H as <-|]. apply Toy.toy_x_some in H as (_ & _ & ->). apply length_be.
Qed.

Lemma golden_first X {B} (k : goldenSuite -> Draw B) e : bindD (@goldenFor (@C25519.provider X)) k e = k goldenC25519 e.
Proof. done. Qed.

Section Same.
Context (X : Primitives) (HX : standard X).

Abbreviation Ours := (@C25519.provider X).
Abbreviation Theirs := (@C25519.provider vectors).

Lemma context_same exchange parts : @NewContext Ours exchange parts = @NewContext Theirs exchange parts.
Proof.
  unfold NewContext. change (@Suite Ours) with (@Suite Theirs). destruct (TranscriptBytes _ exchange parts) as [t|x]; [|done]. cbn [rbind].
  change (@Hash Ours t) with (@sha256 X t). by rewrite (st_sha256 X HX).
Qed.

Lemma derive_same secret purpose ctx n : @DeriveKey Ours secret purpose ctx n = @DeriveKey Theirs secret purpose ctx n.
Proof.
  cbn. unfold C25519.DeriveKey, C25519.expand, C25519.keySize. destruct (negb (length secret =? 32)%nat); [done|].
  destruct ((n =? 0)%nat || (32 <? n)%nat) eqn:E; [done|]. destruct (negb (C25519.owns ctx)); [done|]. destruct (DeriveLabel _ purpose); [|done]. cbn [rbind].
  apply orb_false_iff in E as [_ E%Nat.ltb_ge]. by rewrite (st_expand X HX).
Qed.

Lemma mix_same chain secret ctx : @MixKey Ours chain secret ctx = @MixKey Theirs chain secret ctx.
Proof.
  cbn. unfold C25519.MixKey, C25519.extractExpand, C25519.expand. destruct (_ || _); [done|]. destruct (negb _); [done|]. destruct (Label _ _); [|done]. cbn [rbind].
  by rewrite (st_extract X HX), (st_expand X HX) by (unfold C25519.keySize; lia).
Qed.

Lemma agree_same a p ctx : (a = keyA /\ p = pointB) \/ (a = keyB /\ p = pointA) -> @Agree Ours a p ctx = @Agree Theirs a p ctx.
Proof.
  intros Hap. assert (@X25519 X a p = @X25519 vectors a p) as E
    by (destruct Hap as [[-> ->]|[-> ->]]; rewrite ?(st_AB X HX), ?(st_BA X HX), ?(st_AB _ vectors_standard), ?(st_BA _ vectors_standard); done).
  cbn. unfold C25519.Agree, C25519.extractExpand, C25519.expand. destruct (negb (length a =? _)%nat); [done|]. destruct (negb (C25519.owns ctx)); [done|].
  destruct (Label _ _); [|done]. cbn [rbind]. destruct (negb (length p =? _)%nat); [done|]. rewrite E. destruct (@X25519 vectors a p); [|done].
  by rewrite (st_extract X HX), (st_expand X HX) by (unfold C25519.keySize; lia).
Qed.

Lemma contexts_same e : @goldenContexts Ours e = @goldenContexts Theirs e.
Proof.
  unfold goldenContexts. apply bindD_ext; [done|]. intros g e0. cbv zeta. unfold mustContext. rewrite !context_same. done.
Qed.

Lemma derive_test_same e : @testGoldenDeriveKey Ours e = @testGoldenDeriveKey Theirs e.
Proof.
  unfold testGoldenDeriveKey. apply bindD_ext; [done|]. intros g e0. apply bindD_ext; [apply contexts_same|]. intros ctxs e1. apply each_ext. intros d e2.
  unfold mustDerive. by rewrite derive_same.
Qed.

Lemma mix_test_same e : @testGoldenMixKey Ours e = @testGoldenMixKey Theirs e.
Proof.
  unfold testGoldenMixKey. apply bindD_ext; [done|]. intros g e0. apply bindD_ext; [apply contexts_same|]. intros ctxs e1. unfold mustMix. by rewrite mix_same.
Qed.

Lemma agree_test_same e : @testGoldenAgree Ours e = @testGoldenAgree Theirs e.
Proof.
  unfold testGoldenAgree. rewrite (golden_first X), (golden_first vectors). cbv beta zeta. unfold mustContext. rewrite !context_same. apply bindD_ext; [done|]. intros ctx e1. apply bindD_ext; [done|]. intros _ e2.
  cbn [each]. set (g := gs_agree goldenC25519).
  apply bindD_ext; [|intros _ e3; apply bindD_ext; [|done]].
  - apply bindD_ext; [by rewrite (agree_same (unhex (ga_privA g)) (unhex (ga_pubB g)) ctx (or_introl (conj eq_refl eq_refl)))|]. intros s e4. apply bindD_ext; [done|]. intros _ e5. unfold mustDerive. by rewrite derive_same.
  - apply bindD_ext; [by rewrite (agree_same (unhex (ga_privB g)) (unhex (ga_pubA g)) ctx (or_intror (conj eq_refl eq_refl)))|]. intros s e4. apply bindD_ext; [done|]. intros _ e5. unfold mustDerive. by rewrite derive_same.
Qed.

Lemma transcript_test_same e pub priv e' : @GenerateEphemeral Ours e = (Ok (priv, pub), e') ->
  @testGoldenTranscript Ours e = (let% ctxs := @goldenContexts Theirs in each (fun '(ctx, th) => expect (same (hex_encode (ctx_sum ctx)) th) "th") (zip ctxs (gs_th goldenC25519))) e'.
Proof.
  intros Hg. assert (length pub = 32%nat) as Hl.
  { cbn in Hg. unfold C25519.GenerateEphemeral in Hg. destruct (read_full _ e) as [[p|x] e1]; [|done]. destruct (X25519 p Basepoint) eqn:E; [|done].
    injection Hg as _ <- _. by apply (st_size X HX) in E. }
  unfold testGoldenTranscript. rewrite (golden_first X). cbv beta zeta. unfold bindD at 1, mustEphemeral, bindD at 1, mustD. rewrite Hg.
  unfold bindD at 1. rewrite Hl. cbn [Nat.eqb negb expect okD gs_pubSize goldenC25519]. rewrite Hl. cbn [Nat.eqb expect]. unfold bindD at 1. cbn [okD].
  apply bindD_ext; [apply contexts_same | done].
Qed.

End Same.

(** *** The vectors *)

Lemma derive_vectors e : fst (@testGoldenDeriveKey (@C25519.provider vectors) e) = Ok tt.
Proof. vm_compute. reflexivity. Qed.

Lemma mix_vector e : fst (@testGoldenMixKey (@C25519.provider vectors) e) = Ok tt.
Proof. vm_compute. reflexivity. Qed.

Lemma agree_vector e : fst (@testGoldenAgree (@C25519.provider vectors) e) = Ok tt.
Proof. vm_compute. reflexivity. Qed.

Lemma transcript_vectors e :
  fst ((let% ctxs := @goldenContexts (@C25519.provider vectors) in
        each (fun '(ctx, th) => expect (same (hex_encode (ctx_sum ctx)) th) "th") (zip ctxs (gs_th goldenC25519))) e) = Ok tt.
Proof. vm_compute. reflexivity. Qed.

(** C6. The key schedule gives the published bytes.  For every implementation of the
    primitives of the c25519 suite whose SHA-256 and HKDF are the standard ones and whose
    X25519 gives the shared secret RFC 7748 publishes for its pair of keys, the four
    golden tests of the conformance suite pass: the three transcript hashes, the nine
    derived keys and offsets, the mixed key, and the agreed secret with the key behind it,
    on both sides, are those listed, byte for byte. *)
Theorem golden_vectors X e : standard X ->
  (fst (@testGoldenTranscript (@C25519.provider X) e) = Ok tt \/ is_ok (fst (@GenerateEphemeral (@C25519.provider X) e)) = false) /\
  fst (@testGoldenDeriveKey (@C25519.provider X) e) = Ok tt /\
  fst (@testGoldenMixKey (@C25519.provider X) e) = Ok tt /\
  fst (@testGoldenAgree (@C25519.provider X) e) = Ok tt.
Proof.
  intros HX. split_and!.
  - destruct (@GenerateEphemeral (@C25519.provider X) e) as [[[priv pub]|x] e'] eqn:Eg; [left | by right].
    rewrite (transcript_test_same X HX e pub priv e' Eg). apply transcript_vectors.
  - rewrite (derive_test_same X HX). apply derive_vectors.
  - rewrite (mix_test_same X HX). apply mix_vector.
  - rewrite (agree_test_same X HX). apply agree_vector.
Qed.

Lemma golden_vectors_witness : standard vectors /\ fst (@testGoldenTranscript (@C25519.provider vectors) (replicate 32 x07)) = Ok tt.
Proof.
  split; [exact vectors_standard|]. destruct (golden_vectors vectors (replicate 32 x07) vectors_standard) as [[H|H] _]; [exact H | vm_compute in H; discriminate H].
Defined.
